(* ===== verification/_CoqProject ===== *)
-Q . S2P
Prelude.v
Arith.v
Double128.v
BigUint.v
BigUintLaws.v
BigUintDiv.v
Perquintill.v
RewardFn.v
RewardFnAccuracy.v
EraPayout.v
StakingLedger.v
Errors.v
Frame.v
Balances.v
BalancesLaws.v
Assets.v
AssetsLaws.v
Crowdfunding.v
CrowdfundingMath.v
CrowdfundingSpec.v
CrowdfundingInv.v
CrowdfundingFunds.v
CrowdfundingCorrect.v
CrowdfundingTheorems.v
Rwa.v
RwaSpec.v
RwaInv.v
RwaParts.v
RwaCorrect.v
RwaReach.v
RwaMachine.v
RwaRefine.v
RwaEvolve.v
RwaFunds.v
RwaCustody.v
RwaTheorems.v
TrustlessAgent.v
TrustlessAgentSpec.v
TrustlessAgentInv.v
TrustlessAgentReputation.v
TrustlessAgentFunds.v
TrustlessAgentTheorems.v
Ledger.v
CrowdfundingPayments.v
RwaPayments.v
TrustlessAgentPayments.v
Runtime.v
Leafchain.v
LeafchainTheorems.v
Migrations.v
Samples.v
CrowdfundingWitnesses.v
RwaWitnesses.v
TrustlessAgentWitnesses.v
LeafchainWitnesses.v
Grandpa.v
FinalityRescue.v
Dao.v
DaoTheorems.v
Rootchain.v
HostConfig.v
Configuration.v
ConfigurationSpec.v
ConfigVersions.v
ConfigMigrations.v
RootMigrations.v
ConfigWitnesses.v
Proxies.v
RootProxies.v
LeafProxies.v
Session.v
SessionTheorems.v
SessionUpgrade.v
StakingBonds.v
StakingBondLaws.v
