(* ===== verification/Prelude.v ===== *)
(** * Verification of the THXNET runtime pallets

    THXNET is a relay chain (the root chain) with parachains (leafchains).  This
    library models the pallets THXNET wrote for both, under src/thxnet, together
    with the parts of Substrate they stand on, and proves what makes them
    correct.  Definitions are executable and keep the names of the source.

    ** The program and its models

    The leafchain (src/thxnet/leafchain) runs three pallets on one ledger:

    - pallet-crowdfunding: campaigns collect money in a sub-account each, pay it
      out to the creator or in milestones, or refund it.  Crowdfunding.v has its
      storage ([State]), its twenty dispatchables, the queries of its runtime API
      and [do_try_state].
    - pallet-rwa: real-world assets, participations in them against a deposit,
      slashing, sunset and retirement.  Rwa.v has its storage, its dispatchables,
      the hook [on_initialize], the queries and [do_try_state].
    - pallet-trustless-agent: registries of agents, of feedback on them with a
      reputation, of validations, and escrows.  TrustlessAgent.v has its storage,
      its twenty-two dispatchables and its queries.

    The first two ask each other before some operations, through
    [LicenseVerifier] and [AssetLifecycleGuard]; Runtime.v has the instances of
    src/thxnet/leafchain/runtime/general/src/impls.rs and the configuration of
    the three pallets.  Leafchain.v puts the three on one ledger: one record of
    all storages, [runtime_dispatch], and [initialize_block] with the hook.
    Migrations.v has what a runtime upgrade does to their storages.

    The root chain (src/thxnet/runtime/thxnet) has pallet-dao (Dao.v: topics and
    votes) and pallet-finality-rescue (FinalityRescue.v: the emergency call that
    forces a change of the GRANDPA authorities), on top of pallet-grandpa of
    Substrate (Grandpa.v).  Rootchain.v has their configuration.

    As a relay chain it also has the pallet of the host configuration
    (src/polkadot/runtime/parachains/src/configuration.rs): HostConfig.v has the
    configuration and its check, Configuration.v the forty-eight calls, genesis
    and the change of a session.  THXNET upgraded its storage from version 4 to
    version 12 in one step, with two migrations of its own and the old ones it
    ported back: ConfigVersions.v has the configuration of every version in
    between, ConfigMigrations.v the eight migrations, RootMigrations.v
    [EnableAsyncBackingAndCoretime] and [FixGrandpaFinalityDeadlock].

    Validators and their stake are Substrate's: Session.v has pallet-session
    (substrate/frame/session), SessionUpgrade.v the session keys of the root chains
    and the migration that dropped one of them; StakingLedger.v has the ledger of a
    staker and StakingBonds.v the calls of pallet-staking that bond and unbond, with
    the locks of pallet-balances.  What an era pays is in EraPayout.v: [era_payout]
    of the runtimes and [end_era] of pallet-staking, on the reward curve of
    substrate/frame/staking/reward-fn, RewardFn.v.

    Both chains let accounts act for others, within the filter of a proxy type:
    Proxies.v has the filter pallet-proxy puts on a call, RootProxies.v and
    LeafProxies.v the proxy types of the two runtimes.

    Substrate below the pallets: Balances.v (frame_system reference counts and
    pallet-balances), Assets.v (the fungibles of pallet-assets), Arith.v (machine
    integers, [Permill], rational multiplication), Double128.v (the 128-bit helpers),
    BigUint.v and BigUintDiv.v (numbers of many limbs), Perquintill.v, Errors.v (the
    error enums) and Frame.v (origins, derived accounts and the interfaces of the
    runtime).

    ** How code is modelled

    A dispatchable is a function of the state-and-error monad [M] below, over an
    [Env]: the storage of the pallet, its surroundings and the events.  An [Err]
    returns no storage, as FRAME rolls a failed call back.  The surroundings are
    abstract: Frame.v has a class of operations for each interface ([System],
    [Currency], [ReservableCurrency], [Fungibles]) and a class of laws
    ([WorldLaws], [ReserveLaws]).  The theorems on a pallet are proved against
    the laws; BalancesLaws.v and AssetsLaws.v prove the laws of the models of
    pallet-balances and pallet-assets, and Runtime.v discharges the classes.

    Integers are [Z] with their width written out: [saturating_*], [checked_*]
    and, where the Rust code uses a bare operator, [wrap], the behaviour of a
    release build.  In Dao.v, where an [expect] could panic, a panic is a value of
    its own ([Fault]).  Byte strings are lists of integers, accounts
    and hashes are integers, storage maps are [gmap]s.  Whether bytes are UTF-8
    is decided by the crate simdutf8, a parameter of Dao.v; no theorem assumes
    anything of it.

    Recursion is structural, over lists or finite maps, except for the loops of the
    arithmetic, which take fuel and return [None] without it.  Theorems say how much
    is enough, and that the result is then right: the division of a 256-bit product
    130 rounds, [gcd] 256, [sqrt] 64, the correction of a limb in a long division 1,
    the Taylor series 223 terms (the source stops at 300), and [rebond] one round per
    chunk and one more.  Callers pass these bounds.

    ** Files and theorems

    Each pallet has a file of definitions, a file [*Spec] that says what a
    successful run of each dispatchable did, files for its invariants, a file
    [*Theorems] with its properties, and a file [*Witnesses] with runs on the
    concrete ledger at which every property is applied.

    - crowdfunding: CrowdfundingSpec, CrowdfundingInv (the invariant, campaign by
      campaign), CrowdfundingFunds (custody), CrowdfundingMath (fees and refunds),
      CrowdfundingCorrect (reachable states), CrowdfundingTheorems: no reachable
      storage fails [do_try_state], every sub-account holds what its campaign
      owes, statuses follow a state machine, each payment is exact and made once,
      the queries agree with the calls.
    - rwa: RwaSpec, RwaInv, RwaParts, RwaCorrect and RwaReach (invariant),
      RwaMachine and RwaRefine (an abstract machine of assets and participations,
      and the refinement), RwaEvolve, RwaFunds and RwaCustody (money),
      RwaTheorems: refinement, custody of deposits, life cycles, authority,
      the hook, and the queries.
    - trustless-agent: TrustlessAgentSpec ([agent_move], one rule per change),
      TrustlessAgentInv (registries and indexes agree), TrustlessAgentReputation
      (the reputation as a mean), TrustlessAgentFunds (what the reserves are held
      for), TrustlessAgentTheorems.
    - composition: Ledger, CrowdfundingPayments, RwaPayments and
      TrustlessAgentPayments (whose money a call moves), Leafchain and
      LeafchainTheorems: the pallets do not touch each other's accounts and
      storages, all custodies hold together, the reserves cover the claims of two
      pallets at once, and what a license means.
    - migrations: an upgrade that its checks accept keeps every storage item.
    - root chain: FinalityRescue (the whole outcome of a rescue, and that the
      forced change is enacted), DaoTheorems (the ballot box is the tally of the
      ballots cast, no call panics, topics are read back as raised).
    - host configuration: ConfigurationSpec (the pallet implements a pipeline of
      three configurations, and all of them stay consistent), ConfigMigrations
      (the upgrade is complete and loses no parameter), RootMigrations (what
      enabling asynchronous backing sets and keeps, when the result is consistent,
      and what a pending configuration undoes), ConfigWitnesses.
    - arithmetic: Double128 (the 128-bit helpers end and compute what Arith.v says),
      BigUintLaws and BigUintDiv (the arithmetic of limbs is that of the integers, and
      long division is division), RewardFn and RewardFnAccuracy (the Taylor series
      ends, and the reward curve is within 10^-13 of the one documented; the only file
      with real numbers), EraPayout (an era mints its budget).
    - session: SessionTheorems (key owners are the inverse of the registered keys;
      what a new session runs with and queues, and when no change is announced),
      SessionUpgrade (the upgrade of the keys is complete and independent of the
      order of iteration).
    - staking: StakingLedger (what withdrawing, rebonding and slashing take, and that
      a ledger adds up), StakingBondLaws (bonds, ledgers and locks agree in every
      reachable state, and unbonding waits).
    - proxies: RootProxies and LeafProxies say exactly which calls a delegate
      reaches, also through proxies it adds.

    Samples.v has the concrete ledger of the witnesses.

    ** Assumptions the theorems name

    - [world_wf k]: the ledger is consistent and has room for [k] more asset
      accounts in the reference counters of an account (they are u32).
    - Calls have arguments of their types ([typed_call] and the like), and are
      not signed by the accounts of the pallets themselves ([external],
      [outsider]): nobody has a key of a derived account.
    - Between calls the rest of the runtime does anything but take from the
      accounts of the pallets, lower reserves or change the minimum balance of an
      asset ([benign], [rest_moves], [held_rest]).  pallet-sudo and governance can
      break this, as they can rewrite any storage.
    - [slash_fits]: the shares of a slash do not round up to more than the slashed
      amount.  RwaWitnesses shows a distribution that does.
    - [issuance_fits]: two accounts together do not have more than a balance can
      hold, as the total issuance is one.
    - [fair]: no completed validation request of the account is answered again and
      agents come to the account with their deposit.  The code ensures neither;
      LeafchainWitnesses shows a registration deposit of pallet-rwa that is paid
      out as a second reward.
    - [Codec]: decoding gives back what was encoded, for the storage items of the
      host configuration.  ConfigWitnesses has a codec.
    - Sessions are numbered one after the other and below 2^32 - 2.
    - A staked reward does not take a stake beyond a u128, as the total issuance is
      one; free balances are not negative ([bond_step]).
    - The list of voters and the conversion of a stake to a vote are an interface
      ([VoterListOps]); no theorem assumes anything of it.

    ** Not modelled

    Weights, benchmarks and fees: they do not change what a call does to the
    storage.  Dispatchables of pallet-balances and pallet-assets, holds and freezes:
    the pallets do not call them; outside StakingBonds.v locks appear as [frozen].
    Elections, exposures, offences and the paging of payouts of pallet-staking, and
    the historical sessions: they depend on the election provider and on off-chain
    solutions, which are not part of a runtime call.  Migrations of other pallets and
    those that only stamp a version, the XCM configuration and the remaining pallets
    of the runtimes: they are Substrate's, only configured here.
    Of pallet-proxy the storage, deposits and announcements, and of the parachain
    scheduler how it fills its queue: only what THXNET configures or resets of them
    is its own.  The nodes, RPC servers and the
    GRANDPA client: asynchronous I/O outside the runtime; what the client does with
    a forced change is visible here only as the digest logs.  SCALE encodings and
    hashing of storage keys: a storage map is a finite map, and where a migration
    reads the bytes of another version the codec is a parameter. *)

From stdpp Require Export base gmap list sets fin_maps fin_sets sorting strings.
From Stdlib Require Export ZArith Lia.

#[global] Open Scope Z_scope.
#[global] Set Default Goal Selector "!".
#[global] Set Warnings "-clear-no-such-hyp".

(** Facts on vectors and on amounts that proofs use without naming them. *)
Create HintDb vec.
Create HintDb amounts.

(** ** Results and the dispatch monad *)

(** Rust's [Result<A, E>]. *)
Inductive result (E A : Type) : Type :=
| Ok (a : A)
| Err (e : E).
Arguments Ok {_ _} _.
Arguments Err {_ _} _.

Definition is_ok {E A} (r : result E A) : bool :=
  match r with Ok _ => true | Err _ => false end.

Definition map_err {E E' A} (f : E → E') (r : result E A) : result E' A :=
  match r with Ok a => Ok a | Err e => Err (f e) end.

(** A computation that reads and writes a storage of type [S] and fails with
    an [E].  A failing computation returns no storage: FRAME runs every
    dispatchable inside a storage transaction that an [Err] rolls back. *)
Definition M (E S A : Type) : Type := S → result E (A * S).

#[global] Instance M_ret E S : MRet (M E S) := λ A a s, Ok (a, s).
#[global] Instance M_bind E S : MBind (M E S) := λ A B f m s,
  match m s with
  | Ok (a, s') => f a s'
  | Err e => Err e
  end.

(** [s ⊢ m ⇝ s']: [m] succeeds from [s] and leaves [s']. *)
Declare Scope runtime_scope.
Notation "s ⊢ m ⇝ s'" := (m s = Ok (tt, s')) (at level 70, m at level 69, no associativity) : runtime_scope.
#[global] Open Scope runtime_scope.

Section monad.
Context {E S : Type}.

Definition fail {A} (e : E) : M E S A := λ _, Err e.
Definition gets {A} (f : S → A) : M E S A := λ s, Ok (f s, s).
Definition modify (f : S → S) : M E S unit := λ s, Ok (tt, f s).

(** [ensure!(b, e)] *)
Definition ensure (b : bool) (e : E) : M E S unit :=
  if b then mret tt else fail e.

(** [o.ok_or(e)?] *)
Definition ok_or {A} (o : option A) (e : E) : M E S A :=
  match o with Some a => mret a | None => fail e end.

(** [r?], for a computation that does not touch the storage. *)
Definition of_result {A} (r : result E A) : M E S A :=
  match r with Ok a => mret a | Err e => fail e end.

(** [if b { m }] *)
Definition when (b : bool) (m : M E S unit) : M E S unit :=
  if b then m else mret tt.

(** [if let Some(x) = o { ensure!(p(x), e); }] *)
Definition ensure_some {A} (o : option A) (p : A → bool) (e : E) : M E S unit :=
  match o with Some x => ensure (p x) e | None => mret tt end.

(** [for x in l { f(x)?; }] *)
Fixpoint for_each {A} (l : list A) (f : A → M E S unit) : M E S unit :=
  match l with
  | [] => mret tt
  | x :: l' => f x ;; for_each l' f
  end.

(** The storage a call leaves behind: its own on success, the old one when
    the transaction is rolled back. *)
Definition committed {A} (m : M E S A) (s : S) : S :=
  match m s with Ok (_, s') => s' | Err _ => s end.
End monad.

(** Inversion of successful runs, one lemma per combinator. *)
Section monad_lemmas.
Context {E S : Type}.
Implicit Types s : S.

Lemma bind_ok {A B} (m : M E S A) (f : A → M E S B) s b s' :
  (m ≫= f) s = Ok (b, s') ↔
  ∃ a s1, m s = Ok (a, s1) ∧ f a s1 = Ok (b, s').
Proof.
  unfold mbind, M_bind. destruct (m s) as [[a s1]|e]; split.
  - intros H. by exists a, s1.
  - by intros (a' & s1' & [= <- <-] & H).
  - done.
  - by intros (a' & s1' & ? & _).
Qed.

Lemma ret_ok {A} (a b : A) s s' :
  (mret a : M E S A) s = Ok (b, s') ↔ b = a ∧ s' = s.
Proof. unfold mret, M_ret. naive_solver. Qed.

Lemma fail_ok {A} (e : E) (b : A) s s' : fail e s = Ok (b, s') ↔ False.
Proof. unfold fail. naive_solver. Qed.

Lemma gets_ok {A} (f : S → A) b s s' :
  gets (E:=E) f s = Ok (b, s') ↔ b = f s ∧ s' = s.
Proof. unfold gets. naive_solver. Qed.

Lemma modify_ok (f : S → S) u s s' :
  modify (E:=E) f s = Ok (u, s') ↔ s' = f s.
Proof. unfold modify. destruct u. naive_solver. Qed.

Lemma ensure_ok b (e : E) u s s' :
  ensure b e s = Ok (u, s') ↔ b = true ∧ s' = s.
Proof.
  unfold ensure. destruct u, b.
  - rewrite ret_ok. naive_solver.
  - rewrite fail_ok. naive_solver.
Qed.

Lemma ok_or_ok {A} (o : option A) (e : E) a s s' :
  ok_or o e s = Ok (a, s') ↔ o = Some a ∧ s' = s.
Proof.
  unfold ok_or. destruct o.
  - rewrite ret_ok. naive_solver.
  - rewrite fail_ok. naive_solver.
Qed.

Lemma of_result_ok {A} (r : result E A) a s s' :
  of_result r s = Ok (a, s') ↔ r = Ok a ∧ s' = s.
Proof.
  unfold of_result. destruct r.
  - rewrite ret_ok. naive_solver.
  - rewrite fail_ok. naive_solver.
Qed.

Lemma when_ok b (m : M E S unit) u s s' :
  when b m s = Ok (u, s') ↔
  (b = true ∧ m s = Ok (tt, s')) ∨ (b = false ∧ s' = s).
Proof.
  unfold when. destruct u, b; [|rewrite ret_ok]; naive_solver.
Qed.

Lemma ensure_some_ok {A} (o : option A) p (e : E) u s s' :
  ensure_some o p e s = Ok (u, s') ↔ (∀ x, o = Some x → p x = true) ∧ s' = s.
Proof.
  unfold ensure_some. destruct u, o; [rewrite ensure_ok|rewrite ret_ok]; naive_solver.
Qed.

Lemma for_each_nil_ok {A} (f : A → M E S unit) u s s' :
  for_each [] f s = Ok (u, s') ↔ s' = s.
Proof. simpl. rewrite ret_ok. destruct u. naive_solver. Qed.

Lemma for_each_cons_ok {A} x (l : list A) (f : A → M E S unit) u s s' :
  for_each (x :: l) f s = Ok (u, s') ↔
  ∃ s1, f x s = Ok (tt, s1) ∧ for_each l f s1 = Ok (u, s').
Proof.
  simpl. rewrite bind_ok. split.
  - intros ([] & s1 & ? & ?). eauto.
  - intros (s1 & ? & ?). eauto.
Qed.

(** Rule of invariants for loops: what one iteration preserves, a loop that
    ends preserves. *)
Lemma for_each_total {A} (l : list A) (f : A → M E S unit) s :
  (∀ x s, ∃ s', f x s = Ok (tt, s')) → ∃ s', for_each l f s = Ok (tt, s').
Proof.
  intros Hf. revert s. induction l as [|x l IH]; intros s.
  - exists s. by apply for_each_nil_ok.
  - destruct (Hf x s) as [s1 H1]. destruct (IH s1) as [s' Hl]. exists s'.
    apply for_each_cons_ok. eauto.
Qed.

Lemma for_each_inv {A} (I : S → Prop) (l : list A) (f : A → M E S unit) s s' u :
  (∀ x s s', x ∈ l → I s → f x s = Ok (tt, s') → I s') →
  I s → for_each l f s = Ok (u, s') → I s'.
Proof.
  revert s. induction l as [|x l IH]; intros s Hf Hs.
  - by rewrite for_each_nil_ok; intros ->.
  - rewrite for_each_cons_ok. intros (s1 & H1 & H2).
    eapply IH; [|by eapply Hf; [left|..]|exact H2].
    intros y t t' Hy. apply Hf. by right.
Qed.
End monad_lemmas.

(** [minv H] splits a successful monadic run [H] into the facts its guards
    establish and the chain of states it goes through. *)
Ltac minv_step :=
  match goal with
  | H : (_ ≫= _) _ = Ok (_, _) |- _ =>
      apply bind_ok in H as (? & ? & ? & H)
  | H : ∃ _, _ |- _ => destruct H
  | H : _ ∧ _ |- _ => destruct H
  | H : mret _ _ = Ok (_, _) |- _ => apply ret_ok in H as [? ?]; subst
  | H : fail _ _ = Ok (_, _) |- _ => apply fail_ok in H as []
  | H : gets _ _ = Ok (_, _) |- _ => apply gets_ok in H as [? ?]; subst
  | H : modify _ _ = Ok (_, _) |- _ => apply modify_ok in H; subst
  | H : ensure _ _ _ = Ok (_, _) |- _ => apply ensure_ok in H as [? ?]; subst
  | H : ensure_some _ _ _ _ = Ok (_, _) |- _ =>
      apply ensure_some_ok in H as [? ?]; subst
  | H : ok_or _ _ _ = Ok (_, _) |- _ => apply ok_or_ok in H as [? ?]; subst
  | H : of_result _ _ = Ok (_, _) |- _ => apply of_result_ok in H as [? ?]; subst
  | H : Ok _ = Ok _ |- _ => injection H as H; subst
  | H : Err _ = Ok _ |- _ => discriminate H
  | H : Ok _ = Err _ |- _ => discriminate H
  | H : (_, _) = (_, _) |- _ =>
      first [injection H; clear H; intros; subst | clear H]
  | x : unit |- _ => destruct x
  end.
Ltac minv := repeat minv_step.

(** Boolean guards to propositions. *)
Ltac bool_facts :=
  repeat match goal with
  | H : andb _ _ = true |- _ => apply andb_true_iff in H as [? ?]
  | H : orb _ _ = false |- _ => apply orb_false_iff in H as [? ?]
  | H : negb _ = true |- _ => apply negb_true_iff in H
  | H : negb _ = false |- _ => apply negb_false_iff in H
  | H : bool_decide _ = true |- _ => apply bool_decide_eq_true in H
  | H : bool_decide _ = false |- _ => apply bool_decide_eq_false in H
  | H : (_ =? _) = true |- _ => apply Z.eqb_eq in H
  | H : (_ =? _) = false |- _ => apply Z.eqb_neq in H
  | H : (_ <=? _) = true |- _ => apply Z.leb_le in H
  | H : (_ <=? _) = false |- _ => apply Z.leb_gt in H
  | H : (_ <? _) = true |- _ => apply Z.ltb_lt in H
  | H : (_ <? _) = false |- _ => apply Z.ltb_ge in H
  end.

(** Membership of a constructor in a list of constructors. *)
Ltac mem_dec :=
  match goal with
  | |- _ ∈ _ => apply (bool_decide_eq_true_1 _); vm_compute; reflexivity
  | |- ¬ ?P => apply (bool_decide_eq_false_1 P); vm_compute; reflexivity
  | H : _ ∈ _ |- _ =>
      exfalso; apply (bool_decide_eq_true_2 _) in H; vm_compute in H; discriminate H
  | H : ¬ (_ ∈ _) |- _ =>
      exfalso; apply (bool_decide_eq_false_2 _) in H; vm_compute in H; discriminate H
  end.

(** ** Loops of checks *)

(** A loop that stops at the first error. *)
Fixpoint try_for_each {A E} (l : list A) (f : A → option E) : result E unit :=
  match l with
  | [] => Ok tt
  | x :: l' => match f x with Some e => Err e | None => try_for_each l' f end
  end.

Definition and_then {E} (r1 : result E unit) (r2 : result E unit) : result E unit :=
  match r1 with Ok _ => r2 | Err e => Err e end.

Lemma try_for_each_ok {A E} (l : list A) (f : A → option E) :
  (∀ x, x ∈ l → f x = None) → try_for_each l f = Ok tt.
Proof.
  induction l as [|x l IH]; simpl; intros Hf; [done|].
  rewrite Hf by left. apply IH. intros y Hy. apply Hf. by right.
Qed.

Lemma and_then_ok {E} (r1 r2 : result E unit) :
  r1 = Ok tt → r2 = Ok tt → and_then r1 r2 = Ok tt.
Proof. by intros -> ->. Qed.

(** ** The storage of a pallet and its surroundings *)

(** What a dispatchable of a pallet runs on: the pallet's own storage items,
    the rest of the runtime (the other pallets it calls) and the events
    deposited so far, most recent last. *)
Record Env (St W Ev : Type) : Type := mkEnv {
  store : St;
  world : W;
  events : list Ev;
}.
Arguments mkEnv {_ _ _} _ _ _.
Arguments store {_ _ _} _.
Arguments world {_ _ _} _.
Arguments events {_ _ _} _.

Section env.
Context {E St W Ev : Type}.
Abbreviation C := (M E (Env St W Ev)).

Definition reads {A} (f : St → A) : C A := gets (λ e, f (store e)).
Definition asks {A} (f : W → A) : C A := gets (λ e, f (world e)).
Definition writes (f : St → St) : C unit :=
  modify (λ e, mkEnv (f (store e)) (world e) (events e)).
Definition deposit_event (ev : Ev) : C unit :=
  modify (λ e, mkEnv (store e) (world e) (events e ++ [ev])).

(** A call into another pallet: it changes the surroundings only. *)
Definition calls {A} (f : W → result E (A * W)) : C A := λ e,
  match f (world e) with
  | Ok (a, w) => Ok (a, mkEnv (store e) w (events e))
  | Err x => Err x
  end.

(** [match m { Ok(..) => .., Err(..) => .. }]: an error is a value, and the
    failed computation has changed nothing. *)
Definition attempt {A} (m : C A) : C (result E A) := λ e,
  match m e with Ok (a, e') => Ok (Ok a, e') | Err x => Ok (Err x, e) end.

Lemma reads_ok {A} (f : St → A) b e e' :
  reads f e = Ok (b, e') ↔ b = f (store e) ∧ e' = e.
Proof. apply (gets_ok (λ e, f (store e))). Qed.
Lemma asks_ok {A} (f : W → A) b e e' :
  asks f e = Ok (b, e') ↔ b = f (world e) ∧ e' = e.
Proof. apply (gets_ok (λ e, f (world e))). Qed.
Lemma writes_ok f u e e' :
  writes f e = Ok (u, e') ↔ e' = mkEnv (f (store e)) (world e) (events e).
Proof. unfold writes. by rewrite modify_ok. Qed.
Lemma deposit_event_ok ev u e e' :
  deposit_event ev e = Ok (u, e') ↔
  e' = mkEnv (store e) (world e) (events e ++ [ev]).
Proof. unfold deposit_event. by rewrite modify_ok. Qed.
Lemma calls_ok {A} (f : W → result E (A * W)) a e e' :
  calls f e = Ok (a, e') ↔
  ∃ w, f (world e) = Ok (a, w) ∧ e' = mkEnv (store e) w (events e).
Proof.
  unfold calls. destruct (f (world e)) as [[a' w]|x]; naive_solver.
Qed.
End env.

Ltac env_step :=
  match goal with
  | H : reads _ _ = Ok (_, _) |- _ => apply reads_ok in H as [? ?]; subst
  | H : asks _ _ = Ok (_, _) |- _ => apply asks_ok in H as [? ?]; subst
  | H : writes _ _ = Ok (_, _) |- _ => apply writes_ok in H; subst
  | H : deposit_event _ _ = Ok (_, _) |- _ => apply deposit_event_ok in H; subst
  | H : calls _ _ = Ok (_, _) |- _ => apply calls_ok in H as (? & ? & ?); subst
  end.
Ltac einv := repeat first [minv_step | env_step].

(** ** Vectors *)

(** [if let Some(pos) = v.iter().position(|y| y == x) { v.remove(pos); }] *)
Definition remove_first {A} `{EqDecision A} (x : A) (l : list A) : list A :=
  match list_find (λ y, y = x) l with
  | Some (pos, _) => delete pos l
  | None => l
  end.

(** [BoundedVec::try_push] *)
Definition try_push {A} (bound : Z) (l : list A) (x : A) : option (list A) :=
  if Z.of_nat (length l) <? bound then Some (l ++ [x]) else None.

(** [let _ = v.try_push(x);] *)
Definition push_or_skip {A} (bound : Z) (l : list A) (x : A) : list A :=
  default l (try_push bound l x).

(** [v.dedup()]: drops repeated neighbours. *)
Fixpoint dedup {A} `{EqDecision A} (l : list A) : list A :=
  match l with
  | x :: (y :: _) as l' => if decide (x = y) then dedup l' else x :: dedup l'
  | _ => l
  end.

(** [Vec::contains] *)
Definition contains {A} `{EqDecision A} (l : list A) (x : A) : bool :=
  bool_decide (x ∈ l).

Section vec.
Context {A : Type} `{EqDecision A}.
Implicit Types l : list A.

Lemma NoDup_snoc (x : A) l : NoDup l → x ∉ l → NoDup (l ++ [x]).
Proof.
  intros Hl Hx. apply NoDup_app. split_and!; [done|set_solver|apply NoDup_singleton].
Qed.

Lemma remove_first_notin x l : x ∉ l → remove_first x l = l.
Proof.
  intros Hx. unfold remove_first.
  destruct (list_find _ l) as [[i y]|] eqn:Hf; [|done].
  apply list_find_Some in Hf as (Hy & -> & _).
  by apply list_elem_of_lookup_2 in Hy.
Qed.

Lemma remove_first_in x l :
  x ∈ l → ∃ l1 l2, l = l1 ++ x :: l2 ∧ (x ∉ l1) ∧ remove_first x l = l1 ++ l2.
Proof.
  intros Hx. unfold remove_first.
  destruct (list_find _ l) as [[i y]|] eqn:Hf.
  - apply list_find_Some in Hf as (Hy & -> & Hmin).
    exists (take i l), (drop (S i) l). split_and!.
    + by rewrite take_drop_middle.
    + intros (j & Hj)%list_elem_of_lookup_1.
      apply lookup_take_Some in Hj as [Hj ?]. naive_solver.
    + by rewrite delete_take_drop.
  - apply list_find_None in Hf. rewrite Forall_forall in Hf.
    by apply Hf in Hx.
Qed.

Lemma elem_of_remove_first x y l : y ≠ x → (y ∈ remove_first x l ↔ y ∈ l).
Proof.
  intros Hne. destruct (decide (x ∈ l)) as [Hx|Hx].
  - destruct (remove_first_in _ _ Hx) as (l1 & l2 & -> & _ & ->). set_solver.
  - by rewrite remove_first_notin.
Qed.

Lemma remove_first_subseteq x l : remove_first x l ⊆ l.
Proof.
  destruct (decide (x ∈ l)) as [Hx|Hx].
  - destruct (remove_first_in _ _ Hx) as (l1 & l2 & -> & _ & ->). set_solver.
  - by rewrite remove_first_notin.
Qed.

Lemma NoDup_remove_first x l : NoDup l → NoDup (remove_first x l).
Proof.
  intros Hl. destruct (decide (x ∈ l)) as [Hx|Hx].
  - destruct (remove_first_in _ _ Hx) as (l1 & l2 & -> & _ & ->).
    apply NoDup_app in Hl as (? & ? & Hl2). apply NoDup_cons in Hl2 as [? ?].
    apply NoDup_app. set_solver.
  - by rewrite remove_first_notin.
Qed.

Lemma notin_remove_first x l : NoDup l → x ∉ remove_first x l.
Proof.
  intros Hl. destruct (decide (x ∈ l)) as [Hx|Hx].
  - destruct (remove_first_in _ _ Hx) as (l1 & l2 & -> & ? & ->).
    apply NoDup_app in Hl as (_ & _ & Hl2). apply NoDup_cons in Hl2 as [? ?].
    set_solver.
  - by rewrite remove_first_notin.
Qed.

Lemma length_remove_first x l : (length (remove_first x l) ≤ length l)%nat.
Proof.
  destruct (decide (x ∈ l)) as [Hx|Hx].
  - destruct (remove_first_in _ _ Hx) as (l1 & l2 & -> & _ & ->).
    rewrite !length_app. simpl. lia.
  - by rewrite remove_first_notin.
Qed.

Lemma try_push_Some b l x l' :
  try_push b l x = Some l' ↔ Z.of_nat (length l) < b ∧ l' = l ++ [x].
Proof. unfold try_push. case_match; bool_facts; naive_solver lia. Qed.
End vec.
#[export] Hint Resolve NoDup_snoc NoDup_remove_first notin_remove_first remove_first_subseteq
  length_remove_first : vec.

(** [sort(); dedup()] keeps the length of a vector exactly when it has no
    duplicates. *)
Lemma dedup_cons {A} `{EqDecision A} (x y : A) l :
  dedup (x :: y :: l) = if decide (x = y) then dedup (y :: l) else x :: dedup (y :: l).
Proof. done. Qed.

Lemma length_dedup {A} `{EqDecision A} (l : list A) : (length (dedup l) ≤ length l)%nat.
Proof.
  induction l as [|x [|y l] IH]; [done|done|]. rewrite dedup_cons.
  destruct (decide (x = y)); simpl in *; lia.
Qed.

Lemma dedup_NoDup {A} `{EqDecision A} (l : list A) : NoDup l → dedup l = l.
Proof.
  induction l as [|x [|y l] IH]; [done|done|]. intros [Hx Hl]%NoDup_cons.
  rewrite dedup_cons, decide_False by set_solver. by rewrite IH.
Qed.

Lemma sorted_dedup {A} `{EqDecision A} (R : relation A) `{!AntiSymm (=) R} (l : list A) :
  StronglySorted R l → length (dedup l) = length l → NoDup l.
Proof.
  induction l as [|x [|y l] IH]; intros Hs Hlen; [constructor|apply NoDup_singleton|].
  inversion_clear Hs as [|? ? Hs' Hx]. rewrite dedup_cons in Hlen.
  destruct (decide (x = y)) as [->|Hne].
  { pose proof (length_dedup (y :: l)). simpl in *. lia. }
  apply NoDup_cons. split; [|apply IH; [done|simpl in *; lia]].
  inversion_clear Hs' as [|? ? _ Hy]. apply Forall_cons in Hx as [Hxy Hx].
  rewrite Forall_forall in Hy. intros [->|Hin]%elem_of_cons; [done|].
  apply Hne, (anti_symm R); [done|by apply Hy].
Qed.

Lemma sort_dedup_NoDup {A} `{EqDecision A} (R : relation A) `{∀ x y, Decision (R x y)}
    `{!AntiSymm (=) R, !Total R, !Transitive R} (l : list A) :
  length (dedup (merge_sort R l)) = length l ↔ NoDup l.
Proof.
  pose proof (merge_sort_Permutation R l) as Hp.
  rewrite <- (Permutation_length Hp). rewrite <- Hp at 3. split.
  - apply (sorted_dedup R), StronglySorted_merge_sort; apply _.
  - intros Hnd. by rewrite dedup_NoDup.
Qed.

(** The order of [Vec<u8>]: lexicographic. *)
Fixpoint bytes_le (l1 l2 : list Z) : bool :=
  match l1, l2 with
  | [], _ => true
  | _, [] => false
  | x :: l1, y :: l2 => (x <? y) || ((x =? y) && bytes_le l1 l2)
  end.

#[global] Instance bytes_le_antisymm : AntiSymm (=) bytes_le.
Proof.
  intros l1. induction l1 as [|x l1 IH]; intros [|y l2]; simpl; try done. intros H1 H2.
  assert (x = y ∧ bytes_le l1 l2 ∧ bytes_le l2 l1) as (-> & ? & ?).
  { destruct (Z.ltb_spec x y), (Z.ltb_spec y x), (Z.eqb_spec x y), (Z.eqb_spec y x);
      simpl in *; try lia; try done. }
  f_equal. by apply IH.
Qed.

#[global] Instance bytes_le_total : Total bytes_le.
Proof.
  intros l1. induction l1 as [|x l1 IH]; intros [|y l2]; simpl; auto.
  destruct (Z.ltb_spec x y), (Z.ltb_spec y x), (Z.eqb_spec x y), (Z.eqb_spec y x);
    simpl; try lia; auto.
Qed.

#[global] Instance bytes_le_trans : Transitive bytes_le.
Proof.
  intros l1. induction l1 as [|x l1 IH]; intros [|y l2] [|z l3]; simpl; try done. intros H1 H2.
  destruct (Z.ltb_spec x y), (Z.eqb_spec x y), (Z.ltb_spec y z), (Z.eqb_spec y z);
    simpl in *; try lia; try done;
    destruct (Z.ltb_spec x z), (Z.eqb_spec x z); simpl; try lia; try done. by apply (IH l2).
Qed.

(** ** Sums over storage maps *)

Section map_sum.
Context {K V : Type} `{Countable K}.
Implicit Types (m : gmap K V) (f : K → V → Z).

Definition map_sum f m : Z := map_fold (λ k v acc, f k v + acc) 0 m.

Lemma map_sum_empty f : map_sum f ∅ = 0.
Proof. apply map_fold_empty. Qed.

Lemma map_sum_insert_None f m k v :
  m !! k = None → map_sum f (<[k:=v]> m) = f k v + map_sum f m.
Proof.
  intros Hk. unfold map_sum. rewrite map_fold_insert_L; [done| |done].
  intros. lia.
Qed.

Lemma map_sum_delete f m k v :
  m !! k = Some v → map_sum f m = f k v + map_sum f (delete k m).
Proof.
  intros Hk. rewrite <- (insert_delete_id m k v Hk) at 1.
  apply map_sum_insert_None, lookup_delete_eq.
Qed.

Lemma map_sum_insert_Some f m k v v' :
  m !! k = Some v' →
  map_sum f (<[k:=v]> m) = f k v - f k v' + map_sum f m.
Proof.
  intros Hk. rewrite (map_sum_delete f m k v' Hk).
  rewrite <- insert_delete_eq. rewrite map_sum_insert_None; [lia|].
  apply lookup_delete_eq.
Qed.

(** Value of a key in a sum, [0] when it is absent. *)
Definition at_key f m (k : K) : Z :=
  match m !! k with Some v => f k v | None => 0 end.

Lemma map_sum_insert f m k v :
  map_sum f (<[k:=v]> m) = f k v - at_key f m k + map_sum f m.
Proof.
  unfold at_key. destruct (m !! k) as [v'|] eqn:Hk.
  - by apply map_sum_insert_Some.
  - rewrite map_sum_insert_None by done. lia.
Qed.

Lemma map_sum_remove f m k :
  map_sum f (delete k m) = map_sum f m - at_key f m k.
Proof.
  unfold at_key. destruct (m !! k) as [v'|] eqn:Hk.
  - rewrite (map_sum_delete f m k v' Hk). lia.
  - rewrite delete_id by done. lia.
Qed.

Lemma map_sum_ext f g m :
  (∀ k v, m !! k = Some v → f k v = g k v) → map_sum f m = map_sum g m.
Proof.
  induction m as [|k v m Hk IH] using map_ind; intros Hfg.
  - by rewrite !map_sum_empty.
  - rewrite !map_sum_insert_None by done. rewrite IH, Hfg; [done| |].
    + apply lookup_insert_eq.
    + intros j w Hj. apply Hfg. rewrite lookup_insert_ne; congruence.
Qed.

Lemma map_sum_nonneg f m :
  (∀ k v, m !! k = Some v → 0 ≤ f k v) → 0 ≤ map_sum f m.
Proof.
  induction m as [|k v m Hk IH] using map_ind; intros Hf.
  - by rewrite map_sum_empty.
  - rewrite map_sum_insert_None by done.
    assert (0 ≤ f k v) by (apply Hf, lookup_insert_eq).
    assert (0 ≤ map_sum f m); [|lia].
    apply IH. intros j w Hj. apply Hf. rewrite lookup_insert_ne; congruence.
Qed.

Lemma map_sum_zero f m :
  (∀ k v, m !! k = Some v → f k v = 0) → map_sum f m = 0.
Proof.
  intros Hf. rewrite (map_sum_ext f (λ _ _, 0)) by done.
  clear. induction m as [|k v m Hk IH] using map_ind.
  - by rewrite map_sum_empty.
  - rewrite map_sum_insert_None by done. lia.
Qed.

(** One entry is never more than the sum of non-negative entries. *)
Lemma map_sum_lookup_le f m k v :
  (∀ k v, m !! k = Some v → 0 ≤ f k v) → m !! k = Some v →
  f k v ≤ map_sum f m.
Proof.
  intros Hf Hk. rewrite (map_sum_delete f m k v Hk).
  assert (0 ≤ map_sum f (delete k m)); [|lia].
  apply map_sum_nonneg. intros j w Hj.
  apply lookup_delete_Some in Hj as [_ Hj]. by apply Hf.
Qed.

Lemma map_sum_agree f m1 m2 :
  (∀ k, at_key f m1 k = at_key f m2 k) → map_sum f m1 = map_sum f m2.
Proof.
  revert m2. induction m1 as [|k v m1 Hk IH] using map_ind; intros m2 Hag.
  - rewrite map_sum_empty. symmetry. apply map_sum_zero. intros k v Hk.
    specialize (Hag k). unfold at_key in Hag. by rewrite lookup_empty, Hk in Hag.
  - rewrite map_sum_insert_None by done. rewrite (IH (delete k m2)).
    { rewrite map_sum_remove. specialize (Hag k). unfold at_key in *.
      rewrite lookup_insert_eq in Hag. lia. }
    intros j. specialize (Hag j). unfold at_key in *. destruct (decide (j = k)) as [->|].
    + by rewrite lookup_delete_eq, Hk.
    + rewrite lookup_insert_ne in Hag by done. by rewrite lookup_delete_ne by done.
Qed.
End map_sum.

(** ** Loops that write or remove a list of keys *)

Section key_loops.
Context {K V A : Type} `{Countable K} (g : A → K).
Implicit Types (m : gmap K V) (l : list A).

Lemma lookup_foldl_insert (v : V) m l k :
  foldl (λ m i, <[g i := v]> m) m l !! k =
  if decide (k ∈ g <$> l) then Some v else m !! k.
Proof.
  revert m. induction l as [|i l IH]; intros m; [done|]. simpl. rewrite IH.
  destruct (decide (k ∈ g <$> l)) as [Hin|Hout].
  - rewrite decide_True by set_solver. done.
  - destruct (decide (k = g i)) as [->|Hne].
    + rewrite lookup_insert_eq, decide_True by set_solver. done.
    + rewrite lookup_insert_ne, decide_False by set_solver. done.
Qed.

Lemma lookup_foldl_delete m l k :
  foldl (λ m i, delete (g i) m) m l !! k =
  if decide (k ∈ g <$> l) then None else m !! k.
Proof.
  revert m. induction l as [|i l IH]; intros m; [done|]. simpl. rewrite IH.
  destruct (decide (k ∈ g <$> l)) as [Hin|Hout].
  - rewrite decide_True by set_solver. done.
  - destruct (decide (k = g i)) as [->|Hne].
    + rewrite lookup_delete_eq, decide_True by set_solver. done.
    + rewrite lookup_delete_ne, decide_False by set_solver. done.
Qed.
End key_loops.

(** ** Sums over one first key of a double map *)

Section prefix_sum.
Context {K V : Type} `{Countable K}.
Implicit Types (m : gmap (Z * K) V) (f : K → V → Z).

(** [m.iter_prefix(id).map(f).sum()] *)
Definition prefix_sum (id : Z) f m : Z :=
  map_sum (λ k v, if k.1 =? id then f k.2 v else 0) m.

(** What the entry [(id, k)] contributes. *)
Definition at_prefix (id : Z) f m (k : K) : Z :=
  match m !! (id, k) with Some v => f k v | None => 0 end.

Lemma prefix_sum_insert id f m k v :
  prefix_sum id f (<[(id, k):=v]> m) = prefix_sum id f m - at_prefix id f m k + f k v.
Proof.
  unfold prefix_sum, at_prefix. rewrite map_sum_insert. unfold at_key. simpl.
  rewrite Z.eqb_refl. lia.
Qed.

Lemma prefix_sum_delete id f m k :
  prefix_sum id f (delete (id, k) m) = prefix_sum id f m - at_prefix id f m k.
Proof.
  unfold prefix_sum, at_prefix. rewrite map_sum_remove. unfold at_key. simpl.
  by rewrite Z.eqb_refl.
Qed.

Lemma prefix_sum_agree id f m1 m2 :
  (∀ k, m1 !! (id, k) = m2 !! (id, k)) → prefix_sum id f m1 = prefix_sum id f m2.
Proof.
  intros Hag. apply map_sum_agree. intros [j k]. unfold at_key. simpl.
  destruct (Z.eqb_spec j id) as [->|].
  - by rewrite Hag.
  - by destruct (m1 !! _), (m2 !! _).
Qed.

Lemma prefix_sum_ext id f g m :
  (∀ k v, m !! (id, k) = Some v → f k v = g k v) → prefix_sum id f m = prefix_sum id g m.
Proof.
  intros Hfg. apply map_sum_ext. intros [j k] v Hk. simpl.
  destruct (Z.eqb_spec j id) as [->|]; [auto|done].
Qed.

Lemma prefix_sum_none id f m :
  (∀ k, m !! (id, k) = None) → prefix_sum id f m = 0.
Proof.
  intros Hn. rewrite (prefix_sum_agree id f m ∅).
  - apply map_sum_empty.
  - intros k. by rewrite Hn, lookup_empty.
Qed.

Lemma prefix_sum_nonneg id f m :
  (∀ k v, m !! (id, k) = Some v → 0 ≤ f k v) → 0 ≤ prefix_sum id f m.
Proof.
  intros Hf. apply map_sum_nonneg. intros [j k] v Hk. simpl.
  destruct (Z.eqb_spec j id) as [->|]; [eauto|lia].
Qed.

Lemma prefix_sum_lookup_le id f m k v :
  (∀ k v, m !! (id, k) = Some v → 0 ≤ f k v) → m !! (id, k) = Some v →
  f k v ≤ prefix_sum id f m.
Proof.
  intros Hf Hk. unfold prefix_sum.
  pose proof (map_sum_lookup_le (λ k v, if k.1 =? id then f k.2 v else 0) m (id, k) v) as H1.
  simpl in H1. rewrite Z.eqb_refl in H1. apply H1; [|done].
  intros [j k'] v' Hk'. simpl. destruct (Z.eqb_spec j id) as [->|]; [eauto|lia].
Qed.
End prefix_sum.

(** At most [n] keys below [n] count at most [n]. *)
Lemma prefix_count_le {V} (id : Z) (f : Z → V → Z) (m : gmap (Z * Z) V) (n : nat) :
  (∀ k v, m !! (id, k) = Some v → 0 ≤ k < Z.of_nat n ∧ f k v ≤ 1) →
  prefix_sum id f m ≤ Z.of_nat n.
Proof.
  revert m. induction n as [|n IH]; intros m Hm.
  - rewrite prefix_sum_none; [lia|]. intros k. destruct (m !! (id, k)) as [v|] eqn:E; [|done].
    apply Hm in E. lia.
  - assert (prefix_sum id f (delete (id, Z.of_nat n) m) ≤ Z.of_nat n) as Hle.
    { apply IH. intros k v [Hne Hk]%lookup_delete_Some. destruct (Hm k v Hk) as [? ?].
      split; [|done]. assert (k ≠ Z.of_nat n) by congruence. lia. }
    rewrite prefix_sum_delete in Hle. unfold at_prefix in Hle.
    destruct (m !! (id, Z.of_nat n)) as [v|] eqn:E; [apply Hm in E as [_ ?]|]; lia.
Qed.

(** ** Sums of lists *)

Definition zsum (l : list Z) : Z := foldr Z.add 0 l.

#[global] Instance zsum_Permutation : Proper ((≡ₚ) ==> (=)) zsum.
Proof. intros l1 l2 Hp. induction Hp; simpl; lia. Qed.

Lemma zsum_bound {A} (f g : A → Z) l :
  (∀ x, x ∈ l → f x ≤ g x) → zsum (f <$> l) ≤ zsum (g <$> l).
Proof.
  induction l as [|x l IH]; intros Hl; csimpl; [done|].
  specialize (IH (λ y Hy, Hl y (list_elem_of_further _ _ _ Hy))). specialize (Hl x (list_elem_of_here _ _)).
  simpl. lia.
Qed.

Lemma zsum_scale {A} (f : A → Z) k l : zsum ((λ x, k * f x) <$> l) = k * zsum (f <$> l).
Proof. induction l as [|x l IH]; csimpl; [lia|]. simpl. rewrite IH. lia. Qed.

Lemma zsum_const {A} k (l : list A) : zsum ((λ _, k) <$> l) = k * Z.of_nat (length l).
Proof. induction l as [|x l IH]; csimpl; [lia|]. simpl. rewrite IH. lia. Qed.

Lemma zsum_nonneg {A} (f : A → Z) l : (∀ x, x ∈ l → 0 ≤ f x) → 0 ≤ zsum (f <$> l).
Proof. intros Hl. pose proof (zsum_bound (λ _, 0) f l Hl) as Hb. rewrite zsum_const in Hb. lia. Qed.

Lemma zsum_ext {A} (f g : A → Z) l : (∀ x, x ∈ l → f x = g x) → zsum (f <$> l) = zsum (g <$> l).
Proof. intros Hl. apply Z.le_antisymm; apply zsum_bound; intros x Hx; by rewrite Hl. Qed.

Lemma zsum_app l k : zsum (l ++ k) = zsum l + zsum k.
Proof. induction l as [|x l IH]; simpl; lia. Qed.

Lemma zsum_Forall_nonneg l : Forall (λ x, 0 ≤ x) l → 0 ≤ zsum l.
Proof. induction 1; simpl; lia. Qed.

Lemma zsum_insert l i x y : l !! i = Some x → zsum (<[i := y]> l) = zsum l - x + y.
Proof.
  revert i. induction l as [|z l IH]; intros [|i]; simpl; try done.
  - intros [= ->]. lia.
  - intros H. specialize (IH i H). lia.
Qed.

Lemma zsum_elem l i x : Forall (λ x, 0 ≤ x) l → l !! i = Some x → x ≤ zsum l.
Proof.
  intros Hf. revert i. induction Hf as [|z l Hz Hl IH]; intros [|i]; simpl; try done.
  - intros [= ->]. pose proof (zsum_Forall_nonneg l Hl). lia.
  - intros H. specialize (IH i H). lia.
Qed.

(** The sum over all indices, in any order, is the sum of the list. *)
Lemma fmap_seq_lookup (l : list Z) :
  (λ i, default 0 (l !! i)) <$> seq 0 (length l) = l.
Proof.
  induction l as [|x l IH]; [done|]. cbn [length seq]. rewrite fmap_cons. f_equal.
  rewrite <-fmap_S_seq, <-list_fmap_compose. rewrite <-IH at 2. by apply list_fmap_ext.
Qed.
