(* ===== verification/Arith.v ===== *)
(** * Machine integers and [Permill]

    The unsigned integers of the runtime are kept as [Z] with their width
    written out: [saturating_*] clamps at the bounds of the width and
    [checked_*] returns [None] outside them, as the methods of the Rust
    integers do.  [Permill] follows
    substrate/primitives/arithmetic/src/per_things.rs. *)

From S2P Require Import Prelude.

Definition U8_MAX : Z := 255.
Definition U16_MAX : Z := 65535.
Definition U32_MAX : Z := 4294967295.
Definition U64_MAX : Z := 18446744073709551615.
Definition U128_MAX : Z := 340282366920938463463374607431768211455.

(** [n] is a value of the unsigned integer type with largest value [max]. *)
Definition fits (max n : Z) : Prop := 0 ≤ n ≤ max.

#[global] Instance fits_dec max n : Decision (fits max n).
Proof. unfold fits. apply _. Defined.

Definition saturating_add (max a b : Z) : Z := Z.min max (a + b).
Definition saturating_sub (a b : Z) : Z := Z.max 0 (a - b).
Definition saturating_mul (max a b : Z) : Z := Z.min max (a * b).
Definition checked_add (max a b : Z) : option Z :=
  if a + b <=? max then Some (a + b) else None.
Definition checked_sub (a b : Z) : option Z :=
  if b <=? a then Some (a - b) else None.

(** [x as uN]: truncation to the width. *)
Definition wrap (max x : Z) : Z := x mod (max + 1).

(** Decides goals about bounded integers. *)
Ltac ulia :=
  unfold fits, saturating_add, saturating_sub, saturating_mul,
    U8_MAX, U16_MAX, U32_MAX, U64_MAX, U128_MAX in *; lia.

Lemma saturating_add_exact max a b : a + b ≤ max → saturating_add max a b = a + b.
Proof. ulia. Qed.
Lemma saturating_sub_exact a b : b ≤ a → saturating_sub a b = a - b.
Proof. ulia. Qed.
Lemma saturating_sub_nonneg a b : 0 ≤ saturating_sub a b.
Proof. ulia. Qed.
Lemma saturating_add_nonneg max a b : 0 ≤ max → 0 ≤ a → 0 ≤ b → 0 ≤ saturating_add max a b.
Proof. ulia. Qed.
Lemma fits_nonneg max v : fits max v → 0 ≤ v.
Proof. ulia. Qed.
#[export] Hint Resolve fits_nonneg saturating_add_nonneg saturating_sub_nonneg : amounts.

Lemma checked_add_Some max a b c :
  checked_add max a b = Some c ↔ a + b ≤ max ∧ c = a + b.
Proof. unfold checked_add. case_match; bool_facts; naive_solver lia. Qed.
Lemma checked_sub_Some a b c : checked_sub a b = Some c ↔ b ≤ a ∧ c = a - b.
Proof. unfold checked_sub. case_match; bool_facts; naive_solver lia. Qed.
Lemma wrap_small max x : fits max x → wrap max x = x.
Proof. intros H. unfold wrap. apply Z.mod_small. ulia. Qed.

(** ** Rounded rationals *)

Inductive Rounding := Up | Down | NearestPrefUp | NearestPrefDown.

(** Whether a division by [c] that leaves [rem] is rounded up. *)
Definition rounds_up (r : Rounding) (rem c : Z) : bool :=
  match r with
  | Up => 0 <? rem
  | NearestPrefUp => c / 2 + c mod 2 <=? rem
  | NearestPrefDown => c / 2 <? rem
  | Down => false
  end.

(** [helpers_128bit::multiply_by_rational_with_rounding]: [a * b / c]. *)
Definition multiply_by_rational_with_rounding (a b c : Z) (r : Rounding) : option Z :=
  if c =? 0 then None
  else
    let result := a * b / c in
    if result <=? U128_MAX then
      if rounds_up r (a * b mod c) c then checked_add U128_MAX result 1
      else Some result
    else None.

(** ** Permill: parts per million in a [u32] *)

Definition PERMILL_ACCURACY : Z := 1000000.

(** [Permill::from_rational_with_rounding] on [u128] arguments. *)
Definition from_rational_with_rounding (p q : Z) (r : Rounding) : option Z :=
  if q =? 0 then None
  else if q <? p then None
  else
    match multiply_by_rational_with_rounding PERMILL_ACCURACY p q r with
    | Some x => if x <=? U32_MAX then Some x else None
    | None => None
    end.

(** [Permill::from_rational]: rounds down, and is [one] outside the range. *)
Definition from_rational (p q : Z) : Z :=
  default PERMILL_ACCURACY (from_rational_with_rounding p q Down).

(** [rational_mul_correction] with [denom] the accuracy. *)
Definition rational_mul_correction (x numer denom : Z) (r : Rounding) : Z :=
  let rem_mul_upper := (x mod denom) * numer in
  let rem_mul_div_inner := rem_mul_upper / denom in
  match r with
  | Down => rem_mul_div_inner
  | Up => if 0 <? rem_mul_upper mod denom then rem_mul_div_inner + 1
          else rem_mul_div_inner
  | NearestPrefDown =>
      if denom / 2 <? rem_mul_upper mod denom then rem_mul_div_inner + 1
      else rem_mul_div_inner
  | NearestPrefUp =>
      if denom / 2 + denom mod 2 <=? rem_mul_upper mod denom
      then rem_mul_div_inner + 1 else rem_mul_div_inner
  end.

Definition overflow_prune_mul (x part : Z) (r : Rounding) : Z :=
  (x / PERMILL_ACCURACY) * part
  + rational_mul_correction x part PERMILL_ACCURACY r.

(** [Permill * n]: rounds to the nearest integer, halves down. *)
Definition permill_mul (part n : Z) : Z :=
  overflow_prune_mul n part NearestPrefDown.

(** The product splits the quotient off before it multiplies, so that nothing
    overflows; up to rounding it is [n * part / 10^6]. *)
Lemma permill_mul_bounds part n :
  0 ≤ part ≤ PERMILL_ACCURACY → 0 ≤ n →
  2 * n * part - PERMILL_ACCURACY ≤ 2 * PERMILL_ACCURACY * permill_mul part n
    ≤ 2 * n * part + PERMILL_ACCURACY.
Proof.
  unfold permill_mul, overflow_prune_mul, rational_mul_correction, PERMILL_ACCURACY.
  intros Hp Hn.
  pose proof (Z.div_mod n 1000000 ltac:(lia)) as Hdm.
  pose proof (Z.mod_pos_bound n 1000000 ltac:(lia)) as Hr.
  set (q := n / 1000000) in *. set (r := n mod 1000000) in *.
  pose proof (Z.div_mod (r * part) 1000000 ltac:(lia)) as Hdm2.
  pose proof (Z.mod_pos_bound (r * part) 1000000 ltac:(lia)) as Hr2.
  change (1000000 / 2) with 500000.
  set (q2 := r * part / 1000000) in *. set (r2 := r * part mod 1000000) in *.
  assert (n * part = 1000000 * (q * part) + (1000000 * q2 + r2)) by nia.
  destruct (500000 <? r2) eqn:?; bool_facts; lia.
Qed.

Lemma permill_mul_nonneg part n :
  0 ≤ part → 0 ≤ n → 0 ≤ permill_mul part n.
Proof.
  unfold permill_mul, overflow_prune_mul, rational_mul_correction, PERMILL_ACCURACY.
  intros Hp Hn.
  assert (0 ≤ n / 1000000) by (apply Z.div_pos; lia).
  assert (0 ≤ n mod 1000000) by (apply Z.mod_pos_bound; lia).
  assert (0 ≤ n mod 1000000 * part / 1000000) by (apply Z.div_pos; nia).
  destruct (_ <? _); nia.
Qed.

Lemma permill_mul_le part n :
  0 ≤ part ≤ PERMILL_ACCURACY → 0 ≤ n → permill_mul part n ≤ n.
Proof.
  intros Hp Hn. pose proof (permill_mul_bounds part n Hp Hn) as [_ Hub].
  unfold PERMILL_ACCURACY in *.
  destruct (decide (part = 1000000)) as [->|].
  - unfold permill_mul, overflow_prune_mul, rational_mul_correction, PERMILL_ACCURACY.
    pose proof (Z.div_mod n 1000000 ltac:(lia)) as Hdm.
    rewrite Z.mod_mul, Z.div_mul by lia. simpl. lia.
  - assert (n * part ≤ n * 1000000) by nia. nia.
Qed.

Lemma from_rational_bounds p q :
  0 ≤ p → 0 < q → 0 ≤ from_rational p q ≤ PERMILL_ACCURACY.
Proof.
  intros Hp Hq. unfold from_rational, from_rational_with_rounding,
    multiply_by_rational_with_rounding, PERMILL_ACCURACY.
  assert ((q =? 0) = false) as -> by (apply Z.eqb_neq; lia).
  destruct (q <? p) eqn:Hqp; simpl; [lia|]. bool_facts.
  assert (0 ≤ 1000000 * p / q) by (apply Z.div_pos; lia).
  assert (1000000 * p / q ≤ 1000000) by (apply Z.div_le_upper_bound; nia).
  destruct (1000000 * p / q <=? U128_MAX); simpl; [|lia].
  destruct (1000000 * p / q <=? U32_MAX); simpl; lia.
Qed.

Lemma from_rational_floor p q :
  0 ≤ p ≤ q → 0 < q → from_rational p q = PERMILL_ACCURACY * p / q.
Proof.
  intros Hp Hq. unfold from_rational, from_rational_with_rounding,
    multiply_by_rational_with_rounding, PERMILL_ACCURACY.
  assert ((q =? 0) = false) as -> by (apply Z.eqb_neq; lia).
  assert ((q <? p) = false) as -> by (apply Z.ltb_ge; lia).
  assert (1000000 * p / q ≤ 1000000) by (apply Z.div_le_upper_bound; nia).
  assert ((1000000 * p / q <=? U128_MAX) = true) as -> by (apply Z.leb_le; ulia).
  simpl.
  by assert ((1000000 * p / q <=? U32_MAX) = true) as -> by (apply Z.leb_le; ulia).
Qed.
