(* ===== verification/Double128.v ===== *)
(** * 256-bit products and their division

    The module [double128] of
    substrate/primitives/arithmetic/src/helpers_128bit.rs: a product of two
    [u128] in two halves, and its division by a [u128] with 128-bit operations
    only.  [mulrat_by_halves] is the function
    [multiply_by_rational_with_rounding] as it is written, over these halves;
    Arith.v has what it computes.  [sqrt] and [gcd] are of the same file.

    The three loops take fuel.  The theorems say how much is enough: 130 rounds
    for the division, 64 for the square root and 256 for the gcd. *)

From S2P Require Import Prelude Arith.

Definition low_64 (a : Z) : Z := Z.land a (Z.shiftl 1 64 - 1).
Definition high_64 (a : Z) : Z := Z.shiftr a 64.
(** [(!a).wrapping_add(1)] *)
Definition neg128 (a : Z) : Z := wrap U128_MAX (wrap U128_MAX (Z.lnot a) + 1).
Definition div128 (a : Z) : Z := wrap U128_MAX (neg128 a / a + 1).
Definition mod128 (a : Z) : Z := neg128 a mod a.

Record Double128 := { high : Z; low : Z }.

Definition try_into_u128 (s : Double128) : option Z :=
  if high s =? 0 then Some (low s) else None.
Definition double_zero : Double128 := {| high := 0; low := 0 |}.
Definition left_shift_64 (scaled_value : Z) : Double128 :=
  {| high := Z.shiftr scaled_value 64;
     low := wrap U128_MAX (Z.shiftl scaled_value 64) |}.
Definition from_low (l : Z) : Double128 := {| high := 0; low := l |}.
Definition low_part (s : Double128) : Double128 := {| high := 0; low := low s |}.

(** [overflowing_add] on the low halves, [wrapping_add] on the high ones. *)
Definition double_add (s b : Double128) : Double128 :=
  let low' := wrap U128_MAX (low s + low b) in
  let carry := if U128_MAX <? low s + low b then 1 else 0 in
  {| high := wrap U128_MAX (wrap U128_MAX (high s + high b) + carry); low := low' |}.

Definition product_of (a b : Z) : Double128 :=
  let '(a_low, a_high) := (low_64 a, high_64 a) in
  let '(b_low, b_high) := (low_64 b, high_64 b) in
  let f := wrap U128_MAX (a_low * b_low) in
  let o := wrap U128_MAX (a_low * b_high) in
  let i := wrap U128_MAX (a_high * b_low) in
  let l := wrap U128_MAX (a_high * b_high) in
  let fl := {| high := l; low := f |} in
  double_add (double_add fl (left_shift_64 i)) (left_shift_64 o).

(** [while self.high != 0 { .. }]; [None] when the fuel is out. *)
Fixpoint double_div_loop (fuel : nat) (q r : Z) (x a : Double128)
    : option (Double128 * Double128) :=
  if high a =? 0 then Some (x, a)
  else
    match fuel with
    | O => None
    | S fuel' =>
        double_div_loop fuel' q r
          (double_add x (product_of (high a) q))
          (double_add (product_of (high a) r) (low_part a))
    end.

Definition double_div (fuel : nat) (s : Double128) (rhs : Z) : option (Double128 * Z) :=
  if rhs =? 1 then Some (s, 0)
  else
    let '(q, r) := (div128 rhs, mod128 rhs) in
    match double_div_loop fuel q r double_zero s with
    | Some (x, a) => Some (double_add x (from_low (low a / rhs)), low a mod rhs)
    | None => None
    end.

(** The body of [multiply_by_rational_with_rounding]; the outer option is the
    fuel. *)
Definition mulrat_by_halves (fuel : nat) (a b c : Z) (r : Rounding) : option (option Z) :=
  if c =? 0 then Some None
  else
    match double_div fuel (product_of a b) c with
    | None => None
    | Some (result, remainder) =>
        Some
          match try_into_u128 result with
          | None => None
          | Some result =>
              if rounds_up r remainder c then checked_add U128_MAX result 1
              else Some result
          end
    end.

(** ** Greatest common divisor and square root *)

(** The arms of the [match] of [gcd] in order; [None] when the fuel is out. *)
Fixpoint gcd (fuel : nat) (a b : Z) : option Z :=
  if a =? b then Some b
  else if a =? 0 then Some b
  else if b =? 0 then Some a
  else
    match fuel with
    | O => None
    | S fuel' =>
        match Z.land a 1 =? 0, Z.land b 1 =? 0 with
        | true, false => gcd fuel' (Z.shiftr a 1) b
        | false, true => gcd fuel' (Z.shiftr b 1) a
        | true, true =>
            (λ g, wrap U128_MAX (Z.shiftl g 1)) <$> gcd fuel' (Z.shiftr a 1) (Z.shiftr b 1)
        | false, false =>
            let '(x, y) := (Z.min a b, Z.max a b) in
            gcd fuel' (Z.shiftr (y - x) 1) x
        end
    end.

(** [u128::leading_zeros] *)
Definition leading_zeros128 (n : Z) : Z := if n =? 0 then 128 else 127 - Z.log2 n.

(** [while bit != 0 { .. }] *)
Fixpoint sqrt_loop (fuel : nat) (n result bit : Z) : option Z :=
  if bit =? 0 then Some result
  else
    match fuel with
    | O => None
    | S fuel' =>
        let t := wrap U128_MAX (result + bit) in
        if t <=? n
        then sqrt_loop fuel' (n - t) (wrap U128_MAX (Z.shiftr result 1 + bit)) (Z.shiftr bit 2)
        else sqrt_loop fuel' n (Z.shiftr result 1) (Z.shiftr bit 2)
    end.

Definition sqrt (fuel : nat) (n : Z) : option Z :=
  if n =? 0 then Some 0
  else
    let max_shift := leading_zeros128 0 - 1 in
    let shift := Z.land (max_shift - leading_zeros128 n) (Z.lnot 1) in
    let bit := wrap U128_MAX (Z.shiftl 1 shift) in
    sqrt_loop fuel n 0 bit.

#[global] Arguments double_add : simpl never.
#[global] Arguments product_of : simpl never.
#[global] Arguments low_part : simpl never.

(** ** Halves as integers *)

Definition W : Z := 2 ^ 128.
Definition double_value (s : Double128) : Z := high s * W + low s.
Definition double_wf (s : Double128) : Prop := fits U128_MAX (high s) ∧ fits U128_MAX (low s).

Lemma wrap_u128 x : wrap U128_MAX x = x mod W.
Proof. reflexivity. Qed.

Lemma wrap_fits x : fits U128_MAX (wrap U128_MAX x).
Proof. rewrite wrap_u128. pose proof (Z.mod_pos_bound x W eq_refl). unfold W in *. ulia. Qed.

Lemma fits_W x : fits U128_MAX x ↔ 0 ≤ x < W.
Proof. unfold W. ulia. Qed.

Lemma double_add_wf s b : double_wf (double_add s b).
Proof. split; apply wrap_fits. Qed.

(** Addition is addition modulo 2^256, exact when the sum fits. *)
Lemma double_add_value s b :
  double_wf s → double_wf b → double_value s + double_value b < W * W →
  double_value (double_add s b) = double_value s + double_value b.
Proof.
  unfold double_wf, double_value, double_add. rewrite !fits_W, !wrap_u128. cbn [high low].
  intros [Hsh Hsl] [Hbh Hbl] Hsum. set (h := high s) in *. set (l := low s) in *.
  set (h' := high b) in *. set (l' := low b) in *.
  assert (0 < W) by (unfold W; lia).
  rewrite Zplus_mod_idemp_l.
  destruct (U128_MAX <? l + l') eqn:E; bool_facts.
  - assert (W ≤ l + l') by (unfold W; ulia).
    assert ((l + l') mod W = l + l' - W) as ->
      by (symmetry; apply (Z.mod_unique _ _ 1); lia).
    rewrite Z.mod_small by nia. lia.
  - assert (l + l' < W) by (unfold W; ulia).
    rewrite (Z.mod_small (l + l')), (Z.mod_small (_ + 0)) by nia. lia.
Qed.

Lemma half_split a : a = high_64 a * 2 ^ 64 + low_64 a.
Proof.
  unfold high_64, low_64. rewrite Z.shiftr_div_pow2, Z.shiftl_mul_pow2, Z.mul_1_l by lia.
  change (2 ^ 64 - 1) with (Z.ones 64). rewrite Z.land_ones by lia.
  pose proof (Z.div_mod a (2 ^ 64)). lia.
Qed.

Lemma half_bounds a :
  fits U128_MAX a → 0 ≤ high_64 a < 2 ^ 64 ∧ 0 ≤ low_64 a < 2 ^ 64.
Proof.
  unfold high_64, low_64. rewrite Z.shiftr_div_pow2, Z.shiftl_mul_pow2, Z.mul_1_l by lia.
  change (2 ^ 64 - 1) with (Z.ones 64). rewrite Z.land_ones by lia. intros H. split.
  - split; [apply Z.div_pos; ulia|]. apply Z.div_lt_upper_bound; ulia.
  - apply Z.mod_pos_bound. lia.
Qed.

Lemma half_product a b :
  0 ≤ a < 2 ^ 64 → 0 ≤ b < 2 ^ 64 → wrap U128_MAX (a * b) = a * b.
Proof. intros Ha Hb. apply wrap_small. unfold fits, U128_MAX. nia. Qed.

Lemma left_shift_64_spec v :
  fits U128_MAX v →
  double_wf (left_shift_64 v) ∧ double_value (left_shift_64 v) = v * 2 ^ 64.
Proof.
  intros Hv. unfold double_wf, double_value, left_shift_64. simpl.
  rewrite Z.shiftr_div_pow2, Z.shiftl_mul_pow2 by lia. split.
  - split; [|apply wrap_fits].
    split; [apply Z.div_pos; ulia|]. apply Z.div_le_upper_bound; ulia.
  - rewrite wrap_u128. unfold W. change (2 ^ 128) with (2 ^ 64 * 2 ^ 64).
    rewrite Z.mul_mod_distr_r by lia. pose proof (Z.div_mod v (2 ^ 64)). lia.
Qed.

Lemma product_of_spec a b :
  fits U128_MAX a → fits U128_MAX b →
  double_wf (product_of a b) ∧ double_value (product_of a b) = a * b.
Proof.
  intros Ha Hb. pose proof (half_split a) as Ea. pose proof (half_split b) as Eb.
  pose proof (half_bounds a Ha) as [Hah Hal]. pose proof (half_bounds b Hb) as [Hbh Hbl].
  unfold product_of. rewrite !half_product by lia.
  set (ah := high_64 a) in *. set (al := low_64 a) in *.
  set (bh := high_64 b) in *. set (bl := low_64 b) in *.
  destruct (left_shift_64_spec (ah * bl)) as [Hi1 Hi2]; [unfold fits, U128_MAX; nia|].
  destruct (left_shift_64_spec (al * bh)) as [Ho1 Ho2]; [unfold fits, U128_MAX; nia|].
  assert (0 ≤ ah * bh ∧ 0 ≤ ah * bl ∧ 0 ≤ al * bh ∧ 0 ≤ al * bl) as (? & ? & ? & ?)
    by (repeat split; nia).
  assert (a * b = ah * bh * W + al * bl + ah * bl * 2 ^ 64 + al * bh * 2 ^ 64) as Eab
    by (rewrite Ea, Eb; unfold W; lia).
  assert (a * b < W * W) by (unfold fits, U128_MAX, W in *; nia).
  set (fl := {| high := ah * bh; low := al * bl |}).
  assert (double_wf fl) as Hfl by (split; unfold fits, U128_MAX, fl; simpl; nia).
  assert (double_value fl = ah * bh * W + al * bl) as Efl by done.
  assert (double_value (double_add fl (left_shift_64 (ah * bl)))
          = ah * bh * W + al * bl + ah * bl * 2 ^ 64) as E1.
  { rewrite double_add_value, Hi2, Efl; auto; lia. }
  split; [apply double_add_wf|].
  rewrite double_add_value, Ho2, E1; auto using double_add_wf; lia.
Qed.

(** ** Division *)

(** What the loop uses of [div128] and [mod128]. *)
Record divides_W (b q r : Z) : Prop := {
  dw_b : 2 ≤ b < W;
  dw_eq : W = q * b + r;
  dw_q : fits U128_MAX q;
  dw_r : 0 ≤ r < b;
  dw_half : 2 * r < W
}.

Lemma neg128_value b : 0 < b < W → neg128 b = W - b.
Proof.
  intros Hb. unfold neg128. rewrite !wrap_u128, Zplus_mod_idemp_l. unfold Z.lnot.
  symmetry. apply (Z.mod_unique _ _ (-1)); unfold W in *; lia.
Qed.

Lemma div128_mod128 b : 2 ≤ b < W → divides_W b (div128 b) (mod128 b).
Proof.
  intros Hb. unfold div128, mod128. rewrite neg128_value by lia.
  pose proof (Z.div_mod (W - b) b ltac:(lia)) as E.
  pose proof (Z.mod_pos_bound (W - b) b ltac:(lia)) as Hr.
  set (q := (W - b) / b) in *. set (r := (W - b) mod b) in *.
  assert (0 ≤ q) by (apply Z.div_pos; lia).
  assert (q + 1 < W) by nia.
  assert (wrap U128_MAX (q + 1) = q + 1) as -> by (apply wrap_small, fits_W; lia).
  assert (b ≤ W - r) by nia. assert (W mod 2 = 0) by done.
  split; [lia|lia|apply fits_W; lia|lia|lia].
Qed.

Lemma low_part_spec a : double_wf a → double_wf (low_part a) ∧ double_value (low_part a) = low a.
Proof.
  intros [_ H]. unfold double_wf, double_value, low_part; simpl. repeat split; ulia.
Qed.

Lemma double_value_eq a : double_value a = high a * W + low a.
Proof. reflexivity. Qed.

Lemma from_low_value l : double_value (from_low l) = l.
Proof. rewrite double_value_eq. simpl. lia. Qed.

Lemma double_value_bounds a : double_wf a → 0 ≤ double_value a < W * W.
Proof. unfold double_wf, double_value. rewrite !fits_W. nia. Qed.

Lemma double_high a : double_wf a → high a = double_value a / W.
Proof.
  unfold double_wf, double_value. rewrite !fits_W. intros [? ?].
  apply (Z.div_unique _ _ _ (low a)); lia.
Qed.

Section division.
Context {b q r : Z} (Hdw : divides_W b q r).

Definition div_inv (V : Z) (x a : Double128) : Prop :=
  double_wf x ∧ double_wf a ∧ double_value x * b + double_value a = V.

(** One round of the loop. *)
Lemma double_div_step V x a :
  V < W * W → div_inv V x a → high a ≠ 0 →
  ∃ x' a', (∀ fuel, double_div_loop (S fuel) q r x a = double_div_loop fuel q r x' a')
  ∧ div_inv V x' a' ∧ high a' = (high a * r + low a) / W
  ∧ high a' * W + low a' = high a * r + low a.
Proof.
  destruct Hdw as [Hb HW Hq Hr Hh]. intros HV (Hx & Ha & E) Hnz.
  pose proof Ha as [Hah Hal]. rewrite fits_W in Hah, Hal.
  assert (fits U128_MAX r) by (apply fits_W; lia).
  destruct (product_of_spec (high a) q) as [Pq Eq]; [by destruct Ha|done|].
  destruct (product_of_spec (high a) r) as [Pr Er]; [by destruct Ha|done|].
  destruct (low_part_spec a Ha) as [Pl El].
  pose proof (double_value_bounds x Hx).
  assert (double_value x * b + high a * (q * b + r) + low a = V) as E'
    by (rewrite <- HW, <- E, (double_value_eq a); lia).
  rewrite fits_W in Hq.
  assert (0 ≤ high a * q ∧ 0 ≤ high a * r) as [? ?] by nia.
  assert (high a * r ≤ high a * W) by nia.
  assert (double_value x + high a * q < W * W) by nia.
  exists (double_add x (product_of (high a) q)),
    (double_add (product_of (high a) r) (low_part a)).
  assert (double_value (double_add (product_of (high a) r) (low_part a)) = high a * r + low a)
    as Ea by (rewrite double_add_value, Er, El; auto; nia).
  split; [|split; [split; [|split]|split]].
  - intros fuel. cbn [double_div_loop]. by rewrite (proj2 (Z.eqb_neq _ _) Hnz).
  - apply double_add_wf.
  - apply double_add_wf.
  - rewrite Ea, double_add_value, Eq; auto; lia.
  - rewrite <- Ea. apply double_high, double_add_wf.
  - by rewrite <- double_value_eq.
Qed.

Lemma double_div_loop_stop V fuel x a :
  div_inv V x a → high a = 0 →
  ∃ x' a', double_div_loop fuel q r x a = Some (x', a') ∧ high a' = 0 ∧ div_inv V x' a'.
Proof. intros Hi H0. exists x, a. destruct fuel; simpl; by rewrite H0. Qed.

(** From a high half of 1 at most two rounds are left. *)
Lemma double_div_loop_last V fuel x a :
  V < W * W → div_inv V x a → high a ≤ 1 → (2 ≤ fuel)%nat →
  ∃ x' a', double_div_loop fuel q r x a = Some (x', a') ∧ high a' = 0 ∧ div_inv V x' a'.
Proof.
  intros HV Hi Hhigh Hfuel. pose proof Hi as (_ & [Hah Hal] & _). rewrite fits_W in Hah, Hal.
  destruct (decide (high a = 0)) as [|Hnz]; [by apply double_div_loop_stop|].
  destruct fuel as [|[|fuel]]; [lia|lia|].
  destruct (double_div_step V x a) as (x1 & a1 & -> & Hi1 & Hh1 & E1); auto.
  destruct (decide (high a1 = 0)) as [|Hnz1]; [by apply double_div_loop_stop|].
  pose proof Hi1 as (_ & [Hah1 Hal1] & _). rewrite fits_W in Hah1, Hal1.
  destruct (double_div_step V x1 a1) as (x2 & a2 & -> & Hi2 & Hh2 & E2); auto.
  pose proof Hi2 as (_ & [Hah2 Hal2] & _). rewrite fits_W in Hah2, Hal2.
  destruct Hdw as [Hb HW Hq Hr Hh].
  apply double_div_loop_stop; [done|].
  assert (high a = 1) as Ea by lia. rewrite Ea in E1.
  assert (high a1 = 1) as Ea1 by nia. rewrite Ea1 in E1, E2. nia.
Qed.

Lemma double_div_loop_spec (k fuel : nat) V x a :
  V < W * W → div_inv V x a → high a ≤ 2 ^ Z.of_nat k → (k + 2 ≤ fuel)%nat →
  ∃ x' a', double_div_loop fuel q r x a = Some (x', a') ∧ high a' = 0 ∧ div_inv V x' a'.
Proof.
  intros HV. revert fuel x a.
  induction k as [|k IH]; intros fuel x a Hi Hhigh Hfuel.
  { apply double_div_loop_last; auto. }
  destruct (decide (high a = 0)) as [|Hnz]; [by apply double_div_loop_stop|].
  destruct fuel as [|fuel]; [lia|].
  pose proof Hi as (_ & [Hah Hal] & _). rewrite fits_W in Hah, Hal.
  destruct (double_div_step V x a) as (x1 & a1 & -> & Hi1 & Hh1 & E1); auto.
  apply IH; [done| |lia]. destruct Hdw as [Hb HW Hq Hr Hh].
  rewrite Hh1. apply Z.lt_succ_r, Z.div_lt_upper_bound; [lia|].
  rewrite Nat2Z.inj_succ, Z.pow_succ_r in Hhigh by lia. nia.
Qed.
End division.

(** The fuel that is always enough. *)
Definition div_rounds : nat := 130.

Lemma double_div_spec fuel s b :
  double_wf s → 0 < b < W → (div_rounds ≤ fuel)%nat →
  ∃ x, double_div fuel s b = Some (x, double_value s mod b)
       ∧ double_wf x ∧ double_value x = double_value s / b.
Proof.
  intros Hs Hb Hfuel. unfold double_div.
  pose proof (double_value_bounds s Hs) as HV.
  destruct (b =? 1) eqn:E1; bool_facts.
  { subst b. exists s. by rewrite Z.mod_1_r, Z.div_1_r. }
  pose proof (div128_mod128 b ltac:(lia)) as Hdw.
  destruct (double_div_loop_spec Hdw 128 fuel (double_value s) double_zero s)
    as (x & a & -> & Ha0 & Hx & Ha & E); auto; [lia|..].
  - split; [split; simpl; ulia|]. split; [done|]. unfold double_value; simpl; lia.
  - destruct Hs as [[_ ?] _]. unfold U128_MAX in *. simpl. lia.
  - assert (double_value a = low a) as Ea by (rewrite double_value_eq, Ha0; lia).
    rewrite Ea in E. pose proof Ha as [_ Hlow]. pose proof (double_value_bounds x Hx).
    pose proof (Z.div_mod (low a) b ltac:(lia)) as Ed.
    pose proof (Z.mod_pos_bound (low a) b ltac:(lia)) as Hm.
    assert (0 ≤ low a / b ≤ low a) by (split; [apply Z.div_pos; ulia|]; apply Z.div_le_upper_bound; unfold fits in *; nia).
    assert (double_value s / b = double_value x + low a / b) as ->
      by (symmetry; apply (Z.div_unique _ _ _ (low a mod b)); lia).
    assert (double_value s mod b = low a mod b) as ->
      by (symmetry; apply (Z.mod_unique _ _ (double_value x + low a / b)); lia).
    eexists. split; [done|]. split; [apply double_add_wf|].
    rewrite double_add_value, from_low_value; [done|done|..].
    + split; simpl; [ulia|]. unfold fits in *. lia.
    + rewrite ?from_low_value. nia.
Qed.

(** C22. With 130 rounds or more the division of the 256-bit product ends, and
    the function computes what Arith.v says: [a * b / c] rounded as asked, and
    [None] exactly when [c] is zero or the result does not fit in 128 bits. *)
Theorem mulrat_terminates fuel a b c r :
  fits U128_MAX a → fits U128_MAX b → fits U128_MAX c → (div_rounds ≤ fuel)%nat →
  mulrat_by_halves fuel a b c r = Some (multiply_by_rational_with_rounding a b c r).
Proof.
  intros Ha Hb Hc Hfuel. unfold mulrat_by_halves, multiply_by_rational_with_rounding.
  destruct (c =? 0) eqn:E0; [done|]. bool_facts.
  destruct (product_of_spec a b Ha Hb) as [Hwf Hval].
  destruct (double_div_spec fuel (product_of a b) c Hwf) as (x & -> & Hx & Ex);
    [rewrite fits_W in Hc; lia|done|].
  rewrite Hval in *. unfold try_into_u128.
  pose proof Hx as [[Hh _] [Hl0 Hl]]. rewrite double_value_eq in Ex.
  destruct (high x =? 0) eqn:Eh; bool_facts.
  - assert (a * b / c = low x) as -> by (rewrite Eh in Ex; lia).
    by rewrite (proj2 (Z.leb_le _ _) Hl).
  - assert ((a * b / c <=? U128_MAX) = false) as ->; [|done].
    apply Z.leb_gt. rewrite <- Ex. assert (W = U128_MAX + 1) by done. nia.
Qed.

(** ** The gcd and the square root *)

(** Linear arithmetic with quotients and remainders. *)
Ltac dlia := Z.div_mod_to_equations; lia.

Lemma land_1 a : Z.land a 1 = a mod 2.
Proof. change 1 with (Z.ones 1). by rewrite Z.land_ones. Qed.

Lemma gcd_2_odd y : y mod 2 = 1 → Z.gcd 2 y = 1.
Proof.
  intros Hy. pose proof (Z.gcd_nonneg 2 y).
  pose proof (Z.divide_pos_le _ 2 eq_refl (Z.gcd_divide_l 2 y)).
  assert (Z.gcd 2 y ≠ 0) by (intros [? _]%Z.gcd_eq_0; done).
  assert (Z.gcd 2 y ≠ 2); [|lia]. intros E.
  pose proof (Z.gcd_divide_r 2 y) as [z Ez]. rewrite E in Ez.
  by rewrite Ez, Z_mod_mult in Hy.
Qed.

Lemma gcd_half_odd x y : y mod 2 = 1 → Z.gcd (2 * x) y = Z.gcd x y.
Proof.
  intros Hy. apply Z.divide_antisym_nonneg; try apply Z.gcd_nonneg.
  - apply Z.gcd_greatest; [|apply Z.gcd_divide_r].
    apply (Z.gauss _ 2); [apply Z.gcd_divide_l|].
    apply Z.divide_1_r_nonneg; [apply Z.gcd_nonneg|].
    rewrite <- (gcd_2_odd y Hy). apply Z.gcd_greatest; [apply Z.gcd_divide_r|].
    etrans; [apply Z.gcd_divide_l|]. apply Z.gcd_divide_r.
  - apply Z.gcd_greatest; [|apply Z.gcd_divide_r].
    apply Z.divide_mul_r, Z.gcd_divide_l.
Qed.

Lemma half_even x : x mod 2 = 0 → x = 2 * Z.shiftr x 1.
Proof. rewrite Z.shiftr_div_pow2 by lia. change (2 ^ 1) with 2. dlia. Qed.

Lemma half_lt x k : 0 ≤ x < 2 ^ (k + 1) → 0 ≤ k → 0 ≤ Z.shiftr x 1 < 2 ^ k.
Proof.
  intros Hx Hk. rewrite Z.pow_add_r in Hx by lia.
  rewrite Z.shiftr_div_pow2 by lia. change (2 ^ 1) with 2 in *. dlia.
Qed.

Lemma gcd_min_max a b : Z.gcd (Z.max a b - Z.min a b) (Z.min a b) = Z.gcd a b.
Proof.
  destruct (Z.le_ge_cases a b).
  - rewrite Z.max_r, Z.min_l, Z.gcd_comm, Z.gcd_sub_diag_r by lia. done.
  - rewrite Z.max_l, Z.min_r, Z.gcd_comm, Z.gcd_sub_diag_r, Z.gcd_comm by lia. done.
Qed.

(** A round halves one of the arguments, so as many rounds are enough as the
    two have bits. *)
Lemma gcd_bits (fuel : nat) i j a b :
  0 ≤ i ≤ 128 → 0 ≤ j ≤ 128 → 0 ≤ a < 2 ^ i → 0 ≤ b < 2 ^ j → i + j ≤ Z.of_nat fuel →
  gcd fuel a b = Some (Z.gcd a b).
Proof.
  revert i j a b. induction fuel as [|fuel IH]; intros i j a b Hi Hj Ha Hb Hf.
  { assert (i = 0) as -> by lia. assert (a = 0) as -> by lia.
    simpl. destruct b; simpl; [done..|lia]. }
  cbn [gcd]. destruct (a =? b) eqn:E1; bool_facts.
  { subst. by rewrite Z.gcd_diag, Z.abs_eq by lia. }
  destruct (a =? 0) eqn:E2; bool_facts.
  { subst. by rewrite Z.gcd_0_l, Z.abs_eq by lia. }
  destruct (b =? 0) eqn:E3; bool_facts.
  { subst. by rewrite Z.gcd_0_r, Z.abs_eq by lia. }
  assert (1 ≤ i) by (destruct (decide (i = 0)) as [->|]; lia).
  assert (1 ≤ j) by (destruct (decide (j = 0)) as [->|]; lia).
  pose proof (half_lt a (i - 1)) as Ha2. rewrite Z.sub_add in Ha2.
  pose proof (half_lt b (j - 1)) as Hb2. rewrite Z.sub_add in Hb2.
  rewrite !land_1. pose proof (Z.mod_pos_bound a 2). pose proof (Z.mod_pos_bound b 2).
  destruct (a mod 2 =? 0) eqn:Pa, (b mod 2 =? 0) eqn:Pb; bool_facts.
  - rewrite (IH (i - 1) (j - 1)) by lia. simpl. f_equal.
    rewrite (half_even a Pa), (half_even b Pb) at 2.
    rewrite Z.gcd_mul_mono_l_nonneg, Z.shiftl_mul_pow2 by lia.
    rewrite Z.mul_comm. apply wrap_small, fits_W.
    pose proof (Z.gcd_nonneg (Z.shiftr a 1) (Z.shiftr b 1)).
    assert (Z.gcd (Z.shiftr a 1) (Z.shiftr b 1) ≤ Z.shiftr a 1).
    { apply Z.divide_pos_le; [pose proof (half_even a Pa); lia|apply Z.gcd_divide_l]. }
    assert (2 ^ i ≤ 2 ^ 128) by (apply Z.pow_le_mono_r; lia).
    pose proof (half_even a Pa). unfold W. lia.
  - rewrite (IH (i - 1) j) by lia. by rewrite (half_even a Pa) at 2;
      rewrite gcd_half_odd by lia.
  - rewrite (IH (j - 1) i) by lia. rewrite (half_even b Pb) at 2.
    by rewrite (Z.gcd_comm a), gcd_half_odd by lia.
  - rewrite <- (gcd_min_max a b).
    assert ((Z.max a b - Z.min a b) mod 2 = 0) as Pd by dlia.
    assert (Z.min a b mod 2 = 1) as Pm by dlia.
    rewrite (half_even _ Pd) at 2. rewrite gcd_half_odd by done.
    destruct (Z.le_ge_cases a b).
    + rewrite Z.max_r, Z.min_l by lia. apply (IH (j - 1) i); try lia.
      apply half_lt; [rewrite Z.sub_add|]; lia.
    + rewrite Z.max_l, Z.min_r by lia. apply (IH (i - 1) j); try lia.
      apply half_lt; [rewrite Z.sub_add|]; lia.
Qed.

(** The bit of the round before the [K]-th last. *)
Definition sqrt_bit (K : nat) : Z := match K with O => 0 | S k => 4 ^ Z.of_nat k end.

Lemma sqrt_bit_next k : Z.shiftr (sqrt_bit (S k)) 2 = sqrt_bit k.
Proof.
  destruct k as [|k]; [done|]. unfold sqrt_bit. rewrite Z.shiftr_div_pow2 by lia.
  rewrite Nat2Z.inj_succ, Z.pow_succ_r by lia. change (2 ^ 2) with 4.
  rewrite Z.mul_comm. apply Z.div_mul. lia.
Qed.

(** With [K] rounds to go the root is known up to [2 ^ K]: it is [p] so far, the
    variable [result] holds [p * 2 ^ K] and [n] what is left. *)
Lemma sqrt_loop_spec (K fuel : nat) N p :
  0 ≤ p → p * p ≤ N < (p + 2 ^ Z.of_nat K) * (p + 2 ^ Z.of_nat K) →
  p + 2 ^ Z.of_nat K ≤ 2 ^ 64 → (K ≤ fuel)%nat →
  sqrt_loop fuel (N - p * p) (p * 2 ^ Z.of_nat K) (sqrt_bit K) = Some (Z.sqrt N).
Proof.
  revert fuel p. induction K as [|k IH]; intros fuel p Hp HN Hb Hf.
  { assert (Z.sqrt N = p) as -> by (apply Z.sqrt_unique; simpl in *; lia).
    destruct fuel; simpl; f_equal; lia. }
  destruct fuel as [|fuel]; [lia|]. cbn [sqrt_loop].
  rewrite sqrt_bit_next. unfold sqrt_bit at 1 2 3 4.
  rewrite Nat2Z.inj_succ, Z.pow_succ_r in * by lia.
  set (e := 2 ^ Z.of_nat k) in *.
  assert (0 < e) by (apply Z.pow_pos_nonneg; lia).
  assert (4 ^ Z.of_nat k = e * e) as E4 by (unfold e; rewrite <- Z.pow_mul_l; done).
  rewrite E4. assert ((e * e =? 0) = false) as -> by (apply Z.eqb_neq; nia).
  assert (Z.shiftr (p * (2 * e)) 1 = p * e) as ->.
  { rewrite Z.shiftr_div_pow2 by lia. change (2 ^ 1) with 2.
    rewrite <- (Z.div_mul (p * e) 2) by lia. f_equal. lia. }
  assert (2 ^ 64 * 2 ^ 64 = W) as EW by done.
  assert ((p + 2 * e) * (2 * e) ≤ W) by nia.
  rewrite !wrap_small by (apply fits_W; nia).
  destruct (p * (2 * e) + e * e <=? N - p * p) eqn:E; bool_facts.
  - replace (N - p * p - (p * (2 * e) + e * e)) with (N - (p + e) * (p + e)) by lia.
    replace (p * e + e * e) with ((p + e) * e) by lia. apply IH; lia.
  - apply IH; lia.
Qed.

Lemma sqrt_spec fuel n :
  fits U128_MAX n → (64 ≤ fuel)%nat → sqrt fuel n = Some (Z.sqrt n).
Proof.
  intros Hn Hf. unfold sqrt. destruct (n =? 0) eqn:E0; bool_facts; [by subst|].
  rewrite fits_W in Hn. unfold leading_zeros128.
  rewrite (proj2 (Z.eqb_neq _ _) E0). cbv zeta.
  replace (_ - _ - (127 - Z.log2 n)) with (Z.log2 n) by (rewrite Z.eqb_refl; lia).
  pose proof (Z.log2_spec n ltac:(lia)) as [Hl1 Hl2].
  pose proof (Z.log2_nonneg n). assert (Z.log2 n < 128) by (apply Z.log2_lt_pow2; unfold W in Hn; lia).
  assert (Z.land (Z.log2 n) (Z.lnot 1) = 2 * (Z.log2 n / 2)) as ->.
  { rewrite <- Z.ldiff_land. change 1 with (Z.ones 1).
    rewrite Z.ldiff_ones_r, Z.shiftr_div_pow2, Z.shiftl_mul_pow2 by lia. change (2 ^ 1) with 2. lia. }
  set (k := Z.log2 n / 2). assert (0 ≤ k < 64) by (unfold k; dlia).
  assert (Z.log2 n ≤ 2 * k + 1) by (unfold k; dlia).
  assert (wrap U128_MAX (Z.shiftl 1 (2 * k)) = sqrt_bit (S (Z.to_nat k))) as ->.
  { unfold sqrt_bit. rewrite Z2Nat.id by lia. change 4 with (2 ^ 2). rewrite <- Z.pow_mul_r by lia.
    rewrite Z.shiftl_mul_pow2, Z.mul_1_l by lia. apply wrap_small, fits_W.
    split; [lia|]. apply Z.pow_lt_mono_r; lia. }
  assert (n < 2 ^ (k + 1) * 2 ^ (k + 1)).
  { rewrite <- Z.pow_add_r by lia. eapply Z.lt_le_trans; [exact Hl2|].
    apply Z.pow_le_mono_r; lia. }
  assert (2 ^ (k + 1) ≤ 2 ^ 64) by (apply Z.pow_le_mono_r; lia).
  pose proof (sqrt_loop_spec (S (Z.to_nat k)) fuel n 0) as Hs.
  rewrite Nat2Z.inj_succ, Z2Nat.id in Hs by lia. unfold Z.succ in Hs.
  rewrite Z.mul_0_l, Z.sub_0_r, Z.mul_0_l in Hs. apply Hs; lia.
Qed.

(** The loops of the 128-bit helpers end, the binary gcd within 256 rounds and
    the square root within 64, and compute the greatest common divisor and the
    integer square root. *)
Theorem helpers_terminate fuel a b :
  fits U128_MAX a → fits U128_MAX b → (256 ≤ fuel)%nat →
  gcd fuel a b = Some (Z.gcd a b) ∧ sqrt fuel a = Some (Z.sqrt a).
Proof.
  intros Ha Hb Hf. split; [|apply sqrt_spec; [done|lia]].
  rewrite fits_W in Ha, Hb. unfold W in *. apply (gcd_bits fuel 128 128); lia.
Qed.

Lemma mulrat_terminates_witness :
  mulrat_by_halves 130 U128_MAX (U128_MAX - 1) U128_MAX Down = Some (Some (U128_MAX - 1)).
Proof.
  rewrite (mulrat_terminates 130 U128_MAX (U128_MAX - 1) U128_MAX Down);
    [reflexivity|ulia|ulia|ulia|unfold div_rounds; lia].
Defined.

Lemma helpers_terminate_witness :
  gcd 256 360 (2 ^ 100) = Some 8 ∧ sqrt 256 360 = Some 18.
Proof. apply (helpers_terminate 256 360 (2 ^ 100)); [ulia|ulia|lia]. Defined.
