(* ===== verification/BigUint.v ===== *)
(** * Numbers of any size: BigUint

    substrate/primitives/arithmetic/src/biguint.rs: a number is a vector of
    32-bit limbs, most significant first.  Operations that index a vector or
    that could panic are in the option monad, with [None] for a panic (or, in
    [div], for the end of the fuel of the correction loop); the theorems show
    that there is none.  [value] is the integer a number stands for.

    This file has the operations and what all but [div] compute; BigUintDiv.v
    has the division. *)

From S2P Require Import Prelude Arith.

Definition SHIFT : Z := 32.
Definition B : Z := U32_MAX + 1.

(** [x as Single], and the result of an operator on [Double]. *)
Definition as_single (x : Z) : Z := wrap U32_MAX x.
Definition as_double (x : Z) : Z := wrap U64_MAX x.

Definition split (a : Z) : Z * Z := (as_single (Z.shiftr a SHIFT), as_single a).
Definition mul_single (a b : Z) : Z := as_double (a * b).
Definition add_single (a b : Z) : Z * Z :=
  let q := as_double (a + b) in
  let '(carry, r) := split q in
  (r, carry).
Definition div_single (a b : Z) : Z * Z := (a / b, as_single (a mod b)).

Record BigUint := { digits : list Z }.

Definition zero : BigUint := {| digits := [0] |}.
Definition one : BigUint := {| digits := [1] |}.
Definition is_zero (x : BigUint) : bool := forallb (λ d, d =? 0) (digits x).

Definition with_capacity (size : nat) : BigUint :=
  {| digits := replicate (size `max` 1) 0 |}.
Definition from_limbs (limbs : list Z) : BigUint :=
  match limbs with [] => zero | _ => {| digits := limbs |} end.
Definition len (x : BigUint) : nat := length (digits x).

(** [self.digits[self.len() - 1 - index]]: panics out of range. *)
Definition get (x : BigUint) (index : nat) : option Z :=
  if (index <? len x)%nat then digits x !! (len x - 1 - index)%nat else None.
Definition checked_get (x : BigUint) (index : nat) : option Z :=
  match len x with
  | O => None
  | S i => if (index <=? i)%nat then digits x !! (i - index)%nat else None
  end.
Definition set (x : BigUint) (index : nat) (v : Z) : option BigUint :=
  if (index <? len x)%nat
  then Some {| digits := <[(len x - 1 - index)%nat := v]> (digits x) |}
  else None.
Definition lsb (x : BigUint) : option Z := get x 0.
Definition msb (x : BigUint) : option Z := digits x !! 0%nat.

(** [iter().position(|&e| e != 0)] *)
Fixpoint position (l : list Z) : option nat :=
  match l with
  | [] => None
  | d :: l' => if d =? 0 then S <$> position l' else Some 0%nat
  end.

Definition lstrip (x : BigUint) : BigUint :=
  if (len x =? 0)%nat then x
  else
    let index := default (len x - 1)%nat (position (digits x)) in
    if (0 <? index)%nat then {| digits := drop index (digits x) |} else x.

Definition lpad (x : BigUint) (size : nat) : BigUint :=
  if (size <=? len x)%nat then x
  else {| digits := replicate (size - len x) 0 ++ digits x |}.

(** [for j in l { .. }] *)
Fixpoint for_range {A} (l : list nat) (f : nat → A → option A) (s : A) : option A :=
  match l with
  | [] => Some s
  | j :: l' => s' ← f j s; for_range l' f s'
  end.

(** One digit of [add]: the carry and the result so far. *)
Definition add_digit (x y : BigUint) (j : nat) (s : Z * BigUint) : option (Z * BigUint) :=
  let '(k, w) := s in
  let u := default 0 (checked_get x j) in
  let v := default 0 (checked_get y j) in
  let s := as_double (u + v + k) in
  w' ← set w j (as_single (s mod B));
  Some (s / B, w').

Definition add (x y : BigUint) : option BigUint :=
  let n := (len x `max` len y)%nat in
  '(k, w) ← for_range (seq 0 n) (add_digit x y) (0, with_capacity (n + 1));
  set w n (as_single k).

Definition sub_digit (x y : BigUint) (j : nat) (s : Z * BigUint) : option (Z * BigUint) :=
  let '(k, w) := s in
  let u := default 0 (checked_get x j) in
  let v := default 0 (checked_get y j) in
  let '(s, k') :=
    match (v1 ← checked_sub u v; checked_sub v1 k) with
    | Some v2 => (v2, 0)
    | None => (as_double (u + B - v - k), 1)
    end in
  w' ← set w j (as_single s);
  Some (k', w').

(** [Err] carries the difference modulo the base to the number of limbs. *)
Definition sub (x y : BigUint) : option (result BigUint BigUint) :=
  let n := (len x `max` len y)%nat in
  '(k, w) ← for_range (seq 0 n) (sub_digit x y) (0, with_capacity n);
  Some (if k =? 0 then Ok w else Err w).

(** [.unwrap_or_else(|e| e)] *)
Definition either {A} (r : result A A) : A := match r with Ok a => a | Err a => a end.

(** The inner loop of [mul], for the limb [xj] at [j]. *)
Definition mul_digit (xj : Z) (y : BigUint) (j i : nat) (s : Z * BigUint)
    : option (Z * BigUint) :=
  let '(k, w) := s in
  yi ← get y i;
  wij ← get w (i + j);
  let t := as_double (mul_single xj yi + wij + k) in
  w' ← set w (i + j) (as_single (t mod B));
  Some (as_single (t / B), w').

Definition mul_row (x y : BigUint) (j : nat) (w : BigUint) : option BigUint :=
  xj ← get x j;
  if xj =? 0 then Some w
  else
    '(k, w') ← for_range (seq 0 (len y)) (mul_digit xj y j) (0, w);
    set w' (j + len y) k.

Definition mul (x y : BigUint) : option BigUint :=
  for_range (seq 0 (len x)) (mul_row x y) (with_capacity (len y + len x)).

Definition div_unit_digit (x : BigUint) (other : Z) (d : nat) (s : Z * BigUint)
    : option (Z * BigUint) :=
  let '(r, out) := s in
  xd ← get x d;
  let '(q, rr) := div_single (as_double (r * B + xd)) other in
  out' ← set out d (as_single q);
  Some (rr, out').

Definition div_unit (x : BigUint) (other : Z) : option BigUint :=
  let other := Z.max other 1 in
  let n := len x in
  '(_, out) ← for_range (reverse (seq 0 n)) (div_unit_digit x other) (0, with_capacity n);
  Some out.

(** The order of slices: lexicographic. *)
Fixpoint cmp_digits (l k : list Z) : comparison :=
  match l, k with
  | [], [] => Eq
  | [], _ => Lt
  | _, [] => Gt
  | a :: l', b :: k' => match a ?= b with Eq => cmp_digits l' k' | c => c end
  end.

Definition cmp (x y : BigUint) : comparison :=
  match position (digits x), position (digits y) with
  | None, None => Eq
  | Some _, None => Gt
  | None, Some _ => Lt
  | Some i, Some j =>
      let lhs := drop i (digits x) in
      let rhs := drop j (digits y) in
      match (length lhs ?= length rhs)%nat with
      | Eq => cmp_digits lhs rhs
      | c => c
      end
  end.

(** [TryFrom<BigUint>] for the unsigned type of [bits] bits, [u64] or [u128]. *)
Fixpoint gather (max : Z) (i : Z) (l : list Z) (acc : Z) : Z :=
  match l with
  | [] => acc
  | d :: l' => gather max (i + 1) l' (wrap max (acc + wrap max (Z.shiftl d (SHIFT * i))))
  end.

Definition try_from (bits : Z) (x : BigUint) : option Z :=
  let x := lstrip x in
  if bits <? Z.of_nat (len x) * SHIFT then None
  else Some (gather (2 ^ bits - 1) 0 (reverse (digits x)) 0).

Definition from_single (a : Z) : BigUint := {| digits := [a] |}.
Definition from_double (a : Z) : BigUint :=
  let '(ah, al) := split a in {| digits := [ah; al] |}.

(** [helpers_128bit::split] and [helpers_128bit::to_big_uint]. *)
Definition split128 (a : Z) : Z * Z := (wrap U64_MAX (Z.shiftr a 64), wrap U64_MAX a).
Definition to_big_uint (x : Z) : BigUint :=
  let '(xh, xl) := split128 x in
  let '(xhh, xhl) := split xh in
  let '(xlh, xll) := split xl in
  lstrip (from_limbs [xhh; xhl; xlh; xll]).
