(* ===== verification/BigUintLaws.v ===== *)
(** * What the operations on numbers of any size compute

    A number is seen as its limbs, [limb x i] for the limb of weight [B ^ i],
    with zeros beyond the vector.  [value] is the sum of all of them and [low x n]
    of the [n] least significant ones.  Every operation is a loop over limbs; the
    rules [for_range_up] and [for_range_down] prove at once that a loop does not
    panic and that it keeps its invariant. *)

From S2P Require Import Prelude Arith BigUint.

Definition value (x : BigUint) : Z := foldl (λ acc d, acc * B + d) 0 (digits x).

Definition limbs_fit (x : BigUint) : Prop := Forall (fits U32_MAX) (digits x).
(** A vector of the type: not empty, with limbs of 32 bits. *)
Definition big_wf (x : BigUint) : Prop := limbs_fit x ∧ (0 < len x)%nat.

Definition limb (x : BigUint) (i : nat) : Z := default 0 (checked_get x i).

(** The weight of a limb. *)
Definition P (i : nat) : Z := B ^ Z.of_nat i.

Fixpoint low (x : BigUint) (n : nat) : Z :=
  match n with O => 0 | S n' => low x n' + limb x n' * P n' end.

(** ** Loops *)

Section loops.
Context {A : Type} (f : nat → A → option A).

Lemma for_range_app l k s :
  for_range (l ++ k) f s = (for_range l f s ≫= for_range k f).
Proof.
  revert s. induction l as [|j l IH]; intros s; simpl; [done|].
  destruct (f j s); simpl; auto.
Qed.

Lemma for_range_up (I : nat → A → Prop) n s :
  I 0%nat s →
  (∀ j s, (j < n)%nat → I j s → ∃ s', f j s = Some s' ∧ I (S j) s') →
  ∃ s', for_range (seq 0 n) f s = Some s' ∧ I n s'.
Proof.
  intros H0 Hstep. induction n as [|n IH]; [by exists s|].
  destruct IH as (s1 & E1 & H1); [intros; apply Hstep; auto; lia|].
  destruct (Hstep n s1 ltac:(lia) H1) as (s2 & E2 & H2).
  exists s2. split; [|done]. rewrite seq_S, for_range_app, E1. simpl. by rewrite E2.
Qed.

Lemma for_range_down (I : nat → A → Prop) n s :
  I n s →
  (∀ j s, (j < n)%nat → I (S j) s → ∃ s', f j s = Some s' ∧ I j s') →
  ∃ s', for_range (reverse (seq 0 n)) f s = Some s' ∧ I 0%nat s'.
Proof.
  revert s. induction n as [|n IH]; intros s H0 Hstep; [by exists s|].
  rewrite seq_S, reverse_snoc. simpl.
  destruct (Hstep n s ltac:(lia) H0) as (s1 & -> & H1). simpl.
  apply IH; auto.
Qed.
End loops.

(** ** Weights and limbs *)

Lemma B_value : B = 2 ^ 32.
Proof. reflexivity. Qed.
Lemma B_pos : 0 < B.
Proof. reflexivity. Qed.
Lemma P_0 : P 0 = 1.
Proof. reflexivity. Qed.
Lemma P_1 : P 1 = B.
Proof. reflexivity. Qed.
Lemma P_S i : P (S i) = B * P i.
Proof. unfold P. by rewrite Nat2Z.inj_succ, Z.pow_succ_r by lia. Qed.
Lemma P_add i j : P (i + j) = P i * P j.
Proof. unfold P. rewrite Nat2Z.inj_add, Z.pow_add_r; lia. Qed.
Lemma P_pos i : 0 < P i.
Proof. apply Z.pow_pos_nonneg; [apply B_pos|lia]. Qed.
Lemma P_mono i j : (i ≤ j)%nat → P i ≤ P j.
Proof. intros H. apply Z.pow_le_mono_r; [apply B_pos|lia]. Qed.

Lemma as_single_small x : 0 ≤ x < B → as_single x = x.
Proof. intros H. apply wrap_small. unfold B in H. ulia. Qed.
Lemma as_double_small x : 0 ≤ x < B * B → as_double x = x.
Proof. intros H. apply wrap_small. unfold B in H. ulia. Qed.
Lemma fits_B x : fits U32_MAX x ↔ 0 ≤ x < B.
Proof. unfold B. ulia. Qed.

Lemma limb_rev x i : limb x i = default 0 (reverse (digits x) !! i).
Proof.
  unfold limb, checked_get, len. destruct (digits x) as [|d l] eqn:E; [done|].
  rewrite <- E. destruct (length (digits x)) as [|k] eqn:El; [by rewrite E in El|].
  f_equal. destruct (i <=? k)%nat eqn:Ei.
  - apply Nat.leb_le in Ei. rewrite reverse_lookup by lia. f_equal. lia.
  - apply Nat.leb_gt in Ei. symmetry. apply lookup_ge_None. rewrite length_reverse. lia.
Qed.

Lemma limb_beyond x i : (len x ≤ i)%nat → limb x i = 0.
Proof.
  intros H. rewrite limb_rev, lookup_ge_None_2; [done|].
  by rewrite length_reverse.
Qed.

Lemma get_limb x i : (i < len x)%nat → get x i = Some (limb x i).
Proof.
  intros H. unfold get. rewrite (proj2 (Nat.ltb_lt _ _) H).
  rewrite limb_rev, reverse_lookup by done.
  destruct (lookup_lt_is_Some_2 (digits x) (len x - 1 - i)) as [d Hd]; [unfold len in *; lia|].
  rewrite Hd. replace (length (digits x) - S i)%nat with (len x - 1 - i)%nat by (unfold len; lia).
  by rewrite Hd.
Qed.

Lemma limb_bound x i : limbs_fit x → 0 ≤ limb x i < B.
Proof.
  intros H. unfold limb. rewrite <- fits_B.
  assert (fits U32_MAX 0) as H0 by ulia.
  unfold checked_get. destruct (len x); [done|]. case_match; [|done].
  destruct (digits x !! _) eqn:E; [|done]. eapply Forall_lookup_1; eauto.
Qed.

Lemma set_limb x i v :
  (i < len x)%nat → ∃ y, set x i v = Some y ∧ len y = len x
    ∧ (limbs_fit x → 0 ≤ v < B → limbs_fit y)
    ∧ (∀ j, limb y j = if decide (j = i) then v else limb x j).
Proof.
  intros H. unfold set. rewrite (proj2 (Nat.ltb_lt _ _) H). eexists. split; [done|].
  split; [|split].
  - unfold len. simpl. by rewrite length_insert.
  - intros Hx Hv. apply Forall_insert; [done|by apply fits_B].
  - intros j. destruct (decide (j < len x)%nat) as [Hj|Hj].
    + assert (∀ y : BigUint, len y = len x →
        limb y j = default 0 (digits y !! (len x - 1 - j)%nat)) as Hl.
      { intros y Hy. pose proof (get_limb y j ltac:(lia)) as Hg. unfold get in Hg.
        rewrite Hy, (proj2 (Nat.ltb_lt _ _) Hj) in Hg. by rewrite Hg. }
      rewrite !Hl by (unfold len; simpl; rewrite ?length_insert; done). simpl.
      case_decide as Hji.
      * subst. rewrite list_lookup_insert_eq; [done|unfold len in *; lia].
      * rewrite list_lookup_insert_ne; [done|lia].
    + rewrite !limb_beyond by (unfold len in *; simpl; rewrite ?length_insert; lia).
      case_decide; [lia|done].
Qed.

(** ** Sums of limbs *)

Lemma low_bound x n : limbs_fit x → 0 ≤ low x n < P n.
Proof.
  intros Hx. induction n as [|n IH]; simpl; [rewrite P_0; lia|].
  rewrite P_S. pose proof (limb_bound x n Hx). pose proof (P_pos n). nia.
Qed.

Lemma low_ext x y n : (∀ i, (i < n)%nat → limb x i = limb y i) → low x n = low y n.
Proof.
  induction n as [|n IH]; intros H; simpl; [done|].
  rewrite IH by (intros; apply H; lia). by rewrite H by lia.
Qed.

Lemma low_beyond x n : (len x ≤ n)%nat → low x n = low x (len x).
Proof.
  intros H. induction n as [|n IH]; [by assert (len x = 0)%nat as -> by lia|].
  destruct (decide (len x = S n)) as [->|]; [done|]. simpl.
  rewrite IH, limb_beyond by lia. lia.
Qed.

(** A limb that is replaced changes the sum by its weight. *)
Lemma low_set x y i v n :
  (∀ j, limb y j = if decide (j = i) then v else limb x j) →
  low y n = low x n + (if decide (i < n)%nat then (v - limb x i) * P i else 0).
Proof.
  intros Hy. induction n as [|n IH]; simpl; [done|]. rewrite IH, Hy.
  repeat case_decide; subst; lia.
Qed.

Lemma limb_cons d l i :
  limb {| digits := d :: l |} i =
  if decide (i = length l) then d else limb {| digits := l |} i.
Proof.
  rewrite !limb_rev. simpl. rewrite reverse_cons. case_decide as H.
  - subst. rewrite lookup_app_r, length_reverse, Nat.sub_diag by (rewrite length_reverse; lia). done.
  - destruct (decide (i < length l)%nat).
    + by rewrite lookup_app_l by (rewrite length_reverse; lia).
    + rewrite !lookup_ge_None_2; [done|rewrite ?length_app, length_reverse; simpl; lia..].
Qed.

Lemma foldl_digits l acc :
  foldl (λ a d, a * B + d) acc l = acc * P (length l) + foldl (λ a d, a * B + d) 0 l.
Proof.
  revert acc. induction l as [|d l IH]; intros acc; cbn [foldl length]; [rewrite P_0; lia|].
  rewrite (IH (acc * B + d)), (IH (0 * B + d)), P_S. lia.
Qed.

Lemma value_low x : value x = low x (len x).
Proof.
  destruct x as [l]. unfold value, len. simpl.
  induction l as [|d l IH]; [done|]. cbn [foldl length low].
  rewrite foldl_digits, IH, limb_cons.
  rewrite decide_True, Z.mul_0_l, Z.add_0_l, Z.add_comm by done. f_equal.
  apply low_ext. intros i Hi. rewrite limb_cons, decide_False; [done|lia].
Qed.

Lemma low_value x n : (len x ≤ n)%nat → low x n = value x.
Proof. intros H. by rewrite value_low, low_beyond. Qed.

Lemma value_bound x : limbs_fit x → 0 ≤ value x < P (len x).
Proof. rewrite value_low. apply low_bound. Qed.

(** A number is its [n] low limbs and the rest. *)
Lemma low_split x n : limbs_fit x → ∃ h, 0 ≤ h ∧ value x = low x n + h * P n.
Proof.
  intros Hx. destruct (decide (len x ≤ n)%nat).
  { exists 0. rewrite low_value by lia. lia. }
  assert (∀ k, ∃ h, 0 ≤ h ∧ low x (n + k) = low x n + h * P n) as H.
  { induction k as [|k (h & Hh & E)].
    - exists 0. rewrite Nat.add_0_r. lia.
    - exists (h + limb x (n + k) * P k). pose proof (limb_bound x (n + k) Hx).
      pose proof (P_pos k). rewrite Nat.add_succ_r. simpl. rewrite E, P_add. split; nia. }
  destruct (H (len x - n)%nat) as (h & Hh & E).
  exists h. rewrite <- E, low_value by lia. done.
Qed.

Lemma low_mod x n : limbs_fit x → low x n = value x mod P n.
Proof.
  intros Hx. destruct (low_split x n Hx) as (h & _ & E).
  pose proof (low_bound x n Hx). pose proof (P_pos n).
  rewrite E, Z.mod_add, Z.mod_small; lia.
Qed.

Lemma limb_value x n : limbs_fit x → limb x n = value x / P n mod B.
Proof.
  intros Hx. pose proof (P_pos n). pose proof B_pos.
  destruct (low_split x (S n) Hx) as (h & _ & E). simpl in E.
  pose proof (low_bound x n Hx). pose proof (limb_bound x n Hx).
  replace (value x) with (low x n + (limb x n + h * B) * P n) by (rewrite E, P_S; lia).
  rewrite Z.div_add, (Z.div_small (low x n)), Z.add_0_l, Z.mod_add, Z.mod_small by lia. done.
Qed.

(** A value below a weight has no limb there. *)
Lemma limb_small x n i : limbs_fit x → value x < P n → (n ≤ i)%nat → limb x i = 0.
Proof.
  intros Hx Hv Hi. rewrite limb_value by done.
  pose proof (value_bound x Hx). pose proof (P_mono n i Hi).
  rewrite Z.div_small; [done|lia].
Qed.

Lemma value_low_small x n : limbs_fit x → value x < P n → value x = low x n.
Proof.
  intros Hx Hv. rewrite low_mod by done. pose proof (value_bound x Hx).
  rewrite Z.mod_small; lia.
Qed.

(** ** Fresh vectors *)

Lemma limb_zeros n i : limb {| digits := replicate n 0 |} i = 0.
Proof.
  rewrite limb_rev. simpl. rewrite reverse_replicate.
  destruct (replicate n 0 !! i) as [d|] eqn:E; [|done]. by apply lookup_replicate in E as [-> _].
Qed.

Lemma low_zeros x n : (∀ i, limb x i = 0) → low x n = 0.
Proof. intros H. induction n as [|n IH]; simpl; [done|]. rewrite IH, H. lia. Qed.

Lemma len_with_capacity n : len (with_capacity n) = (n `max` 1)%nat.
Proof. apply length_replicate. Qed.
Lemma limb_with_capacity n i : limb (with_capacity n) i = 0.
Proof. apply limb_zeros. Qed.
Lemma low_with_capacity n i : low (with_capacity n) i = 0.
Proof. apply low_zeros, limb_zeros. Qed.
Lemma limbs_fit_with_capacity n : limbs_fit (with_capacity n).
Proof. apply Forall_replicate. ulia. Qed.

Lemma low_S x n : low x (S n) = low x n + limb x n * P n.
Proof. reflexivity. Qed.
#[global] Arguments low : simpl never.

(** ** Addition and subtraction *)

(** Writes a limb: introduces the new number and what is known of it. *)
Ltac set_tac w i y :=
  match goal with
  | |- context [set w i ?v] =>
      let E := fresh "E" y in let L := fresh "L" y in
      let F := fresh "F" y in let H := fresh "H" y in
      destruct (set_limb w i v) as (y & E & L & F & H); [lia|rewrite E; clear E]
  end.

Lemma div_mod_B s : 0 ≤ s → s = B * (s / B) + s mod B ∧ 0 ≤ s mod B < B ∧ 0 ≤ s / B.
Proof.
  intros Hs. pose proof B_pos. split; [apply Z.div_mod; lia|].
  split; [apply Z.mod_pos_bound; lia|apply Z.div_pos; lia].
Qed.

Lemma add_spec x y :
  limbs_fit x → limbs_fit y →
  ∃ w, add x y = Some w ∧ limbs_fit w ∧ len w = S (len x `max` len y)
       ∧ value w = value x + value y.
Proof.
  intros Hx Hy. unfold add. set (n := (len x `max` len y)%nat).
  destruct (for_range_up (add_digit x y) (λ j '(k, w),
    0 ≤ k ≤ 1 ∧ limbs_fit w ∧ len w = S n ∧ (∀ i, (j ≤ i)%nat → limb w i = 0)
    ∧ low w (S n) + k * P j = low x j + low y j) n (0, with_capacity (n + 1)))
    as ([k w] & -> & Hk & Fw & Lw & Zw & Ew).
  - repeat split; auto using limbs_fit_with_capacity, limb_with_capacity; try lia.
    + rewrite len_with_capacity. lia.
    + rewrite low_with_capacity. done.
  - intros j [k w] Hj (Hk & Fw & Lw & Zw & Ew). unfold add_digit.
    fold (limb x j) (limb y j).
    pose proof (limb_bound x j Hx). pose proof (limb_bound y j Hy). pose proof B_pos.
    assert (B = 4294967296) as EB by done.
    rewrite as_double_small by (rewrite EB in *; lia).
    destruct (div_mod_B (limb x j + limb y j + k)) as (Es & Hs & Hq); [lia|].
    set (s := limb x j + limb y j + k) in *.
    rewrite as_single_small by done. set_tac w j w'. simpl.
    eexists. split; [done|]. split; [nia|]. split; [auto|]. split; [lia|]. split.
    + intros i Hi. rewrite Hw', decide_False, Zw; lia.
    + rewrite (low_set _ _ _ _ _ Hw'), decide_True, Zw by lia.
      rewrite (low_S x), (low_S y), P_S.
      assert ((s mod B + B * (s / B)) * P j = s * P j) by (f_equal; lia). unfold s in *. lia.
  - simpl. assert (B = 4294967296) as EB by done.
    rewrite as_single_small by (rewrite EB; lia). set_tac w n w'.
    eexists. split; [done|]. split; [apply Fw'; [done|rewrite EB; lia]|]. split; [lia|].
    rewrite <- (low_value w' (S n)) by lia.
    rewrite (low_set _ _ _ _ _ Hw'), decide_True, Zw by lia.
    rewrite (low_value x n), (low_value y n) in Ew by lia. lia.
Qed.

Lemma sub_spec x y :
  limbs_fit x → limbs_fit y → (0 < len x)%nat →
  ∃ w, sub x y = Some (if value y <=? value x then Ok w else Err w)
       ∧ limbs_fit w ∧ len w = (len x `max` len y)%nat
       ∧ value w = (value x - value y) mod P (len x `max` len y).
Proof.
  intros Hx Hy Hlen. unfold sub. set (n := (len x `max` len y)%nat).
  destruct (for_range_up (sub_digit x y) (λ j '(k, w),
    0 ≤ k ≤ 1 ∧ limbs_fit w ∧ len w = n ∧ (∀ i, (j ≤ i)%nat → limb w i = 0)
    ∧ low w n - k * P j = low x j - low y j) n (0, with_capacity n))
    as ([k w] & -> & Hk & Fw & Lw & Zw & Ew).
  - repeat split; auto using limbs_fit_with_capacity, limb_with_capacity; try lia.
    + rewrite len_with_capacity. lia.
    + rewrite low_with_capacity. done.
  - intros j [k w] Hj (Hk & Fw & Lw & Zw & Ew). unfold sub_digit.
    fold (limb x j) (limb y j).
    pose proof (limb_bound x j Hx). pose proof (limb_bound y j Hy).
    assert (B = 4294967296) as EB by done.
    assert (∃ s k', match (v1 ← checked_sub (limb x j) (limb y j); checked_sub v1 k) with
      | Some v2 => (v2, 0) | None => (as_double (limb x j + B - limb y j - k), 1) end = (s, k')
      ∧ 0 ≤ s < B ∧ 0 ≤ k' ≤ 1 ∧ s = limb x j - limb y j - k + k' * B)
      as (s & k' & -> & Hs & Hk' & Es).
    { unfold checked_sub. simpl.
      destruct (limb y j <=? limb x j) eqn:E1; simpl;
        [destruct (k <=? limb x j - limb y j) eqn:E2|]; bool_facts;
        eexists _, _; (split; [done|]); rewrite ?as_double_small by (rewrite EB in *; lia);
        rewrite EB in *; lia. }
    rewrite as_single_small by done. set_tac w j w'. simpl.
    eexists. split; [done|]. split; [lia|]. split; [auto|]. split; [lia|]. split.
    + intros i Hi. rewrite Hw', decide_False, Zw; lia.
    + rewrite (low_set _ _ _ _ _ Hw'), decide_True, Zw by lia.
      rewrite !low_S, P_S. rewrite Es. lia.
  - simpl. rewrite (low_value x n), (low_value y n), (low_value w n) in Ew by lia.
    pose proof (value_bound w Fw) as Hw. rewrite Lw in Hw.
    pose proof (value_bound x Hx). pose proof (value_bound y Hy). pose proof (P_pos n).
    exists w. split; [|split; [done|split; [done|]]].
    + destruct (k =? 0) eqn:Ek, (value y <=? value x) eqn:Ev; bool_facts; try done; nia.
    + apply (Z.mod_unique _ _ (- k)); lia.
Qed.

(** ** Multiplication *)

Lemma mul_digit_spec xj y j N w0 w i k :
  limbs_fit y → 0 ≤ xj < B → (i < len y)%nat → (j + len y < N)%nat →
  0 ≤ k < B → limbs_fit w → len w = N → (∀ d, (j + len y ≤ d)%nat → limb w d = 0) →
  low w N + k * P (i + j) = w0 + xj * low y i * P j →
  ∃ k' w', mul_digit xj y j i (k, w) = Some (k', w') ∧ 0 ≤ k' < B ∧ limbs_fit w'
    ∧ len w' = N ∧ (∀ d, (j + len y ≤ d)%nat → limb w' d = 0)
    ∧ low w' N + k' * P (S i + j) = w0 + xj * low y (S i) * P j.
Proof.
  intros Hy Hxj Hi HN Hk Fw Lw Zw Ew. unfold mul_digit.
  rewrite (get_limb y), (get_limb w) by lia. simpl.
  pose proof (limb_bound y i Hy). pose proof (limb_bound w (i + j) Fw). pose proof B_pos.
  unfold mul_single. rewrite (as_double_small (xj * _)) by nia.
  assert (0 ≤ xj * limb y i ≤ (B - 1) * (B - 1))
    by (split; [|apply Z.mul_le_mono_nonneg]; lia).
  assert (0 ≤ xj * limb y i + limb w (i + j) + k < B * B) as Hb by lia.
  rewrite as_double_small by done.
  destruct (div_mod_B (xj * limb y i + limb w (i + j) + k)) as (Et & Ht & Hq); [lia|].
  set (t := xj * limb y i + limb w (i + j) + k) in *.
  assert (t / B < B) by (apply Z.div_lt_upper_bound; lia).
  rewrite !as_single_small by done. set_tac w (i + j)%nat w'. simpl.
  eexists _, _. split; [done|]. split; [done|]. split; [auto|]. split; [lia|]. split.
  - intros d Hd. rewrite Hw', decide_False, Zw; lia.
  - rewrite (low_set _ _ _ _ _ Hw'), decide_True, low_S by lia.
    change (S i + j)%nat with (S (i + j)). rewrite P_S.
    assert ((t mod B + B * (t / B)) * P (i + j) = t * P (i + j)) by (f_equal; lia).
    assert (xj * limb y i * P i * P j = xj * limb y i * P (i + j)) by (rewrite P_add; lia).
    unfold t in *. lia.
Qed.

Lemma mul_row_spec x y j w N :
  limbs_fit x → limbs_fit y → (j < len x)%nat → (j + len y < N)%nat →
  limbs_fit w → len w = N → (∀ d, (j + len y ≤ d)%nat → limb w d = 0) →
  ∃ w', mul_row x y j w = Some w' ∧ limbs_fit w' ∧ len w' = N
    ∧ (∀ d, (S j + len y ≤ d)%nat → limb w' d = 0)
    ∧ low w' N = low w N + limb x j * value y * P j.
Proof.
  intros Hx Hy Hj HN Fw Lw Zw. unfold mul_row. rewrite get_limb by done. simpl.
  pose proof (limb_bound x j Hx) as Hxj.
  destruct (limb x j =? 0) eqn:E0; bool_facts.
  { exists w. rewrite E0. repeat split; auto; [intros; apply Zw; lia|lia]. }
  destruct (for_range_up (mul_digit (limb x j) y j) (λ i '(k, w'),
    0 ≤ k < B ∧ limbs_fit w' ∧ len w' = N ∧ (∀ d, (j + len y ≤ d)%nat → limb w' d = 0)
    ∧ low w' N + k * P (i + j) = low w N + limb x j * low y i * P j) (len y) (0, w))
    as ([k w'] & -> & Hk & Fw' & Lw' & Zw' & Ew').
  - repeat split; auto; try lia. unfold low at 3. lia.
  - intros i [k w'] Hi (Hk & Fw' & Lw' & Zw' & Ew').
    destruct (mul_digit_spec (limb x j) y j N (low w N) w' i k)
      as (k1 & w1 & E1 & Hw1); auto. by exists (k1, w1).
  - simpl. set_tac w' (j + len y)%nat w2. eexists. split; [done|].
    split; [auto|]. split; [lia|]. split.
    + intros d Hd. rewrite Hw2, decide_False, Zw'; lia.
    + rewrite (low_set _ _ _ _ _ Hw2), decide_True, Zw' by lia.
      rewrite (low_value y), (Nat.add_comm (len y)) in Ew' by lia. lia.
Qed.

Lemma mul_spec x y :
  limbs_fit x → limbs_fit y → (0 < len x)%nat → (0 < len y)%nat →
  ∃ w, mul x y = Some w ∧ limbs_fit w ∧ len w = (len x + len y)%nat
       ∧ value w = value x * value y.
Proof.
  intros Hx Hy Hlx Hly. unfold mul. set (N := (len x + len y)%nat).
  destruct (for_range_up (mul_row x y) (λ j w,
    limbs_fit w ∧ len w = N ∧ (∀ d, (j + len y ≤ d)%nat → limb w d = 0)
    ∧ low w N = low x j * value y) (len x) (with_capacity (len y + len x)))
    as (w & -> & Fw & Lw & Zw & Ew).
  - repeat split; auto using limbs_fit_with_capacity, limb_with_capacity.
    + rewrite len_with_capacity. lia.
    + by rewrite low_with_capacity.
  - intros j w Hj (Fw & Lw & Zw & Ew).
    destruct (mul_row_spec x y j w N) as (w' & E & Fw' & Lw' & Zw' & Ew'); auto; [lia|].
    exists w'. repeat split; auto. rewrite Ew', Ew, low_S. lia.
  - exists w. repeat split; auto. rewrite low_value in Ew by lia.
    by rewrite Ew, (value_low x).
Qed.

(** ** Division by one limb *)

Lemma div_unit_spec x other :
  limbs_fit x → (0 < len x)%nat → 0 ≤ other < B →
  ∃ w, div_unit x other = Some w ∧ limbs_fit w ∧ len w = len x
       ∧ value w = value x / Z.max other 1.
Proof.
  intros Hx Hlen Ho. unfold div_unit. set (o := Z.max other 1).
  assert (1 ≤ o < B) as Ho' by (unfold o, B in *; ulia). pose proof B_pos.
  destruct (for_range_down (div_unit_digit x o) (λ d '(r, w),
    0 ≤ r < o ∧ limbs_fit w ∧ len w = len x ∧ (∀ i, (i < d)%nat → limb w i = 0)
    ∧ low w (len x) * o + r * P d = value x - low x d) (len x) (0, with_capacity (len x)))
    as ([r w] & -> & Hr & Fw & Lw & Zw & Ew).
  - repeat split; auto using limbs_fit_with_capacity, limb_with_capacity; try lia.
    + rewrite len_with_capacity. lia.
    + rewrite low_with_capacity, value_low. lia.
  - intros d [r w] Hd (Hr & Fw & Lw & Zw & Ew). unfold div_unit_digit, div_single.
    rewrite get_limb by done. simpl. pose proof (limb_bound x d Hx).
    rewrite as_double_small by nia. set (t := r * B + limb x d).
    pose proof (Z.div_mod t o ltac:(lia)) as Et.
    pose proof (Z.mod_pos_bound t o ltac:(lia)) as Ht.
    assert (0 ≤ t / o < B).
    { split; [apply Z.div_pos; unfold t; nia|apply Z.div_lt_upper_bound; unfold t; nia]. }
    rewrite !as_single_small by lia. set_tac w d w'. simpl.
    eexists. split; [done|]. split; [done|]. split; [auto|]. split; [lia|]. split.
    + intros i Hi. rewrite Hw', decide_False, Zw; lia.
    + rewrite (low_set _ _ _ _ _ Hw'), decide_True, Zw by lia.
      rewrite low_S, P_S in Ew.
      assert ((o * (t / o) + t mod o) * P d = t * P d) by (f_equal; lia). unfold t in *. lia.
  - simpl. exists w. repeat split; auto.
    rewrite P_0, low_value in Ew by lia. unfold low in Ew.
    apply (Z.div_unique _ _ _ r); lia.
Qed.

(** ** Leading zeros and the order *)

Lemma value_cons d l :
  value {| digits := d :: l |} = d * P (length l) + value {| digits := l |}.
Proof. unfold value. cbn [digits foldl]. rewrite foldl_digits. lia. Qed.

Lemma value_zeros k l : value {| digits := replicate k 0 ++ l |} = value {| digits := l |}.
Proof. induction k as [|k IH]; simpl; [done|]. rewrite value_cons, IH. lia. Qed.

Lemma position_Some l i :
  position l = Some i → ∃ d l', l = replicate i 0 ++ d :: l' ∧ d ≠ 0.
Proof.
  revert i. induction l as [|d l IH]; intros i; simpl; [done|].
  destruct (d =? 0) eqn:E; bool_facts.
  - destruct (position l) as [i'|]; simpl; intros [= <-].
    destruct (IH i') as (d' & l' & -> & Hd); [done|]. exists d', l'. by rewrite E.
  - intros [= <-]. by exists d, l.
Qed.

Lemma position_None l : position l = None → l = replicate (length l) 0.
Proof.
  induction l as [|d l IH]; simpl; [done|]. destruct (d =? 0) eqn:E; bool_facts; [|done].
  destruct (position l); [done|]. intros _. by rewrite E, <- IH.
Qed.

(** No leading zero limb, unless it is the only one. *)
Definition stripped (x : BigUint) : Prop := len x = 1%nat ∨ P (len x - 1) ≤ value x.

Lemma lstrip_spec x :
  big_wf x → big_wf (lstrip x) ∧ value (lstrip x) = value x ∧ stripped (lstrip x)
             ∧ (len (lstrip x) ≤ len x)%nat.
Proof.
  intros [Fx Lx]. unfold lstrip. rewrite (proj2 (Nat.eqb_neq _ _)) by lia.
  destruct x as [l]. unfold len, limbs_fit in *; simpl in *.
  destruct (position l) as [i|] eqn:Ep; simpl.
  - apply position_Some in Ep as (d & l' & -> & Hd).
    apply Forall_app in Fx as [F0 [Fd Fl]%Forall_cons]. rewrite fits_B in Fd.
    assert (stripped {| digits := d :: l' |}).
    { right. unfold len. simpl. rewrite Nat.sub_0_r, value_cons.
      pose proof (value_bound {| digits := l' |} Fl). pose proof (P_pos (length l')). nia. }
    assert (big_wf {| digits := d :: l' |}).
    { split; [|unfold len; simpl; lia]. constructor; [by apply fits_B|done]. }
    destruct (0 <? i)%nat eqn:Ei.
    + rewrite drop_app_length' by (by rewrite length_replicate).
      rewrite value_zeros. repeat split; auto; try apply H0.
      unfold len. simpl. rewrite length_app. simpl. lia.
    + apply Nat.ltb_ge in Ei. assert (i = 0%nat) as -> by lia. auto.
  - apply position_None in Ep. destruct (length l) as [|k] eqn:El; [lia|]. simpl.
    rewrite Nat.sub_0_r.
    destruct (0 <? k)%nat eqn:Ek.
    + apply Nat.ltb_lt in Ek. rewrite Ep, drop_replicate.
      replace (S k - k)%nat with 1%nat by lia.
      assert (value {| digits := replicate (S k) 0 |} = 0) as ->.
      { rewrite <- (app_nil_r (replicate _ _)). apply value_zeros. }
      repeat split; [|unfold len; simpl; lia|by left|unfold len; simpl; lia].
      constructor; [ulia|constructor].
    + apply Nat.ltb_ge in Ek. repeat split; auto; unfold len; simpl; try lia.
      left. unfold len. simpl. lia.
Qed.

Lemma cmp_digits_spec l k :
  length l = length k → Forall (fits U32_MAX) l → Forall (fits U32_MAX) k →
  cmp_digits l k = (value {| digits := l |} ?= value {| digits := k |}).
Proof.
  revert k. induction l as [|a l IH]; intros [|b k] El Fl Fk; try done. simpl.
  inversion Fl as [|?? Fa Fl']; inversion Fk as [|?? Fb Fk']; subst.
  rewrite fits_B in Fa, Fb. injection El as El. rewrite IH by done.
  pose proof (value_bound {| digits := l |} Fl'). pose proof (value_bound {| digits := k |} Fk').
  rewrite !value_cons. unfold len in *. simpl in *. rewrite El in *.
  pose proof (P_pos (length k)).
  destruct (Z.compare_spec a b) as [E|E|E].
  - rewrite E. destruct (Z.compare_spec (value {| digits := l |}) (value {| digits := k |}));
      symmetry; [apply Z.compare_eq_iff|apply Z.compare_lt_iff|apply Z.compare_gt_iff]; lia.
  - symmetry. apply Z.compare_lt_iff. nia.
  - symmetry. apply Z.compare_gt_iff. nia.
Qed.

Lemma cmp_spec x y :
  limbs_fit x → limbs_fit y → cmp x y = (value x ?= value y).
Proof.
  destruct x as [l], y as [k]. unfold limbs_fit, cmp. simpl. intros Fl Fk.
  assert (∀ l, position l = None → value {| digits := l |} = 0) as H0.
  { intros l' H%position_None. rewrite H, <- (app_nil_r (replicate _ _)). apply value_zeros. }
  assert (∀ l i, Forall (fits U32_MAX) l → position l = Some i →
    value {| digits := l |} = value {| digits := drop i l |}
    ∧ Forall (fits U32_MAX) (drop i l)
    ∧ ∃ n, length (drop i l) = S n ∧ P n ≤ value {| digits := l |} < P (S n)) as Hs.
  { intros l0 i F Hp. apply position_Some in Hp as (d & l' & -> & Hd).
    apply Forall_app in F as [_ F]. rewrite drop_app_length' by (by rewrite length_replicate).
    rewrite value_zeros. split; [done|]. split; [done|]. exists (length l').
    split; [done|]. pose proof (value_bound {| digits := d :: l' |} F) as Hb.
    apply Forall_cons in F as [Fd Fl']. rewrite fits_B in Fd.
    pose proof (value_bound {| digits := l' |} Fl'). pose proof (P_pos (length l')).
    split; [rewrite value_cons; nia|apply Hb]. }
  destruct (position l) as [i|] eqn:Pl, (position k) as [j|] eqn:Pk.
  - destruct (Hs l i Fl Pl) as (El & Fl' & n & Ln & Hn).
    destruct (Hs k j Fk Pk) as (Ek & Fk' & m & Lm & Hm).
    rewrite Ln, Lm. destruct (Nat.compare_spec (S n) (S m)) as [E|E|E].
    + rewrite El, Ek. apply cmp_digits_spec; congruence.
    + symmetry. apply Z.compare_lt_iff. pose proof (P_mono (S n) m ltac:(lia)). lia.
    + symmetry. apply Z.compare_gt_iff. pose proof (P_mono (S m) n ltac:(lia)). lia.
  - destruct (Hs l i Fl Pl) as (_ & _ & n & _ & Hn). rewrite (H0 k Pk).
    symmetry. apply Z.compare_gt_iff. pose proof (P_pos n). lia.
  - destruct (Hs k j Fk Pk) as (_ & _ & n & _ & Hn). rewrite (H0 l Pl).
    symmetry. apply Z.compare_lt_iff. pose proof (P_pos n). lia.
  - by rewrite (H0 l Pl), (H0 k Pk).
Qed.

Lemma is_zero_spec x : limbs_fit x → is_zero x = (value x =? 0).
Proof.
  destruct x as [l]. unfold is_zero, limbs_fit. simpl. intros F.
  induction F as [|d l Fd Fl IH]; [done|]. simpl. rewrite IH, value_cons.
  rewrite fits_B in Fd. pose proof (value_bound {| digits := l |} Fl).
  pose proof (P_pos (length l)).
  destruct (Z.eqb_spec d 0), (Z.eqb_spec (value {| digits := l |}) 0); simpl;
    symmetry; try apply Z.eqb_eq; try apply Z.eqb_neq; nia.
Qed.

(** The value of a stripped number determines how many limbs it has. *)
Lemma stripped_len x n :
  big_wf x → stripped x → P n ≤ value x < P (S n) → len x = S n.
Proof.
  intros [Fx Lx] Hs Hv. pose proof (value_bound x Fx).
  destruct (Nat.lt_trichotomy (len x) (S n)) as [H1|[H1|H1]]; [|done|].
  - pose proof (P_mono (len x) n ltac:(lia)). lia.
  - destruct Hs as [Hs|Hs]; [lia|]. pose proof (P_mono (S n) (len x - 1) ltac:(lia)). lia.
Qed.

(** ** Conversions *)

Lemma gather_spec max i l acc :
  0 ≤ max → 0 ≤ i → fits max acc →
  gather max i l acc = (acc + value {| digits := reverse l |} * B ^ i) mod (max + 1).
Proof.
  intros Hm. revert i acc. induction l as [|d l IH]; intros i acc Hi Ha; simpl.
  { rewrite Z.mul_0_l, Z.add_0_r. symmetry. by apply wrap_small. }
  assert (∀ z, fits max (wrap max z)) as Hw.
  { intros z. unfold fits, wrap. pose proof (Z.mod_pos_bound z (max + 1)). lia. }
  rewrite IH by (auto; lia). unfold wrap, SHIFT. rewrite Z.shiftl_mul_pow2 by lia.
  rewrite Z.pow_mul_r, <- B_value by lia. rewrite Zplus_mod_idemp_r, Zplus_mod_idemp_l.
  f_equal. rewrite reverse_cons. unfold value at 2. cbn [digits].
  rewrite foldl_app. cbn [foldl].
  rewrite Z.pow_add_r, Z.pow_1_r by lia. unfold value. simpl digits. lia.
Qed.

Lemma try_from_spec k x :
  (0 < k)%nat → big_wf x →
  try_from (32 * Z.of_nat k) x = if value x <? P k then Some (value x) else None.
Proof.
  intros Hk Hx. destruct (lstrip_spec x Hx) as ([Fy Ly] & Ev & Hs & _). unfold try_from.
  set (y := lstrip x) in *. cbv zeta. rewrite <- Ev. pose proof (value_bound y Fy).
  unfold SHIFT. case_match eqn:E; bool_facts.
  - assert ((value y <? P k) = false) as ->; [|done]. apply Z.ltb_ge.
    destruct Hs as [Hs|Hs]; [lia|]. pose proof (P_mono k (len y - 1) ltac:(lia)). lia.
  - pose proof (P_mono (len y) k ltac:(lia)).
    assert ((value y <? P k) = true) as -> by (apply Z.ltb_lt; lia). f_equal.
    assert (2 ^ (32 * Z.of_nat k) = P k) as -> by (unfold P; by rewrite B_value, <- Z.pow_mul_r by lia).
    pose proof (P_pos k).
    rewrite gather_spec by (try split; lia).
    rewrite reverse_involutive. destruct y as [l]. simpl digits.
    rewrite Z.pow_0_r, Z.sub_add, Z.mod_small; lia.
Qed.

Lemma from_single_spec a :
  0 ≤ a < B → big_wf (from_single a) ∧ value (from_single a) = a ∧ len (from_single a) = 1%nat.
Proof.
  intros Ha. split; [split; [|unfold len; simpl; lia]|split; [|done]].
  - constructor; [by apply fits_B|constructor].
  - unfold value. simpl. lia.
Qed.

Lemma split_spec a :
  0 ≤ a < B * B → ∃ h l, split a = (h, l) ∧ 0 ≤ h < B ∧ 0 ≤ l < B ∧ a = h * B + l.
Proof.
  intros Ha. pose proof B_pos. unfold split, SHIFT. rewrite Z.shiftr_div_pow2, <- B_value by lia.
  destruct (div_mod_B a) as (E & Hm & Hq); [lia|].
  assert (a / B < B) by (apply Z.div_lt_upper_bound; lia).
  eexists _, _. split; [done|]. rewrite as_single_small by lia.
  change (as_single a) with (a mod B). lia.
Qed.

Lemma from_double_spec a :
  0 ≤ a < B * B → big_wf (from_double a) ∧ value (from_double a) = a ∧ len (from_double a) = 2%nat.
Proof.
  intros Ha. unfold from_double. destruct (split_spec a Ha) as (h & l & -> & Hh & Hl & ->).
  split; [split; [|unfold len; simpl; lia]|split; [|done]].
  - repeat constructor; by apply fits_B.
  - unfold value. simpl. lia.
Qed.

Lemma to_big_uint_spec a :
  fits U128_MAX a → big_wf (to_big_uint a) ∧ value (to_big_uint a) = a ∧ stripped (to_big_uint a).
Proof.
  intros Ha. unfold to_big_uint, split128. rewrite Z.shiftr_div_pow2 by lia.
  assert (B * B = 2 ^ 64) as EB by done.
  assert (0 ≤ a / 2 ^ 64 < B * B).
  { rewrite EB. split; [apply Z.div_pos|apply Z.div_lt_upper_bound]; ulia. }
  rewrite (wrap_small _ (a / _)) by (rewrite EB in *; ulia).
  change (wrap U64_MAX a) with (a mod 2 ^ 64).
  pose proof (Z.div_mod a (2 ^ 64) ltac:(lia)) as E.
  pose proof (Z.mod_pos_bound a (2 ^ 64) ltac:(lia)) as Hm.
  destruct (split_spec (a / 2 ^ 64)) as (hh & hl & -> & Hhh & Hhl & Eh); [done|].
  destruct (split_spec (a mod 2 ^ 64)) as (lh & ll & -> & Hlh & Hll & El); [by rewrite EB|].
  destruct (lstrip_spec (from_limbs [hh; hl; lh; ll])) as (Hwf & Hv & Hs & _).
  { split; [|unfold len; simpl; lia]. repeat constructor; by apply fits_B. }
  split; [done|split; [|done]]. rewrite Hv, E, Eh, El, <- EB.
  unfold value. cbn [from_limbs digits foldl]. lia.
Qed.

(** A number is determined by its value and the length of its vector. *)
Lemma big_ext x y :
  limbs_fit x → limbs_fit y → len x = len y → value x = value y → x = y.
Proof.
  intros Fx Fy El Ev.
  assert (∀ i, limb x i = limb y i) as Hl by (intros i; by rewrite !limb_value, Ev).
  destruct x as [l], y as [k]. unfold len in El. simpl in El. f_equal.
  apply list_eq_same_length with (length l); [done|done|].
  intros i d e Hi Hd He.
  specialize (Hl (length l - S i)%nat). rewrite !limb_rev in Hl. simpl in Hl.
  rewrite !reverse_lookup in Hl by lia.
  replace (length l - S (length l - S i))%nat with i in Hl by lia.
  replace (length k - S (length l - S i))%nat with i in Hl by lia.
  by rewrite Hd, He in Hl.
Qed.

Lemma stripped_len_eq x y :
  big_wf x → big_wf y → stripped x → stripped y → value x = value y → len x = len y.
Proof.
  intros [Fx Lx] [Fy Ly] Sx Sy Ev. pose proof (value_bound x Fx). pose proof (value_bound y Fy).
  unfold stripped in *.
  destruct (Nat.lt_trichotomy (len x) (len y)) as [H1|[H1|H1]]; [|done|].
  - destruct Sy as [|Sy]; [lia|]. pose proof (P_mono (len x) (len y - 1) ltac:(lia)). lia.
  - destruct Sx as [|Sx]; [lia|]. pose proof (P_mono (len y) (len x - 1) ltac:(lia)). lia.
Qed.

(** C32. The arithmetic of [BigUint] is that of the integers: on numbers with limbs
    of 32 bits no operation panics, the sum, the product and the quotient by a
    limb are exact, a difference is [Ok] exactly when it is not negative, and the
    order is the order of the values, however many leading zeros there are. *)
Theorem biguint_arithmetic x y d :
  big_wf x → big_wf y → 0 ≤ d < B →
  (∃ w, add x y = Some w ∧ big_wf w ∧ value w = value x + value y)
  ∧ (∃ w, sub x y = Some (if value y <=? value x then Ok w else Err w) ∧ big_wf w
          ∧ value w = (value x - value y) mod P (len x `max` len y))
  ∧ (∃ w, mul x y = Some w ∧ big_wf w ∧ value w = value x * value y)
  ∧ (∃ w, div_unit x d = Some w ∧ big_wf w ∧ value w = value x / Z.max d 1)
  ∧ cmp x y = (value x ?= value y).
Proof.
  intros [Fx Lx] [Fy Ly] Hd.
  destruct (add_spec x y) as (wa & ? & ? & ? & ?); auto.
  destruct (sub_spec x y) as (ws & ? & ? & ? & ?); auto.
  destruct (mul_spec x y) as (wm & ? & ? & ? & ?); auto.
  destruct (div_unit_spec x d) as (wd & ? & ? & ? & ?); auto.
  unfold big_wf. split_and!; [exists wa|exists ws|exists wm|exists wd|by apply cmp_spec];
    split_and!; auto; lia.
Qed.

(** C40. A [u128] survives the way through the limbs, and a number that converts to
    a [u128] is, but for leading zeros, the number made from it. *)
Theorem biguint_roundtrip a x :
  fits U128_MAX a → big_wf x →
  try_from 128 (to_big_uint a) = Some a
  ∧ (∀ v, try_from 128 x = Some v → fits U128_MAX v ∧ to_big_uint v = lstrip x)
  ∧ (try_from 128 x = None ↔ U128_MAX < value x).
Proof.
  intros Ha Hx. destruct (to_big_uint_spec a Ha) as (Hwf & Hv & Hs).
  assert (P 4 = U128_MAX + 1) as E4 by done.
  change 128 with (32 * Z.of_nat 4). rewrite !try_from_spec, Hv, E4 by (auto; lia).
  assert ((a <? U128_MAX + 1) = true) as -> by (apply Z.ltb_lt; ulia).
  pose proof (value_bound x (proj1 Hx)).
  split; [done|]. destruct (value x <? U128_MAX + 1) eqn:E; bool_facts.
  - split; [|split; [done|lia]]. intros v [= <-].
    assert (fits U128_MAX (value x)) as Hf by (unfold fits; lia). split; [done|].
    destruct (to_big_uint_spec _ Hf) as (Hwf' & Hv' & Hs').
    destruct (lstrip_spec x Hx) as (Hwfx & Hvx & Hsx & _).
    apply big_ext; [apply Hwf'|apply Hwfx| |congruence].
    apply stripped_len_eq; auto. congruence.
  - split; [done|]. split; [lia|done].
Qed.

Lemma biguint_arithmetic_witness :
  ∃ w, mul {| digits := [4294967295; 7] |} {| digits := [4294967295] |} = Some w
       ∧ value w = (4294967295 * 2 ^ 32 + 7) * 4294967295.
Proof.
  destruct (biguint_arithmetic {| digits := [4294967295; 7] |} {| digits := [4294967295] |} 3)
    as (_ & _ & (w & H1 & _ & H2) & _).
  - split; [repeat (apply Forall_cons; split; [done|]); apply Forall_nil_2|apply Nat.ltb_lt; reflexivity].
  - split; [repeat (apply Forall_cons; split; [done|]); apply Forall_nil_2|apply Nat.ltb_lt; reflexivity].
  - done.
  - exists w. split; [exact H1|]. rewrite H2. reflexivity.
Defined.

Lemma biguint_roundtrip_witness :
  try_from 128 (to_big_uint (2 ^ 100 + 5)) = Some (2 ^ 100 + 5)
  ∧ big_wf {| digits := [0; 1; 2] |}.
Proof.
  assert (big_wf {| digits := [0; 1; 2] |}) as Hx by (split; [repeat (apply Forall_cons; split; [done|]); apply Forall_nil_2|apply Nat.ltb_lt; reflexivity]).
  split; [|exact Hx].
  apply (biguint_roundtrip (2 ^ 100 + 5) {| digits := [0; 1; 2] |}); [split; done|exact Hx].
Defined.
