(* ===== verification/BigUintDiv.v ===== *)
(** * Long division of numbers of any size

    [BigUint::div] of substrate/primitives/arithmetic/src/biguint.rs, algorithm D
    of Knuth: the divisor is scaled until its first limb has its top bit set,
    each limb of the quotient is estimated from three limbs of the dividend and
    two of the divisor, corrected by a loop, and once more when the subtraction
    shows that it was still one too large.

    The correction loop takes fuel; one round is enough ([test_loop_spec]). *)

From S2P Require Import Prelude Arith BigUint BigUintLaws.

(** [u32::leading_zeros] *)
Definition leading_zeros (x : Z) : Z := if x =? 0 then 32 else 31 - Z.log2 x.

(** The closure [test]: whether it decreased [qhat], and the two cells. *)
Definition test (self_norm other_norm : BigUint) (n j : nat) (s : Z * Z)
    : option (bool * (Z * Z)) :=
  let '(qhat, rhat) := s in
  let predicate_1 := B <=? qhat in
  v2 ← get other_norm (n - 2);
  let lhs := as_double (qhat * v2) in
  u2 ← get self_norm (j + n - 2);
  let rhs := as_double (B * rhat + u2) in
  let predicate_2 := rhs <? lhs in
  if predicate_1 || predicate_2 then
    v1 ← get other_norm (n - 1);
    Some (true, (as_double (qhat - 1), as_double (rhat + v1)))
  else Some (false, (qhat, rhat)).

(** [while rhat < B { if !test() { break } }] *)
Fixpoint test_loop (fuel : nat) (self_norm other_norm : BigUint) (n j : nat) (s : Z * Z)
    : option (Z * Z) :=
  if s.2 <? B then
    match fuel with
    | O => None
    | S fuel' =>
        '(again, s') ← test self_norm other_norm n j s;
        if (again : bool) then test_loop fuel' self_norm other_norm n j s' else Some s'
    end
  else Some s.

(** The limbs [j..=j + n] as a number. *)
Definition window (x : BigUint) (j n : nat) : option BigUint :=
  l ← mapM (get x) (reverse (seq j (n + 1)));
  Some {| digits := l |}.

(** [l.for_each(|d| self_norm.set(d, src.get(d - j)))] *)
Definition write_back (l : list nat) (src : BigUint) (j : nat) (w : BigUint) : option BigUint :=
  for_range l (λ d w, v ← get src (d - j); set w d v) w.

(** Step D6: the limb of the quotient was one too large; add the divisor back. *)
Definition add_back (other_norm : BigUint) (n j : nat) (self_norm q : BigUint)
    : option (BigUint * BigUint) :=
  qj ← get q j;
  q ← set q j (as_single (qj - 1));
  u ← window self_norm j n;
  r ← add other_norm u;
  self_norm ← write_back (reverse (seq j (n + 1))) r j self_norm;
  Some (self_norm, q).

(** Steps D4 to D6: subtract [qhat] times the divisor, and add the divisor back
    when that was too much. *)
Definition subtract_digit (other_norm : BigUint) (n j : nat) (qhat : Z)
    (self_norm q : BigUint) : option (BigUint * BigUint) :=
  lhs ← window self_norm j n;
  rhs ← mul other_norm (from_double qhat);
  maybe_sub ← sub lhs rhs;
  let negative := negb (is_ok maybe_sub) in
  self_norm ← write_back (seq j (n + 1)) (either maybe_sub) j self_norm;
  q ← set q j (as_single qhat);
  if negative then add_back other_norm n j self_norm q
  else Some (self_norm, q).

(** One round of the loop over the limbs of the quotient. *)
Definition div_digit (fuel : nat) (other_norm : BigUint) (n j : nat) (s : BigUint * BigUint)
    : option (BigUint * BigUint) :=
  let '(self_norm, q) := s in
  u0 ← get self_norm (j + n);
  u1 ← get self_norm (j + n - 1);
  let dividend := as_double (u0 * B + u1) in
  divisor ← get other_norm (n - 1);
  let '(qhat, rhat) := div_single dividend divisor in
  '(_, s1) ← test self_norm other_norm n j (qhat, rhat);
  '(qhat, _) ← test_loop fuel self_norm other_norm n j s1;
  subtract_digit other_norm n j qhat self_norm q.

(** The remainder: the scaling undone. *)
Definition denormalize (self_norm : BigUint) (n : nat) (normalizer_bits : Z) (r : BigUint)
    : option BigUint :=
  if 0 <? normalizer_bits then
    r ← for_range (seq 0 (n - 1)) (λ d r,
          ud ← get self_norm d;
          ud1 ← get self_norm (d + 1);
          set r d (Z.lor (Z.shiftr ud normalizer_bits)
                         (as_single (Z.shiftl ud1 (SHIFT - normalizer_bits))))) r;
    u ← get self_norm (n - 1);
    set r (n - 1) (Z.shiftr u normalizer_bits)
  else Some self_norm.

(** The outer option is a panic or the end of the fuel, the inner one the
    result of the code. *)
Definition div (fuel : nat) (x other : BigUint) (rem : bool)
    : option (option (BigUint * BigUint)) :=
  if (len other <=? 1)%nat then Some None
  else
    other_msb ← msb other;
    if other_msb =? 0 then Some None
    else
      self_msb ← msb x;
      if (self_msb =? 0) || (len x <=? len other)%nat then Some None
      else
        let n := len other in
        let m := (len x - n)%nat in
        let q := with_capacity (m + 1) in
        let r := with_capacity n in
        let normalizer_bits := leading_zeros other_msb in
        let normalizer := as_single (2 ^ normalizer_bits) in
        self_norm ← mul x (from_single normalizer);
        other_norm ← mul other (from_single normalizer);
        let self_norm := lpad self_norm (n + m + 1) in
        let other_norm := lstrip other_norm in
        '(self_norm, q) ←
          for_range (reverse (seq 0 (m + 1))) (div_digit fuel other_norm n) (self_norm, q);
        r ← (if (rem : bool) then denormalize self_norm n normalizer_bits r else Some r);
        Some (Some (q, r)).

(** ** The estimate *)

(** The divisor [V] with its first limbs [v1] and [v2], the part [S] of the
    dividend with its first limbs [u0], [u1] and [u2], over the weight [D] of the
    limbs that are not looked at. *)
Record leading_limbs (v1 v2 u0 u1 u2 D V S vl sl : Z) : Prop := {
  HD : 0 < D;
  HV : V = (v1 * B + v2) * D + vl;
  Hvl : 0 ≤ vl < D;
  HS : S = ((u0 * B + u1) * B + u2) * D + sl;
  Hsl : 0 ≤ sl < D;
  Hv1 : B ≤ 2 * v1 < 2 * B;
  Hv2 : 0 ≤ v2 < B;
  Hu0 : 0 ≤ u0 < B;
  Hu1 : 0 ≤ u1 < B;
  Hu2 : 0 ≤ u2 < B;
  HSV : S < V * B
}.

Section estimate.
Context {v1 v2 u0 u1 u2 D V S vl sl : Z} (K : leading_limbs v1 v2 u0 u1 u2 D V S vl sl).

Definition estimate (qhat rhat : Z) : Prop :=
  qhat * v1 + rhat = u0 * B + u1 ∧ 0 ≤ rhat ∧ S / V ≤ qhat.

Lemma estimate_V_pos : 0 < V.
Proof. destruct K. pose proof B_pos. nia. Qed.

Lemma estimate_quotient : 0 ≤ S / V < B.
Proof.
  destruct K. pose proof estimate_V_pos. pose proof B_pos. split.
  - apply Z.div_pos; nia.
  - apply Z.div_lt_upper_bound; lia.
Qed.

Lemma estimate_top : u0 ≤ v1.
Proof.
  destruct K. pose proof B_pos. destruct (Z.le_gt_cases u0 v1) as [|H1]; [done|].
  assert ((v1 + 1) * B * B * D ≤ S) by nia.
  assert (V * B < (v1 + 1) * B * B * D) by nia. lia.
Qed.

Lemma estimate_first : estimate ((u0 * B + u1) / v1) ((u0 * B + u1) mod v1).
Proof.
  destruct K. pose proof B_pos. pose proof estimate_V_pos. unfold estimate.
  pose proof (Z.div_mod (u0 * B + u1) v1 ltac:(lia)) as E.
  pose proof (Z.mod_pos_bound (u0 * B + u1) v1 ltac:(lia)) as Hm.
  set (q := (u0 * B + u1) / v1) in *. split; [lia|]. split; [lia|].
  apply Z.lt_succ_r, Z.div_lt_upper_bound; [lia|].
  assert (u0 * B + u1 + 1 ≤ v1 * (q + 1)) by lia.
  assert (S < (u0 * B + u1 + 1) * B * D) by nia.
  assert ((u0 * B + u1 + 1) * (B * D) ≤ v1 * (q + 1) * (B * D)) by nia.
  assert (0 ≤ q) by (apply Z.div_pos; lia).
  assert (v1 * B * D * (q + 1) ≤ V * (q + 1)) by nia. unfold Z.succ. lia.
Qed.

Lemma estimate_decrease qhat rhat :
  estimate qhat rhat → B ≤ qhat ∨ B * rhat + u2 < qhat * v2 →
  estimate (qhat - 1) (rhat + v1).
Proof.
  destruct K. intros (E & Hr & Hq) H. pose proof estimate_V_pos. pose proof estimate_quotient.
  pose proof B_pos. split; [lia|]. split; [lia|]. destruct H as [H|H]; [lia|].
  apply Z.lt_le_pred, Z.div_lt_upper_bound; [lia|].
  assert (((u0 * B + u1) * B + u2) + 1 ≤ qhat * (v1 * B + v2)) by nia.
  assert (S < (((u0 * B + u1) * B + u2) + 1) * D) by lia.
  assert ((((u0 * B + u1) * B + u2) + 1) * D ≤ qhat * (v1 * B + v2) * D) by nia.
  nia.
Qed.

(** What holds when the correction is over. *)
Definition corrected (qhat : Z) : Prop := S / V ≤ qhat ≤ S / V + 1 ∧ qhat < B.

Lemma estimate_passed qhat rhat :
  estimate qhat rhat → qhat < B → qhat * v2 ≤ B * rhat + u2 → corrected qhat.
Proof.
  destruct K. intros (E & Hr & Hq) HB H. pose proof estimate_V_pos. pose proof estimate_quotient.
  pose proof B_pos. split; [|done]. split; [done|].
  assert (qhat - 1 ≤ S / V); [|lia]. apply Z.div_le_lower_bound; [lia|].
  assert (qhat * (v1 * B + v2) ≤ (u0 * B + u1) * B + u2) by nia.
  assert (qhat * (v1 * B + v2) * D ≤ S) by nia.
  assert (qhat * vl ≤ B * D) by nia.
  assert (B * D ≤ V) by nia. nia.
Qed.

Lemma estimate_large_rhat qhat rhat : estimate qhat rhat → B ≤ rhat → corrected qhat.
Proof.
  destruct K. intros He HB. pose proof He as (E & Hr & Hq). pose proof estimate_top. pose proof B_pos.
  pose proof estimate_quotient.
  assert (qhat < B) by nia. apply (estimate_passed qhat rhat); [done|done|nia].
Qed.
End estimate.

(** ** Windows of limbs *)

Lemma low_shift x s j k :
  (∀ i, (i < k)%nat → limb s i = limb x (j + i)) →
  low x (j + k) = low x j + P j * low s k.
Proof.
  induction k as [|k IH]; intros H; [unfold low at 3; rewrite Nat.add_0_r; lia|].
  rewrite Nat.add_succ_r, !low_S, IH by (intros; apply H; lia).
  rewrite H, P_add by lia. lia.
Qed.

Lemma mapM_get x l :
  Forall (λ d, (d < len x)%nat) l → mapM (get x) l = Some (map (limb x) l).
Proof.
  induction 1 as [|d l Hd _ IH]; [done|]. simpl. rewrite get_limb by done. simpl.
  by rewrite IH.
Qed.

Lemma window_spec x j n :
  limbs_fit x → (j + n < len x)%nat →
  ∃ s, window x j n = Some s ∧ limbs_fit s ∧ len s = S n
       ∧ ∀ i, (i ≤ n)%nat → limb s i = limb x (j + i).
Proof.
  intros Fx Hn. unfold window. rewrite mapM_get.
  2:{ apply Forall_forall. intros d Hd%elem_of_reverse%elem_of_seq. lia. }
  simpl. eexists. split; [done|]. split; [|split].
  - apply Forall_forall. intros d Hd. apply list_elem_of_fmap in Hd as (i & -> & _).
    apply fits_B, limb_bound, Fx.
  - unfold len. simpl. rewrite length_map, length_reverse, length_seq. lia.
  - intros i Hi. rewrite limb_rev. simpl.
    change (map (limb x)) with (fmap (M:=list) (limb x)).
    rewrite <- fmap_reverse, reverse_involutive, list_lookup_fmap.
    by rewrite lookup_seq_lt by lia.
Qed.

Lemma write_back_spec l src j w :
  limbs_fit src → limbs_fit w →
  Forall (λ d, (d < len w)%nat ∧ (d - j < len src)%nat) l →
  ∃ w', write_back l src j w = Some w' ∧ limbs_fit w' ∧ len w' = len w
        ∧ ∀ d, limb w' d = if decide (d ∈ l) then limb src (d - j) else limb w d.
Proof.
  intros Fs. revert w. induction l as [|d l IH]; intros w Fw Hl.
  { exists w. split; [done|]. split; [done|]. split; [done|]. intros d.
    rewrite decide_False; [done|]. apply not_elem_of_nil. }
  apply Forall_cons in Hl as [[H1 H2] Hl]. unfold write_back. simpl.
  rewrite get_limb by done. simpl. set_tac w d w1. simpl.
  destruct (IH w1) as (w' & E & Fw' & Lw' & Hw').
  { apply Fw1; [done|]. apply limb_bound, Fs. }
  { eapply Forall_impl; [exact Hl|]. simpl. rewrite Lw1. auto. }
  exists w'. split; [exact E|]. split; [done|]. split; [lia|]. intros i. rewrite Hw'.
  destruct (decide (i ∈ l)) as [Hi|Hi].
  - rewrite decide_True; [done|]. by apply list_elem_of_further.
  - rewrite Hw1. destruct (decide (i = d)) as [->|Hne].
    + rewrite decide_True; [done|]. apply list_elem_of_here.
    + rewrite decide_False; [done|]. rewrite elem_of_cons. tauto.
Qed.

(** Writing a window of [n + 1] limbs back. *)
Lemma write_back_window l src j n w :
  limbs_fit src → limbs_fit w → (j + n < len w)%nat → (n < len src)%nat →
  (∀ d, d ∈ l ↔ (j ≤ d ≤ j + n)%nat) →
  ∃ w', write_back l src j w = Some w' ∧ limbs_fit w' ∧ len w' = len w
    ∧ (∀ i, (i ≤ n)%nat → limb w' (j + i) = limb src i)
    ∧ (∀ d, (d < j ∨ j + n < d)%nat → limb w' d = limb w d).
Proof.
  intros Fs Fw Hw Hs Hl.
  destruct (write_back_spec l src j w Fs Fw) as (w' & E & Fw' & Lw' & H).
  { apply Forall_forall. intros d Hd%Hl. lia. }
  exists w'. repeat split; auto; intros d Hd; rewrite H.
  - rewrite decide_True by (apply Hl; lia). f_equal. lia.
  - rewrite decide_False; [done|]. rewrite Hl. lia.
Qed.

(** ** The correction loop *)

(** The divisor by its two first limbs. *)
Lemma divisor_parts v n :
  len v = n → (2 ≤ n)%nat →
  value v = (limb v (n - 1) * B + limb v (n - 2)) * P (n - 2) + low v (n - 2).
Proof.
  intros Lv Hn. rewrite value_low, Lv. replace n with (S (S (n - 2))) at 1 by lia.
  rewrite !low_S, P_S. replace (S (n - 2)) with (n - 1)%nat by lia. lia.
Qed.

Section correction.
Context (u v s : BigUint) (n j : nat).
Context (Fu : limbs_fit u) (Fv : limbs_fit v) (Lv : len v = n) (Hn : (2 ≤ n)%nat)
  (Hj : (j + n < len u)%nat) (Hv1 : B ≤ 2 * limb v (n - 1)).
(** [s] is the window of the dividend at [j]. *)
Context (Fs : limbs_fit s) (Ls : len s = S n)
  (Hs : ∀ i, (i ≤ n)%nat → limb s i = limb u (j + i)).
Context (HSV : value s < value v * B).

Let D := P (n - 2).

Lemma window_parts :
  value s = ((limb u (j + n) * B + limb u (j + n - 1)) * B + limb u (j + n - 2)) * D
            + low s (n - 2).
Proof.
  rewrite value_low, Ls. replace n with (S (S (n - 2))) at 1 by lia.
  rewrite !low_S, !P_S. replace (S (S (n - 2))) with n by lia.
  replace (S (n - 2)) with (n - 1)%nat by lia. rewrite !Hs by lia.
  replace (j + (n - 1))%nat with (j + n - 1)%nat by lia.
  replace (j + (n - 2))%nat with (j + n - 2)%nat by lia. unfold D. lia.
Qed.

Let v1 := limb v (n - 1).
Let est qhat rhat :=
  estimate (v1:=v1) (u0:=limb u (j + n)) (u1:=limb u (j + n - 1)) (V:=value v) (S:=value s)
    qhat rhat.

Lemma leading_parts :
  leading_limbs v1 (limb v (n - 2)) (limb u (j + n)) (limb u (j + n - 1)) (limb u (j + n - 2))
    D (value v) (value s) (low v (n - 2)) (low s (n - 2)).
Proof.
  pose proof (limb_bound v (n - 1) Fv).
  split; auto using P_pos, window_parts, low_bound, limb_bound;
    [apply P_pos|by apply divisor_parts|unfold v1; lia].
Qed.

Lemma est_bounds qhat rhat : est qhat rhat → 0 ≤ qhat ≤ B + 1.
Proof.
  intros (E & Hr & Hq). pose proof leading_parts as K.
  pose proof (limb_bound u (j + n - 1) Fu). pose proof (limb_bound v (n - 1) Fv) as Hb.
  pose proof (estimate_quotient K). pose proof (estimate_top K).
  pose proof B_pos. fold v1 in Hb, Hv1. split; [lia|]. nia.
Qed.

(** The test either decreases the estimate or ends the correction. *)
Lemma test_spec qhat rhat :
  est qhat rhat → rhat < B →
  (test u v n j (qhat, rhat) = Some (true, (qhat - 1, rhat + v1)) ∧ est (qhat - 1) (rhat + v1))
  ∨ (test u v n j (qhat, rhat) = Some (false, (qhat, rhat))
     ∧ corrected (V:=value v) (S:=value s) qhat).
Proof.
  intros He HrB. pose proof (est_bounds qhat rhat He) as Hq.
  pose proof He as (E & Hr & _). pose proof leading_parts as K.
  assert (B = 4294967296) as EB by done.
  unfold test. rewrite !get_limb by lia. cbn [mbind option_bind]. fold v1.
  pose proof (limb_bound v (n - 2) Fv). pose proof (limb_bound u (j + n - 2) Fu).
  pose proof (limb_bound v (n - 1) Fv) as Hv. fold v1 in Hv.
  rewrite (as_double_small (qhat * _)), (as_double_small (B * rhat + _)) by nia.
  destruct (B <=? qhat) eqn:E1, (B * rhat + limb u (j + n - 2) <? qhat * limb v (n - 2)) eqn:E2;
    bool_facts; cbn [orb].
  1,2,3: left; pose proof (estimate_decrease K qhat rhat He ltac:(auto)) as He';
    (split; [|exact He']); pose proof (est_bounds _ _ He');
    rewrite !as_double_small by (rewrite EB in *; lia); done.
  right. split; [done|]. apply (estimate_passed K qhat rhat); auto; lia.
Qed.

Lemma test_loop_spec fuel :
  (1 ≤ fuel)%nat →
  let dividend := limb u (j + n) * B + limb u (j + n - 1) in
  ∃ b s1 qhat rhat, test u v n j (dividend / v1, dividend mod v1) = Some (b, s1)
    ∧ test_loop fuel u v n j s1 = Some (qhat, rhat)
    ∧ corrected (V:=value v) (S:=value s) qhat.
Proof.
  intros Hf dividend. pose proof leading_parts as K. pose proof (estimate_first K) as He.
  pose proof (limb_bound v (n - 1) Fv) as Hv. fold v1 in Hv, Hv1. fold dividend in He.
  pose proof (Z.mod_pos_bound dividend v1 ltac:(pose proof B_pos; lia)) as Hm.
  destruct fuel as [|fuel]; [lia|].
  set (q0 := dividend / v1) in *. set (r0 := dividend mod v1) in *.
  destruct (test_spec q0 r0 He ltac:(lia)) as [[E1 He1]|[E1 Hc]].
  - exists true, (q0 - 1, r0 + v1).
    destruct (Z.lt_ge_cases (r0 + v1) B) as [HB|HB].
    + destruct (test_spec _ _ He1 HB) as [[E2 He2]|[E2 Hc]].
      * exists (q0 - 1 - 1), (r0 + v1 + v1). split; [done|]. split.
        -- cbn [test_loop snd]. rewrite (proj2 (Z.ltb_lt _ _) HB), E2. cbn [mbind option_bind].
           destruct fuel; cbn [test_loop snd]; by rewrite (proj2 (Z.ltb_ge _ _)) by lia.
        -- apply (estimate_large_rhat K _ _ He2). lia.
      * exists (q0 - 1), (r0 + v1). split; [done|]. split; [|done].
        cbn [test_loop snd]. by rewrite (proj2 (Z.ltb_lt _ _) HB), E2.
    + exists (q0 - 1), (r0 + v1). split; [done|]. split.
      * cbn [test_loop snd]. by rewrite (proj2 (Z.ltb_ge _ _) HB).
      * apply (estimate_large_rhat K _ _ He1). lia.
  - exists false, (q0, r0), q0, r0. split; [done|]. split; [|done].
    cbn [test_loop snd]. rewrite (proj2 (Z.ltb_lt _ _)) by lia. by rewrite E1.
Qed.
End correction.

(** ** One limb of the quotient *)

Lemma value_low_above x n :
  (∀ d, (n ≤ d)%nat → limb x d = 0) → value x = low x n.
Proof.
  intros H. rewrite <- (low_value x (n + len x)) by lia.
  induction (len x) as [|k IH]; [by rewrite Nat.add_0_r|].
  rewrite Nat.add_succ_r, low_S, IH, H by lia. lia.
Qed.

Lemma window_value u s j n :
  limbs_fit u → limbs_fit s → len s = S n → value u < P (j + S n) →
  (∀ i, (i ≤ n)%nat → limb s i = limb u (j + i)) →
  value u = low u j + P j * value s.
Proof.
  intros Fu Fs Ls Hu Hs. rewrite (value_low_small u _ Fu Hu), (low_shift u s) by (intros; apply Hs; lia).
  by rewrite <- Ls, <- value_low.
Qed.

Lemma window_replaced u u' src j n :
  limbs_fit u → value u < P (j + S n) →
  (∀ i, (i ≤ n)%nat → limb u' (j + i) = limb src i) →
  (∀ d, (d < j ∨ j + n < d)%nat → limb u' d = limb u d) →
  low u' j = low u j ∧ value u' = low u j + P j * low src (S n).
Proof.
  intros Fu Hu Hin Hout.
  assert (low u' j = low u j) as E by (apply low_ext; intros; apply Hout; lia).
  split; [done|]. rewrite <- E, <- low_shift by (intros; symmetry; apply Hin; lia).
  apply value_low_above. intros d Hd. rewrite Hout by lia. apply (limb_small u (j + S n)); auto.
Qed.

Lemma elem_of_window d j n : d ∈ seq j (n + 1) ↔ (j ≤ d ≤ j + n)%nat.
Proof. rewrite elem_of_seq. lia. Qed.
Lemma elem_of_window_rev d j n : d ∈ reverse (seq j (n + 1)) ↔ (j ≤ d ≤ j + n)%nat.
Proof. rewrite elem_of_reverse. apply elem_of_window. Qed.

Section digit.
Context (u v q : BigUint) (n j : nat).
Context (Fu : limbs_fit u) (Fv : limbs_fit v) (Fq : limbs_fit q)
  (Lv : len v = n) (Hn : (2 ≤ n)%nat) (Hj : (j + n < len u)%nat) (Hjq : (j < len q)%nat)
  (Hv1 : B ≤ 2 * limb v (n - 1)) (Hu : value u < value v * P (S j)).

(** What a round does: the limb [t] of the quotient, and its multiple of the
    divisor taken off the dividend. *)
Definition digit_done (u' q' : BigUint) : Prop :=
  limbs_fit u' ∧ len u' = len u ∧ limbs_fit q' ∧ len q' = len q
  ∧ ∃ t, 0 ≤ t < B ∧ (∀ i, limb q' i = if decide (i = j) then t else limb q i)
    ∧ value u = t * value v * P j + value u' ∧ value u' < value v * P j.

Lemma digit_bounds : 0 < value v < P n ∧ value u < P (j + S n).
Proof.
  pose proof (value_bound v Fv) as Hv. rewrite Lv in Hv.
  pose proof (divisor_parts v n Lv Hn). pose proof (low_bound v (n - 2) Fv).
  pose proof (limb_bound v (n - 2) Fv). pose proof (P_pos (n - 2)). pose proof B_pos.
  assert (0 < limb v (n - 1) * B) by nia.
  assert (0 < (limb v (n - 1) * B + limb v (n - 2)) * P (n - 2)) by nia.
  split; [lia|]. rewrite Nat.add_succ_r, <- Nat.add_succ_l, P_add.
  pose proof (P_pos (S j)). nia.
Qed.

(** What is left of the window, written back. *)
Lemma digit_written u' src t s :
  value u = low u j + P j * value s →
  limbs_fit src → limbs_fit u' → len u' = len u →
  value u' = low u j + P j * low src (S n) →
  value s = t * value v + low src (S n) → low src (S n) < value v →
  value u = t * value v * P j + value u' ∧ value u' < value v * P j.
Proof.
  intros Es Fs Fu' Lu' Eu' Et Hlt. pose proof (low_bound u j Fu). pose proof (P_pos j).
  split; [rewrite Es, Eu', Et; lia|]. rewrite Eu'. nia.
Qed.

(** The window holds the difference modulo its size, which is negative, and the
    quotient has [t + 1]. *)
Lemma add_back_spec u1 q1 w s t :
  limbs_fit u1 → len u1 = len u → limbs_fit q1 → len q1 = len q → 0 ≤ t → t + 1 < B →
  (∀ i, limb q1 i = if decide (i = j) then t + 1 else limb q i) →
  (∀ i, (i ≤ n)%nat → limb u1 (j + i) = limb w i) →
  low u1 j = low u j → value u1 = low u j + P j * low w (S n) → limbs_fit w →
  low w (S n) = value s - value v * (t + 1) + P (S n) →
  0 ≤ value s - value v * t < value v →
  value u = low u j + P j * value s → P n < P (S n) →
  ∃ u' q', add_back v n j u1 q1 = Some (u', q') ∧ digit_done u' q'.
Proof.
  intros Fu1 Lu1 Fq1 Lq1 Ht0 HtB Hq1 Hin1 Elow1 Eu1 Fw Elw Hrest Es HPn.
  destruct digit_bounds as [HV _]. pose proof (P_pos j) as Pj.
  unfold add_back. rewrite (get_limb q1), Hq1, decide_True by lia. cbn [mbind option_bind].
  rewrite as_single_small by lia. set_tac q1 j q2. cbn [mbind option_bind].
  destruct (window_spec u1 j n Fu1 ltac:(lia)) as (s2 & -> & Fs2 & Ls2 & Hs2).
  cbn [mbind option_bind].
  assert (value s2 = low w (S n)) as Es2.
  { rewrite value_low, Ls2. apply low_ext. intros i Hi. by rewrite Hs2, Hin1 by lia. }
  destruct (add_spec v s2) as (r & -> & Frr & Lrr & Err); [done|done|].
  cbn [mbind option_bind].
  destruct (write_back_window (reverse (seq j (n + 1))) r j n u1 Frr Fu1 ltac:(lia) ltac:(lia))
    as (u2 & -> & Fu2 & Lu2 & Hin2 & Hout2); [intros; apply elem_of_window_rev|].
  cbn [mbind option_bind].
  assert (value u1 < P (j + S n)).
  { rewrite Eu1, P_add. pose proof (low_bound u j Fu). pose proof (low_bound w (S n) Fw). nia. }
  destruct (window_replaced u1 u2 r j n Fu1 ltac:(done) Hin2 Hout2) as [Elow2 Eu2].
  exists u2, q2. split; [done|]. unfold digit_done.
  split_and!; [done|lia|apply Fq2; auto with lia|lia|].
  exists t. split; [lia|]. split.
  { intros i. rewrite Hq2, Hq1. case_decide; [lia|done]. }
  assert (low r (S n) = value s - value v * t) as Elr.
  { rewrite low_mod, Err, Es2, Elw by done. symmetry. apply (Z.mod_unique _ _ 1); lia. }
  apply (digit_written u2 r t s); auto; [lia|congruence|..]; rewrite Elr; lia.
Qed.

Lemma subtract_digit_spec s qhat :
  window u j n = Some s → limbs_fit s → len s = S n →
  value u = low u j + P j * value s → corrected (V:=value v) (S:=value s) qhat →
  ∃ u' q', subtract_digit v n j qhat u q = Some (u', q') ∧ digit_done u' q'.
Proof.
  intros Ew Fs Ls Es [[Ht1 Ht2] HtB]. destruct digit_bounds as [HV Hu'].
  pose proof (value_bound s Fs) as HS0. pose proof (P_pos j) as Pj.
  pose proof B_pos as HB. assert (0 ≤ value s / value v) by (apply Z.div_pos; lia).
  pose proof (Z.div_mod (value s) (value v) ltac:(lia)) as Edm.
  pose proof (Z.mod_pos_bound (value s) (value v) ltac:(lia)) as Hm.
  set (t := value s / value v) in *.
  unfold subtract_digit. rewrite Ew. cbn [mbind option_bind].
  destruct (from_double_spec qhat) as ([Fd _] & Ed & Ld); [nia|].
  destruct (mul_spec v (from_double qhat)) as (rhs & -> & Fr & Lr & Er); [auto..|lia|lia|].
  cbn [mbind option_bind]. rewrite Ed in Er. rewrite Ld, Lv in Lr.
  destruct (sub_spec s rhs) as (w & -> & Fw & Lw & Evw); [done|done|lia|].
  cbn [mbind option_bind]. rewrite Ls, Lr, Nat.max_r in Lw, Evw by lia. rewrite Er in Evw.
  assert (either (if value rhs <=? value s then Ok w else Err w) = w) as -> by by case_match.
  destruct (write_back_window (seq j (n + 1)) w j n u Fw Fu Hj ltac:(lia))
    as (u1 & -> & Fu1 & Lu1 & Hin1 & Hout1); [intros; apply elem_of_window|].
  cbn [mbind option_bind].
  destruct (window_replaced u u1 w j n Fu Hu' Hin1 Hout1) as [Elow1 Eu1].
  rewrite as_single_small by lia. set_tac q j q1. cbn [mbind option_bind].
  assert (P (S n) ≤ P (n + 2)) by (apply P_mono; lia). assert (P n < P (S n)).
  { rewrite P_S. pose proof (P_pos n). unfold B in *. ulia. }
  destruct (value rhs <=? value s) eqn:Ec; bool_facts; rewrite Er in Ec; cbn [is_ok negb].
  - (* the estimate was right *)
    assert (qhat = t) as -> by nia.
    rewrite Z.mod_small in Evw by lia.
    exists u1, q1. split; [done|]. unfold digit_done. split_and!; [done|done|auto with lia|done|].
    exists t. split; [lia|]. split; [done|].
    assert (low w (S n) = value w) as Elw by (rewrite low_mod, Z.mod_small; auto; lia).
    apply (digit_written u1 w t s); auto; rewrite Elw, Evw; lia.
  - (* one too large: add back *)
    assert (qhat = t + 1) as -> by nia.
    assert (low w (S n) = value s - value v * (t + 1) + P (S n)) as Elw.
    { rewrite low_mod, Evw, Z.mod_mod_divide; auto.
      - symmetry. apply (Z.mod_unique _ _ (-1)); lia.
      - exists B. by replace (n + 2)%nat with (S (S n)) by lia; rewrite P_S. }
    destruct (add_back_spec u1 q1 w s t) as (u2 & q2 & -> & Hdone); auto; try lia;
      [apply Fq1; [done|lia]|]. by exists u2, q2.
Qed.

Lemma div_digit_spec fuel :
  (1 ≤ fuel)%nat → ∃ u' q', div_digit fuel v n j (u, q) = Some (u', q') ∧ digit_done u' q'.
Proof.
  intros Hf. destruct digit_bounds as [HV Hu']. pose proof (P_pos j) as Pj.
  destruct (window_spec u j n Fu Hj) as (s & Ew & Fs & Ls & Hs).
  pose proof (window_value u s j n Fu Fs Ls Hu' Hs) as Es.
  pose proof (low_bound u j Fu) as Hlow.
  assert (value s < value v * B) as HSV by (rewrite P_S in Hu; nia).
  destruct (test_loop_spec u v s n j Fu Fv Lv Hn Hj Hv1 Fs Ls Hs HSV fuel Hf)
    as (b & s1 & qhat & rhat & E1 & E2 & Hc).
  pose proof (limb_bound u (j + n) Fu). pose proof (limb_bound u (j + n - 1) Fu).
  pose proof (limb_bound v (n - 1) Fv).
  unfold div_digit. rewrite !get_limb by lia. cbn [mbind option_bind].
  rewrite as_double_small by nia. unfold div_single.
  set (dividend := limb u (j + n) * B + limb u (j + n - 1)) in *.
  pose proof (Z.mod_pos_bound dividend (limb v (n - 1)) ltac:(pose proof B_pos; lia)).
  rewrite as_single_small by lia. rewrite E1. cbn [mbind option_bind].
  rewrite E2. cbn [mbind option_bind]. by apply (subtract_digit_spec s).
Qed.
End digit.

(** ** All limbs of the quotient *)

Lemma div_digits_spec fuel v n m u :
  (1 ≤ fuel)%nat → limbs_fit v → len v = n → (2 ≤ n)%nat → B ≤ 2 * limb v (n - 1) →
  limbs_fit u → len u = (n + m + 1)%nat → value u < value v * P (m + 1) →
  ∃ u' q, for_range (reverse (seq 0 (m + 1))) (div_digit fuel v n) (u, with_capacity (m + 1))
            = Some (u', q)
    ∧ limbs_fit u' ∧ len u' = len u ∧ limbs_fit q ∧ len q = (m + 1)%nat
    ∧ value q = value u / value v ∧ value u' = value u mod value v.
Proof.
  intros Hf Fv Lv Hn Hv1 Fu Lu Hu.
  destruct (for_range_down (div_digit fuel v n) (λ j '(u', q),
    limbs_fit u' ∧ len u' = len u ∧ limbs_fit q ∧ len q = (m + 1)%nat
    ∧ value u' < value v * P j ∧ (∀ i, (i < j)%nat → limb q i = 0)
    ∧ value q * value v + value u' = value u) (m + 1) (u, with_capacity (m + 1)))
    as ([u' q] & E & Fu' & Lu' & Fq & Lq & Hlt & _ & Eq).
  - split_and!; auto using limbs_fit_with_capacity, limb_with_capacity.
    + rewrite len_with_capacity. lia.
    + rewrite value_low, low_with_capacity. lia.
  - intros j [u' q] Hj (Fu' & Lu' & Fq & Lq & Hlt & Zq & Eq).
    destruct (div_digit_spec u' v q n j Fu' Fv Fq Lv Hn ltac:(lia) ltac:(lia) Hv1 Hlt fuel Hf)
      as (u1 & q1 & E & Fu1 & Lu1 & Fq1 & Lq1 & t & Ht & Hq1 & Eu1 & Hu1).
    exists (u1, q1). split; [done|]. split_and!; auto; [lia|lia|..].
    + intros i Hi. rewrite Hq1, decide_False, Zq; lia.
    + rewrite (value_low q1), Lq1, (low_set _ _ _ _ _ Hq1), decide_True, Zq by lia.
      rewrite <- value_low. lia.
  - rewrite P_0, Z.mul_1_r in Hlt. pose proof (value_bound u' Fu').
    exists u', q. split_and!; auto.
    + apply (Z.div_unique _ _ _ (value u')); lia.
    + apply (Z.mod_unique _ _ (value q)); lia.
Qed.

(** ** The remainder *)

Lemma lor_disjoint a b k : 0 ≤ k → 0 ≤ a < 2 ^ k → Z.lor a (b * 2 ^ k) = a + b * 2 ^ k.
Proof.
  intros Hk Ha. rewrite <- Z.shiftl_mul_pow2 by done.
  assert (Z.land a (Z.shiftl b k) = 0) as E.
  { apply Z.bits_inj_0. intros i. rewrite Z.land_spec.
    destruct (Z.lt_ge_cases i k) as [Hi|Hi].
    - by rewrite Z.shiftl_spec_low, andb_false_r.
    - rewrite <- (Z.mod_small a (2 ^ k)), Z.mod_pow2_bits_high by lia. done. }
  rewrite <- Z.lxor_lor by done. symmetry. by apply Z.add_nocarry_lxor.
Qed.

Lemma wrap_B x : wrap U32_MAX x = x mod B.
Proof. reflexivity. Qed.

Section denormal.
Context (nb : Z) (Hnb : 0 < nb < 32).
Let c := 2 ^ nb.

(** A limb of the remainder. *)
Lemma shifted_limb a b :
  0 ≤ a < B → 0 ≤ b < B →
  let d := Z.lor (Z.shiftr a nb) (as_single (Z.shiftl b (SHIFT - nb))) in
  0 ≤ d < B ∧ c * d = a - a mod c + b mod c * B.
Proof.
  intros Ha Hb d. assert (c * 2 ^ (SHIFT - nb) = B) as EB.
  { unfold c, SHIFT. rewrite <- Z.pow_add_r, B_value by lia. f_equal. lia. }
  set (e := 2 ^ (SHIFT - nb)) in *.
  assert (0 < c) by (apply Z.pow_pos_nonneg; lia).
  assert (0 < e) by (apply Z.pow_pos_nonneg; unfold SHIFT; lia).
  pose proof (Z.div_mod a c ltac:(lia)) as Ea. pose proof (Z.mod_pos_bound a c ltac:(lia)).
  pose proof (Z.mod_pos_bound b c ltac:(lia)).
  assert (0 ≤ a / c < e) by (split; [apply Z.div_pos; lia|apply Z.div_lt_upper_bound; lia]).
  assert (d = a / c + b mod c * e) as ->.
  { unfold d. rewrite Z.shiftr_div_pow2, Z.shiftl_mul_pow2 by (unfold SHIFT; lia).
    fold e c. unfold as_single. rewrite wrap_B, <- EB, Z.mul_mod_distr_r by lia. apply lor_disjoint; [unfold SHIFT; lia|done]. }
  split; [split; [nia|]|rewrite <- EB; lia].
  assert ((b mod c + 1) * e ≤ c * e) by nia. lia.
Qed.

Lemma first_limb_divides u R : limbs_fit u → value u = c * R → limb u 0 mod c = 0.
Proof.
  intros Fu ER. destruct (low_split u 1 Fu) as (h & _ & E). rewrite low_S, P_1, P_0 in E.
  unfold low in E. assert (0 < c) by (apply Z.pow_pos_nonneg; lia).
  assert (c * 2 ^ (32 - nb) = B) as EB.
  { unfold c. rewrite <- Z.pow_add_r, B_value by lia. f_equal. lia. }
  replace (limb u 0) with ((R - h * 2 ^ (32 - nb)) * c) by (rewrite <- EB in E; lia).
  apply Z.mod_mul. lia.
Qed.

Lemma denormalize_spec u n R :
  limbs_fit u → (2 ≤ n)%nat → (n ≤ len u)%nat → value u < P n → value u = c * R →
  ∃ r, denormalize u n nb (with_capacity n) = Some r ∧ big_wf r ∧ value r = R.
Proof.
  intros Fu Hn Lu Hu ER. unfold denormalize. rewrite (proj2 (Z.ltb_lt 0 nb)) by lia.
  assert (0 < c) by (apply Z.pow_pos_nonneg; lia).
  destruct (for_range_up (λ d r,
      ud ← get u d;
      ud1 ← get u (d + 1);
      set r d (Z.lor (Z.shiftr ud nb) (as_single (Z.shiftl ud1 (SHIFT - nb)))))
    (λ d r, limbs_fit r ∧ len r = n ∧ (∀ i, (d ≤ i)%nat → limb r i = 0)
      ∧ c * low r n = low u d - limb u 0 mod c + limb u d mod c * P d) (n - 1) (with_capacity n))
    as (r & -> & Fr & Lr & Zr & Er).
  - split_and!; auto using limbs_fit_with_capacity, limb_with_capacity.
    + rewrite len_with_capacity. lia.
    + rewrite low_with_capacity, P_0. unfold low. lia.
  - intros d r Hd (Fr & Lr & Zr & Er). rewrite !get_limb by lia. cbn [mbind option_bind].
    destruct (shifted_limb (limb u d) (limb u (d + 1)))
      as [Hb Ed]; [by apply limb_bound..|].
    set_tac r d r1. exists r1. split; [done|]. split_and!; [auto|lia|..].
    + intros i Hi. rewrite Hr1, decide_False, Zr; lia.
    + rewrite (low_set _ _ _ _ _ Hr1), decide_True, Zr, low_S, P_S by lia.
      rewrite Z.mul_add_distr_l, Er, Z.sub_0_r, Z.mul_assoc, Ed.
      replace (S d) with (d + 1)%nat by lia. lia.
  - cbn [mbind option_bind]. rewrite get_limb by lia. cbn [mbind option_bind].
    pose proof (limb_bound u (n - 1) Fu) as Hb. rewrite Z.shiftr_div_pow2 by lia. fold c.
    pose proof (Z.div_mod (limb u (n - 1)) c ltac:(lia)) as Ed.
    assert (0 ≤ limb u (n - 1) / c ≤ limb u (n - 1)).
    { split; [apply Z.div_pos; lia|apply Z.div_le_upper_bound; nia]. }
    set_tac r (n - 1)%nat r1. exists r1. split; [done|].
    split; [split; [apply Fr1; [done|lia]|lia]|].
    apply (Z.mul_cancel_l _ _ c); [lia|]. rewrite <- ER, (value_low_small u n) by done.
    rewrite value_low, Lr1, Lr, (low_set _ _ _ _ _ Hr1), decide_True, Zr by lia.
    rewrite Z.mul_add_distr_l, Er, Z.sub_0_r, Z.mul_assoc.
    assert (low u n = low u (n - 1) + limb u (n - 1) * P (n - 1)) as ->
      by (rewrite <- low_S; f_equal; lia).
    rewrite (first_limb_divides u R) by done. rewrite (Z.mod_eq (limb u _)) by lia. lia.
Qed.
End denormal.

(** ** The whole division *)

Lemma msb_limb x : big_wf x → msb x = Some (limb x (len x - 1)).
Proof.
  intros [Fx Lx]. rewrite <- get_limb by lia. unfold get, msb.
  rewrite (proj2 (Nat.ltb_lt _ _)) by lia. f_equal. lia.
Qed.

Lemma msb_value x :
  big_wf x → limb x (len x - 1) * P (len x - 1) ≤ value x
             < (limb x (len x - 1) + 1) * P (len x - 1).
Proof.
  intros [Fx Lx]. pose proof (low_bound x (len x - 1) Fx).
  assert (value x = low x (len x - 1) + limb x (len x - 1) * P (len x - 1)) as ->; [|lia].
  rewrite value_low, <- low_S. f_equal. lia.
Qed.

Lemma msb_zero x : big_wf x → limb x (len x - 1) = 0 ↔ value x < P (len x - 1).
Proof.
  intros Hx. pose proof (msb_value x Hx). pose proof (P_pos (len x - 1)).
  pose proof (limb_bound x (len x - 1) (proj1 Hx)). nia.
Qed.

(** The normalizer moves the top bit of the first limb to the top. *)
Lemma normalizer_spec d :
  0 < d < B → 0 ≤ leading_zeros d < 32
  ∧ as_single (2 ^ leading_zeros d) = 2 ^ leading_zeros d
  ∧ 1 ≤ 2 ^ leading_zeros d ≤ 2 ^ 31
  ∧ B ≤ 2 * (d * 2 ^ leading_zeros d) ∧ (d + 1) * 2 ^ leading_zeros d ≤ B.
Proof.
  intros Hd. unfold leading_zeros. rewrite (proj2 (Z.eqb_neq _ _)) by lia.
  pose proof (Z.log2_spec d ltac:(lia)) as [H1 H2]. pose proof (Z.log2_nonneg d).
  assert (Z.log2 d < 32) by (apply Z.log2_lt_pow2; rewrite <- ?B_value; lia).
  set (k := Z.log2 d) in *. unfold Z.succ in H2.
  assert (1 ≤ 2 ^ (31 - k) ≤ 2 ^ 31).
  { split; [apply (Z.pow_le_mono_r 2 0); lia|apply Z.pow_le_mono_r; lia]. }
  assert (2 ^ k * 2 ^ (31 - k) = 2 ^ 31) by (rewrite <- Z.pow_add_r by lia; f_equal; lia).
  assert (2 ^ (k + 1) * 2 ^ (31 - k) = B).
  { rewrite <- Z.pow_add_r, B_value by lia. f_equal. lia. }
  assert (B = 2 * 2 ^ 31) by done.
  split; [lia|]. split; [apply as_single_small; lia|]. split; [done|]. split; nia.
Qed.

Lemma lpad_enough x n : (n ≤ len x)%nat → lpad x n = x.
Proof. intros H. unfold lpad. by rewrite (proj2 (Nat.leb_le _ _)). Qed.

(** The numbers the division accepts. *)
Definition divisible (x y : BigUint) : Prop :=
  (1 < len y < len x)%nat ∧ P (len y - 1) ≤ value y ∧ P (len x - 1) ≤ value x.

#[global] Instance divisible_dec x y : Decision (divisible x y).
Proof. unfold divisible. apply _. Defined.

Lemma remainder_spec u n nb R (rem : bool) :
  limbs_fit u → (2 ≤ n)%nat → (n ≤ len u)%nat → 0 ≤ nb < 32 → value u < P n →
  value u = R * 2 ^ nb →
  ∃ r, (if rem then denormalize u n nb (with_capacity n) else Some (with_capacity n)) = Some r
       ∧ big_wf r ∧ value r = if rem then R else 0.
Proof.
  intros Fu Hn Lu Hnb Hu ER. destruct rem.
  - destruct (decide (nb = 0)) as [->|].
    + exists u. split; [done|]. split; [split; [done|lia]|]. rewrite ER. lia.
    + apply denormalize_spec; auto; lia.
  - exists (with_capacity n). split; [done|].
    split; [split; [apply limbs_fit_with_capacity|rewrite len_with_capacity; lia]|].
    by rewrite value_low, low_with_capacity.
Qed.

Section division.
Context (x y : BigUint) (Hx : big_wf x) (Hy : big_wf y).

Lemma div_rejects fuel rem : ¬ divisible x y → div fuel x y rem = Some None.
Proof.
  intros H. unfold div. destruct (len y <=? 1)%nat eqn:E1; [done|]. apply Nat.leb_gt in E1.
  rewrite (msb_limb y), (msb_limb x) by done. cbn [mbind option_bind].
  destruct (limb y (len y - 1) =? 0) eqn:E2; [done|].
  destruct (limb x (len x - 1) =? 0) eqn:E3; [done|]. cbn [orb].
  destruct (len x <=? len y)%nat eqn:E4; [done|]. apply Nat.leb_gt in E4. bool_facts.
  rewrite msb_zero in E2, E3 by done. destruct H. split; lia.
Qed.

Lemma scaled_divisor c :
  limbs_fit y → (1 < len y)%nat → 1 ≤ c < B →
  B ≤ 2 * (limb y (len y - 1) * c) → (limb y (len y - 1) + 1) * c ≤ B →
  ∃ w, mul y (from_single c) = Some w ∧ limbs_fit (lstrip w) ∧ len (lstrip w) = len y
       ∧ value (lstrip w) = value y * c ∧ B ≤ 2 * limb (lstrip w) (len y - 1).
Proof.
  intros Fy Ly Hc H1 H2. destruct (from_single_spec c) as ([Fc _] & Ec & Lc); [lia|].
  destruct (mul_spec y (from_single c)) as (w & E & Fw & Lw & Ew); [auto..|lia|lia|].
  destruct (lstrip_spec w) as ([Fl Ll] & El & Sl & _); [split; [done|lia]|].
  exists w. split; [done|]. split; [done|]. rewrite Ew, Ec in El.
  pose proof (msb_value y Hy) as Hm. pose proof (P_pos (len y - 1)) as HP.
  set (D := P (len y - 1)) in *. set (t := limb y (len y - 1)) in *.
  assert (B * D ≤ 2 * (value y * c)) by nia. assert (value y * c < B * D) by nia.
  assert (D * 2 ≤ B * D) by (assert (2 ≤ B) by done; nia).
  split; [|split; [done|]].
  - replace (len y) with (S (len y - 1)) by lia. apply stripped_len; auto; [by split|].
    rewrite P_S. fold D. lia.
  - rewrite limb_value, El by done. fold D.
    assert (value y * c / D < B) by (apply Z.div_lt_upper_bound; lia).
    assert (2 ^ 31 ≤ value y * c / D).
    { apply Z.div_le_lower_bound; [lia|]. assert (B = 2 * 2 ^ 31) as EB by done. nia. }
    rewrite Z.mod_small by lia. assert (B = 2 * 2 ^ 31) by done. lia.
Qed.

Lemma scaled_dividend c u v m :
  1 ≤ c ≤ 2 ^ 31 → value u = value x * c → limbs_fit v → len v = len y → (1 < len y)%nat →
  B ≤ 2 * limb v (len y - 1) → len x = (len y + m)%nat → value u < value v * P (m + 1).
Proof.
  intros Hc Eu Fv Lv Ly Hv Lx. pose proof (value_bound x (proj1 Hx)) as Hvx.
  rewrite Lx in Hvx. pose proof (msb_value v ltac:(split; [done|lia])) as [Hm _].
  rewrite Lv in Hm. assert (B = 2 * 2 ^ 31) as EB by done.
  assert (P (len y + m) = P (len y - 1) * P (m + 1)) as EP by (rewrite <- P_add; f_equal; lia).
  pose proof (P_pos (len y - 1)). pose proof (P_pos (m + 1)).
  assert (2 ^ 31 * P (len y - 1) ≤ value v) by nia.
  assert (2 ^ 31 * P (len y - 1) * P (m + 1) ≤ value v * P (m + 1)) by nia.
  assert (value x * c < P (len y + m) * 2 ^ 31) by nia. lia.
Qed.

Lemma div_accepts fuel (rem : bool) :
  divisible x y → (1 ≤ fuel)%nat →
  ∃ q r, div fuel x y rem = Some (Some (q, r)) ∧ big_wf q ∧ big_wf r
    ∧ value q = value x / value y ∧ value r = if rem then value x mod value y else 0.
Proof.
  intros (Hlen & Vy & Vx) Hf. unfold div. rewrite (proj2 (Nat.leb_gt _ _)) by lia.
  rewrite (msb_limb y), (msb_limb x) by done. cbn [mbind option_bind].
  assert (limb y (len y - 1) ≠ 0) as Ny by (rewrite msb_zero; [lia|done]).
  assert (limb x (len x - 1) ≠ 0) as Nx by (rewrite msb_zero; [lia|done]).
  rewrite (proj2 (Z.eqb_neq _ _) Ny), (proj2 (Z.eqb_neq _ _) Nx). cbn [orb].
  rewrite (proj2 (Nat.leb_gt _ _)) by lia. cbv zeta.
  pose proof (limb_bound y (len y - 1) (proj1 Hy)).
  destruct (normalizer_spec (limb y (len y - 1))) as (Hnb & -> & Hc & Hc1 & Hc2); [lia|].
  set (nb := leading_zeros _) in *. set (c := 2 ^ nb) in *.
  assert (B = 2 * 2 ^ 31) as EB by done.
  destruct (from_single_spec c) as ([Fc _] & Ec & Lc); [lia|].
  destruct Hx as [Fx Lx], Hy as [Fy Ly].
  destruct (mul_spec x (from_single c)) as (u & -> & Fu & Lu & Eu); [auto..|lia|lia|].
  cbn [mbind option_bind].
  destruct (scaled_divisor c) as (w & -> & Fw & Lw & Ew & Hw); [auto|lia|lia|done|done|].
  cbn [mbind option_bind]. set (v := lstrip w) in *. rewrite Lc in Lu. rewrite Ec in Eu.
  rewrite lpad_enough by lia. set (n := len y) in *. set (m := (len x - n)%nat) in *.
  pose proof (value_bound v Fw) as Hv. rewrite Lw in Hv. pose proof (P_pos (n - 1)).
  assert (value u < value v * P (m + 1)) as Hlt
    by (apply (scaled_dividend c); auto; lia).
  destruct (div_digits_spec fuel v n m u) as (u' & q & -> & Fu' & Lu' & Fq & Lq & Eq & Eu');
    [done..|lia|done|done|lia|done|].
  cbn [mbind option_bind]. rewrite Eu, Ew in Eq, Eu'.
  rewrite Z.div_mul_cancel_r in Eq by lia. rewrite Z.mul_mod_distr_r in Eu' by lia.
  destruct (remainder_spec u' n nb (value x mod value y) rem) as (r & -> & Hr & Er);
    [done|lia|lia|lia| |done|].
  { pose proof (Z.mod_pos_bound (value x) (value y)). nia. }
  cbn [mbind option_bind]. exists q, r. split_and!; auto. split; [done|lia].
Qed.
End division.

(** C21. Long division is division: two numbers are divided exactly when the divisor
    has two limbs or more, the dividend has more limbs than it, and neither has a
    leading zero.  The quotient and the remainder are then those of the values,
    no index is out of range, and no estimate needs more than one round of
    correction. *)
Theorem biguint_division fuel x y rem :
  big_wf x → big_wf y → (1 ≤ fuel)%nat →
  if decide (divisible x y) then
    ∃ q r, div fuel x y rem = Some (Some (q, r)) ∧ big_wf q ∧ big_wf r
      ∧ value q = value x / value y ∧ value r = if rem then value x mod value y else 0
  else div fuel x y rem = Some None.
Proof.
  intros Hx Hy Hf. case_decide; [by apply div_accepts|by apply div_rejects].
Qed.

(** A quotient whose first estimate is two too large: it is corrected once by the
    test and once by adding back. *)
Lemma biguint_division_witness :
  ∃ q r, div 1 {| digits := [4294967295; 0; 0; 0] |}
               {| digits := [4294967295; 0; 1] |} true = Some (Some (q, r))
    ∧ value q = 4294967295 ∧ value r = 79228162495817593515539431425.
Proof.
  pose proof (biguint_division 1 {| digits := [4294967295; 0; 0; 0] |}
    {| digits := [4294967295; 0; 1] |} true) as H.
  rewrite decide_True in H by (apply (bool_decide_unpack _); vm_compute; exact I).
  destruct H as (q & r & E & _ & _ & Eq & Er).
  - split; [|vm_compute; lia]. repeat constructor; unfold fits, U32_MAX; lia.
  - split; [|vm_compute; lia]. repeat constructor; unfold fits, U32_MAX; lia.
  - lia.
  - exists q, r. split; [exact E|]. rewrite Eq, Er. split; reflexivity.
Defined.
