(* ===== verification/Perquintill.v ===== *)
(** * Perquintill: parts per 10^18 in a [u64]

    The instance [Perquintill] of the macro [implement_per_thing] in
    substrate/primitives/arithmetic/src/per_things.rs, on arguments of 64 and of
    128 bits.  A per-thing is the integer of its parts. *)

From S2P Require Import Prelude Arith.

Definition ACCURACY : Z := 1000000000000000000.

(** The type [N] of the arguments of a generic method. *)
Inductive Width := N64 | N128.

(** [MultiplyRational::multiply_rational] of [u64] and of [u128]. *)
Definition multiply_rational (w : Width) (a n d : Z) (r : Rounding) : option Z :=
  match w with
  | N64 =>
      if d =? 0 then None
      else
        let sn := wrap U128_MAX (a * n) in
        let result := sn / d in
        let remainder := wrap U64_MAX (sn mod d) in
        result ← (if rounds_up r remainder d then checked_add U128_MAX result 1
                  else Some result);
        if U64_MAX <? result then None else Some result
  | N128 => multiply_by_rational_with_rounding a n d r
  end.

Definition perquintill_from_parts (parts : Z) : Z := Z.min parts ACCURACY.

(** [from_rational_with_rounding]; [try_into] is to [u64]. *)
Definition perquintill_with_rounding (w : Width) (p q : Z) (r : Rounding) : option Z :=
  if q =? 0 then None
  else if q <? p then None
  else
    x ← multiply_rational w ACCURACY p q r;
    if x <=? U64_MAX then Some x else None.

Definition perquintill_from_rational (w : Width) (p q : Z) : Z :=
  default ACCURACY (perquintill_with_rounding w p q Down).

(** The constant function of the type, and the method of the trait. *)
Definition from_percent_const (x : Z) : Z :=
  wrap U64_MAX ((if 100 <? x then 100 else x) * ACCURACY / 100).
Definition from_percent (x : Z) : Z :=
  perquintill_from_rational N64 (Z.min x 100) 100.

Definition perquintill_saturating_add (a b : Z) : Z :=
  perquintill_from_parts (saturating_add U64_MAX a b).
Definition perquintill_saturating_sub (a b : Z) : Z :=
  perquintill_from_parts (saturating_sub a b).

(** [Perquintill * Perquintill] and [Perquintill / Perquintill] *)
Definition perquintill_mul (a b : Z) : Z :=
  let parts := wrap U128_MAX (a * b) / ACCURACY in
  perquintill_from_parts (wrap U64_MAX parts).
Definition perquintill_div (p q : Z) : Z := perquintill_from_rational N64 p q.

(** [Perquintill * u128]: to the nearest integer, halves down. *)
Definition perquintill_mul_balance (part b : Z) : Z :=
  let c := rational_mul_correction b part ACCURACY NearestPrefDown in
  wrap U128_MAX (b / ACCURACY * part + c).

(** ** What they compute *)

Definition perquintill (x : Z) : Prop := 0 ≤ x ≤ ACCURACY.

Lemma from_rational_floor64 p q :
  0 ≤ p ≤ q → 0 < q → q ≤ U64_MAX → perquintill_from_rational N64 p q = ACCURACY * p / q.
Proof.
  intros Hp Hq Hw. unfold perquintill_from_rational, perquintill_with_rounding.
  rewrite (proj2 (Z.eqb_neq _ _)), (proj2 (Z.ltb_ge _ _)) by lia. unfold multiply_rational.
  rewrite (proj2 (Z.eqb_neq _ _)) by lia. rewrite (wrap_small U128_MAX (ACCURACY * p)).
  2:{ unfold ACCURACY. ulia. }
  assert (ACCURACY * p / q ≤ ACCURACY) by (apply Z.div_le_upper_bound; unfold ACCURACY; nia).
  cbn [rounds_up mbind option_bind].
  rewrite (proj2 (Z.ltb_ge _ _)) by (unfold ACCURACY in *; ulia). cbn [mbind option_bind].
  by rewrite (proj2 (Z.leb_le _ _)) by (unfold ACCURACY in *; ulia).
Qed.

Lemma from_rational_floor128 p q :
  0 ≤ p ≤ q → 0 < q → perquintill_from_rational N128 p q = ACCURACY * p / q.
Proof.
  intros Hp Hq. unfold perquintill_from_rational, perquintill_with_rounding.
  rewrite (proj2 (Z.eqb_neq _ _)), (proj2 (Z.ltb_ge _ _)) by lia.
  unfold multiply_rational, multiply_by_rational_with_rounding.
  rewrite (proj2 (Z.eqb_neq _ _)) by lia.
  assert (ACCURACY * p / q ≤ ACCURACY) by (apply Z.div_le_upper_bound; unfold ACCURACY; nia).
  rewrite (proj2 (Z.leb_le _ _)) by (unfold ACCURACY in *; ulia). cbn [rounds_up mbind option_bind].
  by rewrite (proj2 (Z.leb_le _ _)) by (unfold ACCURACY in *; ulia).
Qed.

(** Outside the range the fraction is one. *)
Lemma from_rational_one w p q :
  q = 0 ∨ q < p → perquintill_from_rational w p q = ACCURACY.
Proof.
  intros H. unfold perquintill_from_rational, perquintill_with_rounding.
  destruct (q =? 0) eqn:E1; [done|]. bool_facts.
  by rewrite (proj2 (Z.ltb_lt _ _)) by lia.
Qed.

Lemma from_rational_range w p q :
  0 ≤ p → 0 ≤ q → (w = N64 → q ≤ U64_MAX) → perquintill (perquintill_from_rational w p q).
Proof.
  intros Hp Hq Hw. unfold perquintill.
  destruct (decide (0 < q ∧ p ≤ q)) as [[H1 H2]|H].
  - assert (0 ≤ ACCURACY * p / q ≤ ACCURACY).
    { split; [apply Z.div_pos|apply Z.div_le_upper_bound]; unfold ACCURACY; nia. }
    destruct w; [rewrite from_rational_floor64|rewrite from_rational_floor128]; auto; lia.
  - rewrite from_rational_one by lia. unfold ACCURACY. lia.
Qed.

Lemma perquintill_mul_floor a b :
  perquintill a → perquintill b → perquintill_mul a b = a * b / ACCURACY.
Proof.
  unfold perquintill, perquintill_mul, perquintill_from_parts. intros Ha Hb.
  assert (0 < ACCURACY) by done. assert (0 ≤ a * b ≤ ACCURACY * ACCURACY) by nia.
  rewrite (wrap_small U128_MAX (a * b)) by (unfold fits, ACCURACY, U128_MAX in *; lia).
  assert (0 ≤ a * b / ACCURACY ≤ ACCURACY).
  { split; [apply Z.div_pos|apply Z.div_le_upper_bound]; lia. }
  rewrite wrap_small by (unfold ACCURACY in *; ulia). lia.
Qed.

Lemma perquintill_mul_le a b :
  perquintill a → perquintill b → perquintill (perquintill_mul a b) ∧ perquintill_mul a b ≤ a.
Proof.
  intros Ha Hb. rewrite perquintill_mul_floor by done. unfold perquintill in *.
  assert (0 ≤ a * b / ACCURACY ≤ a); [|lia].
  split; [apply Z.div_pos|apply Z.div_le_upper_bound]; unfold ACCURACY in *; nia.
Qed.

Lemma perquintill_mul_mono a b b' :
  perquintill a → perquintill b → perquintill b' → b ≤ b' →
  perquintill_mul a b ≤ perquintill_mul a b'.
Proof.
  intros Ha Hb Hb' H. rewrite !perquintill_mul_floor by done. unfold perquintill in *.
  apply Z.div_le_mono; [done|]. nia.
Qed.

Lemma round_nearest q d n :
  0 < d → d mod 2 = 0 →
  n = d * q + n mod d →
  (if d / 2 <? n mod d then q + 1 else q) = (2 * n + d - 1) / (2 * d).
Proof.
  intros Hd He Hn. pose proof (Z.mod_pos_bound n d Hd) as Hm.
  pose proof (Z.div_mod d 2 ltac:(lia)) as Ed. rewrite He in Ed.
  destruct (d / 2 <? n mod d) eqn:E; bool_facts.
  - apply (Z.div_unique _ _ _ (2 * (n mod d) - d - 1)); lia.
  - apply (Z.div_unique _ _ _ (2 * (n mod d) + d - 1)); lia.
Qed.

Lemma mul_balance_nearest part b :
  perquintill part → fits U128_MAX b →
  perquintill_mul_balance part b = (2 * (part * b) + ACCURACY - 1) / (2 * ACCURACY).
Proof.
  unfold perquintill, perquintill_mul_balance, rational_mul_correction. intros Hp Hb.
  assert (ACCURACY mod 2 = 0) as He by done. assert (0 < ACCURACY) as HA by done.
  pose proof (Z.div_mod b ACCURACY ltac:(lia)) as Eb.
  pose proof (Z.mod_pos_bound b ACCURACY ltac:(lia)) as Hm.
  set (r := b mod ACCURACY) in *. set (q := b / ACCURACY) in *.
  assert (0 ≤ q) by (apply Z.div_pos; ulia).
  rewrite (round_nearest _ _ (r * part)) by (auto; apply Z.div_mod; lia).
  rewrite wrap_small.
  - rewrite Z.add_comm, <- Z.div_add by lia. f_equal. rewrite Eb. lia.
  - assert (0 ≤ (2 * (r * part) + ACCURACY - 1) / (2 * ACCURACY) ≤ r).
    { split; [apply Z.div_pos; nia|]. apply Z.lt_succ_r, Z.div_lt_upper_bound; nia. }
    unfold fits in *. nia.
Qed.

Lemma mul_balance_mono part part' b :
  perquintill part → perquintill part' → part ≤ part' → fits U128_MAX b →
  0 ≤ perquintill_mul_balance part b ≤ perquintill_mul_balance part' b
  ∧ perquintill_mul_balance part' b ≤ b.
Proof.
  intros Hp Hp' H Hb. rewrite !mul_balance_nearest by done.
  assert (0 < ACCURACY) by done. unfold perquintill in *.
  pose proof (fits_nonneg _ _ Hb). split; [split|].
  - apply Z.div_pos; nia.
  - apply Z.div_le_mono; nia.
  - apply Z.lt_succ_r, Z.div_lt_upper_bound; nia.
Qed.
