(* ===== verification/RewardFn.v ===== *)
(** * The inflation curve of nominated proof of stake

    substrate/frame/staking/reward-fn/src/lib.rs: [compute_inflation] at
    [Perquintill], with its Taylor series over [BigUint].  [None] is a panic or
    the end of the fuel of a division; [inflation_refines] shows that there is
    none, and that the limbs compute the recurrence [term] on integers.

    The series is a loop of at most 299 rounds that breaks at the first term that
    is zero.  [taylor_terminates] shows that it always breaks. *)

From S2P Require Import Prelude Arith Double128 BigUint BigUintLaws BigUintDiv Perquintill.

(** The fuel of a division: one round of correction. *)
Definition correction_rounds : nat := 1.

Definition div_by_stripped (a b : BigUint) : option BigUint :=
  let a := lstrip a in
  if (len b =? 0)%nat then Some zero
  else if (len b =? 1)%nat then div_unit a (default 1 (checked_get b 0))
  else if (len a <? len b)%nat then Some zero
  else if (len b =? len a)%nat then
    new_a ← mul a (from_double (as_double (100000 ^ 2)));
    let new_a := lstrip new_a in
    res ← div correction_rounds new_a b false;
    let q := default zero (fst <$> res) in
    q1 ← div_unit q 100000;
    div_unit q1 100000
  else
    res ← div correction_rounds a b false;
    Some (default zero (fst <$> res)).

Record INPoSParam := {
  ln2_div_d : BigUint;
  x_ideal : BigUint;
  x : BigUint;
  accuracy : BigUint
}.

Definition compute_taylor_term (k : Z) (previous_taylor_term : BigUint) (p : INPoSParam)
    : option BigUint :=
  d ← sub (x p) (x_ideal p);
  let x_minus_x_ideal := match d with Ok w => w | Err _ => zero end in
  t1 ← mul previous_taylor_term x_minus_x_ideal;
  t2 ← mul t1 (ln2_div_d p);
  res ← div_unit t2 k;
  res ← div_by_stripped res (accuracy p);
  res ← div_by_stripped res (accuracy p);
  Some (lstrip res).

(** What the loop keeps: the last term, the sign of the sum, and the sum. *)
Record Taylor := { last : BigUint; sum_positive : bool; sum : BigUint }.

(** Adding a term to the sum, each with its sign. *)
Definition add_term (k : Z) (t : BigUint) (s : Taylor) : option Taylor :=
  let last_taylor_term_positive := k mod 2 =? 0 in
  if Bool.eqb (sum_positive s) last_taylor_term_positive then
    w ← add (sum s) t;
    Some {| last := t; sum_positive := sum_positive s; sum := w |}
  else
    match cmp (sum s) t with
    | Lt =>
        w ← sub t (sum s);
        Some {| last := t; sum_positive := negb (sum_positive s); sum := either w |}
    | _ =>
        w ← sub (sum s) t;
        Some {| last := t; sum_positive := sum_positive s; sum := either w |}
    end.

(** [n] rounds of [for k in k.. { .. }]. *)
Fixpoint taylor_loop (n : nat) (k : Z) (p : INPoSParam) (s : Taylor) : option Taylor :=
  match n with
  | O => Some s
  | S n' =>
      t ← compute_taylor_term k (last s) p;
      if is_zero t then Some {| last := t; sum_positive := sum_positive s; sum := sum s |}
      else s' ← add_term k t s; taylor_loop n' (k + 1) p s'
  end.

(** The code runs [for k in 1..300]: 299 rounds. *)
Definition compute_taylor_serie_part (rounds : nat) (p : INPoSParam) : option BigUint :=
  s ← taylor_loop rounds 1 p
        {| last := accuracy p; sum_positive := true; sum := accuracy p |};
  Some (if sum_positive s then lstrip (sum s) else zero).

Definition LN2 : Z := 693147180559945309.

Definition inpos_param (stake ideal_stake falloff : Z) : option INPoSParam :=
  let acc := lstrip (to_big_uint ACCURACY) in
  let falloff := lstrip (to_big_uint falloff) in
  let ln2 := to_big_uint (perquintill_from_rational N128 LN2 ACCURACY) in
  w ← mul ln2 acc;
  l ← div_by_stripped w falloff;
  Some {| ln2_div_d := l; x_ideal := to_big_uint ideal_stake; x := to_big_uint stake;
          accuracy := acc |}.

Definition inflation_upto (rounds : nat) (stake ideal_stake falloff : Z) : option Z :=
  if stake <? ideal_stake then Some (perquintill_div stake ideal_stake)
  else if falloff <? from_percent 1 then Some 0
  else
    p ← inpos_param stake ideal_stake falloff;
    res ← compute_taylor_serie_part rounds p;
    Some
      match try_from 128 res with
      | Some res =>
          if res <=? ACCURACY then perquintill_from_parts (Z.min res U64_MAX) else 0
      | None => 0
      end.

Definition compute_inflation (stake ideal_stake falloff : Z) : option Z :=
  inflation_upto 299 stake ideal_stake falloff.

(** ** Division *)

Lemma checked_get_limb y i : (i < len y)%nat → checked_get y i = Some (limb y i).
Proof.
  intros H. rewrite <- get_limb by done. unfold get, checked_get.
  rewrite (proj2 (Nat.ltb_lt _ _) H). destruct (len y) as [|n]; [lia|].
  rewrite (proj2 (Nat.leb_le _ _)) by lia. f_equal. lia.
Qed.

Lemma one_limb_value y : len y = 1%nat → value y = limb y 0.
Proof. intros H. rewrite value_low, H, low_S, P_0. unfold low. lia. Qed.

(** A dividend longer than the divisor. *)
Lemma div_longer a b :
  big_wf a → big_wf b → divisible a b →
  ∃ q, (res ← div correction_rounds a b false; Some (default zero (fst <$> res))) = Some q
       ∧ big_wf q ∧ value q = value a / value b.
Proof.
  intros Ha Hb Hd. unfold correction_rounds.
  destruct (div_accepts a b Ha Hb 1 false Hd) as (q & r & -> & Hq & _ & Eq & _); [lia|].
  by exists q.
Qed.

(** A dividend as long as the divisor is scaled by 10^10, more than a limb. *)
Lemma scaled_divisible a b w :
  big_wf a → big_wf b → stripped a → stripped b → len a = len b → (2 ≤ len b)%nat →
  big_wf w → value w = value a * 10000000000 → stripped w → divisible w b.
Proof.
  intros [Fa _] [Fb _] Sa Sb Hl H2 [Fw Lw] Ew Sw. pose proof (value_bound w Fw).
  destruct Sa as [|Sa]; [lia|]. destruct Sb as [|Sb]; [lia|].
  pose proof (P_pos (len b - 1)).
  assert (P (len b) = B * P (len b - 1)) as EP by (rewrite <- P_S; f_equal; lia).
  assert (B = 4294967296) as EB by done.
  assert (P (len b) ≤ value w) by (rewrite Ew, EP, EB; rewrite Hl in Sa; lia).
  assert (len b < len w)%nat.
  { destruct (Nat.lt_ge_cases (len b) (len w)) as [|Hge]; [done|].
    pose proof (P_mono _ _ Hge). lia. }
  split; [lia|]. split; [done|]. destruct Sw as [|Sw]; [lia|done].
Qed.

Lemma div_unit_wf y d :
  big_wf y → 1 ≤ d < B →
  ∃ w, div_unit y d = Some w ∧ big_wf w ∧ value w = value y / d.
Proof.
  intros [Fy Ly] Hd. destruct (div_unit_spec y d) as (w & E & Fw & Lw & Ew); [done|done|lia|].
  exists w. rewrite Z.max_l in Ew by lia. split; [done|]. split; [split; [done|lia]|done].
Qed.

Lemma mul_wf y z :
  big_wf y → big_wf z → ∃ w, mul y z = Some w ∧ big_wf w ∧ value w = value y * value z.
Proof.
  intros [Fy Ly] [Fz Lz]. destruct (mul_spec y z) as (w & E & Fw & Lw & Ew); auto.
  exists w. split; [done|]. split; [split; [done|lia]|done].
Qed.

Lemma div_by_stripped_spec a b :
  big_wf a → big_wf b → stripped b → 0 < value b →
  ∃ w, div_by_stripped a b = Some w ∧ big_wf w ∧ value w = value a / value b.
Proof.
  intros Ha Hb Sb Vb. unfold div_by_stripped.
  destruct (lstrip_spec a Ha) as (Ha' & Ea & Sa & _). set (a' := lstrip a) in *. cbv zeta.
  rewrite <- Ea. clear Ha Ea. pose proof Ha' as [Fa La]. pose proof Hb as [Fb Lb].
  pose proof (value_bound a' Fa) as Ba. pose proof (value_bound b Fb) as Bb.
  rewrite (proj2 (Nat.eqb_neq _ _)) by lia.
  destruct (len b =? 1)%nat eqn:E1.
  { apply Nat.eqb_eq in E1. rewrite checked_get_limb by lia. cbn [default from_option].
    rewrite <- one_limb_value by done. apply div_unit_wf; [done|].
    rewrite E1, P_1 in Bb. lia. }
  apply Nat.eqb_neq in E1. destruct Sb as [|Sb']; [lia|].
  destruct (len a' <? len b)%nat eqn:E2.
  { apply Nat.ltb_lt in E2. pose proof (P_mono (len a') (len b - 1) ltac:(lia)).
    exists zero. split; [done|]. split.
    - split; [repeat constructor; ulia|unfold len; simpl; lia].
    - rewrite Z.div_small by lia. done. }
  apply Nat.ltb_ge in E2. destruct (len b =? len a')%nat eqn:E3.
  - apply Nat.eqb_eq in E3. change (as_double (100000 ^ 2)) with 10000000000.
    destruct (from_double_spec 10000000000) as (Hc & Ec & _); [done|].
    destruct (mul_wf a' (from_double 10000000000)) as (w & -> & Hw & Ew); [done|done|].
    cbn [mbind option_bind]. rewrite Ec in Ew.
    destruct (lstrip_spec w Hw) as (Hw' & Ew' & Sw' & _). rewrite Ew in Ew'.
    destruct (div_longer (lstrip w) b) as (q & Eq & Hq & Vq); [done|done|..].
    { apply (scaled_divisible a' b); auto; [by right|lia]. }
    destruct (div correction_rounds (lstrip w) b false) as [res|]; [|done].
    cbn [mbind option_bind] in *. injection Eq as ->.
    destruct (div_unit_wf q 100000) as (q1 & -> & Hq1 & Vq1); [done|done|].
    cbn [mbind option_bind].
    destruct (div_unit_wf q1 100000) as (q2 & -> & Hq2 & Vq2); [done|done|].
    exists q2. split; [done|]. split; [done|].
    rewrite Vq2, Vq1, Vq, Ew', !Z.div_div by lia.
    replace (value b * (100000 * 100000)) with (value b * 10000000000) by lia.
    apply Z.div_mul_cancel_r; lia.
  - apply Nat.eqb_neq in E3. apply div_longer; auto. split; [lia|]. split; [done|].
    destruct Sa as [|Sa]; [lia|done].
Qed.

(** ** The series on integers *)

(** The [k]-th term from the one before, with [c] the exponent times the square
    of the accuracy. *)
Definition term (c k t : Z) : Z := t * c / (k * ACCURACY * ACCURACY).

(** The exponent of the parameters of a call. *)
Definition scaled_exponent (stake ideal_stake falloff : Z) : Z :=
  (stake - ideal_stake) * (LN2 * ACCURACY / falloff).

(** The sum of the series with its sign, over [n] rounds from the [k]-th. *)
Fixpoint series (n : nat) (c k t s : Z) : Z :=
  match n with
  | O => s
  | S n' =>
      let t' := term c k t in
      if t' =? 0 then s
      else series n' c (k + 1) t' (if k mod 2 =? 0 then s + t' else s - t')
  end.

Lemma sub_wf y z :
  big_wf y → big_wf z → value z ≤ value y →
  ∃ w, sub y z = Some (Ok w) ∧ big_wf w ∧ value w = value y - value z.
Proof.
  intros [Fy Ly] [Fz Lz] H. destruct (sub_spec y z) as (w & E & Fw & Lw & Ew); auto.
  rewrite (proj2 (Z.leb_le _ _) H) in E. exists w. split; [done|].
  split; [split; [done|lia]|]. rewrite Ew. apply Z.mod_small.
  pose proof (value_bound y Fy). pose proof (value_bound z Fz).
  pose proof (P_mono (len y) (len y `max` len z) ltac:(lia)). lia.
Qed.

(** The parameters as integers: [d] the distance from the ideal stake, [l] the
    rounded [ln 2 / falloff]. *)
Record param_values (p : INPoSParam) (d l : Z) : Prop := {
  pv_x : big_wf (x p);
  pv_ideal : big_wf (x_ideal p);
  pv_d : value (x p) - value (x_ideal p) = d;
  pv_ln2 : big_wf (ln2_div_d p);
  pv_l : value (ln2_div_d p) = l;
  pv_acc : big_wf (accuracy p);
  pv_accuracy : value (accuracy p) = ACCURACY;
  pv_stripped : stripped (accuracy p);
  pv_nonneg : 0 ≤ d
}.

Section refinement.
Context {p : INPoSParam} {d l : Z} (Hp : param_values p d l).

Lemma compute_taylor_term_spec k t :
  big_wf t → 1 ≤ k < B →
  ∃ w, compute_taylor_term k t p = Some w ∧ big_wf w ∧ value w = term (d * l) k (value t).
Proof.
  destruct Hp. intros Ht Hk. unfold compute_taylor_term.
  destruct (sub_wf (x p) (x_ideal p)) as (w & -> & Hw & Ew); [done|done|lia|].
  cbn [mbind option_bind].
  destruct (mul_wf t w) as (t1 & -> & Ht1 & E1); [done|done|]. cbn [mbind option_bind].
  destruct (mul_wf t1 (ln2_div_d p)) as (t2 & -> & Ht2 & E2); [done|done|].
  cbn [mbind option_bind].
  destruct (div_unit_wf t2 k) as (t3 & -> & Ht3 & E3); [done|done|]. cbn [mbind option_bind].
  assert (0 < value (accuracy p)) by (rewrite pv_accuracy0; done).
  destruct (div_by_stripped_spec t3 (accuracy p)) as (t4 & -> & Ht4 & E4); [done..|].
  cbn [mbind option_bind].
  destruct (div_by_stripped_spec t4 (accuracy p)) as (t5 & -> & Ht5 & E5); [done..|].
  cbn [mbind option_bind]. destruct (lstrip_spec t5 Ht5) as (Ht6 & E6 & _ & _).
  exists (lstrip t5). split; [done|]. split; [done|].
  rewrite E6, E5, E4, E3, E2, E1, Ew, pv_accuracy0, pv_d0, pv_l0, !Z.div_div by (done || lia).
  unfold term. f_equal; lia.
Qed.

(** The state of the loop as the last term and the signed sum. *)
Definition taylor_values (s : Taylor) (t v : Z) : Prop :=
  big_wf (last s) ∧ value (last s) = t ∧ big_wf (sum s)
  ∧ v = if sum_positive s then value (sum s) else - value (sum s).

Lemma add_term_spec k t s v :
  big_wf t → taylor_values s (value (last s)) v →
  ∃ s', add_term k t s = Some s'
    ∧ taylor_values s' (value t) (if k mod 2 =? 0 then v + value t else v - value t).
Proof.
  intros Ht (Hl & _ & Hs & Ev). unfold add_term, taylor_values.
  pose proof Ht as [Ft Lt]. pose proof Hs as [Fs Ls].
  destruct (Bool.eqb (sum_positive s) (k mod 2 =? 0)) eqn:Eb.
  - apply Bool.eqb_prop in Eb.
    destruct (add_spec (sum s) t Fs Ft) as (w & -> & Fw & Lw & Ew). cbn [mbind option_bind].
    eexists. split; [done|]. simpl. split_and!; [done|done|split; [done|lia]|].
    rewrite Ew, Ev, <- Eb. destruct (sum_positive s); lia.
  - apply Bool.eqb_false_iff in Eb. rewrite cmp_spec by done.
    destruct (Z.compare_spec (value (sum s)) (value t)) as [E|E|E].
    1,3: destruct (sub_wf (sum s) t) as (w & -> & Hw & Ew); [done|done|lia|].
    3: destruct (sub_wf t (sum s)) as (w & -> & Hw & Ew); [done|done|lia|].
    all: cbn [mbind option_bind]; eexists; (split; [done|]); simpl; split_and!; auto;
      rewrite Ew, Ev; destruct (sum_positive s), (k mod 2 =? 0); simpl; try lia; by destruct Eb.
Qed.

Lemma taylor_loop_spec n k s t v :
  taylor_values s t v → 1 ≤ k → k + Z.of_nat n < B →
  ∃ s' t', taylor_loop n k p s = Some s' ∧ taylor_values s' t' (series n (d * l) k t v).
Proof.
  revert k s t v. induction n as [|n IH]; intros k s t v Hs Hk Hb.
  { by exists s, t. }
  pose proof Hs as (Hl & Et & Hsum & Ev). cbn [taylor_loop series].
  destruct (compute_taylor_term_spec k (last s)) as (w & -> & Hw & Ew); [done|lia|].
  cbn [mbind option_bind]. rewrite is_zero_spec, Ew, Et by apply Hw.
  destruct (term (d * l) k t =? 0) eqn:E0.
  - exists {| last := w; sum_positive := sum_positive s; sum := sum s |}, (value w).
    split; [done|]. by split_and!.
  - destruct (add_term_spec k w s v) as (s' & -> & Hs'); [done|by split_and!|].
    cbn [mbind option_bind]. rewrite Et in Ew. rewrite <- Ew. apply IH; [done|lia|lia].
Qed.

Lemma compute_taylor_serie_part_spec n :
  Z.of_nat n < 4294967000 →
  ∃ w, compute_taylor_serie_part n p = Some w ∧ big_wf w
       ∧ value w = Z.max 0 (series n (d * l) 1 ACCURACY ACCURACY).
Proof.
  intros Hn. unfold compute_taylor_serie_part.
  destruct (taylor_loop_spec n 1 {| last := accuracy p; sum_positive := true; sum := accuracy p |}
    ACCURACY ACCURACY) as (s & t & -> & (Hl & _ & Hs & Ev)).
  - destruct Hp. split_and!; simpl; auto.
  - lia.
  - unfold B. ulia.
  - cbn [mbind option_bind]. eexists. split; [done|].
    pose proof (value_bound _ (proj1 Hs)). rewrite Ev. destruct (sum_positive s).
    + destruct (lstrip_spec (sum s) Hs) as (Hw & Ew & _). split; [done|]. rewrite Ew. lia.
    + split; [split; [repeat constructor; ulia|unfold len; simpl; lia]|].
      change (value zero) with 0. lia.
Qed.
End refinement.

(** ** The whole function on integers *)

Definition inflation (rounds : nat) (stake ideal_stake falloff : Z) : Z :=
  if stake <? ideal_stake then ACCURACY * stake / ideal_stake
  else if falloff <? ACCURACY / 100 then 0
  else
    let res := Z.max 0 (series rounds (scaled_exponent stake ideal_stake falloff) 1
                          ACCURACY ACCURACY) in
    if res <=? ACCURACY then res else 0.

Lemma perquintill_u128 v : perquintill v → fits U128_MAX v.
Proof. unfold perquintill, ACCURACY. ulia. Qed.

Lemma to_big_lstrip v :
  perquintill v → big_wf (lstrip (to_big_uint v)) ∧ value (lstrip (to_big_uint v)) = v
                  ∧ stripped (lstrip (to_big_uint v)).
Proof.
  intros H. destruct (to_big_uint_spec v (perquintill_u128 v H)) as (H1 & H2 & _).
  destruct (lstrip_spec _ H1) as (H3 & H4 & H5 & _). by rewrite H4, H2.
Qed.

Lemma inpos_param_spec stake ideal_stake falloff :
  perquintill stake → perquintill ideal_stake → perquintill falloff →
  ideal_stake ≤ stake → 0 < falloff →
  ∃ p, inpos_param stake ideal_stake falloff = Some p
       ∧ param_values p (stake - ideal_stake) (LN2 * ACCURACY / falloff).
Proof.
  intros Hs Hi Hf Hle Hpos. unfold inpos_param.
  destruct (to_big_lstrip ACCURACY) as (Wa & Va & Sa); [done|].
  destruct (to_big_lstrip falloff Hf) as (Wf & Vf & Sf).
  change (perquintill_from_rational N128 LN2 ACCURACY) with LN2.
  destruct (to_big_uint_spec LN2) as (Wl & Vl & _); [done|].
  destruct (to_big_uint_spec _ (perquintill_u128 _ Hs)) as (Ws & Vs & _).
  destruct (to_big_uint_spec _ (perquintill_u128 _ Hi)) as (Wi & Vi & _).
  destruct (mul_wf _ _ Wl Wa) as (w & -> & Ww & Vw). cbn [mbind option_bind].
  destruct (div_by_stripped_spec w (lstrip (to_big_uint falloff))) as (r & -> & Wr & Vr);
    [done|done|done|lia|].
  cbn [mbind option_bind]. eexists. split; [done|].
  split; simpl; auto; [congruence|rewrite Vr, Vw, Vl, Va, Vf; done|lia].
Qed.

Lemma inflation_refines rounds stake ideal_stake falloff :
  perquintill stake → perquintill ideal_stake → perquintill falloff →
  Z.of_nat rounds < 4294967000 →
  inflation_upto rounds stake ideal_stake falloff
  = Some (inflation rounds stake ideal_stake falloff).
Proof.
  intros Hs Hi Hf Hr. unfold inflation_upto, inflation.
  destruct (stake <? ideal_stake) eqn:E1; bool_facts.
  { unfold perquintill_div, perquintill in *. f_equal. apply from_rational_floor64; [lia|lia|].
    unfold ACCURACY in *. ulia. }
  change (from_percent 1) with (ACCURACY / 100).
  destruct (falloff <? ACCURACY / 100) eqn:E2; bool_facts; [done|].
  destruct (inpos_param_spec stake ideal_stake falloff) as (p & -> & Hp); auto.
  { assert (0 < ACCURACY / 100) by done. lia. }
  cbn [mbind option_bind].
  destruct (compute_taylor_serie_part_spec Hp rounds Hr) as (w & -> & Ww & Vw).
  cbn [mbind option_bind]. f_equal. change 128 with (32 * Z.of_nat 4).
  rewrite try_from_spec, Vw by (auto; lia). unfold scaled_exponent.
  set (v := Z.max 0 _). change (P 4) with (U128_MAX + 1).
  destruct (v <? U128_MAX + 1) eqn:E3, (v <=? ACCURACY) eqn:E4; bool_facts; auto.
  - unfold perquintill_from_parts. assert (ACCURACY ≤ U64_MAX) by done. lia.
  - assert (ACCURACY ≤ U128_MAX) by done. lia.
Qed.

(** ** The series ends *)

(** The term after [n] rounds. *)
Fixpoint term_at (n : nat) (c k t : Z) : Z :=
  match n with O => t | S n' => term_at n' c (k + 1) (term c k t) end.

Lemma term_mono c c' k t t' :
  0 ≤ c ≤ c' → 0 ≤ t ≤ t' → 1 ≤ k → 0 ≤ term c k t ≤ term c' k t'.
Proof.
  intros Hc Ht Hk. unfold term. assert (0 < k * ACCURACY * ACCURACY) by (unfold ACCURACY; lia).
  split; [apply Z.div_pos; nia|]. apply Z.div_le_mono; nia.
Qed.

Lemma term_at_mono n c c' k t t' :
  0 ≤ c ≤ c' → 0 ≤ t ≤ t' → 1 ≤ k → 0 ≤ term_at n c k t ≤ term_at n c' k t'.
Proof.
  intros Hc. revert k t t'. induction n as [|n IH]; intros k t t' Ht Hk; [done|].
  cbn [term_at]. apply IH; [|lia]. by apply term_mono.
Qed.

Lemma term_at_zero n c k : term_at n c k 0 = 0.
Proof. revert k. induction n as [|n IH]; intros k; [done|]. simpl. apply IH. Qed.

(** Once a term is zero, more rounds do not change the sum. *)
Lemma series_stable n m c k t s :
  term_at n c k t = 0 → series (n + m) c k t s = series n c k t s ∨ t = 0.
Proof.
  revert k t s. induction n as [|n IH]; intros k t s H; [by right|left].
  cbn [Nat.add series]. cbn [term_at] in H.
  destruct (term c k t =? 0) eqn:E; [done|]. bool_facts.
  destruct (IH (k + 1) (term c k t) (if k mod 2 =? 0 then s + term c k t else s - term c k t) H)
    as [->|]; [done|lia].
Qed.

(** The largest exponent: all is staked, none should be, and a falloff of 1%. *)
Definition max_exponent : Z := ACCURACY * (100 * LN2).

Lemma scaled_exponent_bound stake ideal_stake falloff :
  perquintill stake → perquintill ideal_stake → ideal_stake ≤ stake →
  ACCURACY / 100 ≤ falloff →
  0 ≤ scaled_exponent stake ideal_stake falloff ≤ max_exponent.
Proof.
  unfold perquintill, scaled_exponent, max_exponent. intros Hs Hi Hle Hf.
  assert (ACCURACY / 100 = 10000000000000000) as E by done. rewrite E in Hf.
  assert (0 ≤ LN2 * ACCURACY / falloff ≤ 100 * LN2).
  { split; [apply Z.div_pos; unfold LN2, ACCURACY; lia|].
    apply Z.div_le_upper_bound; unfold LN2, ACCURACY; lia. }
  nia.
Qed.

(** The number of rounds after which every term is zero. *)
Definition taylor_rounds : nat := 223.

Lemma max_exponent_ends : term_at taylor_rounds max_exponent 1 ACCURACY = 0.
Proof. vm_compute. reflexivity. Qed.

Lemma exponent_ends c : 0 ≤ c ≤ max_exponent → term_at taylor_rounds c 1 ACCURACY = 0.
Proof.
  intros Hc. pose proof (term_at_mono taylor_rounds c max_exponent 1 ACCURACY ACCURACY).
  rewrite max_exponent_ends in H. assert (0 < ACCURACY) by done. lia.
Qed.

Lemma inflation_rounds rounds stake ideal_stake falloff :
  perquintill stake → perquintill ideal_stake → (taylor_rounds ≤ rounds)%nat →
  inflation rounds stake ideal_stake falloff = inflation taylor_rounds stake ideal_stake falloff.
Proof.
  intros Hs Hi Hr. unfold inflation.
  destruct (stake <? ideal_stake) eqn:E1; [done|].
  destruct (falloff <? ACCURACY / 100) eqn:E2; [done|]. bool_facts.
  pose proof (scaled_exponent_bound stake ideal_stake falloff Hs Hi E1 E2) as Hc.
  destruct (series_stable taylor_rounds (rounds - taylor_rounds) _ 1 ACCURACY ACCURACY
    (exponent_ends _ Hc)) as [E|E]; [|done].
  replace (taylor_rounds + (rounds - taylor_rounds))%nat with rounds in E by lia.
  by rewrite E.
Qed.

(** The series always ends because its terms vanish, within 223 rounds, and not
    because of the limit of the loop: with any number of rounds from there on
    [compute_inflation] returns the same, and it never panics. *)
Theorem taylor_terminates rounds stake ideal_stake falloff :
  perquintill stake → perquintill ideal_stake → perquintill falloff →
  (taylor_rounds ≤ rounds)%nat → Z.of_nat rounds < 4294967000 →
  ∃ v, inflation_upto rounds stake ideal_stake falloff = Some v
       ∧ compute_inflation stake ideal_stake falloff = Some v.
Proof.
  intros Hs Hi Hf Hr1 Hr2. unfold compute_inflation.
  rewrite !inflation_refines by (auto; lia).
  exists (inflation rounds stake ideal_stake falloff). split; [done|]. f_equal.
  rewrite (inflation_rounds rounds), (inflation_rounds 299); auto. unfold taylor_rounds. lia.
Qed.

Lemma taylor_terminates_witness :
  ∃ v, inflation_upto 1000 800000000000000000 750000000000000000 50000000000000000 = Some v
       ∧ compute_inflation 800000000000000000 750000000000000000 50000000000000000 = Some v.
Proof.
  apply (taylor_terminates 1000 800000000000000000 750000000000000000 50000000000000000);
    unfold perquintill, ACCURACY, taylor_rounds; lia.
Defined.
