(* ===== verification/RewardFnAccuracy.v ===== *)
(** * How exact the inflation curve is

    The documentation of [compute_inflation] gives the curve as [x / x_ideal] below
    the ideal stake and [2 ^ ((x_ideal - x) / d)] above it.  This file compares
    what the code computes in parts per 10^18, with every term of the series
    rounded down, with that function of the real numbers.

    The series of [exp (- y)] alternates, with terms that grow to [exp y] before
    they vanish.  Still every rounding error reaches the result with a factor of
    at most one ([tail_bounds]), so that the sum is wrong by at most one part per
    round. *)

From Stdlib Require Import Reals Lra.
From S2P Require Import Prelude Arith Perquintill RewardFn.

Local Open Scope R_scope.

Lemma abs_scaled a u v n : 0 < a → Rabs (a * u - a * v) <= n → Rabs (u - v) <= n / a.
Proof.
  intros Ha H. rewrite <- Rmult_minus_distr_l, Rabs_mult, (Rabs_pos_eq a) in H by lra.
  apply (Rmult_le_reg_l a); [exact Ha|]. replace (a * (n / a)) with n by (field; lra). exact H.
Qed.

Lemma abs_combine a s u v e1 e2 :
  0 < a → Rabs (s - a * u) <= e1 → Rabs (u - v) <= e2 / a → Rabs (s - a * v) <= e1 + e2.
Proof.
  intros Ha H1 H2. replace (s - a * v) with ((s - a * u) + a * (u - v)) by ring.
  eapply Rle_trans; [apply Rabs_triang|]. rewrite Rabs_mult, (Rabs_pos_eq a) by lra.
  assert (a * Rabs (u - v) <= a * (e2 / a)) by (apply Rmult_le_compat_l; lra).
  replace (a * (e2 / a)) with e2 in * by (field; lra). lra.
Qed.

Lemma max_0_error n u e : 0 <= u → Rabs (IZR n - u) <= e → Rabs (IZR (Z.max 0 n) - u) <= e.
Proof.
  intros Hu H. destruct (Z.le_gt_cases 0 n) as [Hn|Hn]; [by rewrite Z.max_r|].
  rewrite Z.max_l by lia. apply IZR_lt in Hn. rewrite Rabs_left1 in * by lra. lra.
Qed.

(** ** The tails of the series of [exp (- y)] *)

(** What is missing after [i] terms, without its sign. *)
Fixpoint tail (i : nat) (y : R) : R :=
  match i with
  | O => exp (- y)
  | S i' => y ^ i' / INR (fact i') - tail i' y
  end.

Lemma monomial_derivative i y :
  derivable_pt_lim (λ y, y ^ S i / INR (fact (S i))) y (y ^ i / INR (fact i)).
Proof.
  assert (INR (fact i) ≠ 0) by apply INR_fact_neq_0.
  assert (INR (S i) ≠ 0) by (apply not_0_INR; lia).
  replace (y ^ i / INR (fact i)) with (/ INR (fact (S i)) * (INR (S i) * y ^ Nat.pred (S i))).
  - apply (derivable_pt_lim_ext (mult_real_fct (/ INR (fact (S i))) (λ y, y ^ S i))).
    + intros z. unfold mult_real_fct, Rdiv. ring.
    + apply derivable_pt_lim_scal, derivable_pt_lim_pow.
  - rewrite fact_simpl, mult_INR. simpl Nat.pred. field. auto.
Qed.

Lemma exp_neg_derivative y : derivable_pt_lim (λ y, exp (- y)) y (- exp (- y)).
Proof.
  replace (- exp (- y)) with (exp (- y) * - 1) by ring.
  apply (derivable_pt_lim_comp Ropp exp); [|apply derivable_pt_lim_exp].
  apply (derivable_pt_lim_ext (opp_fct id)); [done|].
  apply derivable_pt_lim_opp, derivable_pt_lim_id.
Qed.

Lemma tail_derivative i y : derivable_pt_lim (tail (S i)) y (tail i y).
Proof.
  revert y. induction i as [|i IH]; intros y.
  - replace (tail 0 y) with (0 - - exp (- y)) by (simpl; ring).
    apply (derivable_pt_lim_ext (minus_fct (fct_cte 1) (λ y, exp (- y)))).
    { intros z. unfold minus_fct, fct_cte. simpl. field. }
    apply derivable_pt_lim_minus; [apply derivable_pt_lim_const|apply exp_neg_derivative].
  - change (tail (S i) y) with (y ^ i / INR (fact i) - tail i y).
    apply (derivable_pt_lim_ext (minus_fct (λ y, y ^ S i / INR (fact (S i))) (tail (S i))));
      [done|].
    apply derivable_pt_lim_minus; [apply monomial_derivative|apply IH].
Qed.

Lemma tail_at_0 i : tail (S i) 0 = 0.
Proof.
  induction i as [|i IH].
  - simpl. rewrite Ropp_0, exp_0. field.
  - change (tail (S (S i)) 0) with (0 ^ S i / INR (fact (S i)) - tail (S i) 0).
    rewrite IH, pow_i by lia. unfold Rdiv. ring.
Qed.

Lemma tail_nonneg i y : 0 <= y → 0 <= tail i y.
Proof.
  revert y. induction i as [|i IH]; intros y Hy; [apply Rlt_le, exp_pos|].
  destruct (Rle_lt_or_eq_dec 0 y Hy) as [Hlt|<-]; [|rewrite tail_at_0; lra].
  destruct (MVT_cor2 (tail (S i)) (tail i) 0 y Hlt) as (z & E & Hz).
  { intros z _. apply tail_derivative. }
  rewrite tail_at_0 in E. assert (0 <= tail i z) by (apply IH; lra). nra.
Qed.

Lemma tail_bounds i y : 0 <= y → 0 <= tail i y <= y ^ i / INR (fact i).
Proof.
  intros Hy. split; [by apply tail_nonneg|].
  pose proof (tail_nonneg (S i) y Hy). change (tail (S i) y) with (y ^ i / INR (fact i) - tail i y) in *.
  lra.
Qed.

(** The tail relative to the term it follows. *)
Definition rel_tail (i : nat) (y : R) : R := tail i y * INR (fact i) / y ^ i.

Lemma rel_tail_bounds i y : 0 < y → 0 <= rel_tail i y <= 1.
Proof.
  intros Hy. pose proof (tail_bounds i y ltac:(lra)) as [H1 H2]. unfold rel_tail.
  assert (0 < y ^ i) by (by apply pow_lt). assert (0 < INR (fact i)) by apply INR_fact_lt_0.
  assert (0 < INR (fact i) / y ^ i) by (apply Rdiv_lt_0_compat; auto).
  unfold Rdiv in *. rewrite Rmult_assoc. split; [nra|].
  replace 1 with (y ^ i * / INR (fact i) * (INR (fact i) * / y ^ i)) by (field; split; lra).
  apply Rmult_le_compat_r; lra.
Qed.

Lemma rel_tail_step i y : 0 < y → rel_tail i y = 1 - y / INR (S i) * rel_tail (S i) y.
Proof.
  intros Hy. unfold rel_tail. change (tail (S i) y) with (y ^ i / INR (fact i) - tail i y).
  assert (y ^ i ≠ 0) by (apply pow_nonzero; lra).
  assert (INR (fact i) ≠ 0) by apply INR_fact_neq_0.
  assert (INR (S i) ≠ 0) by (apply not_0_INR; lia).
  rewrite fact_simpl, mult_INR. simpl pow. field. split_and!; auto; lra.
Qed.

(** ** The rounded series *)

Abbreviation A := (IZR ACCURACY).

Lemma A_pos : 0 < A.
Proof. apply IZR_lt. done. Qed.

Definition sign (k : Z) : R := if (k mod 2 =? 0)%Z then 1 else -1.

Lemma sign_next k : sign (k + 1) = - sign k.
Proof.
  unfold sign. assert ((k + 1) mod 2 = 1 - k mod 2)%Z as ->.
  { pose proof (Z.mod_pos_bound k 2 eq_refl). pose proof (Z.div_mod k 2 ltac:(lia)).
    destruct (decide (k mod 2 = 0)%Z) as [E|].
    - symmetry. apply (Z.mod_unique _ _ (k / 2)); lia.
    - symmetry. apply (Z.mod_unique _ _ (k / 2 + 1)); lia. }
  pose proof (Z.mod_pos_bound k 2 eq_refl).
  destruct (Z.eqb_spec (k mod 2) 0), (Z.eqb_spec (1 - k mod 2) 0); try lia; lra.
Qed.

Lemma sign_abs k : Rabs (sign k) = 1.
Proof. unfold sign. destruct (_ =? _)%Z; [apply Rabs_pos_eq; lra|]. rewrite Rabs_left; lra. Qed.

Section series.
Context (c : Z) (Hc : (0 < c)%Z).
(** The exponent. *)
Let y := IZR c / (A * A).

Lemma exponent_pos : 0 < y.
Proof.
  pose proof A_pos. apply Rdiv_lt_0_compat; [by apply IZR_lt|]. by apply Rmult_lt_0_compat.
Qed.

(** A term is the exact one from the term before, rounded down. *)
Lemma term_rounding k t :
  (1 <= k)%Z → (0 <= t)%Z →
  0 <= IZR t * y / IZR k - IZR (term c k t) < 1.
Proof.
  intros Hk Ht. unfold term. set (m := (k * ACCURACY * ACCURACY)%Z).
  assert (0 < m)%Z as Hm by (unfold m, ACCURACY; lia).
  pose proof A_pos. assert (0 < IZR k) by (apply IZR_lt; lia).
  pose proof (Z.div_mod (t * c) m ltac:(lia)) as E. pose proof (Z.mod_pos_bound (t * c) m Hm) as Hr.
  apply (f_equal IZR) in E. rewrite plus_IZR, !mult_IZR in E.
  assert (IZR m = IZR k * A * A) as Em by (unfold m; by rewrite !mult_IZR).
  assert (0 < IZR m) by (by apply IZR_lt).
  assert (IZR t * y / IZR k - IZR (t * c / m) = IZR ((t * c) mod m) / IZR m) as ->.
  { replace (IZR t * y / IZR k) with (IZR t * IZR c / IZR m)
      by (unfold y; rewrite Em; field; split; lra).
    rewrite E. field. lra. }
  destruct Hr as [Hr1 Hr2]. apply IZR_le in Hr1. apply IZR_lt in Hr2.
  split; [apply Rmult_le_pos; [lra|by apply Rlt_le, Rinv_0_lt_compat]|]. apply (Rmult_lt_reg_r (IZR m)); [done|].
  unfold Rdiv. rewrite Rmult_assoc, Rinv_l; lra.
Qed.

(** What the sum is heading for, when [s] is the sum up to the term [t], the one
    before the [k]-th. *)
Definition target (k t s : Z) : R :=
  IZR s + sign (k + 1) * IZR t * (rel_tail (Z.to_nat (k - 1)) y - 1).

Lemma target_exact k t s :
  (1 <= k)%Z →
  target k t s = IZR s + sign k * (IZR t * y / IZR k) * rel_tail (Z.to_nat k) y.
Proof.
  intros Hk. unfold target. rewrite (rel_tail_step _ y exponent_pos), sign_next.
  replace (S (Z.to_nat (k - 1))) with (Z.to_nat k) by lia.
  rewrite INR_IZR_INZ, Z2Nat.id by lia. field. apply not_0_IZR. lia.
Qed.

(** A round moves the target by less than a part. *)
Lemma target_round k t s :
  (1 <= k)%Z → (0 <= t)%Z →
  Rabs (target (k + 1) (term c k t)
          (if (k mod 2 =? 0)%Z then s + term c k t else s - term c k t)%Z - target k t s) <= 1.
Proof.
  intros Hk Ht. rewrite (target_exact k) by done. unfold target.
  replace (k + 1 - 1)%Z with k by lia. rewrite !sign_next, Ropp_involutive.
  pose proof (term_rounding k t Hk Ht) as Hr.
  pose proof (rel_tail_bounds (Z.to_nat k) y exponent_pos) as Hf.
  set (f := rel_tail _ y) in *. set (e := IZR t * y / IZR k) in *.
  set (t' := term c k t) in *.
  assert (IZR (if (k mod 2 =? 0)%Z then s + t' else s - t')%Z = IZR s + sign k * IZR t') as ->.
  { unfold sign. destruct (_ =? _)%Z; rewrite ?plus_IZR, ?minus_IZR; ring. }
  replace (_ - _) with (- (sign k * ((e - IZR t') * f))) by ring.
  rewrite Rabs_Ropp, Rabs_mult, sign_abs, Rmult_1_l, Rabs_pos_eq by nra. nra.
Qed.

(** The last round drops less than a part. *)
Lemma target_last k t s :
  (1 <= k)%Z → (0 <= t)%Z → term c k t = 0%Z → Rabs (IZR s - target k t s) <= 1.
Proof.
  intros Hk Ht H0. rewrite target_exact by done.
  pose proof (term_rounding k t Hk Ht) as Hr. rewrite H0 in Hr.
  pose proof (rel_tail_bounds (Z.to_nat k) y exponent_pos) as Hf.
  set (f := rel_tail _ y) in *. set (e := IZR t * y / IZR k) in *.
  replace (_ - _) with (- (sign k * (e * f))) by ring.
  rewrite Rabs_Ropp, Rabs_mult, sign_abs, Rmult_1_l, Rabs_pos_eq by nra. nra.
Qed.

Lemma series_error n k t s :
  (1 <= k)%Z → (0 <= t)%Z → term_at n c k t = 0%Z →
  Rabs (IZR (series n c k t s) - target k t s) <= INR n.
Proof.
  revert k t s. induction n as [|n IH]; intros k t s Hk Ht Hend.
  { simpl in Hend. subst t. unfold target. simpl series.
    rewrite Rmult_0_r, Rmult_0_l, Rplus_0_r, Rminus_diag, Rabs_R0. simpl. lra. }
  cbn [series]. cbn [term_at] in Hend. rewrite S_INR. pose proof (pos_INR n).
  destruct (Z.eqb_spec (term c k t) 0) as [E|E].
  - pose proof (target_last k t s Hk Ht E). lra.
  - assert (0 <= term c k t)%Z by (apply (term_mono c c k t t); lia).
    set (s' := (if (k mod 2 =? 0)%Z then s + term c k t else s - term c k t)%Z) in *.
    pose proof (IH (k + 1)%Z (term c k t) s' ltac:(lia) ltac:(lia) Hend) as H1.
    pose proof (target_round k t s Hk Ht) as H2. fold s' in H2.
    eapply Rle_trans; [|apply Rplus_le_compat; [exact H1|exact H2]].
    eapply Rle_trans; [|apply Rabs_triang]. right. f_equal. ring.
Qed.

Lemma series_exp_pos n :
  term_at n c 1 ACCURACY = 0%Z →
  Rabs (IZR (series n c 1 ACCURACY ACCURACY) - A * exp (- y)) <= INR n.
Proof.
  intros H. pose proof (series_error n 1 ACCURACY ACCURACY ltac:(lia) ltac:(done) H) as Hs.
  replace (A * exp (- y)) with (target 1 ACCURACY ACCURACY); [done|].
  unfold target. simpl Z.to_nat. unfold rel_tail. simpl. unfold sign. simpl. field.
Qed.
End series.

Lemma series_exp n c :
  (0 <= c)%Z → (1 <= n)%nat → term_at n c 1 ACCURACY = 0%Z →
  Rabs (IZR (series n c 1 ACCURACY ACCURACY) - A * exp (- (IZR c / (A * A)))) <= INR n.
Proof.
  intros Hc Hn H. destruct (decide (c = 0)%Z) as [->|]; [|apply series_exp_pos; [lia|done]].
  assert (series n 0 1 ACCURACY ACCURACY = ACCURACY) as ->.
  { destruct n as [|n]; [lia|]. cbn [series]. by assert (term 0 1 ACCURACY = 0%Z) as -> by done. }
  unfold Rdiv. rewrite Rmult_0_l, Ropp_0, exp_0, Rmult_1_r, Rminus_diag, Rabs_R0. apply pos_INR.
Qed.

(** ** The result is never above one *)

(** Terms that do not grow: the sum stays between its last two values. *)
Lemma series_between n c k t s :
  (0 <= c <= ACCURACY * ACCURACY)%Z → (1 <= k)%Z → (0 <= t)%Z →
  (if (k mod 2 =? 0)%Z then s <= series n c k t s <= s + t
   else s - t <= series n c k t s <= s)%Z.
Proof.
  intros Hc. revert k t s. induction n as [|n IH]; intros k t s Hk Ht; cbn [series].
  { destruct (_ =? _)%Z; lia. }
  assert (0 <= term c k t <= t)%Z as Ht'.
  { unfold term, ACCURACY in *. split; [apply Z.div_pos; nia|apply Z.div_le_upper_bound; nia]. }
  destruct (Z.eqb_spec (term c k t) 0) as [E|E]; [destruct (_ =? _)%Z; lia|].
  assert (((k + 1) mod 2 =? 0) = negb (k mod 2 =? 0))%Z as Eb.
  { pose proof (sign_next k) as H. unfold sign in H.
    destruct ((k + 1) mod 2 =? 0)%Z, (k mod 2 =? 0)%Z; try done; lra. }
  set (s' := (if (k mod 2 =? 0)%Z then s + term c k t else s - term c k t)%Z).
  pose proof (IH (k + 1)%Z (term c k t) s' ltac:(lia) ltac:(lia)) as H. rewrite Eb in H.
  unfold s' in *. destruct (k mod 2 =? 0)%Z; simpl in H; lia.
Qed.

Lemma exp_neg_le_half y : 1 <= y → exp (- y) <= / 2.
Proof.
  intros Hy. rewrite exp_Ropp. apply Rinv_le_contravar; [lra|].
  pose proof (exp_ineq1_le y). lra.
Qed.

Lemma series_at_most_one c :
  (0 <= c <= max_exponent)%Z → (series taylor_rounds c 1 ACCURACY ACCURACY <= ACCURACY)%Z.
Proof.
  intros Hc. destruct (Z.le_gt_cases c (ACCURACY * ACCURACY)) as [H|H].
  - pose proof (series_between taylor_rounds c 1 ACCURACY ACCURACY ltac:(lia)) as Hb.
    specialize (Hb ltac:(lia) ltac:(done)). by destruct Hb.
  - pose proof (series_exp taylor_rounds c ltac:(lia) ltac:(unfold taylor_rounds; lia)
      (exponent_ends c Hc)) as He.
    pose proof A_pos as HA. assert (0 < A * A) by nra.
    assert (1 <= IZR c / (A * A)) as Hy.
    { apply (Rmult_le_reg_r (A * A)); [done|]. unfold Rdiv. rewrite Rmult_assoc, Rinv_l by lra.
      rewrite <- mult_IZR, Rmult_1_l, Rmult_1_r. apply IZR_le. lia. }
    pose proof (exp_neg_le_half _ Hy) as Hexp. apply (Rle_trans _ _ _ (Rle_abs _)) in He.
    assert (INR taylor_rounds = 223) as En by (rewrite INR_IZR_INZ; reflexivity).
    assert (A = 1000000000000000000) as EA by reflexivity.
    apply le_IZR. nra.
Qed.

(** ** The logarithm of two *)

Lemma exp_neg_lipschitz a b : 0 <= a → 0 <= b → Rabs (exp (- a) - exp (- b)) <= Rabs (a - b).
Proof.
  assert (∀ a b, 0 <= a → a < b → 0 <= exp (- a) - exp (- b) <= b - a) as H.
  { intros a' b' Ha Hab.
    destruct (MVT_cor2 (λ y, exp (- y)) (λ y, - exp (- y)) a' b' Hab) as (z & E & Hz).
    { intros z _. apply exp_neg_derivative. }
    assert (0 < exp (- z) <= 1).
    { split; [apply exp_pos|]. rewrite <- exp_0. apply Rlt_le, exp_increasing. lra. }
    nra. }
  intros Ha Hb. destruct (Rtotal_order a b) as [Hlt|[->|Hgt]].
  - specialize (H a b Ha Hlt). rewrite (Rabs_pos_eq (_ - _)), Rabs_minus_sym, Rabs_pos_eq; lra.
  - rewrite !Rminus_diag. lra.
  - specialize (H b a Hb Hgt). rewrite Rabs_minus_sym, !Rabs_pos_eq; lra.
Qed.

(** Below one the exponential is steep enough to compare arguments. *)
Lemma exp_neg_expansive a b :
  0 <= a <= 1 → 0 <= b <= 1 → Rabs (a - b) <= 3 * Rabs (exp (- a) - exp (- b)).
Proof.
  assert (∀ a b, 0 <= a → b <= 1 → a < b → b - a <= 3 * (exp (- a) - exp (- b))) as H.
  { intros a' b' Ha Hb Hab.
    destruct (MVT_cor2 (λ y, exp (- y)) (λ y, - exp (- y)) a' b' Hab) as (z & E & Hz).
    { intros z _. apply exp_neg_derivative. }
    assert (/ 3 <= exp (- z)).
    { rewrite exp_Ropp. apply Rinv_le_contravar; [apply exp_pos|].
      eapply Rle_trans; [|apply exp_le_3]. apply Rlt_le, exp_increasing. lra. }
    nra. }
  intros Ha Hb. destruct (Rtotal_order a b) as [Hlt|[->|Hgt]].
  - specialize (H a b ltac:(lra) ltac:(lra) Hlt).
    rewrite (Rabs_minus_sym a), (Rabs_pos_eq (b - a)), (Rabs_pos_eq (_ - _)); lra.
  - rewrite !Rminus_diag, Rabs_R0. lra.
  - specialize (H b a ltac:(lra) ltac:(lra) Hgt).
    rewrite (Rabs_minus_sym (exp _)), !Rabs_pos_eq; lra.
Qed.

(** The constant of the code, through the series itself. *)
Lemma LN2_accurate : Rabs (IZR LN2 / A - ln 2) <= 669 / A.
Proof.
  pose proof A_pos as HA. assert (A = 1000000000000000000) as EA by reflexivity.
  set (c := (ACCURACY * LN2)%Z).
  assert (0 <= c <= max_exponent)%Z as Hc by (unfold c, max_exponent, ACCURACY, LN2; lia).
  pose proof (series_exp taylor_rounds c ltac:(lia) ltac:(unfold taylor_rounds; lia)
      (exponent_ends c Hc)) as He.
  assert (series taylor_rounds c 1 ACCURACY ACCURACY = 500000000000000000)%Z as Es
    by (vm_compute; reflexivity).
  assert (IZR c / (A * A) = IZR LN2 / A) as Ec
    by (unfold c; rewrite mult_IZR; field; lra).
  rewrite Es, Ec in He. assert (INR taylor_rounds = 223) as En by (rewrite INR_IZR_INZ; reflexivity).
  rewrite En in He.
  assert (exp (- ln 2) = / 2) as E2 by (rewrite exp_Ropp, exp_ln; lra).
  assert (Rabs (exp (- (IZR LN2 / A)) - exp (- ln 2)) <= 223 / A) as H1.
  { rewrite E2, Rabs_minus_sym. apply abs_scaled; [exact HA|].
    assert (IZR 500000000000000000 = A * / 2) as Eh by (rewrite EA; lra).
    rewrite Eh in He. exact He. }
  assert (0 <= ln 2 <= 1) as Hln.
  { pose proof ln_lt_2. split; [lra|]. apply Rlt_le, exp_lt_inv. rewrite exp_ln by lra.
    pose proof (exp_ineq1 1). lra. }
  assert (0 <= IZR LN2 / A <= 1) as HL by (rewrite EA; unfold LN2; lra).
  pose proof (exp_neg_expansive _ _ HL Hln). lra.
Qed.

(** ** The curve of the documentation *)

Definition inflation_curve (stake ideal_stake falloff : R) : R :=
  if Rlt_dec stake ideal_stake then stake / ideal_stake
  else Rpower 2 ((ideal_stake - stake) / falloff).

Lemma ratio_bounds a b : 0 <= a <= b → 0 < b → 0 <= a / b <= 1.
Proof.
  intros Ha Hb. split; [apply Rmult_le_pos; [lra|by apply Rlt_le, Rinv_0_lt_compat]|].
  apply (Rmult_le_reg_r b); [done|]. unfold Rdiv. rewrite Rmult_assoc, Rinv_l; lra.
Qed.

(** The exponent of the code against the exact one. *)
Lemma exponent_accurate d f :
  (0 <= d <= ACCURACY)%Z → (ACCURACY / 100 <= f)%Z →
  let y := IZR (d * (LN2 * ACCURACY / f)) / (A * A) in
  0 <= y ∧ Rabs (y - IZR d / IZR f * ln 2) <= 66901 / A.
Proof.
  intros Hd Hf. cbv zeta. pose proof A_pos as HA.
  change (ACCURACY / 100)%Z with 10000000000000000%Z in Hf.
  assert (A = 1000000000000000000) as EA by reflexivity.
  assert (0 < f)%Z as Hf0 by lia.
  pose proof (Z.div_mod (LN2 * ACCURACY) f ltac:(lia)) as E.
  pose proof (Z.mod_pos_bound (LN2 * ACCURACY) f Hf0) as Hr.
  set (l := (LN2 * ACCURACY / f)%Z) in *. set (r := ((LN2 * ACCURACY) mod f)%Z) in *.
  assert (0 <= l)%Z as Hl by (apply Z.div_pos; [done|lia]).
  apply (f_equal IZR) in E. rewrite plus_IZR, !mult_IZR in E.
  destruct Hr as [Hr1 Hr2], Hd as [Hd1 Hd2]. apply IZR_le in Hr1, Hd1, Hd2, Hf, Hl.
  apply IZR_lt in Hr2, Hf0. rewrite mult_IZR.
  set (F := IZR f) in *. set (L := IZR l) in *. set (D := IZR d) in *. set (r' := IZR r) in *.
  split; [apply Rmult_le_pos; [nra|apply Rlt_le, Rinv_0_lt_compat; nra]|].
  pose proof LN2_accurate as Hln. set (e := IZR LN2 / A - ln 2) in *.
  assert (D * L / (A * A) - D / F * ln 2 = D / F * e - D / F * (r' / (A * A))) as ->.
  { replace L with ((IZR LN2 * A - r') / F) by (rewrite E; field; lra).
    unfold e. field. split; lra. }
  assert (0 <= D / F <= 100) as Hz.
  { split; [apply Rmult_le_pos; [lra|apply Rlt_le, Rinv_0_lt_compat; lra]|].
    apply (Rmult_le_reg_r F); [lra|]. unfold Rdiv. rewrite Rmult_assoc, Rinv_l by lra.
    rewrite EA in Hd2. lra. }
  assert (D / F * (r' / (A * A)) = D / A * (r' / F) / A) as -> by (field; lra).
  pose proof (ratio_bounds D A ltac:(lra) HA) as H1.
  pose proof (ratio_bounds r' F ltac:(lra) Hf0) as H2.
  assert (0 <= D / A * (r' / F) <= 1) as H3 by nra.
  assert (0 < / A) as HiA by (by apply Rinv_0_lt_compat).
  assert (Rabs (D / F * e) <= 66900 / A) as H4.
  { rewrite Rabs_mult, (Rabs_pos_eq (D / F)) by lra. unfold Rdiv in *.
    pose proof (Rabs_pos e). nra. }
  assert (Rabs (D / A * (r' / F) / A) <= 1 / A) as H5.
  { set (u := D / A * (r' / F)) in *. unfold Rdiv at 1 2. rewrite Rabs_pos_eq; nra. }
  eapply Rle_trans; [apply Rabs_triang|]. rewrite Rabs_Ropp. lra.
Qed.

Lemma Rpower_2 v : Rpower 2 v = exp (- (- v * ln 2)).
Proof. unfold Rpower. f_equal. ring. Qed.

(** Above the ideal stake, in parts. *)
Lemma inflation_above stake ideal_stake falloff :
  perquintill stake → perquintill ideal_stake → (ideal_stake <= stake)%Z →
  (ACCURACY / 100 <= falloff)%Z →
  let v := inflation taylor_rounds stake ideal_stake falloff in
  (0 <= v <= ACCURACY)%Z
  ∧ Rabs (IZR v - A * exp (- (IZR (stake - ideal_stake) / IZR falloff * ln 2))) <= 67124.
Proof.
  intros Hs Hi Hle Hf. cbv zeta. unfold inflation.
  rewrite (proj2 (Z.ltb_ge stake _)), (proj2 (Z.ltb_ge falloff _)) by done.
  pose proof (scaled_exponent_bound _ _ _ Hs Hi Hle Hf) as Hc.
  pose proof (series_at_most_one _ Hc) as H1.
  rewrite (proj2 (Z.leb_le _ _)) by (assert (0 < ACCURACY)%Z by done; lia).
  split; [assert (0 < ACCURACY)%Z by done; lia|].
  destruct (exponent_accurate (stake - ideal_stake) falloff) as [Hy He];
    [unfold perquintill in *; lia|done|].
  fold (scaled_exponent stake ideal_stake falloff) in Hy, He.
  set (c := scaled_exponent stake ideal_stake falloff) in *.
  pose proof (series_exp taylor_rounds c ltac:(lia) ltac:(unfold taylor_rounds; lia)
    (exponent_ends c Hc)) as Hser.
  assert (INR taylor_rounds = 223) as En by (rewrite INR_IZR_INZ; reflexivity).
  rewrite En in Hser. pose proof A_pos as HA.
  set (y := IZR c / (A * A)) in *. set (z := IZR (stake - ideal_stake) / IZR falloff * ln 2) in *.
  assert (0 <= z) as Hz.
  { unfold z. assert (0 < IZR falloff) by (apply IZR_lt; change (ACCURACY / 100)%Z with 10000000000000000%Z in Hf; lia).
    assert (0 <= IZR (stake - ideal_stake)) by (apply IZR_le; lia). pose proof ln_lt_2.
    apply Rmult_le_pos; [|lra]. apply Rmult_le_pos; [done|]. by apply Rlt_le, Rinv_0_lt_compat. }
  replace 67124 with (223 + 66901) by lra. apply max_0_error; [pose proof (exp_pos (- z)); nra|].
  apply (abs_combine _ _ (exp (- y))); [exact HA|exact Hser|].
  eapply Rle_trans; [by apply exp_neg_lipschitz|exact He].
Qed.

(** Below the ideal stake, in parts. *)
Lemma inflation_below rounds stake ideal_stake falloff :
  perquintill stake → perquintill ideal_stake → (stake < ideal_stake)%Z →
  let v := inflation rounds stake ideal_stake falloff in
  (0 <= v <= ACCURACY)%Z ∧ Rabs (IZR v - A * (IZR stake / IZR ideal_stake)) <= 1.
Proof.
  unfold perquintill. intros Hs Hi Hlt. cbv zeta. unfold inflation.
  rewrite (proj2 (Z.ltb_lt _ _) Hlt).
  pose proof (Z.div_mod (ACCURACY * stake) ideal_stake ltac:(lia)) as E.
  pose proof (Z.mod_pos_bound (ACCURACY * stake) ideal_stake ltac:(lia)) as Hr.
  split; [split; [apply Z.div_pos; nia|apply Z.div_le_upper_bound; nia]|].
  set (v := (ACCURACY * stake / ideal_stake)%Z) in *.
  set (r := ((ACCURACY * stake) mod ideal_stake)%Z) in *.
  assert (0 < ideal_stake)%Z as H0 by lia. apply IZR_lt in H0.
  apply (f_equal IZR) in E. rewrite plus_IZR, !mult_IZR in E. destruct Hr as [Hr1 Hr2].
  apply IZR_le in Hr1. apply IZR_lt in Hr2.
  replace (IZR v - A * (IZR stake / IZR ideal_stake)) with (- (IZR r / IZR ideal_stake)).
  - rewrite Rabs_Ropp, Rabs_pos_eq; apply ratio_bounds; lra.
  - unfold Rdiv. rewrite <- Rmult_assoc, E. field. lra.
Qed.

(** C29. The code computes the curve of its documentation: for a falloff of one
    percent or more [compute_inflation] returns, the result is a fraction of one,
    and it is within 10^-13 of [stake / ideal_stake] below the ideal stake and of
    [2 ^ ((ideal_stake - stake) / falloff)] from there on. *)
Theorem inflation_accurate stake ideal_stake falloff :
  perquintill stake → perquintill ideal_stake → perquintill falloff →
  (ACCURACY / 100 <= falloff)%Z →
  ∃ v, compute_inflation stake ideal_stake falloff = Some v ∧ perquintill v
    ∧ Rabs (IZR v / A - inflation_curve (IZR stake / A) (IZR ideal_stake / A) (IZR falloff / A))
      <= / 10 ^ 13.
Proof.
  intros Hs Hi Hf Hf1. unfold compute_inflation. rewrite inflation_refines by (auto; lia).
  eexists. split; [done|]. pose proof A_pos as HA.
  assert (/ 10 ^ 13 = 100000 / A) as ->.
  { assert (A = 1000000000000000000) as -> by reflexivity. simpl. lra. }
  assert (0 < IZR falloff) as Hfp.
  { apply IZR_lt. change (ACCURACY / 100)%Z with 10000000000000000%Z in Hf1. lia. }
  unfold inflation_curve. destruct (Z.lt_ge_cases stake ideal_stake) as [Hlt|Hge].
  - destruct (inflation_below 299 stake ideal_stake falloff Hs Hi Hlt) as [Hb He].
    split; [done|]. assert (0 < IZR ideal_stake) by (apply IZR_lt; unfold perquintill in *; lia).
    destruct (Rlt_dec _ _) as [_|Hn].
    2:{ destruct Hn. apply Rmult_lt_compat_r; [by apply Rinv_0_lt_compat|by apply IZR_lt]. }
    apply abs_scaled; [done|].
    replace (A * (_ / A)) with (IZR (inflation 299 stake ideal_stake falloff)) by (field; lra).
    replace (IZR stake / A / (IZR ideal_stake / A)) with (IZR stake / IZR ideal_stake)
      by (field; lra). lra.
  - rewrite inflation_rounds by (auto; unfold taylor_rounds; lia).
    destruct (inflation_above stake ideal_stake falloff Hs Hi Hge Hf1) as [Hb He].
    split; [done|]. destruct (Rlt_dec _ _) as [Hn|_].
    { apply Rmult_lt_reg_r in Hn; [|by apply Rinv_0_lt_compat]. apply lt_IZR in Hn. lia. }
    apply abs_scaled; [done|].
    replace (A * (_ / A)) with (IZR (inflation taylor_rounds stake ideal_stake falloff))
      by (field; lra).
    rewrite Rpower_2.
    replace (- ((IZR ideal_stake / A - IZR stake / A) / (IZR falloff / A)) * ln 2)
      with (IZR (stake - ideal_stake) / IZR falloff * ln 2)
      by (rewrite minus_IZR; field; lra). lra.
Qed.

(** Five percent above the ideal stake of 75% the inflation is halved. *)
Lemma inflation_accurate_witness :
  ∃ v, compute_inflation 800000000000000000 750000000000000000 50000000000000000 = Some v
    ∧ perquintill v
    ∧ Rabs (IZR v / A - inflation_curve (800000000000000000 / A) (750000000000000000 / A)
              (50000000000000000 / A)) <= / 10 ^ 13.
Proof.
  apply (inflation_accurate 800000000000000000 750000000000000000 50000000000000000);
    unfold perquintill, ACCURACY; [lia|lia|lia|].
  change (1000000000000000000 / 100)%Z with 10000000000000000%Z. lia.
Defined.
