(* ===== verification/EraPayout.v ===== *)
(** * What an era pays

    [era_payout] of polkadot/runtime/common/src/impls.rs, its instance in
    src/thxnet/runtime/thxnet/src/lib.rs with an inflation of ten percent a year,
    and [end_era] of pallet-staking, which pays the validators of an era and
    hands the rest to the treasury.

    Issuing the remainder is the work of pallet-balances and of the treasury:
    [end_era] returns the amount. *)

From S2P Require Import Prelude Arith Perquintill RewardFn RewardFnAccuracy.
From coqutil Require Import Datatypes.RecordSetters.
Import TriangleBracketNotations.

(** [runtime_common::impls::era_payout] *)
Definition common_era_payout (total_staked total_stakable max_annual_inflation
    period_fraction auctioned_slots : Z) : option (Z * Z) :=
  let min_annual_inflation := perquintill_from_rational N64 25 1000 in
  let delta_annual_inflation :=
    perquintill_saturating_sub max_annual_inflation min_annual_inflation in
  let auction_proportion := perquintill_from_rational N64 (Z.min auctioned_slots 60) 200 in
  let ideal_stake := perquintill_saturating_sub (from_percent_const 75) auction_proportion in
  let stake := perquintill_from_rational N128 total_staked total_stakable in
  let falloff := from_percent_const 5 in
  adjustment ← compute_inflation stake ideal_stake falloff;
  let staking_inflation :=
    perquintill_saturating_add min_annual_inflation
      (perquintill_mul delta_annual_inflation adjustment) in
  let max_payout :=
    perquintill_mul_balance (perquintill_mul period_fraction max_annual_inflation)
      total_stakable in
  let staking_payout :=
    perquintill_mul_balance (perquintill_mul period_fraction staking_inflation)
      total_stakable in
  let rest := saturating_sub max_payout staking_payout in
  Some (staking_payout, rest).

Definition LOWEST_PUBLIC_ID : Z := 2000.
Definition MAX_ANNUAL_INFLATION : Z := from_percent_const 10.
Definition MILLISECONDS_PER_YEAR : Z := 1000 * 3600 * 24 * 36525 / 100.

(** [EraPayout::era_payout] of the root chain; [parachains] is the storage item
    [paras::Parachains]. *)
Definition era_payout (parachains : list Z) (total_staked total_issuance era_duration_millis : Z)
    : option (Z * Z) :=
  let auctioned_slots := Z.of_nat (length (filter (λ i, LOWEST_PUBLIC_ID ≤ i) parachains)) in
  common_era_payout total_staked total_issuance MAX_ANNUAL_INFLATION
    (perquintill_from_rational N64 era_duration_millis MILLISECONDS_PER_YEAR) auctioned_slots.

(** The storage of pallet-staking that the end of an era reads or writes. *)
Record Staking := {
  ErasTotalStake : gmap Z Z;
  ErasValidatorReward : gmap Z Z;
  MaxStakedRewards : option Z;
  DisabledValidators : list Z
}.
Record ActiveEraInfo := { index : Z; start : option Z }.

Inductive StakingEvent := EraPaid (era_index validator_payout remainder : Z).

(** [Percent * Balance] *)
Definition percent_mul (part b : Z) : Z :=
  wrap U128_MAX (b / 100 * part + rational_mul_correction b part 100 NearestPrefDown).

(** The new storage, the event and what is issued to the treasury. *)
Definition end_era (parachains : list Z) (now_as_millis issuance : Z)
    (active_era : ActiveEraInfo) (s : Staking) : option (Staking * list StakingEvent * Z) :=
  match start active_era with
  | None => Some (s, [], 0)
  | Some active_era_start =>
      let era_duration := saturating_sub (Z.min now_as_millis U64_MAX) active_era_start in
      let staked := default 0 (ErasTotalStake s !! index active_era) in
      '(validator_payout, remainder) ← era_payout parachains staked issuance era_duration;
      let total_payout := saturating_add U128_MAX validator_payout remainder in
      let max_staked_rewards := default 100 (MaxStakedRewards s) in
      let validator_payout := Z.min validator_payout (percent_mul max_staked_rewards total_payout) in
      let remainder := saturating_sub total_payout validator_payout in
      Some (s<|ErasValidatorReward ::= <[index active_era := validator_payout]>|>
             <|DisabledValidators := []|>,
            [EraPaid (index active_era) validator_payout remainder],
            remainder)
  end.

(** ** The bounds *)

(** What an era may mint at a rate of [rate] a year. *)
Definition budget (rate era_duration issuance : Z) : Z :=
  perquintill_mul_balance
    (perquintill_mul (perquintill_from_rational N64 era_duration MILLISECONDS_PER_YEAR) rate)
    issuance.

Definition MIN_ANNUAL_INFLATION : Z := 25000000000000000.

Lemma ideal_stake_range slots :
  0 ≤ slots →
  perquintill (perquintill_saturating_sub (from_percent_const 75)
                 (perquintill_from_rational N64 (Z.min slots 60) 200)).
Proof.
  intros Hs.
  pose proof (from_rational_range N64 (Z.min slots 60) 200 ltac:(lia) ltac:(lia) ltac:(done)) as Hr.
  change (from_percent_const 75) with 750000000000000000.
  unfold perquintill, perquintill_saturating_sub, perquintill_from_parts, ACCURACY in *. ulia.
Qed.

Lemma adjustment_range stake ideal_stake :
  perquintill stake → perquintill ideal_stake →
  ∃ v, compute_inflation stake ideal_stake (from_percent_const 5) = Some v ∧ perquintill v.
Proof.
  intros Hs Hi. change (from_percent_const 5) with 50000000000000000.
  assert (perquintill 50000000000000000) as H5 by (unfold perquintill, ACCURACY; lia).
  unfold compute_inflation. rewrite inflation_refines by (auto; lia).
  eexists. split; [done|]. rewrite inflation_rounds by (auto; unfold taylor_rounds; lia).
  assert (ACCURACY / 100 ≤ 50000000000000000) as H1 by done.
  destruct (Z.lt_ge_cases stake ideal_stake) as [Hlt|Hge].
  - by apply inflation_below.
  - by apply inflation_above.
Qed.

Lemma common_era_payout_spec staked issuance period slots :
  0 ≤ staked → fits U128_MAX issuance → perquintill period → 0 ≤ slots →
  ∃ p r, common_era_payout staked issuance MAX_ANNUAL_INFLATION period slots = Some (p, r)
    ∧ 0 ≤ r
    ∧ p + r = perquintill_mul_balance (perquintill_mul period MAX_ANNUAL_INFLATION) issuance
    ∧ perquintill_mul_balance (perquintill_mul period MIN_ANNUAL_INFLATION) issuance ≤ p.
Proof.
  intros Hst Hi Hp Hsl. unfold common_era_payout.
  assert (perquintill (perquintill_from_rational N128 staked issuance)) as Hs
    by (apply from_rational_range; [lia|by apply fits_nonneg in Hi|done]).
  destruct (adjustment_range _ _ Hs (ideal_stake_range slots Hsl)) as (adj & -> & Ha).
  cbn [mbind option_bind]. change (perquintill_from_rational N64 25 1000) with MIN_ANNUAL_INFLATION.
  change MAX_ANNUAL_INFLATION with 100000000000000000.
  change (perquintill_saturating_sub 100000000000000000 MIN_ANNUAL_INFLATION)
    with 75000000000000000.
  destruct (perquintill_mul_le 75000000000000000 adj) as [Hd Hd'];
    [unfold perquintill, ACCURACY; lia|done|].
  set (d := perquintill_mul 75000000000000000 adj) in *.
  assert (perquintill_saturating_add MIN_ANNUAL_INFLATION d = MIN_ANNUAL_INFLATION + d) as ->.
  { unfold perquintill, perquintill_saturating_add, perquintill_from_parts,
      MIN_ANNUAL_INFLATION, ACCURACY in *. ulia. }
  assert (∀ v, 0 ≤ v ≤ 100000000000000000 → perquintill v) as Hr
    by (intros; unfold perquintill, ACCURACY; lia).
  unfold MIN_ANNUAL_INFLATION, perquintill in Hd |- *.
  set (lo := 25000000000000000) in *. set (hi := 100000000000000000) in *.
  assert (perquintill lo ∧ perquintill (lo + d) ∧ perquintill hi) as (H1 & H2 & H3)
    by (repeat split; apply Hr; lia).
  pose proof (perquintill_mul_mono period lo (lo + d) Hp H1 H2 ltac:(lia)).
  pose proof (perquintill_mul_mono period (lo + d) hi Hp H2 H3 ltac:(lia)).
  destruct (perquintill_mul_le period lo) as [? _], (perquintill_mul_le period (lo + d)) as [? _],
    (perquintill_mul_le period hi) as [? _]; auto.
  destruct (mul_balance_mono (perquintill_mul period lo) (perquintill_mul period (lo + d)) issuance)
    as [? _]; auto.
  destruct (mul_balance_mono (perquintill_mul period (lo + d)) (perquintill_mul period hi) issuance)
    as [? _]; auto.
  eexists _, _. split; [done|]. unfold saturating_sub. lia.
Qed.

Lemma era_payout_spec parachains staked issuance duration :
  0 ≤ staked → fits U128_MAX issuance → 0 ≤ duration →
  ∃ p r, era_payout parachains staked issuance duration = Some (p, r) ∧ 0 ≤ r
    ∧ p + r = budget MAX_ANNUAL_INFLATION duration issuance
    ∧ budget MIN_ANNUAL_INFLATION duration issuance ≤ p.
Proof.
  intros Hs Hi Hd. apply common_era_payout_spec; auto; [|lia].
  apply from_rational_range; [done|done|done].
Qed.

Lemma budget_bounds rate duration issuance :
  perquintill rate → 0 ≤ duration → fits U128_MAX issuance →
  0 ≤ budget rate duration issuance ≤ issuance.
Proof.
  intros Hr Hd Hi. unfold budget.
  assert (perquintill (perquintill_from_rational N64 duration MILLISECONDS_PER_YEAR)) as Hp
    by (apply from_rational_range; [done|done|done]).
  destruct (perquintill_mul_le _ _ Hp Hr) as [Hm _].
  destruct (mul_balance_mono _ _ issuance Hm Hm ltac:(lia) Hi). lia.
Qed.

(** A year mints at most the rate, up to one unit of rounding, however long the
    era was. *)
Lemma budget_rate rate duration issuance :
  perquintill rate → 0 ≤ duration → fits U128_MAX issuance →
  ACCURACY * budget rate duration issuance ≤ rate * issuance + ACCURACY.
Proof.
  intros Hr Hd Hi. unfold budget.
  assert (perquintill (perquintill_from_rational N64 duration MILLISECONDS_PER_YEAR)) as Hp
    by (apply from_rational_range; [done|done|done]).
  set (period := perquintill_from_rational _ _ _) in *.
  destruct (perquintill_mul_le _ _ Hp Hr) as [Hm _].
  rewrite mul_balance_nearest by done.
  assert (perquintill_mul period rate ≤ rate) as Hle.
  { rewrite perquintill_mul_floor by done. unfold perquintill in *.
    apply Z.div_le_upper_bound; [done|]. nia. }
  set (m := perquintill_mul period rate) in *. pose proof (fits_nonneg _ _ Hi).
  assert (0 < ACCURACY) by done.
  pose proof (Z.mul_div_le (2 * (m * issuance) + ACCURACY - 1) (2 * ACCURACY) ltac:(lia)). nia.
Qed.

Lemma percent_mul_all b : fits U128_MAX b → percent_mul 100 b = b.
Proof.
  intros Hb. unfold percent_mul, rational_mul_correction.
  rewrite Z.mod_mul, Z.div_mul by lia. cbn [Z.ltb]. change (100 / 2 <? 0) with false. cbv iota.
  rewrite (Z.mul_comm (b / 100)), <- Z.div_mod by lia. by apply wrap_small.
Qed.

(** C19. An era mints its budget and no more: what the validators get and what goes to
    the treasury are together ten percent of the issuance for the length of the
    era, at most ten percent of it in all, whatever is staked, however many slots
    are leased and whatever cap governance sets.  Without a cap the validators
    get at least the share of 2.5% a year. *)
Theorem era_mints_budget parachains now issuance era t s :
  start era = Some t → 0 ≤ t → 0 ≤ now → fits U128_MAX issuance →
  map_Forall (λ _ staked, 0 ≤ staked) (ErasTotalStake s) →
  let duration := saturating_sub (Z.min now U64_MAX) t in
  ∃ v r, end_era parachains now issuance era s
      = Some (s<|ErasValidatorReward ::= <[index era := v]>|><|DisabledValidators := []|>,
              [EraPaid (index era) v r], r)
    ∧ 0 ≤ v ∧ 0 ≤ r ∧ v + r = budget MAX_ANNUAL_INFLATION duration issuance
    ∧ 10 * (v + r) ≤ issuance + 10
    ∧ (MaxStakedRewards s = None → budget MIN_ANNUAL_INFLATION duration issuance ≤ v).
Proof.
  intros Hst Ht Hnow Hi Hs duration. unfold end_era. rewrite Hst. fold duration.
  assert (0 ≤ duration) as Hd by (unfold duration; ulia).
  assert (0 ≤ default 0 (ErasTotalStake s !! index era)) as Hstk.
  { destruct (ErasTotalStake s !! index era) eqn:E; simpl; [by apply (Hs _ _ E)|lia]. }
  destruct (era_payout_spec parachains _ issuance duration Hstk Hi Hd)
    as (p & r & -> & Hr & Epr & Hlo).
  cbn [mbind option_bind].
  assert (perquintill MAX_ANNUAL_INFLATION) as HM
    by (change MAX_ANNUAL_INFLATION with 100000000000000000; unfold perquintill, ACCURACY; lia).
  assert (perquintill MIN_ANNUAL_INFLATION) as Hm
    by (unfold perquintill, MIN_ANNUAL_INFLATION, ACCURACY; lia).
  pose proof (budget_bounds _ duration issuance HM Hd Hi) as HB.
  pose proof (budget_bounds _ duration issuance Hm Hd Hi) as Hb.
  pose proof (budget_rate _ duration issuance HM Hd Hi) as HR. rewrite <- Epr in *.
  change MAX_ANNUAL_INFLATION with (ACCURACY / 10) in HR.
  change (ACCURACY / 10) with 100000000000000000 in HR. unfold ACCURACY in HR.
  rewrite saturating_add_exact by (unfold fits in Hi; lia).
  set (cap := percent_mul _ (p + r)).
  assert (0 ≤ cap) by (apply Z.mod_pos_bound; done).
  eexists _, _. split; [done|]. unfold saturating_sub. split_and!; try lia.
  intros E. assert (cap = p + r) as ->; [|lia]. unfold cap. rewrite E.
  apply percent_mul_all. unfold fits in *. lia.
Qed.

(** An era of a day at an issuance of a billion tokens of ten decimals. *)
Lemma era_mints_budget_witness :
  let s := {| ErasTotalStake := {[7 := 6 * 10 ^ 18]}; ErasValidatorReward := ∅;
              MaxStakedRewards := None; DisabledValidators := [3] |} in
  let era := {| index := 7; start := Some 1700000000000 |} in
  ∃ v r, end_era [1000; 2000; 2001] 1700086400000 (10 ^ 19) era s
      = Some (s<|ErasValidatorReward ::= <[index era := v]>|><|DisabledValidators := []|>,
              [EraPaid (index era) v r], r)
    ∧ 0 ≤ v ∧ 0 ≤ r
    ∧ v + r = budget MAX_ANNUAL_INFLATION (saturating_sub 1700086400000 1700000000000) (10 ^ 19)
    ∧ 10 * (v + r) ≤ 10 ^ 19 + 10
    ∧ (MaxStakedRewards s = None →
       budget MIN_ANNUAL_INFLATION (saturating_sub 1700086400000 1700000000000) (10 ^ 19) ≤ v).
Proof.
  intros s era.
  apply (era_mints_budget [1000; 2000; 2001] 1700086400000 (10 ^ 19) era 1700000000000 s);
    [reflexivity|lia|lia|unfold fits, U128_MAX; lia|].
  apply map_Forall_singleton. lia.
Defined.
