(* ===== verification/StakingLedger.v ===== *)
(** * The ledger of a staker

    [StakingLedger] of substrate/frame/staking/src/lib.rs: what a stash has bonded,
    what of it is on its way out, and the three operations that move amounts
    between them: withdrawing chunks that are due, bonding them again, and
    slashing. *)

From S2P Require Import Prelude Arith Perquintill.

Record UnlockChunk := { value : Z; era : Z }.

Record StakingLedger := {
  stash : Z;
  total : Z;
  active : Z;
  unlocking : list UnlockChunk;
  legacy_claimed_rewards : list Z;
  controller : option Z
}.

(** [StakingLedger::new] *)
Definition new_ledger (who stake : Z) : StakingLedger :=
  {| stash := who; total := stake; active := stake; unlocking := [];
     legacy_claimed_rewards := []; controller := Some who |}.

(** The ledger with other amounts. *)
Definition with_amounts (t a : Z) (chunks : list UnlockChunk) (l : StakingLedger)
    : StakingLedger :=
  {| stash := stash l; total := t; active := a; unlocking := chunks;
     legacy_claimed_rewards := legacy_claimed_rewards l; controller := controller l |}.

(** [PerThing::mul_ceil] of a [Perquintill] *)
Definition perquintill_mul_ceil (part b : Z) : Z :=
  wrap U128_MAX (b / ACCURACY * part + rational_mul_correction b part ACCURACY Up).

(** ** Withdrawing *)

(** The closure of [consolidate_unlocked]: the total and the chunks that stay. *)
Fixpoint consolidate (current_era total : Z) (chunks : list UnlockChunk)
    : Z * list UnlockChunk :=
  match chunks with
  | [] => (total, [])
  | chunk :: chunks' =>
      if current_era <? era chunk then
        let '(t, kept) := consolidate current_era total chunks' in (t, chunk :: kept)
      else consolidate current_era (saturating_sub total (value chunk)) chunks'
  end.

Definition consolidate_unlocked (current_era : Z) (l : StakingLedger) : StakingLedger :=
  let '(t, kept) := consolidate current_era (total l) (unlocking l) in
  with_amounts t (active l) kept l.

(** ** Bonding again *)

(** The loop of [rebond], from the last chunk on; [None]: out of fuel. *)
Fixpoint rebond_loop (fuel : nat) (v unlocking_balance : Z) (l : StakingLedger)
    : option (StakingLedger * Z) :=
  match fuel with
  | O => None
  | S fuel' =>
      match last (unlocking l) with
      | None => Some (l, unlocking_balance)
      | Some chunk =>
          let '(l', balance) :=
            if saturating_add U128_MAX unlocking_balance (value chunk) <=? v then
              (with_amounts (total l) (wrap U128_MAX (active l + value chunk))
                 (removelast (unlocking l)) l,
               wrap U128_MAX (unlocking_balance + value chunk))
            else
              let diff := saturating_sub v unlocking_balance in
              (with_amounts (total l) (wrap U128_MAX (active l + diff))
                 (removelast (unlocking l)
                  ++ [{| value := wrap U128_MAX (value chunk - diff); era := era chunk |}]) l,
               wrap U128_MAX (unlocking_balance + diff)) in
          if v <=? balance then Some (l', balance) else rebond_loop fuel' v balance l'
      end
  end.

Definition rebond (fuel : nat) (v : Z) (l : StakingLedger) : option (StakingLedger * Z) :=
  rebond_loop fuel v 0 l.

(** ** Slashing *)

(** [iter().position(..)] *)
Fixpoint first_index (p : UnlockChunk → bool) (chunks : list UnlockChunk) : option nat :=
  match chunks with
  | [] => None
  | chunk :: chunks' => if p chunk then Some 0%nat else S <$> first_index p chunks'
  end.

(** The ratio of a proportional slash, and the order in which chunks are slashed. *)
Definition slash_plan (slash_amount slashable_chunks_start : Z) (l : StakingLedger)
    : option Z * list nat :=
  let n := length (unlocking l) in
  match first_index (λ c, slashable_chunks_start <=? era c) (unlocking l) with
  | Some first_slashable_index =>
      let affected_indices := seq first_slashable_index (n - first_slashable_index) in
      let unbonding_affected_balance :=
        foldl (λ sum i, match unlocking l !! i with
                        | Some chunk => saturating_add U128_MAX sum (value chunk)
                        | None => sum
                        end) 0 affected_indices in
      let affected_balance := saturating_add U128_MAX (active l) unbonding_affected_balance in
      let ratio := default ACCURACY
        (perquintill_with_rounding N128 slash_amount affected_balance Up) in
      (Some ratio, affected_indices ++ reverse (seq 0 first_slashable_index))
  | None => (None, reverse (seq 0 n))
  end.

(** The closure [slash_out_of]: what is left of the target, of the slash and of
    the total. *)
Definition slash_out_of (maybe_proportional : option Z) (minimum_balance target slash_remaining
    total : Z) : Z * Z * Z :=
  let slash_from_target :=
    Z.min (Z.min (match maybe_proportional with
                  | Some ratio => perquintill_mul_ceil ratio target
                  | None => slash_remaining
                  end) target) slash_remaining in
  let target := wrap U128_MAX (target - slash_from_target) in
  let '(target, slash_from_target) :=
    if target <? minimum_balance then (0, saturating_add U128_MAX target slash_from_target)
    else (target, slash_from_target) in
  (target, saturating_sub slash_remaining slash_from_target,
   saturating_sub total slash_from_target).

(** The loop over the chunks; the last component is [slashed_unlocking]. *)
Fixpoint slash_chunks (maybe_proportional : option Z) (minimum_balance : Z)
    (priority : list nat) (chunks : list UnlockChunk) (remaining total : Z) (slashed : gmap Z Z)
    : list UnlockChunk * Z * Z * gmap Z Z :=
  match priority with
  | [] => (chunks, remaining, total, slashed)
  | i :: priority' =>
      if remaining =? 0 then (chunks, remaining, total, slashed)
      else
        match chunks !! i with
        | None => (chunks, remaining, total, slashed)
        | Some chunk =>
            let '(v, remaining, total) :=
              slash_out_of maybe_proportional minimum_balance (value chunk) remaining total in
            slash_chunks maybe_proportional minimum_balance priority'
              (<[i := {| value := v; era := era chunk |}]> chunks) remaining total
              (<[era chunk := v]> slashed)
        end
  end.

(** [slash]: the ledger, the amount slashed, and what [EventListeners::on_slash]
    is told: the active balance left, the chunks slashed and the amount. *)
Definition slash (BondingDuration slash_amount minimum_balance slash_era : Z) (l : StakingLedger)
    : StakingLedger * Z * option (Z * gmap Z Z * Z) :=
  if slash_amount =? 0 then (l, 0, None)
  else
    let pre_slash_total := total l in
    let slashable_chunks_start := saturating_add U32_MAX slash_era BondingDuration in
    let '(maybe_proportional, priority) := slash_plan slash_amount slashable_chunks_start l in
    let '(new_active, remaining, new_total) :=
      slash_out_of maybe_proportional minimum_balance (active l) slash_amount (total l) in
    let '(chunks, _, new_total, slashed_unlocking) :=
      slash_chunks maybe_proportional minimum_balance priority (unlocking l) remaining
        new_total ∅ in
    let l' := with_amounts new_total new_active (filter (λ c, value c ≠ 0) chunks) l in
    let final_slashed_amount := saturating_sub pre_slash_total new_total in
    (l', final_slashed_amount, Some (new_active, slashed_unlocking, final_slashed_amount)).

(** ** Sums of amounts *)

(** An equation of tuples, component by component. *)
Ltac pairs := repeat match goal with |- (_, _) = (_, _) => f_equal end.

Definition chunk_sum (cs : list UnlockChunk) : Z := zsum (value <$> cs).
Arguments chunk_sum : simpl never.

(** Evaluate fields of updated records. *)
Ltac fields :=
  cbn [with_amounts total active unlocking stash controller legacy_claimed_rewards value era] in *.

(** ** Ledgers that add up *)

(** What the documentation of the field [total] says. *)
Definition ledger_ok (l : StakingLedger) : Prop :=
  0 ≤ active l ∧ Forall (λ c, 0 ≤ value c) (unlocking l)
  ∧ total l = active l + chunk_sum (unlocking l) ∧ total l ≤ U128_MAX.

Lemma values_nonneg cs : Forall (λ c, 0 ≤ value c) cs ↔ Forall (λ x, 0 ≤ x) (value <$> cs).
Proof. by rewrite Forall_fmap. Qed.

Lemma chunk_sum_nonneg cs : Forall (λ c, 0 ≤ value c) cs → 0 ≤ chunk_sum cs.
Proof. intros H. by apply zsum_Forall_nonneg, values_nonneg. Qed.

Lemma filter_nonneg (P : UnlockChunk → Prop) `{∀ c, Decision (P c)} cs :
  Forall (λ c, 0 ≤ value c) cs → Forall (λ c, 0 ≤ value c) (filter P cs).
Proof. rewrite !Forall_forall. intros Hf c [_ Hc]%list_elem_of_filter. by apply Hf. Qed.

Lemma chunk_sum_nil : chunk_sum [] = 0.
Proof. done. Qed.

Lemma chunk_sum_cons c cs : chunk_sum (c :: cs) = value c + chunk_sum cs.
Proof. done. Qed.

Lemma chunk_sum_app cs cs' : chunk_sum (cs ++ cs') = chunk_sum cs + chunk_sum cs'.
Proof. unfold chunk_sum. by rewrite fmap_app, zsum_app. Qed.

Lemma new_ledger_ok who stake : fits U128_MAX stake → ledger_ok (new_ledger who stake).
Proof.
  intros H. unfold ledger_ok, new_ledger. fields. rewrite chunk_sum_nil.
  split_and!; [ulia|done|lia|ulia].
Qed.

(** ** Withdrawing *)

Lemma consolidate_spec current t cs :
  Forall (λ c, 0 ≤ value c) cs → chunk_sum cs ≤ t →
  consolidate current t cs
  = (t - chunk_sum (filter (λ c, era c ≤ current) cs), filter (λ c, current < era c) cs).
Proof.
  intros Hf. revert t. induction Hf as [|c cs Hc Hf IH]; intros t Ht.
  { cbn. rewrite chunk_sum_nil. f_equal. lia. }
  rewrite chunk_sum_cons in Ht. pose proof (chunk_sum_nonneg cs Hf). cbn [consolidate].
  destruct (current <? era c) eqn:E; bool_facts.
  - rewrite IH by lia. rewrite !filter_cons, decide_False, decide_True by lia. done.
  - rewrite saturating_sub_exact by lia. rewrite IH by lia.
    rewrite !filter_cons, decide_True, decide_False by lia. rewrite chunk_sum_cons.
    f_equal. lia.
Qed.

Lemma chunk_sum_split current cs :
  chunk_sum cs = chunk_sum (filter (λ c, era c ≤ current) cs)
               + chunk_sum (filter (λ c, current < era c) cs).
Proof.
  induction cs as [|c cs IH]; [done|]. rewrite !filter_cons, chunk_sum_cons.
  repeat case_decide; try lia; rewrite ?chunk_sum_cons; lia.
Qed.

Lemma consolidate_unlocked_spec current l :
  ledger_ok l →
  let l' := consolidate_unlocked current l in
  ledger_ok l' ∧ active l' = active l ∧ stash l' = stash l ∧ controller l' = controller l
  ∧ unlocking l' = filter (λ c, current < era c) (unlocking l)
  ∧ total l' = total l - chunk_sum (filter (λ c, era c ≤ current) (unlocking l)).
Proof.
  intros (Ha & Hf & Ht & Hm). unfold consolidate_unlocked.
  rewrite consolidate_spec by (auto; lia).
  pose proof (chunk_sum_split current (unlocking l)).
  pose proof (chunk_sum_nonneg _ (filter_nonneg (λ c, era c ≤ current) _ Hf)).
  pose proof (filter_nonneg (λ c, current < era c) _ Hf).
  set (due := filter _ (unlocking l)) in *. set (kept := filter _ (unlocking l)) in *.
  unfold ledger_ok. fields. split_and!; try done; lia.
Qed.

(** ** Bonding again *)

Lemma removelast_last cs (c : UnlockChunk) :
  last cs = Some c → cs = removelast cs ++ [c].
Proof.
  destruct cs as [|c' cs _] using rev_ind; [done|]. rewrite last_snoc. intros [= ->].
  by rewrite removelast_last.
Qed.

Lemma rebond_loop_spec fuel v balance l :
  ledger_ok l → fits U128_MAX v → 0 ≤ balance → (length (unlocking l) < fuel)%nat →
  (balance < v ∨ balance = 0) → balance + chunk_sum (unlocking l) ≤ U128_MAX →
  ∃ l', rebond_loop fuel v balance l
        = Some (l', balance + Z.min (Z.max 0 (v - balance)) (chunk_sum (unlocking l)))
  ∧ ledger_ok l' ∧ total l' = total l ∧ stash l' = stash l ∧ controller l' = controller l
  ∧ active l' = active l + Z.min (Z.max 0 (v - balance)) (chunk_sum (unlocking l))
  ∧ (length (unlocking l') ≤ length (unlocking l))%nat.
Proof.
  revert balance l. induction fuel as [|fuel IH]; intros balance l Hok Hv Hb Hn Hlt Hfit; [lia|].
  pose proof Hok as (Ha & Hf & Ht & Hm). cbn [rebond_loop].
  destruct (last (unlocking l)) as [c|] eqn:El.
  2:{ apply last_None in El. exists l. rewrite El. rewrite chunk_sum_nil.
      split_and!; try done; try lia; do 2 f_equal; lia. }
  apply removelast_last in El. set (cs := removelast (unlocking l)) in *.
  rewrite El in Hf, Ht, Hfit, Hn |- *. apply Forall_app in Hf as [Hf [Hc _]%Forall_cons].
  rewrite chunk_sum_app in *. change (chunk_sum [c]) with (value c + 0) in *.
  pose proof (chunk_sum_nonneg cs Hf). rewrite length_app in *. cbn [length] in *.
  rewrite saturating_add_exact by lia.
  destruct (balance + value c <=? v) eqn:E; bool_facts.
  - rewrite !wrap_small by ulia.
    set (l1 := with_amounts _ _ cs l).
    assert (ledger_ok l1) as Hok1 by (unfold ledger_ok, l1; fields; split_and!; [lia|done|lia|lia]).
    destruct (v <=? balance + value c) eqn:E'; bool_facts.
    + exists l1. split_and!; try done; [do 2 f_equal; lia|unfold l1; fields; lia..].
    + destruct (IH (balance + value c) l1) as (l' & Hr & ? & ? & ? & ? & ? & ?);
        [done|done|lia|unfold l1; fields; lia|lia|unfold l1; fields; lia|].
      exists l'. unfold l1 in *. fields. split_and!; try done; [rewrite Hr; do 2 f_equal; lia|lia|lia].
  - assert (0 ≤ v - balance) by ulia. rewrite saturating_sub_exact by lia.
    rewrite (wrap_small U128_MAX (active l + (v - balance))) by ulia.
    rewrite (wrap_small U128_MAX (value c - (v - balance))) by ulia.
    rewrite (wrap_small U128_MAX (balance + (v - balance))) by ulia.
    rewrite (proj2 (Z.leb_le _ _)) by lia. eexists.
    split; [do 2 f_equal; lia|]. unfold ledger_ok. fields.
    rewrite chunk_sum_app, length_app. cbn [length].
    match goal with |- context [chunk_sum [?x]] => change (chunk_sum [x]) with (value x + 0) end.
    fields. split_and!; try done; try lia.
    apply Forall_app; split; [done|]. constructor; [fields; lia|constructor].
Qed.

(** ** Slashing *)

Lemma mul_ceil_spec part b :
  perquintill part → fits U128_MAX b →
  0 ≤ perquintill_mul_ceil part b ≤ b ∧ part * b ≤ ACCURACY * perquintill_mul_ceil part b.
Proof.
  unfold perquintill, perquintill_mul_ceil, rational_mul_correction. intros Hp Hb.
  assert (0 < ACCURACY) as HA by done.
  pose proof (Z.div_mod b ACCURACY ltac:(lia)) as Eb.
  pose proof (Z.mod_pos_bound b ACCURACY ltac:(lia)) as Hm.
  set (r := b mod ACCURACY) in *. set (q := b / ACCURACY) in *.
  assert (0 ≤ q) by (apply Z.div_pos; ulia).
  pose proof (Z.div_mod (r * part) ACCURACY ltac:(lia)) as Er.
  pose proof (Z.mod_pos_bound (r * part) ACCURACY ltac:(lia)) as Hrm.
  set (x := r * part / ACCURACY) in *. set (y := r * part mod ACCURACY) in *.
  assert (0 ≤ x) by (apply Z.div_pos; nia).
  assert (∃ c, (if 0 <? y then x + 1 else x) = c ∧ r * part ≤ ACCURACY * c ∧ 0 ≤ c ≤ r)
    as (c & -> & H1 & H2).
  { destruct (0 <? y) eqn:E; bool_facts; eexists; split_and!; try reflexivity; nia. }
  assert (q * part ≤ q * ACCURACY) by nia.
  rewrite wrap_small by (unfold fits in *; nia). split; [nia|]. rewrite Eb. nia.
Qed.

Lemma mul_ceil_one b : fits U128_MAX b → perquintill_mul_ceil ACCURACY b = b.
Proof.
  intros Hb. destruct (mul_ceil_spec ACCURACY b) as [H1 H2]; [done|done|].
  assert (0 < ACCURACY) by done. nia.
Qed.

(** The ratio of a slash is rounded up, and one when there is not enough. *)
Lemma ratio_spec amount q :
  0 < amount → 0 ≤ q →
  let ratio := default ACCURACY (perquintill_with_rounding N128 amount q Up) in
  perquintill ratio ∧ (q < amount → ratio = ACCURACY)
  ∧ (amount ≤ q → ACCURACY * amount ≤ ratio * q).
Proof.
  intros Ha Hq ratio. unfold ratio, perquintill_with_rounding. clear ratio.
  assert (0 < ACCURACY) as HA by done.
  destruct (q =? 0) eqn:E0; bool_facts; [subst; split_and!; [done|done|lia]|].
  destruct (q <? amount) eqn:E1; bool_facts; [split_and!; [done|done|lia]|].
  unfold multiply_rational, multiply_by_rational_with_rounding.
  rewrite (proj2 (Z.eqb_neq _ _)) by lia.
  pose proof (Z.div_mod (ACCURACY * amount) q ltac:(lia)) as Ed.
  pose proof (Z.mod_pos_bound (ACCURACY * amount) q ltac:(lia)) as Hm.
  set (x := ACCURACY * amount / q) in *. set (y := (ACCURACY * amount) mod q) in *.
  assert (0 ≤ x ≤ ACCURACY) by nia.
  rewrite (proj2 (Z.leb_le _ _)) by (unfold ACCURACY in *; ulia). cbn [rounds_up].
  destruct (0 <? y) eqn:E2; bool_facts.
  - assert (x < ACCURACY) by nia. unfold checked_add.
    rewrite (proj2 (Z.leb_le _ _)) by (unfold ACCURACY in *; ulia). cbn [mbind option_bind].
    rewrite (proj2 (Z.leb_le _ _)) by (unfold ACCURACY in *; ulia). cbn [default from_option id].
    unfold perquintill. split_and!; [lia|lia|lia|intros; nia].
  - cbn [mbind option_bind].
    rewrite (proj2 (Z.leb_le _ _)) by (unfold ACCURACY in *; ulia). cbn [default from_option id].
    unfold perquintill. split_and!; [lia|lia|lia|intros; nia].
Qed.

(** What the slash wants of a target. *)
Definition wanted (mp : option Z) (target : Z) : Z :=
  match mp with Some ratio => perquintill_mul_ceil ratio target | None => target end.

Definition ratio_ok (mp : option Z) : Prop :=
  match mp with Some ratio => perquintill ratio | None => True end.

Lemma wanted_range mp target :
  ratio_ok mp → fits U128_MAX target → 0 ≤ wanted mp target ≤ target.
Proof. destruct mp as [r|]; cbn; [|ulia]. intros Hr Ht. by apply mul_ceil_spec. Qed.

(** [d] is what [slash_out_of] takes. *)
Lemma slash_out_of_spec mp minimum target remaining t :
  ratio_ok mp → fits U128_MAX target → 0 < remaining → target ≤ t →
  ∃ d, slash_out_of mp minimum target remaining t
       = (target - d, Z.max 0 (remaining - d), t - d)
  ∧ 0 ≤ d ≤ target ∧ d ≤ remaining + Z.max 0 (minimum - 1)
  ∧ (d < remaining → wanted mp target ≤ d)
  ∧ (target - d = 0 ∨ minimum ≤ target - d).
Proof.
  intros Hr Hf Hrem Ht. pose proof (wanted_range mp target Hr Hf) as Hw.
  unfold slash_out_of.
  set (from := Z.min (Z.min _ target) remaining).
  assert (0 ≤ from ≤ target ∧ from ≤ remaining ∧ (from < remaining → wanted mp target ≤ from))
    as (H1 & H2 & H3).
  { unfold from. destruct mp as [r|]; cbn [wanted] in *; unfold fits in Hf; lia. }
  rewrite wrap_small by (unfold fits in *; lia).
  destruct (target - from <? minimum) eqn:E; bool_facts.
  - exists target. rewrite saturating_add_exact by (unfold fits in *; lia).
    unfold fits, saturating_sub in *.
    split_and!; [pairs; lia|lia..].
  - exists from. unfold fits, saturating_sub in *.
    split_and!; [pairs; lia|lia..].
Qed.

(** The chunks after a slash: as many, of the same eras, none larger. *)
Definition reduced (cs cs' : list UnlockChunk) : Prop :=
  Forall2 (λ c c', era c' = era c ∧ 0 ≤ value c' ≤ value c) cs cs'.

Lemma reduced_refl cs : Forall (λ c, 0 ≤ value c) cs → reduced cs cs.
Proof. induction 1; constructor; [lia|done]. Qed.

Lemma reduced_trans cs1 cs2 cs3 : reduced cs1 cs2 → reduced cs2 cs3 → reduced cs1 cs3.
Proof.
  intros H12. revert cs3. induction H12; intros cs3 H23; inversion H23; subst; constructor.
  - lia.
  - by apply IHForall2.
Qed.

Lemma reduced_insert cs i c v :
  Forall (λ c, 0 ≤ value c) cs → cs !! i = Some c → 0 ≤ v ≤ value c →
  reduced cs (<[i := {| value := v; era := era c |}]> cs).
Proof.
  intros Hf Hi Hv. rewrite <-(list_insert_id cs i c Hi) at 1.
  apply Forall2_insert; [by apply reduced_refl|]. fields. lia.
Qed.

Lemma reduced_nonneg cs cs' : reduced cs cs' → Forall (λ c, 0 ≤ value c) cs'.
Proof. induction 1; constructor; [lia|done]. Qed.

Lemma reduced_sum cs cs' : reduced cs cs' → chunk_sum cs' ≤ chunk_sum cs.
Proof. induction 1; [done|]. rewrite !chunk_sum_cons. lia. Qed.

Lemma chunk_sum_insert cs i c v :
  cs !! i = Some c →
  chunk_sum (<[i := {| value := v; era := era c |}]> cs) = chunk_sum cs - value c + v.
Proof.
  intros Hi. unfold chunk_sum. rewrite list_fmap_insert. apply zsum_insert.
  by rewrite list_lookup_fmap, Hi.
Qed.

(** What the slash wants of the chunks at some indices. *)
Definition wanted_at (mp : option Z) (cs : list UnlockChunk) (ix : list nat) : Z :=
  zsum ((λ i, wanted mp (default 0 ((value <$> cs) !! i))) <$> ix).

Lemma wanted_at_insert mp cs i c v ix :
  i ∉ ix → wanted_at mp (<[i := {| value := v; era := era c |}]> cs) ix = wanted_at mp cs ix.
Proof.
  intros Hi. unfold wanted_at. f_equal. apply list_fmap_ext. intros j k Hj.
  assert (i ≠ k) by (intros ->; apply Hi; by eapply list_elem_of_lookup_2).
  by rewrite list_fmap_insert, list_lookup_insert_ne.
Qed.

Lemma slash_chunks_spec mp minimum ix cs remaining t m :
  ratio_ok mp → Forall (λ c, 0 ≤ value c) cs → 0 ≤ remaining →
  chunk_sum cs ≤ t → t ≤ U128_MAX → NoDup ix → Forall (λ i, i < length cs)%nat ix →
  ∃ cs' m', slash_chunks mp minimum ix cs remaining t m
    = (cs', Z.max 0 (remaining - (chunk_sum cs - chunk_sum cs')),
       t - (chunk_sum cs - chunk_sum cs'), m')
  ∧ reduced cs cs'
  ∧ (remaining = 0 → cs' = cs)
  ∧ chunk_sum cs - chunk_sum cs' ≤ remaining + Z.max 0 (minimum - 1)
  ∧ (chunk_sum cs - chunk_sum cs' < remaining →
       wanted_at mp cs ix ≤ chunk_sum cs - chunk_sum cs').
Proof.
  intros Hr. revert cs remaining t m.
  induction ix as [|i ix IH]; intros cs remaining t m Hf Hrem Ht Htm Hnd Hix.
  { exists cs, m. cbn [slash_chunks]. rewrite Z.sub_diag, !Z.sub_0_r.
    split_and!; [pairs; lia|by apply reduced_refl|done|lia|by intros]. }
  cbn [slash_chunks]. destruct (remaining =? 0) eqn:E0; bool_facts.
  { exists cs, m. subst. rewrite Z.sub_diag, Z.sub_0_r.
    split_and!; [pairs; lia|by apply reduced_refl|done|lia|lia]. }
  apply NoDup_cons in Hnd as [Hi Hnd]. apply Forall_cons in Hix as [Hil Hix].
  destruct (lookup_lt_is_Some_2 cs i Hil) as [c Hc]. rewrite Hc.
  assert (value c ≤ chunk_sum cs) as Hcs.
  { apply (zsum_elem _ i); [by apply values_nonneg|]. by rewrite list_lookup_fmap, Hc. }
  pose proof (proj1 (Forall_lookup _ _) Hf i c Hc) as Hc0. cbn in Hc0.
  destruct (slash_out_of_spec mp minimum (value c) remaining t) as (d & -> & Hd & Hd1 & Hd2 & _);
    [done|unfold fits; lia|lia|lia|].
  pose proof (chunk_sum_insert cs i c (value c - d) Hc) as Es.
  pose proof (reduced_insert cs i c (value c - d) Hf Hc ltac:(lia)) as Hred.
  pose proof (wanted_at_insert mp cs i c (value c - d) ix Hi) as Ew.
  set (cs1 := <[i := _]> cs) in *.
  destruct (IH cs1 (Z.max 0 (remaining - d)) (t - d) (<[era c := value c - d]> m))
    as (cs' & m' & -> & Hred' & Hz & Hb & Hw);
    [by eapply reduced_nonneg|lia|lia|lia|done|unfold cs1; by rewrite length_insert|].
  assert (wanted_at mp cs (i :: ix) = wanted mp (value c) + wanted_at mp cs ix) as Ew'.
  { unfold wanted_at. rewrite fmap_cons. cbn [zsum foldr].
    by rewrite list_lookup_fmap, Hc. }
  pose proof (reduced_sum _ _ Hred') as Hs'.
  exists cs', m'. split_and!; [|by eapply reduced_trans|lia| |].
  - pairs; lia.
  - destruct (decide (remaining ≤ d)); [rewrite Hz in * by lia|]; lia.
  - intros Hlt. rewrite Ew'. rewrite Ew in Hw.
    destruct (decide (remaining ≤ d)); [rewrite Hz in * by lia; lia|]. lia.
Qed.

(** The balance of the chunks at some indices. *)
Definition balance_at (cs : list UnlockChunk) (ix : list nat) : Z :=
  zsum ((λ i, default 0 ((value <$> cs) !! i)) <$> ix).

Lemma value_at_nonneg cs i :
  Forall (λ c, 0 ≤ value c) cs → 0 ≤ default 0 ((value <$> cs) !! i).
Proof.
  intros Hf. rewrite list_lookup_fmap. destruct (cs !! i) as [c|] eqn:E; cbn; [|done].
  by apply (proj1 (Forall_lookup _ _) Hf i c).
Qed.

Lemma balance_at_nonneg cs ix : Forall (λ c, 0 ≤ value c) cs → 0 ≤ balance_at cs ix.
Proof.
  intros Hf. apply zsum_Forall_nonneg, Forall_fmap, Forall_forall.
  intros i _. by apply value_at_nonneg.
Qed.

Lemma balance_at_all cs ix :
  ix ≡ₚ seq 0 (length cs) → balance_at cs ix = chunk_sum cs.
Proof.
  intros Hp. unfold balance_at. rewrite (zsum_Permutation _ _ (fmap_Permutation _ _ _ Hp)).
  rewrite <-(length_fmap value), fmap_seq_lookup. done.
Qed.

Lemma wanted_at_app mp cs ix ix' :
  wanted_at mp cs (ix ++ ix') = wanted_at mp cs ix + wanted_at mp cs ix'.
Proof. unfold wanted_at. by rewrite fmap_app, zsum_app. Qed.

Lemma balance_at_app cs ix ix' :
  balance_at cs (ix ++ ix') = balance_at cs ix + balance_at cs ix'.
Proof. unfold balance_at. by rewrite fmap_app, zsum_app. Qed.

Lemma affected_fold cs ix acc :
  Forall (λ c, 0 ≤ value c) cs → 0 ≤ acc → acc + balance_at cs ix ≤ U128_MAX →
  foldl (λ sum i, match cs !! i with
                  | Some chunk => saturating_add U128_MAX sum (value chunk)
                  | None => sum
                  end) acc ix = acc + balance_at cs ix.
Proof.
  intros Hf. revert acc. induction ix as [|i ix IH]; intros acc Ha Hb; [cbn; lia|].
  cbn [foldl]. change (balance_at cs (i :: ix))
    with (default 0 ((value <$> cs) !! i) + balance_at cs ix) in *.
  pose proof (value_at_nonneg cs i Hf). pose proof (balance_at_nonneg cs ix Hf).
  rewrite list_lookup_fmap in *. destruct (cs !! i) as [c|]; cbn in *.
  - rewrite saturating_add_exact by lia. rewrite IH; lia.
  - rewrite IH; lia.
Qed.

Lemma first_index_lt p cs i : first_index p cs = Some i → (i < length cs)%nat.
Proof.
  revert i. induction cs as [|c cs IH]; intros i; cbn; [done|].
  destruct (p c); [intros [= <-]; lia|]. intros (j & Hj & ->)%fmap_Some.
  specialize (IH j Hj). lia.
Qed.

Lemma wanted_at_all mp cs ix :
  ratio_ok mp → Forall (λ c, fits U128_MAX (value c)) cs →
  0 ≤ wanted_at mp cs ix
  ∧ (mp = None ∨ mp = Some ACCURACY → wanted_at mp cs ix = balance_at cs ix)
  ∧ (∀ r, mp = Some r → r * balance_at cs ix ≤ ACCURACY * wanted_at mp cs ix).
Proof.
  intros Hr Hf. induction ix as [|i ix (IH1 & IH2 & IH3)]; [cbn; split_and!; intros; lia|].
  change (wanted_at mp cs (i :: ix))
    with (wanted mp (default 0 ((value <$> cs) !! i)) + wanted_at mp cs ix).
  change (balance_at cs (i :: ix))
    with (default 0 ((value <$> cs) !! i) + balance_at cs ix).
  assert (fits U128_MAX (default 0 ((value <$> cs) !! i))) as Hv.
  { rewrite list_lookup_fmap. destruct (cs !! i) as [c|] eqn:E; cbn; [|done].
    by apply (proj1 (Forall_lookup _ _) Hf i c). }
  set (v := default 0 _) in *. pose proof (wanted_range mp v Hr Hv). split_and!.
  - lia.
  - intros Hm. rewrite IH2 by done. f_equal.
    destruct Hm as [-> | ->]; [done|]. by apply mul_ceil_one.
  - intros r ->. specialize (IH3 r eq_refl). cbn [wanted].
    destruct (mul_ceil_spec r v) as [_ ?]; [done|done|]. nia.
Qed.

(** The plan covers every chunk once, and asks for enough. *)
Lemma slash_plan_spec amount start l mp ix :
  ledger_ok l → 0 < amount → slash_plan amount start l = (mp, ix) →
  ratio_ok mp ∧ ix ≡ₚ seq 0 (length (unlocking l))
  ∧ Z.min amount (total l) ≤ wanted mp (active l) + wanted_at mp (unlocking l) ix.
Proof.
  intros (Ha & Hf & Ht & Hm) Hamt. pose proof (chunk_sum_nonneg _ Hf) as Hs.
  assert (Forall (λ c, fits U128_MAX (value c)) (unlocking l)) as Hfit.
  { apply Forall_lookup. intros i c Hc. pose proof (proj1 (Forall_lookup _ _) Hf i c Hc) as H0.
    cbn in H0. assert (value c ≤ chunk_sum (unlocking l)); [|unfold fits; lia].
    apply (zsum_elem _ i); [by apply values_nonneg|]. by rewrite list_lookup_fmap, Hc. }
  unfold slash_plan. destruct (first_index _ (unlocking l)) as [i|] eqn:Ei.
  - apply first_index_lt in Ei. set (n := length (unlocking l)) in *.
    set (aff := seq i (n - i)). set (others := reverse (seq 0 i)).
    assert (aff ++ others ≡ₚ seq 0 n) as Hp.
    { unfold others, aff. rewrite reverse_Permutation, Permutation_app_comm.
      replace n with (i + (n - i))%nat at 2 by lia. by rewrite seq_app. }
    pose proof (balance_at_all _ _ Hp) as Eb. rewrite balance_at_app in Eb.
    pose proof (balance_at_nonneg (unlocking l) aff Hf).
    pose proof (balance_at_nonneg (unlocking l) others Hf).
    rewrite affected_fold by (auto; lia). rewrite saturating_add_exact by lia.
    rewrite Z.add_0_l. intros [= <- <-].
    destruct (ratio_spec amount (active l + balance_at (unlocking l) aff)) as (Hr & H1 & H2);
      [done|lia|]. set (r := default ACCURACY _) in *.
    split; [done|]. split; [done|]. rewrite wanted_at_app. cbn [wanted].
    destruct (wanted_at_all (Some r) (unlocking l) aff Hr Hfit) as (Wa & Wa1 & Wa2).
    destruct (wanted_at_all (Some r) (unlocking l) others Hr Hfit) as (Wo & Wo1 & _).
    destruct (mul_ceil_spec r (active l)) as [Hc1 Hc2]; [done|unfold fits; lia|].
    destruct (Z.lt_ge_cases (active l + balance_at (unlocking l) aff) amount) as [Hlt|Hge].
    + rewrite (H1 Hlt) in *. rewrite Wa1, Wo1 by auto.
      rewrite mul_ceil_one by (unfold fits; lia). lia.
    + specialize (H2 Hge). specialize (Wa2 r eq_refl).
      assert (0 < ACCURACY) by done. nia.
  - intros [= <- <-]. split; [done|].
    assert (reverse (seq 0 (length (unlocking l))) ≡ₚ seq 0 (length (unlocking l))) as Hp
      by apply reverse_Permutation.
    split; [done|]. cbn [wanted].
    destruct (wanted_at_all None (unlocking l) (reverse (seq 0 (length (unlocking l)))) I Hfit)
      as (_ & E & _). rewrite E by (by left). rewrite (balance_at_all _ _ Hp). lia.
Qed.

Lemma filter_nonzero_sum cs : chunk_sum (filter (λ c, value c ≠ 0) cs) = chunk_sum cs.
Proof.
  induction cs as [|c cs IH]; [done|]. rewrite filter_cons.
  case_decide; rewrite ?chunk_sum_cons, IH; [done|]. lia.
Qed.

(** A slash takes the amount, or all there is, and less than the minimum balance
    more; the ledger still adds up, and what stays active is no dust. *)
Lemma slash_spec duration amount minimum slash_era l :
  ledger_ok l → 0 < amount →
  let '(l', slashed, _) := slash duration amount minimum slash_era l in
  ledger_ok l' ∧ total l' = total l - slashed
  ∧ stash l' = stash l ∧ controller l' = controller l
  ∧ Z.min amount (total l) ≤ slashed ≤ total l
  ∧ slashed ≤ amount + Z.max 0 (minimum - 1)
  ∧ (∃ cs, reduced (unlocking l) cs ∧ unlocking l' = filter (λ c, value c ≠ 0) cs)
  ∧ active l' ≤ active l ∧ (active l' = 0 ∨ minimum ≤ active l').
Proof.
  intros Hok Hamt. pose proof Hok as (Ha & Hf & Ht & Hm).
  pose proof (chunk_sum_nonneg _ Hf) as Hs. unfold slash.
  rewrite (proj2 (Z.eqb_neq amount 0)) by lia.
  destruct (slash_plan amount _ l) as [mp ix] eqn:Ep.
  destruct (slash_plan_spec _ _ _ _ _ Hok Hamt Ep) as (Hr & Hp & Hw).
  destruct (slash_out_of_spec mp minimum (active l) amount (total l))
    as (d & -> & Hd & Hd1 & Hd2 & Hd3); [done|unfold fits; lia|done|lia|].
  destruct (slash_chunks_spec mp minimum ix (unlocking l) (Z.max 0 (amount - d)) (total l - d) ∅)
    as (cs & m & -> & Hred & Hz & Hb & Hc);
    [done|done|lia|lia|lia|rewrite Hp; apply NoDup_seq| |].
  { rewrite Hp. apply Forall_forall. intros i Hi%elem_of_seq. lia. }
  pose proof (reduced_sum _ _ Hred) as Hle.
  pose proof (chunk_sum_nonneg _ (reduced_nonneg _ _ Hred)) as Hcs.
  rewrite saturating_sub_exact by lia. unfold ledger_ok. fields. rewrite filter_nonzero_sum.
  assert (amount ≤ d → chunk_sum cs = chunk_sum (unlocking l)) as Hz'
    by (intros; by rewrite Hz by lia).
  split_and!; try done; try lia.
  - by eapply filter_nonneg, reduced_nonneg.
  - by exists cs.
Qed.

(** ** The operations on a ledger that adds up *)

(** Withdrawing releases exactly the chunks whose era has come.  Bonding again ends
    within one round per chunk and moves what was asked for, or all that is
    unlocking, from the chunks to the active stake.  Both leave a ledger that adds
    up, and bonding again leaves its total. *)
Theorem ledger_moves current v l :
  ledger_ok l → fits U128_MAX v →
  let w := consolidate_unlocked current l in
  ledger_ok w ∧ active w = active l ∧ unlocking w = filter (λ c, current < era c) (unlocking l)
  ∧ ∃ l' r, rebond (S (length (unlocking l))) v l = Some (l', r)
    ∧ r = Z.min v (chunk_sum (unlocking l)) ∧ ledger_ok l' ∧ total l' = total l
    ∧ active l' = active l + r ∧ (length (unlocking l') ≤ length (unlocking l))%nat.
Proof.
  intros Hok Hv w. destruct (consolidate_unlocked_spec current l Hok) as (H1 & H2 & _ & _ & H3 & _).
  split_and!; try done. pose proof Hok as (A1 & A2 & A3 & A4).
  destruct (rebond_loop_spec (S (length (unlocking l))) v 0 l)
    as (l' & Er & Hl' & Et & _ & _ & Ea & Hn); [done|done|lia|lia|by right|lia|].
  exists l', (Z.min v (chunk_sum (unlocking l))). unfold rebond. rewrite Er.
  pose proof (fits_nonneg _ _ Hv). replace (Z.max 0 (v - 0)) with v in * by lia. by split_and!.
Qed.


Lemma ledger_example :
  ledger_ok {| stash := 1; total := 170; active := 100;
    unlocking := [{| value := 40; era := 5 |}; {| value := 30; era := 9 |}];
    legacy_claimed_rewards := []; controller := None |}.
Proof.
  split_and!; [done| |done|done].
  repeat (apply Forall_cons; split; [done|]). apply Forall_nil_2.
Qed.

Lemma ledger_moves_witness :
  ∃ l', rebond 3 50 {| stash := 1; total := 170; active := 100;
    unlocking := [{| value := 40; era := 5 |}; {| value := 30; era := 9 |}];
    legacy_claimed_rewards := []; controller := None |} = Some (l', 50) ∧ active l' = 150.
Proof.
  destruct (ledger_moves 5 50 _ ledger_example) as (_ & _ & _ & l' & r & E & -> & _ & _ & Ea & _).
  - done.
  - exists l'. split; [exact E|exact Ea].
Defined.

