(* ===== verification/Errors.v ===== *)
(** * Error values

    The [Error] enum of every modelled pallet, each in a module of its own, and
    the [DispatchError] they are turned into. *)

From S2P Require Import Prelude.

(** [Error] of thxnet/leafchain/pallets/crowdfunding/src/lib.rs. *)
Module CrowdfundingErrors.
Inductive CrowdfundingError :=
| CampaignNotFound
| NotCampaignCreator
| InvalidCampaignStatus
| CampaignStillFunding
| DeadlinePassed
| DeadlineInPast
| DurationTooShort
| DurationTooLong
| GoalNotMet
| HardCapExceeded
| InvestmentBelowMinimum
| InvestmentExceedsMaxPerInvestor
| InsufficientInvestment
| NoInvestmentFound
| NothingToRefund
| AlreadyClaimed
| EligibilityCheckFailed
| InvalidMilestoneIndex
| InvalidMilestoneStatus
| MilestoneBpsSumInvalid
| MaxCampaignsPerCreatorReached
| MaxInvestmentsPerInvestorReached
| InsufficientBalance
| InvalidFundingModel
| NothingToClaim
| CampaignNotFunding
| CampaignNotPaused
| NotCampaignCreatorOrAdmin
| CampaignIdOverflow
| InvalidPenaltyBps
| InvalidFeeBps
| LicenseNotActive
| CampaignLicenseRevoked
| NoLinkedLicense
| WhitelistFull
| CampaignExceedsLicenseExpiry.

#[global] Instance CrowdfundingError_eq_dec : EqDecision CrowdfundingError.
Proof. solve_decision. Defined.
End CrowdfundingErrors.

(** [Error] of thxnet/leafchain/pallets/rwa/src/lib.rs. *)
Module RwaErrors.
Inductive RwaError :=
| AssetNotFound
| NotAssetOwner
| InvalidAssetStatus
| AssetAlreadyRetired
| ExpiryBlockInPast
| ExpiryNotReached
| SunsettingSlotsFull
| MaxAssetsPerOwnerReached
| MetadataTooLong
| ParticipationNotFound
| NotPayer
| NotHolder
| InvalidParticipationStatus
| ParticipationExpiredError
| MaxParticipantsReached
| HolderAlreadyExists
| HolderNotFound
| MaxGroupSizeReached
| AlreadyParticipating
| MaxParticipationsPerHolderReached
| SlashSharesSumInvalid
| AssetNotActive
| PendingApprovalsFull
| PolicyFieldImmutable
| MaxParticipantsBelowCurrent
| EmptyHoldersList
| SlashAmountExceedsDeposit
| TransferToSelf
| NoPendingTransfer
| NotPendingOwner
| ParticipantNotEligible
| AssetIdOverflow
| ParticipationIdOverflow
| DepositBelowMinimum
| BlockedByLifecycleGuard.

#[global] Instance RwaError_eq_dec : EqDecision RwaError.
Proof. solve_decision. Defined.
End RwaErrors.

(** [Error] of thxnet/leafchain/pallets/trustless-agent/src/lib.rs. *)
Module TrustlessAgentErrors.
Inductive TrustlessAgentError :=
| AgentNotFound
| NotAgentOwner
| TooManyAgents
| TooManyMetadataEntries
| UriTooLong
| MetadataKeyTooLong
| MetadataValueTooLong
| FeedbackNotFound
| NotFeedbackClient
| FeedbackAlreadyRevoked
| InvalidScore
| TooManyTags
| TagTooLong
| TooManyFeedbacks
| TooManyResponses
| InvalidSignature
| AuthorizationNotFound
| AuthorizationExpired
| AuthorizationRevoked
| AuthorizationIndexLimitExceeded
| NoValidAuthorization
| FeedbackRateLimitExceeded
| AuthorizationAlreadyExists
| ValidatorAlreadyRegistered
| ValidatorNotFound
| InsufficientStake
| ValidationRequestNotFound
| NotRequester
| ValidatorNotActive
| ValidationAlreadySubmitted
| TooManyValidationRequests
| EscrowNotFound
| NotEscrowClient
| EscrowNotTimedOut
| EscrowAlreadyClosed
| InvalidEscrowSignature
| EscrowNotAutoCompleted
| EscrowDisputed
| CannotDisputeEscrow
| EscrowDisputeAlreadyResolved
| DisputeNotFound
| NotDisputeResolver
| DisputeAlreadyResolved
| TooManyDisputes
| CannotDisputeRevokedFeedback
| ValidationRequestCompleted
| ValidationDeadlinePassed
| ValidationDeadlineNotPassed
| ValidatorNotWhitelisted
| ValidatorAlreadyWhitelisted
| Overflow.

#[global] Instance TrustlessAgentError_eq_dec : EqDecision TrustlessAgentError.
Proof. solve_decision. Defined.
End TrustlessAgentErrors.

(** [Error] of thxnet/pallets/dao/src/lib.rs. *)
Module DaoErrors.
Inductive DaoError :=
| InsufficientBalance
| DuplicatedOption
| UnknownTopic
| TitleTooShort
| TitleTooLong
| InvalidTitle
| DescriptionTooLong
| InvalidDescription
| OptionTooLong
| OptionTooFew
| OptionTooMany
| InvalidOption
| InvalidVotingPeriodStart
| InvalidVotingPeriodEnd
| InvalidAnswerNumber
| InvalidWeightRatio
| VoterHasVoted
| VoterHasNoVotingRight
| VoteNotOpen
| VoteClosed
| DuplicatedVoting
| VotingRightTokenIssued.

#[global] Instance DaoError_eq_dec : EqDecision DaoError.
Proof. solve_decision. Defined.
End DaoErrors.

(** [Error] of thxnet/pallets/finality-rescue/src/lib.rs. *)
Module FinalityRescueErrors.
Inductive FinalityRescueError :=
| CooldownNotElapsed
| NoAuthorities
| ScheduleChangeFailed.

#[global] Instance FinalityRescueError_eq_dec : EqDecision FinalityRescueError.
Proof. solve_decision. Defined.
End FinalityRescueErrors.

(** [Error] of substrate/frame/grandpa/src/lib.rs. *)
Module GrandpaErrors.
Inductive GrandpaError :=
| PauseFailed
| ResumeFailed
| ChangePending
| TooSoon
| InvalidKeyOwnershipProof
| InvalidEquivocationProof
| DuplicateOffenceReport.

#[global] Instance GrandpaError_eq_dec : EqDecision GrandpaError.
Proof. solve_decision. Defined.
End GrandpaErrors.

(** [Error] of polkadot/runtime/parachains/src/configuration.rs. *)
Module ConfigurationErrors.
Inductive ConfigurationError :=
| InvalidNewValue.

#[global] Instance ConfigurationError_eq_dec : EqDecision ConfigurationError.
Proof. solve_decision. Defined.
End ConfigurationErrors.

(** [Error] of substrate/frame/balances/src/lib.rs. *)
Module BalancesErrors.
Inductive BalancesError :=
| VestingBalance
| LiquidityRestrictions
| InsufficientBalance
| ExistentialDeposit
| Expendability
| ExistingVestingSchedule
| DeadAccount
| TooManyReserves
| TooManyHolds
| TooManyFreezes
| IssuanceDeactivated
| DeltaZero.

#[global] Instance BalancesError_eq_dec : EqDecision BalancesError.
Proof. solve_decision. Defined.
End BalancesErrors.

(** [Error] of substrate/frame/assets/src/lib.rs. *)
Module AssetsErrors.
Inductive AssetsError :=
| BalanceLow
| NoAccount
| NoPermission
| Unknown
| Frozen
| InUse
| BadWitness
| MinBalanceZero
| UnavailableConsumer
| BadMetadata
| Unapproved
| WouldDie
| AlreadyExists
| NoDeposit
| WouldBurn
| LiveAsset
| AssetNotLive
| IncorrectStatus
| NotFrozen
| CallbackFailed.

#[global] Instance AssetsError_eq_dec : EqDecision AssetsError.
Proof. solve_decision. Defined.
End AssetsErrors.

(** [Error] of substrate/frame/session/src/lib.rs. *)
Module SessionErrors.
Inductive SessionError :=
| InvalidProof
| NoAssociatedValidatorId
| DuplicatedKey
| NoKeys
| NoAccount.

#[global] Instance SessionError_eq_dec : EqDecision SessionError.
Proof. solve_decision. Defined.
End SessionErrors.

(** [Error] of substrate/frame/staking/src/pallet/mod.rs. *)
Module StakingErrors.
Inductive StakingError :=
| NotController
| NotStash
| AlreadyBonded
| AlreadyPaired
| EmptyTargets
| DuplicateIndex
| InvalidSlashIndex
| InsufficientBond
| NoMoreChunks
| NoUnlockChunk
| FundedTarget
| InvalidEraToReward
| InvalidNumberOfNominations
| NotSortedAndUnique
| AlreadyClaimed
| InvalidPage
| IncorrectHistoryDepth
| IncorrectSlashingSpans
| BadState
| TooManyTargets
| BadTarget
| CannotChillOther
| TooManyNominators
| TooManyValidators
| CommissionTooLow
| BoundNotMet
| ControllerDeprecated
| CannotRestoreLedger
| RewardDestinationRestricted
| NotEnoughFunds
| VirtualStakerNotAllowed.

#[global] Instance StakingError_eq_dec : EqDecision StakingError.
Proof. solve_decision. Defined.
End StakingErrors.

(** [sp_runtime::TokenError] *)
Inductive TokenError :=
| FundsUnavailable
| OnlyProvider
| BelowMinimum
| CannotCreate
| UnknownAsset
| TokenFrozen
| Unsupported
| CannotCreateHold
| NotExpendable
| Blocked.

#[global] Instance TokenError_eq_dec : EqDecision TokenError.
Proof. solve_decision. Defined.

(** [sp_arithmetic::ArithmeticError] *)
Inductive ArithmeticError := Underflow | Overflow | DivisionByZero.

#[global] Instance ArithmeticError_eq_dec : EqDecision ArithmeticError.
Proof. solve_decision. Defined.

(** [sp_runtime::ModuleError]: the error of one pallet, tagged with it. *)
Inductive ModuleError :=
| InCrowdfunding (e : CrowdfundingErrors.CrowdfundingError)
| InRwa (e : RwaErrors.RwaError)
| InTrustlessAgent (e : TrustlessAgentErrors.TrustlessAgentError)
| InDao (e : DaoErrors.DaoError)
| InFinalityRescue (e : FinalityRescueErrors.FinalityRescueError)
| InGrandpa (e : GrandpaErrors.GrandpaError)
| InConfiguration (e : ConfigurationErrors.ConfigurationError)
| InSession (e : SessionErrors.SessionError)
| InStaking (e : StakingErrors.StakingError)
| InBalances (e : BalancesErrors.BalancesError)
| InAssets (e : AssetsErrors.AssetsError).

#[global] Instance ModuleError_eq_dec : EqDecision ModuleError.
Proof. solve_decision. Defined.

(** [sp_runtime::DispatchError], the variants the modelled code produces. *)
Inductive DispatchError :=
| Other (msg : string)
| CannotLookup
| BadOrigin
| Module_ (e : ModuleError)
| ConsumerRemaining
| NoProviders
| TooManyConsumers
| Token (e : TokenError)
| Arithmetic (e : ArithmeticError)
| Exhausted
| Corruption
| Unavailable
| RootNotAllowed.

#[global] Instance DispatchError_eq_dec : EqDecision DispatchError.
Proof. solve_decision. Defined.
