(* ===== verification/Frame.v ===== *)
(** * What the pallets require of the rest of the runtime

    The types of the runtime, the accounts derived from a [PalletId], the
    origins of a call, and the interfaces through which a pallet reaches
    frame_system, its native currency and its fungible assets.  Each interface
    is a class of operations together with a class of laws; the pallets are
    proved against the laws, and Balances.v and Assets.v discharge them. *)

From S2P Require Import Prelude Arith Errors.

(** ** Types of the runtime *)

(** [AccountId32], the 32 bytes read as a big-endian integer, so that the
    order on accounts is the order on their bytes. *)
Abbreviation AccountId := Z (only parsing).

(** [u128] *)
Abbreviation Balance := Z (only parsing).

(** [u32] *)
Abbreviation BlockNumber := Z (only parsing).

(** [Encode] of a [u32]: four bytes, least significant first. *)
Definition u32_le_bytes (x : Z) : list Z :=
  [x mod 256; x / 256 mod 256; x / 65536 mod 256; x / 16777216 mod 256].

Definition be_value (bytes : list Z) : Z :=
  fold_left (λ acc b, 256 * acc + b) bytes 0.

(** [TrailingZeroInput]: the 32 bytes of an account, zeroes after the input. *)
Definition account_of_bytes (bytes : list Z) : AccountId :=
  be_value (take 32 (bytes ++ replicate 32 0)).

(** [b"modl"], the [TYPE_ID] of a [PalletId]. *)
Definition PALLET_ID_TYPE_ID : list Z := [109; 111; 100; 108].

(** [PalletId::into_sub_account_truncating] with a [u32]. *)
Definition into_sub_account_truncating (pallet_id : list Z) (sub : Z) : AccountId :=
  account_of_bytes (PALLET_ID_TYPE_ID ++ pallet_id ++ u32_le_bytes sub).

(** [PalletId::into_account_truncating] *)
Definition into_account_truncating (pallet_id : list Z) : AccountId :=
  account_of_bytes (PALLET_ID_TYPE_ID ++ pallet_id).

Lemma be_value_snoc l b : be_value (l ++ [b]) = 256 * be_value l + b.
Proof. unfold be_value. by rewrite fold_left_app. Qed.

(** Byte strings of one length are determined by their value. *)
Lemma be_value_inj l1 l2 :
  length l1 = length l2 → Forall (fits U8_MAX) l1 → Forall (fits U8_MAX) l2 →
  be_value l1 = be_value l2 → l1 = l2.
Proof.
  revert l2. induction l1 as [|b l1 IH] using rev_ind; intros l2 Hlen H1 H2 Heq.
  - by destruct l2.
  - destruct l2 as [|b' l2 _] using rev_ind; [rewrite length_app in Hlen; simpl in *; lia|].
    rewrite !length_app in Hlen. simpl in Hlen. rewrite !be_value_snoc in Heq.
    apply Forall_app in H1 as [? [Hb _]%Forall_cons].
    apply Forall_app in H2 as [? [Hb' _]%Forall_cons].
    unfold fits, U8_MAX in Hb, Hb'.
    f_equal; [apply IH; auto; lia|f_equal; lia].
Qed.

Lemma u32_le_bytes_fits x : Forall (fits U8_MAX) (u32_le_bytes x).
Proof.
  unfold u32_le_bytes, fits, U8_MAX.
  repeat constructor; Z.to_euclidean_division_equations; lia.
Qed.

Lemma u32_le_bytes_inj x y :
  fits U32_MAX x → fits U32_MAX y → u32_le_bytes x = u32_le_bytes y → x = y.
Proof.
  unfold u32_le_bytes, fits, U32_MAX. intros Hx Hy [= H1 H2 H3 H4].
  Z.to_euclidean_division_equations. lia.
Qed.

Lemma account_of_bytes_inj l1 l2 :
  length l1 = length l2 → (length l1 ≤ 32)%nat →
  Forall (fits U8_MAX) l1 → Forall (fits U8_MAX) l2 →
  account_of_bytes l1 = account_of_bytes l2 → l1 = l2.
Proof.
  intros Hlen H32 H1 H2 Heq. unfold account_of_bytes in Heq.
  assert (Hz : Forall (fits U8_MAX) (replicate 32 0)) by (apply Forall_replicate; ulia).
  apply be_value_inj in Heq.
  - rewrite !take_app_ge in Heq by lia. rewrite Hlen in Heq.
    by apply app_inj_2 in Heq as [? _].
  - rewrite !length_take, !length_app, length_replicate. lia.
  - by apply Forall_take, Forall_app.
  - by apply Forall_take, Forall_app.
Qed.

(** Sub-accounts are determined by the pallet and the number. *)
Lemma into_sub_account_inj pid1 pid2 i j :
  length pid1 = 8%nat → length pid2 = 8%nat →
  Forall (fits U8_MAX) pid1 → Forall (fits U8_MAX) pid2 →
  fits U32_MAX i → fits U32_MAX j →
  into_sub_account_truncating pid1 i = into_sub_account_truncating pid2 j →
  pid1 = pid2 ∧ i = j.
Proof.
  intros Hl1 Hl2 Hp1 Hp2 Hi Hj Heq. apply account_of_bytes_inj in Heq.
  - apply app_inj_1 in Heq as [_ Heq]; [|done].
    apply app_inj_1 in Heq as [-> Heq]; [|congruence].
    split; [done|]. by apply u32_le_bytes_inj.
  - rewrite !length_app, Hl1, Hl2. done.
  - rewrite !length_app, Hl1. simpl. lia.
  - repeat apply Forall_app_2; auto using u32_le_bytes_fits.
    repeat constructor; ulia.
  - repeat apply Forall_app_2; auto using u32_le_bytes_fits.
    repeat constructor; ulia.
Qed.

(** ** Origins *)

Inductive Origin :=
| Root
| Signed (who : AccountId)
| NoOrigin.

#[global] Instance Origin_eq_dec : EqDecision Origin.
Proof. solve_decision. Defined.

Section origin.
Context {S : Type}.

(** [ensure_signed(origin)?] *)
Definition ensure_signed (o : Origin) : M DispatchError S AccountId :=
  match o with Signed who => mret who | _ => fail BadOrigin end.

(** [T::SomeOrigin::ensure_origin(origin)?] for a configured origin. *)
Definition ensure_origin (allowed : Origin → bool) (o : Origin) : M DispatchError S unit :=
  ensure (allowed o) BadOrigin.

Lemma ensure_signed_ok o who (s s' : S) :
  ensure_signed o s = Ok (who, s') ↔ o = Signed who ∧ s' = s.
Proof. destruct o; simpl; [rewrite fail_ok|rewrite ret_ok|rewrite fail_ok]; naive_solver. Qed.

Lemma ensure_origin_ok f o u (s s' : S) :
  ensure_origin f o s = Ok (u, s') ↔ f o = true ∧ s' = s.
Proof. apply ensure_ok. Qed.
End origin.

(** [EnsureRoot] *)
Definition EnsureRoot (o : Origin) : bool :=
  match o with Root => true | _ => false end.

(** ** frame_system *)

Class System (W : Type) := {
  block_number : W → BlockNumber;
}.

(** ** Currencies *)

Inductive ExistenceRequirement := KeepAlive | AllowDeath.

Inductive Preservation := Expendable | Protect | Preserve.

#[global] Instance ExistenceRequirement_eq_dec : EqDecision ExistenceRequirement.
Proof. solve_decision. Defined.
#[global] Instance Preservation_eq_dec : EqDecision Preservation.
Proof. solve_decision. Defined.

(** A call into a pallet of the surroundings. *)
Definition Call_ (W A : Type) : Type := W → result DispatchError (A * W).

(** [frame_support::traits::Currency], the part the pallets use. *)
Class Currency (W : Type) := {
  minimum_balance : Balance;
  free_balance : AccountId → W → Balance;
  transfer : AccountId → AccountId → Balance → ExistenceRequirement → Call_ W unit;
  withdraw : AccountId → Balance → ExistenceRequirement → Call_ W unit;
}.

(** [BalanceStatus] *)
Inductive BalanceStatus := FreeStatus | ReservedStatus.

(** [ReservableCurrency]; [unreserve] cannot fail and returns what was not
    unreserved. *)
Class ReservableCurrency (W : Type) := {
  reserved_balance : AccountId → W → Balance;
  reserve : AccountId → Balance → Call_ W unit;
  unreserve : AccountId → Balance → W → Balance * W;
  repatriate_reserved :
    AccountId → AccountId → Balance → BalanceStatus → Call_ W Balance;
}.

(** [fungibles::Inspect] and [fungibles::Mutate], the part the pallets use. *)
Class Fungibles (W : Type) := {
  asset_minimum_balance : Z → W → Balance;
  asset_balance : Z → AccountId → W → Balance;
  asset_transfer : Z → AccountId → AccountId → Balance → Preservation → Call_ W Balance;
  asset_burn_from : Z → AccountId → Balance → Call_ W Balance;
}.

(** What a transfer of [v] between two different accounts does to a table of
    balances: the receiver gets exactly [v]; the sender loses [v], and what is
    left when it is below the minimum [ed] unless the sender is kept alive. *)
Record moved (bal bal' : AccountId → Z) (ed : Z) (from to : AccountId) (v : Z)
    (keep : bool) : Prop := {
  moved_enough : v ≤ bal from;
  moved_to : bal' to = bal to + v;
  moved_from :
    bal' from = bal from - v ∨
    (keep = false ∧ bal from - v < ed ∧ bal' from = 0);
  moved_kept : keep = true → ed ≤ bal' from;
  moved_other : ∀ x, x ≠ from → x ≠ to → bal' x = bal x;
}.

(** The same for tokens that leave the account and go nowhere. *)
Record burnt (bal bal' : AccountId → Z) (ed : Z) (who : AccountId) (v : Z) : Prop := {
  burnt_enough : v ≤ bal who;
  burnt_from : bal' who = bal who - v ∨ (bal who - v < ed ∧ bal' who = 0);
  burnt_other : ∀ x, x ≠ who → bal' x = bal x;
}.

(** The laws of the three interfaces.  [world_wf k] is the invariant the
    providers keep, with room for [k] more asset-accounts in their counters; it
    is threaded through every law. *)
Class WorldLaws (W : Type) `{System W, Currency W, Fungibles W} := {
  world_wf : nat → W → Prop;
  world_wf_less k w : world_wf (S k) w → world_wf k w;
  minimum_balance_pos : 0 < minimum_balance;
  free_balance_fits k w x : world_wf k w → fits U128_MAX (free_balance x w);
  asset_balance_fits k w a x : world_wf k w → fits U128_MAX (asset_balance a x w);

  transfer_noop from to v r w w' :
    transfer from to v r w = Ok (tt, w') → (v = 0 ∨ from = to) → w' = w;
  transfer_moved k from to v r w w' :
    world_wf k w → 0 < v → from ≠ to → transfer from to v r w = Ok (tt, w') →
    world_wf k w' ∧
    moved (λ x, free_balance x w) (λ x, free_balance x w') minimum_balance
      from to v (bool_decide (r = KeepAlive)) ∧
    (∀ a x, asset_balance a x w' = asset_balance a x w) ∧
    (∀ a, asset_minimum_balance a w' = asset_minimum_balance a w) ∧
    block_number w' = block_number w;

  withdraw_burnt k who v r w w' :
    world_wf k w → 0 < v → withdraw who v r w = Ok (tt, w') →
    world_wf k w' ∧
    burnt (λ x, free_balance x w) (λ x, free_balance x w') minimum_balance who v ∧
    (r = KeepAlive → free_balance who w' = free_balance who w - v) ∧
    (∀ a x, asset_balance a x w' = asset_balance a x w) ∧
    (∀ a, asset_minimum_balance a w' = asset_minimum_balance a w) ∧
    block_number w' = block_number w;

  asset_transfer_noop a from to v p w w' b :
    asset_transfer a from to v p w = Ok (b, w') → from = to → w' = w;
  asset_transfer_moved k a from to v p w w' b :
    world_wf (S k) w → 0 < v → from ≠ to → asset_transfer a from to v p w = Ok (b, w') →
    world_wf k w' ∧ b = v ∧
    moved (λ x, asset_balance a x w) (λ x, asset_balance a x w')
      (asset_minimum_balance a w) from to v (bool_decide (p = Preserve)) ∧
    (∀ a' x, a' ≠ a → asset_balance a' x w' = asset_balance a' x w) ∧
    (∀ a', asset_minimum_balance a' w' = asset_minimum_balance a' w) ∧
    (∀ x, free_balance x w' = free_balance x w) ∧
    block_number w' = block_number w;

  asset_burn_burnt k a who v w w' b :
    world_wf k w → 0 < v → asset_burn_from a who v w = Ok (b, w') →
    world_wf k w' ∧
    burnt (λ x, asset_balance a x w) (λ x, asset_balance a x w')
      (asset_minimum_balance a w) who v ∧
    (∀ a' x, a' ≠ a → asset_balance a' x w' = asset_balance a' x w) ∧
    (∀ a', asset_minimum_balance a' w' = asset_minimum_balance a' w) ∧
    (∀ x, free_balance x w' = free_balance x w) ∧
    block_number w' = block_number w;
}.

(** The laws of [ReservableCurrency]: reserving moves a balance aside, nothing
    but [unreserve] and [repatriate_reserved] takes it back, and only the
    accounts named are touched. *)
Class ReserveLaws (W : Type) `{WorldLaws W, ReservableCurrency W} := {
  reserve_effect k who v w w' :
    world_wf k w → 0 ≤ v → reserve who v w = Ok (tt, w') →
    world_wf k w' ∧
    reserved_balance who w' = reserved_balance who w + v ∧
    (∀ x, x ≠ who →
       free_balance x w' = free_balance x w ∧ reserved_balance x w' = reserved_balance x w) ∧
    (∀ a x, asset_balance a x w' = asset_balance a x w) ∧
    (∀ a, asset_minimum_balance a w' = asset_minimum_balance a w) ∧
    block_number w' = block_number w;
  unreserve_effect k who v w r w' :
    world_wf k w → 0 ≤ v → unreserve who v w = (r, w') →
    world_wf k w' ∧
    reserved_balance who w - v ≤ reserved_balance who w' ∧
    (∀ x, x ≠ who →
       free_balance x w' = free_balance x w ∧ reserved_balance x w' = reserved_balance x w) ∧
    (∀ a x, asset_balance a x w' = asset_balance a x w) ∧
    (∀ a, asset_minimum_balance a w' = asset_minimum_balance a w) ∧
    block_number w' = block_number w;
  repatriate_effect k from to v st w r w' :
    world_wf k w → 0 ≤ v →
    (from ≠ to → free_balance to w + reserved_balance to w + reserved_balance from w ≤ U128_MAX) →
    repatriate_reserved from to v st w = Ok (r, w') →
    world_wf k w' ∧
    reserved_balance from w - v ≤ reserved_balance from w' ∧
    (∀ x, x ≠ from →
       reserved_balance x w ≤ reserved_balance x w' ∧ free_balance x w ≤ free_balance x w') ∧
    (from = to → st = ReservedStatus → w' = w) ∧
    (∀ x, x ≠ from → x ≠ to →
       free_balance x w' = free_balance x w ∧ reserved_balance x w' = reserved_balance x w) ∧
    (∀ a x, asset_balance a x w' = asset_balance a x w) ∧
    (∀ a, asset_minimum_balance a w' = asset_minimum_balance a w) ∧
    block_number w' = block_number w;
  transfer_reserved k from to v r w w' x :
    world_wf k w → 0 ≤ v → transfer from to v r w = Ok (tt, w') →
    reserved_balance x w' = reserved_balance x w;
  withdraw_reserved k who v r w w' x :
    world_wf k w → 0 < v → withdraw who v r w = Ok (tt, w') →
    reserved_balance x w' = reserved_balance x w;
  asset_transfer_reserved k a from to v p w w' b x :
    world_wf (S k) w → 0 < v → asset_transfer a from to v p w = Ok (b, w') →
    reserved_balance x w' = reserved_balance x w;
  asset_burn_reserved k a who v w w' b x :
    world_wf k w → 0 < v → asset_burn_from a who v w = Ok (b, w') →
    reserved_balance x w' = reserved_balance x w;
}.
