(* ===== verification/Balances.v ===== *)
(** * frame_system reference counts and pallet-balances

    The account store of frame_system (src/substrate/frame/system/src/lib.rs)
    and the parts of pallet-balances the pallets reach through [Currency] and
    [ReservableCurrency] (src/substrate/frame/balances/src/*.rs together with
    the default methods of fungible/regular.rs).  All accounts are in the new
    reference-counting logic ([ExtraFlags]); locks appear through [frozen]. *)

From S2P Require Import Prelude Arith Errors Frame.
Import BalancesErrors.

(** ** Account store *)

Record AccountData := mkAccountData {
  free : Balance;
  reserved : Balance;
  frozen : Balance;
}.

#[global] Instance AccountData_eq_dec : EqDecision AccountData.
Proof. solve_decision. Defined.

Definition AccountData_default : AccountData := mkAccountData 0 0 0.

Record AccountInfo := mkAccountInfo {
  consumers : Z;
  providers : Z;
  sufficients : Z;
  data : AccountData;
}.

Definition AccountInfo_default : AccountInfo := mkAccountInfo 0 0 0 AccountData_default.

(** The accounts, the issuance, and whatever else the runtime stores. *)
Record Chain (R : Type) := mkChain {
  Account : gmap AccountId AccountInfo;
  TotalIssuance : Balance;
  rest : R;
}.
Arguments mkChain {_} _ _ _.
Arguments Account {_} _.
Arguments TotalIssuance {_} _.
Arguments rest {_} _.

Class BalancesConfig := {
  ExistentialDeposit : Balance;
  MaxConsumers : Z;
}.

Section system.
Context {R : Type} {T : BalancesConfig}.
Abbreviation L A := (M DispatchError (Chain R) A).
Implicit Types (l : Chain R).

(** [Account::<T>::get] is a [ValueQuery]. *)
Definition get_info (who : AccountId) l : AccountInfo :=
  default AccountInfo_default (l.(Account) !! who).
Definition account (who : AccountId) l : AccountData := (get_info who l).(data).

Definition put_info (who : AccountId) (i : AccountInfo) l : Chain R :=
  mkChain (<[who := i]> l.(Account)) l.(TotalIssuance) l.(rest).
Definition remove_info (who : AccountId) l : Chain R :=
  mkChain (delete who l.(Account)) l.(TotalIssuance) l.(rest).

Definition inc_providers (who : AccountId) : L unit :=
  a ← gets (get_info who);
  let p := if (a.(providers) =? 0) && (a.(sufficients) =? 0) then 1
           else saturating_add U32_MAX a.(providers) 1 in
  modify (put_info who (mkAccountInfo a.(consumers) p a.(sufficients) a.(data))).

Definition dec_providers (who : AccountId) : L unit :=
  o ← gets (λ l, l.(Account) !! who);
  match o with
  | Some a =>
      let p := if a.(providers) =? 0 then 1 else a.(providers) in
      if (p =? 1) && (a.(consumers) =? 0) && (a.(sufficients) =? 0)
      then modify (remove_info who)
      else if (p =? 1) && (0 <? a.(consumers)) then fail ConsumerRemaining
      else modify (put_info who (mkAccountInfo a.(consumers) (p - 1) a.(sufficients) a.(data)))
  | None => mret tt
  end.

Definition inc_sufficients (who : AccountId) : L unit :=
  a ← gets (get_info who);
  let n := if a.(providers) + a.(sufficients) =? 0 then 1
           else saturating_add U32_MAX a.(sufficients) 1 in
  modify (put_info who (mkAccountInfo a.(consumers) a.(providers) n a.(data))).

Definition dec_sufficients (who : AccountId) : L unit :=
  o ← gets (λ l, l.(Account) !! who);
  match o with
  | Some a =>
      if ((a.(sufficients) =? 0) || (a.(sufficients) =? 1)) && (a.(providers) =? 0)
      then modify (remove_info who)
      else modify (put_info who
             (mkAccountInfo a.(consumers) a.(providers)
                (wrap U32_MAX (a.(sufficients) - 1)) a.(data)))
  | None => mret tt
  end.

Definition inc_consumers (who : AccountId) : L unit :=
  a ← gets (get_info who);
  if 0 <? a.(providers) then
    if a.(consumers) <? MaxConsumers then
      modify (put_info who (mkAccountInfo (saturating_add U32_MAX a.(consumers) 1)
                              a.(providers) a.(sufficients) a.(data)))
    else fail TooManyConsumers
  else fail NoProviders.

Definition dec_consumers (who : AccountId) : L unit :=
  a ← gets (get_info who);
  modify (put_info who
    (mkAccountInfo (if 0 <? a.(consumers) then a.(consumers) - 1 else a.(consumers))
       a.(providers) a.(sufficients) a.(data))).

Definition can_dec_provider (who : AccountId) l : bool :=
  let a := get_info who l in (a.(consumers) =? 0) || (1 <? a.(providers)).

Definition can_inc_consumer (who : AccountId) l : bool :=
  let a := get_info who l in
  match checked_add U32_MAX a.(consumers) 1 with
  | Some c => (0 <? a.(providers)) && (c <=? MaxConsumers)
  | None => false
  end.

(** [StoredMap::try_mutate_exists] for [System]; the closure may touch the
    reference counts itself. *)
Definition try_mutate_exists {A} (who : AccountId)
    (f : option AccountData → L (A * option AccountData)) : L A :=
  d ← gets (account who);
  let some_data := if decide (d = AccountData_default) then None else Some d in
  r ← f some_data;
  a ← gets (get_info who);
  (if (0 <? a.(providers)) || (0 <? a.(sufficients))
   then modify (put_info who (mkAccountInfo a.(consumers) a.(providers) a.(sufficients)
          (default AccountData_default r.2)))
   else modify (remove_info who)) ;;
  mret r.1.

(** ** pallet-balances *)

Definition err (e : BalancesError) : DispatchError := Module_ (InBalances e).
Abbreviation ed := ExistentialDeposit.

(** The reference counts of [try_mutate_account]: the account provides for
    itself with a free balance of the existential deposit, and consumes a
    reference with reserved or frozen funds. *)
Definition update_refs (who : AccountId) (did_provide did_consume does_provide does_consume : bool)
    : L unit :=
  when (negb did_provide && does_provide) (inc_providers who) ;;
  when (did_consume && negb does_consume) (dec_consumers who) ;;
  when (negb did_consume && does_consume) (inc_consumers who) ;;
  a ← gets (get_info who);
  when (does_consume && (a.(consumers) =? 0)) (inc_consumers who) ;;
  when (did_provide && negb does_provide) (dec_providers who).

Definition consumes (d : AccountData) : bool :=
  negb (d.(reserved) =? 0) || negb (d.(frozen) =? 0).

Definition try_mutate_account {A} (who : AccountId)
    (f : AccountData → bool → L (A * AccountData)) : L (A * option Balance) :=
  try_mutate_exists who (λ maybe_account,
    let is_new := bool_decide (maybe_account = None) in
    let account := default AccountData_default maybe_account in
    let did_provide := ed <=? account.(free) in
    let did_consume := negb is_new && consumes account in
    r ← f account is_new;
    let account' := r.2 in
    let does_provide := ed <=? account'.(free) in
    let does_consume := consumes account' in
    update_refs who did_provide did_consume does_provide does_consume ;;
    if (account'.(free) <? ed) && (account'.(reserved) =? 0) then
      mret (r.1, if account'.(free) =? 0 then None else Some account'.(free), None)
    else mret (r.1, None, Some account')).

(** [handle_dust] with [DustRemoval = ()]: the imbalance is dropped. *)
Definition handle_dust (dust : Balance) : L unit :=
  modify (λ l, mkChain l.(Account) (saturating_sub l.(TotalIssuance) dust) l.(rest)).
Definition handle_raw_dust (dust : Balance) : L unit :=
  handle_dust (Z.min dust (saturating_sub ed 1)).

Definition try_mutate_account_handling_dust {A} (who : AccountId)
    (f : AccountData → bool → L (A * AccountData)) : L A :=
  r ← try_mutate_account who f;
  match r.2 with Some dust => handle_raw_dust dust | None => mret tt end ;;
  mret r.1.

(** [fungible::Inspect] *)
Definition reducible_balance (who : AccountId) (preservation : Preservation) (force : bool)
    (l : Chain R) : Balance :=
  let a := account who l in
  let untouchable := if force then 0 else saturating_sub a.(frozen) a.(reserved) in
  let keep_ed :=
    match preservation with
    | Preserve => true
    | Protect => negb (a.(free) =? 0) && ((get_info who l).(providers) =? 1)
    | Expendable => negb (a.(free) =? 0) && negb (can_dec_provider who l)
    end in
  saturating_sub a.(free) (if keep_ed then Z.max untouchable ed else untouchable).

(** [can_deposit(..., Extant).into_result()] *)
Definition can_deposit (who : AccountId) (amount : Balance) (l : Chain R)
    : result DispatchError unit :=
  if amount =? 0 then Ok tt
  else
    let a := account who l in
    match checked_add U128_MAX a.(free) amount with
    | None => Err (Arithmetic Overflow)
    | Some new_free =>
        if new_free <? ed then Err (Token BelowMinimum)
        else match checked_add U128_MAX a.(reserved) new_free with
             | Some _ => Ok tt
             | None => Err (Arithmetic Overflow)
             end
    end.

(** [can_withdraw(...).into_result(keep_nonzero)] *)
Definition can_withdraw (who : AccountId) (amount : Balance) (keep_nonzero : bool)
    (l : Chain R) : result DispatchError unit :=
  if amount =? 0 then Ok tt
  else if l.(TotalIssuance) <? amount then Err (Arithmetic Underflow)
  else
    let a := account who l in
    match checked_sub a.(free) amount with
    | None => Err (Token FundsUnavailable)
    | Some new_free =>
        if reducible_balance who Expendable false l <? amount then Err (Token TokenFrozen)
        else if (new_free <? ed) && negb (can_dec_provider who l) then Err (Token OnlyProvider)
        else if saturating_add U128_MAX new_free a.(reserved) <? a.(frozen)
        then Err (Token TokenFrozen)
        else if (new_free <? ed) && keep_nonzero then Err (Token NotExpendable)
        else Ok tt
    end.

(** [fungible::Unbalanced] *)
Definition write_balance (who : AccountId) (amount : Balance) : L (option Balance) :=
  max_reduction ← gets (reducible_balance who Expendable true);
  r ← try_mutate_account who (λ account _,
        let reduction := saturating_sub account.(free) amount in
        ensure (reduction <=? max_reduction) (err InsufficientBalance) ;;
        mret (tt, mkAccountData amount account.(reserved) account.(frozen)));
  mret r.2.

(** [decrease_balance(who, amount, BestEffort, preservation, Polite)] *)
Definition decrease_balance (who : AccountId) (amount : Balance) (preservation : Preservation)
    : L Balance :=
  old_balance ← gets (λ l, (account who l).(free));
  reducible ← gets (reducible_balance who preservation false);
  let amount := Z.min amount reducible in
  new_balance ← ok_or (checked_sub old_balance amount) (Token FundsUnavailable);
  d ← write_balance who new_balance;
  match d with Some dust => handle_dust dust | None => mret tt end ;;
  mret (saturating_sub old_balance new_balance).

(** [increase_balance(who, amount, BestEffort)] *)
Definition increase_balance (who : AccountId) (amount : Balance) : L Balance :=
  old_balance ← gets (λ l, (account who l).(free));
  let new_balance := saturating_add U128_MAX old_balance amount in
  if new_balance <? ed then mret 0
  else if new_balance =? old_balance then mret 0
  else
    d ← write_balance who new_balance;
    match d with Some dust => handle_dust dust | None => mret tt end ;;
    mret (saturating_sub new_balance old_balance).

(** [let _ = m;]: an error is dropped. *)
Definition ignore_err {A} (m : L A) : L unit := λ l,
  match m l with Ok (_, l') => Ok (tt, l') | Err _ => Ok (tt, l) end.

(** [fungible::Mutate::transfer] *)
Definition fungible_transfer (source dest : AccountId) (amount : Balance)
    (preservation : Preservation) : L unit :=
  r ← gets (can_withdraw source amount (bool_decide (preservation ≠ Expendable)));
  of_result r ;;
  r ← gets (can_deposit dest amount);
  of_result r ;;
  if source =? dest then mret tt
  else
    decrease_balance source amount preservation ;;
    ignore_err (increase_balance dest amount).

(** [Currency::transfer] *)
Definition currency_transfer (transactor dest : AccountId) (value : Balance)
    (existence_requirement : ExistenceRequirement) : L unit :=
  if (value =? 0) || (transactor =? dest) then mret tt
  else
    let keep_alive :=
      match existence_requirement with KeepAlive => Preserve | AllowDeath => Expendable end in
    fungible_transfer transactor dest value keep_alive.

(** [Currency::withdraw], the returned imbalance dropped. *)
Definition currency_withdraw (who : AccountId) (value : Balance)
    (liveness : ExistenceRequirement) : L unit :=
  if value =? 0 then mret tt
  else
    try_mutate_account_handling_dust who (λ account _,
      new_free ← ok_or (checked_sub account.(free) value) (err InsufficientBalance);
      let would_be_dead := new_free <? ed in
      let would_kill := would_be_dead && (ed <=? account.(free)) in
      ensure (bool_decide (liveness = AllowDeath) || negb would_kill) (err Expendability) ;;
      ensure (account.(frozen) <=? new_free) (err LiquidityRestrictions) ;;
      mret (tt, mkAccountData new_free account.(reserved) account.(frozen))) ;;
    handle_dust value.

(** [ReservableCurrency] *)
Definition total_balance (who : AccountId) (l : Chain R) : Balance :=
  (account who l).(free) + (account who l).(reserved).

Definition ensure_can_withdraw (who : AccountId) (amount new_balance : Balance) : L unit :=
  if amount =? 0 then mret tt
  else
    frozen ← gets (λ l, (account who l).(frozen));
    ensure (frozen <=? new_balance) (err LiquidityRestrictions).

Definition currency_reserve (who : AccountId) (value : Balance) : L unit :=
  if value =? 0 then mret tt
  else
    try_mutate_account_handling_dust who (λ account _,
      new_free ← ok_or (checked_sub account.(free) value) (err InsufficientBalance);
      new_reserved ← ok_or (checked_add U128_MAX account.(reserved) value) (Arithmetic Overflow);
      ensure_can_withdraw who value new_free ;;
      mret (tt, mkAccountData new_free new_reserved account.(frozen))).

(** The closure of [unreserve]: what is moved and the account after it. *)
Definition unreserve_account (value : Balance) (a : AccountData) : Balance * AccountData :=
  let actual := Z.min a.(reserved) value in
  (actual, mkAccountData (saturating_add U128_MAX a.(free) actual) (a.(reserved) - actual)
             a.(frozen)).

(** [unreserve] does not fail: it returns what it could not unreserve. *)
Definition currency_unreserve (who : AccountId) (value : Balance) (l : Chain R)
    : Balance * Chain R :=
  if value =? 0 then (0, l)
  else if total_balance who l =? 0 then (value, l)
  else match try_mutate_account_handling_dust who
               (λ account _, mret (unreserve_account value account)) l with
       | Ok (actual, l') => (value - actual, l')
       | Err _ => (value, l)
       end.

(** [reducible_total_balance_on_hold(who, Polite)] *)
Definition reducible_total_balance_on_hold (who : AccountId) (l : Chain R) : Balance :=
  let a := account who l in saturating_sub a.(reserved) (saturating_sub a.(frozen) a.(free)).

(** [do_transfer_reserved(slashed, beneficiary, value, BestEffort, Polite, status)] *)
Definition do_transfer_reserved (slashed beneficiary : AccountId) (value : Balance)
    (status : BalanceStatus) : L Balance :=
  if value =? 0 then mret 0
  else
    max ← gets (reducible_total_balance_on_hold slashed);
    let actual := Z.min value max in
    ensure (actual <=? max) (Token FundsUnavailable) ;;
    if slashed =? beneficiary then
      match status with
      | FreeStatus =>
          r ← ((λ l, Ok (currency_unreserve slashed actual l)) : L Balance);
          mret (saturating_sub actual r)
      | ReservedStatus => mret actual
      end
    else
      r ← try_mutate_account beneficiary (λ to_account is_new,
            ensure (negb is_new) (err DeadAccount) ;;
            r ← try_mutate_account slashed (λ from_account _,
                  to_account ←
                    match status with
                    | FreeStatus =>
                        x ← ok_or (checked_add U128_MAX to_account.(free) actual)
                              (Arithmetic Overflow);
                        mret (mkAccountData x to_account.(reserved) to_account.(frozen))
                    | ReservedStatus =>
                        x ← ok_or (checked_add U128_MAX to_account.(reserved) actual)
                              (Arithmetic Overflow);
                        mret (mkAccountData to_account.(free) x to_account.(frozen))
                    end;
                  mret (to_account,
                        mkAccountData from_account.(free)
                          (saturating_sub from_account.(reserved) actual) from_account.(frozen)));
            mret (r.2, r.1));
      match r.1 with Some dust => handle_raw_dust dust | None => mret tt end ;;
      match r.2 with Some dust => handle_raw_dust dust | None => mret tt end ;;
      mret actual.

(** [repatriate_reserved]: what could not be moved. *)
Definition currency_repatriate_reserved (slashed beneficiary : AccountId) (value : Balance)
    (status : BalanceStatus) : L Balance :=
  actual ← do_transfer_reserved slashed beneficiary value status;
  mret (saturating_sub value actual).
End system.
