(* ===== verification/BalancesLaws.v ===== *)
(** * pallet-balances: the laws of the currency

    The well-formedness of the account store, that every operation keeps it,
    and what a transfer or a withdrawal does to the balances. *)

From S2P Require Import Prelude Arith Errors Frame Balances.

Section laws.
Context {R : Type} {T : BalancesConfig}.
Implicit Types (l : Chain R) (i : AccountInfo) (who x : AccountId).
Abbreviation ed := ExistentialDeposit.

(** The references the rest of the runtime holds on an account, by its state
    [rest l]; each is a number of references counted in frame_system. *)
Context (held_consumers held_sufficients : R → AccountId → Z).
Context (held_consumers_nonneg : ∀ r who, 0 ≤ held_consumers r who).
Context (held_sufficients_nonneg : ∀ r who, 0 ≤ held_sufficients r who).

(** The number of references that can still be taken before a counter is full. *)
Context (room : nat) (room_small : (room ≤ 1000)%nat).

(** ** Well-formed stores *)

Record data_wf (d : AccountData) : Prop := {
  dw_free : 0 ≤ d.(free);
  dw_reserved : 0 ≤ d.(reserved);
  dw_frozen : 0 ≤ d.(frozen);
  dw_total : d.(free) + d.(reserved) ≤ U128_MAX;
}.

(** The counters cover the references held, one of the balances pallet's own
    when [b], and only a provided account is consumed. *)
Record refs_wf (r : R) who (b : bool) (i : AccountInfo) : Prop := {
  rw_consumers : held_consumers r who + Z.b2z b ≤ i.(consumers);
  rw_providers : 0 ≤ i.(providers);
  rw_sufficients : held_sufficients r who ≤ i.(sufficients) ≤ U32_MAX - Z.of_nat room;
  rw_provided : 0 < i.(consumers) → 0 < i.(providers);
}.

(** A balance holds a provider reference, reserved or frozen funds a consumer
    reference; what is below the existential deposit is kept only beside
    reserved funds. *)
Record info_wf (r : R) who (i : AccountInfo) : Prop := {
  iw_data : data_wf i.(data);
  iw_refs : refs_wf r who (consumes i.(data)) i;
  iw_provides : 0 < i.(data).(free) → 0 < i.(providers);
  iw_alive : i.(data).(reserved) = 0 → i.(data).(free) < ed → i.(data).(free) = 0;
}.

Definition chain_wf l : Prop := ∀ who, info_wf l.(rest) who (get_info who l).

(** [l'] differs from [l] at most in the entry of [who]. *)
Record same_else who l l' : Prop := {
  se_issuance : l'.(TotalIssuance) = l.(TotalIssuance);
  se_rest : l'.(rest) = l.(rest);
  se_accounts : ∀ x, x ≠ who → l'.(Account) !! x = l.(Account) !! x;
}.

Lemma same_else_refl who l : same_else who l l.
Proof. by split. Qed.

Lemma same_else_trans who l1 l2 l3 :
  same_else who l1 l2 → same_else who l2 l3 → same_else who l1 l3.
Proof.
  intros [] []. split; try congruence. intros x Hx. rewrite se_accounts1 by done. auto.
Qed.

Lemma put_info_else who i l : same_else who l (put_info who i l).
Proof. split; try done. intros x Hx. simpl. by rewrite lookup_insert_ne. Qed.

Lemma remove_info_else who l : same_else who l (remove_info who l).
Proof. split; try done. intros x Hx. simpl. by rewrite lookup_delete_ne. Qed.

Lemma get_put_info who i l : get_info who (put_info who i l) = i.
Proof. unfold get_info. simpl. by rewrite lookup_insert_eq. Qed.

Lemma get_remove_info who l : get_info who (remove_info who l) = AccountInfo_default.
Proof. unfold get_info. simpl. by rewrite lookup_delete_eq. Qed.

Lemma get_info_else who l l' x : same_else who l l' → x ≠ who → get_info x l' = get_info x l.
Proof. intros [] Hx. unfold get_info. by rewrite se_accounts0. Qed.

Lemma account_else who l l' x : same_else who l l' → x ≠ who → account x l' = account x l.
Proof. intros Hs Hx. unfold account. by rewrite (get_info_else who l). Qed.

Context (ed_pos : 0 < ed) (max_consumers_fits : MaxConsumers ≤ U32_MAX).

Lemma account_wf who l : chain_wf l → data_wf (account who l).
Proof. intros Hl. apply (iw_data _ _ _ (Hl who)). Qed.

(** A store is well-formed when the changed entry is. *)
Lemma chain_wf_else who l l' :
  chain_wf l → same_else who l l' → info_wf l.(rest) who (get_info who l') → chain_wf l'.
Proof.
  intros Hl Hs Hi x. rewrite (se_rest _ _ _ Hs). destruct (decide (x = who)) as [->|Hne]; [done|].
  rewrite (get_info_else who l l') by done. apply Hl.
Qed.

(** ** Reference counts *)

(** A change of [who]'s reference counts that may also remove the account. *)
Record refs_change who (b : bool) l l' : Prop := {
  rc_else : same_else who l l';
  rc_refs : refs_wf l.(rest) who b (get_info who l');
}.

(** What the counters of a removed account are. *)
Lemma refs_wf_default r who i :
  refs_wf r who false i → i.(consumers) = 0 → i.(sufficients) = 0 →
  refs_wf r who false AccountInfo_default.
Proof. intros [] ? ?. split; simpl in *; try lia. Qed.

Lemma inc_providers_ok who b l u l' :
  inc_providers who l = Ok (u, l') → refs_wf l.(rest) who b (get_info who l) →
  refs_change who b l l' ∧ 0 < (get_info who l').(providers).
Proof.
  unfold inc_providers. intros H []. minv. rewrite get_put_info. simpl.
  assert (0 < (if ((get_info who l).(providers) =? 0) && ((get_info who l).(sufficients) =? 0)
    then 1 else saturating_add U32_MAX (get_info who l).(providers) 1)).
  { destruct (_ && _); ulia. }
  split; [|done]. split; [apply put_info_else|]. rewrite get_put_info. by split; simpl; try lia.
Qed.

Lemma inc_consumers_ok who l u l' :
  inc_consumers who l = Ok (u, l') → refs_wf l.(rest) who false (get_info who l) →
  refs_change who true l l' ∧
  (get_info who l').(providers) = (get_info who l).(providers).
Proof.
  unfold inc_consumers. intros H []. minv.
  destruct (0 <? _) eqn:Hp; [|by minv]. destruct (_ <? MaxConsumers) eqn:Hm; [|by minv]. minv. bool_facts.
  rewrite get_put_info. simpl in *. split; [|done]. split; [apply put_info_else|].
  rewrite get_put_info. split; simpl; try done. ulia.
Qed.

Lemma dec_consumers_ok who l u l' :
  dec_consumers who l = Ok (u, l') → refs_wf l.(rest) who true (get_info who l) →
  refs_change who false l l' ∧ (get_info who l').(providers) = (get_info who l).(providers).
Proof.
  unfold dec_consumers. intros H []. minv. rewrite get_put_info. simpl in *. split; [|done].
  split; [apply put_info_else|]. rewrite get_put_info.
  destruct (0 <? _) eqn:Hc; bool_facts; split; simpl; try done; try lia.
Qed.

Lemma dec_providers_ok who b l u l' :
  dec_providers who l = Ok (u, l') → refs_wf l.(rest) who b (get_info who l) →
  refs_change who b l l'.
Proof.
  unfold dec_providers, get_info. intros H. minv.
  destruct (l.(Account) !! who) as [a|] eqn:Ha; simpl in *; cycle 1.
  { minv. intros Hw. split; [apply same_else_refl|]. unfold get_info. by rewrite Ha. }
  intros Hw. destruct (Hw).
  pose proof (held_consumers_nonneg l.(rest) who).
  set (p := if a.(providers) =? 0 then 1 else a.(providers)) in *.
  assert (0 < a.(providers) → p = a.(providers)) as Hp
    by (unfold p; destruct (Z.eqb_spec a.(providers) 0); lia).
  assert (1 ≤ p) as Hp1 by (unfold p; destruct (Z.eqb_spec a.(providers) 0); lia).
  destruct ((p =? 1) && (a.(consumers) =? 0) && (a.(sufficients) =? 0)) eqn:Hdead.
  - minv. bool_facts. split; [apply remove_info_else|]. rewrite get_remove_info.
    destruct b; simpl in *; [lia|]. by eapply refs_wf_default.
  - destruct ((p =? 1) && (0 <? a.(consumers))) eqn:Hc; [by minv|]. minv.
    assert (0 < a.(consumers) → 1 < p) as Hgt.
    { intros Hpos. apply andb_false_iff in Hc as [Hc|Hc]; bool_facts; lia. }
    split; [apply put_info_else|]. rewrite get_put_info. split; simpl; try done; lia.
Qed.

Lemma refs_change_refl who b l : refs_wf l.(rest) who b (get_info who l) → refs_change who b l l.
Proof. intros. split; [apply same_else_refl|done]. Qed.

Lemma refs_change_trans who b1 b2 l1 l2 l3 :
  refs_change who b1 l1 l2 → refs_change who b2 l2 l3 → refs_change who b2 l1 l3.
Proof.
  intros [Hs1 _] [Hs2 Hr]. split; [by eapply same_else_trans|].
  by rewrite <- (se_rest _ _ _ Hs1).
Qed.

(** The refs of [who] in the state a change left behind. *)
Lemma refs_change_next who b l l' :
  refs_change who b l l' → refs_wf l'.(rest) who b (get_info who l').
Proof. intros [Hs Hr]. by rewrite (se_rest _ _ _ Hs). Qed.

(** The consumer reference is taken or given back. *)
Lemma update_consumers_ok who dc c l l2 l3 :
  when (dc && negb c) (dec_consumers who) l = Ok (tt, l2) →
  when (negb dc && c) (inc_consumers who) l2 = Ok (tt, l3) →
  refs_wf l.(rest) who dc (get_info who l) →
  refs_change who c l l3 ∧ (get_info who l3).(providers) = (get_info who l).(providers).
Proof.
  intros H2 H3 Hw. destruct dc, c; simpl in *; minv.
  - split; auto using refs_change_refl.
  - by apply dec_consumers_ok in H2 as [? ?].
  - by apply inc_consumers_ok in H3 as [? ?].
  - split; auto using refs_change_refl.
Qed.

(** A consumed account has a provider. *)
Lemma refs_wf_consumed r who i : refs_wf r who true i → 0 < i.(consumers) ∧ 0 < i.(providers).
Proof.
  intros []. pose proof (held_consumers_nonneg r who). simpl in *.
  assert (0 < i.(consumers)) by lia. auto.
Qed.

Lemma update_refs_ok who dp dc p c l u l' :
  update_refs who dp dc p c l = Ok (u, l') → refs_wf l.(rest) who dc (get_info who l) →
  (dp = true → 0 < (get_info who l).(providers)) →
  refs_change who c l l' ∧ (p = true → 0 < (get_info who l').(providers)).
Proof.
  unfold update_refs. intros H Hw Hdp.
  apply bind_ok in H as ([] & l1 & H1 & H). apply bind_ok in H as ([] & l2 & H2 & H).
  apply bind_ok in H as ([] & l3 & H3 & H). minv.
  assert (refs_change who dc l l1 ∧ (dp || p = true → 0 < (get_info who l1).(providers)))
    as (Hc1 & Hp1).
  { destruct (negb dp && p) eqn:Hb; simpl in H1.
    - apply (inc_providers_ok who dc) in H1 as (? & ?); [|done]. by split_and!.
    - minv. split_and!; [by apply refs_change_refl|].
      destruct dp; [by intros _; apply Hdp|]. by destruct p. }
  edestruct update_consumers_ok as (Hc3 & Hp3);
    [exact H2|exact H3|by eapply refs_change_next|].
  assert (refs_change who c l l3) as Hl3 by by eapply refs_change_trans.
  match goal with H : when (c && _) _ _ = Ok (_, ?l) |- _ =>
    rename H into H4; rename l into l4 end.
  assert (l4 = l3) as ->.
  { apply when_ok in H4 as [[Hx _]|[_ ->]]; [|done].
    apply andb_true_iff in Hx as [-> Hx]. bool_facts.
    destruct (refs_wf_consumed _ _ _ (rc_refs _ _ _ _ Hl3)). lia. }
  destruct (dp && negb p) eqn:Hdec; simpl in H.
  - apply andb_true_iff in Hdec as [-> Hdec]. apply negb_true_iff in Hdec as ->.
    apply (dec_providers_ok who c) in H; [|by eapply refs_change_next].
    split; [by eapply refs_change_trans|done].
  - minv. split; [done|]. intros ->. rewrite Hp3. apply Hp1. by rewrite orb_true_r.
Qed.

(** ** [try_mutate_account] *)

Definition stored (d : AccountData) : AccountData :=
  if (d.(free) <? ed) && (d.(reserved) =? 0) then AccountData_default else d.

(** What is dropped when the account is not stored. *)
Definition dust_of (d : AccountData) : option Balance :=
  if (d.(free) <? ed) && (d.(reserved) =? 0)
  then if d.(free) =? 0 then None else Some d.(free) else None.

(** A closure that computes on the account alone. *)
Definition pure_update {A} (f : AccountData → bool → M DispatchError (Chain R) (A * AccountData))
    : Prop := ∀ d b l r l', f d b l = Ok (r, l') → l' = l.

(** [try_mutate_exists] hands on the data of the account, or nothing for an
    account that has none. *)
Definition some_data who l : option AccountData :=
  if decide (account who l = AccountData_default) then None else Some (account who l).

Lemma some_data_default who l : default AccountData_default (some_data who l) = account who l.
Proof. unfold some_data. destruct (decide _); naive_solver. Qed.

Lemma some_data_new who l :
  bool_decide (some_data who l = None) = bool_decide (account who l = AccountData_default).
Proof. unfold some_data. apply bool_decide_ext. destruct (decide _); naive_solver. Qed.

Lemma new_consumes who l :
  negb (bool_decide (account who l = AccountData_default)) && consumes (account who l) =
  consumes (account who l).
Proof. case_bool_decide as Hx; [by rewrite Hx|done]. Qed.

(** An account that is written back after its references were updated. *)
Lemma write_stored who d l1 l2 u l' :
  chain_wf l1 → data_wf d → refs_change who (consumes d) l1 l2 →
  (ed ≤ d.(free) → 0 < (get_info who l2).(providers)) →
  (if (0 <? (get_info who l2).(providers)) || (0 <? (get_info who l2).(sufficients))
   then modify (put_info who (mkAccountInfo (get_info who l2).(consumers)
     (get_info who l2).(providers) (get_info who l2).(sufficients) (stored d)))
   else modify (remove_info who)) l2 = @Ok DispatchError _ (u, l') →
  same_else who l1 l' ∧ account who l' = stored d ∧ chain_wf l'.
Proof.
  intros Hl Hdw [Helse Hw2] Hp2 Hrun. set (i2 := get_info who l2) in *.
  assert ((free d <? ed) && (reserved d =? 0) = false → 0 < i2.(providers)) as Hkept.
  { intros Hb. apply andb_false_iff in Hb as [Hb|Hb]; [apply Hp2; by bool_facts|].
    assert (consumes d = true) as Hcd by (unfold consumes; by rewrite Hb).
    rewrite Hcd in Hw2. apply (refs_wf_consumed _ _ _ Hw2). }
  assert (info_wf l1.(rest) who (mkAccountInfo i2.(consumers) i2.(providers) i2.(sufficients) (stored d)))
    as Hnewi.
  { destruct Hw2. unfold stored. destruct ((free d <? ed) && (reserved d =? 0)) eqn:Hb;
      split; simpl; try done; [|by intros; apply Hkept|intros; bool_facts; lia].
    split; simpl; try done. destruct (consumes d); simpl in *; lia. }
  destruct ((0 <? _) || _) eqn:Halive; minv.
  - pose proof (same_else_trans _ _ _ _ Helse (put_info_else who (mkAccountInfo i2.(consumers)
      i2.(providers) i2.(sufficients) (stored d)) l2)) as He.
    split_and!; [done|unfold account; by rewrite get_put_info|].
    eapply chain_wf_else; eauto. by rewrite get_put_info.
  - pose proof (same_else_trans _ _ _ _ Helse (remove_info_else who l2)) as He.
    apply orb_false_iff in Halive as [Hp0 Hs0]. bool_facts.
    assert (stored d = AccountData_default) as Hsd.
    { unfold stored. destruct ((free d <? ed) && (reserved d =? 0)); [done|].
      specialize (Hkept eq_refl). lia. }
    split_and!; [done|unfold account; by rewrite get_remove_info, Hsd|].
    eapply chain_wf_else; eauto. rewrite get_remove_info.
    rewrite Hsd in Hnewi. destruct Hnewi as [_ [] _ _]. simpl in *.
    pose proof (held_consumers_nonneg l1.(rest) who). pose proof (held_sufficients_nonneg l1.(rest) who).
    split; simpl; try done. split; simpl; try done; lia.
Qed.

(** The closure may change other accounts before this one is written. *)
Lemma try_mutate_account_run {A} who f l (r : A) dust l' :
  chain_wf l →
  (∀ b v d l1, f (account who l) b l = Ok ((v, d), l1) →
     data_wf d ∧ chain_wf l1 ∧ get_info who l1 = get_info who l) →
  try_mutate_account who f l = Ok ((r, dust), l') →
  ∃ d l1, f (account who l) (bool_decide (account who l = AccountData_default)) l = Ok ((r, d), l1) ∧
       dust = dust_of d ∧ same_else who l1 l' ∧ account who l' = stored d ∧ chain_wf l'.
Proof.
  intros Hl0 Hf H. unfold try_mutate_account, try_mutate_exists in H. minv. fold (some_data who l) in *.
  rewrite some_data_default, some_data_new, new_consumes in *.
  match goal with H : f _ _ _ = Ok (?p, ?y) |- _ => rename y into l1; destruct p as [v d];
    destruct (Hf _ _ _ _ H) as (Hdw & Hl & Hsame); rename H into Hrun end. simpl in *.
  assert (account who l1 = account who l) as Hacc1 by (unfold account; by rewrite Hsame).
  destruct (Hl who) as [_ Hrefs Hprov _]. fold (account who l1) in Hrefs, Hprov. rewrite Hacc1 in Hrefs, Hprov.
  match goal with H : update_refs _ _ _ _ _ _ = Ok (_, ?l) |- _ => rename l into l2;
    apply update_refs_ok in H as (Hch & Hp2);
      [|done|intros Hx; apply Hprov; apply Z.leb_le in Hx; lia] end.
  assert (∀ b, default AccountData_default (if b : bool then None else Some d) =
    if b then AccountData_default else d) as Hst by by intros [].
  match goal with H : (if (free d <? ed) && _ then _ else _) _ = Ok (?x1, ?x2) |- _ =>
    assert (x1 = (v, dust_of d, if (free d <? ed) && (reserved d =? 0) then None else Some d)
      ∧ x2 = l2) as [-> ->] by (unfold dust_of; destruct ((free d <? ed) && (reserved d =? 0)); by minv); clear H end.
  simpl in *. minv. exists d, l1. split; [done|]. split; [done|].
  rewrite Hst in *. eapply write_stored; [done|done|exact Hch| |eassumption].
  intros Hed. by apply Hp2, Z.leb_le.
Qed.

Lemma try_mutate_account_ok {A} who f l (r : A) dust l' :
  chain_wf l → pure_update f →
  (∀ b v d, f (account who l) b l = Ok ((v, d), l) → data_wf d) →
  try_mutate_account who f l = Ok ((r, dust), l') →
  ∃ d, f (account who l) (bool_decide (account who l = AccountData_default)) l = Ok ((r, d), l) ∧
       dust = dust_of d ∧ same_else who l l' ∧ account who l' = stored d ∧ chain_wf l'.
Proof.
  intros Hl Hpure Hdata H. apply try_mutate_account_run in H as (d & l1 & Hf & Hrest); [|done|].
  - pose proof (Hpure _ _ _ _ _ Hf) as ->. eauto.
  - intros b v d l1 Hf. pose proof (Hpure _ _ _ _ _ Hf) as ->. eauto.
Qed.

(** ** Writing a balance *)

Lemma write_balance_ok who amount l dust l' :
  chain_wf l → 0 ≤ amount → amount + (account who l).(reserved) ≤ U128_MAX →
  write_balance who amount l = Ok (dust, l') →
  let d := mkAccountData amount (account who l).(reserved) (account who l).(frozen) in
  dust = dust_of d ∧ same_else who l l' ∧ account who l' = stored d ∧ chain_wf l'.
Proof.
  intros Hl Ha Hmax H. unfold write_balance in H. minv.
  match goal with H : try_mutate_account _ _ _ = Ok (?p, _) |- _ =>
    destruct p as [[] du]; simpl in *; rename H into Hm end.
  pose proof (account_wf who l Hl) as [].
  apply try_mutate_account_ok in Hm as (d & Hf & -> & Hs & Hacc & Hwf); [|done| |].
  - minv. by split_and!.
  - intros d b l0 r l1 Hf. by minv.
  - intros b v d Hf. minv. by split; simpl.
Qed.

Lemma bind_run {E S A B} (m : M E S A) (f : A → M E S B) s a s1 :
  m s = Ok (a, s1) → (m ≫= f) s = f a s1.
Proof. intros H. unfold mbind, M_bind. by rewrite H. Qed.

(** The reference counts always allow a balance to grow. *)
Lemma update_refs_up who dp c l :
  (c = true → 0 < (get_info who l).(consumers)) →
  ∃ l', update_refs who dp c true c l = Ok (tt, l').
Proof.
  intros Hc. unfold update_refs. rewrite andb_negb_r, (andb_comm (negb c) c), andb_negb_r.
  destruct dp; simpl.
  - exists l. unfold mbind, M_bind, when, gets, mret, M_ret. simpl.
    destruct c; simpl; [|done]. specialize (Hc eq_refl).
    by rewrite (proj2 (Z.eqb_neq _ _)) by lia.
  - unfold inc_providers. eexists. unfold mbind, M_bind, when, gets, mret, M_ret, modify. simpl.
    rewrite get_put_info. simpl.
    destruct c; simpl; [|done]. specialize (Hc eq_refl).
    by rewrite (proj2 (Z.eqb_neq _ _)) by lia.
Qed.

Lemma write_balance_up who amount l :
  chain_wf l → (account who l).(free) ≤ amount → ed ≤ amount →
  ∃ dust l', write_balance who amount l = Ok (dust, l').
Proof.
  intros Hl Hle Hed. destruct (Hl who) as [Hd Hrefs Hprov _]. fold (account who l) in *.
  assert (consumes (account who l) = true → 0 < (get_info who l).(consumers)) as Hcons.
  { intros Hc. rewrite Hc in Hrefs. eapply refs_wf_consumed, Hrefs. }
  assert (0 ≤ reducible_balance who Expendable true l) by apply saturating_sub_nonneg.
  unfold write_balance. erewrite bind_run by done.
  unfold try_mutate_account, try_mutate_exists.
  set (sd := if decide (account who l = AccountData_default) then None else Some (account who l)).
  assert (Hdef : default AccountData_default sd = account who l)
    by (unfold sd; destruct (decide _); naive_solver).
  assert (Hdid : negb (bool_decide (sd = None)) && consumes (account who l) = consumes (account who l)).
  { unfold sd. destruct (decide (account who l = AccountData_default)) as [Hx|]; [|done].
    by rewrite Hx. }
  destruct (update_refs_up who (ed <=? (account who l).(free)) (consumes (account who l)) l)
    as [l1 Hup]; [done|].
  unfold mbind, M_bind, gets. fold sd. rewrite Hdef, Hdid.
  unfold ensure. rewrite (proj2 (Z.leb_le _ _)) by ulia. unfold mret, M_ret. simpl.
  rewrite (proj2 (Z.leb_le ed amount)) by done.
  replace (consumes (mkAccountData amount (account who l).(reserved) (account who l).(frozen)))
    with (consumes (account who l)) by done.
  rewrite Hup, (proj2 (Z.ltb_ge amount ed)) by done. simpl.
  destruct (_ || _); unfold modify; eauto.
Qed.

Lemma handle_dust_accounts o l l' :
  match o with Some dust => handle_dust dust | None => mret tt end l = Ok (tt, l') →
  l'.(Account) = l.(Account) ∧ l'.(rest) = l.(rest).
Proof. intros H. destruct o; unfold handle_dust in H; minv; done. Qed.

(** ** Transfers *)

(** [l'] has the accounts of [l] but for the free balance of [who], which is
    [v], unless that is below the existential deposit of an account with
    nothing reserved. *)
Record free_set who (v : Z) l l' : Prop := {
  fs_rest : l'.(rest) = l.(rest);
  fs_else : ∀ x, x ≠ who → l'.(Account) !! x = l.(Account) !! x;
  fs_free : (account who l').(free) = v ∨ (v < ed ∧ (account who l').(free) = 0);
  fs_up : ed ≤ v → account who l' =
    mkAccountData v (account who l).(reserved) (account who l).(frozen);
  fs_reserved : (account who l').(reserved) = (account who l).(reserved);
  fs_wf : chain_wf l';
}.

Lemma stored_free_set who v l l1 l' :
  same_else who l l1 → chain_wf l1 →
  account who l1 = stored (mkAccountData v (account who l).(reserved) (account who l).(frozen)) →
  l'.(Account) = l1.(Account) → l'.(rest) = l1.(rest) → free_set who v l l'.
Proof.
  intros [] Hwf Hacc Ha Hr.
  assert (account who l' = account who l1) as Hsame by (unfold account, get_info; by rewrite Ha).
  split.
  - congruence.
  - intros x Hx. rewrite Ha. auto.
  - rewrite Hsame, Hacc. unfold stored. simpl.
    destruct (Z.ltb_spec v ed); simpl; [|auto]. destruct (_ =? 0); simpl; auto.
  - intros Hv. rewrite Hsame, Hacc. unfold stored. simpl.
    by rewrite (proj2 (Z.ltb_ge v ed)).
  - rewrite Hsame, Hacc. unfold stored. simpl.
    destruct (_ <? _), (Z.eqb_spec (account who l).(reserved) 0); simpl; congruence.
  - intros x. unfold get_info. rewrite Ha, Hr. apply Hwf.
Qed.

Lemma decrease_balance_ok who amount pres l b l' :
  chain_wf l → 0 ≤ amount ≤ reducible_balance who pres false l →
  decrease_balance who amount pres l = Ok (b, l') →
  b = amount ∧ amount ≤ (account who l).(free) ∧ free_set who ((account who l).(free) - amount) l l'.
Proof.
  intros Hl Ha H. unfold decrease_balance in H. minv.
  rewrite Z.min_l in * by lia. pose proof (account_wf who l Hl) as [].
  match goal with H : checked_sub _ _ = Some _ |- _ => apply checked_sub_Some in H as [? ->] end.
  match goal with H : write_balance _ _ _ = Ok _ |- _ => rename H into Hw end.
  apply write_balance_ok in Hw as (-> & Hs & Hacc & Hwf); [|done|lia|lia].
  match goal with H : _ = Ok (tt, _) |- _ => apply handle_dust_accounts in H as [? ?] end.
  split_and!; [ulia|done|]. by eapply stored_free_set.
Qed.

Lemma increase_balance_ok who amount l :
  chain_wf l → 0 < amount → ed ≤ (account who l).(free) + amount →
  (account who l).(reserved) + ((account who l).(free) + amount) ≤ U128_MAX →
  ∃ l', increase_balance who amount l = Ok (amount, l') ∧
        free_set who ((account who l).(free) + amount) l l'.
Proof.
  intros Hl Ha Hed Hmax. unfold increase_balance, mbind, M_bind, gets.
  pose proof (account_wf who l Hl) as [].
  rewrite saturating_add_exact by ulia.
  rewrite (proj2 (Z.ltb_ge _ _)), (proj2 (Z.eqb_neq _ _)) by lia.
  destruct (write_balance_up who ((account who l).(free) + amount) l) as (dust & l1 & Hw);
    [done|lia|done|]. rewrite Hw.
  apply write_balance_ok in Hw as (-> & Hs & Hacc & Hwf); [|done|lia|lia].
  set (o := dust_of _). rewrite saturating_sub_exact by lia.
  destruct (match o with Some dust => handle_dust dust | None => mret tt end l1)
    as [[[] l2]|] eqn:Hd; [|by destruct o].
  exists l2. split; [unfold mret, M_ret; do 2 f_equal; lia|].
  apply handle_dust_accounts in Hd as [? ?]. by eapply stored_free_set.
Qed.

Lemma can_deposit_ok who amount l :
  can_deposit who amount l = Ok tt → 0 < amount →
  ed ≤ (account who l).(free) + amount ∧
  (account who l).(reserved) + ((account who l).(free) + amount) ≤ U128_MAX.
Proof.
  unfold can_deposit. intros H Ha. rewrite (proj2 (Z.eqb_neq amount 0)) in H by lia.
  destruct (checked_add _ (free _) _) eqn:H1; [|done]. apply checked_add_Some in H1 as [? ->].
  destruct (_ <? ed) eqn:H2; [done|].
  destruct (checked_add _ (reserved _) _) eqn:H3; [|done]. apply checked_add_Some in H3 as [? _].
  bool_facts. lia.
Qed.

(** A withdrawal that is allowed takes no more than what is reducible. *)
Lemma can_withdraw_ok who amount keep l :
  can_withdraw who amount keep l = Ok tt → 0 < amount →
  amount ≤ (account who l).(free) ∧ amount ≤ reducible_balance who Expendable false l ∧
  (keep = true → ed ≤ (account who l).(free) - amount).
Proof.
  unfold can_withdraw. intros H Ha. rewrite (proj2 (Z.eqb_neq amount 0)) in H by lia.
  destruct (_ <? amount); [done|].
  destruct (checked_sub _ _) eqn:H1; [|done]. apply checked_sub_Some in H1 as [? ->].
  destruct (reducible_balance _ _ _ _ <? _) eqn:H2; [done|].
  destruct (_ && negb _); [done|]. destruct (_ <? frozen _); [done|].
  destruct ((_ <? ed) && keep) eqn:H3; [done|]. bool_facts. split_and!; try done.
  intros ->. rewrite andb_true_r in H3. by bool_facts.
Qed.

Lemma reducible_preserve who amount l :
  0 < amount → amount ≤ reducible_balance who Expendable false l →
  ed ≤ (account who l).(free) - amount → amount ≤ reducible_balance who Preserve false l.
Proof.
  unfold reducible_balance. intros Ha H1 H2. revert H1. destruct (_ && _); ulia.
Qed.

(** The free balances after [who]'s was set. *)
Lemma free_set_other who v l l' x : free_set who v l l' → x ≠ who → account x l' = account x l.
Proof. intros [] Hx. unfold account, get_info. by rewrite fs_else0. Qed.

Lemma free_set_reserved who v l l' x :
  free_set who v l l' → (account x l').(reserved) = (account x l).(reserved).
Proof.
  intros Hs. destruct (decide (x = who)) as [->|Hx]; [apply Hs|].
  by rewrite (free_set_other _ _ _ _ _ Hs).
Qed.

Lemma fungible_transfer_ok from to v pres l l' :
  chain_wf l → 0 < v → from ≠ to → pres ≠ Protect →
  fungible_transfer from to v pres l = Ok (tt, l') →
  chain_wf l' ∧ l'.(rest) = l.(rest) ∧
  moved (λ x, (account x l).(free)) (λ x, (account x l').(free)) ed from to v
    (bool_decide (pres = Preserve)) ∧
  (∀ x, (account x l').(reserved) = (account x l).(reserved)).
Proof.
  intros Hl Hv Hne Hpres H. unfold fungible_transfer in H. minv.
  rewrite (proj2 (Z.eqb_neq from to)) in * by done. minv.
  match goal with H : can_withdraw _ _ _ _ = _ |- _ =>
    apply can_withdraw_ok in H as (Henough & Hred & Hkeep); [|done] end.
  match goal with H : can_deposit _ _ _ = _ |- _ =>
    apply can_deposit_ok in H as [Hed Hmax]; [|done] end.
  assert (v ≤ reducible_balance from pres false l) as Hr.
  { destruct pres; [done|done|]. apply reducible_preserve; try done. by apply Hkeep. }
  match goal with H : decrease_balance _ _ _ _ = Ok (_, ?l0) |- _ =>
    rename l0 into l1; apply decrease_balance_ok in H as (-> & _ & H1); [|done|lia] end.
  pose proof (free_set_other _ _ _ _ to H1 ltac:(done)) as Hto.
  destruct (increase_balance_ok to v l1) as (l2 & Hinc & H2);
    [apply (fs_wf _ _ _ _ H1)|done|by rewrite Hto|by rewrite Hto|].
  rewrite Hto in H2.
  match goal with H : ignore_err _ _ = Ok _ |- _ =>
    unfold ignore_err in H; rewrite Hinc in H; injection H as <- end.
  pose proof (free_set_other _ _ _ _ from H2 ltac:(done)) as Hfrom.
  split_and!; [apply (fs_wf _ _ _ _ H2)|rewrite (fs_rest _ _ _ _ H2); apply (fs_rest _ _ _ _ H1)|..];
    [|by intros x; rewrite (free_set_reserved _ _ _ _ x H2), (free_set_reserved _ _ _ _ x H1)].
  split.
  - done.
  - rewrite (fs_up _ _ _ _ H2) by lia. done.
  - rewrite Hfrom. destruct (decide (pres = Preserve)) as [->|Hp].
    + left. specialize (Hkeep eq_refl). by rewrite (fs_up _ _ _ _ H1) by lia.
    + rewrite bool_decide_false by done. destruct (fs_free _ _ _ _ H1); [auto|right; tauto].
  - rewrite bool_decide_eq_true. intros ->. specialize (Hkeep eq_refl).
    rewrite Hfrom, (fs_up _ _ _ _ H1) by lia. done.
  - intros x Hx1 Hx2. by rewrite (free_set_other _ _ _ _ x H2), (free_set_other _ _ _ _ x H1).
Qed.

Lemma currency_transfer_ok from to v r l l' :
  chain_wf l → 0 < v → from ≠ to → currency_transfer from to v r l = Ok (tt, l') →
  chain_wf l' ∧ l'.(rest) = l.(rest) ∧
  moved (λ x, (account x l).(free)) (λ x, (account x l').(free)) ed from to v
    (bool_decide (r = KeepAlive)) ∧
  (∀ x, (account x l').(reserved) = (account x l).(reserved)).
Proof.
  intros Hl Hv Hne H. unfold currency_transfer in H.
  rewrite (proj2 (Z.eqb_neq v 0)), (proj2 (Z.eqb_neq from to)) in H by lia. simpl in H.
  destruct r; apply fungible_transfer_ok in H; done.
Qed.

Lemma currency_transfer_noop from to v r l l' :
  currency_transfer from to v r l = Ok (tt, l') → v = 0 ∨ from = to → l' = l.
Proof.
  intros H [->| ->]; unfold currency_transfer in H; rewrite Z.eqb_refl in H;
    [|rewrite orb_true_r in H]; simpl in H; by minv.
Qed.

(** [try_mutate_account_handling_dust] with a closure on the account alone. *)
Lemma handling_dust_ok {A} who f l (r : A) l' :
  chain_wf l → pure_update f →
  (∀ b v d, f (account who l) b l = Ok ((v, d), l) → data_wf d) →
  try_mutate_account_handling_dust who f l = Ok (r, l') →
  ∃ d, f (account who l) (bool_decide (account who l = AccountData_default)) l = Ok ((r, d), l) ∧
    l'.(rest) = l.(rest) ∧ (∀ x, x ≠ who → account x l' = account x l) ∧
    account who l' = stored d ∧ chain_wf l'.
Proof.
  intros Hl Hpure Hdata H. unfold try_mutate_account_handling_dust in H. minv.
  match goal with H : try_mutate_account _ _ _ = Ok (?p, ?l1) |- _ =>
    destruct p as [v du]; rename l1 into l2, H into Hm end.
  match goal with H : _ l2 = Ok (_, ?l3) |- _ => rename l3 into l', H into Hdust end.
  apply try_mutate_account_ok in Hm as (d & Hf & -> & Hs & Hacc & Hwf); [|done..]. simpl in *.
  exists d. split; [done|]. destruct Hs.
  assert (l'.(Account) = l2.(Account) ∧ l'.(rest) = l2.(rest)) as [Ha Hr].
  { unfold handle_raw_dust, handle_dust in Hdust. destruct (dust_of d); by minv. }
  assert (∀ x, get_info x l' = get_info x l2) as Hg by (intros; unfold get_info; by rewrite Ha).
  split_and!.
  - congruence.
  - intros x Hx. unfold account. rewrite Hg. unfold get_info. by rewrite se_accounts0.
  - unfold account. by rewrite Hg.
  - intros x. rewrite Hg, Hr. apply Hwf.
Qed.

(** What an account has free, kept at zero when it dies. *)
Lemma stored_cases d : stored d = d ∨ (d.(reserved) = 0 ∧ d.(free) < ed ∧ stored d = AccountData_default).
Proof.
  unfold stored. destruct (Z.ltb_spec d.(free) ed), (Z.eqb_spec d.(reserved) 0); simpl; auto.
Qed.

Lemma currency_reserve_ok who v l l' :
  chain_wf l → 0 < v → currency_reserve who v l = Ok (tt, l') →
  chain_wf l' ∧ l'.(rest) = l.(rest) ∧ (∀ x, x ≠ who → account x l' = account x l) ∧
  v ≤ (account who l).(free) ∧
  (account who l').(free) = (account who l).(free) - v ∧
  (account who l').(reserved) = (account who l).(reserved) + v.
Proof.
  intros Hl Hv H. unfold currency_reserve in H. rewrite (proj2 (Z.eqb_neq v 0)) in H by lia.
  pose proof (account_wf who l Hl) as Hd.
  apply handling_dust_ok in H as (d & Hf & Hr & Hx & Hacc & Hwf); [|done|..].
  - unfold ensure_can_withdraw in Hf. rewrite (proj2 (Z.eqb_neq v 0)) in Hf by lia. minv.
    match goal with H : checked_sub _ _ = Some _ |- _ => apply checked_sub_Some in H as [? ->] end.
    match goal with H : checked_add _ _ _ = Some _ |- _ => apply checked_add_Some in H as [? ->] end.
    destruct Hd. rewrite Hacc.
    match goal with |- context [stored ?d] =>
      destruct (stored_cases d) as [->|(Hz & _ & _)]; simpl in *; [|lia] end.
    split_and!; try done; lia.
  - intros d b l0 p l1 Hf. unfold ensure_can_withdraw in Hf.
    rewrite (proj2 (Z.eqb_neq v 0)) in Hf by lia. by minv.
  - intros b u d Hf. unfold ensure_can_withdraw in Hf.
    rewrite (proj2 (Z.eqb_neq v 0)) in Hf by lia. minv.
    match goal with H : checked_sub _ _ = Some _ |- _ => apply checked_sub_Some in H as [? ->] end.
    match goal with H : checked_add _ _ _ = Some _ |- _ => apply checked_add_Some in H as [? ->] end.
    destruct Hd. split; simpl; lia.
Qed.

Lemma currency_unreserve_ok who v l r l' :
  chain_wf l → 0 ≤ v → currency_unreserve who v l = (r, l') →
  chain_wf l' ∧ l'.(rest) = l.(rest) ∧ (∀ x, x ≠ who → account x l' = account x l) ∧
  (l' = l ∨ let actual := Z.min (account who l).(reserved) v in
   r = v - actual ∧ (account who l').(reserved) = (account who l).(reserved) - actual).
Proof.
  intros Hl Hv H. unfold currency_unreserve in H. destruct (Z.eqb_spec v 0); [by simplify_eq; auto|].
  destruct (_ =? 0); [by simplify_eq; auto|].
  destruct (try_mutate_account_handling_dust _ _ _) as [[actual l1]|] eqn:Hm; [|by simplify_eq; auto].
  simplify_eq. pose proof (account_wf who l Hl) as Hd.
  apply handling_dust_ok in Hm as (d & Hf & Hr & Hx & Hacc & Hwf); [|done|..].
  - injection Hf as <- <-. destruct Hd. split_and!; try done. right. split; [done|].
    rewrite Hacc. match goal with |- context [stored ?d] =>
      destruct (stored_cases d) as [->|(Hz & _ & ->)]; simpl in *; lia end.
  - intros d b l0 p l2 Hf. by injection Hf as _ <-.
  - intros b u d Hf. injection Hf as _ <-. destruct Hd. split; simpl; ulia.
Qed.

Lemma currency_withdraw_ok who v r l l' :
  chain_wf l → 0 < v → currency_withdraw who v r l = Ok (tt, l') →
  chain_wf l' ∧ l'.(rest) = l.(rest) ∧
  burnt (λ x, (account x l).(free)) (λ x, (account x l').(free)) ed who v ∧
  (r = KeepAlive → (account who l').(free) = (account who l).(free) - v) ∧
  (∀ x, (account x l').(reserved) = (account x l).(reserved)).
Proof.
  intros Hl Hv H. unfold currency_withdraw in H. rewrite (proj2 (Z.eqb_neq v 0)) in H by lia. minv.
  match goal with H : try_mutate_account_handling_dust _ _ _ = Ok (_, ?y) |- _ =>
    rename y into l1, H into Hm end.
  match goal with H : handle_dust _ _ = Ok _ |- _ =>
    apply (handle_dust_accounts (Some v)) in H as [Hacc1 Hr1] end.
  assert (∀ x, get_info x l' = get_info x l1) as Hg by (intros; unfold get_info; by rewrite Hacc1).
  pose proof (account_wf who l Hl) as Hd. pose proof (iw_alive _ _ _ (Hl who)) as Halive.
  fold (account who l) in Halive.
  apply handling_dust_ok in Hm as (d & Hf & Hr & Hx & Hacc & Hwf); [|done|..].
  - assert (v ≤ (account who l).(free) ∧
      d = mkAccountData ((account who l).(free) - v) (account who l).(reserved) (account who l).(frozen) ∧
      (r = KeepAlive → ed ≤ (account who l).(free) → ed ≤ (account who l).(free) - v))
      as (Hle & -> & Hkeep).
    { clear - Hf. minv. match goal with H : checked_sub _ _ = Some _ |- _ =>
        apply checked_sub_Some in H as [? ->] end.
      split_and!; try done. intros -> Hed. simpl in *. bool_facts. lia. }
    assert (account who l' = account who l1) as Hw by (unfold account; by rewrite Hg).
    assert (∀ x, x ≠ who → account x l' = account x l) as Hother
      by (intros x Hne; rewrite <- Hx by done; unfold account; by rewrite Hg).
    destruct Hd. split_and!; [intros x; rewrite Hg, Hr1; apply Hwf|congruence|..].
    + split; [done| |by intros x Hne; rewrite Hother].
      rewrite Hw, Hacc. match goal with |- context [stored ?d] =>
        destruct (stored_cases d) as [->|(Hz & Hlt & ->)]; simpl in *; [by left|right; lia] end.
    + intros ->. rewrite Hw, Hacc. match goal with |- context [stored ?d] =>
        destruct (stored_cases d) as [->|(Hz & Hlt & ->)]; simpl in *; [done|] end.
      specialize (Hkeep eq_refl). lia.
    + intros x. destruct (decide (x = who)) as [->|Hne]; [|by rewrite Hother].
      rewrite Hw, Hacc. match goal with |- context [stored ?d] =>
        destruct (stored_cases d) as [->|(Hz & Hlt & ->)]; simpl in *; congruence end.
  - intros d b l0 p l2 Hf. by minv.
  - intros b u d Hf. minv.
    match goal with H : checked_sub _ _ = Some _ |- _ => apply checked_sub_Some in H as [? ->] end.
    destruct Hd. split; simpl; lia.
Qed.
(** ** Moving reserved funds *)

(** What the beneficiary has after receiving [v]. *)
Definition received (status : BalanceStatus) (v : Balance) (d : AccountData) : AccountData :=
  match status with
  | FreeStatus => mkAccountData (d.(free) + v) d.(reserved) d.(frozen)
  | ReservedStatus => mkAccountData d.(free) (d.(reserved) + v) d.(frozen)
  end.

Lemma received_wf status v d :
  data_wf d → 0 ≤ v → d.(free) + d.(reserved) + v ≤ U128_MAX → data_wf (received status v d).
Proof. intros [] Hv Hmax. destruct status; split; simpl; lia. Qed.

Lemma stored_reserved d : (stored d).(reserved) = d.(reserved).
Proof. destruct (stored_cases d) as [->|(Hz & _ & ->)]; [done|]. by rewrite Hz. Qed.

(** The closure on the slashed account. *)
Lemma slash_account_ok from to_account v status l d dust l1 :
  chain_wf l → 0 ≤ v ≤ (account from l).(reserved) →
  try_mutate_account from (λ from_account _,
    to_account ← match status with
      | FreeStatus =>
          x ← ok_or (checked_add U128_MAX to_account.(free) v) (Arithmetic Overflow);
          mret (mkAccountData x to_account.(reserved) to_account.(frozen))
      | ReservedStatus =>
          x ← ok_or (checked_add U128_MAX to_account.(reserved) v) (Arithmetic Overflow);
          mret (mkAccountData to_account.(free) x to_account.(frozen))
      end;
    mret (to_account, mkAccountData from_account.(free)
      (saturating_sub from_account.(reserved) v) from_account.(frozen))) l = Ok ((d, dust), l1) →
  d = received status v to_account ∧ same_else from l l1 ∧ chain_wf l1 ∧
  (account from l1).(reserved) = (account from l).(reserved) - v.
Proof.
  intros Hl Hv H. pose proof (account_wf from l Hl) as Hd.
  assert (∀ x : option Balance, ∀ max a b, x = checked_add max a b → ∀ y, x = Some y → y = a + b) as Hadd
    by (intros x max a b -> y Hy; by apply checked_add_Some in Hy as [_ ->]).
  apply try_mutate_account_ok in H as (d' & Hf & _ & Hs & Hacc & Hwf); [|done|..].
  - destruct status; minv; rewrite Hacc, stored_reserved; simpl; unfold saturating_sub;
      (split_and!; [unfold received; f_equal; by eapply Hadd|done|done|lia]).
  - intros d0 b0 l0 p l2 Hf. destruct status; by minv.
  - intros b u d0 Hf. destruct Hd, status; minv; split; simpl; unfold saturating_sub; lia.
Qed.

Lemma handle_raw_dust_opt (o : option Balance) l u l' :
  match o with Some dust => handle_raw_dust dust | None => mret tt end l = Ok (u, l') →
  (∀ x, get_info x l' = get_info x l) ∧ l'.(rest) = l.(rest).
Proof.
  intros H. assert (l'.(Account) = l.(Account) ∧ l'.(rest) = l.(rest)) as [Ha Hr].
  { unfold handle_raw_dust, handle_dust in H. destruct o; by minv. }
  split; [|done]. intros x. unfold get_info. by rewrite Ha.
Qed.

(** An account that receives keeps what it has. *)
Lemma received_free status v l to :
  chain_wf l → 0 ≤ v → (account to l).(free) ≤ (stored (received status v (account to l))).(free).
Proof.
  intros Hl Hv. destruct (Hl to) as [_ _ _ Halive]. pose proof (account_wf to l Hl) as [].
  fold (account to l) in Halive. unfold stored.
  destruct status; simpl; destruct (_ && _) eqn:Hb; simpl; try lia; bool_facts; rewrite Halive; lia.
Qed.

(** The reserve of the slashed account falls by at most [v], no other falls. *)
Lemma do_transfer_reserved_ok from to v status l r l' :
  chain_wf l → 0 ≤ v →
  (from ≠ to → (account to l).(free) + (account to l).(reserved) + (account from l).(reserved) ≤ U128_MAX) →
  do_transfer_reserved from to v status l = Ok (r, l') →
  chain_wf l' ∧ l'.(rest) = l.(rest) ∧
  (account from l).(reserved) - v ≤ (account from l').(reserved) ∧
  (∀ x, x ≠ from → (account x l).(reserved) ≤ (account x l').(reserved) ∧
     (account x l).(free) ≤ (account x l').(free)) ∧
  (from = to → status = ReservedStatus → l' = l) ∧
  (∀ x, x ≠ from → x ≠ to → account x l' = account x l).
Proof.
  intros Hl Hv Hmax H. unfold do_transfer_reserved in H. pose proof (account_wf from l Hl) as Hd.
  destruct (Z.eqb_spec v 0); [minv; split_and!; [done|done|lia|lia|done|done]|]. minv.
  unfold reducible_total_balance_on_hold in *.
  set (actual := Z.min v _) in *.
  assert (0 ≤ actual ≤ v ∧ actual ≤ (account from l).(reserved)) as [Hact Hres]
    by (destruct Hd; unfold actual, saturating_sub; lia). clearbody actual.
  destruct (Z.eqb_spec from to) as [->|Hne].
  - destruct status; minv; [|split_and!; [done|done|lia|done|done|done]].
    match goal with H : currency_unreserve _ _ _ = _ |- _ =>
      apply currency_unreserve_ok in H as (Hwf & Hr & Hx & Hcase); [|done|lia] end.
    split_and!; [done|done| |intros y Hy; by rewrite Hx|done|auto].
    destruct Hcase as [->|[_ ->]]; lia.
  - specialize (Hmax Hne). minv. match goal with H : try_mutate_account to _ _ = Ok (?p, ?y) |- _ =>
      destruct p as [du1 du2]; rename y into l2, H into Hm end. simpl in *.
    repeat match goal with H : match _ with Some _ => _ | None => _ end _ = Ok _ |- _ =>
      apply handle_raw_dust_opt in H as [? ?] end.
    apply try_mutate_account_run in Hm as (d & l1 & Hf & _ & [_ Hr Hs] & Hacc & Hwf); [|done|].
    + minv. match goal with H : try_mutate_account from _ _ = Ok (?p, ?y) |- _ =>
        rename y into lm; destruct p as [d1 du]; apply slash_account_ok in H as (-> & Hs1 & Hwf1 & Hres1); [|done|lia] end.
      simpl in *. match goal with |- chain_wf ?y ∧ _ => rename y into l3 end.
      assert (∀ x, get_info x l3 = get_info x l2) as Hg by congruence.
      assert (∀ x, account x l3 = account x l2) as Ha by (intros; unfold account; by rewrite Hg).
      assert (∀ x, x ≠ to → account x l2 = account x lm) as Ha2
        by (intros; unfold account, get_info; by rewrite Hs).
      assert (l3.(rest) = l2.(rest)) as Hr3 by congruence.
      split_and!; [intros x; rewrite Hg, Hr3; apply Hwf| |rewrite Ha, Ha2, Hres1; [lia|done]|..].
      * destruct Hs1. congruence.
      * intros x Hx. rewrite Ha. destruct (decide (x = to)) as [->|Hxt].
        -- split; [|rewrite Hacc; by apply received_free].
           rewrite Hacc, stored_reserved. destruct status; simpl; lia.
        -- by rewrite Ha2, (account_else from l lm) by done.
      * done.
      * intros x Hx Hxt. by rewrite Ha, Ha2, (account_else from l lm) by done.
    + intros b u d l1 Hf. minv. match goal with H : try_mutate_account from _ _ = Ok (?p, _) |- _ =>
        destruct p as [d1 du]; apply slash_account_ok in H as (-> & Hs1 & Hwf1 & Hres1); [|done|lia] end.
      simpl. split_and!; [apply received_wf; [by apply account_wf|lia..]|done|].
      by apply (get_info_else from l).
Qed.
End laws.
