(* ===== verification/Assets.v ===== *)
(** * pallet-assets

    The parts of pallet-assets the pallets reach through [fungibles]
    (src/substrate/frame/assets/src/*.rs together with the default methods of
    fungibles/regular.rs), with the runtime's [Freezer = ()] and [Extra = ()]:
    nothing is frozen in part and an account carries no extra data. *)

From S2P Require Import Prelude Arith Errors Frame Balances.
Import AssetsErrors.

(** ** Data *)

Inductive AssetStatus := Live | FrozenAsset | Destroying.

Inductive ExistenceReason :=
| Consumer
| Sufficient
| DepositHeld (deposit : Balance)
| DepositRefunded
| DepositFrom (depositor : AccountId) (deposit : Balance).

Inductive AccountStatus := Liquid | FrozenAccount | BlockedAccount.

#[global] Instance AssetStatus_eq_dec : EqDecision AssetStatus.
Proof. solve_decision. Defined.
#[global] Instance ExistenceReason_eq_dec : EqDecision ExistenceReason.
Proof. solve_decision. Defined.
#[global] Instance AccountStatus_eq_dec : EqDecision AccountStatus.
Proof. solve_decision. Defined.

Definition is_frozen (s : AccountStatus) : bool :=
  match s with FrozenAccount | BlockedAccount => true | Liquid => false end.
Definition is_blocked (s : AccountStatus) : bool :=
  match s with BlockedAccount => true | _ => false end.

Record AssetDetails := mkAssetDetails {
  owner : AccountId;
  issuer : AccountId;
  admin : AccountId;
  freezer : AccountId;
  supply : Balance;
  deposit : Balance;
  min_balance : Balance;
  is_sufficient : bool;
  accounts : Z;
  asset_sufficients : Z;
  approvals : Z;
  asset_status : AssetStatus;
}.

Record AssetAccount := mkAssetAccount {
  balance : Balance;
  account_status : AccountStatus;
  reason : ExistenceReason;
}.

Definition set_supply (x : Balance) (d : AssetDetails) : AssetDetails :=
  mkAssetDetails d.(owner) d.(issuer) d.(admin) d.(freezer) x d.(deposit) d.(min_balance)
    d.(is_sufficient) d.(accounts) d.(asset_sufficients) d.(approvals) d.(asset_status).
Definition set_counts (n s : Z) (d : AssetDetails) : AssetDetails :=
  mkAssetDetails d.(owner) d.(issuer) d.(admin) d.(freezer) d.(supply) d.(deposit)
    d.(min_balance) d.(is_sufficient) n s d.(approvals) d.(asset_status).
Definition set_balance (x : Balance) (a : AssetAccount) : AssetAccount :=
  mkAssetAccount x a.(account_status) a.(reason).

(** The storage of the pallet inside the rest of the chain. *)
Record AssetsState (Q : Type) := mkAssetsState {
  Asset : gmap Z AssetDetails;
  AssetAccounts : gmap (Z * AccountId) AssetAccount;
  others : Q;
}.
Arguments mkAssetsState {_} _ _ _.
Arguments Asset {_} _.
Arguments AssetAccounts {_} _.
Arguments others {_} _.

Inductive DeadConsequence := Remove | Keep.

Record DebitFlags := mkDebitFlags { keep_alive : bool; best_effort : bool }.

Section assets.
Context {Q : Type} {T : BalancesConfig}.
Abbreviation Ch := (Chain (AssetsState Q)).
Abbreviation L A := (M DispatchError Ch A).
Implicit Types (l : Ch) (id : Z) (who : AccountId).

Definition aerr (e : AssetsError) : DispatchError := Module_ (InAssets e).

Definition set_rest (f : AssetsState Q → AssetsState Q) l : Ch :=
  mkChain l.(Account) l.(TotalIssuance) (f l.(rest)).
Definition put_asset id (d : AssetDetails) : Ch → Ch :=
  set_rest (λ r, mkAssetsState (<[id := d]> r.(Asset)) r.(AssetAccounts) r.(others)).
Definition put_account id who (a : AssetAccount) : Ch → Ch :=
  set_rest (λ r, mkAssetsState r.(Asset) (<[(id, who) := a]> r.(AssetAccounts)) r.(others)).
Definition remove_account id who : Ch → Ch :=
  set_rest (λ r, mkAssetsState r.(Asset) (delete (id, who) r.(AssetAccounts)) r.(others)).

Definition get_asset id l : option AssetDetails := l.(rest).(Asset) !! id.
Definition get_account id who l : option AssetAccount := l.(rest).(AssetAccounts) !! (id, who).

(** ** Accounts of an asset *)

Definition new_account who (d : AssetDetails) : L (ExistenceReason * AssetDetails) :=
  n ← ok_or (checked_add U32_MAX d.(accounts) 1) (Arithmetic Overflow);
  if d.(is_sufficient) then
    inc_sufficients who ;;
    mret (Sufficient, set_counts n (saturating_add U32_MAX d.(asset_sufficients) 1) d)
  else
    (λ l, map_err (λ _, aerr UnavailableConsumer) (inc_consumers who l)) ;;
    ok ← gets (can_inc_consumer who);
    if (ok : bool) then mret (Consumer, set_counts n d.(asset_sufficients) d)
    else dec_consumers who ;; fail (aerr UnavailableConsumer).

Definition dead_account who (d : AssetDetails) (reason : ExistenceReason) (force : bool)
    : L (DeadConsequence * AssetDetails) :=
  let gone d := set_counts (saturating_sub d.(accounts) 1) d.(asset_sufficients) d in
  match reason with
  | Consumer => dec_consumers who ;; mret (Remove, gone d)
  | Sufficient =>
      dec_sufficients who ;;
      mret (Remove, gone (set_counts d.(accounts) (saturating_sub d.(asset_sufficients) 1) d))
  | DepositRefunded => mret (Remove, gone d)
  | DepositHeld _ | DepositFrom _ _ => if force then mret (Remove, gone d) else mret (Keep, d)
  end.

Definition can_accrue_consumers who (amount : Z) l : bool :=
  let a := get_info who l in
  match checked_add U32_MAX a.(consumers) amount with
  | Some c => (0 <? a.(providers)) && (c <=? MaxConsumers)
  | None => false
  end.

(** [can_increase(...).into_result()] *)
Definition can_increase id who (amount : Balance) (increase_supply : bool) l
    : result DispatchError unit :=
  match get_asset id l with
  | None => Err (Token UnknownAsset)
  | Some d =>
      if increase_supply && bool_decide (checked_add U128_MAX d.(supply) amount = None)
      then Err (Arithmetic Overflow)
      else match get_account id who l with
      | Some a =>
          if is_blocked a.(account_status) then Err (Token Blocked)
          else match checked_add U128_MAX a.(balance) amount with
               | None => Err (Arithmetic Overflow)
               | Some _ => Ok tt
               end
      | None =>
          if amount <? d.(min_balance) then Err (Token BelowMinimum)
          else if negb d.(is_sufficient) && negb (can_accrue_consumers who 2 l)
          then Err (Token CannotCreate)
          else if d.(is_sufficient)
                  && bool_decide (checked_add U32_MAX d.(asset_sufficients) 1 = None)
          then Err (Arithmetic Overflow)
          else Ok tt
      end
  end.

(** [can_decrease(id, who, amount, keep_alive).into_result(keep_nonzero)]: the
    value is the dust that goes with the debit. *)
Definition can_decrease id who (amount : Balance) (keep_alive keep_nonzero : bool) l
    : result DispatchError Balance :=
  match get_asset id l with
  | None => Err (Token UnknownAsset)
  | Some d =>
      match checked_sub d.(supply) amount with
      | None => Err (Arithmetic Underflow)
      | Some _ =>
          if bool_decide (d.(asset_status) = FrozenAsset) then Err (Token TokenFrozen)
          else if amount =? 0 then Ok 0
          else match get_account id who l with
          | None => Err (Token FundsUnavailable)
          | Some a =>
              if is_frozen a.(account_status) then Err (Token TokenFrozen)
              else match checked_sub a.(balance) amount with
                   | None => Err (Token FundsUnavailable)
                   | Some rest =>
                       if rest <? d.(min_balance) then
                         if keep_alive then Err (Token OnlyProvider)
                         else if keep_nonzero then Err (Token NotExpendable)
                         else Ok rest
                       else Ok 0
                   end
          end
      end
  end.

Definition asset_reducible_balance id who (keep_alive : bool) l : result DispatchError Balance :=
  match get_asset id l with
  | None => Err (aerr Unknown)
  | Some d =>
      if negb (bool_decide (d.(asset_status) = Live)) then Err (aerr AssetNotLive)
      else match get_account id who l with
      | None => Err (aerr NoAccount)
      | Some a =>
          if is_frozen a.(account_status) then Err (aerr Frozen)
          else
            let amount := if keep_alive then saturating_sub a.(balance) d.(min_balance)
                          else a.(balance) in
            Ok (Z.min amount d.(supply))
      end
  end.

Definition prep_debit id who (amount : Balance) (f : DebitFlags) : L Balance :=
  r ← gets (asset_reducible_balance id who f.(keep_alive));
  reducible ← of_result r;
  let actual := Z.min reducible amount in
  ensure (f.(best_effort) || (amount <=? actual)) (aerr BalanceLow) ;;
  r ← gets (can_decrease id who actual f.(keep_alive) f.(keep_alive));
  dust ← of_result r;
  mret (saturating_add U128_MAX actual dust).

(** ** Balances of an asset *)

Definition asset_increase_balance id who (amount : Balance)
    (check : AssetDetails → result DispatchError AssetDetails) : L unit :=
  if amount =? 0 then mret tt
  else
    r ← gets (can_increase id who amount true);
    of_result r ;;
    o ← gets (get_asset id);
    d ← ok_or o (aerr Unknown);
    ensure (bool_decide (d.(asset_status) = Live)) (aerr AssetNotLive) ;;
    d ← of_result (check d);
    o ← gets (get_account id who);
    match o with
    | Some a =>
        modify (put_account id who (set_balance (saturating_add U128_MAX a.(balance) amount) a)) ;;
        modify (put_asset id d)
    | None =>
        ensure (d.(min_balance) <=? amount) (Token BelowMinimum) ;;
        r ← new_account who d;
        modify (put_account id who (mkAssetAccount amount Liquid r.1)) ;;
        modify (put_asset id r.2)
    end.

Definition asset_decrease_balance id who (amount : Balance) (f : DebitFlags)
    (check : Balance → AssetDetails → result DispatchError AssetDetails) : L Balance :=
  if amount =? 0 then mret amount
  else
    o ← gets (get_asset id);
    d ← ok_or o (aerr Unknown);
    ensure (bool_decide (d.(asset_status) = Live)) (aerr AssetNotLive) ;;
    actual ← prep_debit id who amount f;
    d ← of_result (check actual d);
    o ← gets (get_account id who);
    a ← ok_or o (aerr NoAccount);
    let a := set_balance (saturating_sub a.(balance) actual) a in
    (if a.(balance) <? d.(min_balance) then
       r ← dead_account who d a.(reason) false;
       match r.1 with
       | Remove => modify (remove_account id who)
       | Keep => modify (put_account id who a)
       end ;;
       modify (put_asset id r.2)
     else modify (put_account id who a) ;; modify (put_asset id d)) ;;
    mret actual.

Definition do_mint id who (amount : Balance) (maybe_check_issuer : option AccountId) : L unit :=
  asset_increase_balance id who amount (λ d,
    if match maybe_check_issuer with Some i => i =? d.(issuer) | None => true end
    then Ok (set_supply (saturating_add U128_MAX d.(supply) amount) d)
    else Err (aerr NoPermission)).

Definition do_burn id who (amount : Balance) (maybe_check_admin : option AccountId)
    (f : DebitFlags) : L Balance :=
  o ← gets (get_asset id);
  d ← ok_or o (aerr Unknown);
  ensure (bool_decide (d.(asset_status) = Live) || bool_decide (d.(asset_status) = FrozenAsset))
    (aerr IncorrectStatus) ;;
  asset_decrease_balance id who amount f (λ actual d,
    if match maybe_check_admin with Some x => x =? d.(admin) | None => true end
    then Ok (set_supply (saturating_sub d.(supply) actual) d)
    else Err (aerr NoPermission)).

(** ** [fungibles] *)

Definition asset_total_issuance id l : Balance :=
  match get_asset id l with Some d => d.(supply) | None => 0 end.
Definition asset_min_balance id l : Balance :=
  match get_asset id l with Some d => d.(min_balance) | None => 0 end.
Definition asset_balance_of id who l : Balance :=
  match get_account id who l with Some a => a.(balance) | None => 0 end.

Definition set_total_issuance id (amount : Balance) : L unit :=
  o ← gets (get_asset id);
  match o with
  | Some d => modify (put_asset id (set_supply amount d))
  | None => mret tt
  end.

(** [fungibles::Mutate::burn_from] *)
Definition burn_from id who (amount : Balance) (preservation : Preservation) (exact : bool)
    : L Balance :=
  let keep := bool_decide (preservation ≠ Expendable) in
  r ← gets (asset_reducible_balance id who keep);
  let reducible := match r with Ok x => x | Err _ => 0 end in
  let actual := Z.min reducible amount in
  ensure ((actual =? amount) || negb exact) (Token FundsUnavailable) ;;
  issuance ← gets (asset_total_issuance id);
  ok_or (checked_sub issuance actual) (Arithmetic Overflow) ;;
  actual ← asset_decrease_balance id who actual (mkDebitFlags keep true) (λ _ d, Ok d);
  issuance ← gets (asset_total_issuance id);
  set_total_issuance id (saturating_sub issuance actual) ;;
  mret actual.

(** [fungibles::Mutate::transfer] *)
Definition fungibles_transfer id (source dest : AccountId) (amount : Balance)
    (preservation : Preservation) : L Balance :=
  let keep := bool_decide (preservation ≠ Expendable) in
  r ← gets (can_decrease id source amount false keep);
  of_result r ;;
  r ← gets (can_increase id dest amount false);
  of_result r ;;
  if source =? dest then mret amount
  else
    asset_decrease_balance id source amount (mkDebitFlags keep true) (λ _ d, Ok d) ;;
    ignore_err (asset_increase_balance id dest amount (λ d, Ok d)) ;;
    mret amount.
End assets.
