(* ===== verification/AssetsLaws.v ===== *)
(** * pallet-assets: the laws of the fungibles

    The invariant of the ledger, accounts and assets together, and what a
    transfer or a burn of an asset does to it. *)

From S2P Require Import Prelude Arith Errors Frame Balances BalancesLaws Assets.

(** ** The invariant *)

Section wf.
Context {Q : Type} {T : BalancesConfig}.
Abbreviation Ch := (Chain (AssetsState Q)).
Implicit Types (l : Ch) (r : AssetsState Q) (id : Z) (who x : AccountId) (k : nat).

(** Whether an asset-account exists for the reason [why]. *)
Definition exists_by (why : ExistenceReason) (a : AssetAccount) : Z :=
  if decide (a.(reason) = why) then 1 else 0.

(** The references pallet-assets holds on [who]. *)
Definition held_by (why : ExistenceReason) r who : Z :=
  map_sum (λ (p : Z * AccountId) a, if p.2 =? who then exists_by why a else 0) r.(AssetAccounts).

Record asset_wf k (d : AssetDetails) : Prop := {
  aw_supply : 0 ≤ d.(supply);
  aw_supply_room : 2 * d.(supply) ≤ U128_MAX;
  aw_min_balance : 0 ≤ d.(min_balance);
  aw_accounts : 0 ≤ d.(accounts) ≤ U32_MAX - Z.of_nat k;
  aw_sufficients : 0 ≤ d.(asset_sufficients) ≤ U32_MAX - Z.of_nat k;
}.

(** [k] more asset-accounts can be opened before a counter is full. *)
Record ledger_wf k l : Prop := {
  lw_room : (k ≤ 1000)%nat;
  lw_chain : chain_wf (held_by Consumer) (held_by Sufficient) k l;
  lw_assets : ∀ id d, get_asset id l = Some d → asset_wf k d;
  lw_balances : ∀ id who a, get_account id who l = Some a → fits U128_MAX a.(balance);
}.

Definition held_at (why : ExistenceReason) (o : option AssetAccount) : Z :=
  match o with Some a => exists_by why a | None => 0 end.

Lemma exists_by_range why a : 0 ≤ exists_by why a ≤ 1.
Proof. unfold exists_by. case_decide; lia. Qed.

Lemma held_by_nonneg why r who : 0 ≤ held_by why r who.
Proof.
  apply map_sum_nonneg. intros p a _. pose proof (exists_by_range why a).
  destruct (_ =? _); lia.
Qed.

(** One asset-account changes to [o]. *)
Lemma held_by_alter why r r' id who x o :
  r'.(AssetAccounts) = partial_alter (λ _, o) (id, who) r.(AssetAccounts) →
  held_by why r' x = held_by why r x +
    (if x =? who then held_at why o - held_at why (r.(AssetAccounts) !! (id, who)) else 0).
Proof.
  intros Hr. unfold held_by. rewrite Hr. destruct o as [a|].
  - change (partial_alter (λ _, Some a) (id, who) r.(AssetAccounts))
      with (<[(id, who) := a]> r.(AssetAccounts)).
    rewrite map_sum_insert. unfold at_key. simpl. rewrite (Z.eqb_sym x who).
    destruct (_ !! _); simpl; destruct (who =? x); lia.
  - change (partial_alter (λ _, None) (id, who) r.(AssetAccounts))
      with (delete (id, who) r.(AssetAccounts)).
    rewrite map_sum_remove. unfold at_key. simpl. rewrite (Z.eqb_sym x who).
    destruct (_ !! _); simpl; destruct (who =? x); lia.
Qed.

(** ** Changes of one asset-account *)

(** [l'] is [l] with the account [(id, who)] changed to [o]; the counters of
    the asset and the references on [who] follow. *)
Record account_change id who (o : option AssetAccount) l l' : Prop := {
  ac_others : l'.(rest).(others) = l.(rest).(others);
  ac_accounts : l'.(rest).(AssetAccounts) = partial_alter (λ _, o) (id, who) l.(rest).(AssetAccounts);
  ac_assets : ∀ id', id' ≠ id → get_asset id' l' = get_asset id' l;
  ac_asset : ∀ d, get_asset id l = Some d → ∃ n s, get_asset id l' = Some (set_counts n s d);
  ac_info : ∀ x, x ≠ who → get_info x l' = get_info x l;
  ac_data : account who l' = account who l;
}.

Lemma account_change_account id who o l l' x :
  account_change id who o l l' → account x l' = account x l.
Proof.
  intros []. destruct (decide (x = who)) as [->|]; [done|]. unfold account. by rewrite ac_info0.
Qed.

Lemma account_change_get id who o l l' id' x :
  account_change id who o l l' →
  get_account id' x l' = if decide ((id', x) = (id, who)) then o else get_account id' x l.
Proof.
  intros []. unfold get_account. rewrite ac_accounts0.
  destruct (decide _) as [->|Hne]; [apply lookup_partial_alter_eq|].
  rewrite lookup_partial_alter_ne; done.
Qed.

(** The counters agree with the change. *)
Record refs_follow (k' : nat) who (o o' : option AssetAccount) (i i' : AccountInfo) : Prop := {
  rf_consumers : i.(consumers) - held_at Consumer o ≤ i'.(consumers) - held_at Consumer o';
  rf_sufficients : i.(sufficients) - held_at Sufficient o ≤ i'.(sufficients) - held_at Sufficient o';
  rf_room : i'.(sufficients) ≤ U32_MAX - Z.of_nat k';
  rf_providers : i'.(providers) = i.(providers);
  rf_provided : 0 < i'.(consumers) → 0 < i.(providers);
}.

Lemma ledger_wf_change k k' id who o l l' :
  ledger_wf k l → (k' ≤ k)%nat → account_change id who o l l' →
  refs_follow k' who (get_account id who l) o (get_info who l) (get_info who l') →
  (∀ d, get_asset id l' = Some d → asset_wf k' d) →
  (∀ a, o = Some a → fits U128_MAX a.(balance)) →
  ledger_wf k' l'.
Proof.
  intros [Hroom Hch Has Hbal] Hk Hac Hrf Hd Ho. split.
  - lia.
  - intros x. destruct (Hch x) as [Hdw Hrw Hpr].
    pose proof (held_by_alter Consumer _ _ _ _ x _ (ac_accounts _ _ _ _ _ Hac)) as Hc.
    pose proof (held_by_alter Sufficient _ _ _ _ x _ (ac_accounts _ _ _ _ _ Hac)) as Hs.
    destruct (Z.eqb_spec x who) as [->|Hne].
    + destruct Hrf. fold (account who l) in *.
      split; fold (account who l'); rewrite (ac_data _ _ _ _ _ Hac), ?rf_providers0; try done.
      destruct Hrw. unfold get_account in *. split; rewrite ?rf_providers0; try done; lia.
    + rewrite (ac_info _ _ _ _ _ Hac x Hne). split; try done.
      destruct Hrw. split; try done; lia.
  - intros id' d Hg. destruct (decide (id' = id)) as [->|Hne]; [by apply Hd|].
    rewrite (ac_assets _ _ _ _ _ Hac) in Hg by done. destruct (Has _ _ Hg). split; try done; lia.
  - intros id' x a. rewrite (account_change_get _ _ _ _ _ id' x Hac).
    destruct (decide _); [auto|eauto].
Qed.

Lemma held_at_le why id who l :
  held_at why (get_account id who l) ≤ held_by why l.(rest) who.
Proof.
  pose proof (held_by_nonneg why l.(rest) who).
  unfold get_account. destruct (_ !! _) as [a|] eqn:Ha; simpl; [|done].
  pose proof (map_sum_lookup_le
    (λ (p : Z * AccountId) a, if p.2 =? who then exists_by why a else 0) _ _ _
    ltac:(intros p b _; pose proof (exists_by_range why b); simpl; destruct (_ =? _); lia) Ha) as Hle.
  simpl in Hle. by rewrite Z.eqb_refl in Hle.
Qed.

Lemma get_info_put who i l x :
  get_info x (put_info who i l) = if decide (x = who) then i else get_info x l.
Proof.
  destruct (decide (x = who)) as [->|Hne].
  - unfold get_info. simpl. by rewrite lookup_insert_eq.
  - unfold get_info. simpl. by rewrite lookup_insert_ne.
Qed.

Lemma get_info_remove who l x :
  get_info x (remove_info who l) = if decide (x = who) then AccountInfo_default else get_info x l.
Proof.
  destruct (decide (x = who)) as [->|Hne].
  - unfold get_info. simpl. by rewrite lookup_delete_eq.
  - unfold get_info. simpl. by rewrite lookup_delete_ne.
Qed.

(** What giving back the reference of a dying account does: the references
    follow the removal, the data stay. *)
Record refs_moved k who (o o' : option AssetAccount) l l' : Prop := {
  rm_rest : l'.(rest) = l.(rest);
  rm_info : ∀ x, x ≠ who → get_info x l' = get_info x l;
  rm_data : account who l' = account who l;
  rm_follow : refs_follow k who o o' (get_info who l) (get_info who l');
}.

Lemma refs_moved_refl k who o o' l :
  ledger_wf k l → held_at Consumer o = held_at Consumer o' →
  held_at Sufficient o = held_at Sufficient o' → refs_moved k who o o' l l.
Proof.
  intros Hl Hc Hs. destruct (lw_chain _ _ Hl who) as [_ [] _].
  split; try done. split; try done; lia.
Qed.

Lemma dec_consumers_moved k id who a l u l' :
  ledger_wf k l → get_account id who l = Some a → a.(reason) = Consumer →
  dec_consumers who l = Ok (u, l') → refs_moved k who (Some a) None l l'.
Proof.
  intros Hl Ha Hr H. unfold dec_consumers in H. minv.
  destruct (lw_chain _ _ Hl who) as [_ [] _].
  pose proof (held_at_le Consumer id who l) as Hle. rewrite Ha in Hle. simpl in Hle.
  assert (exists_by Consumer a = 1) as He by (unfold exists_by; by rewrite decide_True).
  assert (exists_by Sufficient a = 0) as He'
    by (unfold exists_by; rewrite Hr, decide_False; done).
  assert (0 < (get_info who l).(consumers)) by (destruct (consumes _); simpl in *; lia).
  rewrite (proj2 (Z.ltb_lt _ _)) by done.
  split; try done.
  - intros x Hx. rewrite get_info_put. by rewrite decide_False.
  - unfold account. rewrite get_info_put. by rewrite decide_True.
  - rewrite get_info_put, decide_True by done. split; simpl; rewrite ?He, ?He'; try done; try lia.
Qed.

Lemma dec_sufficients_moved k id who a l u l' :
  ledger_wf k l → get_account id who l = Some a → a.(reason) = Sufficient →
  dec_sufficients who l = Ok (u, l') → refs_moved k who (Some a) None l l'.
Proof.
  intros Hl Ha Hr H. unfold dec_sufficients in H. minv.
  destruct (lw_chain _ _ Hl who) as [Hdw [] Hpr].
  pose proof (held_at_le Sufficient id who l) as Hle. rewrite Ha in Hle. simpl in Hle.
  pose proof (held_by_nonneg Consumer l.(rest) who) as Hc0.
  assert (exists_by Sufficient a = 1) as He by (unfold exists_by; by rewrite decide_True).
  assert (exists_by Consumer a = 0) as He' by (unfold exists_by; rewrite Hr, decide_False; done).
  unfold get_info in *.
  destruct (l.(Account) !! who) as [i|] eqn:Hi; simpl in *; [|lia].
  destruct ((_ || _) && _) eqn:Hdead; minv; bool_facts.
  - assert (i.(consumers) = 0) as Hi0 by (destruct (consumes _); simpl in *; lia).
    assert (i.(data) = AccountData_default) as Hdef.
    { destruct (consumes i.(data)) eqn:Hcons; simpl in *; [lia|].
      unfold consumes in Hcons. bool_facts. destruct Hdw, (i.(data)) as [f rs fr]; simpl in *. f_equal; lia. }
    split; try done.
    + intros x Hx. rewrite get_info_remove. by rewrite decide_False.
    + unfold account. rewrite get_info_remove, decide_True by done. unfold get_info. by rewrite Hi.
    + rewrite get_info_remove, decide_True by done. unfold get_info. rewrite Hi. simpl.
      apply orb_true_iff in H as [H|H]; bool_facts; split; simpl; try lia.
  - rewrite wrap_small by ulia. split; try done.
    + intros x Hx. rewrite get_info_put. by rewrite decide_False.
    + unfold account. rewrite get_info_put, decide_True by done. unfold get_info. by rewrite Hi.
    + rewrite get_info_put, decide_True by done. unfold get_info. rewrite Hi. simpl.
      split; simpl; try done; lia.
Qed.

Lemma dead_account_ok k id who d a c d' l l' :
  ledger_wf k l → get_account id who l = Some a → asset_wf k d →
  dead_account who d a.(reason) false l = Ok ((c, d'), l') →
  (∃ n s, d' = set_counts n s d) ∧ asset_wf k d' ∧
  refs_moved k who (Some a) (match c with Remove => None | Keep => Some a end) l l'.
Proof.
  intros Hl Ha Hd H. unfold dead_account in H.
  assert (∀ s, 0 ≤ s ≤ d.(asset_sufficients) →
    asset_wf k (set_counts (saturating_sub d.(accounts) 1) s d)) as Hgone.
  { intros s Hs. destruct Hd. split; simpl; try done; ulia. }
  assert (0 ≤ d.(asset_sufficients)) as Hs0 by apply (aw_sufficients _ _ Hd).
  assert (∃ n s, d = set_counts n s d) as Hself
    by (exists d.(accounts), d.(asset_sufficients); by destruct d).
  destruct a.(reason) eqn:Hr; minv.
  - split_and!; [by eexists _, _|apply Hgone; lia|]. by eapply dec_consumers_moved.
  - split_and!; [by eexists _, _|apply Hgone; ulia|]. by eapply dec_sufficients_moved.
  - split_and!; [eauto|done|]. by apply refs_moved_refl.
  - split_and!; [by eexists _, _|apply Hgone; lia|]. apply refs_moved_refl; [done|..]; unfold held_at, exists_by;
      by rewrite Hr, decide_False.
  - split_and!; [eauto|done|]. by apply refs_moved_refl.
Qed.

(** The counters settled, the asset and the account are written. *)
Definition write_back id who (o : option AssetAccount) (d : AssetDetails) : Ch → Ch :=
  set_rest (λ r, mkAssetsState (<[id := d]> r.(Asset))
    (partial_alter (λ _, o) (id, who) r.(AssetAccounts)) r.(others)).

Lemma write_back_ok k k' id who o d n s l l1 :
  ledger_wf k l → (k' ≤ k)%nat → get_asset id l = Some d → asset_wf k' (set_counts n s d) →
  (∀ a, o = Some a → fits U128_MAX a.(balance)) →
  refs_moved k' who (get_account id who l) o l l1 →
  account_change id who o l (write_back id who o (set_counts n s d) l1) ∧
  ledger_wf k' (write_back id who o (set_counts n s d) l1).
Proof.
  intros Hl Hk Hd Hdw Ho [Hrest Hinfo Hdata Hf].
  assert (Hac : account_change id who o l (write_back id who o (set_counts n s d) l1)).
  { split; try done.
    - simpl. by rewrite Hrest.
    - simpl. by rewrite Hrest.
    - intros id' Hne. unfold get_asset. simpl. by rewrite lookup_insert_ne, Hrest.
    - intros d0 Hd0. unfold get_asset. simpl. rewrite lookup_insert_eq.
      rewrite Hd in Hd0. injection Hd0 as <-. eauto. }
  split; [done|]. eapply ledger_wf_change; try done.
  intros d0. unfold get_asset. simpl. rewrite lookup_insert_eq. by intros [= <-].
Qed.

Lemma can_decrease_ok id who amount keep nonzero dust l :
  can_decrease id who amount keep nonzero l = Ok dust → 0 < amount →
  ∃ d a, get_asset id l = Some d ∧ get_account id who l = Some a ∧
    is_frozen a.(account_status) = false ∧
    amount ≤ d.(supply) ∧ amount ≤ a.(balance) ∧
    (d.(min_balance) ≤ a.(balance) - amount ∧ dust = 0 ∨
     keep = false ∧ nonzero = false ∧
     a.(balance) - amount < d.(min_balance) ∧ dust = a.(balance) - amount).
Proof.
  unfold can_decrease. intros H Hpos.
  destruct (get_asset id l) as [d|]; [|done].
  destruct (checked_sub d.(supply) amount) eqn:Hs; [|done]. apply checked_sub_Some in Hs as [Hs _].
  destruct (bool_decide _); [done|]. rewrite (proj2 (Z.eqb_neq amount 0)) in H by lia.
  destruct (get_account id who l) as [a|]; [|done].
  destruct (is_frozen _) eqn:Hfr; [done|].
  destruct (checked_sub a.(balance) amount) eqn:Hb; [|done]. apply checked_sub_Some in Hb as [Hb ->].
  exists d, a. split_and!; try done.
  destruct (_ <? _) eqn:Hlt; bool_facts; [|left; by injection H as <-].
  destruct keep, nonzero; try done. right. by injection H as <-.
Qed.

Lemma asset_reducible_ok id who keep x l :
  asset_reducible_balance id who keep l = Ok x →
  ∃ d a, get_asset id l = Some d ∧ get_account id who l = Some a ∧ d.(asset_status) = Live ∧
    x = Z.min (if keep then saturating_sub a.(balance) d.(min_balance) else a.(balance)) d.(supply).
Proof.
  unfold asset_reducible_balance. intros H.
  destruct (get_asset id l) as [d|]; [|done].
  destruct (negb _) eqn:Hl; [done|]. bool_facts.
  destruct (get_account id who l) as [a|]; [|done].
  destruct (is_frozen _); [done|]. injection H as <-. by exists d, a.
Qed.

(** A debit that the balance allows: the amount, or all of the account when
    less than the minimum would be left. *)
Record debited id who (amount b : Z) (keep : bool) l l' : Prop := {
  de_asset : ∃ d, get_asset id l = Some d ∧ d.(asset_status) = Live ∧ amount ≤ d.(supply);
  de_enough : amount ≤ asset_balance_of id who l;
  de_amount : b = amount ∨
    (keep = false ∧ asset_balance_of id who l - amount < asset_min_balance id l ∧
     b = asset_balance_of id who l);
  de_kept : keep = true → asset_min_balance id l ≤ asset_balance_of id who l - b;
  de_change : ∃ o, account_change id who o l l' ∧
    match o with Some a => a.(balance) | None => 0 end = asset_balance_of id who l - b;
}.

(** The end of [decrease_balance]: [v] is written, or the account dies. *)
Lemma debit_write_ok k id who d a v l l' :
  ledger_wf k l → get_asset id l = Some d → get_account id who l = Some a →
  0 ≤ v ≤ a.(balance) → (v < d.(min_balance) → v = 0) →
  (if v <? d.(min_balance) then
     r ← dead_account who d a.(reason) false;
     match r.1 with
     | Remove => modify (remove_account id who)
     | Keep => modify (put_account id who (set_balance v a))
     end ;;
     modify (put_asset id r.2)
   else modify (put_account id who (set_balance v a)) ;; modify (put_asset id d)) l = Ok (tt, l') →
  ∃ o, account_change id who o l l' ∧ ledger_wf k l' ∧
    match o with Some a => a.(balance) | None => 0 end = v.
Proof.
  intros Hl Hd Ha Hv Hdust H.
  pose proof (lw_assets _ _ Hl _ _ Hd) as Hdw. pose proof (lw_balances _ _ Hl _ _ _ Ha) as Hfits.
  assert (∀ b, Some (set_balance v a) = Some b → fits U128_MAX b.(balance)) as Hfv
    by (intros b [= <-]; simpl; ulia).
  destruct (v <? d.(min_balance)) eqn:Hlt; bool_facts.
  - specialize (Hdust Hlt) as ->. minv.
    match goal with H : dead_account _ _ _ _ _ = Ok (?p, _) |- _ => destruct p as [c d'];
      eapply dead_account_ok in H as ((n & s & ->) & Hdw' & Hm); eauto end.
    simpl in *. destruct c; minv.
    + destruct (write_back_ok k k id who None d n s l x0) as [Hac Hwf]; try done; [by rewrite Ha|].
      by exists None.
    + destruct (write_back_ok k k id who (Some (set_balance 0 a)) d n s l x0) as [Hac Hwf]; try done.
      { rewrite Ha. destruct Hm as [? ? ? []]. by repeat (split; try done). }
      by exists (Some (set_balance 0 a)).
  - minv. assert (d = set_counts d.(accounts) d.(asset_sufficients) d) as Hself by by destruct d.
    destruct (write_back_ok k k id who (Some (set_balance v a)) d d.(accounts) d.(asset_sufficients) l l)
      as [Hac Hwf]; try done; [by rewrite <- Hself|rewrite Ha; by apply refs_moved_refl|].
    rewrite <- Hself in Hac, Hwf. by exists (Some (set_balance v a)).
Qed.

Lemma asset_decrease_ok k id who amount keep red l b l' :
  ledger_wf k l → 0 < amount → asset_reducible_balance id who keep l = Ok red → amount ≤ red →
  asset_decrease_balance id who amount (mkDebitFlags keep true) (λ _ d, Ok d) l = Ok (b, l') →
  debited id who amount b keep l l' ∧ ledger_wf k l'.
Proof.
  intros Hl Hpos Hred Hle H. unfold asset_decrease_balance in H.
  rewrite (proj2 (Z.eqb_neq amount 0)) in H by lia. unfold prep_debit in H. minv. bool_facts.
  simpl in *.
  match goal with H : get_asset id l = Some ?y |- _ => rename y into d; rename H into Hd end.
  match goal with H : get_account id who l = Some ?y |- _ => rename y into a; rename H into Ha end.
  match goal with H : asset_reducible_balance _ _ _ _ = Ok ?y, H' : _ = Ok red |- _ =>
    rewrite H in H'; injection H' as -> end.
  rewrite Z.min_r in * by done.
  match goal with H : can_decrease _ _ _ _ _ _ = Ok ?y |- _ => rename y into dust;
    apply can_decrease_ok in H as (d' & a' & Hd' & Ha' & _ & Hsup & Hbal & Hcase); [|done] end.
  rewrite Hd in Hd'. injection Hd' as <-. rewrite Ha in Ha'. injection Ha' as <-.
  pose proof (lw_balances _ _ Hl _ _ _ Ha) as Hfits.
  assert (Hb : saturating_add U128_MAX amount dust = amount + dust) by (apply saturating_add_exact; ulia).
  rewrite Hb in *. rewrite saturating_sub_exact in * by lia.
  match goal with H : _ l = Ok (tt, ?y) |- _ => rename y into l1;
    apply (debit_write_ok k id who d a) in H as (o & Hac & Hwf & Ho); try done; [|lia|lia] end.
  split; [|done]. split; unfold asset_balance_of, asset_min_balance; rewrite ?Ha, ?Hd.
  - eauto.
  - done.
  - destruct Hcase as [[_ ->]|(-> & _ & ? & ->)]; [left; lia|right; split_and!; [done|done|lia]].
  - intros ->. destruct Hcase as [[? ->]|[? _]]; [lia|done].
  - eauto.
Qed.

(** ** Credits *)

(** An account [who] that can be credited: it exists, unblocked and with room,
    or it can be opened with [amount]. *)
Definition creditable id who (amount : Z) l : Prop :=
  match get_account id who l with
  | Some a => is_blocked a.(account_status) = false ∧ a.(balance) + amount ≤ U128_MAX
  | None => ∀ d, get_asset id l = Some d → d.(min_balance) ≤ amount ∧
      (d.(is_sufficient) = true ∨ can_accrue_consumers who 2 l = true)
  end.

Lemma can_increase_ok id who amount l :
  can_increase id who amount false l = Ok tt → creditable id who amount l.
Proof.
  unfold can_increase, creditable. intros H.
  destruct (get_asset id l) as [d|]; [|done]. simpl in H.
  destruct (get_account id who l) as [a|].
  - destruct (is_blocked _); [done|].
    destruct (checked_add _ _ _) eqn:Hc; [|done]. by apply checked_add_Some in Hc as [? _].
  - intros d0 [= <-]. destruct (amount <? _) eqn:Hm; [done|]. bool_facts. split; [done|].
    destruct d.(is_sufficient); [by left|]. right. simpl in H.
    by destruct (can_accrue_consumers who 2 l).
Qed.

Lemma can_increase_run k id who amount d l :
  ledger_wf (S k) l → get_asset id l = Some d → 0 < amount → amount ≤ d.(supply) →
  creditable id who amount l → can_increase id who amount true l = Ok tt.
Proof.
  intros Hl Hd Hpos Hsup Hc. destruct (lw_assets _ _ Hl _ _ Hd).
  unfold can_increase, creditable in *. rewrite Hd.
  unfold checked_add. rewrite (proj2 (Z.leb_le (d.(supply) + amount) U128_MAX)) by lia. simpl.
  destruct (get_account id who l) as [a|].
  - destruct Hc as [-> Hb]. by rewrite (proj2 (Z.leb_le _ _)).
  - destruct (Hc d Hd) as [Hm Hs]. rewrite (proj2 (Z.ltb_ge _ _)) by done.
    rewrite (proj2 (Z.leb_le _ U32_MAX)) by lia.
    destruct Hs as [->| ->]; simpl; [done|]. by rewrite !andb_false_r.
Qed.

Lemma new_account_run k id who d l :
  ledger_wf (S k) l → get_asset id l = Some d → get_account id who l = None →
  d.(is_sufficient) = true ∨ can_accrue_consumers who 2 l = true → MaxConsumers ≤ U32_MAX →
  ∃ why n s l1, new_account who d l = Ok ((why, set_counts n s d), l1) ∧
    asset_wf k (set_counts n s d) ∧
    ∀ v, refs_moved k who None (Some (mkAssetAccount v Liquid why)) l l1.
Proof.
  intros Hl Hd Ha Hs Hmax. destruct (lw_assets _ _ Hl _ _ Hd).
  destruct (lw_chain _ _ Hl who) as [_ [] _].
  pose proof (held_by_nonneg Consumer l.(rest) who). pose proof (held_by_nonneg Sufficient l.(rest) who).
  unfold new_account, mbind, M_bind, ok_or, checked_add.
  rewrite (proj2 (Z.leb_le (d.(accounts) + 1) U32_MAX)) by lia. unfold mret, M_ret.
  destruct d.(is_sufficient) eqn:Hsuf.
  - unfold inc_sufficients, mbind, M_bind, gets, modify. eexists _, _, _, _. split; [done|]. split.
    { split; simpl; try done; ulia. }
    intros v. split; try done.
    + intros x Hx. rewrite get_info_put. by rewrite decide_False.
    + unfold account. rewrite get_info_put. by rewrite decide_True.
    + rewrite get_info_put, decide_True by done.
      destruct (_ =? 0) eqn:Hz; bool_facts; split; simpl; unfold exists_by; simpl; try done; ulia.
  - destruct Hs as [?|Hacc]; [done|]. unfold can_accrue_consumers, checked_add in Hacc.
    destruct (_ <=? U32_MAX) eqn:Hu; [|done]. bool_facts.
    unfold inc_consumers, mbind, M_bind, gets, modify, map_err.
    rewrite (proj2 (Z.ltb_lt 0 _)), (proj2 (Z.ltb_lt _ MaxConsumers)) by lia.
    unfold can_inc_consumer. rewrite get_info_put, decide_True by done. simpl.
    rewrite (saturating_add_exact U32_MAX) by lia. unfold checked_add.
    rewrite (proj2 (Z.leb_le _ U32_MAX)), (proj2 (Z.ltb_lt 0 _)), (proj2 (Z.leb_le _ MaxConsumers))
      by lia. simpl.
    eexists _, _, _, _. split; [done|]. split; [split; simpl; try done; lia|].
    intros v. split; try done.
    + intros x Hx. rewrite get_info_put. by rewrite decide_False.
    + unfold account. rewrite get_info_put. by rewrite decide_True.
    + rewrite get_info_put, decide_True by done. split; simpl; unfold exists_by; simpl; try done; lia.
Qed.

Lemma creditable_change id who src amount o l l' :
  account_change id src o l l' → src ≠ who → (∃ d, get_asset id l = Some d) →
  creditable id who amount l → creditable id who amount l'.
Proof.
  intros Hac Hne (d & Hd). unfold creditable.
  rewrite (account_change_get _ _ _ _ _ id who Hac), decide_False by congruence.
  destruct (get_account id who l); [done|]. intros Hc d' Hd'.
  destruct (ac_asset _ _ _ _ _ Hac d Hd) as (n & s & Hs). rewrite Hs in Hd'. injection Hd' as <-.
  unfold can_accrue_consumers. rewrite (ac_info _ _ _ _ _ Hac) by congruence.
  apply (Hc d Hd).
Qed.

Lemma asset_increase_ok k id who amount d l :
  MaxConsumers ≤ U32_MAX →
  ledger_wf (S k) l → get_asset id l = Some d → d.(asset_status) = Live →
  0 < amount → amount ≤ d.(supply) → creditable id who amount l →
  ∃ l' a, asset_increase_balance id who amount (λ d, Ok d) l = Ok (tt, l') ∧
    ledger_wf k l' ∧ account_change id who (Some a) l l' ∧
    a.(balance) = asset_balance_of id who l + amount.
Proof.
  intros Hmax Hl Hd Hlive Hpos Hsup Hc.
  pose proof (can_increase_run k id who amount d l Hl Hd Hpos Hsup Hc) as Hcan.
  pose proof (lw_assets _ _ Hl _ _ Hd) as Hdw.
  unfold asset_increase_balance, asset_balance_of. rewrite (proj2 (Z.eqb_neq amount 0)) by lia.
  unfold mbind, M_bind, gets, of_result, ok_or, ensure, mret, M_ret, modify.
  rewrite Hcan, Hd, bool_decide_true by done. unfold creditable in Hc.
  destruct (get_account id who l) as [a|] eqn:Ha.
  - destruct Hc as [_ Hb]. pose proof (lw_balances _ _ Hl _ _ _ Ha) as Hfits.
    rewrite saturating_add_exact by done. destruct Hdw.
    assert (d = set_counts d.(accounts) d.(asset_sufficients) d) as Hself by by destruct d.
    destruct (write_back_ok (S k) k id who (Some (set_balance (a.(balance) + amount) a)) d
      d.(accounts) d.(asset_sufficients) l l) as [Hac Hwf]; try done; [lia|by split; simpl; try lia|..].
    { intros b [= <-]. simpl. ulia. }
    { rewrite Ha. destruct (lw_chain _ _ Hl who) as [_ [] _]. split; try done. split; try done. lia. }
    rewrite <- Hself in Hac, Hwf. by eexists _, (set_balance (a.(balance) + amount) a).
  - destruct (Hc d Hd) as [Hm Hs]. rewrite (proj2 (Z.leb_le _ _)) by done.
    destruct (new_account_run k id who d l Hl Hd Ha Hs Hmax) as (why & n & s & l1 & Hnew & Hw & Hmoved).
    rewrite Hnew. simpl. destruct Hdw.
    destruct (write_back_ok (S k) k id who (Some (mkAssetAccount amount Liquid why)) d n s l l1)
      as [Hac Hwf]; try done; [lia|..].
    { intros b [= <-]. simpl. ulia. }
    { by rewrite Ha. }
    eexists _, (mkAssetAccount amount Liquid why). split; [done|]. split; [done|]. split; [done|]. simpl. lia.
Qed.

(** ** Transfers and burns *)

(** The assets and accounts an operation on [id] leaves alone. *)
Record untouched id l l' : Prop := {
  un_balances : ∀ id' x, id' ≠ id → asset_balance_of id' x l' = asset_balance_of id' x l;
  un_min : ∀ id', asset_min_balance id' l' = asset_min_balance id' l;
  un_account : ∀ x, account x l' = account x l;
  un_others : l'.(rest).(others) = l.(rest).(others);
}.

Lemma untouched_trans id l1 l2 l3 : untouched id l1 l2 → untouched id l2 l3 → untouched id l1 l3.
Proof.
  intros [] []. split; try congruence. intros. rewrite un_balances1 by done. auto.
Qed.

Lemma account_change_untouched id who o l l' d :
  get_asset id l = Some d → account_change id who o l l' → untouched id l l'.
Proof.
  intros Hd Hac. split.
  - intros id' x Hne. unfold asset_balance_of. rewrite (account_change_get _ _ _ _ _ id' x Hac).
    by rewrite decide_False by congruence.
  - intros id'. unfold asset_min_balance. destruct (decide (id' = id)) as [->|Hne].
    + destruct (ac_asset _ _ _ _ _ Hac d Hd) as (n & s & ->). by rewrite Hd.
    + by rewrite (ac_assets _ _ _ _ _ Hac).
  - intros x. by eapply account_change_account.
  - by apply Hac.
Qed.

Lemma account_change_balance id who o l l' x :
  account_change id who o l l' →
  asset_balance_of id x l' =
    if decide (x = who) then match o with Some a => a.(balance) | None => 0 end
    else asset_balance_of id x l.
Proof.
  intros Hac. unfold asset_balance_of. rewrite (account_change_get _ _ _ _ _ id x Hac).
  destruct (decide (x = who)) as [->|]; [by rewrite decide_True|by rewrite decide_False by congruence].
Qed.

Lemma fungibles_transfer_noop id from to v p l l' b :
  fungibles_transfer id from to v p l = Ok (b, l') → from = to → l' = l.
Proof. intros H ->. unfold fungibles_transfer in H. rewrite Z.eqb_refl in H. by minv. Qed.

Lemma fungibles_transfer_ok k id from to v p l l' b :
  MaxConsumers ≤ U32_MAX → ledger_wf (S k) l → 0 < v → from ≠ to →
  fungibles_transfer id from to v p l = Ok (b, l') →
  ledger_wf k l' ∧ b = v ∧ untouched id l l' ∧
  moved (λ x, asset_balance_of id x l) (λ x, asset_balance_of id x l')
    (asset_min_balance id l) from to v (bool_decide (p ≠ Expendable)).
Proof.
  intros Hmax Hl Hv Hne H. unfold fungibles_transfer in H.
  rewrite (proj2 (Z.eqb_neq from to)) in H by done. set (keep := bool_decide (p ≠ Expendable)) in *.
  minv. match goal with H : can_decrease _ _ _ _ _ _ = Ok _ |- _ =>
    apply can_decrease_ok in H as (d & a & Hd & Ha & Hfr & Hsup & Hbal & Hcase); [|done] end.
  match goal with H : can_increase _ _ _ _ _ = Ok _ |- _ => apply can_increase_ok in H as Hc end.
  match goal with H : asset_decrease_balance _ _ _ _ _ _ = Ok (?x, ?y) |- _ =>
    rename H into Hdec; rename x into b1; rename y into l1 end.
  assert (d.(asset_status) = Live) as Hlive.
  { unfold asset_decrease_balance in Hdec. rewrite (proj2 (Z.eqb_neq v 0)) in Hdec by lia.
    minv. by bool_facts; simplify_eq. }
  assert (∃ red, asset_reducible_balance id from keep l = Ok red ∧ v ≤ red) as (red & Hred & Hle).
  { unfold asset_reducible_balance. rewrite Hd, Ha, Hfr, bool_decide_true by done. simpl.
    eexists. split; [done|]. destruct keep; [|lia].
    destruct Hcase as [[? _]|(_ & ? & _)]; [ulia|done]. }
  eapply asset_decrease_ok in Hdec as ([_ Henough Hb Hkept (o & Hac & Ho)] & Hwf1); try done.
  destruct (ac_asset _ _ _ _ _ Hac d Hd) as (n & s & Hd1).
  destruct (asset_increase_ok k id to v (set_counts n s d) l1) as (l2 & a2 & Hinc & Hwf2 & Hac2 & Hb2);
    try done; [by eapply creditable_change; eauto|].
  match goal with H : ignore_err _ _ = Ok _ |- _ =>
    unfold ignore_err in H; rewrite Hinc in H; injection H as <- end.
  split_and!; [done|done|eapply untouched_trans; by eapply account_change_untouched|].
  assert (∀ x, asset_balance_of id x l2 = if decide (x = to) then asset_balance_of id to l + v
    else if decide (x = from) then asset_balance_of id from l - b1 else asset_balance_of id x l) as Hall.
  { intros x. rewrite (account_change_balance _ _ _ _ _ x Hac2), Hb2.
    rewrite !(account_change_balance _ _ _ _ _ _ Hac), Ho.
    destruct (decide (to = from)); [congruence|done]. }
  split; rewrite ?Hall, ?decide_True, ?(decide_False (P := from = to)), ?decide_True by done; try done.
  - destruct Hb as [->|(? & ? & ->)]; [by left|right]. split_and!; [done|done|lia].
  - intros x ? ?. by rewrite Hall, !decide_False by done.
Qed.

Lemma supply_down_wf k id d v l :
  ledger_wf k l → get_asset id l = Some d → 0 ≤ v ≤ d.(supply) →
  ledger_wf k (put_asset id (set_supply v d) l).
Proof.
  intros [] Hd Hv. destruct (lw_assets0 _ _ Hd). split; try done.
  { intros x. by destruct (lw_chain0 x) as [? [] ?]. }
  intros id' d'. unfold get_asset. simpl.
  destruct (decide (id' = id)) as [->|Hne].
  - rewrite lookup_insert_eq. intros [= <-]. split; simpl; try done; lia.
  - rewrite lookup_insert_ne by done. apply lw_assets0.
Qed.

Lemma burn_from_ok k id who v l l' b :
  ledger_wf k l → 0 < v → burn_from id who v Expendable true l = Ok (b, l') →
  ledger_wf k l' ∧ untouched id l l' ∧
  burnt (λ x, asset_balance_of id x l) (λ x, asset_balance_of id x l') (asset_min_balance id l) who v.
Proof.
  intros Hl Hv H. unfold burn_from in H. minv. rewrite orb_false_r in *. bool_facts.
  rewrite bool_decide_false in * by naive_solver.
  destruct (asset_reducible_balance id who false l) as [red|] eqn:Hred; [|lia].
  match goal with H : Z.min _ _ = v |- _ => rewrite !H in *; rename H into Hmin end.
  match goal with H : asset_decrease_balance _ _ _ _ _ _ = Ok (?x, ?y) |- _ =>
    rename H into Hdec; rename x into b1; rename y into l1 end.
  eapply asset_decrease_ok in Hdec as ([(d & Hd & _ & Hsup) Henough Hb _ (o & Hac & Ho)] & Hwf1);
    try done; [|lia].
  destruct (ac_asset _ _ _ _ _ Hac d Hd) as (n & s & Hd1).
  match goal with H : set_total_issuance _ _ _ = Ok _ |- _ => unfold set_total_issuance in H end.
  minv. rewrite Hd1 in *. minv.
  assert (untouched id l l1) as [] by by eapply account_change_untouched.
  split_and!.
  - apply supply_down_wf; [done|done|]. unfold asset_total_issuance. rewrite Hd1. simpl.
    pose proof (lw_assets _ _ Hl _ _ Hd) as []. ulia.
  - split; try done. intros id'. rewrite <- un_min0. unfold asset_min_balance, get_asset. simpl.
    destruct (decide (id' = id)) as [->|].
    + rewrite lookup_insert_eq. unfold get_asset in Hd1. by rewrite Hd1.
    + by rewrite lookup_insert_ne.
  - assert (∀ x, asset_balance_of id x l1 = if decide (x = who) then asset_balance_of id who l - b1
      else asset_balance_of id x l) as Hall
      by (intros x; by rewrite (account_change_balance _ _ _ _ _ x Hac), Ho).
    split; [done|..].
    + change (asset_balance_of id who l1 = asset_balance_of id who l - v ∨
        asset_balance_of id who l - v < asset_min_balance id l ∧ asset_balance_of id who l1 = 0).
      rewrite Hall, decide_True by done.
      destruct Hb as [->|(_ & ? & ->)]; [by left|right; lia].
    + intros x Hx. change (asset_balance_of id x l1 = asset_balance_of id x l).
      by rewrite Hall, decide_False.
Qed.
End wf.
