(* ===== verification/Crowdfunding.v ===== *)
(** * pallet-crowdfunding: data and operations

    The storage items, dispatchables and helpers of
    src/thxnet/leafchain/pallets/crowdfunding/src/{types,lib}.rs, one
    definition each.  A dispatchable runs in the monad of the prelude over the
    pallet's storage and the surroundings of Frame.v; an [Err] leaves no
    storage behind. *)

From S2P Require Import Prelude Arith Errors Frame.
Import CrowdfundingErrors.

(** ** Data *)

(** [PaymentCurrency<AssetId>] *)
Inductive PaymentCurrency :=
| Native
| Asset (asset_id : Z).

#[global] Instance PaymentCurrency_eq_dec : EqDecision PaymentCurrency.
Proof. solve_decision. Defined.

Record Milestone := mkMilestone {
  release_bps : Z;
  description_hash : Z;
}.

Inductive FundingModel :=
| AllOrNothing (goal : Balance)
| KeepWhatYouRaise (soft_cap : option Balance)
| MilestoneBased (goal : Balance) (milestones : list Milestone).

Record CampaignConfig := mkCampaignConfig {
  funding_model : FundingModel;
  funding_currency : PaymentCurrency;
  deadline : BlockNumber;
  hard_cap : option Balance;
  min_investment : option Balance;
  max_investment_per_investor : option Balance;
  metadata_hash : Z;
  early_withdrawal_penalty_bps : option Z;
}.

Inductive EligibilityRule :=
| NativeBalance (min_balance : Balance)
| AssetBalance (asset_id : Z) (min_balance : Balance)
| NftOwnership (required_sets : list (list (Z * Z)))
| AccountWhitelist.

Inductive CampaignStatus :=
| Funding
| Succeeded
| Failed
| MilestonePhase
| Completed
| Cancelled
| Paused.

#[global] Instance CampaignStatus_eq_dec : EqDecision CampaignStatus.
Proof. solve_decision. Defined.

Inductive MilestoneStatus :=
| Pending
| Submitted
| Approved
| Rejected
| Claimed.

#[global] Instance MilestoneStatus_eq_dec : EqDecision MilestoneStatus.
Proof. solve_decision. Defined.

Record Campaign := mkCampaign {
  creator : AccountId;
  status : CampaignStatus;
  config : CampaignConfig;
  eligibility_rules : list EligibilityRule;
  total_raised : Balance;
  total_disbursed : Balance;
  investor_count : Z;
  creation_deposit : Balance;
  created_at : BlockNumber;
  paused_at : option BlockNumber;
  rwa_asset_id : option Z;
  participation_id : option Z;
  protocol_fee_bps : Z;
}.

Record Investment := mkInvestment {
  total_invested : Balance;
  total_withdrawn : Balance;
}.

Definition Investment_default : Investment := mkInvestment 0 0.

Record WithdrawalPreview := mkWithdrawalPreview {
  gross_amount : Balance;
  penalty : Balance;
  net_amount : Balance;
  penalty_bps : Z;
}.

Record CampaignSummary := mkCampaignSummary {
  s_status : CampaignStatus;
  s_total_raised : Balance;
  s_goal : option Balance;
  s_hard_cap : option Balance;
  s_investor_count : Z;
  s_remaining_blocks : option BlockNumber;
  s_funding_percentage_ppm : Z;
  s_milestones_completed : option Z;
  s_milestones_total : option Z;
  s_rwa_asset_id : option Z;
  s_participation_id : option Z;
}.

Module EligibilityErrors.
Inductive EligibilityError :=
| CampaignNotFound
| InsufficientNativeBalance
| InsufficientAssetBalance
| NftOwnershipNotMet
| NotWhitelisted.
End EligibilityErrors.

(** Assignments [c.field = v]. *)
Definition set_status v c := mkCampaign c.(creator) v c.(config) c.(eligibility_rules)
  c.(total_raised) c.(total_disbursed) c.(investor_count) c.(creation_deposit)
  c.(created_at) c.(paused_at) c.(rwa_asset_id) c.(participation_id) c.(protocol_fee_bps).
Definition set_config v c := mkCampaign c.(creator) c.(status) v c.(eligibility_rules)
  c.(total_raised) c.(total_disbursed) c.(investor_count) c.(creation_deposit)
  c.(created_at) c.(paused_at) c.(rwa_asset_id) c.(participation_id) c.(protocol_fee_bps).
Definition set_total_raised v c := mkCampaign c.(creator) c.(status) c.(config)
  c.(eligibility_rules) v c.(total_disbursed) c.(investor_count) c.(creation_deposit)
  c.(created_at) c.(paused_at) c.(rwa_asset_id) c.(participation_id) c.(protocol_fee_bps).
Definition set_total_disbursed v c := mkCampaign c.(creator) c.(status) c.(config)
  c.(eligibility_rules) c.(total_raised) v c.(investor_count) c.(creation_deposit)
  c.(created_at) c.(paused_at) c.(rwa_asset_id) c.(participation_id) c.(protocol_fee_bps).
Definition set_investor_count v c := mkCampaign c.(creator) c.(status) c.(config)
  c.(eligibility_rules) c.(total_raised) c.(total_disbursed) v c.(creation_deposit)
  c.(created_at) c.(paused_at) c.(rwa_asset_id) c.(participation_id) c.(protocol_fee_bps).
Definition set_creation_deposit v c := mkCampaign c.(creator) c.(status) c.(config)
  c.(eligibility_rules) c.(total_raised) c.(total_disbursed) c.(investor_count) v
  c.(created_at) c.(paused_at) c.(rwa_asset_id) c.(participation_id) c.(protocol_fee_bps).
Definition set_paused_at v c := mkCampaign c.(creator) c.(status) c.(config)
  c.(eligibility_rules) c.(total_raised) c.(total_disbursed) c.(investor_count)
  c.(creation_deposit) c.(created_at) v c.(rwa_asset_id) c.(participation_id)
  c.(protocol_fee_bps).
Definition set_deadline v g := mkCampaignConfig g.(funding_model) g.(funding_currency) v
  g.(hard_cap) g.(min_investment) g.(max_investment_per_investor) g.(metadata_hash)
  g.(early_withdrawal_penalty_bps).

(** ** Storage *)

Record State := mkState {
  Campaigns : gmap Z Campaign;
  NextCampaignId : Z;
  Investments : gmap (Z * AccountId) Investment;
  MilestoneStatuses : gmap (Z * Z) MilestoneStatus;
  DefaultEligibilityRules : list EligibilityRule;
  CreatorCampaigns : gmap AccountId (list Z);
  InvestorCampaigns : gmap AccountId (list Z);
  CampaignWhitelist : gmap (Z * AccountId) bool;
  CampaignWhitelistCount : gmap Z Z;
  ProtocolFeeBpsOverride : option Z;
  ProtocolFeeRecipientOverride : option AccountId;
}.

(** Writes of one storage item. *)
Definition put_Campaigns v s :=
  mkState v s.(NextCampaignId) s.(Investments) s.(MilestoneStatuses)
    s.(DefaultEligibilityRules) s.(CreatorCampaigns) s.(InvestorCampaigns)
    s.(CampaignWhitelist) s.(CampaignWhitelistCount) s.(ProtocolFeeBpsOverride)
    s.(ProtocolFeeRecipientOverride).
Definition put_NextCampaignId v s :=
  mkState s.(Campaigns) v s.(Investments) s.(MilestoneStatuses)
    s.(DefaultEligibilityRules) s.(CreatorCampaigns) s.(InvestorCampaigns)
    s.(CampaignWhitelist) s.(CampaignWhitelistCount) s.(ProtocolFeeBpsOverride)
    s.(ProtocolFeeRecipientOverride).
Definition put_Investments v s :=
  mkState s.(Campaigns) s.(NextCampaignId) v s.(MilestoneStatuses)
    s.(DefaultEligibilityRules) s.(CreatorCampaigns) s.(InvestorCampaigns)
    s.(CampaignWhitelist) s.(CampaignWhitelistCount) s.(ProtocolFeeBpsOverride)
    s.(ProtocolFeeRecipientOverride).
Definition put_MilestoneStatuses v s :=
  mkState s.(Campaigns) s.(NextCampaignId) s.(Investments) v
    s.(DefaultEligibilityRules) s.(CreatorCampaigns) s.(InvestorCampaigns)
    s.(CampaignWhitelist) s.(CampaignWhitelistCount) s.(ProtocolFeeBpsOverride)
    s.(ProtocolFeeRecipientOverride).
Definition put_DefaultEligibilityRules v s :=
  mkState s.(Campaigns) s.(NextCampaignId) s.(Investments) s.(MilestoneStatuses)
    v s.(CreatorCampaigns) s.(InvestorCampaigns) s.(CampaignWhitelist)
    s.(CampaignWhitelistCount) s.(ProtocolFeeBpsOverride)
    s.(ProtocolFeeRecipientOverride).
Definition put_CreatorCampaigns v s :=
  mkState s.(Campaigns) s.(NextCampaignId) s.(Investments) s.(MilestoneStatuses)
    s.(DefaultEligibilityRules) v s.(InvestorCampaigns) s.(CampaignWhitelist)
    s.(CampaignWhitelistCount) s.(ProtocolFeeBpsOverride)
    s.(ProtocolFeeRecipientOverride).
Definition put_InvestorCampaigns v s :=
  mkState s.(Campaigns) s.(NextCampaignId) s.(Investments) s.(MilestoneStatuses)
    s.(DefaultEligibilityRules) s.(CreatorCampaigns) v s.(CampaignWhitelist)
    s.(CampaignWhitelistCount) s.(ProtocolFeeBpsOverride)
    s.(ProtocolFeeRecipientOverride).
Definition put_CampaignWhitelist v s :=
  mkState s.(Campaigns) s.(NextCampaignId) s.(Investments) s.(MilestoneStatuses)
    s.(DefaultEligibilityRules) s.(CreatorCampaigns) s.(InvestorCampaigns) v
    s.(CampaignWhitelistCount) s.(ProtocolFeeBpsOverride)
    s.(ProtocolFeeRecipientOverride).
Definition put_CampaignWhitelistCount v s :=
  mkState s.(Campaigns) s.(NextCampaignId) s.(Investments) s.(MilestoneStatuses)
    s.(DefaultEligibilityRules) s.(CreatorCampaigns) s.(InvestorCampaigns)
    s.(CampaignWhitelist) v s.(ProtocolFeeBpsOverride)
    s.(ProtocolFeeRecipientOverride).
Definition put_ProtocolFeeBpsOverride v s :=
  mkState s.(Campaigns) s.(NextCampaignId) s.(Investments) s.(MilestoneStatuses)
    s.(DefaultEligibilityRules) s.(CreatorCampaigns) s.(InvestorCampaigns)
    s.(CampaignWhitelist) s.(CampaignWhitelistCount) v
    s.(ProtocolFeeRecipientOverride).
Definition put_ProtocolFeeRecipientOverride v s :=
  mkState s.(Campaigns) s.(NextCampaignId) s.(Investments) s.(MilestoneStatuses)
    s.(DefaultEligibilityRules) s.(CreatorCampaigns) s.(InvestorCampaigns)
    s.(CampaignWhitelist) s.(CampaignWhitelistCount) s.(ProtocolFeeBpsOverride)
    v.

(** [ValueQuery] items read their default when absent. *)
Definition creator_campaigns (who : AccountId) (s : State) : list Z :=
  default [] (s.(CreatorCampaigns) !! who).
Definition investor_campaigns (who : AccountId) (s : State) : list Z :=
  default [] (s.(InvestorCampaigns) !! who).
Definition whitelisted (id : Z) (who : AccountId) (s : State) : bool :=
  default false (s.(CampaignWhitelist) !! (id, who)).
Definition whitelist_count (id : Z) (s : State) : Z :=
  default 0 (s.(CampaignWhitelistCount) !! id).

Definition insert_campaign (id : Z) (c : Campaign) (s : State) : State :=
  put_Campaigns (<[id := c]> s.(Campaigns)) s.
Definition insert_investment (id : Z) (who : AccountId) (i : Investment) (s : State) : State :=
  put_Investments (<[(id, who) := i]> s.(Investments)) s.
Definition insert_milestone_status (id i : Z) (m : MilestoneStatus) (s : State) : State :=
  put_MilestoneStatuses (<[(id, i) := m]> s.(MilestoneStatuses)) s.
Definition remove_investor_campaign (who : AccountId) (id : Z) (s : State) : State :=
  put_InvestorCampaigns
    (<[who := remove_first id (investor_campaigns who s)]> s.(InvestorCampaigns)) s.

(** [0..milestones.len() as u8] *)
Definition milestone_indices (ms : list Milestone) : list Z :=
  seqZ 0 (wrap U8_MAX (Z.of_nat (length ms))).

(** The removal of a campaign's milestone statuses. *)
Definition clear_milestones (id : Z) (c : Campaign) (s : State) : State :=
  match c.(config).(funding_model) with
  | MilestoneBased _ ms =>
      put_MilestoneStatuses
        (foldl (λ m i, delete (id, i) m) s.(MilestoneStatuses) (milestone_indices ms)) s
  | _ => s
  end.

(** [CampaignWhitelist::clear_prefix(id, u32::MAX, None)] and the removal of
    the counter; a prefix never has more than [u32::MAX] entries. *)
Definition clear_whitelist (id : Z) (s : State) : State :=
  put_CampaignWhitelistCount (delete id s.(CampaignWhitelistCount))
    (put_CampaignWhitelist
      (filter (λ kv, kv.1.1 ≠ id) s.(CampaignWhitelist)) s).

Inductive Event :=
| CampaignCreated (campaign_id : Z) (creator : AccountId) (deadline : BlockNumber)
| CampaignFinalized (campaign_id : Z) (status : CampaignStatus)
| CampaignCancelled (campaign_id : Z)
| CreationDepositClaimed (campaign_id : Z) (creator : AccountId) (deposit_returned : Balance)
| Invested (campaign_id : Z) (investor : AccountId) (amount : Balance)
| InvestmentWithdrawn (campaign_id : Z) (investor : AccountId) (amount penalty : Balance)
| RefundClaimed (campaign_id : Z) (investor : AccountId) (amount : Balance)
| FundsClaimed (campaign_id : Z) (creator : AccountId) (amount : Balance)
| MilestoneSubmitted (campaign_id index : Z)
| MilestoneApproved (campaign_id index : Z)
| MilestoneRejected (campaign_id index : Z)
| MilestoneFundsClaimed (campaign_id index : Z) (amount : Balance)
| DefaultEligibilitySet
| ProtocolFeeCollected (campaign_id : Z) (amount : Balance)
| CampaignPaused (campaign_id : Z)
| CampaignResumed (campaign_id : Z)
| HardCapReached (campaign_id : Z)
| ProtocolConfigUpdated (fee_bps : Z) (recipient : AccountId)
| CampaignLicenseReported (campaign_id : Z)
| CampaignForceFinalized (campaign_id : Z) (status : CampaignStatus).

(** ** Configuration and the other pallets *)

Class Config := {
  AdminOrigin : Origin → bool;
  ForceOrigin : Origin → bool;
  MilestoneApprover : Origin → bool;
  PalletId : list Z;
  CampaignCreationDeposit : Balance;
  MaxCampaignsPerCreator : Z;
  MinCampaignDuration : BlockNumber;
  MaxCampaignDuration : BlockNumber;
  EarlyWithdrawalPenaltyBps : Z;
  MaxMilestones : Z;
  MaxEligibilityRules : Z;
  MaxNftSets : Z;
  MaxNftsPerSet : Z;
  MaxInvestmentsPerInvestor : Z;
  ProtocolFeeBps : Z;
  ProtocolFeeRecipient : AccountId;
  MaxWhitelistSize : Z;
}.

(** [nonfungibles_v2::Inspect::owner] *)
Class NftInspect (W : Type) := {
  nft_owner : Z → Z → W → option AccountId;
}.

(** [LicenseVerifier] *)
Class LicenseVerifier (W : Type) := {
  ensure_active_license : Z → Z → AccountId → W → result DispatchError unit;
  is_license_active : Z → Z → W → bool;
  license_expiry : Z → Z → W → option BlockNumber;
}.

Definition err (e : CrowdfundingError) : DispatchError := Module_ (InCrowdfunding e).

(** Compute [bps] basis points of [amount], rounding up. *)
Definition bps_of (amount : Balance) (bps : Z) : Balance :=
  let clamped := Z.min bps 10000 in
  if clamped =? 0 then 0
  else
    let numerator := saturating_mul U128_MAX amount clamped in
    saturating_add U128_MAX numerator (saturating_sub 10000 1) / 10000.

(** What the dispatchables run on. *)
Abbreviation CEnv W := (Env State W Event).

Section pallet.
Context {W : Type} `{!System W, !Currency W, !Fungibles W, !NftInspect W}
  `{!LicenseVerifier W} {T : Config}.

Abbreviation C A := (M DispatchError (CEnv W) A).

(** ** Helpers *)

Definition campaign_account (campaign_id : Z) : AccountId :=
  into_sub_account_truncating PalletId campaign_id.

Definition effective_protocol_fee_bps (s : State) : Z :=
  default ProtocolFeeBps s.(ProtocolFeeBpsOverride).

Definition effective_protocol_fee_recipient (s : State) : AccountId :=
  default ProtocolFeeRecipient s.(ProtocolFeeRecipientOverride).

Definition get_campaign (campaign_id : Z) : C Campaign :=
  c ← reads (λ s, s.(Campaigns) !! campaign_id);
  ok_or c (err CampaignNotFound).

Definition do_transfer (currency : PaymentCurrency) (from to : AccountId)
    (amount : Balance) (existence_req : ExistenceRequirement) : C unit :=
  if amount =? 0 then mret tt
  else
    match currency with
    | Native => calls (transfer from to amount existence_req)
    | Asset asset_id =>
        let preservation :=
          match existence_req with KeepAlive => Preserve | AllowDeath => Expendable end in
        calls (asset_transfer asset_id from to amount preservation) ;; mret tt
    end.

Definition do_burn (currency : PaymentCurrency) (who : AccountId)
    (amount : Balance) (existence_req : ExistenceRequirement) : C unit :=
  if amount =? 0 then mret tt
  else
    match currency with
    | Native => calls (withdraw who amount existence_req)
    | Asset asset_id => calls (asset_burn_from asset_id who amount) ;; mret tt
    end.

(** One rule of [check_eligibility_inner]. *)
Definition rule_passes (who : AccountId) (campaign_id : Z) (e : CEnv W)
    (rule : EligibilityRule) : bool :=
  match rule with
  | NativeBalance min_balance => min_balance <=? free_balance who (world e)
  | AssetBalance asset_id min_balance =>
      min_balance <=? asset_balance asset_id who (world e)
  | NftOwnership required_sets =>
      existsb (λ set, forallb (λ '(cid, iid),
        match nft_owner cid iid (world e) with
        | Some o => o =? who
        | None => false
        end) set) required_sets
  | AccountWhitelist => whitelisted campaign_id who (store e)
  end.

Definition check_eligibility_inner (who : AccountId) (campaign : Campaign)
    (campaign_id : Z) : C unit :=
  for_each campaign.(eligibility_rules) (λ rule,
    passes ← gets (λ e, rule_passes who campaign_id e rule);
    ensure passes (err EligibilityCheckFailed)).

(** The outcome of a campaign and the milestone statuses it starts with. *)
Definition do_finalize (campaign_id : Z) (c : Campaign) : C CampaignStatus :=
  match c.(config).(funding_model) with
  | AllOrNothing goal =>
      mret (if goal <=? c.(total_raised) then Succeeded else Failed)
  | KeepWhatYouRaise soft_cap =>
      mret (match soft_cap with
            | Some cap => if c.(total_raised) <? cap then Failed else Succeeded
            | None => Succeeded
            end)
  | MilestoneBased goal milestones =>
      if goal <=? c.(total_raised) then
        writes (λ s, put_MilestoneStatuses
          (foldl (λ m i, <[(campaign_id, wrap U8_MAX i) := Pending]> m)
             s.(MilestoneStatuses) (seqZ 0 (Z.of_nat (length milestones)))) s) ;;
        mret MilestonePhase
      else mret Failed
  end.

(** ** Dispatchables *)

(** The checks of [create_campaign] on its funding model. *)
Definition validate_funding_model (config : CampaignConfig) : C unit :=
  match config.(funding_model) with
  | AllOrNothing goal => ensure (negb (goal =? 0)) (err InvalidFundingModel)
  | MilestoneBased goal milestones =>
      ensure (negb (goal =? 0)) (err InvalidFundingModel) ;;
      let total_bps := foldr Z.add 0 (map release_bps milestones) in
      ensure (total_bps =? 10000) (err MilestoneBpsSumInvalid)
  | KeepWhatYouRaise _ => mret tt
  end ;;
  ensure_some config.(hard_cap) (λ cap,
    match config.(funding_model) with
    | AllOrNothing goal | MilestoneBased goal _ => goal <=? cap
    | KeepWhatYouRaise _ => true
    end) (err InvalidFundingModel) ;;
  match config.(min_investment), config.(max_investment_per_investor) with
  | Some min, Some max => ensure (min <=? max) (err InvalidFundingModel)
  | _, _ => mret tt
  end.

Definition create_campaign (origin : Origin) (config : CampaignConfig)
    (custom_rules : option (list EligibilityRule)) (license : option (Z * Z)) : C unit :=
  creator ← ensure_signed origin;
  ids ← match license with
        | Some (asset_id, part_id) =>
            r ← asks (ensure_active_license asset_id part_id creator);
            of_result (map_err (λ _, err LicenseNotActive) r) ;;
            expiry ← asks (license_expiry asset_id part_id);
            ensure_some expiry (λ expiry, config.(deadline) <? expiry)
              (err CampaignExceedsLicenseExpiry) ;;
            mret (Some asset_id, Some part_id)
        | None => mret (None, None)
        end;
  now ← asks block_number;
  ensure (now <? config.(deadline)) (err DeadlineInPast) ;;
  let duration := saturating_sub config.(deadline) now in
  ensure (MinCampaignDuration <=? duration) (err DurationTooShort) ;;
  ensure (duration <=? MaxCampaignDuration) (err DurationTooLong) ;;
  ensure_some config.(early_withdrawal_penalty_bps) (λ bps, bps <=? 10000)
    (err InvalidPenaltyBps) ;;
  validate_funding_model config ;;
  current_campaigns ← reads (creator_campaigns creator);
  ensure (Z.of_nat (length current_campaigns) <? MaxCampaignsPerCreator)
    (err MaxCampaignsPerCreatorReached) ;;
  let deposit := CampaignCreationDeposit in
  ensure (minimum_balance <=? deposit) (err InsufficientBalance) ;;
  campaign_id ← reads NextCampaignId;
  next_id ← ok_or (checked_add U32_MAX campaign_id 1) (err CampaignIdOverflow);
  writes (put_NextCampaignId next_id) ;;
  let sub_account := campaign_account campaign_id in
  calls (transfer creator sub_account deposit KeepAlive) ;;
  default_rules ← reads DefaultEligibilityRules;
  fee_bps ← reads effective_protocol_fee_bps;
  let campaign :=
    mkCampaign creator Funding config (default default_rules custom_rules) 0 0 0
      deposit now None ids.1 ids.2 fee_bps in
  writes (insert_campaign campaign_id campaign) ;;
  ids ← reads (creator_campaigns creator);
  ids' ← ok_or (try_push MaxCampaignsPerCreator ids campaign_id)
    (err MaxCampaignsPerCreatorReached);
  writes (λ s, put_CreatorCampaigns (<[creator := ids']> s.(CreatorCampaigns)) s) ;;
  deposit_event (CampaignCreated campaign_id creator config.(deadline)).

Definition cancel_campaign (origin : Origin) (campaign_id : Z) : C unit :=
  ensure_origin ForceOrigin origin ;;
  c ← get_campaign campaign_id;
  ensure (negb (bool_decide (c.(status) ∈ [Cancelled; Completed; Succeeded])))
    (err InvalidCampaignStatus) ;;
  writes (clear_milestones campaign_id c) ;;
  writes (insert_campaign campaign_id (set_status Cancelled c)) ;;
  writes (clear_whitelist campaign_id) ;;
  deposit_event (CampaignCancelled campaign_id).

Definition set_default_eligibility (origin : Origin) (rules : list EligibilityRule) : C unit :=
  ensure_origin AdminOrigin origin ;;
  writes (put_DefaultEligibilityRules rules) ;;
  deposit_event DefaultEligibilitySet.

Definition invest (origin : Origin) (campaign_id : Z) (amount : Balance) : C unit :=
  investor ← ensure_signed origin;
  campaign ← get_campaign campaign_id;
  ensure (bool_decide (campaign.(status) = Funding)) (err InvalidCampaignStatus) ;;
  now ← asks block_number;
  ensure (now <=? campaign.(config).(deadline)) (err DeadlinePassed) ;;
  ensure (negb (amount =? 0)) (err InvestmentBelowMinimum) ;;
  check_eligibility_inner investor campaign campaign_id ;;
  ensure_some campaign.(config).(min_investment) (λ min, min <=? amount)
    (err InvestmentBelowMinimum) ;;
  ensure_some campaign.(config).(hard_cap)
    (λ cap, saturating_add U128_MAX campaign.(total_raised) amount <=? cap)
    (err HardCapExceeded) ;;
  o ← reads (λ s, s.(Investments) !! (campaign_id, investor));
  let inv := default Investment_default o in
  let current := saturating_sub inv.(total_invested) inv.(total_withdrawn) in
  ensure_some campaign.(config).(max_investment_per_investor)
    (λ max_per, saturating_add U128_MAX current amount <=? max_per)
    (err InvestmentExceedsMaxPerInvestor) ;;
  ids ← reads (investor_campaigns investor);
  let is_new := negb (contains ids campaign_id) in
  when is_new (ensure (Z.of_nat (length ids) <? MaxInvestmentsPerInvestor)
    (err MaxInvestmentsPerInvestorReached)) ;;
  let sub_account := campaign_account campaign_id in
  do_transfer campaign.(config).(funding_currency) investor sub_account amount KeepAlive ;;
  let inv' := mkInvestment (saturating_add U128_MAX inv.(total_invested) amount)
                inv.(total_withdrawn) in
  writes (insert_investment campaign_id investor inv') ;;
  let c1 := set_total_raised (saturating_add U128_MAX campaign.(total_raised) amount) campaign in
  let c2 := if is_new
            then set_investor_count (saturating_add U32_MAX c1.(investor_count) 1) c1
            else c1 in
  let hard_cap_reached := bool_decide (c2.(config).(hard_cap) = Some c2.(total_raised)) in
  writes (insert_campaign campaign_id c2) ;;
  when is_new (
    ids ← reads (investor_campaigns investor);
    ids' ← ok_or (try_push MaxInvestmentsPerInvestor ids campaign_id)
      (err MaxInvestmentsPerInvestorReached);
    writes (λ s, put_InvestorCampaigns (<[investor := ids']> s.(InvestorCampaigns)) s)) ;;
  when hard_cap_reached (deposit_event (HardCapReached campaign_id)) ;;
  deposit_event (Invested campaign_id investor amount).

Definition withdraw_investment (origin : Origin) (campaign_id : Z) (amount : Balance) : C unit :=
  investor ← ensure_signed origin;
  campaign ← get_campaign campaign_id;
  ensure (bool_decide (campaign.(status) ∈ [Funding; Paused])) (err InvalidCampaignStatus) ;;
  ensure (negb (amount =? 0)) (err InsufficientInvestment) ;;
  o ← reads (λ s, s.(Investments) !! (campaign_id, investor));
  inv ← ok_or o (err NoInvestmentFound);
  let current := saturating_sub inv.(total_invested) inv.(total_withdrawn) in
  ensure (amount <=? current) (err InsufficientInvestment) ;;
  let penalty_bps :=
    default EarlyWithdrawalPenaltyBps campaign.(config).(early_withdrawal_penalty_bps) in
  let penalty := bps_of amount penalty_bps in
  let net := saturating_sub amount penalty in
  let sub_account := campaign_account campaign_id in
  do_transfer campaign.(config).(funding_currency) sub_account investor net AllowDeath ;;
  when (negb (penalty =? 0))
    (do_burn campaign.(config).(funding_currency) sub_account penalty AllowDeath) ;;
  let inv' := mkInvestment inv.(total_invested)
                (saturating_add U128_MAX inv.(total_withdrawn) amount) in
  let fully_withdrawn := inv'.(total_invested) =? inv'.(total_withdrawn) in
  writes (insert_investment campaign_id investor inv') ;;
  when fully_withdrawn (writes (remove_investor_campaign investor campaign_id)) ;;
  let c1 := set_total_raised (saturating_sub campaign.(total_raised) amount) campaign in
  let c2 := if fully_withdrawn
            then set_investor_count (saturating_sub c1.(investor_count) 1) c1
            else c1 in
  writes (insert_campaign campaign_id c2) ;;
  deposit_event (InvestmentWithdrawn campaign_id investor net penalty).

(** What [claim_refund] pays for a net investment of [raw_refund]. *)
Definition refund_of (campaign : Campaign) (raw_refund : Balance) : Balance :=
  if negb (campaign.(total_disbursed) =? 0) && negb (campaign.(total_raised) =? 0) then
    let remaining_ratio :=
      from_rational (saturating_sub campaign.(total_raised) campaign.(total_disbursed))
        campaign.(total_raised) in
    permill_mul remaining_ratio raw_refund
  else raw_refund.

Definition claim_refund (origin : Origin) (campaign_id : Z) : C unit :=
  investor ← ensure_signed origin;
  campaign ← get_campaign campaign_id;
  ensure (bool_decide (campaign.(status) ∈ [Failed; Cancelled])) (err InvalidCampaignStatus) ;;
  o ← reads (λ s, s.(Investments) !! (campaign_id, investor));
  inv ← ok_or o (err NoInvestmentFound);
  let raw_refund := saturating_sub inv.(total_invested) inv.(total_withdrawn) in
  ensure (negb (raw_refund =? 0)) (err NothingToRefund) ;;
  let refund := refund_of campaign raw_refund in
  ensure (negb (refund =? 0)) (err NothingToRefund) ;;
  let sub_account := campaign_account campaign_id in
  do_transfer campaign.(config).(funding_currency) sub_account investor refund AllowDeath ;;
  writes (λ s, put_Investments (delete (campaign_id, investor) s.(Investments)) s) ;;
  writes (remove_investor_campaign investor campaign_id) ;;
  writes (insert_campaign campaign_id
    (set_investor_count (saturating_sub campaign.(investor_count) 1) campaign)) ;;
  deposit_event (RefundClaimed campaign_id investor refund).

Definition finalize_campaign (origin : Origin) (campaign_id : Z) : C unit :=
  ensure_signed origin ;;
  c ← get_campaign campaign_id;
  ensure (bool_decide (c.(status) = Funding)) (err InvalidCampaignStatus) ;;
  now ← asks block_number;
  ensure (c.(config).(deadline) <? now) (err CampaignStillFunding) ;;
  new_status ← do_finalize campaign_id c;
  deposit_event (CampaignFinalized campaign_id new_status) ;;
  writes (insert_campaign campaign_id (set_status new_status c)).

Definition claim_funds (origin : Origin) (campaign_id : Z) : C unit :=
  who ← ensure_signed origin;
  campaign ← get_campaign campaign_id;
  ensure (campaign.(creator) =? who) (err NotCampaignCreator) ;;
  ensure (bool_decide (campaign.(status) = Succeeded)) (err InvalidCampaignStatus) ;;
  let claimable := saturating_sub campaign.(total_raised) campaign.(total_disbursed) in
  ensure (negb (claimable =? 0)) (err NothingToClaim) ;;
  let fee := bps_of claimable campaign.(protocol_fee_bps) in
  let creator_amount := saturating_sub claimable fee in
  let sub_account := campaign_account campaign_id in
  when (negb (fee =? 0)) (
    fee_recipient ← reads effective_protocol_fee_recipient;
    do_transfer campaign.(config).(funding_currency) sub_account fee_recipient fee AllowDeath ;;
    deposit_event (ProtocolFeeCollected campaign_id fee)) ;;
  do_transfer campaign.(config).(funding_currency) sub_account who creator_amount AllowDeath ;;
  writes (insert_campaign campaign_id
    (set_status Completed (set_total_disbursed campaign.(total_raised) campaign))) ;;
  deposit_event (FundsClaimed campaign_id who creator_amount).

Definition claim_creation_deposit (origin : Origin) (campaign_id : Z) : C unit :=
  who ← ensure_signed origin;
  campaign ← get_campaign campaign_id;
  ensure (campaign.(creator) =? who) (err NotCampaignCreator) ;;
  ensure (bool_decide (campaign.(status) ∈ [Completed; Failed; Cancelled]))
    (err InvalidCampaignStatus) ;;
  ensure (negb (campaign.(creation_deposit) =? 0)) (err AlreadyClaimed) ;;
  let deposit := campaign.(creation_deposit) in
  let sub_account := campaign_account campaign_id in
  let existence_req :=
    match campaign.(config).(funding_currency) with
    | Asset _ => if 0 <? campaign.(investor_count) then KeepAlive else AllowDeath
    | Native => AllowDeath
    end in
  calls (transfer sub_account who deposit existence_req) ;;
  writes (insert_campaign campaign_id (set_creation_deposit 0 campaign)) ;;
  writes (λ s, put_CreatorCampaigns
    (<[who := remove_first campaign_id (creator_campaigns who s)]> s.(CreatorCampaigns)) s) ;;
  writes (clear_whitelist campaign_id) ;;
  deposit_event (CreationDepositClaimed campaign_id who deposit).

(** [MilestoneStatuses::try_mutate]: a status moves to [to] from one of [from]. *)
Definition move_milestone (campaign_id index : Z) (from : list MilestoneStatus)
    (to : MilestoneStatus) : C unit :=
  o ← reads (λ s, s.(MilestoneStatuses) !! (campaign_id, index));
  st ← ok_or o (err InvalidMilestoneIndex);
  ensure (bool_decide (st ∈ from)) (err InvalidMilestoneStatus) ;;
  writes (insert_milestone_status campaign_id index to).

Definition submit_milestone (origin : Origin) (campaign_id index : Z) : C unit :=
  who ← ensure_signed origin;
  campaign ← get_campaign campaign_id;
  ensure (campaign.(creator) =? who) (err NotCampaignCreator) ;;
  ensure (bool_decide (campaign.(status) = MilestonePhase)) (err InvalidCampaignStatus) ;;
  move_milestone campaign_id index [Pending; Rejected] Submitted ;;
  deposit_event (MilestoneSubmitted campaign_id index).

Definition approve_milestone (origin : Origin) (campaign_id index : Z) : C unit :=
  ensure_origin MilestoneApprover origin ;;
  campaign ← get_campaign campaign_id;
  ensure (bool_decide (campaign.(status) = MilestonePhase)) (err InvalidCampaignStatus) ;;
  move_milestone campaign_id index [Submitted] Approved ;;
  deposit_event (MilestoneApproved campaign_id index).

Definition reject_milestone (origin : Origin) (campaign_id index : Z) : C unit :=
  ensure_origin MilestoneApprover origin ;;
  campaign ← get_campaign campaign_id;
  ensure (bool_decide (campaign.(status) = MilestonePhase)) (err InvalidCampaignStatus) ;;
  move_milestone campaign_id index [Submitted] Rejected ;;
  deposit_event (MilestoneRejected campaign_id index).

(** [(0..milestones.len() as u8).all(|i| status(i) == Claimed)] *)
Definition milestone_claimed (campaign_id : Z) (s : State) (i : Z) : bool :=
  bool_decide (s.(MilestoneStatuses) !! (campaign_id, i) = Some Claimed).
Definition all_claimed (campaign_id : Z) (milestones : list Milestone) (s : State) : bool :=
  forallb (milestone_claimed campaign_id s) (milestone_indices milestones).

Definition claim_milestone_funds (origin : Origin) (campaign_id index : Z) : C unit :=
  who ← ensure_signed origin;
  campaign ← get_campaign campaign_id;
  ensure (campaign.(creator) =? who) (err NotCampaignCreator) ;;
  ensure (bool_decide (campaign.(status) = MilestonePhase)) (err InvalidCampaignStatus) ;;
  o ← reads (λ s, s.(MilestoneStatuses) !! (campaign_id, index));
  ms_status ← ok_or o (err InvalidMilestoneIndex);
  ensure (bool_decide (ms_status = Approved)) (err InvalidMilestoneStatus) ;;
  milestones ← match campaign.(config).(funding_model) with
               | MilestoneBased _ milestones => mret milestones
               | _ => fail (err InvalidFundingModel)
               end;
  milestone ← ok_or (milestones !! Z.to_nat index) (err InvalidMilestoneIndex);
  let raw_release := bps_of campaign.(total_raised) milestone.(release_bps) in
  let remaining := saturating_sub campaign.(total_raised) campaign.(total_disbursed) in
  let release_amount := Z.min raw_release remaining in
  let fee := bps_of release_amount campaign.(protocol_fee_bps) in
  let creator_amount := saturating_sub release_amount fee in
  let sub_account := campaign_account campaign_id in
  when (negb (fee =? 0)) (
    fee_recipient ← reads effective_protocol_fee_recipient;
    do_transfer campaign.(config).(funding_currency) sub_account fee_recipient fee AllowDeath ;;
    deposit_event (ProtocolFeeCollected campaign_id fee)) ;;
  do_transfer campaign.(config).(funding_currency) sub_account who creator_amount AllowDeath ;;
  let c1 := set_total_disbursed
    (saturating_add U128_MAX campaign.(total_disbursed) release_amount) campaign in
  writes (insert_milestone_status campaign_id index Claimed) ;;
  claimed ← reads (all_claimed campaign_id milestones);
  let c2 := if claimed : bool then set_status Completed c1 else c1 in
  writes (insert_campaign campaign_id c2) ;;
  deposit_event (MilestoneFundsClaimed campaign_id index creator_amount).

Definition pause_campaign (origin : Origin) (campaign_id : Z) : C unit :=
  ensure_origin AdminOrigin origin ;;
  c ← get_campaign campaign_id;
  ensure (bool_decide (c.(status) = Funding)) (err CampaignNotFunding) ;;
  now ← asks block_number;
  writes (insert_campaign campaign_id (set_status Paused (set_paused_at (Some now) c))) ;;
  deposit_event (CampaignPaused campaign_id).

(** The deadline after a pause: later by the length of the pause. *)
Definition extended_deadline (c : Campaign) (now : BlockNumber) : BlockNumber :=
  match c.(paused_at) with
  | Some paused_at =>
      saturating_add U32_MAX c.(config).(deadline) (saturating_sub now paused_at)
  | None => c.(config).(deadline)
  end.

Definition resume_campaign (origin : Origin) (campaign_id : Z) : C unit :=
  ensure_origin AdminOrigin origin ;;
  c ← get_campaign campaign_id;
  ensure (bool_decide (c.(status) = Paused)) (err CampaignNotPaused) ;;
  now ← asks block_number;
  let c1 := set_config (set_deadline (extended_deadline c now) c.(config)) c in
  match c1.(rwa_asset_id), c1.(participation_id) with
  | Some asset_id, Some part_id =>
      expiry ← asks (license_expiry asset_id part_id);
      ensure_some expiry (λ expiry, c1.(config).(deadline) <? expiry)
        (err CampaignExceedsLicenseExpiry)
  | _, _ => mret tt
  end ;;
  writes (insert_campaign campaign_id (set_status Funding (set_paused_at None c1))) ;;
  deposit_event (CampaignResumed campaign_id).

Definition add_to_whitelist (origin : Origin) (campaign_id : Z) (account : AccountId) : C unit :=
  who ← ensure_signed origin;
  campaign ← get_campaign campaign_id;
  ensure (campaign.(creator) =? who) (err NotCampaignCreator) ;;
  ensure (bool_decide (campaign.(status) ∈ [Funding; Paused])) (err InvalidCampaignStatus) ;;
  present ← reads (whitelisted campaign_id account);
  when (negb present) (
    count ← reads (whitelist_count campaign_id);
    ensure (count <? MaxWhitelistSize) (err WhitelistFull) ;;
    writes (λ s, put_CampaignWhitelistCount
      (<[campaign_id := count + 1]> s.(CampaignWhitelistCount)) s)) ;;
  writes (λ s, put_CampaignWhitelist
    (<[(campaign_id, account) := true]> s.(CampaignWhitelist)) s).

Definition remove_from_whitelist (origin : Origin) (campaign_id : Z) (account : AccountId) : C unit :=
  who ← ensure_signed origin;
  campaign ← get_campaign campaign_id;
  ensure (campaign.(creator) =? who) (err NotCampaignCreator) ;;
  ensure (bool_decide (campaign.(status) ∈ [Funding; Paused])) (err InvalidCampaignStatus) ;;
  present ← reads (whitelisted campaign_id account);
  when present (writes (λ s, put_CampaignWhitelistCount
    (<[campaign_id := saturating_sub (whitelist_count campaign_id s) 1]>
       s.(CampaignWhitelistCount)) s)) ;;
  writes (λ s, put_CampaignWhitelist
    (delete (campaign_id, account) s.(CampaignWhitelist)) s).

Definition set_protocol_config (origin : Origin) (new_fee_bps : Z)
    (new_recipient : AccountId) : C unit :=
  ensure_origin AdminOrigin origin ;;
  ensure (new_fee_bps <=? 10000) (err InvalidFeeBps) ;;
  writes (put_ProtocolFeeBpsOverride (Some new_fee_bps)) ;;
  writes (put_ProtocolFeeRecipientOverride (Some new_recipient)) ;;
  deposit_event (ProtocolConfigUpdated new_fee_bps new_recipient).

Definition report_license_revoked (origin : Origin) (campaign_id : Z) : C unit :=
  ensure_signed origin ;;
  c ← get_campaign campaign_id;
  ids ← match c.(rwa_asset_id), c.(participation_id) with
        | Some a, Some p => mret (a, p)
        | _, _ => fail (err NoLinkedLicense)
        end;
  ensure (bool_decide (c.(status) ∈ [Funding; Paused; MilestonePhase]))
    (err InvalidCampaignStatus) ;;
  active ← asks (is_license_active ids.1 ids.2);
  ensure (negb active) (err LicenseNotActive) ;;
  writes (clear_milestones campaign_id c) ;;
  writes (insert_campaign campaign_id (set_status Cancelled c)) ;;
  writes (clear_whitelist campaign_id) ;;
  deposit_event (CampaignLicenseReported campaign_id) ;;
  deposit_event (CampaignCancelled campaign_id).

Definition force_finalize_campaign (origin : Origin) (campaign_id : Z) : C unit :=
  ensure_origin ForceOrigin origin ;;
  c ← get_campaign campaign_id;
  ensure (bool_decide (c.(status) = Funding)) (err InvalidCampaignStatus) ;;
  new_status ← do_finalize campaign_id c;
  deposit_event (CampaignForceFinalized campaign_id new_status) ;;
  writes (insert_campaign campaign_id (set_status new_status c)).

(** [Call] and its dispatch. *)
Inductive Call :=
| Create_campaign (config : CampaignConfig) (custom_rules : option (list EligibilityRule))
    (license : option (Z * Z))
| Cancel_campaign (campaign_id : Z)
| Set_default_eligibility (rules : list EligibilityRule)
| Invest (campaign_id : Z) (amount : Balance)
| Withdraw_investment (campaign_id : Z) (amount : Balance)
| Claim_refund (campaign_id : Z)
| Finalize_campaign (campaign_id : Z)
| Claim_funds (campaign_id : Z)
| Claim_creation_deposit (campaign_id : Z)
| Submit_milestone (campaign_id index : Z)
| Approve_milestone (campaign_id index : Z)
| Reject_milestone (campaign_id index : Z)
| Claim_milestone_funds (campaign_id index : Z)
| Pause_campaign (campaign_id : Z)
| Resume_campaign (campaign_id : Z)
| Add_to_whitelist (campaign_id : Z) (account : AccountId)
| Remove_from_whitelist (campaign_id : Z) (account : AccountId)
| Set_protocol_config (new_fee_bps : Z) (new_recipient : AccountId)
| Report_license_revoked (campaign_id : Z)
| Force_finalize_campaign (campaign_id : Z).

Definition dispatch (origin : Origin) (call : Call) : C unit :=
  match call with
  | Create_campaign config custom_rules license =>
      create_campaign origin config custom_rules license
  | Cancel_campaign id => cancel_campaign origin id
  | Set_default_eligibility rules => set_default_eligibility origin rules
  | Invest id amount => invest origin id amount
  | Withdraw_investment id amount => withdraw_investment origin id amount
  | Claim_refund id => claim_refund origin id
  | Finalize_campaign id => finalize_campaign origin id
  | Claim_funds id => claim_funds origin id
  | Claim_creation_deposit id => claim_creation_deposit origin id
  | Submit_milestone id index => submit_milestone origin id index
  | Approve_milestone id index => approve_milestone origin id index
  | Reject_milestone id index => reject_milestone origin id index
  | Claim_milestone_funds id index => claim_milestone_funds origin id index
  | Pause_campaign id => pause_campaign origin id
  | Resume_campaign id => resume_campaign origin id
  | Add_to_whitelist id account => add_to_whitelist origin id account
  | Remove_from_whitelist id account => remove_from_whitelist origin id account
  | Set_protocol_config bps recipient => set_protocol_config origin bps recipient
  | Report_license_revoked id => report_license_revoked origin id
  | Force_finalize_campaign id => force_finalize_campaign origin id
  end.

(** ** Runtime API *)

(** The rule as [check_eligibility] evaluates it to name the error. *)
Definition rule_passes_api (who : AccountId) (campaign_id : Z) (e : CEnv W)
    (rule : EligibilityRule) : bool :=
  match rule with
  | NativeBalance min_balance => min_balance <=? free_balance who (world e)
  | AssetBalance asset_id min_balance =>
      min_balance <=? asset_balance asset_id who (world e)
  | NftOwnership required_sets =>
      forallb (λ set, existsb (λ '(cid, iid),
        match nft_owner cid iid (world e) with
        | Some owner => owner =? who
        | None => false
        end) set) required_sets
  | AccountWhitelist =>
      bool_decide (is_Some ((store e).(CampaignWhitelist) !! (campaign_id, who)))
  end.

Definition eligibility_error (rule : EligibilityRule) : EligibilityErrors.EligibilityError :=
  match rule with
  | NativeBalance _ => EligibilityErrors.InsufficientNativeBalance
  | AssetBalance _ _ => EligibilityErrors.InsufficientAssetBalance
  | NftOwnership _ => EligibilityErrors.NftOwnershipNotMet
  | AccountWhitelist => EligibilityErrors.NotWhitelisted
  end.

Definition check_eligibility (campaign_id : Z) (who : AccountId) (e : CEnv W)
    : result EligibilityErrors.EligibilityError unit :=
  match (store e).(Campaigns) !! campaign_id with
  | None => Err EligibilityErrors.CampaignNotFound
  | Some campaign =>
      match check_eligibility_inner who campaign campaign_id e with
      | Ok _ => Ok tt
      | Err _ =>
          match List.find (λ rule, negb (rule_passes_api who campaign_id e rule))
                  campaign.(eligibility_rules) with
          | Some rule => Err (eligibility_error rule)
          | None => Err EligibilityErrors.CampaignNotFound
          end
      end
  end.

Definition preview_withdrawal (campaign_id : Z) (investor : AccountId) (amount : Balance)
    (s : State) : option WithdrawalPreview :=
  campaign ← s.(Campaigns) !! campaign_id;
  investment ← s.(Investments) !! (campaign_id, investor);
  let remaining :=
    saturating_sub investment.(total_invested) investment.(total_withdrawn) in
  if (remaining <? amount) || (amount =? 0) then None
  else
    let penalty_bps :=
      match campaign.(status) with
      | Funding =>
          default EarlyWithdrawalPenaltyBps campaign.(config).(early_withdrawal_penalty_bps)
      | _ => 0
      end in
    let penalty :=
      if 0 <? penalty_bps then
        saturating_add U128_MAX (saturating_mul U128_MAX amount penalty_bps) 9999 / 10000
      else 0 in
    Some (mkWithdrawalPreview amount penalty (saturating_sub amount penalty) penalty_bps).

Definition campaign_summary (campaign_id : Z) (e : CEnv W) : option CampaignSummary :=
  c ← (store e).(Campaigns) !! campaign_id;
  let now := block_number (world e) in
  let goal :=
    match c.(config).(funding_model) with
    | AllOrNothing goal => Some goal
    | MilestoneBased goal _ => Some goal
    | KeepWhatYouRaise _ => None
    end in
  let remaining_blocks :=
    if now <? c.(config).(deadline)
    then Some (saturating_sub c.(config).(deadline) now) else None in
  let funding_percentage_ppm :=
    match goal with
    | Some g => if negb (g =? 0) then from_rational c.(total_raised) g else 0
    | None => 0
    end in
  let milestones :=
    match c.(config).(funding_model) with
    | MilestoneBased _ ms =>
        let completed :=
          List.filter (milestone_claimed campaign_id (store e)) (milestone_indices ms) in
        (Some (wrap U8_MAX (Z.of_nat (length completed))),
         Some (wrap U8_MAX (Z.of_nat (length ms))))
    | _ => (None, None)
    end in
  Some (mkCampaignSummary c.(status) c.(total_raised) goal c.(config).(hard_cap)
    c.(investor_count) remaining_blocks funding_percentage_ppm milestones.1 milestones.2
    c.(rwa_asset_id) c.(participation_id)).

Definition campaigns_by_creator (who : AccountId) (s : State) : list Z :=
  creator_campaigns who s.
Definition campaigns_by_investor (who : AccountId) (s : State) : list Z :=
  investor_campaigns who s.
Definition get_investment (campaign_id : Z) (investor : AccountId) (s : State)
    : option Investment := s.(Investments) !! (campaign_id, investor).
Definition get_protocol_config (s : State) : Z * AccountId :=
  (default ProtocolFeeBps s.(ProtocolFeeBpsOverride),
   default ProtocolFeeRecipient s.(ProtocolFeeRecipientOverride)).
End pallet.

(** ** [do_try_state], the pallet's own statement of its invariant *)

(** [Investments::iter_prefix(id).filter(|inv| invested > withdrawn).count()] *)
Definition active_investors (id : Z) (s : State) : Z :=
  prefix_sum id (λ _ inv, if inv.(total_withdrawn) <? inv.(total_invested) then 1 else 0)
    s.(Investments).

Definition do_try_state (s : State) : result string unit :=
  and_then
    (if s.(NextCampaignId) <? wrap U32_MAX (Z.of_nat (size s.(Campaigns)))
     then Err "NextCampaignId is less than the number of campaigns" else Ok tt)
  (and_then
    (try_for_each (map_to_list s.(Campaigns)) (λ '(_, c),
      if c.(total_raised) <? c.(total_disbursed)
      then Some "Campaign total_disbursed exceeds total_raised" else None))
  (and_then
    (try_for_each (map_to_list s.(Investments)) (λ '(_, inv),
      if inv.(total_invested) <? inv.(total_withdrawn)
      then Some "Investment total_withdrawn exceeds total_invested" else None))
  (and_then
    (try_for_each (map_to_list s.(CreatorCampaigns)) (λ '(_, ids),
      if existsb (λ id, bool_decide (s.(Campaigns) !! id = None)) ids
      then Some "CreatorCampaigns references non-existent campaign" else None))
  (and_then
    (try_for_each (map_to_list s.(InvestorCampaigns)) (λ '(_, ids),
      if existsb (λ id, bool_decide (s.(Campaigns) !! id = None)) ids
      then Some "InvestorCampaigns references non-existent campaign" else None))
  (and_then
    (try_for_each (map_to_list s.(Campaigns)) (λ '(id, c),
      if bool_decide (c.(status) ∈ [Failed; Cancelled; Completed]) then None
      else if negb (c.(investor_count) =? wrap U32_MAX (active_investors id s))
      then Some "Campaign investor_count inconsistent with Investments" else None))
  (and_then
    (try_for_each (map_to_list s.(CampaignWhitelist)) (λ '((id, _), _),
      if bool_decide (s.(Campaigns) !! id = None)
      then Some "CampaignWhitelist references non-existent campaign" else None))
    (try_for_each (map_to_list s.(MilestoneStatuses)) (λ '((id, _), _),
      match s.(Campaigns) !! id with
      | None => Some "MilestoneStatuses references non-existent campaign"
      | Some c =>
          if bool_decide (c.(status) ∈ [MilestonePhase; Completed]) then None
          else Some "MilestoneStatuses exists for campaign not in MilestonePhase/Completed"
      end)))))))).
