(* ===== verification/CrowdfundingMath.v ===== *)
(** * pallet-crowdfunding: fees, penalties and proportional refunds

    The arithmetic of [bps_of] and of the refund of a partly disbursed
    campaign. *)

From S2P Require Import Prelude Arith Frame Crowdfunding.

(** ** Basis points *)

(** Amounts below this bound never saturate the product in [bps_of]. *)
Definition bps_safe (a : Balance) : Prop := 0 ≤ a ∧ a * 10000 + 9999 ≤ U128_MAX.

Section bps.
Implicit Types (a b bps : Z).

Lemma bps_of_nonneg a bps : 0 ≤ a → 0 ≤ bps → 0 ≤ bps_of a bps.
Proof.
  intros Ha Hb. unfold bps_of. destruct (_ =? 0); [done|].
  apply Z.div_pos; [|done]. unfold saturating_mul. ulia.
Qed.

Lemma bps_of_le a bps : 0 ≤ a → 0 ≤ bps → bps_of a bps ≤ a.
Proof.
  intros Ha Hb. unfold bps_of. destruct (_ =? 0); [done|].
  assert (a * Z.min bps 10000 ≤ a * 10000) by nia.
  apply Z.lt_succ_r, Z.div_lt_upper_bound; [done|].
  unfold saturating_mul, saturating_add, saturating_sub. lia.
Qed.

(** Within the bound, [bps_of] is the quotient rounded up. *)
Lemma bps_of_ceil a bps :
  bps_safe a → 0 ≤ bps →
  10000 * (bps_of a bps - 1) < a * Z.min bps 10000 ≤ 10000 * bps_of a bps.
Proof.
  intros [Ha Hs] Hb. unfold bps_of. destruct (Z.eqb_spec (Z.min bps 10000) 0) as [->|Hne]; [lia|].
  set (k := Z.min bps 10000) in *. assert (0 ≤ a * k ≤ a * 10000) by nia.
  unfold saturating_mul, saturating_add, saturating_sub. rewrite !Z.min_r by lia.
  change (Z.max 0 (10000 - 1)) with 9999.
  pose proof (Z.div_mod (a * k + 9999) 10000 ltac:(lia)).
  pose proof (Z.mod_pos_bound (a * k + 9999) 10000 ltac:(lia)). lia.
Qed.

Lemma bps_of_pos a bps : bps_safe a → 0 < a → 0 < bps → 1 ≤ bps_of a bps.
Proof. intros Hs Ha Hb. pose proof (bps_of_ceil a bps Hs ltac:(lia)). nia. Qed.

Lemma bps_of_full a bps : bps_safe a → 10000 ≤ bps → bps_of a bps = a.
Proof. intros Hs Hb. pose proof (bps_of_ceil a bps Hs ltac:(lia)). lia. Qed.

Lemma bps_of_split a b bps :
  bps_safe (a + b) → 0 ≤ a → 0 ≤ b → 0 ≤ bps →
  bps_of (a + b) bps ≤ bps_of a bps + bps_of b bps ≤ bps_of (a + b) bps + 1.
Proof.
  intros Hs Ha Hb Hk.
  assert (bps_safe a) as Hsa by (unfold bps_safe in *; lia).
  assert (bps_safe b) as Hsb by (unfold bps_safe in *; lia).
  pose proof (bps_of_ceil _ bps Hs Hk). pose proof (bps_of_ceil _ bps Hsa Hk).
  pose proof (bps_of_ceil _ bps Hsb Hk). lia.
Qed.

(** The shares of all milestones add up to at least the whole. *)
Lemma bps_of_sum a l :
  bps_safe a → Forall (λ k, 0 ≤ k ≤ 10000) l →
  a * foldr Z.add 0 l ≤ 10000 * foldr Z.add 0 (bps_of a <$> l).
Proof.
  intros Hs. induction l as [|k l IH]; intros Hl; [simpl; lia|].
  rewrite fmap_cons. cbn [foldr]. apply Forall_cons in Hl as [Hk Hl]. specialize (IH Hl).
  pose proof (bps_of_ceil a k Hs ltac:(lia)). rewrite Z.min_l in * by lia.
  rewrite Z.mul_add_distr_l. lia.
Qed.
End bps.

(** ** Proportional refunds *)

Lemma refund_of_undisbursed c raw : c.(total_disbursed) = 0 → refund_of c raw = raw.
Proof. intros Hd. unfold refund_of. by rewrite Hd. Qed.

Lemma refund_of_bounds c raw :
  0 ≤ c.(total_disbursed) ≤ c.(total_raised) → 0 ≤ raw → 0 ≤ refund_of c raw ≤ raw.
Proof.
  intros Hd Hr. unfold refund_of. destruct (negb _ && negb _) eqn:Hb; [|lia]. bool_facts.
  rewrite saturating_sub_exact by lia.
  pose proof (from_rational_bounds (c.(total_raised) - c.(total_disbursed)) c.(total_raised)
    ltac:(lia) ltac:(lia)).
  split; [apply permill_mul_nonneg; lia|by apply permill_mul_le].
Qed.

(** A refund exceeds the exact proportional share by at most one half. *)
Lemma refund_of_share c raw :
  0 ≤ c.(total_disbursed) ≤ c.(total_raised) → 0 < c.(total_raised) → 0 ≤ raw →
  2 * refund_of c raw * c.(total_raised)
    ≤ 2 * raw * (c.(total_raised) - c.(total_disbursed)) + c.(total_raised).
Proof.
  intros Hd Hr Hraw. unfold refund_of. destruct (negb _ && negb _) eqn:Hb.
  2: { apply andb_false_iff in Hb as [Hb|Hb]; bool_facts; nia. }
  bool_facts. rewrite saturating_sub_exact by lia.
  set (p := c.(total_raised) - c.(total_disbursed)). set (q := c.(total_raised)) in *.
  pose proof (from_rational_bounds p q ltac:(lia) ltac:(lia)) as Hfr.
  pose proof (from_rational_floor p q ltac:(lia) ltac:(lia)) as Hfl.
  pose proof (permill_mul_bounds (from_rational p q) raw Hfr Hraw) as [_ Hub].
  assert (q * from_rational p q ≤ PERMILL_ACCURACY * p) as Hle.
  { rewrite Hfl. apply Z.mul_div_le. lia. }
  unfold PERMILL_ACCURACY in *. nia.
Qed.
