(* ===== verification/CrowdfundingSpec.v ===== *)
(** * pallet-crowdfunding: what each dispatchable does

    For every dispatchable, the facts a successful run establishes: the guards
    that held, the payments made, and the storage it leaves.  The invariants
    of CrowdfundingInv.v and the solvency of CrowdfundingFunds.v are proved
    from these lemmas alone. *)

From S2P Require Import Prelude Arith Errors Frame Crowdfunding.
Import CrowdfundingErrors.

Section spec.
Context {W : Type} `{!System W, !Currency W, !Fungibles W, !NftInspect W}
  `{!LicenseVerifier W} {T : Config}.
Implicit Types (e : CEnv W) (s : State) (w : W) (c : Campaign).

(** ** Payments *)

(** The change of the surroundings a call of [do_transfer] makes. *)
Definition pay (cur : PaymentCurrency) (from to : AccountId) (amount : Balance)
    (r : ExistenceRequirement) (w w' : W) : Prop :=
  if amount =? 0 then w' = w
  else
    match cur with
    | Native => transfer from to amount r w = Ok (tt, w')
    | Asset a =>
        ∃ b, asset_transfer a from to amount
               (match r with KeepAlive => Preserve | AllowDeath => Expendable end) w
             = Ok (b, w')
    end.

Definition burn (cur : PaymentCurrency) (who : AccountId) (amount : Balance)
    (r : ExistenceRequirement) (w w' : W) : Prop :=
  if amount =? 0 then w' = w
  else
    match cur with
    | Native => withdraw who amount r w = Ok (tt, w')
    | Asset a => ∃ b, asset_burn_from a who amount w = Ok (b, w')
    end.

(** The protocol fee, when there is one, then the creator's share. *)
Definition pay_split (cur : PaymentCurrency) (id : Z) (recipient who : AccountId)
    (fee share : Balance) (w w' : W) : Prop :=
  ∃ w1, pay cur (campaign_account id) recipient fee AllowDeath w w1 ∧
        pay cur (campaign_account id) who share AllowDeath w1 w'.

Lemma do_transfer_ok cur from to amount r e u e' :
  do_transfer cur from to amount r e = Ok (u, e') ↔
  ∃ w', pay cur from to amount r (world e) w' ∧ e' = mkEnv (store e) w' (events e).
Proof.
  unfold do_transfer, pay. destruct u. destruct (amount =? 0).
  - rewrite ret_ok. destruct e. naive_solver.
  - destruct cur.
    + rewrite calls_ok. naive_solver.
    + rewrite bind_ok. setoid_rewrite calls_ok. setoid_rewrite ret_ok. naive_solver.
Qed.

Lemma do_burn_ok cur who amount r e u e' :
  do_burn cur who amount r e = Ok (u, e') ↔
  ∃ w', burn cur who amount r (world e) w' ∧ e' = mkEnv (store e) w' (events e).
Proof.
  unfold do_burn, burn. destruct u. destruct (amount =? 0).
  - rewrite ret_ok. destruct e. naive_solver.
  - destruct cur.
    + rewrite calls_ok. naive_solver.
    + rewrite bind_ok. setoid_rewrite calls_ok. setoid_rewrite ret_ok. naive_solver.
Qed.

Lemma when_burn_ok cur who amount r e u e' :
  when (negb (amount =? 0)) (do_burn cur who amount r) e = Ok (u, e') ↔
  ∃ w', burn cur who amount r (world e) w' ∧ e' = mkEnv (store e) w' (events e).
Proof.
  rewrite when_ok, do_burn_ok. unfold burn. destruct e, (amount =? 0); naive_solver.
Qed.

(** The payment of the protocol fee in the two claims of the creator. *)
Lemma when_fee_ok cur from fee r ev e u e' :
  when (negb (fee =? 0)) (
    fee_recipient ← reads effective_protocol_fee_recipient;
    do_transfer cur from fee_recipient fee r ;;
    deposit_event ev) e = Ok (u, e') →
  ∃ w' evs, pay cur from (effective_protocol_fee_recipient (store e)) fee r (world e) w' ∧
            e' = mkEnv (store e) w' evs.
Proof.
  rewrite when_ok. intros [[Hf H]|[Hf ->]].
  - einv. match goal with H : do_transfer _ _ _ _ _ _ = _ |- _ =>
      apply do_transfer_ok in H as (? & ? & ->) end. eauto.
  - exists (world e), (events e). unfold pay. apply negb_false_iff in Hf. rewrite Hf.
    by destruct e.
Qed.

Lemma get_campaign_ok id e c e' :
  get_campaign id e = Ok (c, e') ↔ (store e).(Campaigns) !! id = Some c ∧ e' = e.
Proof.
  unfold get_campaign. rewrite bind_ok. setoid_rewrite reads_ok.
  setoid_rewrite ok_or_ok. naive_solver.
Qed.

Lemma check_eligibility_inner_ok who c id e u e' :
  check_eligibility_inner who c id e = Ok (u, e') ↔
  e' = e ∧ Forall (λ r, rule_passes who id e r = true) c.(eligibility_rules).
Proof.
  unfold check_eligibility_inner. destruct u.
  induction c.(eligibility_rules) as [|r rs IH].
  - rewrite for_each_nil_ok, Forall_nil. naive_solver.
  - rewrite for_each_cons_ok, Forall_cons. setoid_rewrite bind_ok.
    setoid_rewrite gets_ok. setoid_rewrite ensure_ok. naive_solver.
Qed.

(** The status [do_finalize] chooses. *)
Definition outcome (c : Campaign) : CampaignStatus :=
  match c.(config).(funding_model) with
  | AllOrNothing goal => if goal <=? c.(total_raised) then Succeeded else Failed
  | KeepWhatYouRaise (Some cap) => if c.(total_raised) <? cap then Failed else Succeeded
  | KeepWhatYouRaise None => Succeeded
  | MilestoneBased goal _ => if goal <=? c.(total_raised) then MilestonePhase else Failed
  end.

Definition initial_milestones (id : Z) (c : Campaign) (m : gmap (Z * Z) MilestoneStatus)
    : gmap (Z * Z) MilestoneStatus :=
  match c.(config).(funding_model) with
  | MilestoneBased goal ms =>
      if goal <=? c.(total_raised) then
        foldl (λ m i, <[(id, wrap U8_MAX i) := Pending]> m) m
          (seqZ 0 (Z.of_nat (length ms)))
      else m
  | _ => m
  end.

Lemma do_finalize_ok id c e st e' :
  do_finalize id c e = Ok (st, e') ↔
  st = outcome c ∧
  e' = mkEnv (put_MilestoneStatuses
               (initial_milestones id c (store e).(MilestoneStatuses)) (store e))
         (world e) (events e).
Proof.
  unfold do_finalize, outcome, initial_milestones.
  destruct (funding_model _) as [g|[cap|]|g ms].
  1-3: rewrite ret_ok; destruct e as [[] ? ?]; naive_solver.
  destruct (g <=? _).
  - rewrite bind_ok. setoid_rewrite writes_ok. setoid_rewrite ret_ok. naive_solver.
  - rewrite ret_ok; destruct e as [[] ? ?]; naive_solver.
Qed.

Lemma move_milestone_ok id i from to e u e' :
  move_milestone id i from to e = Ok (u, e') ↔
  ∃ st, (store e).(MilestoneStatuses) !! (id, i) = Some st ∧ st ∈ from ∧
        e' = mkEnv (insert_milestone_status id i to (store e)) (world e) (events e).
Proof.
  unfold move_milestone. destruct u. split.
  - intros H. einv. bool_facts. eauto.
  - intros (st & Hst & Hin & ->).
    repeat (setoid_rewrite bind_ok || setoid_rewrite reads_ok || setoid_rewrite ok_or_ok
      || setoid_rewrite ensure_ok || setoid_rewrite writes_ok).
    repeat eexists; eauto. by apply bool_decide_eq_true.
Qed.
End spec.

(** Splits a successful run of a dispatchable. *)
Ltac cf_step :=
  match goal with
  | H : ensure_signed _ _ = Ok (_, _) |- _ => apply ensure_signed_ok in H as [? ?]; subst
  | H : ensure_origin _ _ _ = Ok (_, _) |- _ => apply ensure_origin_ok in H as [? ?]; subst
  | H : get_campaign _ _ = Ok (_, _) |- _ => apply get_campaign_ok in H as [? ?]; subst
  | H : do_transfer _ _ _ _ _ _ = Ok (_, _) |- _ =>
      apply do_transfer_ok in H as (? & ? & ?); subst
  | H : do_burn _ _ _ _ _ = Ok (_, _) |- _ => apply do_burn_ok in H as (? & ? & ?); subst
  | H : when (negb (_ =? 0)) (do_burn _ _ _ _) _ = Ok (_, _) |- _ =>
      apply when_burn_ok in H as (? & ? & ?); subst
  | H : when (negb (_ =? 0)) (reads effective_protocol_fee_recipient ≫= _) _ = Ok (_, _) |- _ =>
      apply when_fee_ok in H as (? & ? & ? & ?); subst
  | H : check_eligibility_inner _ _ _ _ = Ok (_, _) |- _ =>
      apply check_eligibility_inner_ok in H as [? ?]; subst
  | H : do_finalize _ _ _ = Ok (_, _) |- _ => apply do_finalize_ok in H as [? ?]; subst
  | H : move_milestone _ _ _ _ _ = Ok (_, _) |- _ =>
      apply move_milestone_ok in H as (? & ? & ? & ?); subst
  end.
Ltac cf_steps := repeat first [minv_step | env_step | cf_step].
Ltac cf_inv := cf_steps; simpl in *; cf_steps; simpl in *.

(** ** One lemma per dispatchable *)

Section runs.
Context {W : Type} `{!System W, !Currency W, !Fungibles W, !NftInspect W}
  `{!LicenseVerifier W} {T : Config}.
Implicit Types (e : CEnv W) (s : State) (w : W) (c : Campaign).

(** What [create_campaign] requires of a funding model. *)
Definition valid_model (g : CampaignConfig) : Prop :=
  (∀ goal, g.(funding_model) = AllOrNothing goal → goal ≠ 0) ∧
  (∀ goal ms, g.(funding_model) = MilestoneBased goal ms →
     goal ≠ 0 ∧ foldr Z.add 0 (map release_bps ms) = 10000).

Lemma validate_funding_model_ok g e u e' :
  validate_funding_model g e = Ok (u, e') → valid_model g ∧ e' = e.
Proof.
  unfold validate_funding_model, valid_model. intros H. einv.
  destruct (funding_model g); einv; bool_facts;
    destruct (min_investment g), (max_investment_per_investor g); einv; naive_solver.
Qed.

(** What it requires of a license. *)
Definition license_checked (license : option (Z * Z)) (who : AccountId)
    (dl : BlockNumber) (w : W) : Prop :=
  match license with
  | Some (a, p) =>
      ensure_active_license a p who w = Ok tt ∧
      (∀ ex, license_expiry a p w = Some ex → dl < ex)
  | None => True
  end.

Definition new_campaign (who : AccountId) (g : CampaignConfig)
    (rules : option (list EligibilityRule)) (license : option (Z * Z))
    (now : BlockNumber) (s : State) : Campaign :=
  mkCampaign who Funding g (default s.(DefaultEligibilityRules) rules) 0 0 0
    CampaignCreationDeposit now None (fst <$> license) (snd <$> license)
    (effective_protocol_fee_bps s).

Definition created (who : AccountId) (g : CampaignConfig)
    (rules : option (list EligibilityRule)) (license : option (Z * Z))
    (now : BlockNumber) (s : State) : State :=
  let id := s.(NextCampaignId) in
  put_CreatorCampaigns (<[who := creator_campaigns who s ++ [id]]> s.(CreatorCampaigns))
    (insert_campaign id (new_campaign who g rules license now s)
      (put_NextCampaignId (id + 1) s)).

Lemma create_campaign_run o g rules license e e' :
  create_campaign o g rules license e = Ok (tt, e') →
  ∃ who,
    o = Signed who ∧
    license_checked license who g.(deadline) (world e) ∧
    block_number (world e) < g.(deadline) ∧
    MinCampaignDuration ≤ g.(deadline) - block_number (world e) ≤ MaxCampaignDuration ∧
    (∀ bps, g.(early_withdrawal_penalty_bps) = Some bps → bps ≤ 10000) ∧
    valid_model g ∧
    Z.of_nat (length (creator_campaigns who (store e))) < MaxCampaignsPerCreator ∧
    minimum_balance ≤ CampaignCreationDeposit ∧
    (store e).(NextCampaignId) + 1 ≤ U32_MAX ∧
    transfer who (campaign_account (store e).(NextCampaignId)) CampaignCreationDeposit
      KeepAlive (world e) = Ok (tt, world e') ∧
    store e' = created who g rules license (block_number (world e)) (store e).
Proof.
  unfold create_campaign. intros H. cf_inv.
  match goal with H : validate_funding_model _ _ = Ok _ |- _ =>
    apply validate_funding_model_ok in H as [? ->] end.
  match goal with H : try_push _ _ _ = _ |- _ => apply try_push_Some in H as [? ->] end.
  match goal with H : checked_add _ _ _ = _ |- _ => apply checked_add_Some in H as [? ->] end.
  bool_facts. destruct license as [[a p]|]; cf_inv.
  - match goal with H : map_err _ ?r = Ok _ |- _ =>
      destruct r eqn:Hl; simpl in H; [|done]; minv end.
    match goal with H : saturating_sub _ _ ≤ _ |- _ => rewrite saturating_sub_exact in * by lia end.
    eexists; split_and!; try done; try lia; intros; bool_facts;
      [apply Z.ltb_lt|apply Z.leb_le]; auto.
  - match goal with H : saturating_sub _ _ ≤ _ |- _ => rewrite saturating_sub_exact in * by lia end.
    eexists; split_and!; try done; try lia. intros. apply Z.leb_le; auto.
Qed.

Definition cancelled (id : Z) (c : Campaign) (s : State) : State :=
  clear_whitelist id (insert_campaign id (set_status Cancelled c) (clear_milestones id c s)).

Lemma cancel_campaign_run o id e e' :
  cancel_campaign o id e = Ok (tt, e') →
  ∃ c,
    ForceOrigin o = true ∧ (store e).(Campaigns) !! id = Some c ∧
    (c.(status) ∉ [Cancelled; Completed; Succeeded]) ∧
    world e' = world e ∧ store e' = cancelled id c (store e).
Proof. unfold cancel_campaign. intros H. cf_inv. bool_facts. eexists. by split_and!. Qed.

Lemma report_license_revoked_run o id e e' :
  report_license_revoked o id e = Ok (tt, e') →
  ∃ c a p who,
    o = Signed who ∧ (store e).(Campaigns) !! id = Some c ∧
    c.(rwa_asset_id) = Some a ∧ c.(participation_id) = Some p ∧
    is_license_active a p (world e) = false ∧
    c.(status) ∈ [Funding; Paused; MilestonePhase] ∧
    world e' = world e ∧ store e' = cancelled id c (store e).
Proof.
  unfold report_license_revoked. intros H. cf_inv. bool_facts.
  match goal with H : match rwa_asset_id ?c with _ => _ end _ = _ |- _ =>
    destruct (rwa_asset_id c) eqn:?; [destruct (participation_id c) eqn:?|] end; cf_inv.
  do 4 eexists. split_and!; eauto.
Qed.

Lemma report_license_revoked_total who id c a p e :
  (store e).(Campaigns) !! id = Some c →
  c.(rwa_asset_id) = Some a → c.(participation_id) = Some p →
  c.(status) ∈ [Funding; Paused; MilestonePhase] → is_license_active a p (world e) = false →
  ∃ e', report_license_revoked (Signed who) id e = Ok (tt, e') ∧
    store e' = cancelled id c (store e) ∧ world e' = world e.
Proof.
  intros Hc Ha Hp Hst Hl. unfold report_license_revoked, get_campaign.
  unfold mbind, M_bind, reads, asks, gets. simpl. rewrite Hc. simpl. rewrite Ha, Hp. simpl.
  rewrite bool_decide_true by done. simpl. rewrite Hl. simpl. eexists. split; [done|]. by split.
Qed.

Lemma set_default_eligibility_run o rules e e' :
  set_default_eligibility o rules e = Ok (tt, e') →
  AdminOrigin o = true ∧ world e' = world e ∧
  store e' = put_DefaultEligibilityRules rules (store e).
Proof. unfold set_default_eligibility. intros H. cf_inv. eauto. Qed.

Lemma set_protocol_config_run o bps r e e' :
  set_protocol_config o bps r e = Ok (tt, e') →
  AdminOrigin o = true ∧ bps ≤ 10000 ∧ world e' = world e ∧
  store e' = put_ProtocolFeeRecipientOverride (Some r)
               (put_ProtocolFeeBpsOverride (Some bps) (store e)).
Proof. unfold set_protocol_config. intros H. cf_inv. bool_facts. eauto. Qed.

(** The campaign after an investment of [a]. *)
Definition invested_campaign (is_new : bool) (a : Balance) (c : Campaign) : Campaign :=
  let c1 := set_total_raised (saturating_add U128_MAX c.(total_raised) a) c in
  if is_new then set_investor_count (saturating_add U32_MAX c1.(investor_count) 1) c1 else c1.

Definition invested (who : AccountId) (id : Z) (a : Balance) (c : Campaign) (s : State) : State :=
  let inv := default Investment_default (s.(Investments) !! (id, who)) in
  let is_new := negb (contains (investor_campaigns who s) id) in
  let s1 := insert_campaign id (invested_campaign is_new a c)
    (insert_investment id who
      (mkInvestment (saturating_add U128_MAX inv.(total_invested) a) inv.(total_withdrawn)) s) in
  if is_new
  then put_InvestorCampaigns
         (<[who := investor_campaigns who s ++ [id]]> s.(InvestorCampaigns)) s1
  else s1.

Lemma invest_run o id a e e' :
  invest o id a e = Ok (tt, e') →
  ∃ who c,
    o = Signed who ∧ (store e).(Campaigns) !! id = Some c ∧
    c.(status) = Funding ∧ block_number (world e) ≤ c.(config).(deadline) ∧ a ≠ 0 ∧
    Forall (λ r, rule_passes who id e r = true) c.(eligibility_rules) ∧
    (∀ m, c.(config).(min_investment) = Some m → m ≤ a) ∧
    (∀ cap, c.(config).(hard_cap) = Some cap →
       saturating_add U128_MAX c.(total_raised) a ≤ cap) ∧
    (∀ m, c.(config).(max_investment_per_investor) = Some m →
       let inv := default Investment_default ((store e).(Investments) !! (id, who)) in
       saturating_add U128_MAX (saturating_sub inv.(total_invested) inv.(total_withdrawn)) a
         ≤ m) ∧
    (id ∉ investor_campaigns who (store e) →
       Z.of_nat (length (investor_campaigns who (store e))) < MaxInvestmentsPerInvestor) ∧
    pay c.(config).(funding_currency) who (campaign_account id) a KeepAlive
      (world e) (world e') ∧
    store e' = invested who id a c (store e).
Proof.
  unfold invest. intros H. cf_inv. unfold invested. unfold contains in *.
  destruct (bool_decide (id ∈ _)) eqn:Hin; cf_inv; bool_facts;
    match goal with H : when (bool_decide _) _ _ = _ |- _ =>
      apply when_ok in H as [[_ ?]|[_ ?]] end; cf_inv; subst.
  all: try match goal with H : try_push _ _ _ = _ |- _ => apply try_push_Some in H as [? ->] end.
  all: do 2 eexists; split_and!; try done; try (intros; apply Z.leb_le; by eauto).
  all: by rewrite ?(bool_decide_true _ Hin), ?(bool_decide_false _ Hin).
Qed.

Definition withdrawn_campaign (full : bool) (a : Balance) (c : Campaign) : Campaign :=
  let c1 := set_total_raised (saturating_sub c.(total_raised) a) c in
  if full then set_investor_count (saturating_sub c1.(investor_count) 1) c1 else c1.

Definition withdrawn (who : AccountId) (id : Z) (a : Balance) (c : Campaign)
    (inv : Investment) (s : State) : State :=
  let inv' := mkInvestment inv.(total_invested)
                (saturating_add U128_MAX inv.(total_withdrawn) a) in
  let full := inv'.(total_invested) =? inv'.(total_withdrawn) in
  let s1 := insert_investment id who inv' s in
  insert_campaign id (withdrawn_campaign full a c)
    (if full then remove_investor_campaign who id s1 else s1).

Definition withdrawal_penalty (c : Campaign) (a : Balance) : Balance :=
  bps_of a (default EarlyWithdrawalPenaltyBps c.(config).(early_withdrawal_penalty_bps)).

Lemma withdraw_investment_run o id a e e' :
  withdraw_investment o id a e = Ok (tt, e') →
  ∃ who c inv w1,
    o = Signed who ∧ (store e).(Campaigns) !! id = Some c ∧
    c.(status) ∈ [Funding; Paused] ∧ a ≠ 0 ∧
    (store e).(Investments) !! (id, who) = Some inv ∧
    a ≤ saturating_sub inv.(total_invested) inv.(total_withdrawn) ∧
    let penalty := withdrawal_penalty c a in
    pay c.(config).(funding_currency) (campaign_account id) who
      (saturating_sub a penalty) AllowDeath (world e) w1 ∧
    burn c.(config).(funding_currency) (campaign_account id) penalty AllowDeath
      w1 (world e') ∧
    store e' = withdrawn who id a c inv (store e).
Proof.
  unfold withdraw_investment. intros H. cf_inv. unfold withdrawn, withdrawal_penalty.
  match goal with H : when (?x =? ?y) _ _ = _ |- _ => destruct (x =? y) eqn:Hf end; cf_inv;
    do 4 eexists; split_and!; try (simpl; by rewrite Hf); by bool_facts.
Qed.

Definition refunded (who : AccountId) (id : Z) (c : Campaign) (s : State) : State :=
  insert_campaign id (set_investor_count (saturating_sub c.(investor_count) 1) c)
    (remove_investor_campaign who id
      (put_Investments (delete (id, who) s.(Investments)) s)).

Lemma claim_refund_run o id e e' :
  claim_refund o id e = Ok (tt, e') →
  ∃ who c inv,
    o = Signed who ∧ (store e).(Campaigns) !! id = Some c ∧
    c.(status) ∈ [Failed; Cancelled] ∧
    (store e).(Investments) !! (id, who) = Some inv ∧
    let raw := saturating_sub inv.(total_invested) inv.(total_withdrawn) in
    raw ≠ 0 ∧ refund_of c raw ≠ 0 ∧
    pay c.(config).(funding_currency) (campaign_account id) who (refund_of c raw)
      AllowDeath (world e) (world e') ∧
    store e' = refunded who id c (store e).
Proof.
  unfold claim_refund. intros H. cf_inv. bool_facts. do 3 eexists. split_and!; done.
Qed.

Definition finalized (id : Z) (c : Campaign) (s : State) : State :=
  insert_campaign id (set_status (outcome c) c)
    (put_MilestoneStatuses (initial_milestones id c s.(MilestoneStatuses)) s).

Lemma finalize_campaign_run o id e e' :
  finalize_campaign o id e = Ok (tt, e') →
  ∃ c who,
    o = Signed who ∧ (store e).(Campaigns) !! id = Some c ∧ c.(status) = Funding ∧
    c.(config).(deadline) < block_number (world e) ∧
    world e' = world e ∧ store e' = finalized id c (store e).
Proof. unfold finalize_campaign. intros H. cf_inv. bool_facts. eauto 10. Qed.

Lemma force_finalize_campaign_run o id e e' :
  force_finalize_campaign o id e = Ok (tt, e') →
  ∃ c,
    ForceOrigin o = true ∧ (store e).(Campaigns) !! id = Some c ∧ c.(status) = Funding ∧
    world e' = world e ∧ store e' = finalized id c (store e).
Proof. unfold force_finalize_campaign. intros H. cf_inv. bool_facts. eauto 10. Qed.

Lemma claim_funds_run o id e e' :
  claim_funds o id e = Ok (tt, e') →
  ∃ c,
    o = Signed c.(creator) ∧ (store e).(Campaigns) !! id = Some c ∧
    c.(status) = Succeeded ∧
    let claimable := saturating_sub c.(total_raised) c.(total_disbursed) in
    let fee := bps_of claimable c.(protocol_fee_bps) in
    claimable ≠ 0 ∧
    pay_split c.(config).(funding_currency) id (effective_protocol_fee_recipient (store e))
      c.(creator) fee (saturating_sub claimable fee) (world e) (world e') ∧
    store e' = insert_campaign id
      (set_status Completed (set_total_disbursed c.(total_raised) c)) (store e).
Proof.
  unfold claim_funds, pay_split. intros H. cf_inv. bool_facts. subst. eexists. split_and!; eauto.
Qed.

Definition deposit_returned (id : Z) (c : Campaign) (s : State) : State :=
  clear_whitelist id
    (put_CreatorCampaigns
      (<[c.(creator) := remove_first id (creator_campaigns c.(creator) s)]>
         s.(CreatorCampaigns))
      (insert_campaign id (set_creation_deposit 0 c) s)).

Lemma claim_creation_deposit_run o id e e' :
  claim_creation_deposit o id e = Ok (tt, e') →
  ∃ c r,
    o = Signed c.(creator) ∧ (store e).(Campaigns) !! id = Some c ∧
    c.(status) ∈ [Completed; Failed; Cancelled] ∧ c.(creation_deposit) ≠ 0 ∧
    (r = KeepAlive ↔ c.(config).(funding_currency) ≠ Native ∧ 0 < c.(investor_count)) ∧
    transfer (campaign_account id) c.(creator) c.(creation_deposit) r (world e)
      = Ok (tt, world e') ∧
    store e' = deposit_returned id c (store e).
Proof.
  unfold claim_creation_deposit. intros H. cf_inv. bool_facts. subst.
  do 2 eexists. split_and!; eauto.
  destruct (funding_currency _); [naive_solver|].
  destruct (0 <? _) eqn:?; bool_facts; naive_solver lia.
Qed.

(** The three moves of a milestone before it is paid. *)
Definition milestone_move (from : list MilestoneStatus) (to : MilestoneStatus)
    (id i : Z) e e' : Prop :=
  ∃ c st,
    (store e).(Campaigns) !! id = Some c ∧ c.(status) = MilestonePhase ∧
    (store e).(MilestoneStatuses) !! (id, i) = Some st ∧ st ∈ from ∧
    world e' = world e ∧ store e' = insert_milestone_status id i to (store e).

Lemma submit_milestone_run o id i e e' :
  submit_milestone o id i e = Ok (tt, e') →
  milestone_move [Pending; Rejected] Submitted id i e e'.
Proof.
  unfold submit_milestone, milestone_move. intros H. cf_inv. bool_facts. eauto 10.
Qed.

Lemma approve_milestone_run o id i e e' :
  approve_milestone o id i e = Ok (tt, e') →
  MilestoneApprover o = true ∧ milestone_move [Submitted] Approved id i e e'.
Proof.
  unfold approve_milestone, milestone_move. intros H. cf_inv. bool_facts. eauto 10.
Qed.

Lemma reject_milestone_run o id i e e' :
  reject_milestone o id i e = Ok (tt, e') →
  MilestoneApprover o = true ∧ milestone_move [Submitted] Rejected id i e e'.
Proof.
  unfold reject_milestone, milestone_move. intros H. cf_inv. bool_facts. eauto 10.
Qed.

(** What a milestone releases of the funds of [c]. *)
Definition release (c : Campaign) (m : Milestone) : Balance :=
  Z.min (bps_of c.(total_raised) m.(release_bps))
    (saturating_sub c.(total_raised) c.(total_disbursed)).

Definition milestone_paid (id i : Z) (c : Campaign) (ms : list Milestone) (m : Milestone)
    (s : State) : State :=
  let s1 := insert_milestone_status id i Claimed s in
  let c1 := set_total_disbursed
    (saturating_add U128_MAX c.(total_disbursed) (release c m)) c in
  insert_campaign id (if all_claimed id ms s1 then set_status Completed c1 else c1) s1.

Lemma claim_milestone_funds_run o id i e e' :
  claim_milestone_funds o id i e = Ok (tt, e') →
  ∃ c goal ms m,
    o = Signed c.(creator) ∧ (store e).(Campaigns) !! id = Some c ∧
    c.(status) = MilestonePhase ∧
    c.(config).(funding_model) = MilestoneBased goal ms ∧
    (store e).(MilestoneStatuses) !! (id, i) = Some Approved ∧
    ms !! Z.to_nat i = Some m ∧
    let fee := bps_of (release c m) c.(protocol_fee_bps) in
    pay_split c.(config).(funding_currency) id (effective_protocol_fee_recipient (store e))
      c.(creator) fee (saturating_sub (release c m) fee) (world e) (world e') ∧
    store e' = milestone_paid id i c ms m (store e).
Proof.
  unfold claim_milestone_funds, pay_split. intros H. cf_inv. bool_facts. subst.
  destruct (funding_model _) eqn:?; cf_inv.
  do 4 eexists. split_and!; eauto.
Qed.

Lemma pause_campaign_run o id e e' :
  pause_campaign o id e = Ok (tt, e') →
  ∃ c,
    AdminOrigin o = true ∧ (store e).(Campaigns) !! id = Some c ∧ c.(status) = Funding ∧
    world e' = world e ∧
    store e' = insert_campaign id
      (set_status Paused (set_paused_at (Some (block_number (world e))) c)) (store e).
Proof. unfold pause_campaign. intros H. cf_inv. bool_facts. eexists. by split_and!. Qed.

Definition resumed (c : Campaign) (now : BlockNumber) : Campaign :=
  set_status Funding (set_paused_at None
    (set_config (set_deadline (extended_deadline c now) c.(config)) c)).

Lemma resume_campaign_run o id e e' :
  resume_campaign o id e = Ok (tt, e') →
  ∃ c,
    AdminOrigin o = true ∧ (store e).(Campaigns) !! id = Some c ∧ c.(status) = Paused ∧
    (∀ a p ex, c.(rwa_asset_id) = Some a → c.(participation_id) = Some p →
       license_expiry a p (world e) = Some ex →
       extended_deadline c (block_number (world e)) < ex) ∧
    world e' = world e ∧
    store e' = insert_campaign id (resumed c (block_number (world e))) (store e).
Proof.
  unfold resume_campaign. intros H. cf_inv. bool_facts. eexists.
  destruct (rwa_asset_id _) as [a|] eqn:Ha; [destruct (participation_id _) as [p|] eqn:Hp|];
    cf_inv; split_and!; try done; intros a' p' ex ?? Hex; simplify_eq.
  by apply Z.ltb_lt; eauto.
Qed.

Definition whitelist_added (id : Z) (who : AccountId) (s : State) : State :=
  put_CampaignWhitelist (<[(id, who) := true]> s.(CampaignWhitelist))
    (if whitelisted id who s then s
     else put_CampaignWhitelistCount
            (<[id := whitelist_count id s + 1]> s.(CampaignWhitelistCount)) s).

Lemma add_to_whitelist_run o id who e e' :
  add_to_whitelist o id who e = Ok (tt, e') →
  ∃ c,
    o = Signed c.(creator) ∧ (store e).(Campaigns) !! id = Some c ∧
    c.(status) ∈ [Funding; Paused] ∧
    (whitelisted id who (store e) = false →
       whitelist_count id (store e) < MaxWhitelistSize) ∧
    world e' = world e ∧ store e' = whitelist_added id who (store e).
Proof.
  unfold add_to_whitelist, whitelist_added. intros H. cf_inv. bool_facts. subst.
  destruct (whitelisted _ _ _); cf_inv; bool_facts; subst; eexists; by split_and!.
Qed.

Definition whitelist_removed (id : Z) (who : AccountId) (s : State) : State :=
  put_CampaignWhitelist (delete (id, who) s.(CampaignWhitelist))
    (if whitelisted id who s
     then put_CampaignWhitelistCount
            (<[id := saturating_sub (whitelist_count id s) 1]> s.(CampaignWhitelistCount)) s
     else s).

Lemma remove_from_whitelist_run o id who e e' :
  remove_from_whitelist o id who e = Ok (tt, e') →
  ∃ c,
    o = Signed c.(creator) ∧ (store e).(Campaigns) !! id = Some c ∧
    c.(status) ∈ [Funding; Paused] ∧
    world e' = world e ∧ store e' = whitelist_removed id who (store e).
Proof.
  unfold remove_from_whitelist, whitelist_removed. intros H. cf_inv. bool_facts. subst.
  destruct (whitelisted _ _ _); cf_inv; subst; eauto 10.
Qed.
End runs.
