(* ===== verification/CrowdfundingInv.v ===== *)
(** * pallet-crowdfunding: the invariant of the storage

    The tables of the pallet are related campaign by campaign: everything the
    storage holds for a campaign id (its record, investments, milestone
    statuses, whitelist, and its place in the index lists) is its slice.
    [slice_inv] is the invariant of one slice; a dispatchable touches the
    slice of at most one campaign, so its preservation is proved for that
    slice and framed for the others. *)

From S2P Require Import Prelude Arith Errors Frame Crowdfunding CrowdfundingMath.
From S2P Require Import CrowdfundingSpec.

(** ** Derived quantities *)

Definition net (i : Investment) : Z := i.(total_invested) - i.(total_withdrawn).

(** What investors have in campaign [id]. *)
Definition net_invested (id : Z) (s : State) : Z :=
  prefix_sum id (λ _ i, net i) s.(Investments).

Definition whitelist_size (id : Z) (s : State) : Z :=
  prefix_sum id (λ _ _, 1) s.(CampaignWhitelist).

(** The sum of the shares of the milestones claimed so far, each rounded up. *)
Definition claimed_share (id : Z) (s : State) (raised : Z) (i : nat) (m : Milestone) : Z :=
  if milestone_claimed id s (Z.of_nat i) then bps_of raised m.(release_bps) else 0.
Definition claimed_shares (id : Z) (s : State) (raised : Z) (ms : list Milestone) : Z :=
  foldr Z.add 0 (imap (claimed_share id s raised) ms).

(** ** The invariant *)

Record campaign_inv {T : Config} (s : State) (id : Z) (c : Campaign) : Prop := {
  ci_disbursed : 0 ≤ c.(total_disbursed) ≤ c.(total_raised);
  ci_fits : c.(total_raised) ≤ U128_MAX;
  ci_early : c.(status) ∈ [Funding; Paused; Failed; Succeeded] → c.(total_disbursed) = 0;
  ci_count : c.(investor_count) = active_investors id s;
  ci_count_fits : c.(investor_count) ≤ U32_MAX;
  ci_raised_le : net_invested id s ≤ c.(total_raised);
  ci_raised : (c.(status) ∉ [Failed; Cancelled]) → net_invested id s = c.(total_raised);
  ci_cap : ∀ cap, c.(config).(hard_cap) = Some cap → c.(total_raised) ≤ cap;
  ci_deposit :
    c.(creation_deposit) = CampaignCreationDeposit ∨
    (c.(creation_deposit) = 0 ∧ c.(status) ∈ [Completed; Failed; Cancelled]);
  ci_creator : ∀ who,
    id ∈ creator_campaigns who s ↔ who = c.(creator) ∧ c.(creation_deposit) ≠ 0;
  ci_funding : c.(status) = Funding → c.(paused_at) = None;
  ci_paused : c.(status) = Paused → is_Some c.(paused_at);
  ci_fee : 0 ≤ c.(protocol_fee_bps) ≤ 10000;
  ci_penalty : ∀ bps, c.(config).(early_withdrawal_penalty_bps) = Some bps → 0 ≤ bps ≤ 10000;
  ci_model : valid_model c.(config);
  ci_milestones : ∀ goal ms, c.(config).(funding_model) = MilestoneBased goal ms →
    Z.of_nat (length ms) ≤ U8_MAX ∧ Forall (λ m, fits U16_MAX m.(release_bps)) ms ∧
    c.(status) ≠ Succeeded;
  ci_indices : ∀ i st, s.(MilestoneStatuses) !! (id, i) = Some st →
    c.(status) ∈ [MilestonePhase; Completed] ∧
    ∃ goal ms, c.(config).(funding_model) = MilestoneBased goal ms ∧
               0 ≤ i < Z.of_nat (length ms);
  ci_phase : c.(status) = MilestonePhase →
    ∃ goal ms, c.(config).(funding_model) = MilestoneBased goal ms ∧
      goal ≤ c.(total_raised) ∧
      ∀ i, 0 ≤ i < Z.of_nat (length ms) → is_Some (s.(MilestoneStatuses) !! (id, i));
  ci_paid : ∀ goal ms, c.(config).(funding_model) = MilestoneBased goal ms →
    c.(status) ∈ [MilestonePhase; Completed] →
    c.(total_disbursed) =
      Z.min c.(total_raised) (claimed_shares id s c.(total_raised) ms);
  ci_completed : c.(status) = Completed →
    match c.(config).(funding_model) with
    | MilestoneBased _ ms => all_claimed id ms s = true
    | _ => c.(total_disbursed) = c.(total_raised)
    end;
}.

Record slice_inv {T : Config} (s : State) (id : Z) : Prop := {
  si_rows : ∀ who inv, s.(Investments) !! (id, who) = Some inv →
    0 ≤ inv.(total_withdrawn) ≤ inv.(total_invested) ∧ inv.(total_invested) ≤ U128_MAX;
  si_listed : ∀ who, id ∈ investor_campaigns who s ↔
    ∃ inv, s.(Investments) !! (id, who) = Some inv ∧
           inv.(total_withdrawn) < inv.(total_invested);
  si_absent : s.(Campaigns) !! id = None →
    (∀ who, s.(Investments) !! (id, who) = None) ∧
    (∀ who, s.(CampaignWhitelist) !! (id, who) = None) ∧
    (∀ i, s.(MilestoneStatuses) !! (id, i) = None) ∧
    (∀ who, id ∉ creator_campaigns who s);
  si_id : is_Some (s.(Campaigns) !! id) → 0 ≤ id < s.(NextCampaignId);
  si_whitelist : ∀ who b, s.(CampaignWhitelist) !! (id, who) = Some b → b = true;
  si_whitelist_count :
    whitelist_count id s = whitelist_size id s ∧ whitelist_count id s ≤ MaxWhitelistSize;
  si_campaign : ∀ c, s.(Campaigns) !! id = Some c → campaign_inv s id c;
}.

(** The index lists have no duplicates and stay within their bounds. *)
Record lists_inv {T : Config} (s : State) : Prop := {
  li_creator : ∀ who, NoDup (creator_campaigns who s) ∧
    Z.of_nat (length (creator_campaigns who s)) ≤ Z.max 0 MaxCampaignsPerCreator;
  li_investor : ∀ who, NoDup (investor_campaigns who s) ∧
    Z.of_nat (length (investor_campaigns who s)) ≤ Z.max 0 MaxInvestmentsPerInvestor;
}.

Record Inv {T : Config} (s : State) : Prop := {
  inv_slices : ∀ id, slice_inv s id;
  inv_lists : lists_inv s;
  inv_next : 0 ≤ s.(NextCampaignId) ≤ U32_MAX;
  inv_fee : 0 ≤ effective_protocol_fee_bps s ≤ 10000;
}.

(** What the configuration must satisfy; the runtime's does. *)
Class ValidConfig {T : Config} : Prop := {
  vc_milestones : MaxMilestones ≤ U8_MAX;
  vc_fee : 0 ≤ ProtocolFeeBps ≤ 10000;
  vc_penalty : 0 ≤ EarlyWithdrawalPenaltyBps ≤ 10000;
  vc_whitelist : 0 ≤ MaxWhitelistSize ≤ U32_MAX;
  vc_pallet_id : length PalletId = 8%nat ∧ Forall (fits U8_MAX) PalletId;
  vc_deposit : 0 < CampaignCreationDeposit ≤ U128_MAX;
}.

(** ** Slices *)

(** [s'] holds for campaign [id] what [s] holds. *)
Record same_slice (id : Z) (s s' : State) : Prop := {
  ss_campaign : s'.(Campaigns) !! id = s.(Campaigns) !! id;
  ss_investments : ∀ who, s'.(Investments) !! (id, who) = s.(Investments) !! (id, who);
  ss_milestones : ∀ i, s'.(MilestoneStatuses) !! (id, i) = s.(MilestoneStatuses) !! (id, i);
  ss_whitelist : ∀ who,
    s'.(CampaignWhitelist) !! (id, who) = s.(CampaignWhitelist) !! (id, who);
  ss_count : whitelist_count id s' = whitelist_count id s;
  ss_creator : ∀ who, id ∈ creator_campaigns who s' ↔ id ∈ creator_campaigns who s;
  ss_investor : ∀ who, id ∈ investor_campaigns who s' ↔ id ∈ investor_campaigns who s;
  ss_next : s.(NextCampaignId) ≤ s'.(NextCampaignId);
}.

Section slices.
Context {T : Config}.
Implicit Types (s : State) (c : Campaign).

Lemma claimed_shares_agree id s s' raised ms :
  (∀ i, s'.(MilestoneStatuses) !! (id, i) = s.(MilestoneStatuses) !! (id, i)) →
  claimed_shares id s' raised ms = claimed_shares id s raised ms.
Proof.
  intros Hms. unfold claimed_shares. f_equal. apply imap_ext. intros i m _.
  unfold claimed_share, milestone_claimed. by rewrite Hms.
Qed.

Lemma all_claimed_agree id s s' ms :
  (∀ i, s'.(MilestoneStatuses) !! (id, i) = s.(MilestoneStatuses) !! (id, i)) →
  all_claimed id ms s' = all_claimed id ms s.
Proof.
  intros Hms. unfold all_claimed. induction (milestone_indices ms) as [|i l IH]; [done|].
  simpl. rewrite IH. unfold milestone_claimed. by rewrite Hms.
Qed.

(** The parts of a slice a campaign's invariant looks at. *)
Lemma campaign_inv_agree id s s' c :
  (∀ who, s'.(Investments) !! (id, who) = s.(Investments) !! (id, who)) →
  (∀ i, s'.(MilestoneStatuses) !! (id, i) = s.(MilestoneStatuses) !! (id, i)) →
  (∀ who, id ∈ creator_campaigns who s' ↔ id ∈ creator_campaigns who s) →
  campaign_inv s id c → campaign_inv s' id c.
Proof.
  intros Hinv Hms Hcr [].
  assert (net_invested id s' = net_invested id s) by by apply prefix_sum_agree.
  assert (active_investors id s' = active_investors id s) by by apply prefix_sum_agree.
  split; try done.
  - congruence.
  - lia.
  - intros. rewrite <-ci_raised0; auto.
  - intros who. rewrite Hcr. auto.
  - intros i st. rewrite Hms. apply ci_indices0.
  - intros Hst. destruct (ci_phase0 Hst) as (g & ms & ? & ? & Hall).
    exists g, ms. split_and!; auto. intros i. rewrite Hms. auto.
  - intros. rewrite (claimed_shares_agree id s s') by done. eauto.
  - intros Hst. specialize (ci_completed0 Hst). destruct (funding_model _); try done.
    by rewrite (all_claimed_agree id s s').
Qed.

Lemma slice_inv_frame id s s' : same_slice id s s' → slice_inv s id → slice_inv s' id.
Proof.
  intros [Hc Hi Hm Hw Hwc Hcr Hin Hn] [].
  assert (whitelist_size id s' = whitelist_size id s) by by apply prefix_sum_agree.
  split.
  - intros who inv. rewrite Hi. eauto.
  - intros who. rewrite Hin. setoid_rewrite Hi. eauto.
  - rewrite Hc. intros Hnone. destruct (si_absent0 Hnone) as (?&?&?&Hcc).
    split_and!; intros; rewrite ?Hi, ?Hw, ?Hm, ?Hcr; eauto.
  - rewrite Hc. intros H'. specialize (si_id0 H'). lia.
  - intros who b. rewrite Hw. eauto.
  - lia.
  - intros c. rewrite Hc. intros H'. eapply campaign_inv_agree; eauto.
Qed.
End slices.

(** ** Preservation by the changes the dispatchables make *)

Section preservation.
Context {T : Config}.
Implicit Types (s : State) (c : Campaign).

Lemma same_slice_refl id s : same_slice id s s.
Proof. by split. Qed.

(** A change to the slice of [id] that leaves the lists and settings alone. *)
Lemma Inv_slice id s s' :
  (∀ id', id' ≠ id → same_slice id' s s') →
  (slice_inv s id → slice_inv s' id) →
  CreatorCampaigns s' = CreatorCampaigns s →
  InvestorCampaigns s' = InvestorCampaigns s →
  NextCampaignId s' = NextCampaignId s →
  ProtocolFeeBpsOverride s' = ProtocolFeeBpsOverride s →
  Inv s → Inv s'.
Proof.
  intros Hframe Hid Hc Hi Hn Hf [Hs [Hl1 Hl2] Hnext Hfee]. split.
  - intros id'. destruct (decide (id' = id)) as [->|]; [auto|].
    eapply slice_inv_frame; eauto.
  - split; intros who; unfold creator_campaigns, investor_campaigns in *; rewrite ?Hc, ?Hi; auto.
  - by rewrite Hn.
  - unfold effective_protocol_fee_bps. by rewrite Hf.
Qed.

Lemma insert_campaign_other id c s id' :
  id' ≠ id → same_slice id' s (insert_campaign id c s).
Proof. intros Hne. split; simpl; try done. by rewrite lookup_insert_ne. Qed.

(** Writing back the record of an existing campaign. *)
Lemma Inv_insert_campaign id c c' s :
  Inv s → s.(Campaigns) !! id = Some c →
  (campaign_inv s id c → campaign_inv s id c') →
  Inv (insert_campaign id c' s).
Proof.
  intros HI Hc Hcc. revert HI. apply (Inv_slice id); try done.
  - intros. by apply insert_campaign_other.
  - intros []. split; try done; simpl.
    + by rewrite lookup_insert_eq.
    + intros _. by apply si_id0; rewrite Hc.
    + intros c0. rewrite lookup_insert_eq. intros [= <-].
      apply (campaign_inv_agree id s); auto.
Qed.

(** Clearing the whitelist of a campaign. *)
Lemma clear_whitelist_lookup id s id' who :
  (clear_whitelist id s).(CampaignWhitelist) !! (id', who)
  = if decide (id' = id) then None else s.(CampaignWhitelist) !! (id', who).
Proof.
  simpl. destruct (decide (id' = id)) as [->|].
  - apply map_lookup_filter_None. right. intros b _ Hb. by apply Hb.
  - destruct (s.(CampaignWhitelist) !! (id', who)) eqn:Hw.
    + by apply map_lookup_filter_Some.
    + apply map_lookup_filter_None. by left.
Qed.

Lemma Inv_clear_whitelist `{!ValidConfig} id s : Inv s → Inv (clear_whitelist id s).
Proof.
  apply (Inv_slice id); try done.
  - intros id' Hne. split; try done.
    + intros who. rewrite clear_whitelist_lookup. by rewrite decide_False.
    + unfold whitelist_count. simpl. by rewrite lookup_delete_ne.
  - intros []. pose proof (clear_whitelist_lookup id s id) as Hcl.
    setoid_rewrite decide_True in Hcl; [|done]. split; try done.
    + intros Hnone. destruct (si_absent0 Hnone) as (?&?&?&?). by split_and!.
    + intros who b. rewrite Hcl. done.
    + unfold whitelist_size. rewrite (prefix_sum_none id _ _ Hcl).
      unfold whitelist_count. simpl. rewrite lookup_delete_eq. simpl.
      pose proof vc_whitelist. lia.
    + intros c Hc. apply (campaign_inv_agree id s); auto.
Qed.

(** [set_protocol_config] and [set_default_eligibility]. *)
Lemma Inv_settings s rules bps r :
  0 ≤ bps ≤ 10000 → Inv s →
  Inv (put_DefaultEligibilityRules rules s) ∧
  Inv (put_ProtocolFeeRecipientOverride (Some r) (put_ProtocolFeeBpsOverride (Some bps) s)).
Proof.
  intros Hb HI. split.
  - revert HI. apply (Inv_slice 0); try done. by apply slice_inv_frame.
  - destruct HI as [Hs [Hl1 Hl2] ? ?]. split; try done.
    intros id. by apply (slice_inv_frame id s).
Qed.

(** *** Creation *)

(** A configuration as the types of the call allow it. *)
Record wf_config (g : CampaignConfig) : Prop := {
  wc_milestones : ∀ goal ms, g.(funding_model) = MilestoneBased goal ms →
    Z.of_nat (length ms) ≤ MaxMilestones ∧
    Forall (λ m, fits U16_MAX m.(release_bps)) ms;
  wc_cap : ∀ cap, g.(hard_cap) = Some cap → fits U128_MAX cap;
  wc_penalty : ∀ bps, g.(early_withdrawal_penalty_bps) = Some bps → fits U16_MAX bps;
  wc_deadline : fits U32_MAX g.(deadline);
}.

(** Nothing is stored for the next id. *)
Lemma next_fresh s : Inv s → s.(Campaigns) !! s.(NextCampaignId) = None.
Proof.
  intros [Hs _ _ _]. apply eq_None_not_Some. intros H.
  destruct (si_id _ _ (Hs _) H). lia.
Qed.

Lemma new_campaign_inv `{!ValidConfig} who g rules license now s :
  Inv s → wf_config g → valid_model g →
  (∀ bps, g.(early_withdrawal_penalty_bps) = Some bps → bps ≤ 10000) →
  campaign_inv (created who g rules license now s) s.(NextCampaignId)
    (new_campaign who g rules license now s).
Proof.
  intros HI [Hwm Hcap Hpen _] Hvm Hpen'. pose proof (next_fresh s HI) as Hnone.
  destruct HI as [Hs _ Hnext Hfee].
  destruct (si_absent _ _ (Hs _) Hnone) as (Hinv & Hwl & Hms & Hcr).
  pose proof (vc_milestones (T := T)).
  assert (net_invested s.(NextCampaignId) (created who g rules license now s) = 0) as Hnet
    by by apply prefix_sum_none.
  split; simpl; try done.
  - symmetry. by apply prefix_sum_none.
  - rewrite Hnet. lia.
  - intros cap Hg. by apply Hcap in Hg as [? _].
  - by left.
  - intros who'. unfold creator_campaigns. simpl. destruct (decide (who' = who)) as [->|Hne].
    + rewrite lookup_insert_eq. simpl. pose proof vc_deposit.
      rewrite elem_of_app, list_elem_of_singleton. naive_solver lia.
    + rewrite lookup_insert_ne by done. fold (creator_campaigns who' s). naive_solver.
  - intros bps Hb. destruct (Hpen _ Hb). split; eauto.
  - intros goal ms Hg. destruct (Hwm _ _ Hg). split_and!; auto; lia.
  - intros i st. by rewrite Hms.
  - intros goal ms _ ?. set_solver.
Qed.

Lemma Inv_created `{!ValidConfig} who g rules license now s :
  Inv s → wf_config g → valid_model g →
  (∀ bps, g.(early_withdrawal_penalty_bps) = Some bps → bps ≤ 10000) →
  Z.of_nat (length (creator_campaigns who s)) < MaxCampaignsPerCreator →
  s.(NextCampaignId) + 1 ≤ U32_MAX →
  Inv (created who g rules license now s).
Proof.
  intros HI Hwf Hvm Hpen Hlen Hn. pose proof (next_fresh s HI) as Hnone.
  pose proof (new_campaign_inv who g rules license now s HI Hwf Hvm Hpen) as Hnew.
  destruct HI as [Hs [Hl1 Hl2] Hnext Hfee].
  destruct (Hs (NextCampaignId s)) as [Hrows Hlist Habs Hid Hw Hwc _].
  destruct (Habs Hnone) as (Hinv & Hwl & Hms & Hcr). split; [|split|simpl; lia|done].
  - intros id. destruct (decide (id = s.(NextCampaignId))) as [->|Hne].
    + split; try done; simpl.
      * by rewrite lookup_insert_eq.
      * lia.
      * intros c. rewrite lookup_insert_eq. by intros [= <-].
    + apply (slice_inv_frame id s); [|done]. split; simpl; try done.
      * by rewrite lookup_insert_ne.
      * intros who'. unfold creator_campaigns. simpl.
        destruct (decide (who' = who)) as [->|]; [|by rewrite lookup_insert_ne].
        rewrite lookup_insert_eq. simpl. set_solver.
      * lia.
  - intros who'. specialize (Hl1 who'). unfold creator_campaigns at 1 2. simpl.
    destruct (decide (who' = who)) as [->|]; [|by rewrite lookup_insert_ne].
    rewrite lookup_insert_eq. simpl. rewrite length_app. simpl. split; [|lia].
    apply NoDup_snoc; naive_solver.
  - apply Hl2.
Qed.

(** *** Changes to one investor's row *)

Definition row (id : Z) (who : AccountId) (s : State) : Investment :=
  default Investment_default (s.(Investments) !! (id, who)).

Definition active (i : Investment) : bool := i.(total_withdrawn) <? i.(total_invested).

Lemma at_prefix_row (f : AccountId → Investment → Z) id who s :
  f who Investment_default = 0 →
  at_prefix id f s.(Investments) who = f who (row id who s).
Proof. intros Hf. unfold at_prefix, row. by destruct (s.(Investments) !! (id, who)). Qed.

Lemma row_wf id who s :
  slice_inv s id →
  0 ≤ (row id who s).(total_withdrawn) ≤ (row id who s).(total_invested) ∧
  (row id who s).(total_invested) ≤ U128_MAX.
Proof.
  intros Hs. unfold row. destruct (s.(Investments) !! (id, who)) as [i|] eqn:Hi; simpl.
  - by apply (si_rows _ _ Hs who).
  - by unfold U128_MAX.
Qed.

Lemma listed_active id who s :
  slice_inv s id → (id ∈ investor_campaigns who s ↔ active (row id who s) = true).
Proof.
  intros Hs. rewrite (si_listed _ _ Hs). unfold row, active.
  destruct (s.(Investments) !! (id, who)) as [i|]; simpl; rewrite Z.ltb_lt.
  - naive_solver.
  - split; [naive_solver|lia].
Qed.

(** The sums after the row of [who] becomes [i]. *)
Lemma net_invested_insert id who i s s' :
  s'.(Investments) = <[(id, who) := i]> s.(Investments) →
  net_invested id s' = net_invested id s - net (row id who s) + net i.
Proof.
  intros Hi. unfold net_invested. rewrite Hi, prefix_sum_insert, at_prefix_row; done.
Qed.

Lemma active_investors_insert id who i s s' :
  s'.(Investments) = <[(id, who) := i]> s.(Investments) →
  active_investors id s' =
    active_investors id s - Z.b2z (active (row id who s)) + Z.b2z (active i).
Proof.
  intros Hi. unfold active_investors. rewrite Hi, prefix_sum_insert, at_prefix_row by done.
  unfold active. by destruct (_ <? _), (_ <? _).
Qed.

Lemma net_invested_delete id who s s' :
  s'.(Investments) = delete (id, who) s.(Investments) →
  net_invested id s' = net_invested id s - net (row id who s).
Proof.
  intros Hi. unfold net_invested. rewrite Hi, prefix_sum_delete, at_prefix_row; done.
Qed.

Lemma active_investors_delete id who s s' :
  s'.(Investments) = delete (id, who) s.(Investments) →
  active_investors id s' = active_investors id s - Z.b2z (active (row id who s)).
Proof.
  intros Hi. unfold active_investors. rewrite Hi, prefix_sum_delete, at_prefix_row by done.
  unfold active. by destruct (_ <? _).
Qed.

Lemma row_insert id who i s s' id' who' :
  s'.(Investments) = <[(id, who) := i]> s.(Investments) →
  s'.(Investments) !! (id', who') =
    if decide (id' = id ∧ who' = who) then Some i else s.(Investments) !! (id', who').
Proof.
  intros ->. destruct (decide (id' = id ∧ who' = who)) as [[-> ->]|Hne].
  - apply lookup_insert_eq.
  - apply lookup_insert_ne. naive_solver.
Qed.

Lemma net_invested_nonneg id s : slice_inv s id → 0 ≤ net_invested id s.
Proof.
  intros Hs. apply prefix_sum_nonneg. intros who i Hi. apply (si_rows _ _ Hs) in Hi.
  unfold net. lia.
Qed.

Lemma active_investors_nonneg id s : 0 ≤ active_investors id s.
Proof. apply prefix_sum_nonneg. intros who i _. destruct (_ <? _); lia. Qed.

(** One investor's share is part of the campaign's. *)
Lemma net_row_le id who s : slice_inv s id → net (row id who s) ≤ net_invested id s.
Proof.
  intros Hs. pose proof (net_invested_nonneg id s Hs).
  unfold row. destruct (s.(Investments) !! (id, who)) as [i|] eqn:Hi; [|done].
  apply (prefix_sum_lookup_le id (λ _ i, net i) _ who i); [|done].
  intros who' i' Hi'. apply (si_rows _ _ Hs) in Hi'. unfold net. lia.
Qed.

(** A change of one row, of the campaign it belongs to and of the investor's
    list, everything else untouched. *)
Record row_change (id : Z) (who : AccountId) (c' : Campaign) (s s' : State) : Prop := {
  rc_campaigns : s'.(Campaigns) = <[id := c']> s.(Campaigns);
  rc_rows : ∀ id' who', (id', who') ≠ (id, who) →
    s'.(Investments) !! (id', who') = s.(Investments) !! (id', who');
  rc_lists : ∀ who', who' ≠ who → investor_campaigns who' s' = investor_campaigns who' s;
  rc_list : ∀ id', id' ≠ id →
    (id' ∈ investor_campaigns who s' ↔ id' ∈ investor_campaigns who s);
  rc_milestones : s'.(MilestoneStatuses) = s.(MilestoneStatuses);
  rc_creator : s'.(CreatorCampaigns) = s.(CreatorCampaigns);
  rc_whitelist : s'.(CampaignWhitelist) = s.(CampaignWhitelist);
  rc_count : s'.(CampaignWhitelistCount) = s.(CampaignWhitelistCount);
  rc_next : s'.(NextCampaignId) = s.(NextCampaignId);
  rc_fee : s'.(ProtocolFeeBpsOverride) = s.(ProtocolFeeBpsOverride);
}.

Lemma row_change_other id who c' s s' id' :
  row_change id who c' s s' → id' ≠ id → same_slice id' s s'.
Proof.
  intros [Hc Hr Hls Hl Hm Hcr Hw Hwc Hn _] Hne.
  split; unfold whitelist_count, creator_campaigns; rewrite ?Hm, ?Hw, ?Hwc, ?Hcr, ?Hn; try done.
  - by rewrite Hc, lookup_insert_ne.
  - intros who'. apply Hr. congruence.
  - intros who'. destruct (decide (who' = who)) as [->|]; [auto|by rewrite Hls].
Qed.

Lemma Inv_row_change id who c c' s s' :
  Inv s → s.(Campaigns) !! id = Some c → row_change id who c' s s' →
  (∀ i, s'.(Investments) !! (id, who) = Some i →
     0 ≤ i.(total_withdrawn) ≤ i.(total_invested) ∧ i.(total_invested) ≤ U128_MAX) →
  (id ∈ investor_campaigns who s' ↔ active (row id who s') = true) →
  NoDup (investor_campaigns who s') →
  Z.of_nat (length (investor_campaigns who s')) ≤ Z.max 0 MaxInvestmentsPerInvestor →
  campaign_inv s' id c' →
  Inv s'.
Proof.
  intros HI Hcid Hrc Hrow Hmem Hnd Hlen Hci.
  pose proof (row_change_other id who c' s s') as Hother.
  destruct HI as [Hs [Hl1 Hl2] Hnext Hfee].
  pose proof Hrc as [Hc Hr Hls Hl Hm Hcr Hw Hwc Hn Hf].
  split; [|split| |].
  - intros id'. destruct (decide (id' = id)) as [->|]; [|eapply slice_inv_frame; eauto].
    destruct (Hs id) as [Hrows Hlist Habs Hid Hwl Hct Hcam]. split.
    + intros who' i Hi. destruct (decide (who' = who)) as [->|]; [eauto|].
      rewrite Hr in Hi by congruence. eauto.
    + intros who'. destruct (decide (who' = who)) as [->|].
      * rewrite Hmem. unfold row, active.
        destruct (s'.(Investments) !! (id, who)); simpl; rewrite Z.ltb_lt; naive_solver lia.
      * rewrite Hls, Hr by congruence. auto.
    + by rewrite Hc, lookup_insert_eq.
    + rewrite Hn. intros _. apply Hid. by rewrite Hcid.
    + rewrite Hw. auto.
    + unfold whitelist_count, whitelist_size. by rewrite Hw, Hwc.
    + rewrite Hc, lookup_insert_eq. by intros ? [= <-].
  - unfold creator_campaigns. by rewrite Hcr.
  - intros who'. destruct (decide (who' = who)) as [->|]; [done|]. by rewrite Hls.
  - by rewrite Hn.
  - unfold effective_protocol_fee_bps. by rewrite Hf.
Qed.

(** *** Investing *)

(** None of the counters saturates. *)
Definition no_saturation (id : Z) (who : AccountId) (a : Balance) (c : Campaign) (s : State)
    : Prop :=
  c.(total_raised) + a ≤ U128_MAX ∧
  (row id who s).(total_invested) + a ≤ U128_MAX ∧
  c.(investor_count) + 1 ≤ U32_MAX.

Lemma invested_campaign_inv id who a c s :
  slice_inv s id → s.(Campaigns) !! id = Some c → c.(status) = Funding → 0 < a →
  (∀ cap, c.(config).(hard_cap) = Some cap →
     saturating_add U128_MAX c.(total_raised) a ≤ cap) →
  no_saturation id who a c s →
  let s' := invested who id a c s in
  let c' := invested_campaign (negb (contains (investor_campaigns who s) id)) a c in
  campaign_inv s' id c'.
Proof.
  intros Hs Hc Hst Ha Hcap (Hr & Hi & Hn) s' c'.
  pose proof (row_wf id who s Hs) as [Hw _].
  set (i' := mkInvestment ((row id who s).(total_invested) + a) (row id who s).(total_withdrawn)).
  assert (Hi' : s'.(Investments) = <[(id, who) := i']> s.(Investments)).
  { unfold s', invested, i', row in *. rewrite saturating_add_exact by done.
    by destruct (negb _). }
  assert (Hact : active i' = true) by (apply Z.ltb_lt; unfold i'; simpl; lia).
  pose proof (net_invested_insert id who i' s s' Hi') as Hnet.
  pose proof (active_investors_insert id who i' s s' Hi') as Hcount. rewrite Hact in Hcount.
  assert (Hnew : negb (contains (investor_campaigns who s) id) = negb (active (row id who s))).
  { f_equal. unfold contains. destruct (active (row id who s)) eqn:Hb.
    - apply bool_decide_true. by apply listed_active.
    - apply bool_decide_false. rewrite listed_active, Hb; done. }
  unfold c' in *. rewrite Hnew.
  pose proof (si_campaign _ _ Hs c Hc) as [].
  assert (Hms : s'.(MilestoneStatuses) = s.(MilestoneStatuses))
    by (unfold s', invested; by destruct (negb _)).
  assert (Hcr : s'.(CreatorCampaigns) = s.(CreatorCampaigns))
    by (unfold s', invested; by destruct (negb _)).
  rewrite Hst in *. unfold net in Hnet. unfold i' in Hnet. simpl in Hnet.
  assert (Hnet0 : net_invested id s = c.(total_raised)) by (apply ci_raised0; mem_dec).
  assert (Hd0 : c.(total_disbursed) = 0) by (apply ci_early0; mem_dec).
  unfold invested_campaign. rewrite saturating_add_exact by done.
  assert (Hcap' : ∀ cap, c.(config).(hard_cap) = Some cap → c.(total_raised) + a ≤ cap).
  { intros cap Hg. apply Hcap in Hg. by rewrite saturating_add_exact in Hg. }
  destruct (active (row id who s)); simpl in *.
  all: split; simpl; unfold creator_campaigns; rewrite ?Hst, ?Hms, ?Hcr; try done; try lia.
  all: try (intros; mem_dec).
  all: intros; rewrite saturating_add_exact by lia; lia.
Qed.

Lemma invested_row_change id who a c s :
  row_change id who (invested_campaign (negb (contains (investor_campaigns who s) id)) a c)
    s (invested who id a c s).
Proof.
  unfold invested. destruct (contains _ _) eqn:Hin; split; simpl; try done.
  - intros. by rewrite lookup_insert_ne by congruence.
  - intros. by rewrite lookup_insert_ne by congruence.
  - intros. unfold investor_campaigns. simpl. by rewrite lookup_insert_ne.
  - intros. unfold investor_campaigns at 1. simpl. rewrite lookup_insert_eq. set_solver.
Qed.

Lemma Inv_invested id who a c s :
  Inv s → s.(Campaigns) !! id = Some c → c.(status) = Funding → 0 < a →
  (∀ cap, c.(config).(hard_cap) = Some cap →
     saturating_add U128_MAX c.(total_raised) a ≤ cap) →
  (id ∉ investor_campaigns who s →
     Z.of_nat (length (investor_campaigns who s)) < MaxInvestmentsPerInvestor) →
  no_saturation id who a c s →
  Inv (invested who id a c s).
Proof.
  intros HI Hc Hst Ha Hcap Hlen Hns. pose proof (inv_slices _ HI id) as Hs.
  pose proof (invested_campaign_inv id who a c s Hs Hc Hst Ha Hcap Hns) as Hci.
  pose proof (row_wf id who s Hs) as Hw. destruct Hns as (_ & Hi & _).
  destruct (li_investor _ (inv_lists _ HI) who) as [Hnd Hmax].
  pose proof (invested_row_change id who a c s) as Hrc.
  assert (Hrow : (invested who id a c s).(Investments) !! (id, who) =
    Some (mkInvestment ((row id who s).(total_invested) + a) (row id who s).(total_withdrawn))).
  { unfold invested. rewrite saturating_add_exact by done.
    destruct (negb _); simpl; by rewrite lookup_insert_eq. }
  eapply Inv_row_change; eauto.
  - intros i. rewrite Hrow. intros [= <-]. simpl. lia.
  - unfold row at 1. rewrite Hrow. unfold active. simpl. rewrite Z.ltb_lt.
    split; [lia|intros _]. unfold invested, contains.
    destruct (decide (id ∈ investor_campaigns who s)).
    + by rewrite bool_decide_true.
    + rewrite bool_decide_false by done. unfold investor_campaigns at 1. simpl.
      rewrite lookup_insert_eq. set_solver.
  - unfold invested, contains. case_bool_decide; [done|]. unfold investor_campaigns at 1.
    simpl. rewrite lookup_insert_eq. by apply NoDup_snoc.
  - unfold invested, contains. case_bool_decide; [done|]. unfold investor_campaigns at 1.
    simpl. rewrite lookup_insert_eq. simpl. rewrite length_app. simpl. specialize (Hlen H). lia.
Qed.

(** *** Withdrawing and refunding *)

Lemma active_row_le id who s : Z.b2z (active (row id who s)) ≤ active_investors id s.
Proof.
  pose proof (active_investors_nonneg id s). unfold row.
  destruct (s.(Investments) !! (id, who)) as [i|] eqn:Hi; [|done].
  pose proof (prefix_sum_lookup_le id
    (λ _ i, if i.(total_withdrawn) <? i.(total_invested) then 1 else 0)
    s.(Investments) who i) as Hle.
  fold (active_investors id s) in Hle. simpl in *. unfold active.
  destruct (_ <? _); [|done]. apply Hle; [|done]. intros ???; destruct (_ <? _); lia.
Qed.

Lemma investor_campaigns_remove who id s who' :
  investor_campaigns who' (remove_investor_campaign who id s) =
  if decide (who' = who) then remove_first id (investor_campaigns who s)
  else investor_campaigns who' s.
Proof.
  unfold investor_campaigns at 1. simpl. destruct (decide (who' = who)) as [->|].
  - by rewrite lookup_insert_eq.
  - by rewrite lookup_insert_ne.
Qed.

Lemma withdrawn_row_change id who a c i s :
  row_change id who (withdrawn_campaign
      (i.(total_invested) =? saturating_add U128_MAX i.(total_withdrawn) a) a c)
    s (withdrawn who id a c i s).
Proof.
  unfold withdrawn. simpl. destruct (_ =? _); split; simpl; try done.
  1, 4: intros; by rewrite lookup_insert_ne by congruence.
  - intros. unfold insert_campaign, investor_campaigns at 1. simpl.
    by rewrite lookup_insert_ne.
  - intros. unfold insert_campaign, investor_campaigns at 1. simpl.
    rewrite lookup_insert_eq. by apply elem_of_remove_first.
Qed.

Lemma withdrawn_campaign_inv id who a c i s :
  slice_inv s id → s.(Campaigns) !! id = Some c → c.(status) ∈ [Funding; Paused] →
  s.(Investments) !! (id, who) = Some i → 0 < a ≤ net i →
  campaign_inv (withdrawn who id a c i s) id
    (withdrawn_campaign (i.(total_invested) =? i.(total_withdrawn) + a) a c).
Proof.
  intros Hs Hc Hst Hi Ha. remember (withdrawn who id a c i s) as s' eqn:Es'.
  destruct (si_rows _ _ Hs _ _ Hi) as [Hw Hmax].
  pose proof (net_row_le id who s Hs) as Hle.
  pose proof (active_row_le id who s) as Hale.
  assert (Hrow : row id who s = i) by (unfold row; by rewrite Hi). rewrite Hrow in *.
  set (i' := mkInvestment i.(total_invested) (i.(total_withdrawn) + a)).
  assert (Hi' : s'.(Investments) = <[(id, who) := i']> s.(Investments)).
  { rewrite Es'. unfold withdrawn, net in *. rewrite saturating_add_exact by lia.
    simpl. by case (_ =? _). }
  pose proof (net_invested_insert id who i' s s' Hi') as Hnet.
  pose proof (active_investors_insert id who i' s s' Hi') as Hcount.
  rewrite Hrow in *.
  assert (active i = true) as Hai by (apply Z.ltb_lt; unfold net in *; lia).
  assert (active i' = negb (i.(total_invested) =? i.(total_withdrawn) + a)) as Hai'.
  { unfold active, i'. simpl. unfold net in *.
    destruct (_ =? _) eqn:Hb; bool_facts; simpl; [apply Z.ltb_ge|apply Z.ltb_lt]; lia. }
  rewrite Hai, Hai' in *.
  pose proof (si_campaign _ _ Hs c Hc) as [].
  assert (Hms : s'.(MilestoneStatuses) = s.(MilestoneStatuses))
    by (rewrite Es'; unfold withdrawn; simpl; by case (_ =? _)).
  assert (Hcr : s'.(CreatorCampaigns) = s.(CreatorCampaigns))
    by (rewrite Es'; unfold withdrawn; simpl; by case (_ =? _)).
  assert (Hst' : c.(status) = Funding ∨ c.(status) = Paused) by set_solver.
  assert (Hnet0 : net_invested id s = c.(total_raised))
    by (apply ci_raised0; destruct Hst' as [-> | ->]; mem_dec).
  assert (Hd0 : c.(total_disbursed) = 0)
    by (apply ci_early0; destruct Hst' as [-> | ->]; mem_dec).
  assert (Hnp : c.(status) ∉ [MilestonePhase; Completed])
    by (destruct Hst' as [-> | ->]; mem_dec).
  clear Es' Hi'. unfold withdrawn_campaign, net, i' in *. simpl in *.
  rewrite (saturating_sub_exact c.(total_raised)), (saturating_sub_exact c.(investor_count))
    by lia.
  assert (Hnf : ∀ st, st ∈ [MilestonePhase; Completed] → c.(status) ≠ st) by naive_solver.
  pose proof (Hnf MilestonePhase ltac:(mem_dec)). pose proof (Hnf Completed ltac:(mem_dec)).
  destruct (i.(total_invested) =? i.(total_withdrawn) + a); simpl in *; split; simpl; unfold creator_campaigns;
    rewrite ?Hms, ?Hcr; try done; try lia.
  all: try (intros cap Hg; apply ci_cap0 in Hg; lia).
  all: intros; by exfalso.
Qed.

Lemma Inv_withdrawn id who a c i s :
  Inv s → s.(Campaigns) !! id = Some c → c.(status) ∈ [Funding; Paused] →
  s.(Investments) !! (id, who) = Some i → 0 < a ≤ net i →
  Inv (withdrawn who id a c i s).
Proof.
  intros HI Hc Hst Hi Ha. pose proof (inv_slices _ HI id) as Hs.
  pose proof (withdrawn_campaign_inv id who a c i s Hs Hc Hst Hi Ha) as Hci.
  pose proof (withdrawn_row_change id who a c i s) as Hrc.
  destruct (si_rows _ _ Hs _ _ Hi) as [Hw Hmax].
  destruct (li_investor _ (inv_lists _ HI) who) as [Hnd Hlen].
  assert (Hin : id ∈ investor_campaigns who s).
  { apply (si_listed _ _ Hs). exists i. unfold net in *. split; [done|lia]. }
  unfold net in *. rewrite saturating_add_exact in Hrc by lia.
  set (full := i.(total_invested) =? i.(total_withdrawn) + a) in *.
  set (i' := mkInvestment i.(total_invested) (i.(total_withdrawn) + a)).
  assert (Hrow : (withdrawn who id a c i s).(Investments) !! (id, who) = Some i').
  { unfold withdrawn. rewrite saturating_add_exact by lia. simpl. fold full.
    destruct full; simpl; by rewrite lookup_insert_eq. }
  assert (Hlist : investor_campaigns who (withdrawn who id a c i s) =
    if full then remove_first id (investor_campaigns who s) else investor_campaigns who s).
  { unfold withdrawn. rewrite saturating_add_exact by lia. simpl. fold full.
    destruct full; [|done]. unfold insert_campaign, investor_campaigns at 1. simpl.
    by rewrite lookup_insert_eq. }
  pose proof (NoDup_remove_first id _ Hnd). pose proof (notin_remove_first id _ Hnd).
  pose proof (length_remove_first id (investor_campaigns who s)).
  eapply Inv_row_change; eauto; rewrite ?Hlist.
  - intros ? Hx. rewrite Hrow in Hx. simplify_eq. simpl. lia.
  - unfold row. rewrite Hrow. simpl. unfold active. simpl. rewrite Z.ltb_lt.
    unfold full. destruct (_ =? _) eqn:Hb; bool_facts; naive_solver lia.
  - by destruct full.
  - destruct full; lia.
Qed.

Lemma refunded_row_change id who c s :
  row_change id who (set_investor_count (saturating_sub c.(investor_count) 1) c)
    s (refunded who id c s).
Proof.
  unfold refunded. split; try done.
  - intros. simpl. by rewrite lookup_delete_ne by congruence.
  - intros. unfold insert_campaign, investor_campaigns at 1. simpl. by rewrite lookup_insert_ne.
  - intros. unfold insert_campaign, investor_campaigns at 1. simpl.
    rewrite lookup_insert_eq. by apply elem_of_remove_first.
Qed.

Lemma refunded_campaign_inv id who c i s :
  slice_inv s id → s.(Campaigns) !! id = Some c → c.(status) ∈ [Failed; Cancelled] →
  s.(Investments) !! (id, who) = Some i → 0 < net i →
  campaign_inv (refunded who id c s) id
    (set_investor_count (saturating_sub c.(investor_count) 1) c).
Proof.
  intros Hs Hc Hst Hi Ha.
  pose proof (active_row_le id who s) as Hale.
  assert (Hrow : row id who s = i) by (unfold row; by rewrite Hi).
  pose proof (net_invested_delete id who s (refunded who id c s) eq_refl) as Hnet.
  pose proof (active_investors_delete id who s (refunded who id c s) eq_refl) as Hcount.
  rewrite Hrow in *.
  assert (active i = true) as Hai by (apply Z.ltb_lt; unfold net in *; lia).
  rewrite Hai in *. simpl in *.
  pose proof (si_campaign _ _ Hs c Hc) as [].
  rewrite (saturating_sub_exact c.(investor_count)) by lia.
  split; simpl; try done; try lia.
Qed.

Lemma Inv_refunded id who c i s :
  Inv s → s.(Campaigns) !! id = Some c → c.(status) ∈ [Failed; Cancelled] →
  s.(Investments) !! (id, who) = Some i → 0 < net i →
  Inv (refunded who id c s).
Proof.
  intros HI Hc Hst Hi Ha. pose proof (inv_slices _ HI id) as Hs.
  pose proof (refunded_campaign_inv id who c i s Hs Hc Hst Hi Ha) as Hci.
  destruct (li_investor _ (inv_lists _ HI) who) as [Hnd Hlen].
  assert (Hlist : investor_campaigns who (refunded who id c s) =
    remove_first id (investor_campaigns who s)).
  { unfold refunded, insert_campaign, investor_campaigns at 1. simpl.
    by rewrite lookup_insert_eq. }
  assert (Hrow : (refunded who id c s).(Investments) !! (id, who) = None)
    by apply lookup_delete_eq.
  pose proof (NoDup_remove_first id _ Hnd). pose proof (notin_remove_first id _ Hnd).
  pose proof (length_remove_first id (investor_campaigns who s)).
  eapply Inv_row_change; eauto using refunded_row_change; rewrite ?Hlist.
  - by rewrite Hrow.
  - unfold row. by rewrite Hrow.
  - done.
  - lia.
Qed.

(** *** Finalization and cancellation *)

Lemma milestone_indices_seq ms :
  Z.of_nat (length ms) ≤ U8_MAX → milestone_indices ms = seqZ 0 (Z.of_nat (length ms)).
Proof. intros H. unfold milestone_indices. rewrite wrap_small; [done|split; lia]. Qed.

Lemma initial_milestones_lookup id c m id' i :
  (∀ goal ms, c.(config).(funding_model) = MilestoneBased goal ms →
     Z.of_nat (length ms) ≤ U8_MAX) →
  initial_milestones id c m !! (id', i) =
  match c.(config).(funding_model) with
  | MilestoneBased goal ms =>
      if decide (goal ≤ c.(total_raised) ∧ id' = id ∧ 0 ≤ i < Z.of_nat (length ms))
      then Some Pending else m !! (id', i)
  | _ => m !! (id', i)
  end.
Proof.
  intros Hlen. unfold initial_milestones. destruct (funding_model _) as [| |goal ms]; try done.
  specialize (Hlen _ _ eq_refl). destruct (Z.leb_spec goal c.(total_raised)).
  2: { rewrite decide_False by lia. done. }
  rewrite (lookup_foldl_insert (λ i, (id, wrap U8_MAX i))). apply decide_ext.
  rewrite list_elem_of_fmap. setoid_rewrite elem_of_seqZ. split.
  - intros (j & [= -> ->] & Hj). rewrite wrap_small by (split; lia). lia.
  - intros (_ & -> & Hi). exists i. rewrite wrap_small by (split; lia). split; [done|lia].
Qed.

Lemma clear_milestones_lookup id c s id' i :
  (∀ goal ms, c.(config).(funding_model) = MilestoneBased goal ms →
     Z.of_nat (length ms) ≤ U8_MAX) →
  (clear_milestones id c s).(MilestoneStatuses) !! (id', i) =
  match c.(config).(funding_model) with
  | MilestoneBased goal ms =>
      if decide (id' = id ∧ 0 ≤ i < Z.of_nat (length ms)) then None
      else s.(MilestoneStatuses) !! (id', i)
  | _ => s.(MilestoneStatuses) !! (id', i)
  end.
Proof.
  intros Hlen. unfold clear_milestones. destruct (funding_model _) as [| |goal ms]; try done.
  specialize (Hlen _ _ eq_refl). simpl.
  rewrite (lookup_foldl_delete (λ i, (id, i))), milestone_indices_seq by done.
  apply decide_ext. rewrite list_elem_of_fmap. setoid_rewrite elem_of_seqZ. naive_solver lia.
Qed.

Lemma claimed_shares_zero id s raised ms :
  (∀ i, s.(MilestoneStatuses) !! (id, i) ≠ Some Claimed) → claimed_shares id s raised ms = 0.
Proof.
  intros Hno. unfold claimed_shares.
  assert (∀ (f : nat → Milestone → Z) l, (∀ i m, f i m = 0) → foldr Z.add 0 (imap f l) = 0) as Hz.
  { intros f l. revert f. induction l as [|m l IH]; intros f Hf; [done|].
    simpl. rewrite Hf, IH; [done|]. intros. apply Hf. }
  apply Hz. intros i m. unfold claimed_share, milestone_claimed.
  by rewrite bool_decide_false.
Qed.

Lemma outcome_cases c :
  (outcome c = Succeeded ∧ ∀ goal ms, c.(config).(funding_model) ≠ MilestoneBased goal ms) ∨
  outcome c = Failed ∨
  (outcome c = MilestonePhase ∧
   ∃ goal ms, c.(config).(funding_model) = MilestoneBased goal ms ∧ goal ≤ c.(total_raised)).
Proof.
  unfold outcome. destruct (funding_model _) as [g|[cap|]|g ms].
  - destruct (_ <=? _); naive_solver.
  - destruct (_ <? _); naive_solver.
  - naive_solver.
  - destruct (_ <=? _) eqn:?; bool_facts; naive_solver.
Qed.

(** A change of one campaign's record and milestone statuses. *)
Record milestone_change (id : Z) (c' : Campaign) (s s' : State) : Prop := {
  mc_campaigns : s'.(Campaigns) = <[id := c']> s.(Campaigns);
  mc_milestones : ∀ id' i, id' ≠ id →
    s'.(MilestoneStatuses) !! (id', i) = s.(MilestoneStatuses) !! (id', i);
  mc_investments : s'.(Investments) = s.(Investments);
  mc_investor : s'.(InvestorCampaigns) = s.(InvestorCampaigns);
  mc_creator : s'.(CreatorCampaigns) = s.(CreatorCampaigns);
  mc_whitelist : s'.(CampaignWhitelist) = s.(CampaignWhitelist);
  mc_count : s'.(CampaignWhitelistCount) = s.(CampaignWhitelistCount);
  mc_next : s'.(NextCampaignId) = s.(NextCampaignId);
  mc_fee : s'.(ProtocolFeeBpsOverride) = s.(ProtocolFeeBpsOverride);
}.

Lemma Inv_milestone_change id c c' s s' :
  Inv s → s.(Campaigns) !! id = Some c → milestone_change id c' s s' →
  campaign_inv s' id c' → Inv s'.
Proof.
  intros HI Hcid [Hc Hms Hinv Hil Hcr Hw Hwc Hn Hf] Hci.
  revert HI.
  apply (Inv_slice id); try done.
  - intros id' Hne. split; unfold whitelist_count, creator_campaigns, investor_campaigns;
      rewrite ?Hinv, ?Hw, ?Hwc, ?Hcr, ?Hil, ?Hn; auto; try done.
    by rewrite Hc, lookup_insert_ne.
  - intros [Hrows Hlist Habs Hid Hwl Hct Hcam].
    split; unfold whitelist_count, whitelist_size, creator_campaigns, investor_campaigns;
      rewrite ?Hinv, ?Hw, ?Hwc, ?Hcr, ?Hil, ?Hn; auto.
    all: rewrite Hc, lookup_insert_eq; try done.
    by intros ? [= <-].
Qed.

(** The sums of a slice depend on the investments only. *)
Lemma sums_agree id s s' :
  s'.(Investments) = s.(Investments) →
  net_invested id s' = net_invested id s ∧ active_investors id s' = active_investors id s.
Proof. unfold net_invested, active_investors. by intros ->. Qed.

Lemma finalized_campaign_inv id c s :
  slice_inv s id → s.(Campaigns) !! id = Some c → c.(status) = Funding →
  campaign_inv (finalized id c s) id (set_status (outcome c) c).
Proof.
  intros Hs Hc Hst. pose proof (si_campaign _ _ Hs c Hc) as [].
  assert (Hnone : ∀ i, s.(MilestoneStatuses) !! (id, i) = None).
  { intros i. apply eq_None_not_Some. intros [st Hi]. apply ci_indices0 in Hi as [Hin _].
    rewrite Hst in Hin. mem_dec. }
  assert (Hlook : ∀ i, (finalized id c s).(MilestoneStatuses) !! (id, i) =
    match c.(config).(funding_model) with
    | MilestoneBased goal ms =>
        if decide (goal ≤ c.(total_raised) ∧ id = id ∧ 0 ≤ i < Z.of_nat (length ms))
        then Some Pending else s.(MilestoneStatuses) !! (id, i)
    | _ => s.(MilestoneStatuses) !! (id, i)
    end) by (intros i; apply initial_milestones_lookup; naive_solver).
  assert (Hd0 : c.(total_disbursed) = 0) by (apply ci_early0; rewrite Hst; mem_dec).
  assert (Hr0 : net_invested id s = c.(total_raised)) by (apply ci_raised0; rewrite Hst; mem_dec).
  destruct (sums_agree id s (finalized id c s) eq_refl) as [Hnet Hact].
  assert (Hclaim : ∀ ms, claimed_shares id (finalized id c s) c.(total_raised) ms = 0).
  { intros ms. apply claimed_shares_zero. intros i. rewrite Hlook, Hnone.
    destruct (funding_model _); try done. by destruct (decide _). }
  destruct (outcome_cases c) as [[Ho Hnm]|[Ho|(Ho & goal & ms & Hm & Hg)]]; rewrite Ho;
    split; simpl; try done; try lia; try (intros; mem_dec).
  - destruct ci_deposit0 as [?|[_ Hx]]; [by left|rewrite Hst in Hx; mem_dec].
  - intros g ms Hg. by destruct (Hnm g ms).
  - intros i st. rewrite Hlook, Hnone. destruct (funding_model _) as [| |g ms]; try done.
    by destruct (Hnm g ms).
  - destruct ci_deposit0 as [?|[_ Hx]]; [by left|rewrite Hst in Hx; mem_dec].
  - intros g' ms' Hg'. by destruct (ci_milestones0 _ _ Hg') as (?&?&_).
  - intros i st. rewrite Hlook, Hnone. unfold outcome in Ho.
    destruct (funding_model _) as [| |g ms]; try done.
    destruct (_ <=? _) eqn:?; [done|]. bool_facts. rewrite decide_False by lia. done.
  - destruct ci_deposit0 as [?|[_ Hx]]; [by left|rewrite Hst in Hx; mem_dec].
  - intros g' ms' Hg'. by destruct (ci_milestones0 _ _ Hg') as (?&?&_).
  - intros i st. rewrite Hlook, Hnone, Hm. destruct (decide _) as [(?&?&?)|]; [|done].
    intros _. split; [mem_dec|by exists goal, ms].
  - intros _. exists goal, ms. split_and!; try done. intros i Hi. rewrite Hlook, Hm.
    rewrite decide_True by done. done.
  - intros g' ms' _ _. rewrite Hclaim. lia.
Qed.

(** The number of milestones of a stored campaign fits the [u8] index. *)
Lemma milestones_fit s id c :
  slice_inv s id → s.(Campaigns) !! id = Some c →
  ∀ goal ms, c.(config).(funding_model) = MilestoneBased goal ms →
  Z.of_nat (length ms) ≤ U8_MAX.
Proof. intros Hs Hc goal ms Hm. by destruct (ci_milestones _ _ _ (si_campaign _ _ Hs c Hc) _ _ Hm). Qed.

Lemma Inv_finalized id c s :
  Inv s → s.(Campaigns) !! id = Some c → c.(status) = Funding → Inv (finalized id c s).
Proof.
  intros HI Hc Hst. pose proof (inv_slices _ HI id) as Hs.
  apply (Inv_milestone_change id c (set_status (outcome c) c) s); auto using finalized_campaign_inv.
  split; try done. intros id' i Hne. simpl.
  rewrite initial_milestones_lookup by eauto using milestones_fit.
  destruct (funding_model _); try done. by rewrite decide_False by naive_solver.
Qed.

Lemma cancelled_campaign_inv id c s :
  slice_inv s id → s.(Campaigns) !! id = Some c →
  campaign_inv (insert_campaign id (set_status Cancelled c) (clear_milestones id c s)) id
    (set_status Cancelled c).
Proof.
  intros Hs Hc. pose proof (milestones_fit s id c Hs Hc) as Hfit.
  pose proof (si_campaign _ _ Hs c Hc) as [].
  set (s' := insert_campaign _ _ _).
  assert (Hinv : s'.(Investments) = s.(Investments))
    by (unfold s', clear_milestones; by destruct (funding_model _)).
  assert (Hcr : s'.(CreatorCampaigns) = s.(CreatorCampaigns))
    by (unfold s', clear_milestones; by destruct (funding_model _)).
  assert (Hnone : ∀ i, s'.(MilestoneStatuses) !! (id, i) = None).
  { intros i. simpl. rewrite clear_milestones_lookup by done.
    destruct (s.(MilestoneStatuses) !! (id, i)) eqn:Hi.
    - apply ci_indices0 in Hi as (_ & g & ms & -> & Hr). by rewrite decide_True.
    - destruct (funding_model _); try done. by destruct (decide _). }
  destruct (sums_agree id s s' Hinv) as [Hnet Hact].
  split; simpl; unfold creator_campaigns; rewrite ?Hcr; try done; try lia;
    try (intros; mem_dec).
  - destruct ci_deposit0 as [?|[? _]]; [by left|right]. split; [done|mem_dec].
  - intros g ms Hg. by destruct (ci_milestones0 _ _ Hg) as (?&?&_).
  - intros i st. by rewrite Hnone.
Qed.

Lemma Inv_cancelled `{!ValidConfig} id c s :
  Inv s → s.(Campaigns) !! id = Some c → Inv (cancelled id c s).
Proof.
  intros HI Hc. pose proof (inv_slices _ HI id) as Hs. apply Inv_clear_whitelist.
  apply (Inv_milestone_change id c (set_status Cancelled c) s);
    auto using cancelled_campaign_inv.
  split; simpl; unfold clear_milestones; try by destruct (funding_model _).
  intros id' i Hne. fold (clear_milestones id c s).
  rewrite clear_milestones_lookup by eauto using milestones_fit.
  destruct (funding_model _); try done. by rewrite decide_False by naive_solver.
Qed.

(** *** Milestones *)

(** Sums over a list whose terms change at one index only. *)
Lemma foldr_imap_update {A} (f g : nat → A → Z) l i x :
  l !! i = Some x → (∀ j y, j ≠ i → f j y = g j y) →
  foldr Z.add 0 (imap f l) = foldr Z.add 0 (imap g l) - g i x + f i x.
Proof.
  revert f g i. induction l as [|y l IH]; intros f g i; [done|].
  rewrite !imap_cons. cbn [foldr]. destruct i as [|i]; intros Hx Hfg.
  - injection Hx as ->.
    rewrite (imap_ext (f ∘ S) (g ∘ S)); [lia|]. intros. by apply Hfg.
  - rewrite (IH (f ∘ S) (g ∘ S) i Hx) by (intros; apply Hfg; lia).
    rewrite (Hfg 0%nat y) by lia. unfold compose. lia.
Qed.

Lemma claimed_shares_insert id s raised ms i m st :
  ms !! i = Some m → s.(MilestoneStatuses) !! (id, Z.of_nat i) ≠ Some Claimed →
  claimed_shares id (insert_milestone_status id (Z.of_nat i) st s) raised ms =
  claimed_shares id s raised ms +
    (if decide (st = Claimed) then bps_of raised m.(release_bps) else 0).
Proof.
  intros Hm Hst. unfold claimed_shares.
  rewrite (foldr_imap_update _ (claimed_share id s raised) ms i m Hm).
  - unfold claimed_share, milestone_claimed. simpl. rewrite lookup_insert_eq.
    rewrite (bool_decide_false _ Hst). destruct (decide (st = Claimed)) as [->|Hne].
    + rewrite bool_decide_true by done. lia.
    + rewrite bool_decide_false by congruence. lia.
  - intros j y Hj. unfold claimed_share, milestone_claimed. simpl.
    rewrite lookup_insert_ne by (intros [= ?]; lia). done.
Qed.

Lemma insert_milestone_other id i st s id' :
  id' ≠ id → same_slice id' s (insert_milestone_status id i st s).
Proof.
  intros Hne. split; try done. intros j. simpl. by rewrite lookup_insert_ne by congruence.
Qed.

(** The moves of a milestone that is not paid yet. *)
Lemma Inv_milestone_move id i st st' c s :
  Inv s → s.(Campaigns) !! id = Some c → c.(status) = MilestonePhase →
  s.(MilestoneStatuses) !! (id, i) = Some st → st ≠ Claimed → st' ≠ Claimed →
  Inv (insert_milestone_status id i st' s).
Proof.
  intros HI Hc Hst Hi Hne Hne'.
  pose proof (si_campaign _ _ (inv_slices _ HI id) c Hc) as Hci. revert HI.
  apply (Inv_slice id); try done; [intros; by apply insert_milestone_other|].
  intros [Hrows Hlist Habs Hid Hwl Hct Hcam]. split; try done; [simpl; congruence|].
  simpl. rewrite Hc. intros ? [= <-]. destruct Hci.
  destruct (ci_indices0 _ _ Hi) as (_ & goal & ms & Hm & Hr).
  destruct (lookup_lt_is_Some_2 ms (Z.to_nat i)) as [m Hmi]; [lia|].
  assert (Hz : i = Z.of_nat (Z.to_nat i)) by lia.
  split; try done.
  - intros j stj. simpl. destruct (decide (j = i)) as [->|].
    + intros _. split; [rewrite Hst; mem_dec|eauto].
    + rewrite lookup_insert_ne by congruence. apply ci_indices0.
  - intros _. destruct (ci_phase0 Hst) as (g & ms' & ? & ? & Hall). exists g, ms'.
    split_and!; try done. intros j Hj. simpl. destruct (decide (j = i)) as [->|].
    + by rewrite lookup_insert_eq.
    + rewrite lookup_insert_ne by congruence. auto.
  - intros g ms' Hm' Hin. rewrite Hm in Hm'. injection Hm' as <- <-. rewrite Hz.
    rewrite (claimed_shares_insert _ _ _ _ _ m) by (done || rewrite <- Hz; congruence).
    rewrite decide_False by done. rewrite (ci_paid0 _ _ Hm Hin). f_equal. lia.
  - rewrite Hst. done.
Qed.

Lemma milestone_paid_campaign_inv id i c goal ms m s :
  slice_inv s id → s.(Campaigns) !! id = Some c → c.(status) = MilestonePhase →
  c.(config).(funding_model) = MilestoneBased goal ms →
  s.(MilestoneStatuses) !! (id, i) = Some Approved → ms !! Z.to_nat i = Some m →
  ∃ c', (milestone_paid id i c ms m s).(Campaigns) !! id = Some c' ∧
        campaign_inv (milestone_paid id i c ms m s) id c'.
Proof.
  intros Hs Hc Hst Hm Hi Hmi. pose proof (si_campaign _ _ Hs c Hc) as [].
  destruct (ci_indices0 _ _ Hi) as (_ & g & ms' & Hm' & Hr).
  rewrite Hm in Hm'. injection Hm' as <- <-.
  assert (Hz : i = Z.of_nat (Z.to_nat i)) by lia.
  destruct (ci_milestones0 _ _ Hm) as (Hlen & Hbps & _).
  assert (0 ≤ m.(release_bps)) as Hmb.
  { rewrite Forall_forall in Hbps. apply list_elem_of_lookup_2 in Hmi.
    by apply Hbps in Hmi as [? _]. }
  pose proof (bps_of_nonneg c.(total_raised) m.(release_bps) ltac:(lia) Hmb) as Hraw.
  assert (Hin : c.(status) ∈ [MilestonePhase; Completed]) by (rewrite Hst; mem_dec).
  pose proof (ci_paid0 _ _ Hm Hin) as Hpaid.
  set (s1 := insert_milestone_status id i Claimed s).
  assert (Hclaim : claimed_shares id s1 c.(total_raised) ms =
    claimed_shares id s c.(total_raised) ms + bps_of c.(total_raised) m.(release_bps)).
  { unfold s1. rewrite Hz.
    rewrite (claimed_shares_insert _ _ _ _ _ m) by (done || rewrite <- Hz; congruence). done. }
  assert (Hrel : release c m = Z.min (bps_of c.(total_raised) m.(release_bps))
    (c.(total_raised) - c.(total_disbursed))).
  { unfold release. by rewrite saturating_sub_exact by lia. }
  unfold milestone_paid. fold s1. rewrite saturating_add_exact by lia.
  eexists. split; [simpl; by rewrite lookup_insert_eq|].
  assert (Hidx : ∀ j st, s1.(MilestoneStatuses) !! (id, j) = Some st →
    0 ≤ j < Z.of_nat (length ms)).
  { intros j stj. simpl. destruct (decide (j = i)) as [->|]; [done|].
    rewrite lookup_insert_ne by congruence. intros Hj.
    apply ci_indices0 in Hj as (_ & ? & ? & ? & ?). congruence. }
  assert (ci_raised0' : net_invested id s = c.(total_raised))
    by (apply ci_raised0; rewrite Hst; mem_dec).
  rewrite Hrel. destruct (all_claimed id ms s1) eqn:Hall; split; simpl; rewrite ?Hst;
    try done; try lia; try (intros; mem_dec).
  all: try (intros g ms' Hg; rewrite Hm in Hg; injection Hg as <- <-; by split_and!).
  all: try (intros j stj Hj; split; [mem_dec|exists goal, ms; eauto]).
  all: try (intros g ms' Hg _; rewrite Hm in Hg; injection Hg as <- <-;
    rewrite (claimed_shares_agree id s1) by done; rewrite Hclaim; lia).
  - destruct ci_deposit0 as [?|[_ Hx]]; [by left|rewrite Hst in Hx; mem_dec].
  - by rewrite Hm, (all_claimed_agree id s1).
  - destruct ci_deposit0 as [?|[_ Hx]]; [by left|rewrite Hst in Hx; mem_dec].
  - intros _. destruct (ci_phase0 Hst) as (g & ms' & Hg & ? & Hp). exists g, ms'.
    split_and!; try done. intros j Hj. destruct (decide (j = i)) as [->|].
    + by rewrite lookup_insert_eq.
    + rewrite lookup_insert_ne by congruence. auto.
Qed.

Lemma Inv_milestone_paid id i c goal ms m s :
  Inv s → s.(Campaigns) !! id = Some c → c.(status) = MilestonePhase →
  c.(config).(funding_model) = MilestoneBased goal ms →
  s.(MilestoneStatuses) !! (id, i) = Some Approved → ms !! Z.to_nat i = Some m →
  Inv (milestone_paid id i c ms m s).
Proof.
  intros HI Hc Hst Hm Hi Hmi.
  destruct (milestone_paid_campaign_inv id i c goal ms m s (inv_slices _ HI id)
    Hc Hst Hm Hi Hmi) as (c' & Hc' & Hci).
  apply (Inv_milestone_change id c c' s); try done.
  unfold milestone_paid in *. simpl in Hc'. rewrite lookup_insert_eq in Hc'.
  injection Hc' as <-. split; try done.
  intros id' j Hne. simpl. by rewrite lookup_insert_ne by congruence.
Qed.

(** *** Claims of the creator, pause and resume *)

Lemma Inv_funds_claimed id c s :
  Inv s → s.(Campaigns) !! id = Some c → c.(status) = Succeeded →
  Inv (insert_campaign id (set_status Completed (set_total_disbursed c.(total_raised) c)) s).
Proof.
  intros HI Hc Hst. apply (Inv_insert_campaign id c); try done. intros [].
  rewrite Hst in *. assert (∀ g ms, c.(config).(funding_model) ≠ MilestoneBased g ms) as Hnm.
  { intros g ms Hg. by destruct (ci_milestones0 _ _ Hg) as (_ & _ & ?). }
  split; simpl; try done; try lia; try (intros; mem_dec).
  - intros _. apply ci_raised0. mem_dec.
  - destruct ci_deposit0 as [?|[_ Hx]]; [by left|mem_dec].
  - intros g ms Hg. by destruct (Hnm g ms).
  - intros i st Hi. apply ci_indices0 in Hi as [Hx _]. mem_dec.
  - intros g ms Hg. by destruct (Hnm g ms).
  - intros _. destruct (funding_model _) as [| |g ms]; try done. by destruct (Hnm g ms).
Qed.

Lemma Inv_paused id c now s :
  Inv s → s.(Campaigns) !! id = Some c → c.(status) = Funding →
  Inv (insert_campaign id (set_status Paused (set_paused_at (Some now) c)) s).
Proof.
  intros HI Hc Hst. apply (Inv_insert_campaign id c); try done. intros [].
  rewrite Hst in *. split; simpl; try done; try (intros; mem_dec).
  - intros _. apply ci_early0. mem_dec.
  - intros _. apply ci_raised0. mem_dec.
  - destruct ci_deposit0 as [?|[_ Hx]]; [by left|mem_dec].
  - intros g ms Hg. by destruct (ci_milestones0 _ _ Hg) as (?&?&_).
  - intros i st Hi. apply ci_indices0 in Hi as [Hx _]. mem_dec.
Qed.

Lemma Inv_resumed id c now s :
  Inv s → s.(Campaigns) !! id = Some c → c.(status) = Paused →
  Inv (insert_campaign id (resumed c now) s).
Proof.
  intros HI Hc Hst. apply (Inv_insert_campaign id c); try done. intros [].
  rewrite Hst in *. split; simpl; try done; try (intros; mem_dec).
  - intros _. apply ci_early0. mem_dec.
  - intros _. apply ci_raised0. mem_dec.
  - destruct ci_deposit0 as [?|[_ Hx]]; [by left|mem_dec].
  - intros g ms Hg. by destruct (ci_milestones0 _ _ Hg) as (?&?&_).
  - intros i st Hi. apply ci_indices0 in Hi as [Hx _]. mem_dec.
Qed.

Lemma Inv_deposit_returned `{!ValidConfig} id c s :
  Inv s → s.(Campaigns) !! id = Some c →
  c.(status) ∈ [Completed; Failed; Cancelled] → Inv (deposit_returned id c s).
Proof.
  intros HI Hc Hst. apply Inv_clear_whitelist.
  destruct HI as [Hs [Hl1 Hl2] Hnext Hfee].
  set (s' := put_CreatorCampaigns _ _).
  assert (Hlist : ∀ who, creator_campaigns who s' =
    if decide (who = c.(creator)) then remove_first id (creator_campaigns who s)
    else creator_campaigns who s).
  { intros who. unfold creator_campaigns at 1. simpl.
    destruct (decide (who = c.(creator))) as [->|].
    - by rewrite lookup_insert_eq.
    - by rewrite lookup_insert_ne. }
  split; [|split| |]; try done.
  - intros id'. destruct (decide (id' = id)) as [->|Hne].
    + destruct (Hs id) as [Hrows Hl Habs Hid Hwl Hct Hcam]. split; try done; simpl.
      * by rewrite lookup_insert_eq.
      * intros _. apply Hid. by rewrite Hc.
      * intros c0. rewrite lookup_insert_eq. intros [= <-]. destruct (Hcam c Hc).
        split; try done; [by right|]. intros who. rewrite Hlist. simpl.
        destruct (decide (who = c.(creator))) as [->|]; [|rewrite ci_creator0; naive_solver].
        split; [|naive_solver]. intros Hx. exfalso. revert Hx.
        by apply notin_remove_first, Hl1.
    + apply (slice_inv_frame id' s); [|done]. split; try done; simpl.
      * by rewrite lookup_insert_ne.
      * intros who. rewrite Hlist. destruct (decide _) as [->|]; [|done].
        by apply elem_of_remove_first.
  - intros who. rewrite Hlist. destruct (Hl1 who). destruct (decide _); [|done].
    pose proof (length_remove_first id (creator_campaigns who s)).
    split; [by auto with vec|lia].
Qed.

(** *** The whitelist *)

Lemma at_prefix_whitelist id who s :
  slice_inv s id →
  at_prefix id (λ _ _, 1) s.(CampaignWhitelist) who = Z.b2z (whitelisted id who s).
Proof.
  intros Hs. unfold at_prefix, whitelisted.
  destruct (s.(CampaignWhitelist) !! (id, who)) as [b|] eqn:Hw; [|done].
  by rewrite (si_whitelist _ _ Hs _ _ Hw).
Qed.

Lemma whitelist_size_nonneg id s : 0 ≤ whitelist_size id s.
Proof. by apply prefix_sum_nonneg. Qed.

(** A change of the whitelist of one campaign and of its counter. *)
Lemma Inv_whitelist_change id s s' :
  Inv s → is_Some (s.(Campaigns) !! id) →
  s' = put_CampaignWhitelist s'.(CampaignWhitelist)
         (put_CampaignWhitelistCount s'.(CampaignWhitelistCount) s) →
  (∀ id' who, id' ≠ id →
     s'.(CampaignWhitelist) !! (id', who) = s.(CampaignWhitelist) !! (id', who)) →
  (∀ id', id' ≠ id → whitelist_count id' s' = whitelist_count id' s) →
  (∀ who b, s'.(CampaignWhitelist) !! (id, who) = Some b → b = true) →
  whitelist_count id s' = whitelist_size id s' → whitelist_count id s' ≤ MaxWhitelistSize →
  Inv s'.
Proof.
  intros HI [c Hc] Heq Hw Hct Htrue Hcount Hmax. revert HI.
  apply (Inv_slice id); try (by rewrite Heq).
  - intros id' Hne. split; auto; by rewrite Heq.
  - intros [Hrows Hlist Habs Hid Hwl Hc' Hcam].
    assert (s'.(Campaigns) = s.(Campaigns)) as Hcs by by rewrite Heq.
    split; rewrite ?Hcs; auto; try (by rewrite Heq).
    + congruence.
    + intros c' Hc''. apply (campaign_inv_agree id s); auto; by rewrite Heq.
Qed.

Lemma Inv_whitelist_added id who s :
  Inv s → is_Some (s.(Campaigns) !! id) →
  (whitelisted id who s = false → whitelist_count id s < MaxWhitelistSize) →
  Inv (whitelist_added id who s).
Proof.
  intros HI Hc Hmax. pose proof (inv_slices _ HI id) as Hs.
  pose proof (at_prefix_whitelist id who s Hs) as Hat.
  destruct (si_whitelist_count _ _ Hs) as [Hct Hle].
  assert (Hsize : whitelist_size id (whitelist_added id who s) =
    whitelist_size id s - Z.b2z (whitelisted id who s) + 1).
  { unfold whitelist_size. simpl. by rewrite prefix_sum_insert, Hat. }
  assert (Hcount : whitelist_count id (whitelist_added id who s) =
    whitelist_count id s - Z.b2z (whitelisted id who s) + 1).
  { unfold whitelist_added, whitelist_count at 1. destruct (whitelisted _ _ _); simpl.
    - fold (whitelist_count id s). lia.
    - rewrite lookup_insert_eq. simpl. lia. }
  apply (Inv_whitelist_change id s); try done.
  - unfold whitelist_added. by destruct (whitelisted _ _ _), s.
  - intros id' who' Hne. simpl. by rewrite lookup_insert_ne by congruence.
  - intros id' Hne. unfold whitelist_added, whitelist_count. destruct (whitelisted _ _ _); simpl.
    + done.
    + by rewrite lookup_insert_ne.
  - intros who' b. simpl. destruct (decide (who' = who)) as [->|].
    + rewrite lookup_insert_eq. congruence.
    + rewrite lookup_insert_ne by congruence. apply (si_whitelist _ _ Hs).
  - lia.
  - rewrite Hcount. destruct (whitelisted _ _ _); simpl; [lia|]. specialize (Hmax eq_refl). lia.
Qed.

Lemma Inv_whitelist_removed id who s :
  Inv s → is_Some (s.(Campaigns) !! id) → Inv (whitelist_removed id who s).
Proof.
  intros HI Hc. pose proof (inv_slices _ HI id) as Hs.
  pose proof (at_prefix_whitelist id who s Hs) as Hat.
  destruct (si_whitelist_count _ _ Hs) as [Hct Hle].
  assert (Hsize : whitelist_size id (whitelist_removed id who s) =
    whitelist_size id s - Z.b2z (whitelisted id who s)).
  { unfold whitelist_size. simpl. by rewrite prefix_sum_delete, Hat. }
  pose proof (whitelist_size_nonneg id (whitelist_removed id who s)).
  assert (Hcount : whitelist_count id (whitelist_removed id who s) =
    whitelist_count id s - Z.b2z (whitelisted id who s)).
  { unfold whitelist_removed, whitelist_count at 1. destruct (whitelisted _ _ _); simpl in *.
    - rewrite lookup_insert_eq. simpl. rewrite saturating_sub_exact; lia.
    - fold (whitelist_count id s). lia. }
  apply (Inv_whitelist_change id s); try done.
  - unfold whitelist_removed. by destruct (whitelisted _ _ _), s.
  - intros id' who' Hne. simpl. by rewrite lookup_delete_ne by congruence.
  - intros id' Hne. unfold whitelist_removed, whitelist_count.
    destruct (whitelisted _ _ _); simpl; [|done]. by rewrite lookup_insert_ne.
  - intros who' b. simpl. intros Hb. apply lookup_delete_Some in Hb as [_ Hb].
    by apply (si_whitelist _ _ Hs) in Hb.
  - lia.
  - rewrite Hcount. destruct (whitelisted _ _ _); simpl; lia.
Qed.
End preservation.
