(* ===== verification/CrowdfundingFunds.v ===== *)
(** * pallet-crowdfunding: custody of the funds

    Every campaign keeps its money in a sub-account of its own.  [custody]
    says what each sub-account holds at least: the creation deposit until it is
    returned, and what the campaign still owes to its investors or its creator.
    It is proved to be kept by every dispatchable, against the laws of the
    currencies in Frame.v. *)

From S2P Require Import Prelude Arith Errors Frame Crowdfunding CrowdfundingMath.
From S2P Require Import CrowdfundingSpec CrowdfundingInv.

Section funds.
Context {W : Type} `{!System W, !Currency W, !Fungibles W, !NftInspect W}
  `{!LicenseVerifier W, !WorldLaws W} {T : Config} `{!ValidConfig}.
Implicit Types (e : CEnv W) (s : State) (w : W) (c : Campaign) (cur : PaymentCurrency).

(** ** Payments and balances *)

Definition funds (cur : PaymentCurrency) (who : AccountId) (w : W) : Z :=
  match cur with
  | Native => free_balance who w
  | Asset a => asset_balance a who w
  end.

(** The balance below which an account of the currency is reaped. *)
Definition dust_limit (cur : PaymentCurrency) (w : W) : Z :=
  match cur with
  | Native => minimum_balance
  | Asset a => asset_minimum_balance a w
  end.

Record pay_effect cur (from to : AccountId) (amt : Z) (keep : bool) w w' : Prop := {
  pe_wf : ∀ k, world_wf (S k) w → world_wf k w';
  pe_block : block_number w' = block_number w;
  pe_limit : ∀ cur', dust_limit cur' w' = dust_limit cur' w;
  pe_noop : amt = 0 ∨ from = to → ∀ cur' x, funds cur' x w' = funds cur' x w;
  pe_moved : 0 < amt → from ≠ to →
    moved (λ x, funds cur x w) (λ x, funds cur x w') (dust_limit cur w) from to amt keep;
  pe_other : ∀ cur' x, cur' ≠ cur → funds cur' x w' = funds cur' x w;
}.

Lemma transfer_effect k from to amt r w w' :
  world_wf k w → 0 ≤ amt → transfer from to amt r w = Ok (tt, w') →
  pay_effect Native from to amt (bool_decide (r = KeepAlive)) w w'.
Proof.
  intros Hw Ha Ht. destruct (decide (amt = 0 ∨ from = to)) as [Hno|Hno].
  - assert (w' = w) as -> by (eapply transfer_noop; eauto).
    split; try naive_solver. intros j. apply world_wf_less.
  - assert (∀ j, world_wf j w → world_wf j w') as Hall.
    { intros j Hj. eapply transfer_moved in Ht; [|exact Hj|lia|naive_solver]. apply Ht. }
    edestruct transfer_moved as (_ & Hm & Hab & Hamin & Hb); [exact Hw|..|exact Ht|];
      [lia|naive_solver|].
    split; try done.
    + intros j Hj. by apply Hall, world_wf_less.
    + intros [|a]; simpl; auto.
    + intros [|a]; simpl; auto; congruence.
Qed.

Lemma asset_transfer_effect k a from to amt p w w' b :
  world_wf (S k) w → 0 < amt → asset_transfer a from to amt p w = Ok (b, w') →
  pay_effect (Asset a) from to amt (bool_decide (p = Preserve)) w w'.
Proof.
  intros Hw Ha Ht. destruct (decide (from = to)) as [Hno|Hno].
  - assert (w' = w) as -> by (eapply asset_transfer_noop; eauto).
    split; try naive_solver. intros j. apply world_wf_less.
  - assert (∀ j, world_wf (S j) w → world_wf j w') as Hall.
    { intros j Hj. eapply asset_transfer_moved in Ht; [|exact Hj|lia|done]. apply Ht. }
    edestruct asset_transfer_moved as (_ & _ & Hm & Hab & Hamin & Hf & Hb);
      [exact Hw|exact Ha|exact Hno|exact Ht|].
    split; try done.
    + intros [|a']; simpl; auto.
    + intros [?| ?]; [lia|done].
    + intros [|a'] x Hne; simpl; auto. apply Hab. congruence.
Qed.

Lemma pay_ok k cur from to amt r w w' :
  world_wf (S k) w → 0 ≤ amt → pay cur from to amt r w w' →
  pay_effect cur from to amt (bool_decide (r = KeepAlive)) w w'.
Proof.
  intros Hw Ha Hp. unfold pay in Hp. destruct (Z.eqb_spec amt 0) as [->|Hne].
  - subst. split; try naive_solver lia. intros j. apply world_wf_less.
  - destruct cur as [|a]; [by eapply transfer_effect|]. destruct Hp as [b Hp].
    eapply asset_transfer_effect in Hp; [|done|lia]. by destruct r.
Qed.

Record burn_effect cur (who : AccountId) (amt : Z) w w' : Prop := {
  be_wf : ∀ k, world_wf k w → world_wf k w';
  be_block : block_number w' = block_number w;
  be_limit : ∀ cur', dust_limit cur' w' = dust_limit cur' w;
  be_noop : amt = 0 → ∀ cur' x, funds cur' x w' = funds cur' x w;
  be_burnt : 0 < amt →
    burnt (λ x, funds cur x w) (λ x, funds cur x w') (dust_limit cur w) who amt;
  be_other : ∀ cur' x, cur' ≠ cur → funds cur' x w' = funds cur' x w;
}.

Lemma burn_ok k cur who amt r w w' :
  world_wf k w → 0 ≤ amt → burn cur who amt r w w' → burn_effect cur who amt w w'.
Proof.
  intros Hw Ha Hb. unfold burn in Hb. destruct (Z.eqb_spec amt 0) as [->|Hne].
  - subst. split; naive_solver lia.
  - destruct cur as [|a].
    + assert (∀ j, world_wf j w → world_wf j w') as Hall.
      { intros j Hj. eapply withdraw_burnt in Hb; [|exact Hj|lia]. apply Hb. }
      edestruct withdraw_burnt as (_ & Hm & _ & Hab & Hamin & Hbl); [exact Hw| |exact Hb|]; [lia|].
      split; try done; intros [|a]; simpl; auto; congruence.
    + destruct Hb as [b Hb].
      assert (∀ j, world_wf j w → world_wf j w') as Hall.
      { intros j Hj. eapply asset_burn_burnt in Hb; [|exact Hj|lia]. apply Hb. }
      edestruct asset_burn_burnt as (_ & Hm & Hab & Hamin & Hf & Hbl);
        [exact Hw| |exact Hb|]; [lia|].
      split; try done.
      * intros [|a']; simpl; auto.
      * intros [|a'] x Hx; simpl; auto. apply Hab. congruence.
Qed.

(** ** Custody *)

(** What campaign [id] still owes: to its investors once it failed or was
    cancelled, to its creator otherwise. *)
Definition obligation (s : State) (id : Z) (c : Campaign) : Z :=
  if decide (c.(status) ∈ [Failed; Cancelled]) then net_invested id s
  else c.(total_raised) - c.(total_disbursed).

(** Every campaign but one cancelled after part of it was disbursed, whose
    refunds are rounded. *)
Definition undisbursed (c : Campaign) : Prop :=
  c.(status) ∈ [Failed; Cancelled] → c.(total_disbursed) = 0.

(** [bal] covers the deposit and the obligation; once the deposit is gone the
    account may have been reaped, which costs less than the minimum balance. *)
Definition covers (bal deposit owed limit : Z) : Prop :=
  deposit + owed ≤ bal ∨ (deposit = 0 ∧ owed < limit).

Record escrow (s : State) (w : W) (id : Z) (c : Campaign) : Prop := {
  es_deposit : c.(creation_deposit) ≠ 0 → minimum_balance ≤ c.(creation_deposit);
  es_native : c.(config).(funding_currency) = Native → undisbursed c →
    covers (free_balance (campaign_account id) w) c.(creation_deposit)
      (obligation s id c) minimum_balance;
  es_asset : ∀ a, c.(config).(funding_currency) = Asset a →
    c.(creation_deposit) ≤ free_balance (campaign_account id) w ∧
    (undisbursed c → asset_minimum_balance a w = 1 →
     obligation s id c ≤ asset_balance a (campaign_account id) w);
}.

Definition custody (s : State) (w : W) : Prop :=
  ∀ id c, s.(Campaigns) !! id = Some c → escrow s w id c.

(** The sub-account of [id] loses nothing between [w] and [w']. *)
Record keeps (id : Z) (w w' : W) : Prop := {
  kp_funds : ∀ cur, funds cur (campaign_account id) w ≤ funds cur (campaign_account id) w';
  kp_limit : ∀ cur, dust_limit cur w' = dust_limit cur w;
}.

(** Accounts that are not sub-accounts of the pallet. *)
Definition external (who : AccountId) : Prop :=
  ∀ id, fits U32_MAX id → who ≠ campaign_account id.

Lemma campaign_account_inj id id' :
  fits U32_MAX id → fits U32_MAX id' →
  campaign_account id = campaign_account id' → id = id'.
Proof.
  intros Hi Hj Heq. destruct vc_pallet_id.
  by apply into_sub_account_inj in Heq as [_ ?].
Qed.

Lemma keeps_refl id w : keeps id w w.
Proof. split; [lia|done]. Qed.

Lemma keeps_trans id w1 w2 w3 : keeps id w1 w2 → keeps id w2 w3 → keeps id w1 w3.
Proof.
  intros [Hf1 Hl1] [Hf2 Hl2]. split; intros cur.
  - specialize (Hf1 cur). specialize (Hf2 cur). lia.
  - by rewrite Hl2, Hl1.
Qed.

(** A payment takes from its sender only. *)
Lemma pay_keeps cur from to amt keep w w' id :
  0 ≤ amt → pay_effect cur from to amt keep w w' → from ≠ campaign_account id →
  keeps id w w'.
Proof.
  intros Ha [] Hne. split; [|done]. intros cur'.
  destruct (decide (amt = 0 ∨ from = to)) as [Hno|Hno]; [rewrite pe_noop0 by done; lia|].
  destruct (decide (cur' = cur)) as [->|]; [|rewrite pe_other0 by done; lia].
  destruct pe_moved0 as [_ Hto _ _ Hother]; [lia|naive_solver|].
  destruct (decide (campaign_account id = to)) as [->|]; [lia|]. rewrite Hother by done. lia.
Qed.

Lemma burn_keeps cur who amt w w' id :
  0 ≤ amt → burn_effect cur who amt w w' → who ≠ campaign_account id → keeps id w w'.
Proof.
  intros Ha [] Hne. split; [|done]. intros cur'.
  destruct (decide (amt = 0)) as [Hno|Hno]; [rewrite be_noop0 by done; lia|].
  destruct (decide (cur' = cur)) as [->|]; [|rewrite be_other0 by done; lia].
  destruct be_burnt0 as [_ _ Hother]; [lia|]. rewrite Hother by done. lia.
Qed.

(** The escrow of a slice that did not change, when its account lost nothing. *)
Lemma escrow_frame s s' w w' id c :
  (∀ who, s'.(Investments) !! (id, who) = s.(Investments) !! (id, who)) →
  keeps id w w' → escrow s w id c → escrow s' w' id c.
Proof.
  intros Hinv [Hf Hl] [].
  assert (obligation s' id c = obligation s id c) as Hob.
  { unfold obligation. destruct (decide _); [|done]. by apply prefix_sum_agree. }
  split; [done|..].
  - intros Hcur Hu. rewrite Hob. specialize (Hf Native). simpl in Hf.
    destruct (es_native0 Hcur Hu); [left; lia|by right].
  - intros a Hcur. destruct (es_asset0 a Hcur) as [Hd Ha]. pose proof (Hf Native) as Hf1.
    pose proof (Hf (Asset a)) as Hf2. pose proof (Hl (Asset a)) as Hla. simpl in *.
    rewrite Hob. split; [lia|]. intros Hu Hmin. specialize (Ha Hu). rewrite Hla in Hmin.
    specialize (Ha Hmin). lia.
Qed.

(** Custody after a change to the record and the investments of [id]. *)
Lemma custody_change id s s' w w' :
  (∀ id', id' ≠ id → fits U32_MAX id' → keeps id' w w') →
  (∀ id', id' ≠ id → s'.(Campaigns) !! id' = s.(Campaigns) !! id') →
  (∀ id' who, id' ≠ id → s'.(Investments) !! (id', who) = s.(Investments) !! (id', who)) →
  Inv s →
  (∀ c', s'.(Campaigns) !! id = Some c' → escrow s' w' id c') →
  custody s w → custody s' w'.
Proof.
  intros Hk Hcs His HI Hid Hcu id' c' Hc'.
  destruct (decide (id' = id)) as [->|Hne]; [by apply Hid|]. rewrite Hcs in Hc' by done.
  apply (escrow_frame s s' w); [auto| |by apply Hcu].
  apply Hk; [done|]. destruct (si_id _ _ (inv_slices _ HI id')) as [? ?]; [by rewrite Hc'|].
  destruct (inv_next _ HI). split; lia.
Qed.

Lemma stored_id_fits s id c : Inv s → s.(Campaigns) !! id = Some c → fits U32_MAX id.
Proof.
  intros HI Hc. destruct (si_id _ _ (inv_slices _ HI id)) as [? ?]; [by rewrite Hc|].
  destruct (inv_next _ HI). split; lia.
Qed.

(** Custody when the world stands still and the obligation with it. *)
Lemma custody_still id c c' s s' w :
  Inv s → s.(Campaigns) !! id = Some c → s'.(Campaigns) = <[id := c']> s.(Campaigns) →
  s'.(Investments) = s.(Investments) →
  c'.(config).(funding_currency) = c.(config).(funding_currency) →
  c'.(creation_deposit) = c.(creation_deposit) →
  (undisbursed c' → undisbursed c ∧ obligation s' id c' = obligation s id c) →
  custody s w → custody s' w.
Proof.
  intros HI Hc Hcs His Hcur Hdep Hob Hcu. apply (custody_change id s s' w w); try done.
  - intros id' Hne. by rewrite Hcs, lookup_insert_ne.
  - by rewrite His.
  - rewrite Hcs, lookup_insert_eq. intros ? [= <-].
    destruct (Hcu id c Hc) as [Hed Hnat Hass]. split.
    + by rewrite Hdep.
    + rewrite Hcur, Hdep. intros Hn Hu. destruct (Hob Hu) as [Hu' ->]. auto.
    + rewrite Hcur, Hdep. intros a Ha. destruct (Hass a Ha) as [Hd Hs]. split; [done|].
      intros Hu. destruct (Hob Hu) as [Hu' ->]. auto.
Qed.

(** ** Payments out of a sub-account *)

(** [amt] of [cur] has left the account of [id], which was not reaped if the
    rest reached the minimum; nobody else's account lost anything.  At most [n]
    accounts were opened. *)
Record outflow (n : nat) cur (id : Z) (amt : Z) w w' : Prop := {
  of_wf : ∀ k, world_wf (k + n) w → world_wf k w';
  of_limit : ∀ cur', dust_limit cur' w' = dust_limit cur' w;
  of_balance :
    dust_limit cur w ≤ funds cur (campaign_account id) w - amt →
    funds cur (campaign_account id) w - amt ≤ funds cur (campaign_account id) w';
  of_currencies : ∀ cur', cur' ≠ cur →
    funds cur' (campaign_account id) w ≤ funds cur' (campaign_account id) w';
  of_accounts : ∀ id', id' ≠ id → fits U32_MAX id' → keeps id' w w';
}.

Lemma outflow_trans n1 n2 cur id a1 a2 w1 w2 w3 :
  0 ≤ a1 → 0 ≤ a2 → outflow n1 cur id a1 w1 w2 → outflow n2 cur id a2 w2 w3 →
  outflow (n1 + n2) cur id (a1 + a2) w1 w3.
Proof.
  intros Ha1 Ha2 [] []. split; try done.
  - intros k. rewrite (Nat.add_comm n1), Nat.add_assoc. auto.
  - intros cur'. by rewrite of_limit1, of_limit0.
  - intros Hl. rewrite of_limit0 in *. lia.
  - intros cur' Hne. specialize (of_currencies0 cur' Hne). specialize (of_currencies1 cur' Hne). lia.
  - intros. eapply keeps_trans; eauto.
Qed.

Lemma pay_outflow k cur id to amt r w w' :
  fits U32_MAX id → world_wf (S k) w → 0 ≤ amt → pay cur (campaign_account id) to amt r w w' →
  outflow 1 cur id amt w w'.
Proof.
  intros Hid Hw Ha Hp. eapply pay_ok in Hp; [|done..]. pose proof Hp as [].
  split; try done.
  - intros j. rewrite Nat.add_1_r. auto.
  - intros Hl. destruct (decide (amt = 0 ∨ campaign_account id = to)) as [Hno|Hno].
    { rewrite pe_noop0 by done. lia. }
    destruct pe_moved0 as [_ _ [Hb|(_ & Hb & _)] _ _]; [lia|naive_solver|lia|lia].
  - intros cur' Hne. rewrite pe_other0 by done. lia.
  - intros id' Hne Hid'. eapply pay_keeps; eauto. intros Heq.
    by apply campaign_account_inj in Heq.
Qed.

Lemma burn_outflow k cur id amt r w w' :
  fits U32_MAX id → world_wf k w → 0 ≤ amt → burn cur (campaign_account id) amt r w w' →
  outflow 0 cur id amt w w'.
Proof.
  intros Hid Hw Ha Hp. eapply burn_ok in Hp; [|done..]. pose proof Hp as [].
  split; try done.
  - intros j. rewrite Nat.add_0_r. auto.
  - intros Hl. destruct (decide (amt = 0)) as [Hno|Hno].
    { rewrite be_noop0 by done. lia. }
    destruct be_burnt0 as [_ [Hb|(Hb & _)] _]; lia.
  - intros cur' Hne. rewrite be_other0 by done. lia.
  - intros id' Hne Hid'. eapply burn_keeps; eauto. intros Heq.
    by apply campaign_account_inj in Heq.
Qed.

Lemma pay_split_outflow k cur id recipient who fee share w w' :
  fits U32_MAX id → world_wf (S (S k)) w → 0 ≤ fee → 0 ≤ share →
  pay_split cur id recipient who fee share w w' → outflow 2 cur id (fee + share) w w'.
Proof.
  intros Hid Hw Hf Hs (w1 & Hp1 & Hp2). eapply pay_outflow in Hp1; try done.
  apply (outflow_trans 1 1 cur id fee share w w1 w'); try done.
  eapply pay_outflow; eauto. apply (of_wf _ _ _ _ _ _ Hp1). by rewrite Nat.add_1_r.
Qed.

Lemma funds_nonneg k cur x w : world_wf k w → 0 ≤ funds cur x w.
Proof.
  intros Hw. destruct cur as [|a]; simpl.
  - by destruct (free_balance_fits k w x Hw).
  - by destruct (asset_balance_fits k w a x Hw).
Qed.

Lemma escrow_outflow n s s' w w' id c c' amt :
  c'.(config).(funding_currency) = c.(config).(funding_currency) →
  c'.(creation_deposit) = c.(creation_deposit) → 0 ≤ c.(creation_deposit) →
  0 ≤ amt →
  (undisbursed c' → undisbursed c ∧ obligation s' id c' = obligation s id c - amt ∧
     0 ≤ obligation s' id c') →
  world_wf n w → outflow n c.(config).(funding_currency) id amt w w' →
  escrow s w id c → escrow s' w' id c'.
Proof.
  intros Hcur Hdep Hd0 Ha Hob Hw [Hwf Hl Hbal Hcurr _] [Hed Hnat Hass].
  pose proof (Hwf 0%nat Hw) as Hw'. split.
  - rewrite Hdep. done.
  - rewrite Hcur. intros Hn Hu. rewrite Hn in *. simpl in Hbal.
    destruct (Hob Hu) as (Hu0 & -> & Hge). specialize (Hnat eq_refl Hu0). rewrite Hdep.
    unfold covers in *. destruct (decide (c.(creation_deposit) = 0)) as [Hz|Hz].
    + rewrite Hz in *.
      destruct (decide (minimum_balance ≤ free_balance (campaign_account id) w - amt)); lia.
    + specialize (Hed Hz). lia.
  - rewrite Hcur. intros a Ha'. rewrite Ha' in *. simpl in *.
    destruct (Hass a eq_refl) as [Hd Hasset]. pose proof (Hcurr Native ltac:(done)) as Hfree.
    simpl in Hfree. rewrite Hdep. split; [lia|]. intros Hu Hmin.
    destruct (Hob Hu) as (Hu0 & -> & Hge). pose proof (Hl (Asset a)) as Hla. simpl in Hla.
    rewrite Hla in Hmin. specialize (Hasset Hu0 Hmin).
    pose proof (funds_nonneg 0 (Asset a) (campaign_account id) w' Hw') as Hnn. simpl in Hnn. lia.
Qed.

(** A payment out of the account of one campaign. *)
Lemma custody_outflow n id c c' amt s s' w w' :
  Inv s → s.(Campaigns) !! id = Some c → s'.(Campaigns) = <[id := c']> s.(Campaigns) →
  (∀ id' who, id' ≠ id → s'.(Investments) !! (id', who) = s.(Investments) !! (id', who)) →
  c'.(config).(funding_currency) = c.(config).(funding_currency) →
  c'.(creation_deposit) = c.(creation_deposit) → 0 ≤ amt →
  (undisbursed c' → undisbursed c ∧ obligation s' id c' = obligation s id c - amt ∧
     0 ≤ obligation s' id c') →
  world_wf n w → outflow n c.(config).(funding_currency) id amt w w' →
  custody s w → custody s' w'.
Proof.
  intros HI Hc Hcs His Hcur Hdep Ha Hob Hw Hout Hcu. apply (custody_change id s s' w); try done.
  - apply (of_accounts _ _ _ _ _ _ Hout).
  - intros id' Hne. by rewrite Hcs, lookup_insert_ne.
  - rewrite Hcs, lookup_insert_eq. intros ? [= <-].
    apply (escrow_outflow n s s' w w' id c c' amt); try done; [|by apply Hcu].
    pose proof (ci_deposit _ _ _ (si_campaign _ _ (inv_slices _ HI id) c Hc)).
    pose proof vc_deposit. lia.
Qed.

(** ** The dispatchables *)

Lemma withdrawal_penalty_bounds s id c a :
  campaign_inv s id c → 0 ≤ a → 0 ≤ withdrawal_penalty c a ≤ a.
Proof.
  intros Hcc Ha. unfold withdrawal_penalty.
  assert (0 ≤ default EarlyWithdrawalPenaltyBps c.(config).(early_withdrawal_penalty_bps)) as Hb.
  { destruct (early_withdrawal_penalty_bps _) as [b|] eqn:Hbb; simpl.
    - by apply (ci_penalty _ _ _ Hcc) in Hbb as [? _].
    - apply vc_penalty. }
  split; [by apply bps_of_nonneg|by apply bps_of_le].
Qed.

Lemma custody_withdrawn id who a c i s w w1 w' :
  Inv s → world_wf 2 w → s.(Campaigns) !! id = Some c → c.(status) ∈ [Funding; Paused] →
  s.(Investments) !! (id, who) = Some i → 0 < a ≤ net i →
  pay c.(config).(funding_currency) (campaign_account id) who
    (saturating_sub a (withdrawal_penalty c a)) AllowDeath w w1 →
  burn c.(config).(funding_currency) (campaign_account id) (withdrawal_penalty c a)
    AllowDeath w1 w' →
  custody s w → custody (withdrawn who id a c i s) w'.
Proof.
  intros HI Hw Hc Hst Hi Ha Hp Hb. pose proof (inv_slices _ HI id) as Hs.
  pose proof (stored_id_fits s id c HI Hc) as Hid.
  assert (0 ≤ withdrawal_penalty c a ≤ a) as Hpa
    by (eapply withdrawal_penalty_bounds; [by apply (si_campaign _ _ Hs)|lia]).
  rewrite saturating_sub_exact in Hp by lia.
  eapply pay_outflow in Hp; [|done|done|lia].
  eapply burn_outflow in Hb; [|done|by apply (of_wf _ _ _ _ _ _ Hp 1%nat)|lia].
  assert (Hout : outflow 1 c.(config).(funding_currency) id a w w').
  { replace a with (a - withdrawal_penalty c a + withdrawal_penalty c a) by lia.
    eapply (outflow_trans 1 0); eauto; lia. }
  destruct (withdrawn_row_change id who a c i s) as [Hcs Hrows _ _ _ _ _ _ _ _].
  pose proof (withdrawn_campaign_inv id who a c i s Hs Hc Hst Hi Ha) as Hci.
  destruct (si_rows _ _ Hs _ _ Hi) as [Hrw Hmax]. pose proof (net_row_le id who s Hs) as Hle.
  assert (row id who s = i) as Hrow by (unfold row; by rewrite Hi). rewrite Hrow in Hle.
  pose proof (si_campaign _ _ Hs c Hc) as Hcc.
  assert (c.(status) = Funding ∨ c.(status) = Paused) as Hst' by set_solver.
  assert (c.(status) ∉ [Failed; Cancelled]) as Hnf by (destruct Hst' as [-> | ->]; mem_dec).
  pose proof (ci_raised _ _ _ Hcc Hnf). pose proof (ci_disbursed _ _ _ Hcc).
  assert (c.(total_disbursed) = 0) as Hd0 
    by (apply (ci_early _ _ _ Hcc); destruct Hst' as [-> | ->]; mem_dec).
  eapply (custody_outflow 1 id c _ a s); eauto using world_wf_less; try lia.
  - intros id' who' Hne. apply Hrows. congruence.
  - by unfold withdrawn_campaign; destruct (_ =? _).
  - by unfold withdrawn_campaign; destruct (_ =? _).
  - intros _. unfold undisbursed, obligation, withdrawn_campaign.
    rewrite (saturating_sub_exact c.(total_raised)) by lia.
    destruct (_ =? _); simpl; rewrite !decide_False by done; split_and!; naive_solver lia.
Qed.

Lemma custody_refunded id who c i s w w' :
  Inv s → world_wf 2 w → s.(Campaigns) !! id = Some c → c.(status) ∈ [Failed; Cancelled] →
  s.(Investments) !! (id, who) = Some i → 0 < net i →
  pay c.(config).(funding_currency) (campaign_account id) who (refund_of c (net i))
    AllowDeath w w' →
  custody s w → custody (refunded who id c s) w'.
Proof.
  intros HI Hw Hc Hst Hi Hn Hp. pose proof (inv_slices _ HI id) as Hs.
  pose proof (stored_id_fits s id c HI Hc) as Hid. pose proof (si_campaign _ _ Hs c Hc) as Hcc.
  destruct (refund_of_bounds c (net i) (ci_disbursed _ _ _ Hcc) ltac:(lia)) as [Hr0 _].
  eapply pay_outflow in Hp; [|done..].
  destruct (refunded_row_change id who c s) as [Hcs Hrows _ _ _ _ _ _ _ _].
  assert (row id who s = i) as Hrow by (unfold row; by rewrite Hi).
  pose proof (net_invested_delete id who s (refunded who id c s) eq_refl) as Hnet.
  pose proof (net_row_le id who s Hs) as Hle. rewrite Hrow in *.
  eapply (custody_outflow 1 id c _ (refund_of c (net i)) s); eauto using world_wf_less; try done.
  - intros id' who' Hne. apply Hrows. congruence.
  - intros Hu. assert (c.(total_disbursed) = 0) as Hd0 by by apply Hu.
    rewrite refund_of_undisbursed by done. unfold obligation. simpl.
    rewrite !decide_True by done. split_and!; [done|lia..].
Qed.

Lemma custody_funds_claimed id c recipient s w w' :
  Inv s → world_wf 2 w → s.(Campaigns) !! id = Some c → c.(status) = Succeeded →
  let claimable := saturating_sub c.(total_raised) c.(total_disbursed) in
  let fee := bps_of claimable c.(protocol_fee_bps) in
  pay_split c.(config).(funding_currency) id recipient c.(creator) fee
    (saturating_sub claimable fee) w w' →
  custody s w →
  custody (insert_campaign id
    (set_status Completed (set_total_disbursed c.(total_raised) c)) s) w'.
Proof.
  intros HI Hw Hc Hst claimable fee Hp. pose proof (inv_slices _ HI id) as Hs.
  pose proof (stored_id_fits s id c HI Hc) as Hid. pose proof (si_campaign _ _ Hs c Hc) as Hcc.
  pose proof (ci_disbursed _ _ _ Hcc) as Hd. pose proof (ci_fee _ _ _ Hcc) as Hfee.
  assert (claimable = c.(total_raised) - c.(total_disbursed)) as Hcl
    by (unfold claimable; by rewrite saturating_sub_exact by lia).
  pose proof (bps_of_nonneg claimable c.(protocol_fee_bps) ltac:(lia) ltac:(lia)) as Hf0.
  pose proof (bps_of_le claimable c.(protocol_fee_bps) ltac:(lia) ltac:(lia)) as Hf1.
  fold fee in Hf0, Hf1. rewrite saturating_sub_exact in Hp by done.
  eapply pay_split_outflow in Hp; [|done|done|lia|lia].
  replace (fee + (claimable - fee)) with claimable in Hp by lia.
  eapply (custody_outflow 2 id c _ claimable s); eauto; try done; try lia.
  intros Hu. unfold undisbursed, obligation. simpl. rewrite Hst.
  rewrite !decide_False by mem_dec. split_and!; [intros; mem_dec|lia..].
Qed.

Lemma custody_milestone_paid id i c goal ms m recipient s w w' :
  Inv s → world_wf 2 w → s.(Campaigns) !! id = Some c → c.(status) = MilestonePhase →
  c.(config).(funding_model) = MilestoneBased goal ms → ms !! Z.to_nat i = Some m →
  let fee := bps_of (release c m) c.(protocol_fee_bps) in
  pay_split c.(config).(funding_currency) id recipient c.(creator) fee
    (saturating_sub (release c m) fee) w w' →
  custody s w → custody (milestone_paid id i c ms m s) w'.
Proof.
  intros HI Hw Hc Hst Hm Hmi fee Hp. pose proof (inv_slices _ HI id) as Hs.
  pose proof (stored_id_fits s id c HI Hc) as Hid. pose proof (si_campaign _ _ Hs c Hc) as Hcc.
  pose proof (ci_disbursed _ _ _ Hcc) as Hd. pose proof (ci_fee _ _ _ Hcc) as Hfee.
  pose proof (ci_fits _ _ _ Hcc) as Hmax.
  destruct (ci_milestones _ _ _ Hcc _ _ Hm) as (_ & Hbps & _).
  assert (0 ≤ m.(release_bps)) as Hmb.
  { rewrite Forall_forall in Hbps. apply list_elem_of_lookup_2 in Hmi.
    by apply Hbps in Hmi as [? _]. }
  pose proof (bps_of_nonneg c.(total_raised) m.(release_bps) ltac:(lia) Hmb) as Hraw.
  assert (0 ≤ release c m ≤ c.(total_raised) - c.(total_disbursed)) as Hr
    by (unfold release; rewrite saturating_sub_exact by lia; lia).
  pose proof (bps_of_nonneg (release c m) c.(protocol_fee_bps) ltac:(lia) ltac:(lia)) as Hf0.
  pose proof (bps_of_le (release c m) c.(protocol_fee_bps) ltac:(lia) ltac:(lia)) as Hf1.
  fold fee in Hf0, Hf1. rewrite saturating_sub_exact in Hp by done.
  eapply pay_split_outflow in Hp; [|done|done|lia|lia].
  replace (fee + (release c m - fee)) with (release c m) in Hp by lia.
  unfold milestone_paid. rewrite saturating_add_exact by lia.
  eapply (custody_outflow 2 id c _ (release c m) s); eauto; try done; try lia.
  - by destruct (all_claimed _ _ _).
  - by destruct (all_claimed _ _ _).
  - intros _. unfold undisbursed, obligation. destruct (all_claimed _ _ _); simpl;
      rewrite ?Hst; rewrite !decide_False by mem_dec; (split; [intros; mem_dec|lia]).
Qed.

Lemma custody_deposit_returned id c r s w w' :
  Inv s → world_wf 2 w → s.(Campaigns) !! id = Some c →
  c.(status) ∈ [Completed; Failed; Cancelled] → c.(creation_deposit) ≠ 0 →
  external c.(creator) →
  transfer (campaign_account id) c.(creator) c.(creation_deposit) r w = Ok (tt, w') →
  custody s w → custody (deposit_returned id c s) w'.
Proof.
  intros HI Hw Hc Hst Hd Hext Ht Hcu. pose proof (inv_slices _ HI id) as Hs.
  pose proof (stored_id_fits s id c HI Hc) as Hid. pose proof (si_campaign _ _ Hs c Hc) as Hcc.
  pose proof (ci_deposit _ _ _ Hcc). pose proof vc_deposit.
  eapply transfer_effect in Ht; [|done|lia]. pose proof Ht as [Hwf _ Hl _ Hm Ho].
  pose proof (Hwf 1%nat Hw) as Hw'.
  specialize (Hm ltac:(lia) ltac:(intros Heq; by apply (Hext id Hid))).
  destruct Hm as [_ _ Hfrom _ _]. simpl in Hfrom.
  destruct (Hcu id c Hc) as [Hed Hnat Hass].
  apply (custody_change id s _ w w'); try done.
  - intros id' Hne Hid'. eapply pay_keeps; [|exact Ht|]; [lia|]. intros Heq.
    by apply campaign_account_inj in Heq.
  - intros id' Hne. simpl. by rewrite lookup_insert_ne.
  - simpl. rewrite lookup_insert_eq. intros ? [= <-].
    pose proof (funds_nonneg 1 Native (campaign_account id) w' Hw') as Hnn. simpl in Hnn.
    split; simpl; [done|..].
    + intros Hn Hu. specialize (Hnat Hn Hu). unfold covers, obligation in *. simpl in *.
      change (net_invested id (deposit_returned id c s)) with (net_invested id s).
      destruct (decide _); lia.
    + intros a Ha. destruct (Hass a Ha) as [_ Hasset]. split; [lia|]. intros Hu Hmin.
      pose proof (Hl (Asset a)) as Hla. simpl in Hla. rewrite Hla in Hmin.
      pose proof (Ho (Asset a) (campaign_account id) ltac:(done)) as Hoa. simpl in Hoa.
      rewrite Hoa. unfold obligation in *. simpl. by apply Hasset.
Qed.

Lemma custody_invested id who a c s w w' :
  Inv s → world_wf 2 w → s.(Campaigns) !! id = Some c → c.(status) = Funding → 0 < a →
  external who → c.(total_raised) + a ≤ U128_MAX →
  pay c.(config).(funding_currency) who (campaign_account id) a KeepAlive w w' →
  custody s w → custody (invested who id a c s) w'.
Proof.
  intros HI Hw Hc Hst Ha Hext Hr Hp Hcu. pose proof (inv_slices _ HI id) as Hs.
  pose proof (stored_id_fits s id c HI Hc) as Hid. pose proof (si_campaign _ _ Hs c Hc) as Hcc.
  eapply pay_ok in Hp; [|done|lia]. pose proof Hp as [_ _ Hl _ Hm Ho].
  destruct (Hm Ha (Hext id Hid)) as [_ Hto _ _ _]. simpl in Hto.
  destruct (invested_row_change id who a c s) as [Hcs Hrows _ _ _ _ _ _ _ _].
  destruct (Hcu id c Hc) as [Hed Hnat Hass].
  apply (custody_change id s _ w w'); try done.
  - intros id' Hne Hid'. eapply pay_keeps; [|exact Hp|by apply Hext]. lia.
  - intros id' Hne. by rewrite Hcs, lookup_insert_ne.
  - intros id' who' Hne. apply Hrows. congruence.
  - rewrite Hcs, lookup_insert_eq. intros ? [= <-].
    assert (undisbursed c) as Hu by (intros Hx; rewrite Hst in Hx; mem_dec).
    assert (obligation s id c = c.(total_raised) - c.(total_disbursed)) as Hob
      by (unfold obligation; rewrite decide_False by (rewrite Hst; mem_dec); done).
    rewrite Hob in *.
    assert (∀ b, obligation (invested who id a c s) id (invested_campaign b a c)
      = c.(total_raised) + a - c.(total_disbursed)) as Hob'.
    { intros b. unfold obligation, invested_campaign.
      rewrite (saturating_add_exact U128_MAX c.(total_raised)) by lia.
      destruct b; simpl; rewrite Hst, decide_False by mem_dec; done. }
    split.
    + unfold invested_campaign. by destruct (negb _).
    + rewrite Hob'. unfold invested_campaign. destruct (negb _); simpl; intros Hn _;
        rewrite Hn in *; simpl in *; unfold covers; destruct (Hnat eq_refl Hu); 
        pose proof (ci_deposit _ _ _ Hcc) as [?|[_ Hx]]; try (rewrite Hst in Hx; mem_dec);
        pose proof vc_deposit; lia.
    + rewrite Hob'. unfold invested_campaign. destruct (negb _); simpl; intros asset Hn;
        destruct (Hass asset Hn) as [Hd Hasset]; rewrite Hn in *; simpl in *;
        pose proof (Ho Native (campaign_account id) ltac:(done)) as Hn';
        pose proof (Hl (Asset asset)) as Hla; simpl in *;
        (split; [lia|]); intros _ Hmin; rewrite Hla in Hmin; specialize (Hasset Hu Hmin); lia.
Qed.

Lemma custody_created who g rules license now s w w' :
  Inv s → world_wf 2 w → external who → minimum_balance ≤ CampaignCreationDeposit →
  transfer who (campaign_account s.(NextCampaignId)) CampaignCreationDeposit KeepAlive w
    = Ok (tt, w') →
  custody s w → custody (created who g rules license now s) w'.
Proof.
  intros HI Hw Hext Hmin Ht Hcu. pose proof (inv_next _ HI) as Hnext. pose proof vc_deposit.
  assert (fits U32_MAX s.(NextCampaignId)) as Hid by (split; lia).
  eapply transfer_effect in Ht; [|done|lia]. pose proof Ht as [Hwf _ Hl _ Hm Ho].
  pose proof (Hwf 1%nat Hw) as Hw'.
  destruct (Hm ltac:(lia) (Hext _ Hid)) as [_ Hto _ _ _]. simpl in Hto.
  pose proof (next_fresh s HI) as Hnone.
  destruct (si_absent _ _ (inv_slices _ HI _) Hnone) as (Hinv & _).
  apply (custody_change s.(NextCampaignId) s _ w w'); try done.
  - intros id' Hne Hid'. eapply pay_keeps; [|exact Ht|by apply Hext]. lia.
  - intros id' Hne. simpl. by rewrite lookup_insert_ne.
  - simpl. rewrite lookup_insert_eq. intros ? [= <-].
    pose proof (funds_nonneg 2 Native (campaign_account s.(NextCampaignId)) w Hw) as Hn.
    simpl in Hn. split; simpl; [done|..].
    + intros _ _. left. unfold obligation. simpl. lia.
    + intros a _. split; [lia|]. intros _ _. unfold obligation. simpl.
      pose proof (funds_nonneg 1 (Asset a) (campaign_account s.(NextCampaignId)) w' Hw') as Hna.
      simpl in Hna. lia.
Qed.

(** Settings and whitelists do not matter for custody. *)
Lemma custody_irrelevant s s' w :
  s'.(Campaigns) = s.(Campaigns) → s'.(Investments) = s.(Investments) →
  custody s w → custody s' w.
Proof.
  intros Hcs His Hcu id c Hc. rewrite Hcs in Hc.
  apply (escrow_frame s s' w); [by rewrite His|apply keeps_refl|by apply Hcu].
Qed.

Lemma custody_cancelled id c s w :
  Inv s → s.(Campaigns) !! id = Some c →
  (c.(status) ∉ [Cancelled; Completed; Succeeded]) →
  custody s w → custody (cancelled id c s) w.
Proof.
  intros HI Hc Hst. pose proof (si_campaign _ _ (inv_slices _ HI id) c Hc) as Hcc.
  apply (custody_still id c (set_status Cancelled c)); try done.
  - unfold cancelled, clear_milestones. by destruct (funding_model _).
  - unfold cancelled, clear_milestones. by destruct (funding_model _).
  - intros Hu. assert (c.(total_disbursed) = 0) as Hd0 by (apply Hu; mem_dec).
    split; [by intros ?|]. unfold obligation. simpl.
    assert (net_invested id (cancelled id c s) = net_invested id s) as ->.
    { unfold net_invested, cancelled, clear_milestones. by destruct (funding_model _). }
    destruct (decide _) as [|Hn]; [done|]. rewrite (ci_raised _ _ _ Hcc Hn). lia.
Qed.

Lemma custody_finalized id c s w :
  Inv s → s.(Campaigns) !! id = Some c → c.(status) = Funding →
  custody s w → custody (finalized id c s) w.
Proof.
  intros HI Hc Hst. pose proof (si_campaign _ _ (inv_slices _ HI id) c Hc) as Hcc.
  assert (c.(total_disbursed) = 0) as Hd0
    by (apply (ci_early _ _ _ Hcc); rewrite Hst; mem_dec).
  assert (net_invested id s = c.(total_raised)) as Hr
    by (apply (ci_raised _ _ _ Hcc); rewrite Hst; mem_dec).
  apply (custody_still id c (set_status (outcome c) c)); try done.
  intros _. split; [by intros ?|]. unfold obligation. simpl. rewrite Hst.
  rewrite (decide_False (P := Funding ∈ _)) by mem_dec.
  change (net_invested id (finalized id c s)) with (net_invested id s).
  destruct (decide _); lia.
Qed.
End funds.
