(* ===== verification/CrowdfundingCorrect.v ===== *)
(** * pallet-crowdfunding: the theorems

    Reachable states of the pallet, the invariant and the custody of funds on
    them, and the properties of the single dispatchables. *)

From S2P Require Import Prelude Arith Errors Frame Crowdfunding CrowdfundingMath.
From S2P Require Import CrowdfundingSpec CrowdfundingInv CrowdfundingFunds.
Import CrowdfundingErrors.

Section correct.
Context {W : Type} `{!System W, !Currency W, !Fungibles W, !NftInspect W}
  `{!LicenseVerifier W, !WorldLaws W} {T : Config} `{!ValidConfig}.
Implicit Types (e : CEnv W) (s : State) (w : W) (c : Campaign).

(** ** Steps *)

(** Arguments of a call are values of their Rust types. *)
Definition typed_call (call : Call) : Prop :=
  match call with
  | Create_campaign g _ _ => wf_config g
  | Invest _ a | Withdraw_investment _ a => fits U128_MAX a
  | Set_protocol_config bps _ => fits U16_MAX bps
  | _ => True
  end.

(** Nobody holds a key to a sub-account of the pallet. *)
Definition external_origin (o : Origin) : Prop :=
  match o with Signed who => external who | _ => True end.

(** The totals an investment adds to do not reach the end of their type. *)
Definition counters_fit (o : Origin) (call : Call) (s : State) : Prop :=
  match o, call with
  | Signed who, Invest id a =>
      ∀ c, s.(Campaigns) !! id = Some c → no_saturation id who a c s
  | _, _ => True
  end.

(** The ledgers have room for the accounts a call may open. *)
Definition roomy e : Prop := world_wf 2 (world e).

(** A block's worth of change: a call of this pallet that succeeds, or anything
    the rest of the runtime does.  The rest of the runtime cannot debit the
    pallet's sub-accounts. *)
Inductive step e : CEnv W → Prop :=
| step_call o call e' :
    typed_call call → external_origin o → counters_fit o call (store e) → roomy e →
    e ⊢ dispatch o call ⇝ e' → step e e'
| step_world w' :
    world_wf 0 w' → (∀ id, fits U32_MAX id → keeps id (world e) w') →
    block_number (world e) ≤ block_number w' →
    step e (mkEnv (store e) w' (events e)).

Definition genesis : State := mkState ∅ 0 ∅ ∅ [] ∅ ∅ ∅ ∅ None None.

Inductive reachable : CEnv W → Prop :=
| reachable_genesis w : world_wf 0 w → reachable (mkEnv genesis w [])
| reachable_step e e' : reachable e → step e e' → reachable e'.

(** ** The invariant on reachable states *)

Record good e : Prop := {
  good_store : Inv (store e);
  good_world : world_wf 0 (world e);
  good_custody : custody (store e) (world e);
}.

Lemma genesis_inv : Inv genesis.
Proof.
  split.
  - intros id. split; unfold investor_campaigns, creator_campaigns, whitelist_count;
      simpl; intros; rewrite ?lookup_empty in *; simpl in *; try done.
    + split; [set_solver|naive_solver].
    + split_and!; intros; rewrite ?lookup_empty; set_solver.
    + pose proof vc_whitelist. split; [|lia]. symmetry. by apply prefix_sum_none.
  - split; intros who; unfold investor_campaigns, creator_campaigns; simpl;
      rewrite lookup_empty; simpl; (split; [apply NoDup_nil_2|lia]).
  - by unfold U32_MAX.
  - apply vc_fee.
Qed.

Lemma genesis_good w : world_wf 0 w → good (mkEnv genesis w []).
Proof.
  intros Hw. split; [apply genesis_inv|done|]. intros id c Hc. simpl in Hc.
  by rewrite lookup_empty in Hc.
Qed.

(** A call that leaves the surroundings alone. *)
Lemma good_still e e' :
  good e → world e' = world e → Inv (store e') → custody (store e') (world e) → good e'.
Proof. intros [] Hw HI Hcu. split; rewrite ?Hw; done. Qed.

Lemma saturating_sub_net i :
  0 ≤ i.(total_withdrawn) ≤ i.(total_invested) →
  saturating_sub i.(total_invested) i.(total_withdrawn) = net i.
Proof. intros. unfold net. rewrite saturating_sub_exact; lia. Qed.

Lemma pay_effect_wf cur from to amt keep w w' :
  pay_effect cur from to amt keep w w' → world_wf 2 w → world_wf 0 w'.
Proof. intros Hp Hw. by apply world_wf_less, (pe_wf _ _ _ _ _ _ _ Hp). Qed.

(** The amounts the pallet computes are not negative. *)
Lemma penalty_nonneg id c a s :
  Inv s → s.(Campaigns) !! id = Some c → 0 ≤ a → 0 ≤ withdrawal_penalty c a.
Proof.
  intros HI Hc Ha. apply bps_of_nonneg; [done|]. pose proof vc_penalty.
  destruct (early_withdrawal_penalty_bps _) eqn:Hb; simpl; [|lia].
  by apply (ci_penalty _ _ _ (si_campaign _ _ (inv_slices _ HI id) c Hc)) in Hb as [? _].
Qed.

Lemma release_nonneg id c goal ms i m s :
  Inv s → s.(Campaigns) !! id = Some c →
  c.(config).(funding_model) = MilestoneBased goal ms → ms !! i = Some m → 0 ≤ release c m.
Proof.
  intros HI Hc Hm Hi. pose proof (si_campaign _ _ (inv_slices _ HI id) c Hc) as Hcc.
  pose proof (ci_disbursed _ _ _ Hcc).
  destruct (ci_milestones _ _ _ Hcc _ _ Hm) as (_ & Hbps & _).
  rewrite Forall_forall in Hbps. apply list_elem_of_lookup_2, Hbps in Hi as [? _].
  unfold release. pose proof (saturating_sub_nonneg c.(total_raised) c.(total_disbursed)).
  pose proof (bps_of_nonneg c.(total_raised) m.(release_bps)). lia.
Qed.

Lemma create_good o g rules license e e' :
  good e → roomy e → wf_config g → external_origin o →
  create_campaign o g rules license e = Ok (tt, e') → good e'.
Proof.
  intros [HI _ Hcu] Hw Hwf Hext Hrun.
  apply create_campaign_run in Hrun
    as (who & -> & _ & _ & _ & Hpen & Hvm & Hlen & Hmin & Hn & Ht & Hst).
  pose proof vc_deposit. split; rewrite ?Hst.
  - by apply Inv_created.
  - eapply transfer_effect in Ht; [|done|lia]. by eapply pay_effect_wf.
  - eapply custody_created; eauto.
Qed.

Lemma invest_good o id a e e' :
  good e → roomy e → 0 ≤ a → external_origin o → counters_fit o (Invest id a) (store e) →
  invest o id a e = Ok (tt, e') → good e'.
Proof.
  intros [HI _ Hcu] Hw Ha Hext Hns Hrun.
  apply invest_run in Hrun
    as (who & c & -> & Hc & Hst & _ & Hne & _ & _ & Hcap & _ & Hlen & Hp & Hs).
  specialize (Hns c Hc). split; rewrite ?Hs.
  - apply Inv_invested; auto; lia.
  - eapply pay_ok in Hp; [|done|lia]. by eapply pay_effect_wf.
  - destruct Hns as [? _]. eapply custody_invested; eauto. lia.
Qed.

Lemma withdraw_good o id a e e' :
  good e → roomy e → 0 ≤ a → withdraw_investment o id a e = Ok (tt, e') → good e'.
Proof.
  intros [HI _ Hcu] Hw Ha Hrun.
  apply withdraw_investment_run in Hrun
    as (who & c & i & w1 & -> & Hc & Hst & Hne & Hi & Hle & Hp & Hb & Hs).
  pose proof (inv_slices _ HI id) as Hsl. destruct (si_rows _ _ Hsl _ _ Hi) as [Hiw _].
  rewrite saturating_sub_net in Hle by done.
  assert (custody (withdrawn who id a c i (store e)) (world e')) as Hcu'
    by (eapply custody_withdrawn; eauto; lia).
  split; rewrite ?Hs; [apply Inv_withdrawn; auto; lia| |done].
  pose proof (saturating_sub_nonneg a (withdrawal_penalty c a)).
  eapply pay_ok in Hp; [|done|done].
  pose proof (pay_effect_wf _ _ _ _ _ _ _ Hp Hw) as Hw1.
  eapply burn_ok in Hb; [by apply (be_wf _ _ _ _ _ Hb)|exact Hw1|by eapply penalty_nonneg].
Qed.

Lemma refund_good o id e e' :
  good e → roomy e → claim_refund o id e = Ok (tt, e') → good e'.
Proof.
  intros [HI _ Hcu] Hw Hrun.
  apply claim_refund_run in Hrun as (who & c & i & -> & Hc & Hst & Hi & Hne & Hrf & Hp & Hs).
  pose proof (inv_slices _ HI id) as Hsl. destruct (si_rows _ _ Hsl _ _ Hi) as [Hiw _].
  rewrite saturating_sub_net in * by done. assert (0 < net i) by (unfold net in *; lia).
  pose proof (ci_disbursed _ _ _ (si_campaign _ _ Hsl c Hc)) as Hd.
  destruct (refund_of_bounds c (net i) Hd ltac:(lia)) as [Hr0 _].
  split; rewrite ?Hs; [by eapply Inv_refunded| |by eapply custody_refunded].
  eapply pay_ok in Hp; [|done|done]. by eapply pay_effect_wf.
Qed.

Lemma pay_split_wf cur id r who fee share w w' :
  world_wf 2 w → 0 ≤ fee → 0 ≤ share → pay_split cur id r who fee share w w' → world_wf 0 w'.
Proof.
  intros Hw Hf Hs (w1 & Hp1 & Hp2). eapply pay_ok in Hp1; [|done..].
  pose proof (pe_wf _ _ _ _ _ _ _ Hp1 _ Hw) as Hw1. eapply pay_ok in Hp2; [|exact Hw1|done].
  by apply (pe_wf _ _ _ _ _ _ _ Hp2).
Qed.

Lemma claim_funds_good o id e e' :
  good e → roomy e → claim_funds o id e = Ok (tt, e') → good e'.
Proof.
  intros [HI _ Hcu] Hw Hrun.
  apply claim_funds_run in Hrun as (c & -> & Hc & Hst & Hcl & Hp & Hs).
  pose proof (si_campaign _ _ (inv_slices _ HI id) c Hc) as Hcc.
  pose proof (ci_fee _ _ _ Hcc). split; rewrite ?Hs.
  - by apply Inv_funds_claimed.
  - eapply pay_split_wf; [exact Hw| | |exact Hp].
    + apply bps_of_nonneg; [apply saturating_sub_nonneg|lia].
    + apply saturating_sub_nonneg.
  - by eapply custody_funds_claimed.
Qed.

Lemma claim_milestone_good o id i e e' :
  good e → roomy e → claim_milestone_funds o id i e = Ok (tt, e') → good e'.
Proof.
  intros [HI _ Hcu] Hw Hrun.
  apply claim_milestone_funds_run in Hrun
    as (c & goal & ms & m & -> & Hc & Hst & Hm & Hi & Hmi & Hp & Hs).
  pose proof (si_campaign _ _ (inv_slices _ HI id) c Hc) as Hcc.
  pose proof (ci_fee _ _ _ Hcc). pose proof (release_nonneg _ _ _ _ _ _ _ HI Hc Hm Hmi).
  split; rewrite ?Hs.
  - by eapply Inv_milestone_paid.
  - eapply pay_split_wf; [exact Hw| | |exact Hp].
    + apply bps_of_nonneg; lia.
    + apply saturating_sub_nonneg.
  - by eapply custody_milestone_paid.
Qed.

Lemma claim_deposit_good o id e e' :
  good e → roomy e → external_origin o → claim_creation_deposit o id e = Ok (tt, e') → good e'.
Proof.
  intros [HI _ Hcu] Hw Hext Hrun.
  apply claim_creation_deposit_run in Hrun as (c & r & -> & Hc & Hst & Hd & _ & Ht & Hs).
  pose proof (ci_deposit _ _ _ (si_campaign _ _ (inv_slices _ HI id) c Hc)).
  pose proof vc_deposit. split; rewrite ?Hs.
  - by apply Inv_deposit_returned.
  - eapply transfer_effect in Ht; [|done|lia]. by eapply pay_effect_wf.
  - by eapply custody_deposit_returned.
Qed.

Lemma milestone_move_good from to id i e e' :
  good e → Claimed ∉ from → to ≠ Claimed → milestone_move from to id i e e' → good e'.
Proof.
  intros Hg Hf Ht (c & st & Hc & Hst & Hi & Hin & Hw & Hs).
  apply (good_still e); [done|done| |]; rewrite Hs.
  - eapply Inv_milestone_move; eauto; [apply (good_store _ Hg)|]. intros ->. done.
  - by apply (custody_irrelevant (store e)), (good_custody _ Hg).
Qed.

Lemma cancelled_good id c e e' :
  good e → (store e).(Campaigns) !! id = Some c →
  (c.(status) ∉ [Cancelled; Completed; Succeeded]) →
  world e' = world e → store e' = cancelled id c (store e) → good e'.
Proof.
  intros Hg Hc Hst Hw Hs. apply (good_still e); [done|done| |]; rewrite Hs; destruct Hg.
  - by apply Inv_cancelled.
  - by apply custody_cancelled.
Qed.

Lemma finalized_good id c e e' :
  good e → (store e).(Campaigns) !! id = Some c → c.(status) = Funding →
  world e' = world e → store e' = finalized id c (store e) → good e'.
Proof.
  intros Hg Hc Hst Hw Hs. apply (good_still e); [done|done| |]; rewrite Hs; destruct Hg.
  - by apply Inv_finalized.
  - by apply custody_finalized.
Qed.

Lemma pause_good o id e e' : good e → pause_campaign o id e = Ok (tt, e') → good e'.
Proof.
  intros Hg Hrun. apply pause_campaign_run in Hrun as (c & _ & Hc & Hst & Hw & Hs).
  apply (good_still e); [done|done| |]; rewrite Hs; destruct Hg.
  - by apply (Inv_paused id c).
  - eapply (custody_still id c); eauto; try done. intros _.
    unfold undisbursed, obligation. simpl. rewrite Hst, decide_False by mem_dec.
    split; [intros; mem_dec|done].
Qed.

Lemma resume_good o id e e' : good e → resume_campaign o id e = Ok (tt, e') → good e'.
Proof.
  intros Hg Hrun. apply resume_campaign_run in Hrun as (c & _ & Hc & Hst & _ & Hw & Hs).
  apply (good_still e); [done|done| |]; rewrite Hs; destruct Hg.
  - by apply Inv_resumed.
  - eapply (custody_still id c); eauto; try done. intros _.
    unfold undisbursed, obligation. simpl. rewrite Hst, decide_False by mem_dec.
    split; [intros; mem_dec|done].
Qed.

Lemma whitelist_good e e' s' :
  good e → world e' = world e → store e' = s' → Inv s' →
  s'.(Campaigns) = (store e).(Campaigns) → s'.(Investments) = (store e).(Investments) → good e'.
Proof.
  intros Hg Hw Hs HI Hc Hi. apply (good_still e); [done|done| |]; rewrite Hs; [done|].
  by apply (custody_irrelevant (store e)), (good_custody _ Hg).
Qed.

Lemma dispatch_good o call e e' :
  good e → roomy e → typed_call call → external_origin o → counters_fit o call (store e) →
  e ⊢ dispatch o call ⇝ e' → good e'.
Proof.
  intros Hg Hroom Hty Hext Hns Hrun. pose proof (good_store _ Hg) as HI.
  destruct call; simpl in *.
  - by eapply create_good.
  - apply cancel_campaign_run in Hrun as (c & _ & Hc & Hst & Hw & Hs). by eapply cancelled_good.
  - apply set_default_eligibility_run in Hrun as (_ & Hw & Hs).
    eapply whitelist_good; eauto. by apply (Inv_settings _ _ 0 0).
  - destruct Hty. by eapply invest_good.
  - destruct Hty. by eapply withdraw_good.
  - by eapply refund_good.
  - apply finalize_campaign_run in Hrun as (c & who & _ & Hc & Hst & _ & Hw & Hs).
    by eapply finalized_good.
  - by eapply claim_funds_good.
  - by eapply claim_deposit_good.
  - apply submit_milestone_run in Hrun. eapply milestone_move_good; [done| | |exact Hrun];
      [mem_dec|done].
  - apply approve_milestone_run in Hrun as [_ Hrun].
    eapply milestone_move_good; [done| | |exact Hrun]; [mem_dec|done].
  - apply reject_milestone_run in Hrun as [_ Hrun].
    eapply milestone_move_good; [done| | |exact Hrun]; [mem_dec|done].
  - by eapply claim_milestone_good.
  - by eapply pause_good.
  - by eapply resume_good.
  - apply add_to_whitelist_run in Hrun as (c & _ & Hc & _ & Hlen & Hw & Hs).
    eapply whitelist_good; eauto.
    + apply Inv_whitelist_added; auto; by rewrite Hc.
    + unfold whitelist_added. by destruct (whitelisted _ _ _).
    + unfold whitelist_added. by destruct (whitelisted _ _ _).
  - apply remove_from_whitelist_run in Hrun as (c & _ & Hc & _ & Hw & Hs).
    eapply whitelist_good; eauto.
    + apply Inv_whitelist_removed; auto; by rewrite Hc.
    + unfold whitelist_removed. by destruct (whitelisted _ _ _).
    + unfold whitelist_removed. by destruct (whitelisted _ _ _).
  - apply set_protocol_config_run in Hrun as (_ & Hb & Hw & Hs). destruct Hty.
    eapply whitelist_good; eauto. by apply (Inv_settings _ []).
  - apply report_license_revoked_run in Hrun
      as (c & a & p & who & _ & Hc & _ & _ & _ & Hst & Hw & Hs).
    eapply cancelled_good; eauto. intros Hx. destruct c.(status); mem_dec.
  - apply force_finalize_campaign_run in Hrun as (c & _ & Hc & Hst & Hw & Hs).
    by eapply finalized_good.
Qed.

Lemma step_good e e' : good e → step e e' → good e'.
Proof.
  intros Hg [o call e1 Hty Hext Hns Hroom Hrun|w' Hw' Hk _].
  - by eapply dispatch_good.
  - destruct Hg as [HI Hw Hcu]. split; [done..|]. intros id c Hc. simpl in *.
    apply (escrow_frame (store e) _ (world e)); [done| |by apply Hcu].
    apply Hk. by eapply stored_id_fits.
Qed.

Lemma reachable_good e : reachable e → good e.
Proof. induction 1; [by apply genesis_good|by eapply step_good]. Qed.
End correct.
