(* ===== verification/CrowdfundingTheorems.v ===== *)
(** * pallet-crowdfunding: the properties

    What holds of every reachable state of the pallet and of every call that
    succeeds, stated over any surroundings that keep the laws of Frame.v; each
    property is applied at the end to a run of the runtime's instance. *)

From S2P Require Import Prelude Arith Errors Frame Crowdfunding CrowdfundingMath.
From S2P Require Import CrowdfundingSpec CrowdfundingInv CrowdfundingFunds CrowdfundingCorrect.
Import CrowdfundingErrors.

(** ** Status and record of a campaign over a call *)

(** The state machine of a campaign. *)
Definition may_become (a b : CampaignStatus) : bool :=
  match a, b with
  | Funding, (Funding | Paused | Succeeded | Failed | MilestonePhase | Cancelled) => true
  | Paused, (Paused | Funding | Cancelled) => true
  | MilestonePhase, (MilestonePhase | Completed | Cancelled) => true
  | Succeeded, (Succeeded | Completed) => true
  | Failed, (Failed | Cancelled) => true
  | Completed, Completed => true
  | Cancelled, Cancelled => true
  | _, _ => false
  end.

(** The terms an investor signs up to; the deadline is not one of them. *)
Record same_terms (c c' : Campaign) : Prop := {
  st_creator : c'.(creator) = c.(creator);
  st_rules : c'.(eligibility_rules) = c.(eligibility_rules);
  st_created_at : c'.(created_at) = c.(created_at);
  st_license : c'.(rwa_asset_id) = c.(rwa_asset_id) ∧ c'.(participation_id) = c.(participation_id);
  st_fee : c'.(protocol_fee_bps) = c.(protocol_fee_bps);
  st_config : c'.(config) = set_deadline c'.(config).(deadline) c.(config);
  st_deadline : c'.(config).(deadline) = c.(config).(deadline) ∨
    (c.(status) = Paused ∧ c'.(status) = Funding);
}.

(** One call seen from one campaign. *)
Record evolves (c c' : Campaign) : Prop := {
  ev_status : may_become c.(status) c'.(status) = true;
  ev_terms : same_terms c c';
}.

Section theorems.
Context {W : Type} `{!System W, !Currency W, !Fungibles W, !NftInspect W}
  `{!LicenseVerifier W, !WorldLaws W} {T : Config} `{!ValidConfig}.
Implicit Types (e : CEnv W) (s : State) (w : W) (c : Campaign).

Lemma set_deadline_id (g : CampaignConfig) : set_deadline g.(deadline) g = g.
Proof. by destruct g. Qed.

Lemma evolves_refl c : evolves c c.
Proof.
  split; [by destruct c.(status)|]. split; try done; [by rewrite set_deadline_id|by left].
Qed.

Lemma evolves_keep c c' :
  c'.(config) = c.(config) → c'.(creator) = c.(creator) →
  c'.(eligibility_rules) = c.(eligibility_rules) → c'.(created_at) = c.(created_at) →
  c'.(rwa_asset_id) = c.(rwa_asset_id) → c'.(participation_id) = c.(participation_id) →
  c'.(protocol_fee_bps) = c.(protocol_fee_bps) →
  may_become c.(status) c'.(status) = true → evolves c c'.
Proof.
  intros Hg ? ? ? ? ? ? ?. split; [done|]. split; try done; rewrite Hg; [|by left].
  by rewrite set_deadline_id.
Qed.

(** Every campaign of [s] is in [s'], evolved. *)
Definition campaigns_evolve s s' : Prop :=
  ∀ id c, s.(Campaigns) !! id = Some c →
    ∃ c', s'.(Campaigns) !! id = Some c' ∧ evolves c c'.

Lemma evolve_same s s' : s'.(Campaigns) = s.(Campaigns) → campaigns_evolve s s'.
Proof. intros Hs id c Hc. exists c. rewrite Hs. auto using evolves_refl. Qed.

Lemma evolve_insert id c c' s s' :
  s.(Campaigns) !! id = Some c → s'.(Campaigns) = <[id := c']> s.(Campaigns) →
  evolves c c' → campaigns_evolve s s'.
Proof.
  intros Hc Hs He id0 c0 Hc0. rewrite Hs. destruct (decide (id0 = id)) as [->|Hne].
  - rewrite lookup_insert_eq. rewrite Hc in Hc0. injection Hc0 as <-. eauto.
  - rewrite lookup_insert_ne by done. eauto using evolves_refl.
Qed.

Lemma cancelled_campaigns id c s :
  (cancelled id c s).(Campaigns) = <[id := set_status Cancelled c]> s.(Campaigns).
Proof. unfold cancelled, clear_milestones. by destruct (funding_model _). Qed.

(** A finalized campaign. *)
Lemma outcome_may_become c : may_become Funding (outcome c) = true.
Proof. unfold outcome. destruct (funding_model _) as [g|[g|]|g ms]; try done; by case_match. Qed.

(** A record that is written with another status, its terms unchanged. *)
Ltac keeps := apply evolves_keep; try done; simpl.
Ltac stays Hs := eapply evolve_insert; [done|by rewrite Hs|]; keeps.

Lemma dispatch_evolves o call e e' :
  Inv (store e) → e ⊢ dispatch o call ⇝ e' → campaigns_evolve (store e) (store e').
Proof.
  intros HI Hrun. destruct call; simpl in *.
  - apply create_campaign_run in Hrun as (who & _ & _ & _ & _ & _ & _ & _ & _ & _ & _ & Hs).
    intros id c Hc. exists c. rewrite Hs. simpl. rewrite lookup_insert_ne; [auto using evolves_refl|].
    intros <-. by rewrite (next_fresh _ HI) in Hc.
  - apply cancel_campaign_run in Hrun as (c & _ & Hc & Hst & _ & Hs).
    eapply evolve_insert; [done|by rewrite Hs, cancelled_campaigns|]. keeps. by destruct c.(status); try mem_dec.
  - apply set_default_eligibility_run in Hrun as (_ & _ & Hs). apply evolve_same. by rewrite Hs.
  - apply invest_run in Hrun as (who & c & _ & Hc & _ & _ & _ & _ & _ & _ & _ & _ & _ & Hs).
    destruct (invested_row_change campaign_id who amount c (store e)) as [Hcs _ _ _ _ _ _ _ _ _].
    eapply evolve_insert; [done|by rewrite Hs, Hcs|].
    unfold invested_campaign. destruct (negb _); apply evolves_keep; try done; simpl; by destruct c.(status).
  - apply withdraw_investment_run in Hrun as (who & c & i & w1 & _ & Hc & _ & _ & _ & _ & _ & _ & Hs).
    destruct (withdrawn_row_change campaign_id who amount c i (store e)) as [Hcs _ _ _ _ _ _ _ _ _].
    eapply evolve_insert; [done|by rewrite Hs, Hcs|].
    unfold withdrawn_campaign. destruct (_ =? _); apply evolves_keep; try done; simpl; by destruct c.(status).
  - apply claim_refund_run in Hrun as (who & c & i & _ & Hc & _ & _ & _ & _ & _ & Hs).
    stays Hs. by destruct c.(status).
  - apply finalize_campaign_run in Hrun as (c & who & _ & Hc & Hst & _ & _ & Hs).
    stays Hs. rewrite Hst. apply outcome_may_become.
  - apply claim_funds_run in Hrun as (c & _ & Hc & Hst & _ & _ & Hs).
    stays Hs. by rewrite Hst.
  - apply claim_creation_deposit_run in Hrun as (c & r & _ & Hc & Hst & _ & _ & _ & Hs).
    stays Hs. by destruct c.(status).
  - apply submit_milestone_run in Hrun as (c & st & _ & _ & _ & _ & _ & Hs). apply evolve_same. by rewrite Hs.
  - apply approve_milestone_run in Hrun as (_ & c & st & _ & _ & _ & _ & _ & Hs). apply evolve_same. by rewrite Hs.
  - apply reject_milestone_run in Hrun as (_ & c & st & _ & _ & _ & _ & _ & Hs). apply evolve_same. by rewrite Hs.
  - apply claim_milestone_funds_run in Hrun as (c & g & ms & m & _ & Hc & Hst & _ & _ & _ & _ & Hs).
    eapply evolve_insert; [done|by rewrite Hs|].
    destruct (all_claimed _ _ _); apply evolves_keep; try done; simpl; by rewrite Hst.
  - apply pause_campaign_run in Hrun as (c & _ & Hc & Hst & _ & Hs).
    stays Hs. by rewrite Hst.
  - apply resume_campaign_run in Hrun as (c & _ & Hc & Hst & _ & _ & Hs).
    eapply evolve_insert; [done|by rewrite Hs|]. split; [simpl; by rewrite Hst|].
    split; try done. by right.
  - apply add_to_whitelist_run in Hrun as (c & _ & _ & _ & _ & _ & Hs). apply evolve_same. rewrite Hs.
    unfold whitelist_added. by destruct (whitelisted _ _ _).
  - apply remove_from_whitelist_run in Hrun as (c & _ & _ & _ & _ & Hs). apply evolve_same. rewrite Hs.
    unfold whitelist_removed. by destruct (whitelisted _ _ _).
  - apply set_protocol_config_run in Hrun as (_ & _ & _ & Hs). apply evolve_same. by rewrite Hs.
  - apply report_license_revoked_run in Hrun as (c & a & p & who & _ & Hc & _ & _ & _ & Hst & _ & Hs).
    eapply evolve_insert; [done|by rewrite Hs, cancelled_campaigns|]. keeps. by destruct c.(status); try mem_dec.
  - apply force_finalize_campaign_run in Hrun as (c & _ & Hc & Hst & _ & Hs).
    stays Hs. rewrite Hst. apply outcome_may_become.
Qed.

(** ** The whole of [try_state] *)

(** Identifiers are handed out in order. *)
Lemma campaigns_size s : Inv s → Z.of_nat (size s.(Campaigns)) ≤ s.(NextCampaignId).
Proof.
  intros HI. pose proof (inv_next _ HI).
  assert (size s.(Campaigns) ≤ length (seqZ 0 s.(NextCampaignId)))%nat as Hle.
  { rewrite <- size_dom. rewrite <- (size_list_to_set (C := gset Z)) by apply NoDup_seqZ.
    apply subseteq_size. intros id Hid%elem_of_dom. apply elem_of_list_to_set, elem_of_seqZ.
    pose proof (si_id _ _ (inv_slices _ HI id) Hid). lia. }
  rewrite length_seqZ in Hle. lia.
Qed.

Lemma existsb_None {A} (l : list Z) (m : gmap Z A) :
  (∀ id, id ∈ l → is_Some (m !! id)) →
  existsb (λ id, bool_decide (m !! id = None)) l = false.
Proof.
  intros Hl. induction l as [|id l IH]; [done|]. simpl.
  rewrite IH by (intros; apply Hl; by right).
  destruct (Hl id ltac:(left)) as [x ->]. by rewrite bool_decide_false.
Qed.

Lemma Inv_try_state s : Inv s → do_try_state s = Ok tt.
Proof.
  intros HI. pose proof (inv_slices _ HI) as Hsl. unfold do_try_state.
  assert (∀ id P, (∀ c, s.(Campaigns) !! id = Some c → P) → (s.(Campaigns) !! id = None → P) → P)
    as Hcase by (intros id P H1 H2; destruct (s.(Campaigns) !! id) eqn:E; eauto).
  repeat apply and_then_ok.
  - pose proof (campaigns_size s HI). pose proof (inv_next _ HI).
    rewrite wrap_small by (split; lia). by rewrite (proj2 (Z.ltb_ge _ _)).
  - apply try_for_each_ok. intros [id c] Hc%elem_of_map_to_list.
    destruct (ci_disbursed _ _ _ (si_campaign _ _ (Hsl id) c Hc)). by rewrite (proj2 (Z.ltb_ge _ _)).
  - apply try_for_each_ok. intros [[id who] i] Hi%elem_of_map_to_list.
    destruct (si_rows _ _ (Hsl id) who i Hi) as [[_ ?] _]. by rewrite (proj2 (Z.ltb_ge _ _)).
  - apply try_for_each_ok. intros [who ids] Hids%elem_of_map_to_list.
    rewrite existsb_None; [done|]. intros id Hid. apply (Hcase id); [by intros c ->|]. intros Hn.
    destruct (si_absent _ _ (Hsl id) Hn) as (_ & _ & _ & Hx). destruct (Hx who).
    unfold creator_campaigns. by rewrite Hids.
  - apply try_for_each_ok. intros [who ids] Hids%elem_of_map_to_list.
    rewrite existsb_None; [done|]. intros id Hid. apply (Hcase id); [by intros c ->|]. intros Hn.
    destruct (si_absent _ _ (Hsl id) Hn) as (Hx & _ & _ & _).
    assert (id ∈ investor_campaigns who s) as Hin by (unfold investor_campaigns; by rewrite Hids).
    apply (si_listed _ _ (Hsl id)) in Hin as (i & Hi & _). by rewrite Hx in Hi.
  - apply try_for_each_ok. intros [id c] Hc%elem_of_map_to_list.
    pose proof (si_campaign _ _ (Hsl id) c Hc) as Hcc. pose proof (ci_count _ _ _ Hcc) as Hct.
    pose proof (ci_count_fits _ _ _ Hcc). destruct (bool_decide _); [done|].
    rewrite wrap_small; [by rewrite <- Hct, Z.eqb_refl|].
    split; [|lia]. apply prefix_sum_nonneg. intros. by destruct (_ <? _).
  - apply try_for_each_ok. intros [[id who] b] Hb%elem_of_map_to_list.
    apply (Hcase id); [by intros c ->|]. intros Hn.
    destruct (si_absent _ _ (Hsl id) Hn) as (_ & Hx & _ & _). by rewrite Hx in Hb.
  - apply try_for_each_ok. intros [[id i] m] Hm%elem_of_map_to_list.
    apply (Hcase id); [|intros Hn; destruct (si_absent _ _ (Hsl id) Hn) as (_ & _ & Hx & _);
      by rewrite Hx in Hm].
    intros c Hc. rewrite Hc.
    destruct (ci_indices _ _ _ (si_campaign _ _ (Hsl id) c Hc) _ _ Hm) as [Hst _].
    by rewrite bool_decide_true.
Qed.

(** ** Properties of the reachable states *)



(** The same for a campaign funded in an asset whose minimum balance is
    one: the deposit is held in the native currency, what is owed in the asset. *)
Theorem asset_custody e id c a :
  reachable e → (store e).(Campaigns) !! id = Some c →
  c.(config).(funding_currency) = Asset a → asset_minimum_balance a (world e) = 1 →
  (c.(status) ∈ [Failed; Cancelled] → c.(total_disbursed) = 0) →
  c.(creation_deposit) ≤ free_balance (campaign_account id) (world e) ∧
  (if decide (c.(status) ∈ [Failed; Cancelled]) then net_invested id (store e)
   else c.(total_raised) - c.(total_disbursed))
    ≤ asset_balance a (campaign_account id) (world e).
Proof.
  intros Hr Hc Hcur Hmin Hu. pose proof (good_custody _ (reachable_good e Hr) id c Hc) as [_ _ Ha].
  destruct (Ha a Hcur) as [Hd Hb]. split; [done|]. exact (Hb Hu Hmin).
Qed.

(** C7. Over any call and any change of the surroundings a campaign stays in
    the storage and its status follows the state machine [may_become]; in
    particular a completed or cancelled campaign stays so for ever. *)
Theorem status_transitions e e' id c :
  reachable e → step e e' → (store e).(Campaigns) !! id = Some c →
  ∃ c', (store e').(Campaigns) !! id = Some c' ∧ may_become c.(status) c'.(status) = true.
Proof.
  intros Hr Hstep Hc. pose proof (good_store _ (reachable_good e Hr)) as HI.
  destruct Hstep as [o call e' _ _ _ _ Hrun|w' _ _ _].
  - destruct (dispatch_evolves _ _ _ _ HI Hrun id c Hc) as (c' & Hc' & []). eauto.
  - exists c. by destruct c.(status).
Qed.

(** The terms of a campaign (creator, funding model, currency, caps,
    penalty, eligibility rules, license, protocol fee) never change after its
    creation; its deadline changes only when it is resumed from a pause. *)
Theorem terms_are_fixed e e' id c :
  reachable e → step e e' → (store e).(Campaigns) !! id = Some c →
  ∃ c', (store e').(Campaigns) !! id = Some c' ∧ same_terms c c'.
Proof.
  intros Hr Hstep Hc. pose proof (good_store _ (reachable_good e Hr)) as HI.
  destruct Hstep as [o call e' _ _ _ _ Hrun|w' _ _ _].
  - destruct (dispatch_evolves _ _ _ _ HI Hrun id c Hc) as (c' & Hc' & []). eauto.
  - exists c. split; [done|]. apply (ev_terms _ _ (evolves_refl c)).
Qed.

(** ** Milestones *)

Lemma claimed_shares_all id s raised ms :
  Z.of_nat (length ms) ≤ U8_MAX → all_claimed id ms s = true →
  claimed_shares id s raised ms = foldr Z.add 0 (bps_of raised <$> (release_bps <$> ms)).
Proof.
  intros Hlen Hall. unfold claimed_shares. f_equal. rewrite <- list_fmap_compose.
  apply list_eq. intros i. rewrite list_lookup_imap, list_lookup_fmap.
  destruct (ms !! i) as [m|] eqn:Hm; [|done]. simpl. unfold claimed_share.
  assert (milestone_claimed id s (Z.of_nat i) = true) as ->; [|done].
  unfold all_claimed in Hall. rewrite forallb_forall in Hall. apply Hall.
  unfold milestone_indices. rewrite wrap_small by ulia. apply list_elem_of_In, elem_of_seqZ.
  apply lookup_lt_Some in Hm. lia.
Qed.

Lemma sum_parts_le (l : list Z) :
  Forall (λ k, 0 ≤ k) l → Forall (λ k, 0 ≤ k ≤ foldr Z.add 0 l) l ∧ 0 ≤ foldr Z.add 0 l.
Proof.
  induction 1 as [|k l Hk Hl [IH1 IH2]]; simpl; [done|]. split; [|lia].
  constructor; [lia|]. eapply Forall_impl; [exact IH1|]. simpl. lia.
Qed.

(** When the last milestone of a campaign is claimed everything that was
    raised has been disbursed: rounding every share up and capping it by the
    rest leaves nothing behind.  The bound on the amount keeps the basis-point
    product within 128 bits. *)
Theorem completed_disburses_all e id c :
  reachable e → (store e).(Campaigns) !! id = Some c → c.(status) = Completed →
  bps_safe c.(total_raised) → c.(total_disbursed) = c.(total_raised).
Proof.
  intros Hr Hc Hst Hsafe. pose proof (good_store _ (reachable_good e Hr)) as HI.
  pose proof (si_campaign _ _ (inv_slices _ HI id) c Hc) as Hcc.
  pose proof (ci_completed _ _ _ Hcc Hst) as Hdone.
  destruct (funding_model _) as [g|cap|g ms] eqn:Hm; [done|done|].
  destruct (ci_milestones _ _ _ Hcc _ _ Hm) as (Hlen & Hbps & _).
  destruct (ci_model _ _ _ Hcc) as [_ Hsum]. destruct (Hsum _ _ Hm) as [_ Hsum'].
  rewrite (ci_paid _ _ _ Hcc _ _ Hm) by (rewrite Hst; mem_dec).
  rewrite (claimed_shares_all _ _ _ _ Hlen Hdone).
  destruct (sum_parts_le (release_bps <$> ms)) as [Hle _].
  { apply Forall_fmap. eapply Forall_impl; [exact Hbps|]. by intros m [? _]. }
  change (foldr Z.add 0 (map release_bps ms)) with (foldr Z.add 0 (release_bps <$> ms)) in Hsum'.
  rewrite Hsum' in Hle. pose proof (bps_of_sum c.(total_raised) _ Hsafe Hle) as Hs.
  rewrite Hsum' in Hs. lia.
Qed.

(** ** Payments *)

Lemma pay_received cur from to amt keep w w' :
  pay_effect cur from to amt keep w w' → 0 ≤ amt → from ≠ to →
  funds cur to w' = funds cur to w + amt.
Proof.
  intros [_ _ _ Hno Hm _] Ha Hne. destruct (decide (amt = 0)) as [->|].
  - rewrite Hno by auto. lia.
  - by destruct Hm as [_ Hto _ _ _]; [lia|done|].
Qed.

Lemma pay_spent cur from to amt w w' :
  pay_effect cur from to amt true w w' → 0 ≤ amt → from ≠ to →
  funds cur from w' = funds cur from w - amt.
Proof.
  intros [_ _ _ Hno Hm _] Ha Hne. destruct (decide (amt = 0)) as [->|].
  - rewrite Hno by auto. lia.
  - destruct Hm as [_ _ [Hf|[? _]] _ _]; [lia|done|done|done].
Qed.

Lemma pay_bystander cur from to amt keep w w' cur' x :
  pay_effect cur from to amt keep w w' → 0 ≤ amt → x ≠ from → x ≠ to →
  funds cur' x w' = funds cur' x w.
Proof.
  intros [_ _ _ Hno Hm Ho] Ha Hf Ht. destruct (decide (amt = 0 ∨ from = to)) as [Hz|Hz]; [auto|].
  destruct (decide (cur' = cur)) as [->|]; [|auto].
  destruct Hm as [_ _ _ _ Hx]; [lia|naive_solver|]. by apply Hx.
Qed.

Lemma burn_bystander cur who amt w w' cur' x :
  burn_effect cur who amt w w' → 0 ≤ amt → x ≠ who → funds cur' x w' = funds cur' x w.
Proof.
  intros [_ _ _ Hno Hm Ho] Ha Hx. destruct (decide (amt = 0)) as [Hz|Hz]; [auto|].
  destruct (decide (cur' = cur)) as [->|]; [|auto].
  destruct Hm as [_ _ Hy]; [lia|]. by apply Hy.
Qed.

(** An investment that succeeds moves exactly its amount from the investor
    to the campaign's sub-account and adds it to the campaign's total and to the
    investor's record, and neither the hard cap nor the investor's own limit is
    exceeded. *)
Theorem invest_exact e id a who e' :
  reachable e → roomy e → external who → 0 ≤ a →
  counters_fit (Signed who) (Invest id a) (store e) →
  invest (Signed who) id a e = Ok (tt, e') →
  ∃ c c' i i',
    (store e).(Campaigns) !! id = Some c ∧ (store e').(Campaigns) !! id = Some c' ∧
    default Investment_default ((store e).(Investments) !! (id, who)) = i ∧
    (store e').(Investments) !! (id, who) = Some i' ∧
    let cur := c.(config).(funding_currency) in
    funds cur who (world e') = funds cur who (world e) - a ∧
    funds cur (campaign_account id) (world e') = funds cur (campaign_account id) (world e) + a ∧
    c'.(total_raised) = c.(total_raised) + a ∧ net i' = net i + a ∧
    (∀ cap, c.(config).(hard_cap) = Some cap → c'.(total_raised) ≤ cap) ∧
    (∀ m, c.(config).(max_investment_per_investor) = Some m → net i' ≤ m).
Proof.
  intros Hr Hw Hext Ha Hfit Hrun. pose proof (good_store _ (reachable_good e Hr)) as HI.
  apply invest_run in Hrun
    as (who' & c & [= <-] & Hc & Hst & _ & Hne & _ & _ & Hcap & Hmax & _ & Hp & Hs).
  pose proof (inv_slices _ HI id) as Hsl. pose proof (stored_id_fits _ id c HI Hc) as Hid.
  destruct (Hfit c Hc) as (Hf1 & Hf2 & _).
  eapply pay_ok in Hp; [|exact Hw|done].
  destruct (invested_row_change id who a c (store e)) as [Hcs _ _ _ _ _ _ _ _ _].
  change (default Investment_default ((store e).(Investments) !! (id, who)))
    with (row id who (store e)) in *.
  assert (0 ≤ (row id who (store e)).(total_withdrawn) ≤ (row id who (store e)).(total_invested)) as Hi.
  { unfold row. destruct ((store e).(Investments) !! (id, who)) eqn:E; simpl;
      [by apply (si_rows _ _ Hsl) in E as [? _]|done]. }
  exists c, (invested_campaign (negb (contains (investor_campaigns who (store e)) id)) a c),
    (row id who (store e)), (mkInvestment (saturating_add U128_MAX (row id who (store e)).(total_invested) a)
      (row id who (store e)).(total_withdrawn)).
  rewrite Hs. split; [done|]. split; [by rewrite Hcs, lookup_insert_eq|]. split; [done|]. split.
  { unfold invested. destruct (negb _); simpl; by rewrite lookup_insert_eq. }
  assert (∀ b, (invested_campaign b a c).(total_raised) = c.(total_raised) + a) as Hraised.
  { intros b. unfold invested_campaign. rewrite (saturating_add_exact U128_MAX _ a Hf1). by destruct b. }
  rewrite Hraised. unfold net in *. simpl. rewrite (saturating_add_exact U128_MAX _ a Hf2).
  split_and!.
  - by eapply pay_spent; [exact Hp|done|apply Hext].
  - by eapply pay_received; [exact Hp|done|apply Hext].
  - done.
  - lia.
  - intros cap Hca. specialize (Hcap cap Hca). by rewrite saturating_add_exact in Hcap.
  - intros m Hm. specialize (Hmax m Hm). rewrite saturating_sub_exact in Hmax by lia.
    rewrite saturating_add_exact in Hmax by lia. lia.
Qed.

(** A withdrawal pays the investor the amount less the penalty, takes
    exactly the amount off the campaign's total and off the investor's record,
    and never more than the investor has in the campaign. *)
Theorem withdraw_exact e id a who e' :
  reachable e → roomy e → external who → 0 ≤ a →
  withdraw_investment (Signed who) id a e = Ok (tt, e') →
  ∃ c c' i i',
    (store e).(Campaigns) !! id = Some c ∧ (store e').(Campaigns) !! id = Some c' ∧
    (store e).(Investments) !! (id, who) = Some i ∧
    (store e').(Investments) !! (id, who) = Some i' ∧
    let cur := c.(config).(funding_currency) in
    let penalty := withdrawal_penalty c a in
    0 ≤ penalty ≤ a ∧
    funds cur who (world e') = funds cur who (world e) + (a - penalty) ∧
    c'.(total_raised) = c.(total_raised) - a ∧ net i' = net i - a ∧ 0 ≤ net i'.
Proof.
  intros Hr Hw Hext Ha Hrun. pose proof (good_store _ (reachable_good e Hr)) as HI.
  apply withdraw_investment_run in Hrun
    as (who' & c & i & w1 & [= <-] & Hc & Hst & Hne & Hi & Hle & Hp & Hb & Hs).
  pose proof (inv_slices _ HI id) as Hsl. destruct (si_rows _ _ Hsl _ _ Hi) as [Hiw Himax].
  pose proof (stored_id_fits _ id c HI Hc) as Hid. pose proof (si_campaign _ _ Hsl c Hc) as Hcc.
  rewrite saturating_sub_net in Hle by done.
  pose proof (net_row_le id who _ Hsl) as Hnet. unfold row in Hnet. rewrite Hi in Hnet. simpl in Hnet.
  pose proof (ci_raised_le _ _ _ Hcc).
  assert (0 ≤ withdrawal_penalty c a ≤ a) as Hpa by by eapply withdrawal_penalty_bounds.
  rewrite saturating_sub_exact in Hp by lia.
  eapply pay_ok in Hp; [|exact Hw|lia]. pose proof (pay_effect_wf _ _ _ _ _ _ _ Hp Hw) as Hw1.
  eapply burn_ok in Hb; [|exact Hw1|lia].
  destruct (withdrawn_row_change id who a c i (store e)) as [Hcs _ _ _ _ _ _ _ _ _].
  eexists c, _, i, (mkInvestment i.(total_invested) (saturating_add U128_MAX i.(total_withdrawn) a)).
  rewrite Hs. split; [done|]. split; [by rewrite Hcs, lookup_insert_eq|]. split; [done|]. split.
  { unfold withdrawn. destruct (_ =? _); simpl; by rewrite lookup_insert_eq. }
  simpl. unfold net in *. simpl. rewrite saturating_add_exact by lia.
  split_and!; try lia.
  - rewrite (burn_bystander _ _ _ _ _ _ who Hb) by (try lia; apply Hext, Hid).
    eapply pay_received; [exact Hp|lia|]. intros Heq. by apply (Hext id Hid).
  - unfold withdrawn_campaign. rewrite (saturating_sub_exact c.(total_raised) a) by lia. by case_match.
Qed.

(** C38. A refund pays the investor their share and removes their record, so
    that it is paid once: the same claim made again is rejected.  The share is
    all they have in the campaign when nothing was disbursed, and otherwise at
    most half a unit more than their part of what is left. *)
Theorem refund_once e id who e' :
  reachable e → roomy e → external who → claim_refund (Signed who) id e = Ok (tt, e') →
  ∃ c i, (store e).(Campaigns) !! id = Some c ∧ (store e).(Investments) !! (id, who) = Some i ∧
    let cur := c.(config).(funding_currency) in
    let refund := refund_of c (net i) in
    c.(status) ∈ [Failed; Cancelled] ∧ 0 < refund ≤ net i ∧
    (c.(total_disbursed) = 0 → refund = net i) ∧
    2 * refund * c.(total_raised)
      ≤ 2 * net i * (c.(total_raised) - c.(total_disbursed)) + c.(total_raised) ∧
    funds cur who (world e') = funds cur who (world e) + refund ∧
    (store e').(Investments) !! (id, who) = None ∧
    claim_refund (Signed who) id e' = Err (err NoInvestmentFound).
Proof.
  intros Hr Hw Hext Hrun. pose proof (good_store _ (reachable_good e Hr)) as HI.
  apply claim_refund_run in Hrun
    as (who' & c & i & [= <-] & Hc & Hst & Hi & Hne & Hrf & Hp & Hs).
  pose proof (inv_slices _ HI id) as Hsl. destruct (si_rows _ _ Hsl _ _ Hi) as [Hiw _].
  pose proof (stored_id_fits _ id c HI Hc) as Hid. pose proof (si_campaign _ _ Hsl c Hc) as Hcc.
  rewrite saturating_sub_net in * by done. pose proof (ci_disbursed _ _ _ Hcc) as Hd.
  assert (0 < net i) as Hn by (unfold net in *; lia).
  destruct (refund_of_bounds c (net i) Hd ltac:(lia)) as [Hr0 Hr1].
  pose proof (net_row_le id who _ Hsl) as Hnet. unfold row in Hnet. rewrite Hi in Hnet. simpl in Hnet.
  pose proof (ci_raised_le _ _ _ Hcc).
  exists c, i. split; [done|]. split; [done|]. simpl. split_and!; try done; try lia.
  - intros ?. by apply refund_of_undisbursed.
  - apply refund_of_share; lia.
  - eapply pay_ok in Hp; [|exact Hw|lia]. eapply pay_received; [exact Hp|lia|].
    intros Heq. by apply (Hext id Hid).
  - rewrite Hs. simpl. by rewrite lookup_delete_eq.
  - unfold claim_refund, get_campaign, reads, mbind, M_bind, gets. simpl.
    rewrite Hs. simpl. rewrite lookup_insert_eq. simpl. unfold ensure. rewrite bool_decide_true by done.
    unfold mret, M_ret. simpl. rewrite ?Hs. simpl. by rewrite lookup_delete_eq.
Qed.

(** The creator of a campaign that succeeded claims everything that was
    raised, once: the protocol's recipient gets the fee fixed at creation,
    rounded up, the creator the rest, and a second claim is rejected. *)
Theorem claim_funds_once e id e' c :
  reachable e → roomy e → (store e).(Campaigns) !! id = Some c → external c.(creator) →
  let recipient := effective_protocol_fee_recipient (store e) in
  external recipient → recipient ≠ c.(creator) →
  claim_funds (Signed c.(creator)) id e = Ok (tt, e') →
  let cur := c.(config).(funding_currency) in
  let fee := bps_of c.(total_raised) c.(protocol_fee_bps) in
  c.(status) = Succeeded ∧ 0 ≤ fee ≤ c.(total_raised) ∧
  funds cur recipient (world e') = funds cur recipient (world e) + fee ∧
  funds cur c.(creator) (world e') = funds cur c.(creator) (world e) + (c.(total_raised) - fee) ∧
  claim_funds (Signed c.(creator)) id e' = Err (err InvalidCampaignStatus).
Proof.
  intros Hr Hw Hc Hext recipient Hextr Hne Hrun cur fee.
  pose proof (good_store _ (reachable_good e Hr)) as HI.
  apply claim_funds_run in Hrun as (c0 & _ & Hc0 & Hst & Hcl & (w1 & Hp1 & Hp2) & Hs).
  rewrite Hc in Hc0. injection Hc0 as <-. fold recipient in Hp1.
  pose proof (si_campaign _ _ (inv_slices _ HI id) c Hc) as Hcc.
  pose proof (stored_id_fits _ id c HI Hc) as Hid. pose proof (ci_fee _ _ _ Hcc).
  pose proof (ci_disbursed _ _ _ Hcc).
  rewrite (ci_early _ _ _ Hcc) in * by (rewrite Hst; mem_dec).
  rewrite (saturating_sub_exact c.(total_raised) 0), Z.sub_0_r in * by lia. fold fee in Hp1, Hp2.
  assert (0 ≤ fee ≤ c.(total_raised)) as Hfee
    by (split; [apply bps_of_nonneg|apply bps_of_le]; lia).
  rewrite saturating_sub_exact in Hp2 by lia.
  eapply pay_ok in Hp1; [|exact Hw|lia].
  pose proof (pe_wf _ _ _ _ _ _ _ Hp1 _ Hw) as Hw1. eapply pay_ok in Hp2; [|exact Hw1|lia].
  assert (∀ x, external x → campaign_account id ≠ x) as Hacc
    by (intros x Hx Heq; by apply (Hx id Hid)).
  split; [done|]. split; [done|]. split_and!.
  - rewrite (pay_bystander _ _ _ _ _ _ _ cur recipient Hp2) by (try lia; auto using not_eq_sym).
    eapply pay_received; [exact Hp1|lia|auto].
  - unfold cur. erewrite (pay_received _ _ _ _ _ _ _ Hp2) by (try lia; auto).
    by rewrite (pay_bystander _ _ _ _ _ _ _ _ c.(creator) Hp1) by (try lia; auto using not_eq_sym).
  - unfold claim_funds, get_campaign, reads, mbind, M_bind, gets. simpl.
    rewrite Hs. simpl. rewrite lookup_insert_eq. simpl. by rewrite Z.eqb_refl.
Qed.

(** A milestone is paid once: after a claim that succeeds its status is
    [Claimed], which no call changes while the campaign is in its milestone
    phase, and claiming it again fails. *)
Theorem milestone_claimed_once e id i who e' :
  reachable e → claim_milestone_funds (Signed who) id i e = Ok (tt, e') →
  (store e').(MilestoneStatuses) !! (id, i) = Some Claimed ∧
  ∀ o e'', claim_milestone_funds o id i e' ≠ Ok (tt, e'') ∧
           submit_milestone o id i e' ≠ Ok (tt, e'') ∧
           approve_milestone o id i e' ≠ Ok (tt, e'') ∧
           reject_milestone o id i e' ≠ Ok (tt, e'').
Proof.
  intros Hr Hrun.
  apply claim_milestone_funds_run in Hrun as (c & g & ms & m & _ & Hc & Hst & Hm & Hi & _ & _ & Hs).
  assert ((store e').(MilestoneStatuses) !! (id, i) = Some Claimed) as Hcl.
  { rewrite Hs. unfold milestone_paid. simpl. by rewrite lookup_insert_eq. }
  split; [done|]. intros o e''. split_and!; intros Hx0.
  - apply claim_milestone_funds_run in Hx0 as (c' & g' & ms' & m' & _ & _ & _ & _ & Hx & _).
    by rewrite Hcl in Hx.
  - apply submit_milestone_run in Hx0 as (c' & st & _ & _ & Hx & Hin & _).
    rewrite Hcl in Hx. injection Hx as <-. mem_dec.
  - apply approve_milestone_run in Hx0 as (_ & c' & st & _ & _ & Hx & Hin & _).
    rewrite Hcl in Hx. injection Hx as <-. mem_dec.
  - apply reject_milestone_run in Hx0 as (_ & c' & st & _ & _ & Hx & Hin & _).
    rewrite Hcl in Hx. injection Hx as <-. mem_dec.
Qed.

(** The creation deposit goes back to the creator in full, once the
    campaign is over, and is recorded as returned. *)
Theorem deposit_returned_once e id c e' :
  reachable e → roomy e → (store e).(Campaigns) !! id = Some c → external c.(creator) →
  claim_creation_deposit (Signed c.(creator)) id e = Ok (tt, e') →
  c.(status) ∈ [Completed; Failed; Cancelled] ∧
  c.(creation_deposit) = CampaignCreationDeposit ∧
  free_balance c.(creator) (world e') = free_balance c.(creator) (world e) + CampaignCreationDeposit ∧
  claim_creation_deposit (Signed c.(creator)) id e' = Err (err AlreadyClaimed).
Proof.
  intros Hr Hw Hc Hext Hrun. pose proof (good_store _ (reachable_good e Hr)) as HI.
  apply claim_creation_deposit_run in Hrun as (c0 & r & _ & Hc0 & Hst & Hd & _ & Ht & Hs).
  rewrite Hc in Hc0. injection Hc0 as <-. pose proof vc_deposit.
  pose proof (stored_id_fits _ id c HI Hc) as Hid.
  destruct (ci_deposit _ _ _ (si_campaign _ _ (inv_slices _ HI id) c Hc)) as [Hdep|[? _]]; [|done].
  rewrite Hdep in *. split; [done|]. split; [done|]. split.
  - eapply transfer_effect in Ht; [|exact Hw|lia].
    apply (pay_received Native) in Ht; [done|lia|]. intros Heq. by apply (Hext id Hid).
  - unfold claim_creation_deposit, get_campaign, reads, mbind, M_bind, gets. simpl.
    rewrite Hs. simpl. rewrite lookup_insert_eq. simpl. rewrite Z.eqb_refl.
    unfold ensure. by rewrite bool_decide_true.
Qed.

(** ** Deadlines *)

(** A pause does not cost the campaign time: when it is resumed the
    blocks left until its deadline are those left when it was paused. *)
Theorem pause_keeps_window o o' id e e1 w2 evs e2 c :
  (store e).(Campaigns) !! id = Some c → pause_campaign o id e = Ok (tt, e1) →
  block_number (world e) ≤ block_number w2 →
  c.(config).(deadline) + (block_number w2 - block_number (world e)) ≤ U32_MAX →
  resume_campaign o' id (mkEnv (store e1) w2 evs) = Ok (tt, e2) →
  ∃ c2, (store e2).(Campaigns) !! id = Some c2 ∧ c2.(status) = Funding ∧
    c2.(config).(deadline) - block_number w2 = c.(config).(deadline) - block_number (world e).
Proof.
  intros Hc Hp Hle Hfit Hres.
  apply pause_campaign_run in Hp as (c0 & _ & Hc0 & _ & _ & Hs1).
  rewrite Hc in Hc0. injection Hc0 as <-.
  apply resume_campaign_run in Hres as (c1 & _ & Hc1 & _ & _ & _ & Hs2). simpl in *.
  rewrite Hs1 in Hc1. simpl in Hc1. rewrite lookup_insert_eq in Hc1. injection Hc1 as <-.
  eexists. rewrite Hs2. simpl. rewrite lookup_insert_eq. split; [done|]. split; [done|].
  unfold resumed, extended_deadline. simpl.
  rewrite (saturating_sub_exact (block_number w2)) by done. rewrite saturating_add_exact by done. lia.
Qed.

(** A campaign is created with a deadline in the future and within the
    configured bounds on its duration, it starts in [Funding] with nothing
    raised, and its deposit is in its sub-account. *)
Theorem create_exact e o g rules license e' :
  reachable e → roomy e → external_origin o →
  create_campaign o g rules license e = Ok (tt, e') →
  let id := (store e).(NextCampaignId) in
  ∃ c, (store e).(Campaigns) !! id = None ∧ (store e').(Campaigns) !! id = Some c ∧
    o = Signed c.(creator) ∧ c.(config) = g ∧ c.(status) = Funding ∧
    c.(total_raised) = 0 ∧ c.(total_disbursed) = 0 ∧
    c.(protocol_fee_bps) = effective_protocol_fee_bps (store e) ∧
    block_number (world e) + MinCampaignDuration ≤ g.(deadline)
      ≤ block_number (world e) + MaxCampaignDuration ∧
    free_balance (campaign_account id) (world e') =
      free_balance (campaign_account id) (world e) + CampaignCreationDeposit ∧
    free_balance c.(creator) (world e') = free_balance c.(creator) (world e) - CampaignCreationDeposit.
Proof.
  intros Hr Hw Hext Hrun id. pose proof (good_store _ (reachable_good e Hr)) as HI.
  apply create_campaign_run in Hrun
    as (who & -> & _ & _ & Hdl & _ & _ & _ & _ & Hn & Ht & Hs).
  pose proof (inv_next _ HI). pose proof vc_deposit.
  assert (fits U32_MAX id) as Hid by (unfold id; split; lia).
  eapply transfer_effect in Ht; [|exact Hw|lia]. fold id in Ht.
  eexists. split; [by apply next_fresh|]. rewrite Hs. simpl. rewrite lookup_insert_eq.
  split; [done|]. simpl. split_and!; try done; try lia.
  - apply (pay_received Native _ _ _ _ _ _ Ht); [lia|by apply Hext].
  - apply (pay_spent Native _ _ _ _ _ Ht); [lia|by apply Hext].
Qed.

(** ** Basis points *)

(** Fees and penalties are the exact basis-point share of the amount
    rounded up, so never below the share, never a whole unit above it, and
    never more than the amount. *)
Theorem bps_of_is_ceiling a bps :
  bps_safe a → 0 ≤ bps →
  10000 * (bps_of a bps - 1) < a * Z.min bps 10000 ≤ 10000 * bps_of a bps ∧
  0 ≤ bps_of a bps ≤ a.
Proof.
  intros Hs Hb. split; [by apply bps_of_ceil|]. destruct Hs as [Ha _].
  split; [by apply bps_of_nonneg|by apply bps_of_le].
Qed.

(** Splitting a withdrawal in two never lowers the penalty, and raises it
    by one unit at most. *)
Theorem bps_of_splitting a b bps :
  bps_safe (a + b) → 0 ≤ a → 0 ≤ b → 0 ≤ bps →
  bps_of (a + b) bps ≤ bps_of a bps + bps_of b bps ≤ bps_of (a + b) bps + 1.
Proof. apply bps_of_split. Qed.

(** ** The runtime API *)

(** The API [check_eligibility] accepts an account for a campaign exactly
    when the check that [invest] makes does. *)
Theorem check_eligibility_agrees e id c who :
  (store e).(Campaigns) !! id = Some c →
  (check_eligibility id who e = Ok tt ↔ check_eligibility_inner who c id e = Ok (tt, e)).
Proof.
  intros Hc. unfold check_eligibility. rewrite Hc.
  destruct (check_eligibility_inner who c id e) as [[[] e1]|] eqn:Hi.
  - apply check_eligibility_inner_ok in Hi as [-> _]. done.
  - split; [|done]. by destruct (List.find _ _).
Qed.

(** While a campaign is [Funding] the API [preview_withdrawal] answers
    exactly for the amounts [withdraw_investment] accepts, with the penalty and
    the payout the withdrawal will have. *)
Theorem preview_agrees e id who a c p :
  reachable e → (store e).(Campaigns) !! id = Some c → c.(status) = Funding →
  preview_withdrawal id who a (store e) = Some p ↔
  ∃ inv, (store e).(Investments) !! (id, who) = Some inv ∧ a ≠ 0 ∧
    a ≤ saturating_sub inv.(total_invested) inv.(total_withdrawn) ∧
    p = mkWithdrawalPreview a (withdrawal_penalty c a)
          (saturating_sub a (withdrawal_penalty c a))
          (default EarlyWithdrawalPenaltyBps c.(config).(early_withdrawal_penalty_bps)).
Proof.
  intros Hr Hc Hst. pose proof (good_store _ (reachable_good e Hr)) as HI.
  pose proof (si_campaign _ _ (inv_slices _ HI id) c Hc) as Hcc.
  unfold preview_withdrawal. rewrite Hc. simpl. rewrite Hst.
  set (bps := default EarlyWithdrawalPenaltyBps c.(config).(early_withdrawal_penalty_bps)) in *.
  assert (0 ≤ bps ≤ 10000) as Hb.
  { unfold bps. destruct (early_withdrawal_penalty_bps _) eqn:Hbb; simpl; [|apply vc_penalty].
    by apply (ci_penalty _ _ _ Hcc). }
  assert (withdrawal_penalty c a = if 0 <? bps
    then saturating_add U128_MAX (saturating_mul U128_MAX a bps) 9999 / 10000 else 0) as Hpen.
  { unfold withdrawal_penalty, bps_of. fold bps. rewrite Z.min_l by lia.
    destruct (Z.ltb_spec 0 bps); destruct (Z.eqb_spec bps 0); try lia. done. }
  rewrite <- Hpen.
  destruct ((store e).(Investments) !! (id, who)) as [inv|]; simpl; [|naive_solver].
  destruct ((_ <? a) || (a =? 0)) eqn:Hg.
  - split; [done|]. intros (i & [= <-] & Hne & Hle & _).
    apply orb_true_iff in Hg as [Hg|Hg]; bool_facts; lia.
  - bool_facts. split; [intros [= <-]; eauto|]. by intros (i & _ & _ & _ & ->).
Qed.
End theorems.
