(* ===== verification/Rwa.v ===== *)
(** * pallet-rwa: data and operations

    The storage items, dispatchables, hooks and helpers of
    src/thxnet/leafchain/pallets/rwa/src/{types,lib}.rs, one definition each,
    in the monad of the prelude.  The hooks [ParticipationFilter] and
    [AssetLifecycleGuard] are classes over the surroundings; Runtime.v has the
    instances of the runtime. *)

From S2P Require Import Prelude Arith Errors Frame.
Import RwaErrors.

(** ** Data *)

Inductive PaymentCurrency :=
| Native
| Asset (asset_id : Z).

#[global] Instance PaymentCurrency_eq_dec : EqDecision PaymentCurrency.
Proof. solve_decision. Defined.

Inductive AssetStatus :=
| Active
| Inactive
| Sunsetting (expiry_block : BlockNumber)
| Retired
| Paused.

#[global] Instance AssetStatus_eq_dec : EqDecision AssetStatus.
Proof. solve_decision. Defined.

Record AssetPolicy := mkAssetPolicy {
  deposit_currency : PaymentCurrency;
  entry_fee : Balance;
  deposit : Balance;
  max_duration : option BlockNumber;
  max_participants : option Z;
  requires_approval : bool;
}.

Record AssetInfo := mkAssetInfo {
  owner : AccountId;
  beneficiary : AccountId;
  status : AssetStatus;
  policy : AssetPolicy;
  metadata : list Z;
  participant_count : Z;
  registration_deposit : Balance;
  created_at : BlockNumber;
}.

Definition set_owner v a :=
  mkAssetInfo v a.(beneficiary) a.(status) a.(policy) a.(metadata) a.(participant_count)
    a.(registration_deposit) a.(created_at).
Definition set_beneficiary v a :=
  mkAssetInfo a.(owner) v a.(status) a.(policy) a.(metadata) a.(participant_count)
    a.(registration_deposit) a.(created_at).
Definition set_status v a :=
  mkAssetInfo a.(owner) a.(beneficiary) v a.(policy) a.(metadata) a.(participant_count)
    a.(registration_deposit) a.(created_at).
Definition set_policy v a :=
  mkAssetInfo a.(owner) a.(beneficiary) a.(status) v a.(metadata) a.(participant_count)
    a.(registration_deposit) a.(created_at).
Definition set_metadata v a :=
  mkAssetInfo a.(owner) a.(beneficiary) a.(status) a.(policy) v a.(participant_count)
    a.(registration_deposit) a.(created_at).
Definition set_participant_count v a :=
  mkAssetInfo a.(owner) a.(beneficiary) a.(status) a.(policy) a.(metadata) v
    a.(registration_deposit) a.(created_at).

(** [ActiveSince] is the source's [Active { started_at, expires_at }]. *)
Inductive ParticipationStatus :=
| PendingApproval
| ActiveSince (started_at : BlockNumber) (expires_at : option BlockNumber)
| Expired
| Exited
| Slashed
| Revoked.

#[global] Instance ParticipationStatus_eq_dec : EqDecision ParticipationStatus.
Proof. solve_decision. Defined.

Record Participation := mkParticipation {
  rwa_asset_id : Z;
  payer : AccountId;
  holders : list AccountId;
  pstatus : ParticipationStatus;
  deposit_held : Balance;
  entry_fee_paid : Balance;
}.

Definition set_payer v p :=
  mkParticipation p.(rwa_asset_id) v p.(holders) p.(pstatus) p.(deposit_held) p.(entry_fee_paid).
Definition set_holders v p :=
  mkParticipation p.(rwa_asset_id) p.(payer) v p.(pstatus) p.(deposit_held) p.(entry_fee_paid).
Definition set_pstatus v p :=
  mkParticipation p.(rwa_asset_id) p.(payer) p.(holders) v p.(deposit_held) p.(entry_fee_paid).
Definition set_deposit_held v p :=
  mkParticipation p.(rwa_asset_id) p.(payer) p.(holders) p.(pstatus) v p.(entry_fee_paid).

(** [p.status = st; p.deposit_held = Zero::zero();] *)
Definition close st p := set_deposit_held 0 (set_pstatus st p).

Definition is_active_p (st : ParticipationStatus) : bool :=
  match st with ActiveSince _ _ => true | _ => false end.
Definition is_live (st : ParticipationStatus) : bool :=
  match st with ActiveSince _ _ | PendingApproval => true | _ => false end.

Inductive SlashRecipientKind :=
| Beneficiary
| Reporter
| ToAccount (who : AccountId)
| Burn.

(** [share] is a [Permill], in parts per million. *)
Record SlashRecipient := mkSlashRecipient {
  kind : SlashRecipientKind;
  share : Z;
}.

Inductive CanParticipateError :=
| CPAssetNotFound
| CPAssetNotActive
| CPMaxParticipantsReached
| CPAlreadyParticipating
| CPNotEligible.

(** ** Storage *)

Record State := mkState {
  RwaAssets : gmap Z AssetInfo;
  NextRwaAssetId : Z;
  Participations : gmap (Z * Z) Participation;
  NextParticipationId : gmap Z Z;
  HolderIndex : gmap (Z * AccountId) Z;
  PendingApprovals : gmap Z (list Z);
  AssetSlashDistribution : gmap Z (list SlashRecipient);
  SunsettingAssets : gmap BlockNumber (list Z);
  OwnerAssets : gmap AccountId (list Z);
  HolderAssets : gmap AccountId (list Z);
  PendingOwnershipTransfer : gmap Z AccountId;
}.

(** Writes of one storage item. *)
Definition put_RwaAssets v s :=
  mkState v s.(NextRwaAssetId) s.(Participations) s.(NextParticipationId) s.(HolderIndex)
    s.(PendingApprovals) s.(AssetSlashDistribution) s.(SunsettingAssets) s.(OwnerAssets)
    s.(HolderAssets) s.(PendingOwnershipTransfer).
Definition put_NextRwaAssetId v s :=
  mkState s.(RwaAssets) v s.(Participations) s.(NextParticipationId) s.(HolderIndex)
    s.(PendingApprovals) s.(AssetSlashDistribution) s.(SunsettingAssets) s.(OwnerAssets)
    s.(HolderAssets) s.(PendingOwnershipTransfer).
Definition put_Participations v s :=
  mkState s.(RwaAssets) s.(NextRwaAssetId) v s.(NextParticipationId) s.(HolderIndex)
    s.(PendingApprovals) s.(AssetSlashDistribution) s.(SunsettingAssets) s.(OwnerAssets)
    s.(HolderAssets) s.(PendingOwnershipTransfer).
Definition put_NextParticipationId v s :=
  mkState s.(RwaAssets) s.(NextRwaAssetId) s.(Participations) v s.(HolderIndex)
    s.(PendingApprovals) s.(AssetSlashDistribution) s.(SunsettingAssets) s.(OwnerAssets)
    s.(HolderAssets) s.(PendingOwnershipTransfer).
Definition put_HolderIndex v s :=
  mkState s.(RwaAssets) s.(NextRwaAssetId) s.(Participations) s.(NextParticipationId) v
    s.(PendingApprovals) s.(AssetSlashDistribution) s.(SunsettingAssets) s.(OwnerAssets)
    s.(HolderAssets) s.(PendingOwnershipTransfer).
Definition put_PendingApprovals v s :=
  mkState s.(RwaAssets) s.(NextRwaAssetId) s.(Participations) s.(NextParticipationId)
    s.(HolderIndex) v s.(AssetSlashDistribution) s.(SunsettingAssets) s.(OwnerAssets)
    s.(HolderAssets) s.(PendingOwnershipTransfer).
Definition put_AssetSlashDistribution v s :=
  mkState s.(RwaAssets) s.(NextRwaAssetId) s.(Participations) s.(NextParticipationId)
    s.(HolderIndex) s.(PendingApprovals) v s.(SunsettingAssets) s.(OwnerAssets)
    s.(HolderAssets) s.(PendingOwnershipTransfer).
Definition put_SunsettingAssets v s :=
  mkState s.(RwaAssets) s.(NextRwaAssetId) s.(Participations) s.(NextParticipationId)
    s.(HolderIndex) s.(PendingApprovals) s.(AssetSlashDistribution) v s.(OwnerAssets)
    s.(HolderAssets) s.(PendingOwnershipTransfer).
Definition put_OwnerAssets v s :=
  mkState s.(RwaAssets) s.(NextRwaAssetId) s.(Participations) s.(NextParticipationId)
    s.(HolderIndex) s.(PendingApprovals) s.(AssetSlashDistribution) s.(SunsettingAssets) v
    s.(HolderAssets) s.(PendingOwnershipTransfer).
Definition put_HolderAssets v s :=
  mkState s.(RwaAssets) s.(NextRwaAssetId) s.(Participations) s.(NextParticipationId)
    s.(HolderIndex) s.(PendingApprovals) s.(AssetSlashDistribution) s.(SunsettingAssets)
    s.(OwnerAssets) v s.(PendingOwnershipTransfer).
Definition put_PendingOwnershipTransfer v s :=
  mkState s.(RwaAssets) s.(NextRwaAssetId) s.(Participations) s.(NextParticipationId)
    s.(HolderIndex) s.(PendingApprovals) s.(AssetSlashDistribution) s.(SunsettingAssets)
    s.(OwnerAssets) s.(HolderAssets) v.

(** [ValueQuery] items read their default when absent. *)
Definition next_participation_id (id : Z) (s : State) : Z :=
  default 0 (s.(NextParticipationId) !! id).
Definition pending_approvals (id : Z) (s : State) : list Z :=
  default [] (s.(PendingApprovals) !! id).
Definition sunsetting_assets (b : BlockNumber) (s : State) : list Z :=
  default [] (s.(SunsettingAssets) !! b).
Definition owner_assets (who : AccountId) (s : State) : list Z :=
  default [] (s.(OwnerAssets) !! who).
Definition holder_assets (who : AccountId) (s : State) : list Z :=
  default [] (s.(HolderAssets) !! who).

Definition insert_asset (id : Z) (a : AssetInfo) (s : State) : State :=
  put_RwaAssets (<[id := a]> s.(RwaAssets)) s.
Definition insert_participation (id pid : Z) (p : Participation) (s : State) : State :=
  put_Participations (<[(id, pid) := p]> s.(Participations)) s.

(** [RwaAssets::mutate(id, |maybe| if let Some(a) = maybe { f(a) })] *)
Definition mutate_asset (id : Z) (f : AssetInfo → AssetInfo) (s : State) : State :=
  put_RwaAssets (alter f id s.(RwaAssets)) s.

Inductive Event :=
| AssetRegistered (asset_id : Z) (owner beneficiary : AccountId)
| AssetPolicyUpdated (asset_id : Z)
| AssetDeactivated (asset_id : Z)
| AssetReactivated (asset_id : Z)
| AssetSunsetting (asset_id : Z) (expiry_block : BlockNumber)
| AssetRetired (asset_id : Z) (deposit_returned : Balance)
| ParticipationRequested (asset_id participation_id : Z) (payer : AccountId) (holders : list AccountId)
| ParticipationApproved (asset_id participation_id : Z)
| ParticipationRejected (asset_id participation_id : Z) (deposit_refunded fee_refunded : Balance)
| ParticipationExited (asset_id participation_id : Z) (deposit_refunded : Balance)
| ParticipationExpired (asset_id participation_id : Z) (deposit_refunded : Balance)
| ParticipationRenewed (asset_id participation_id : Z) (new_expires_at : option BlockNumber)
| ParticipationSlashed (asset_id participation_id : Z) (amount : Balance) (reporter : option AccountId)
| ParticipationRevoked (asset_id participation_id : Z) (deposit_refunded : Balance)
| HolderAdded (asset_id participation_id : Z) (holder : AccountId)
| HolderRemoved (asset_id participation_id : Z) (holder : AccountId)
| HolderLeft (asset_id participation_id : Z) (holder : AccountId)
| SlashDistributionSet (asset_id recipient_count : Z)
| OwnershipTransferProposed (asset_id : Z) (from to : AccountId)
| OwnershipTransferred (asset_id : Z) (old_owner new_owner : AccountId)
| OwnershipTransferCancelled (asset_id : Z)
| BeneficiaryUpdated (asset_id : Z) (old_beneficiary new_beneficiary : AccountId)
| MetadataUpdated (asset_id : Z)
| ParticipationTransferred (asset_id participation_id : Z) (old_payer new_payer : AccountId)
| AssetPaused (asset_id : Z)
| AssetUnpaused (asset_id : Z)
| BatchPendingRejected (asset_id count : Z).

(** ** Configuration and the other pallets *)

Class Config := {
  AdminOrigin : Origin → bool;
  ForceOrigin : Origin → bool;
  PalletId : list Z;
  AssetRegistrationDeposit : Balance;
  MaxAssetsPerOwner : Z;
  MaxMetadataLen : Z;
  MaxSlashRecipients : Z;
  MaxGroupSize : Z;
  MaxPendingApprovals : Z;
  MaxSunsettingPerBlock : Z;
  MaxParticipationsPerHolder : Z;
  MinParticipationDeposit : Balance;
}.

Class ParticipationFilter (W : Type) := {
  ensure_eligible : Z → AccountId → W → result DispatchError unit;
}.

Class AssetLifecycleGuard (W : Type) := {
  can_retire_asset : Z → W → result DispatchError unit;
  can_slash_participation : Z → Z → W → result DispatchError unit;
}.

(** ** The calls of the pallet *)

Inductive Call :=
| Register_asset (beneficiary : AccountId) (policy : AssetPolicy) (metadata : list Z)
| Update_asset_policy (id : Z) (new_policy : AssetPolicy)
| Deactivate_asset (id : Z)
| Reactivate_asset (id : Z)
| Sunset_asset (id : Z) (expiry_block : BlockNumber)
| Force_retire_asset (id : Z)
| Retire_asset (id : Z)
| Request_participation (id : Z) (holders : list AccountId)
| Approve_participation (id pid : Z)
| Reject_participation (id pid : Z)
| Exit_participation (id pid : Z)
| Renew_participation (id pid : Z)
| Settle_expired_participation (id pid : Z)
| Claim_retired_deposit (id pid : Z)
| Add_holder (id pid : Z) (new_holder : AccountId)
| Remove_holder (id pid : Z) (holder : AccountId)
| Leave_participation (id pid : Z)
| Set_slash_distribution (id : Z) (distribution : list SlashRecipient)
| Slash_participation (id pid : Z) (amount : Balance) (reporter : option AccountId)
| Revoke_participation (id pid : Z)
| Transfer_ownership (id : Z) (new_owner : AccountId)
| Accept_ownership (id : Z)
| Cancel_ownership_transfer (id : Z)
| Update_beneficiary (id : Z) (new_beneficiary : AccountId)
| Update_metadata (id : Z) (new_metadata : list Z)
| Transfer_participation (id pid : Z) (new_payer : AccountId)
| Pause_asset (id : Z)
| Unpause_asset (id : Z)
| Batch_reject_pending (id : Z).

Definition err (e : RwaError) : DispatchError := Module_ (InRwa e).

Abbreviation CEnv W := (Env State W Event).

Section pallet.
Context {W : Type} `{!System W, !Currency W, !ReservableCurrency W, !Fungibles W}
  `{!ParticipationFilter W, !AssetLifecycleGuard W} {T : Config}.

Abbreviation C A := (M DispatchError (CEnv W) A).

(** ** Helpers *)

Definition pallet_account : AccountId := into_account_truncating PalletId.

Definition do_transfer (currency : PaymentCurrency) (from to : AccountId) (amount : Balance)
    : C unit :=
  if amount =? 0 then mret tt
  else
    match currency with
    | Native => calls (transfer from to amount KeepAlive)
    | Asset asset_id => calls (asset_transfer asset_id from to amount Preserve) ;; mret tt
    end.

Definition do_burn (currency : PaymentCurrency) (who : AccountId) (amount : Balance) : C unit :=
  if amount =? 0 then mret tt
  else
    match currency with
    | Native => calls (withdraw who amount KeepAlive)
    | Asset asset_id => calls (asset_burn_from asset_id who amount) ;; mret tt
    end.

Definition do_unreserve (who : AccountId) (value : Balance) : C Balance :=
  calls (λ w, Ok (unreserve who value w)).

Definition remove_from_owner_assets (owner : AccountId) (asset_id : Z) (s : State) : State :=
  put_OwnerAssets (<[owner := remove_first asset_id (owner_assets owner s)]> s.(OwnerAssets)) s.

Definition push_holder_asset (holder : AccountId) (asset_id : Z) (s : State) : State :=
  let assets := holder_assets holder s in
  put_HolderAssets
    (<[holder := if contains assets asset_id then assets
                 else push_or_skip MaxParticipationsPerHolder assets asset_id]>
       s.(HolderAssets)) s.

Definition remove_single_holder_index (asset_id : Z) (holder : AccountId) (s : State) : State :=
  put_HolderAssets
    (<[holder := remove_first asset_id (holder_assets holder s)]> s.(HolderAssets))
    (put_HolderIndex (delete (asset_id, holder) s.(HolderIndex)) s).

Definition remove_all_holder_indexes (asset_id : Z) (holders : list AccountId) (s : State) : State :=
  foldl (λ s h, remove_single_holder_index asset_id h s) s holders.

(** The loop that indexes the holders of a participation. *)
Definition add_holder_indexes (asset_id pid : Z) (holders : list AccountId) (s : State) : State :=
  foldl (λ s h, push_holder_asset h asset_id
                  (put_HolderIndex (<[(asset_id, h) := pid]> s.(HolderIndex)) s)) s holders.

Definition dec_participant_count (asset_id : Z) : State → State :=
  mutate_asset asset_id (λ a, set_participant_count (saturating_sub a.(participant_count) 1) a).

Definition inc_participant_count (asset_id : Z) : State → State :=
  mutate_asset asset_id (λ a,
    set_participant_count (saturating_add U32_MAX a.(participant_count) 1) a).

Definition remove_pending (asset_id pid : Z) (s : State) : State :=
  put_PendingApprovals
    (<[asset_id := remove_first pid (pending_approvals asset_id s)]> s.(PendingApprovals)) s.

Definition get_asset (id : Z) : C AssetInfo :=
  a ← reads (λ s, s.(RwaAssets) !! id);
  ok_or a (err AssetNotFound).

Definition get_participation (id pid : Z) : C Participation :=
  p ← reads (λ s, s.(Participations) !! (id, pid));
  ok_or p (err ParticipationNotFound).

Definition ensure_asset_owner_or_admin (origin : Origin) (id : Z) : C unit :=
  if AdminOrigin origin then
    a ← reads (λ s, s.(RwaAssets) !! id);
    ensure (bool_decide (a ≠ None)) (err AssetNotFound)
  else
    who ← ensure_signed origin;
    asset ← get_asset id;
    ensure (asset.(owner) =? who) (err NotAssetOwner).

(** [asset.policy.max_duration.map(|d| now.saturating_add(d))] *)
Definition expiry_from (now : BlockNumber) (policy : AssetPolicy) : option BlockNumber :=
  (λ d, saturating_add U32_MAX now d) <$> policy.(max_duration).

(** The [Active] participation [p] is past its expiry at block [now]. *)
Definition lapsed (p : Participation) (now : BlockNumber) : bool :=
  match p.(pstatus) with
  | ActiveSince _ (Some expiry) => expiry <=? now
  | _ => false
  end.

(** Whether [p] was settled, and [p] after it. *)
Definition try_settle_expiry_inner (id pid : Z) (p : Participation) (asset : AssetInfo)
    : C (bool * Participation) :=
  now ← asks block_number;
  if lapsed p now then
    let deposit := p.(deposit_held) in
    do_transfer asset.(policy).(deposit_currency) pallet_account p.(payer) deposit ;;
    let p := close Expired p in
    writes (remove_all_holder_indexes id p.(holders)) ;;
    writes (dec_participant_count id) ;;
    deposit_event (ParticipationExpired id pid deposit) ;;
    mret (true, p)
  else mret (false, p).

Definition try_settle_expiry (id pid : Z) (p : Participation) (asset : AssetInfo)
    : C (bool * Participation) :=
  r ← try_settle_expiry_inner id pid p asset;
  when r.1 (writes (insert_participation id pid r.2)) ;;
  mret r.

Definition slash_dest (beneficiary : AccountId) (reporter : option AccountId)
    (k : SlashRecipientKind) : option AccountId :=
  match k with
  | Beneficiary => Some beneficiary
  | Reporter => Some (default beneficiary reporter)
  | ToAccount acct => Some acct
  | Burn => None
  end.

(** The loop of [do_distribute_slash]; the last recipient gets the rest. *)
Fixpoint distribute_shares (currency : PaymentCurrency) (total_amount : Balance)
    (beneficiary : AccountId) (reporter : option AccountId)
    (dist : list SlashRecipient) (distributed : Balance) : C unit :=
  match dist with
  | [] => mret tt
  | recipient :: dist' =>
      let share_amount :=
        match dist' with
        | [] => saturating_sub total_amount distributed
        | _ => permill_mul recipient.(share) total_amount
        end in
      if share_amount =? 0
      then distribute_shares currency total_amount beneficiary reporter dist' distributed
      else
        match slash_dest beneficiary reporter recipient.(kind) with
        | Some dest => do_transfer currency pallet_account dest share_amount
        | None => do_burn currency pallet_account share_amount
        end ;;
        distribute_shares currency total_amount beneficiary reporter dist'
          (saturating_add U128_MAX distributed share_amount)
  end.

Definition do_distribute_slash (currency : PaymentCurrency) (total_amount : Balance) (id : Z)
    (beneficiary : AccountId) (reporter : option AccountId) : C unit :=
  distribution ← reads (λ s, s.(AssetSlashDistribution) !! id);
  match distribution with
  | Some ((_ :: _) as dist) =>
      distribute_shares currency total_amount beneficiary reporter dist 0
  | _ => do_transfer currency pallet_account beneficiary total_amount
  end.

(** ** Asset management *)

(** The storage left behind when an asset is retired: the owner's list, the
    proposed transfer, the slash distribution and the approval queue go. *)
Definition clear_asset (owner : AccountId) (id : Z) (s : State) : State :=
  let s := remove_from_owner_assets owner id s in
  let s := put_PendingOwnershipTransfer (delete id s.(PendingOwnershipTransfer)) s in
  let s := put_AssetSlashDistribution (delete id s.(AssetSlashDistribution)) s in
  put_PendingApprovals (delete id s.(PendingApprovals)) s.

Definition remove_sunsetting (b : BlockNumber) (id : Z) (s : State) : State :=
  put_SunsettingAssets (<[b := remove_first id (sunsetting_assets b s)]> s.(SunsettingAssets)) s.

Definition on_initialize (n : BlockNumber) : C unit :=
  asset_ids ← reads (sunsetting_assets n);
  writes (λ s, put_SunsettingAssets (delete n s.(SunsettingAssets)) s) ;;
  for_each asset_ids (λ asset_id,
    maybe ← reads (λ s, s.(RwaAssets) !! asset_id);
    match maybe with
    | Some asset =>
        if bool_decide (asset.(status) = Retired) then mret tt
        else
          let deposit := asset.(registration_deposit) in
          do_unreserve asset.(owner) deposit ;;
          writes (insert_asset asset_id (set_status Retired asset)) ;;
          writes (clear_asset asset.(owner) asset_id) ;;
          deposit_event (AssetRetired asset_id deposit)
    | None => mret tt
    end).

Definition register_asset (origin : Origin) (beneficiary : AccountId) (policy : AssetPolicy)
    (metadata : list Z) : C unit :=
  owner ← ensure_signed origin;
  ensure (Z.of_nat (length metadata) <=? MaxMetadataLen) (err MetadataTooLong) ;;
  owned ← reads (owner_assets owner);
  ensure (Z.of_nat (length owned) <? MaxAssetsPerOwner) (err MaxAssetsPerOwnerReached) ;;
  ensure (MinParticipationDeposit <=? policy.(deposit)) (err DepositBelowMinimum) ;;
  calls (reserve owner AssetRegistrationDeposit) ;;
  asset_id ← reads NextRwaAssetId;
  next_id ← ok_or (checked_add U32_MAX asset_id 1) (err AssetIdOverflow);
  writes (put_NextRwaAssetId next_id) ;;
  now ← asks block_number;
  writes (insert_asset asset_id
    (mkAssetInfo owner beneficiary Active policy metadata 0 AssetRegistrationDeposit now)) ;;
  writes (λ s, put_OwnerAssets
    (<[owner := push_or_skip MaxAssetsPerOwner (owner_assets owner s) asset_id]>
       s.(OwnerAssets)) s) ;;
  deposit_event (AssetRegistered asset_id owner beneficiary).

(** The fields of a policy that cannot change while there are participants. *)
Definition policy_change_allowed (old new : AssetPolicy) : bool :=
  (old.(entry_fee) =? new.(entry_fee)) &&
  match old.(max_duration), new.(max_duration) with
  | Some o, Some n => o <=? n
  | None, Some _ => false
  | _, None => true
  end.

Definition update_asset_policy (origin : Origin) (id : Z) (new_policy : AssetPolicy) : C unit :=
  who ← ensure_signed origin;
  asset ← get_asset id;
  ensure (asset.(owner) =? who) (err NotAssetOwner) ;;
  ensure (bool_decide (asset.(status) = Active)) (err InvalidAssetStatus) ;;
  ensure (bool_decide (asset.(policy).(deposit_currency) = new_policy.(deposit_currency)))
    (err PolicyFieldImmutable) ;;
  ensure (asset.(policy).(deposit) =? new_policy.(deposit)) (err PolicyFieldImmutable) ;;
  ensure_some new_policy.(max_participants) (λ max, asset.(participant_count) <=? max)
    (err MaxParticipantsBelowCurrent) ;;
  when (0 <? asset.(participant_count))
    (ensure (policy_change_allowed asset.(policy) new_policy) (err PolicyFieldImmutable)) ;;
  writes (insert_asset id (set_policy new_policy asset)) ;;
  deposit_event (AssetPolicyUpdated id).

Definition deactivate_asset (origin : Origin) (id : Z) : C unit :=
  who ← ensure_signed origin;
  asset ← get_asset id;
  ensure (asset.(owner) =? who) (err NotAssetOwner) ;;
  ensure (bool_decide (asset.(status) = Active)) (err InvalidAssetStatus) ;;
  writes (insert_asset id (set_status Inactive asset)) ;;
  deposit_event (AssetDeactivated id).

Definition reactivate_asset (origin : Origin) (id : Z) : C unit :=
  who ← ensure_signed origin;
  asset ← get_asset id;
  ensure (asset.(owner) =? who) (err NotAssetOwner) ;;
  ensure (bool_decide (asset.(status) = Inactive)) (err InvalidAssetStatus) ;;
  writes (insert_asset id (set_status Active asset)) ;;
  deposit_event (AssetReactivated id).

Definition sunset_asset (origin : Origin) (id : Z) (expiry_block : BlockNumber) : C unit :=
  who ← ensure_signed origin;
  now ← asks block_number;
  ensure (now <? expiry_block) (err ExpiryBlockInPast) ;;
  scheduled ← reads (sunsetting_assets expiry_block);
  ensure (Z.of_nat (length scheduled) <? MaxSunsettingPerBlock) (err SunsettingSlotsFull) ;;
  asset ← get_asset id;
  ensure (asset.(owner) =? who) (err NotAssetOwner) ;;
  ensure (bool_decide (asset.(status) ∈ [Active; Inactive])) (err InvalidAssetStatus) ;;
  writes (insert_asset id (set_status (Sunsetting expiry_block) asset)) ;;
  writes (λ s, put_SunsettingAssets
    (<[expiry_block := push_or_skip MaxSunsettingPerBlock (sunsetting_assets expiry_block s) id]>
       s.(SunsettingAssets)) s) ;;
  deposit_event (AssetSunsetting id expiry_block).

Definition force_retire_asset (origin : Origin) (id : Z) : C unit :=
  ensure_origin ForceOrigin origin ;;
  asset ← get_asset id;
  ensure (negb (bool_decide (asset.(status) = Retired))) (err AssetAlreadyRetired) ;;
  guard ← asks (can_retire_asset id);
  of_result (map_err (λ _, err BlockedByLifecycleGuard) guard) ;;
  match asset.(status) with
  | Sunsetting expiry_block => writes (remove_sunsetting expiry_block id)
  | _ => mret tt
  end ;;
  let deposit := asset.(registration_deposit) in
  do_unreserve asset.(owner) deposit ;;
  writes (clear_asset asset.(owner) id) ;;
  writes (mutate_asset id (set_status Retired)) ;;
  deposit_event (AssetRetired id deposit).

Definition retire_asset (origin : Origin) (id : Z) : C unit :=
  ensure_signed origin ;;
  asset ← get_asset id;
  expiry ← match asset.(status) with
           | Sunsetting expiry_block => mret expiry_block
           | _ => fail (err InvalidAssetStatus)
           end;
  now ← asks block_number;
  ensure (expiry <=? now) (err ExpiryNotReached) ;;
  let deposit := asset.(registration_deposit) in
  do_unreserve asset.(owner) deposit ;;
  writes (remove_sunsetting expiry id) ;;
  writes (clear_asset asset.(owner) id) ;;
  writes (mutate_asset id (set_status Retired)) ;;
  deposit_event (AssetRetired id deposit).

(** ** Participation *)

(** The per-holder checks of [request_participation]. *)
Definition ensure_can_hold (id : Z) (h : AccountId) : C unit :=
  idx ← reads (λ s, s.(HolderIndex) !! (id, h));
  ensure (bool_decide (idx = None)) (err AlreadyParticipating) ;;
  h_assets ← reads (holder_assets h);
  ensure (Z.of_nat (length h_assets) <? MaxParticipationsPerHolder)
    (err MaxParticipationsPerHolderReached).

Definition ensure_filter (id : Z) (h : AccountId) : C unit :=
  r ← asks (ensure_eligible id h);
  of_result (map_err (λ _, err ParticipantNotEligible) r).

Definition request_participation (origin : Origin) (id : Z) (holders : list AccountId) : C unit :=
  payer ← ensure_signed origin;
  asset ← get_asset id;
  ensure (bool_decide (asset.(status) = Active)) (err AssetNotActive) ;;
  ensure (negb (bool_decide (holders = []))) (err EmptyHoldersList) ;;
  ensure (Z.of_nat (length holders) <=? MaxGroupSize) (err MaxGroupSizeReached) ;;
  ensure (bool_decide (length (dedup (merge_sort Z.le holders)) = length holders))
    (err HolderAlreadyExists) ;;
  ensure_some asset.(policy).(max_participants)
    (λ max, saturating_add U32_MAX asset.(participant_count) 1 <=? max)
    (err MaxParticipantsReached) ;;
  for_each holders (ensure_can_hold id) ;;
  for_each holders (ensure_filter id) ;;
  pending ← reads (pending_approvals id);
  when asset.(policy).(requires_approval)
    (ensure (Z.of_nat (length pending) <? MaxPendingApprovals) (err PendingApprovalsFull)) ;;
  let deposit_amount := asset.(policy).(deposit) in
  let fee_amount := asset.(policy).(entry_fee) in
  let currency := asset.(policy).(deposit_currency) in
  (if asset.(policy).(requires_approval) then
     do_transfer currency payer pallet_account (saturating_add U128_MAX deposit_amount fee_amount)
   else
     do_transfer currency payer pallet_account deposit_amount ;;
     when (negb (fee_amount =? 0)) (do_transfer currency payer asset.(beneficiary) fee_amount)) ;;
  pid ← reads (next_participation_id id);
  next_pid ← ok_or (checked_add U32_MAX pid 1) (err ParticipationIdOverflow);
  writes (λ s, put_NextParticipationId (<[id := next_pid]> s.(NextParticipationId)) s) ;;
  now ← asks block_number;
  let status :=
    if asset.(policy).(requires_approval) then PendingApproval
    else ActiveSince now (expiry_from now asset.(policy)) in
  writes (insert_participation id pid
    (mkParticipation id payer holders status deposit_amount fee_amount)) ;;
  writes (add_holder_indexes id pid holders) ;;
  writes (inc_participant_count id) ;;
  when asset.(policy).(requires_approval)
    (writes (λ s, put_PendingApprovals
       (<[id := push_or_skip MaxPendingApprovals (pending_approvals id s) pid]>
          s.(PendingApprovals)) s)) ;;
  deposit_event (ParticipationRequested id pid payer holders) ;;
  when (negb asset.(policy).(requires_approval)) (deposit_event (ParticipationApproved id pid)).

Definition approve_participation (origin : Origin) (id pid : Z) : C unit :=
  ensure_asset_owner_or_admin origin id ;;
  asset ← get_asset id;
  ensure (bool_decide (asset.(status) = Active)) (err AssetNotActive) ;;
  p ← get_participation id pid;
  ensure (bool_decide (p.(pstatus) = PendingApproval)) (err InvalidParticipationStatus) ;;
  let fee := p.(entry_fee_paid) in
  when (negb (fee =? 0))
    (do_transfer asset.(policy).(deposit_currency) pallet_account asset.(beneficiary) fee) ;;
  now ← asks block_number;
  writes (insert_participation id pid
    (set_pstatus (ActiveSince now (expiry_from now asset.(policy))) p)) ;;
  writes (remove_pending id pid) ;;
  deposit_event (ParticipationApproved id pid).

Definition reject_participation (origin : Origin) (id pid : Z) : C unit :=
  ensure_asset_owner_or_admin origin id ;;
  p ← get_participation id pid;
  ensure (bool_decide (p.(pstatus) = PendingApproval)) (err InvalidParticipationStatus) ;;
  asset ← get_asset id;
  let total := saturating_add U128_MAX p.(deposit_held) p.(entry_fee_paid) in
  do_transfer asset.(policy).(deposit_currency) pallet_account p.(payer) total ;;
  writes (remove_all_holder_indexes id p.(holders)) ;;
  writes (λ s, put_Participations (delete (id, pid) s.(Participations)) s) ;;
  writes (dec_participant_count id) ;;
  writes (remove_pending id pid) ;;
  deposit_event (ParticipationRejected id pid p.(deposit_held) p.(entry_fee_paid)).

(** The end of a participation: the status is written, the indexes go. *)
Definition end_participation (st : ParticipationStatus) (id pid : Z) (p : Participation)
    (s : State) : State :=
  dec_participant_count id
    (remove_all_holder_indexes id p.(holders) (insert_participation id pid (close st p) s)).

Definition exit_participation (origin : Origin) (id pid : Z) : C unit :=
  who ← ensure_signed origin;
  p ← get_participation id pid;
  ensure (p.(payer) =? who) (err NotPayer) ;;
  asset ← get_asset id;
  r ← try_settle_expiry id pid p asset;
  if (r.1 : bool) then mret tt
  else
    let p := r.2 in
    ensure (is_active_p p.(pstatus)) (err InvalidParticipationStatus) ;;
    let deposit := p.(deposit_held) in
    do_transfer asset.(policy).(deposit_currency) pallet_account p.(payer) deposit ;;
    writes (end_participation Exited id pid p) ;;
    deposit_event (ParticipationExited id pid deposit).

(** Phase 2 of [renew_participation] on a settled participation: the deposit
    is collected again and the indexes come back. *)
Definition reenter (who : AccountId) (id pid : Z) (asset : AssetInfo) (p : Participation)
    : C Participation :=
  let deposit_amount := asset.(policy).(deposit) in
  do_transfer asset.(policy).(deposit_currency) who pallet_account deposit_amount ;;
  for_each p.(holders) (λ h,
    idx ← reads (λ s, s.(HolderIndex) !! (id, h));
    ensure (bool_decide (idx = None)) (err AlreadyParticipating)) ;;
  for_each p.(holders) (λ h,
    h_assets ← reads (holder_assets h);
    ensure (Z.of_nat (length h_assets) <? MaxParticipationsPerHolder)
      (err MaxParticipationsPerHolderReached)) ;;
  writes (add_holder_indexes id pid p.(holders)) ;;
  writes (inc_participant_count id) ;;
  mret (set_deposit_held deposit_amount p).

Definition renew_participation (origin : Origin) (id pid : Z) : C unit :=
  who ← ensure_signed origin;
  asset ← get_asset id;
  ensure (bool_decide (asset.(status) = Active)) (err AssetNotActive) ;;
  p ← get_participation id pid;
  ensure (p.(payer) =? who) (err NotPayer) ;;
  try_settle_expiry id pid p asset ;;
  p ← get_participation id pid;
  ensure (p.(payer) =? who) (err NotPayer) ;;
  p ← match p.(pstatus) with
      | ActiveSince _ _ => mret p
      | Expired => reenter who id pid asset p
      | _ => fail (err InvalidParticipationStatus)
      end;
  for_each p.(holders) (ensure_filter id) ;;
  let fee := asset.(policy).(entry_fee) in
  when (negb (fee =? 0))
    (do_transfer asset.(policy).(deposit_currency) who asset.(beneficiary) fee) ;;
  now ← asks block_number;
  let new_expires_at := expiry_from now asset.(policy) in
  writes (insert_participation id pid (set_pstatus (ActiveSince now new_expires_at) p)) ;;
  deposit_event (ParticipationRenewed id pid new_expires_at).

Definition settle_expired_participation (origin : Origin) (id pid : Z) : C unit :=
  ensure_signed origin ;;
  asset ← get_asset id;
  p ← get_participation id pid;
  r ← try_settle_expiry id pid p asset;
  ensure r.1 (err InvalidParticipationStatus).

Definition claim_retired_deposit (origin : Origin) (id pid : Z) : C unit :=
  ensure_signed origin ;;
  asset ← get_asset id;
  ensure (bool_decide (asset.(status) = Retired)) (err InvalidAssetStatus) ;;
  p ← get_participation id pid;
  ensure (is_live p.(pstatus)) (err InvalidParticipationStatus) ;;
  let deposit := p.(deposit_held) in
  let fee_refund := if bool_decide (p.(pstatus) = PendingApproval) then p.(entry_fee_paid) else 0 in
  let total := saturating_add U128_MAX deposit fee_refund in
  do_transfer asset.(policy).(deposit_currency) pallet_account p.(payer) total ;;
  writes (end_participation Exited id pid p) ;;
  deposit_event (ParticipationExited id pid total).

(** ** Group management *)

Definition add_holder (origin : Origin) (id pid : Z) (new_holder : AccountId) : C unit :=
  who ← ensure_signed origin;
  asset ← get_asset id;
  p ← get_participation id pid;
  ensure (p.(payer) =? who) (err NotPayer) ;;
  r ← try_settle_expiry_inner id pid p asset;
  ensure (negb r.1) (err ParticipationExpiredError) ;;
  let p := r.2 in
  ensure (is_active_p p.(pstatus)) (err InvalidParticipationStatus) ;;
  ensure (negb (contains p.(holders) new_holder)) (err HolderAlreadyExists) ;;
  ensure_can_hold id new_holder ;;
  ensure_filter id new_holder ;;
  hs ← ok_or (try_push MaxGroupSize p.(holders) new_holder) (err MaxGroupSizeReached);
  writes (add_holder_indexes id pid [new_holder]) ;;
  deposit_event (HolderAdded id pid new_holder) ;;
  writes (insert_participation id pid (set_holders hs p)).

(** The end of [remove_holder] and [leave_participation]: the last holder out
    ends the participation. *)
Definition drop_holder (id pid : Z) (asset : AssetInfo) (p : Participation) (holder : AccountId)
    (gone : Event) : C unit :=
  let p := set_holders (remove_first holder p.(holders)) p in
  writes (remove_single_holder_index id holder) ;;
  if bool_decide (p.(holders) = []) then
    let deposit := p.(deposit_held) in
    do_transfer asset.(policy).(deposit_currency) pallet_account p.(payer) deposit ;;
    writes (dec_participant_count id) ;;
    writes (insert_participation id pid (close Exited p)) ;;
    deposit_event (ParticipationExited id pid deposit)
  else
    writes (insert_participation id pid p) ;;
    deposit_event gone.

Definition remove_holder (origin : Origin) (id pid : Z) (holder : AccountId) : C unit :=
  who ← ensure_signed origin;
  asset ← get_asset id;
  p ← get_participation id pid;
  ensure (p.(payer) =? who) (err NotPayer) ;;
  r ← try_settle_expiry id pid p asset;
  ensure (negb r.1) (err ParticipationExpiredError) ;;
  let p := r.2 in
  ensure (is_active_p p.(pstatus)) (err InvalidParticipationStatus) ;;
  ensure (contains p.(holders) holder) (err HolderNotFound) ;;
  drop_holder id pid asset p holder (HolderRemoved id pid holder).

Definition leave_participation (origin : Origin) (id pid : Z) : C unit :=
  who ← ensure_signed origin;
  asset ← get_asset id;
  p ← get_participation id pid;
  ensure (contains p.(holders) who) (err NotHolder) ;;
  r ← try_settle_expiry id pid p asset;
  ensure (negb r.1) (err ParticipationExpiredError) ;;
  let p := r.2 in
  ensure (is_active_p p.(pstatus)) (err InvalidParticipationStatus) ;;
  drop_holder id pid asset p who (HolderLeft id pid who).

(** ** Slashing and revocation *)

Definition set_slash_distribution (origin : Origin) (id : Z) (distribution : list SlashRecipient)
    : C unit :=
  ensure_asset_owner_or_admin origin id ;;
  let total_parts := fold_left (λ acc r, saturating_add U32_MAX acc r.(share)) distribution 0 in
  ensure (total_parts =? PERMILL_ACCURACY) (err SlashSharesSumInvalid) ;;
  writes (λ s, put_AssetSlashDistribution (<[id := distribution]> s.(AssetSlashDistribution)) s) ;;
  deposit_event (SlashDistributionSet id (Z.of_nat (length distribution))).

Definition slash_participation (origin : Origin) (id pid : Z) (amount : Balance)
    (reporter : option AccountId) : C unit :=
  ensure_origin AdminOrigin origin ;;
  asset ← get_asset id;
  p ← get_participation id pid;
  r ← try_settle_expiry id pid p asset;
  ensure (negb r.1) (err ParticipationExpiredError) ;;
  let p := r.2 in
  guard ← asks (can_slash_participation id pid);
  of_result (map_err (λ _, err BlockedByLifecycleGuard) guard) ;;
  ensure (is_active_p p.(pstatus)) (err InvalidParticipationStatus) ;;
  ensure (amount <=? p.(deposit_held)) (err SlashAmountExceedsDeposit) ;;
  do_distribute_slash asset.(policy).(deposit_currency) amount id asset.(beneficiary) reporter ;;
  let remainder := saturating_sub p.(deposit_held) amount in
  when (negb (remainder =? 0))
    (do_transfer asset.(policy).(deposit_currency) pallet_account p.(payer) remainder) ;;
  writes (end_participation Slashed id pid p) ;;
  deposit_event (ParticipationSlashed id pid amount reporter).

Definition revoke_participation (origin : Origin) (id pid : Z) : C unit :=
  ensure_origin AdminOrigin origin ;;
  asset ← get_asset id;
  p ← get_participation id pid;
  r ← try_settle_expiry id pid p asset;
  ensure (negb r.1) (err ParticipationExpiredError) ;;
  let p := r.2 in
  ensure (is_active_p p.(pstatus)) (err InvalidParticipationStatus) ;;
  let deposit := p.(deposit_held) in
  do_transfer asset.(policy).(deposit_currency) pallet_account p.(payer) deposit ;;
  writes (end_participation Revoked id pid p) ;;
  deposit_event (ParticipationRevoked id pid deposit).

(** ** Ownership *)

Definition transfer_ownership (origin : Origin) (id : Z) (new_owner : AccountId) : C unit :=
  who ← ensure_signed origin;
  asset ← get_asset id;
  ensure (asset.(owner) =? who) (err NotAssetOwner) ;;
  ensure (negb (bool_decide (asset.(status) = Retired))) (err AssetAlreadyRetired) ;;
  ensure (negb (new_owner =? who)) (err TransferToSelf) ;;
  writes (λ s, put_PendingOwnershipTransfer
    (<[id := new_owner]> s.(PendingOwnershipTransfer)) s) ;;
  deposit_event (OwnershipTransferProposed id who new_owner).

Definition accept_ownership (origin : Origin) (id : Z) : C unit :=
  who ← ensure_signed origin;
  pending ← reads (λ s, s.(PendingOwnershipTransfer) !! id);
  pending ← ok_or pending (err NoPendingTransfer);
  ensure (pending =? who) (err NotPendingOwner) ;;
  asset ← get_asset id;
  ensure (bool_decide (asset.(status) ∉ [Retired; Paused])) (err InvalidAssetStatus) ;;
  owned ← reads (owner_assets who);
  ensure (Z.of_nat (length owned) <? MaxAssetsPerOwner) (err MaxAssetsPerOwnerReached) ;;
  let deposit := asset.(registration_deposit) in
  do_unreserve asset.(owner) deposit ;;
  calls (reserve who deposit) ;;
  let old_owner := asset.(owner) in
  writes (insert_asset id (set_owner who asset)) ;;
  writes (remove_from_owner_assets old_owner id) ;;
  writes (λ s, put_OwnerAssets
    (<[who := push_or_skip MaxAssetsPerOwner (owner_assets who s) id]> s.(OwnerAssets)) s) ;;
  writes (λ s, put_PendingOwnershipTransfer (delete id s.(PendingOwnershipTransfer)) s) ;;
  deposit_event (OwnershipTransferred id old_owner who).

Definition cancel_ownership_transfer (origin : Origin) (id : Z) : C unit :=
  who ← ensure_signed origin;
  asset ← get_asset id;
  ensure (asset.(owner) =? who) (err NotAssetOwner) ;;
  pending ← reads (λ s, s.(PendingOwnershipTransfer) !! id);
  ensure (bool_decide (pending ≠ None)) (err NoPendingTransfer) ;;
  writes (λ s, put_PendingOwnershipTransfer (delete id s.(PendingOwnershipTransfer)) s) ;;
  deposit_event (OwnershipTransferCancelled id).

Definition update_beneficiary (origin : Origin) (id : Z) (new_beneficiary : AccountId) : C unit :=
  ensure_asset_owner_or_admin origin id ;;
  asset ← get_asset id;
  ensure (negb (bool_decide (asset.(status) = Retired))) (err AssetAlreadyRetired) ;;
  deposit_event (BeneficiaryUpdated id asset.(beneficiary) new_beneficiary) ;;
  writes (insert_asset id (set_beneficiary new_beneficiary asset)).

Definition update_metadata (origin : Origin) (id : Z) (new_metadata : list Z) : C unit :=
  ensure_asset_owner_or_admin origin id ;;
  ensure (Z.of_nat (length new_metadata) <=? MaxMetadataLen) (err MetadataTooLong) ;;
  asset ← get_asset id;
  ensure (negb (bool_decide (asset.(status) = Retired))) (err AssetAlreadyRetired) ;;
  deposit_event (MetadataUpdated id) ;;
  writes (insert_asset id (set_metadata new_metadata asset)).

Definition transfer_participation (origin : Origin) (id pid : Z) (new_payer : AccountId) : C unit :=
  who ← ensure_signed origin;
  asset ← get_asset id;
  ensure (bool_decide (asset.(status) = Active)) (err AssetNotActive) ;;
  p ← get_participation id pid;
  ensure (p.(payer) =? who) (err NotPayer) ;;
  ensure (negb (new_payer =? who)) (err TransferToSelf) ;;
  r ← try_settle_expiry_inner id pid p asset;
  ensure (negb r.1) (err ParticipationExpiredError) ;;
  let p := r.2 in
  ensure (is_active_p p.(pstatus)) (err InvalidParticipationStatus) ;;
  deposit_event (ParticipationTransferred id pid p.(payer) new_payer) ;;
  writes (insert_participation id pid (set_payer new_payer p)).

Definition pause_asset (origin : Origin) (id : Z) : C unit :=
  ensure_origin AdminOrigin origin ;;
  asset ← get_asset id;
  ensure (bool_decide (asset.(status) ∈ [Active; Inactive])) (err InvalidAssetStatus) ;;
  writes (insert_asset id (set_status Paused asset)) ;;
  deposit_event (AssetPaused id).

Definition unpause_asset (origin : Origin) (id : Z) : C unit :=
  ensure_origin AdminOrigin origin ;;
  asset ← get_asset id;
  ensure (bool_decide (asset.(status) = Paused)) (err InvalidAssetStatus) ;;
  writes (insert_asset id (set_status Active asset)) ;;
  deposit_event (AssetUnpaused id).

(** The loop of [batch_reject_pending]: the number rejected and the entries
    retained. *)
Fixpoint reject_each (id : Z) (asset : AssetInfo) (pending : list Z) (rejected : Z)
    (retained : list Z) : C (Z * list Z) :=
  match pending with
  | [] => mret (rejected, retained)
  | pid :: pending' =>
      maybe ← reads (λ s, s.(Participations) !! (id, pid));
      match maybe with
      | None => reject_each id asset pending' rejected retained
      | Some p =>
          if negb (bool_decide (p.(pstatus) = PendingApproval))
          then reject_each id asset pending' rejected (retained ++ [pid])
          else
            let total := saturating_add U128_MAX p.(deposit_held) p.(entry_fee_paid) in
            r ← attempt (do_transfer asset.(policy).(deposit_currency) pallet_account
                           p.(payer) total);
            match r with
            | Ok _ =>
                writes (λ s, put_Participations (delete (id, pid) s.(Participations)) s) ;;
                writes (remove_all_holder_indexes id p.(holders)) ;;
                writes (dec_participant_count id) ;;
                reject_each id asset pending' (rejected + 1) retained
            | Err _ => reject_each id asset pending' rejected (retained ++ [pid])
            end
      end
  end.

Definition batch_reject_pending (origin : Origin) (id : Z) : C unit :=
  ensure_asset_owner_or_admin origin id ;;
  asset ← get_asset id;
  pending ← reads (pending_approvals id);
  r ← reject_each id asset pending 0 [];
  writes (λ s, put_PendingApprovals
    (if bool_decide (r.2 = []) then delete id s.(PendingApprovals)
     else <[id := r.2]> s.(PendingApprovals)) s) ;;
  deposit_event (BatchPendingRejected id r.1).

Definition dispatch (origin : Origin) (call : Call) : C unit :=
  match call with
  | Register_asset b p m => register_asset origin b p m
  | Update_asset_policy id p => update_asset_policy origin id p
  | Deactivate_asset id => deactivate_asset origin id
  | Reactivate_asset id => reactivate_asset origin id
  | Sunset_asset id b => sunset_asset origin id b
  | Force_retire_asset id => force_retire_asset origin id
  | Retire_asset id => retire_asset origin id
  | Request_participation id hs => request_participation origin id hs
  | Approve_participation id pid => approve_participation origin id pid
  | Reject_participation id pid => reject_participation origin id pid
  | Exit_participation id pid => exit_participation origin id pid
  | Renew_participation id pid => renew_participation origin id pid
  | Settle_expired_participation id pid => settle_expired_participation origin id pid
  | Claim_retired_deposit id pid => claim_retired_deposit origin id pid
  | Add_holder id pid h => add_holder origin id pid h
  | Remove_holder id pid h => remove_holder origin id pid h
  | Leave_participation id pid => leave_participation origin id pid
  | Set_slash_distribution id d => set_slash_distribution origin id d
  | Slash_participation id pid a r => slash_participation origin id pid a r
  | Revoke_participation id pid => revoke_participation origin id pid
  | Transfer_ownership id n => transfer_ownership origin id n
  | Accept_ownership id => accept_ownership origin id
  | Cancel_ownership_transfer id => cancel_ownership_transfer origin id
  | Update_beneficiary id b => update_beneficiary origin id b
  | Update_metadata id m => update_metadata origin id m
  | Transfer_participation id pid n => transfer_participation origin id pid n
  | Pause_asset id => pause_asset origin id
  | Unpause_asset id => unpause_asset origin id
  | Batch_reject_pending id => batch_reject_pending origin id
  end.

(** ** Runtime API *)

Definition effective_participation_status (id pid : Z) (e : CEnv W) : option ParticipationStatus :=
  match (store e).(Participations) !! (id, pid) with
  | Some p => Some (if lapsed p (block_number (world e)) then Expired else p.(pstatus))
  | None => None
  end.

Definition can_participate (id : Z) (who : AccountId) (e : CEnv W)
    : result CanParticipateError unit :=
  match (store e).(RwaAssets) !! id with
  | None => Err CPAssetNotFound
  | Some asset =>
      if negb (bool_decide (asset.(status) = Active)) then Err CPAssetNotActive
      else if match asset.(policy).(max_participants) with
              | Some max => max <=? asset.(participant_count)
              | None => false
              end then Err CPMaxParticipantsReached
      else if bool_decide ((store e).(HolderIndex) !! (id, who) ≠ None)
      then Err CPAlreadyParticipating
      else match ensure_eligible id who (world e) with
           | Ok _ => Ok tt
           | Err _ => Err CPNotEligible
           end
  end.

Definition assets_by_owner (who : AccountId) (e : CEnv W) : list Z := owner_assets who (store e).

Definition participations_by_holder (holder : AccountId) (e : CEnv W) : list (Z * Z) :=
  omap (λ aid, (λ pid, (aid, pid)) <$> (store e).(HolderIndex) !! (aid, holder))
    (holder_assets holder (store e)).

Definition active_participant_count (id : Z) (e : CEnv W) : Z :=
  match (store e).(RwaAssets) !! id with Some a => a.(participant_count) | None => 0 end.
End pallet.

(** ** The checks of [try_state] *)

(** [Participations::iter_prefix(id).filter(live).count()] *)
Definition live_participations (id : Z) (s : State) : Z :=
  prefix_sum id (λ _ p, if is_live p.(pstatus) then 1 else 0) s.(Participations).

Definition do_try_state (s : State) : result string unit :=
  and_then
    (try_for_each (map_to_list s.(RwaAssets)) (λ '(asset_id, _),
      if s.(NextRwaAssetId) <=? asset_id then Some "asset_id >= NextRwaAssetId"%string else None))
  (and_then
    (try_for_each (map_to_list s.(OwnerAssets)) (λ '(who, asset_ids),
      match try_for_each asset_ids (λ aid,
        match s.(RwaAssets) !! aid with
        | None => Some "OwnerAssets references non-existent asset"%string
        | Some asset =>
            if negb (asset.(owner) =? who) then Some "OwnerAssets owner mismatch"%string
            else if bool_decide (asset.(status) = Retired)
            then Some "Retired asset still in OwnerAssets"%string else None
        end) with Ok _ => None | Err e => Some e end))
  (and_then
    (try_for_each (map_to_list s.(RwaAssets)) (λ '(asset_id, asset),
      if negb (wrap U32_MAX (live_participations asset_id s) =? asset.(participant_count))
      then Some "participant_count mismatch"%string else None))
  (and_then
    (try_for_each (map_to_list s.(HolderIndex)) (λ '((asset_id, who), pid),
      match s.(Participations) !! (asset_id, pid) with
      | None => Some "HolderIndex references non-existent participation"%string
      | Some p =>
          if negb (is_live p.(pstatus))
          then Some "HolderIndex references non-active participation"%string
          else if negb (contains p.(holders) who)
          then Some "HolderIndex account not in participation holders"%string else None
      end))
  (and_then
    (try_for_each (map_to_list s.(HolderAssets)) (λ '(who, asset_ids),
      match try_for_each asset_ids (λ aid,
        if bool_decide (s.(HolderIndex) !! (aid, who) = None)
        then Some "HolderAssets references missing HolderIndex"%string else None)
      with Ok _ => None | Err e => Some e end))
  (and_then
    (try_for_each (map_to_list s.(PendingApprovals)) (λ '(asset_id, pending_ids),
      match try_for_each pending_ids (λ pid,
        match s.(Participations) !! (asset_id, pid) with
        | None => Some "PendingApprovals references non-existent participation"%string
        | Some p =>
            if negb (bool_decide (p.(pstatus) = PendingApproval))
            then Some "PendingApprovals entry is not PendingApproval status"%string else None
        end) with Ok _ => None | Err e => Some e end))
  (and_then
    (try_for_each (map_to_list s.(AssetSlashDistribution)) (λ '(_, dist),
      if negb (fold_left (λ acc r, Z.min PERMILL_ACCURACY (acc + r.(share))) dist 0
               =? PERMILL_ACCURACY)
      then Some "SlashDistribution shares do not sum to 100%"%string else None))
  (and_then
    (try_for_each (map_to_list s.(SunsettingAssets)) (λ '(block, asset_ids),
      match try_for_each asset_ids (λ aid,
        match s.(RwaAssets) !! aid with
        | None => Some "SunsettingAssets references non-existent asset"%string
        | Some asset =>
            match asset.(status) with
            | Sunsetting expiry_block =>
                if negb (expiry_block =? block)
                then Some "SunsettingAssets block mismatch"%string else None
            | _ => Some "SunsettingAssets references non-sunsetting asset"%string
            end
        end) with Ok _ => None | Err e => Some e end))
    (try_for_each (map_to_list s.(PendingOwnershipTransfer)) (λ '(asset_id, pending_owner),
      match s.(RwaAssets) !! asset_id with
      | None => Some "PendingOwnershipTransfer references non-existent asset"%string
      | Some asset =>
          if asset.(owner) =? pending_owner
          then Some "PendingOwnershipTransfer owner matches current owner"%string
          else if bool_decide (asset.(status) = Retired)
          then Some "PendingOwnershipTransfer on Retired asset"%string else None
      end))))))))).
