(* ===== verification/RwaSpec.v ===== *)
(** * pallet-rwa: what each dispatchable does

    For every dispatchable, the facts a successful run establishes: the guards
    that held, the payments made, and the storage it leaves.  The invariant of
    RwaInv.v and the escrow of RwaFunds.v are proved from these lemmas alone. *)

From S2P Require Import Prelude Arith Errors Frame Rwa.
Import RwaErrors.

(** The currency an asset is paid in. *)
Abbreviation cur_of a := a.(policy).(deposit_currency).

Section spec.
Context {W : Type} `{!System W, !Currency W, !ReservableCurrency W, !Fungibles W}
  `{!ParticipationFilter W, !AssetLifecycleGuard W} {T : Config}.
Implicit Types (e : CEnv W) (s : State) (w : W) (a : AssetInfo) (p : Participation).

(** ** Payments *)

(** The change of the surroundings a call of [do_transfer] makes. *)
Definition pays (cur : PaymentCurrency) (from to : AccountId) (amount : Balance) (w w' : W)
    : Prop :=
  if amount =? 0 then w' = w
  else
    match cur with
    | Native => transfer from to amount KeepAlive w = Ok (tt, w')
    | Asset x => ∃ b, asset_transfer x from to amount Preserve w = Ok (b, w')
    end.

Definition burns (cur : PaymentCurrency) (who : AccountId) (amount : Balance) (w w' : W) : Prop :=
  if amount =? 0 then w' = w
  else
    match cur with
    | Native => withdraw who amount KeepAlive w = Ok (tt, w')
    | Asset x => ∃ b, asset_burn_from x who amount w = Ok (b, w')
    end.

Lemma rwa_transfer_ok cur from to amount e u e' :
  do_transfer cur from to amount e = Ok (u, e') ↔
  ∃ w', pays cur from to amount (world e) w' ∧ e' = mkEnv (store e) w' (events e).
Proof.
  unfold do_transfer, pays. destruct u. destruct (amount =? 0).
  - rewrite ret_ok. destruct e. naive_solver.
  - destruct cur.
    + rewrite calls_ok. naive_solver.
    + rewrite bind_ok. setoid_rewrite calls_ok. setoid_rewrite ret_ok. naive_solver.
Qed.

Lemma rwa_burn_ok cur who amount e u e' :
  do_burn cur who amount e = Ok (u, e') ↔
  ∃ w', burns cur who amount (world e) w' ∧ e' = mkEnv (store e) w' (events e).
Proof.
  unfold do_burn, burns. destruct u. destruct (amount =? 0).
  - rewrite ret_ok. destruct e. naive_solver.
  - destruct cur.
    + rewrite calls_ok. naive_solver.
    + rewrite bind_ok. setoid_rewrite calls_ok. setoid_rewrite ret_ok. naive_solver.
Qed.

(** A transfer that is skipped when there is nothing to transfer. *)
Lemma when_transfer_ok cur from to amount e u e' :
  when (negb (amount =? 0)) (do_transfer cur from to amount) e = Ok (u, e') ↔
  ∃ w', pays cur from to amount (world e) w' ∧ e' = mkEnv (store e) w' (events e).
Proof.
  rewrite when_ok, rwa_transfer_ok. unfold pays. destruct e, (amount =? 0); naive_solver.
Qed.

Lemma do_unreserve_ok who v e r e' :
  do_unreserve who v e = Ok (r, e') ↔
  ∃ w', unreserve who v (world e) = (r, w') ∧ e' = mkEnv (store e) w' (events e).
Proof.
  unfold do_unreserve. rewrite calls_ok. split.
  - intros (w & [= Hw] & ->). eauto.
  - intros (w & Hw & ->). exists w. by rewrite Hw.
Qed.

Lemma get_asset_ok id e a e' :
  get_asset id e = Ok (a, e') ↔ (store e).(RwaAssets) !! id = Some a ∧ e' = e.
Proof.
  unfold get_asset. rewrite bind_ok. setoid_rewrite reads_ok. setoid_rewrite ok_or_ok. naive_solver.
Qed.

Lemma get_participation_ok id pid e p e' :
  get_participation id pid e = Ok (p, e') ↔
  (store e).(Participations) !! (id, pid) = Some p ∧ e' = e.
Proof.
  unfold get_participation. rewrite bind_ok. setoid_rewrite reads_ok. setoid_rewrite ok_or_ok.
  naive_solver.
Qed.

(** Who may act for the owner of an asset. *)
Definition acts_for_owner (o : Origin) (a : AssetInfo) : Prop :=
  AdminOrigin o = true ∨ o = Signed a.(owner).

Lemma ensure_owner_or_admin_ok o id e u e' :
  ensure_asset_owner_or_admin o id e = Ok (u, e') →
  e' = e ∧ ∃ a, (store e).(RwaAssets) !! id = Some a ∧ acts_for_owner o a.
Proof.
  unfold ensure_asset_owner_or_admin, acts_for_owner. destruct (AdminOrigin o).
  - intros H. einv. bool_facts.
    match goal with H : ?x ≠ None |- _ => destruct x as [a|] eqn:?; [|done] end. eauto.
  - intros H. einv. match goal with H : ensure_signed _ _ = _ |- _ =>
      apply ensure_signed_ok in H as [-> ->] end.
    match goal with H : get_asset _ _ = _ |- _ => apply get_asset_ok in H as [Ha ->] end.
    bool_facts. subst. eauto.
Qed.

(** ** Lazy expiry *)

(** The storage a settlement leaves, before the participation is written. *)
Definition unindexed (id : Z) (hs : list AccountId) (s : State) : State :=
  dec_participant_count id (remove_all_holder_indexes id hs s).

Definition settled (id pid : Z) (p : Participation) (s : State) : State :=
  insert_participation id pid (close Expired p) (unindexed id p.(holders) s).

Lemma try_settle_inner_ok id pid p a e r e' :
  try_settle_expiry_inner id pid p a e = Ok (r, e') →
  (lapsed p (block_number (world e)) = true ∧ r = (true, close Expired p) ∧
   pays a.(policy).(deposit_currency) pallet_account p.(payer) p.(deposit_held)
     (world e) (world e') ∧
   store e' = unindexed id p.(holders) (store e)) ∨
  (lapsed p (block_number (world e)) = false ∧ r = (false, p) ∧ e' = e).
Proof.
  unfold try_settle_expiry_inner. intros H. einv.
  destruct (lapsed _ _) eqn:Hl; einv; [|by right].
  match goal with H : do_transfer _ _ _ _ _ = _ |- _ => apply rwa_transfer_ok in H as (? & ? & ->) end.
  by left.
Qed.

Lemma try_settle_ok id pid p a e r e' :
  try_settle_expiry id pid p a e = Ok (r, e') →
  (lapsed p (block_number (world e)) = true ∧ r = (true, close Expired p) ∧
   pays a.(policy).(deposit_currency) pallet_account p.(payer) p.(deposit_held)
     (world e) (world e') ∧
   store e' = settled id pid p (store e)) ∨
  (lapsed p (block_number (world e)) = false ∧ r = (false, p) ∧ e' = e).
Proof.
  unfold try_settle_expiry. intros H. einv.
  match goal with H : try_settle_expiry_inner _ _ _ _ _ = _ |- _ =>
    apply try_settle_inner_ok in H as [(Hl & -> & Hp & Hs)|(Hl & -> & ->)] end;
    match goal with H : when _ _ _ = _ |- _ => apply when_ok in H as [[? H]|[? H]] end;
    simpl in *; einv; simpl in *; try done; [|by right].
  left. unfold settled. by rewrite <- Hs.
Qed.

(** ** Loops over the holders *)

Definition can_hold (id : Z) (s : State) (h : AccountId) : Prop :=
  s.(HolderIndex) !! (id, h) = None ∧
  Z.of_nat (length (holder_assets h s)) < MaxParticipationsPerHolder.

Definition eligible (id : Z) (w : W) (h : AccountId) : Prop := ensure_eligible id h w = Ok tt.

(** A loop whose body only checks. *)
Lemma for_each_checks {A} (P : A → CEnv W → Prop) (f : A → M DispatchError (CEnv W) unit) l e e' :
  (∀ x e u e', f x e = Ok (u, e') ↔ P x e ∧ e' = e) →
  for_each l f e = Ok (tt, e') ↔ Forall (λ x, P x e) l ∧ e' = e.
Proof.
  intros Hf. induction l as [|x l IH].
  - rewrite for_each_nil_ok, Forall_nil. naive_solver.
  - rewrite for_each_cons_ok, Forall_cons. setoid_rewrite Hf. naive_solver.
Qed.

Lemma ensure_can_hold_ok id h e u e' :
  ensure_can_hold id h e = Ok (u, e') ↔ can_hold id (store e) h ∧ e' = e.
Proof.
  unfold ensure_can_hold, can_hold. destruct u. split.
  - intros H. einv. bool_facts. done.
  - intros [[H1 H2] ->].
    repeat (setoid_rewrite bind_ok || setoid_rewrite reads_ok || setoid_rewrite ensure_ok).
    repeat eexists; [by apply bool_decide_eq_true|by apply Z.ltb_lt].
Qed.

Lemma ensure_filter_ok id h e u e' :
  ensure_filter id h e = Ok (u, e') ↔ eligible id (world e) h ∧ e' = e.
Proof.
  unfold ensure_filter, eligible. destruct u. rewrite bind_ok. setoid_rewrite asks_ok.
  setoid_rewrite of_result_ok. destruct (ensure_eligible id h (world e)) as [[]|] eqn:Hx; simpl.
  - naive_solver.
  - naive_solver.
Qed.

Lemma all_can_hold_ok id hs e e' :
  for_each hs (ensure_can_hold id) e = Ok (tt, e') ↔
  Forall (can_hold id (store e)) hs ∧ e' = e.
Proof.
  apply (for_each_checks (λ h e, can_hold id (store e) h)). intros. apply ensure_can_hold_ok.
Qed.

Lemma all_eligible_ok id hs e e' :
  for_each hs (ensure_filter id) e = Ok (tt, e') ↔
  Forall (eligible id (world e)) hs ∧ e' = e.
Proof.
  apply (for_each_checks (λ h e, eligible id (world e) h)). intros. apply ensure_filter_ok.
Qed.
End spec.

(** Splits a successful run of a dispatchable. *)
Ltac rwa_step :=
  match goal with
  | H : ensure_signed _ _ = Ok (_, _) |- _ => apply ensure_signed_ok in H as [? ?]; subst
  | H : ensure_origin _ _ _ = Ok (_, _) |- _ => apply ensure_origin_ok in H as [? ?]; subst
  | H : get_asset _ _ = Ok (_, _) |- _ => apply get_asset_ok in H as [? ?]; subst
  | H : get_participation _ _ _ = Ok (_, _) |- _ =>
      apply get_participation_ok in H as [? ?]; subst
  | H : ensure_asset_owner_or_admin _ _ _ = Ok (_, _) |- _ =>
      apply ensure_owner_or_admin_ok in H as (? & ? & ? & ?); subst
  | H : do_transfer _ _ _ _ _ = Ok (_, _) |- _ => apply rwa_transfer_ok in H as (? & ? & ?); subst
  | H : do_burn _ _ _ _ = Ok (_, _) |- _ => apply rwa_burn_ok in H as (? & ? & ?); subst
  | H : when (negb (_ =? 0)) (do_transfer _ _ _ _) _ = Ok (_, _) |- _ =>
      apply when_transfer_ok in H as (? & ? & ?); subst
  | H : do_unreserve _ _ _ = Ok (_, _) |- _ =>
      apply do_unreserve_ok in H as (? & ? & ?); subst
  | H : ensure_can_hold _ _ _ = Ok (_, _) |- _ => apply ensure_can_hold_ok in H as [? ?]; subst
  | H : ensure_filter _ _ _ = Ok (_, _) |- _ => apply ensure_filter_ok in H as [? ?]; subst
  | H : for_each _ (ensure_can_hold _) _ = Ok (_, _) |- _ =>
      apply all_can_hold_ok in H as [? ?]; subst
  | H : for_each _ (ensure_filter _) _ = Ok (_, _) |- _ =>
      apply all_eligible_ok in H as [? ?]; subst
  | H : checked_add _ _ _ = Some _ |- _ => apply checked_add_Some in H as [? ?]; subst
  | H : try_push _ _ _ = Some _ |- _ => apply try_push_Some in H as [? ?]; subst
  end.
Ltac rwa_steps := repeat first [minv_step | env_step | rwa_step].
Ltac rwa_inv := rwa_steps; simpl in *; rwa_steps; simpl in *.

(** ** One lemma per dispatchable: assets *)

Section asset_runs.
Context {W : Type} `{!System W, !Currency W, !ReservableCurrency W, !Fungibles W}
  `{!ParticipationFilter W, !AssetLifecycleGuard W} {T : Config}.
Implicit Types (e : CEnv W) (s : State) (w : W) (a : AssetInfo) (p : Participation).

Definition registered (who beneficiary : AccountId) (pol : AssetPolicy) (meta : list Z)
    (now : BlockNumber) (s : State) : State :=
  let id := s.(NextRwaAssetId) in
  put_OwnerAssets (<[who := push_or_skip MaxAssetsPerOwner (owner_assets who s) id]> s.(OwnerAssets))
    (insert_asset id (mkAssetInfo who beneficiary Active pol meta 0 AssetRegistrationDeposit now)
      (put_NextRwaAssetId (id + 1) s)).

Lemma register_asset_run o b pol m e e' :
  register_asset o b pol m e = Ok (tt, e') →
  ∃ who, o = Signed who ∧ Z.of_nat (length m) ≤ MaxMetadataLen ∧
    Z.of_nat (length (owner_assets who (store e))) < MaxAssetsPerOwner ∧
    MinParticipationDeposit ≤ pol.(deposit) ∧
    reserve who AssetRegistrationDeposit (world e) = Ok (tt, world e') ∧
    (store e).(NextRwaAssetId) + 1 ≤ U32_MAX ∧
    store e' = registered who b pol m (block_number (world e')) (store e).
Proof. unfold register_asset. intros H. rwa_inv. bool_facts. eexists. split_and!; done. Qed.

(** What an update of the policy must keep. *)
Definition policy_kept (a : AssetInfo) (pol : AssetPolicy) : Prop :=
  a.(policy).(deposit_currency) = pol.(deposit_currency) ∧
  a.(policy).(deposit) = pol.(deposit) ∧
  (∀ max, pol.(max_participants) = Some max → a.(participant_count) ≤ max) ∧
  (0 < a.(participant_count) → policy_change_allowed a.(policy) pol = true).

Lemma update_asset_policy_run o id pol e e' :
  update_asset_policy o id pol e = Ok (tt, e') →
  ∃ a, (store e).(RwaAssets) !! id = Some a ∧ o = Signed a.(owner) ∧ a.(status) = Active ∧
    policy_kept a pol ∧ world e' = world e ∧
    store e' = insert_asset id (set_policy pol a) (store e).
Proof.
  unfold update_asset_policy, policy_kept. intros H. rwa_inv.
  match goal with H : when _ _ _ = Ok _ |- _ => apply when_ok in H as [[? H]|[? ->]] end;
    rwa_inv; bool_facts; subst; eexists; split_and!; eauto; try lia;
    intros; apply Z.leb_le; auto.
Qed.

(** The owner's changes of status that need nothing else. *)
Lemma deactivate_asset_run o id e e' :
  deactivate_asset o id e = Ok (tt, e') →
  ∃ a, (store e).(RwaAssets) !! id = Some a ∧ o = Signed a.(owner) ∧ a.(status) = Active ∧
    world e' = world e ∧ store e' = insert_asset id (set_status Inactive a) (store e).
Proof. unfold deactivate_asset. intros H. rwa_inv. bool_facts. subst. eauto 10. Qed.

Lemma reactivate_asset_run o id e e' :
  reactivate_asset o id e = Ok (tt, e') →
  ∃ a, (store e).(RwaAssets) !! id = Some a ∧ o = Signed a.(owner) ∧ a.(status) = Inactive ∧
    world e' = world e ∧ store e' = insert_asset id (set_status Active a) (store e).
Proof. unfold reactivate_asset. intros H. rwa_inv. bool_facts. subst. eauto 10. Qed.

Lemma pause_asset_run o id e e' :
  pause_asset o id e = Ok (tt, e') →
  ∃ a, (store e).(RwaAssets) !! id = Some a ∧ AdminOrigin o = true ∧
    a.(status) ∈ [Active; Inactive] ∧
    world e' = world e ∧ store e' = insert_asset id (set_status Paused a) (store e).
Proof. unfold pause_asset. intros H. rwa_inv. bool_facts. eauto 10. Qed.

Lemma unpause_asset_run o id e e' :
  unpause_asset o id e = Ok (tt, e') →
  ∃ a, (store e).(RwaAssets) !! id = Some a ∧ AdminOrigin o = true ∧ a.(status) = Paused ∧
    world e' = world e ∧ store e' = insert_asset id (set_status Active a) (store e).
Proof. unfold unpause_asset. intros H. rwa_inv. bool_facts. eauto 10. Qed.

Definition sunset (id : Z) (b : BlockNumber) (a : AssetInfo) (s : State) : State :=
  put_SunsettingAssets
    (<[b := push_or_skip MaxSunsettingPerBlock (sunsetting_assets b s) id]> s.(SunsettingAssets))
    (insert_asset id (set_status (Sunsetting b) a) s).

Lemma sunset_asset_run o id b e e' :
  sunset_asset o id b e = Ok (tt, e') →
  ∃ a, (store e).(RwaAssets) !! id = Some a ∧ o = Signed a.(owner) ∧
    a.(status) ∈ [Active; Inactive] ∧ block_number (world e) < b ∧
    Z.of_nat (length (sunsetting_assets b (store e))) < MaxSunsettingPerBlock ∧
    world e' = world e ∧ store e' = sunset id b a (store e).
Proof. unfold sunset_asset. intros H. rwa_inv. bool_facts. subst. eexists. split_and!; done. Qed.

(** An asset is retired: its deposit is returned, its records go. *)
Definition retired (id : Z) (a : AssetInfo) (s : State) : State :=
  mutate_asset id (set_status Retired) (clear_asset a.(owner) id s).

Definition unscheduled (id : Z) (a : AssetInfo) (s : State) : State :=
  match a.(status) with Sunsetting b => remove_sunsetting b id s | _ => s end.

Lemma force_retire_asset_run o id e e' :
  force_retire_asset o id e = Ok (tt, e') →
  ∃ a r, (store e).(RwaAssets) !! id = Some a ∧ ForceOrigin o = true ∧ a.(status) ≠ Retired ∧
    can_retire_asset id (world e) = Ok tt ∧
    unreserve a.(owner) a.(registration_deposit) (world e) = (r, world e') ∧
    store e' = retired id a (unscheduled id a (store e)).
Proof.
  unfold force_retire_asset, unscheduled. intros H. rwa_inv. bool_facts.
  match goal with H : map_err _ ?r = Ok _ |- _ =>
    destruct r as [[]|] eqn:?; simpl in H; [|done] end.
  match goal with H : match status ?a with _ => _ end _ = Ok _ |- _ =>
    destruct (status a) eqn:Hst; rwa_inv end; bool_facts; do 2 eexists; split_and!; eauto;
    rewrite ?Hst; done.
Qed.

Lemma retire_asset_run o id e e' :
  retire_asset o id e = Ok (tt, e') →
  ∃ a b r, (store e).(RwaAssets) !! id = Some a ∧ a.(status) = Sunsetting b ∧
    b ≤ block_number (world e) ∧
    unreserve a.(owner) a.(registration_deposit) (world e) = (r, world e') ∧
    store e' = retired id a (unscheduled id a (store e)).
Proof.
  unfold retire_asset, unscheduled. intros H. rwa_inv.
  match goal with H : match status ?a with _ => _ end _ = Ok _ |- _ =>
    destruct (status a) eqn:Hst; rwa_inv end. bool_facts. minv.
  do 3 eexists. split_and!; eauto. by rewrite Hst.
Qed.


Lemma set_slash_distribution_run o id d e e' :
  set_slash_distribution o id d e = Ok (tt, e') →
  ∃ a, (store e).(RwaAssets) !! id = Some a ∧ acts_for_owner o a ∧
    fold_left (λ acc r, saturating_add U32_MAX acc r.(share)) d 0 = PERMILL_ACCURACY ∧
    world e' = world e ∧
    store e' = put_AssetSlashDistribution (<[id := d]> (store e).(AssetSlashDistribution)) (store e).
Proof. unfold set_slash_distribution. intros H. rwa_inv. bool_facts. eauto 10. Qed.

Lemma transfer_ownership_run o id n e e' :
  transfer_ownership o id n e = Ok (tt, e') →
  ∃ a, (store e).(RwaAssets) !! id = Some a ∧ o = Signed a.(owner) ∧ a.(status) ≠ Retired ∧
    n ≠ a.(owner) ∧ world e' = world e ∧
    store e' = put_PendingOwnershipTransfer (<[id := n]> (store e).(PendingOwnershipTransfer)) (store e).
Proof. unfold transfer_ownership. intros H. rwa_inv. bool_facts. subst. eauto 10. Qed.

Definition owned_by (who : AccountId) (id : Z) (a : AssetInfo) (s : State) : State :=
  let s1 := remove_from_owner_assets a.(owner) id (insert_asset id (set_owner who a) s) in
  let s2 := put_OwnerAssets
    (<[who := push_or_skip MaxAssetsPerOwner (owner_assets who s1) id]> s1.(OwnerAssets)) s1 in
  put_PendingOwnershipTransfer (delete id s2.(PendingOwnershipTransfer)) s2.

Lemma accept_ownership_run o id e e' :
  accept_ownership o id e = Ok (tt, e') →
  ∃ who a r w1, (store e).(RwaAssets) !! id = Some a ∧ o = Signed who ∧
    (store e).(PendingOwnershipTransfer) !! id = Some who ∧
    (a.(status) ∉ [Retired; Paused]) ∧
    Z.of_nat (length (owner_assets who (store e))) < MaxAssetsPerOwner ∧
    unreserve a.(owner) a.(registration_deposit) (world e) = (r, w1) ∧
    reserve who a.(registration_deposit) w1 = Ok (tt, world e') ∧
    store e' = owned_by who id a (store e).
Proof.
  unfold accept_ownership. intros H. rwa_inv. bool_facts. subst. minv.
  do 4 eexists. split_and!; eauto.
Qed.

Lemma cancel_ownership_transfer_run o id e e' :
  cancel_ownership_transfer o id e = Ok (tt, e') →
  ∃ a, (store e).(RwaAssets) !! id = Some a ∧ o = Signed a.(owner) ∧ world e' = world e ∧
    store e' = put_PendingOwnershipTransfer (delete id (store e).(PendingOwnershipTransfer)) (store e).
Proof. unfold cancel_ownership_transfer. intros H. rwa_inv. bool_facts. subst. eauto 10. Qed.

Lemma update_beneficiary_run o id b e e' :
  update_beneficiary o id b e = Ok (tt, e') →
  ∃ a, (store e).(RwaAssets) !! id = Some a ∧ acts_for_owner o a ∧ a.(status) ≠ Retired ∧
    world e' = world e ∧ store e' = insert_asset id (set_beneficiary b a) (store e).
Proof.
  unfold update_beneficiary. intros H. rwa_inv. bool_facts. simplify_eq. eauto 10.
Qed.

Lemma update_metadata_run o id m e e' :
  update_metadata o id m e = Ok (tt, e') →
  ∃ a, (store e).(RwaAssets) !! id = Some a ∧ acts_for_owner o a ∧ a.(status) ≠ Retired ∧
    Z.of_nat (length m) ≤ MaxMetadataLen ∧
    world e' = world e ∧ store e' = insert_asset id (set_metadata m a) (store e).
Proof. unfold update_metadata. intros H. rwa_inv. bool_facts. simplify_eq. eauto 10. Qed.
End asset_runs.

(** ** One lemma per dispatchable: participations *)

Section participation_runs.
Context {W : Type} `{!System W, !Currency W, !ReservableCurrency W, !Fungibles W}
  `{!ParticipationFilter W, !AssetLifecycleGuard W} {T : Config}.
Implicit Types (e : CEnv W) (s : State) (w : W) (a : AssetInfo) (p : Participation).


(** What entering costs: all into the escrow when the owner has yet to
    approve, the fee to the beneficiary at once otherwise. *)
Definition entry_paid (a : AssetInfo) (who : AccountId) (w w' : W) : Prop :=
  if a.(policy).(requires_approval) then
    pays (cur_of a) who pallet_account
      (saturating_add U128_MAX a.(policy).(deposit) a.(policy).(entry_fee)) w w'
  else ∃ w1,
    pays (cur_of a) who pallet_account a.(policy).(deposit) w w1 ∧
    pays (cur_of a) who a.(beneficiary) a.(policy).(entry_fee) w1 w'.

Definition first_status (a : AssetInfo) (now : BlockNumber) : ParticipationStatus :=
  if a.(policy).(requires_approval) then PendingApproval
  else ActiveSince now (expiry_from now a.(policy)).

Definition queue (id : Z) (l : list Z) (s : State) : State :=
  put_PendingApprovals (<[id := l]> s.(PendingApprovals)) s.

Definition entered (who : AccountId) (id : Z) (hs : list AccountId) (a : AssetInfo)
    (now : BlockNumber) (s : State) : State :=
  let pid := next_participation_id id s in
  inc_participant_count id (add_holder_indexes id pid hs
    (insert_participation id pid
      (mkParticipation id who hs (first_status a now) a.(policy).(deposit) a.(policy).(entry_fee))
      (put_NextParticipationId (<[id := pid + 1]> s.(NextParticipationId)) s))).

Definition requested (who : AccountId) (id : Z) (hs : list AccountId) (a : AssetInfo)
    (now : BlockNumber) (s : State) : State :=
  let s1 := entered who id hs a now s in
  if a.(policy).(requires_approval)
  then queue id (push_or_skip MaxPendingApprovals (pending_approvals id s1)
                   (next_participation_id id s)) s1
  else s1.

Lemma request_participation_run o id hs e e' :
  request_participation o id hs e = Ok (tt, e') →
  ∃ who a, o = Signed who ∧ (store e).(RwaAssets) !! id = Some a ∧ a.(status) = Active ∧
    hs ≠ [] ∧ Z.of_nat (length hs) ≤ MaxGroupSize ∧
    length (dedup (merge_sort Z.le hs)) = length hs ∧
    (∀ max, a.(policy).(max_participants) = Some max →
       saturating_add U32_MAX a.(participant_count) 1 ≤ max) ∧
    Forall (can_hold id (store e)) hs ∧ Forall (eligible id (world e)) hs ∧
    (a.(policy).(requires_approval) = true →
       Z.of_nat (length (pending_approvals id (store e))) < MaxPendingApprovals) ∧
    next_participation_id id (store e) + 1 ≤ U32_MAX ∧
    entry_paid a who (world e) (world e') ∧
    store e' = requested who id hs a (block_number (world e')) (store e).
Proof.
  unfold request_participation, entry_paid, requested, entered, first_status. intros H. rwa_inv.
  bool_facts.
  match goal with H : policy ?a = _ |- _ => idtac | Hx : RwaAssets _ !! _ = Some ?a |- _ =>
    exists x, a; destruct (requires_approval (policy a)) eqn:Hra end;
    repeat match goal with H : when _ _ _ = Ok _ |- _ =>
      apply when_ok in H as [[? H]|[? H]]; try done; rwa_inv end; bool_facts;
    split_and!; try done; intros; try (apply Z.leb_le; auto); eauto.
Qed.

Lemma approve_participation_run o id pid e e' :
  approve_participation o id pid e = Ok (tt, e') →
  ∃ a p, (store e).(RwaAssets) !! id = Some a ∧ acts_for_owner o a ∧ a.(status) = Active ∧
    (store e).(Participations) !! (id, pid) = Some p ∧ p.(pstatus) = PendingApproval ∧
    pays (cur_of a) pallet_account a.(beneficiary) p.(entry_fee_paid) (world e) (world e') ∧
    let now := block_number (world e') in
    store e' = remove_pending id pid
      (insert_participation id pid
        (set_pstatus (ActiveSince now (expiry_from now a.(policy))) p) (store e)).
Proof.
  unfold approve_participation. intros H. rwa_inv. bool_facts. simplify_eq.
  do 2 eexists. split_and!; eauto.
Qed.

Definition rejected (id pid : Z) (p : Participation) (s : State) : State :=
  unindexed id p.(holders) (put_Participations (delete (id, pid) s.(Participations)) s).

Lemma reject_participation_run o id pid e e' :
  reject_participation o id pid e = Ok (tt, e') →
  ∃ a p, (store e).(RwaAssets) !! id = Some a ∧ acts_for_owner o a ∧
    (store e).(Participations) !! (id, pid) = Some p ∧ p.(pstatus) = PendingApproval ∧
    pays (cur_of a) pallet_account p.(payer)
      (saturating_add U128_MAX p.(deposit_held) p.(entry_fee_paid)) (world e) (world e') ∧
    let s1 := remove_all_holder_indexes id p.(holders) (store e) in
    store e' = remove_pending id pid (dec_participant_count id
      (put_Participations (delete (id, pid) s1.(Participations)) s1)).
Proof.
  unfold reject_participation. intros H. rwa_inv. bool_facts. simplify_eq.
  do 2 eexists. split_and!; eauto.
Qed.

(** A participation is settled by its expiry, or still as it was. *)
Definition maybe_settled (id pid : Z) (a : AssetInfo) (p : Participation) e e' : Prop :=
  lapsed p (block_number (world e)) = true ∧
  pays (cur_of a) pallet_account p.(payer) p.(deposit_held) (world e) (world e') ∧
  store e' = settled id pid p (store e).

Lemma exit_participation_run o id pid e e' :
  exit_participation o id pid e = Ok (tt, e') →
  ∃ a p, (store e).(RwaAssets) !! id = Some a ∧
    (store e).(Participations) !! (id, pid) = Some p ∧ o = Signed p.(payer) ∧
    (maybe_settled id pid a p e e' ∨
     (lapsed p (block_number (world e)) = false ∧ is_active_p p.(pstatus) = true ∧
      pays (cur_of a) pallet_account p.(payer) p.(deposit_held) (world e) (world e') ∧
      store e' = end_participation Exited id pid p (store e))).
Proof.
  unfold exit_participation, maybe_settled. intros H. rwa_inv. bool_facts. subst.
  match goal with H : try_settle_expiry _ _ _ _ _ = _ |- _ =>
    apply try_settle_ok in H as [(Hl & -> & Hp & Hs)|(Hl & -> & ->)] end; rwa_inv.
  - do 2 eexists. split_and!; eauto.
  - do 2 eexists. split_and!; eauto 10.
Qed.

Lemma settle_expired_run o id pid e e' :
  settle_expired_participation o id pid e = Ok (tt, e') →
  ∃ a p, (store e).(RwaAssets) !! id = Some a ∧
    (store e).(Participations) !! (id, pid) = Some p ∧ maybe_settled id pid a p e e'.
Proof.
  unfold settle_expired_participation, maybe_settled. intros H. rwa_inv.
  match goal with H : try_settle_expiry _ _ _ _ _ = _ |- _ =>
    apply try_settle_ok in H as [(Hl & -> & Hp & Hs)|(Hl & -> & ->)] end; rwa_inv; [|done].
  do 2 eexists. split_and!; eauto.
Qed.

Lemma claim_retired_deposit_run o id pid e e' :
  claim_retired_deposit o id pid e = Ok (tt, e') →
  ∃ a p, (store e).(RwaAssets) !! id = Some a ∧ a.(status) = Retired ∧
    (store e).(Participations) !! (id, pid) = Some p ∧ is_live p.(pstatus) = true ∧
    pays (cur_of a) pallet_account p.(payer)
      (saturating_add U128_MAX p.(deposit_held)
        (if bool_decide (p.(pstatus) = PendingApproval) then p.(entry_fee_paid) else 0))
      (world e) (world e') ∧
    store e' = end_participation Exited id pid p (store e).
Proof.
  unfold claim_retired_deposit. intros H. rwa_inv. bool_facts. do 2 eexists. split_and!; eauto.
Qed.

(** The deposit of a settled participation is collected again. *)
Definition reentered (id pid : Z) (hs : list AccountId) (s : State) : State :=
  inc_participant_count id (add_holder_indexes id pid hs s).

Lemma reenter_ok who id pid a p e p' e' :
  reenter who id pid a p e = Ok (p', e') →
  pays (cur_of a) who pallet_account a.(policy).(deposit) (world e) (world e') ∧
  Forall (can_hold id (store e)) p.(holders) ∧
  p' = set_deposit_held a.(policy).(deposit) p ∧
  store e' = reentered id pid p.(holders) (store e).
Proof.
  unfold reenter. intros H. rwa_inv.
  match goal with H : for_each (holders p) _ _ = Ok _, H' : for_each (holders p) _ _ = Ok _ |- _ =>
    apply (for_each_checks (λ h e, (store e).(HolderIndex) !! (id, h) = None)) in H as [H1 ->];
    [apply (for_each_checks (λ h e, Z.of_nat (length (holder_assets h (store e)))
       < MaxParticipationsPerHolder)) in H' as [H2 ->]|] end; simpl in *.
  - split_and!; try done. rewrite Forall_forall in *. intros h Hh. split; auto.
  - intros h e0 [] e1. rewrite bind_ok. setoid_rewrite reads_ok. setoid_rewrite ensure_ok.
    setoid_rewrite Z.ltb_lt. naive_solver.
  - intros h e0 [] e1. rewrite bind_ok. setoid_rewrite reads_ok. setoid_rewrite ensure_ok.
    setoid_rewrite bool_decide_eq_true. naive_solver.
Qed.

(** A renewal starts from the participation as it is, or as its expiry leaves it. *)
Definition renewal_base (id pid : Z) (a : AssetInfo) (p : Participation) (e e1 : CEnv W)
    (p1 : Participation) : Prop :=
  (lapsed p (block_number (world e)) = false ∧ e1 = e ∧ p1 = p) ∨
  (maybe_settled id pid a p e e1 ∧ p1 = close Expired p).

Lemma renew_participation_run o id pid e e' :
  renew_participation o id pid e = Ok (tt, e') →
  ∃ a p e1 p1 w2, (store e).(RwaAssets) !! id = Some a ∧ a.(status) = Active ∧
    (store e).(Participations) !! (id, pid) = Some p ∧ o = Signed p.(payer) ∧
    renewal_base id pid a p e e1 p1 ∧
    Forall (eligible id w2) p1.(holders) ∧
    pays (cur_of a) p.(payer) a.(beneficiary) a.(policy).(entry_fee) w2 (world e') ∧
    let now := block_number (world e') in
    let st := ActiveSince now (expiry_from now a.(policy)) in
    ((is_active_p p1.(pstatus) = true ∧ w2 = world e1 ∧
      store e' = insert_participation id pid (set_pstatus st p1) (store e1)) ∨
     (p1.(pstatus) = Expired ∧
      pays (cur_of a) p.(payer) pallet_account a.(policy).(deposit) (world e1) w2 ∧
      Forall (can_hold id (store e1)) p1.(holders) ∧
      store e' = insert_participation id pid
        (set_pstatus st (set_deposit_held a.(policy).(deposit) p1))
        (reentered id pid p1.(holders) (store e1)))).
Proof.
  unfold renew_participation. intros H. rwa_inv. bool_facts. subst.
  match goal with H : try_settle_expiry _ _ ?p ?a ?e = Ok (_, ?e1),
      Hr : Participations (store ?e1) !! _ = Some ?p1 |- _ =>
    assert (renewal_base id pid a p e e1 p1) as Hb;
    [apply try_settle_ok in H as [(Hl & _ & Hp & Hs)|(Hl & _ & ->)];
     [right; unfold maybe_settled; rewrite Hs in Hr; unfold settled in Hr; simpl in Hr;
      rewrite lookup_insert_eq in Hr; by injection Hr as <-|left; by simplify_eq]|clear H];
    destruct (pstatus p1) eqn:Hst
  end; rwa_inv.
  - do 5 eexists. split_and!; eauto. left. by rewrite Hst.
  - match goal with H : reenter _ _ _ _ _ _ = _ |- _ => apply reenter_ok in H as (Hd & Hc & -> & Hs) end.
    do 5 eexists. split_and!; eauto. right. split_and!; eauto. by rewrite Hs.
Qed.

(** The guard shared by the calls on an active participation. *)
Definition running (id pid : Z) (e : CEnv W) (a : AssetInfo) (p : Participation) : Prop :=
  (store e).(RwaAssets) !! id = Some a ∧ (store e).(Participations) !! (id, pid) = Some p ∧
  lapsed p (block_number (world e)) = false ∧ is_active_p p.(pstatus) = true.

Lemma add_holder_run o id pid h e e' :
  add_holder o id pid h e = Ok (tt, e') →
  ∃ a p, running id pid e a p ∧ o = Signed p.(payer) ∧ (h ∉ p.(holders)) ∧
    can_hold id (store e) h ∧ eligible id (world e) h ∧
    Z.of_nat (length p.(holders)) < MaxGroupSize ∧ world e' = world e ∧
    store e' = insert_participation id pid (set_holders (p.(holders) ++ [h]) p)
      (add_holder_indexes id pid [h] (store e)).
Proof.
  unfold add_holder, running, contains. intros H. rwa_inv. bool_facts. subst.
  match goal with H : try_settle_expiry_inner _ _ _ _ _ = _ |- _ =>
    apply try_settle_inner_ok in H as [(Hl & -> & _)|(Hl & -> & ->)] end; [done|].
  rwa_inv. do 2 eexists. split_and!; eauto.
Qed.

(** A holder leaves; the last one out ends the participation. *)
Definition dropped (id pid : Z) (a : AssetInfo) (p : Participation) (h : AccountId)
    (e e' : CEnv W) : Prop :=
  let p' := set_holders (remove_first h p.(holders)) p in
  let s1 := remove_single_holder_index id h (store e) in
  (p'.(holders) = [] ∧
   pays (cur_of a) pallet_account p.(payer) p.(deposit_held) (world e) (world e') ∧
   store e' = insert_participation id pid (close Exited p') (dec_participant_count id s1)) ∨
  (p'.(holders) ≠ [] ∧ world e' = world e ∧ store e' = insert_participation id pid p' s1).

Lemma drop_holder_ok id pid a p h ev e e' :
  drop_holder id pid a p h ev e = Ok (tt, e') → dropped id pid a p h e e'.
Proof.
  unfold drop_holder, dropped. intros H. rwa_inv.
  destruct (bool_decide _) eqn:Hb; bool_facts; rwa_inv; [left|right]; done.
Qed.

Lemma remove_holder_run o id pid h e e' :
  remove_holder o id pid h e = Ok (tt, e') →
  ∃ a p, running id pid e a p ∧ o = Signed p.(payer) ∧ h ∈ p.(holders) ∧ dropped id pid a p h e e'.
Proof.
  unfold remove_holder, running, contains. intros H. rwa_inv. bool_facts. subst.
  match goal with H : try_settle_expiry _ _ _ _ _ = _ |- _ =>
    apply try_settle_ok in H as [(Hl & -> & _)|(Hl & -> & ->)] end; [done|].
  do 2 eexists. split_and!; eauto using drop_holder_ok.
Qed.

Lemma leave_participation_run o id pid e e' :
  leave_participation o id pid e = Ok (tt, e') →
  ∃ a p h, running id pid e a p ∧ o = Signed h ∧ h ∈ p.(holders) ∧ dropped id pid a p h e e'.
Proof.
  unfold leave_participation, running, contains. intros H. rwa_inv. bool_facts. subst.
  match goal with H : try_settle_expiry _ _ _ _ _ = _ |- _ =>
    apply try_settle_ok in H as [(Hl & -> & _)|(Hl & -> & ->)] end; [done|].
  do 3 eexists. split_and!; eauto using drop_holder_ok.
Qed.

Lemma revoke_participation_run o id pid e e' :
  revoke_participation o id pid e = Ok (tt, e') →
  ∃ a p, running id pid e a p ∧ AdminOrigin o = true ∧
    pays (cur_of a) pallet_account p.(payer) p.(deposit_held) (world e) (world e') ∧
    store e' = end_participation Revoked id pid p (store e).
Proof.
  unfold revoke_participation, running. intros H. rwa_inv.
  match goal with H : try_settle_expiry _ _ _ _ _ = _ |- _ =>
    apply try_settle_ok in H as [(Hl & -> & _)|(Hl & -> & ->)] end; [done|].
  rwa_inv. do 2 eexists. split_and!; eauto.
Qed.

Lemma transfer_participation_run o id pid n e e' :
  transfer_participation o id pid n e = Ok (tt, e') →
  ∃ a p, running id pid e a p ∧ a.(status) = Active ∧ o = Signed p.(payer) ∧ n ≠ p.(payer) ∧
    world e' = world e ∧ store e' = insert_participation id pid (set_payer n p) (store e).
Proof.
  unfold transfer_participation, running. intros H. rwa_inv. bool_facts. subst.
  match goal with H : try_settle_expiry_inner _ _ _ _ _ = _ |- _ =>
    apply try_settle_inner_ok in H as [(Hl & -> & _)|(Hl & -> & ->)] end; [done|].
  rwa_inv. do 2 eexists. split_and!; eauto.
Qed.

(** ** Slashing *)

(** What one recipient of a slash gets. *)
Definition share_of (total distributed : Balance) (r : SlashRecipient) (rest : list SlashRecipient)
    : Balance :=
  match rest with
  | [] => saturating_sub total distributed
  | _ => permill_mul r.(share) total
  end.

Definition slash_paid (cur : PaymentCurrency) (b : AccountId) (rep : option AccountId)
    (r : SlashRecipient) (amount : Balance) (w w' : W) : Prop :=
  match slash_dest b rep r.(kind) with
  | Some dest => pays cur pallet_account dest amount w w'
  | None => burns cur pallet_account amount w w'
  end.

Fixpoint shares_paid (cur : PaymentCurrency) (total : Balance) (b : AccountId)
    (rep : option AccountId) (d : list SlashRecipient) (distributed : Balance) (w w' : W) : Prop :=
  match d with
  | [] => w' = w
  | r :: d' =>
      let amount := share_of total distributed r d' in
      ∃ w1, slash_paid cur b rep r amount w w1 ∧
        shares_paid cur total b rep d' (if amount =? 0 then distributed
          else saturating_add U128_MAX distributed amount) w1 w'
  end.

Lemma distribute_shares_ok cur total b rep d dd e e' :
  distribute_shares cur total b rep d dd e = Ok (tt, e') →
  store e' = store e ∧ shares_paid cur total b rep d dd (world e) (world e').
Proof.
  revert dd e. induction d as [|r d IH]; intros dd e H; [by rwa_inv|]. cbn [shares_paid].
  cbn [distribute_shares] in H. fold (share_of total dd r d) in H. unfold slash_paid.
  destruct (share_of total dd r d =? 0) eqn:Hz.
  - apply IH in H as [Hs Hp]. split; [done|]. exists (world e). split; [|done].
    unfold pays, burns. rewrite Hz. by destruct (slash_dest _ _ _).
  - destruct (slash_dest b rep r.(kind)); rwa_inv;
      match goal with H : distribute_shares _ _ _ _ _ _ _ = _ |- _ => apply IH in H as [Hs Hp] end;
      simpl in *; eauto.
Qed.

Definition slash_distributed (id : Z) (a : AssetInfo) (amount : Balance) (rep : option AccountId)
    (s : State) (w w' : W) : Prop :=
  match s.(AssetSlashDistribution) !! id with
  | Some ((_ :: _) as d) => shares_paid (cur_of a) amount a.(beneficiary) rep d 0 w w'
  | _ => pays (cur_of a) pallet_account a.(beneficiary) amount w w'
  end.

Lemma do_distribute_slash_ok id a amount rep e e' :
  do_distribute_slash (cur_of a) amount id a.(beneficiary) rep e = Ok (tt, e') →
  store e' = store e ∧ slash_distributed id a amount rep (store e) (world e) (world e').
Proof.
  unfold do_distribute_slash, slash_distributed. intros H. einv.
  destruct (AssetSlashDistribution (store e) !! id) as [[|r d]|].
  - by rwa_steps.
  - by apply distribute_shares_ok.
  - by rwa_steps.
Qed.

Lemma slash_participation_run o id pid amount rep e e' :
  slash_participation o id pid amount rep e = Ok (tt, e') →
  ∃ a p w1, running id pid e a p ∧ AdminOrigin o = true ∧
    can_slash_participation id pid (world e) = Ok tt ∧ amount ≤ p.(deposit_held) ∧
    slash_distributed id a amount rep (store e) (world e) w1 ∧
    pays (cur_of a) pallet_account p.(payer) (saturating_sub p.(deposit_held) amount) w1 (world e') ∧
    store e' = end_participation Slashed id pid p (store e).
Proof.
  unfold slash_participation, running. intros H. rwa_inv.
  match goal with H : try_settle_expiry _ _ _ _ _ = _ |- _ =>
    apply try_settle_ok in H as [(Hl & -> & _)|(Hl & -> & ->)] end; [done|].
  simpl in *. bool_facts.
  match goal with H : map_err _ ?r = Ok _ |- _ =>
    destruct r as [[]|] eqn:?; simpl in H; [|done] end.
  match goal with H : do_distribute_slash _ _ _ _ _ _ = _ |- _ =>
    apply do_distribute_slash_ok in H as [Hs Hp] end. rwa_inv.
  do 3 eexists. split_and!; eauto. by rewrite Hs.
Qed.

(** ** The loop over the approval queue *)

(** One turn: an entry without a participation is forgotten, an entry whose
    refund fails is kept, and the others are refunded and go. *)
Definition reject_turn (id pid : Z) (a : AssetInfo) (e : CEnv W) (n : Z) (kept : list Z)
    (e1 : CEnv W) (n1 : Z) (kept1 : list Z) : Prop :=
  ((store e).(Participations) !! (id, pid) = None ∧ e1 = e ∧ n1 = n ∧ kept1 = kept) ∨
  (∃ p, (store e).(Participations) !! (id, pid) = Some p ∧ e1 = e ∧ n1 = n ∧ kept1 = kept ++ [pid]) ∨
  (∃ p, (store e).(Participations) !! (id, pid) = Some p ∧ p.(pstatus) = PendingApproval ∧
    pays (cur_of a) pallet_account p.(payer)
      (saturating_add U128_MAX p.(deposit_held) p.(entry_fee_paid)) (world e) (world e1) ∧
    store e1 = rejected id pid p (store e) ∧ n1 = n + 1 ∧ kept1 = kept).

Lemma reject_each_cons_ok id a pid l n kept e r e' :
  reject_each id a (pid :: l) n kept e = Ok (r, e') →
  ∃ e1 n1 kept1, reject_turn id pid a e n kept e1 n1 kept1 ∧
    reject_each id a l n1 kept1 e1 = Ok (r, e').
Proof.
  cbn [reject_each]. unfold reject_turn, attempt. intros H. einv.
  destruct (Participations (store e) !! (id, pid)) as [p|] eqn:Hp; [|by eauto 10].
  destruct (negb _) eqn:Hst; [by eauto 15|]. bool_facts. einv.
  match goal with H : match do_transfer ?c ?f ?t ?v ?e0 with _ => _ end = Ok _ |- _ =>
    destruct (do_transfer c f t v e0) as [[[] e1]|] eqn:Ht end; einv; [|by eauto 15].
  apply rwa_transfer_ok in Ht as (w1 & Hw & ->). simpl in *.
  do 3 eexists. split; [|eassumption]. right. right. exists p. by split_and!.
Qed.

Lemma batch_reject_pending_run o id e e' :
  batch_reject_pending o id e = Ok (tt, e') →
  ∃ a n kept e1, (store e).(RwaAssets) !! id = Some a ∧ acts_for_owner o a ∧
    reject_each id a (pending_approvals id (store e)) 0 [] e = Ok ((n, kept), e1) ∧
    world e' = world e1 ∧
    store e' = put_PendingApprovals
      (if bool_decide (kept = []) then delete id (store e1).(PendingApprovals)
       else <[id := kept]> (store e1).(PendingApprovals)) (store e1).
Proof.
  unfold batch_reject_pending. intros H. rwa_inv. simplify_eq.
  match goal with r : Z * list Z |- _ => destruct r as [n kept] end.
  do 4 eexists. split_and!; eauto.
Qed.

(** ** The hook that retires assets *)

Definition retire_turn (id : Z) (e e' : CEnv W) : Prop :=
  match (store e).(RwaAssets) !! id with
  | Some a =>
      if bool_decide (a.(status) = Retired) then e' = e
      else ∃ r, unreserve a.(owner) a.(registration_deposit) (world e) = (r, world e') ∧
        store e' = clear_asset a.(owner) id (insert_asset id (set_status Retired a) (store e))
  | None => e' = e
  end.

Fixpoint retire_turns (ids : list Z) (e e' : CEnv W) : Prop :=
  match ids with
  | [] => e' = e
  | id :: ids' => ∃ e1, retire_turn id e e1 ∧ retire_turns ids' e1 e'
  end.

Lemma on_initialize_run n e e' :
  on_initialize n e = Ok (tt, e') →
  retire_turns (sunsetting_assets n (store e))
    (mkEnv (put_SunsettingAssets (delete n (store e).(SunsettingAssets)) (store e)) (world e) (events e))
    e'.
Proof.
  unfold on_initialize. intros H. einv. simpl in *.
  revert H. generalize (mkEnv (put_SunsettingAssets (delete n (store e).(SunsettingAssets)) (store e))
    (world e) (events e)).
  induction (sunsetting_assets n (store e)) as [|id l IH]; intros e1 H.
  - by apply for_each_nil_ok in H.
  - apply for_each_cons_ok in H as (e2 & Ht & Hl). exists e2. split; [|by apply IH].
    unfold retire_turn. einv. destruct (RwaAssets _ !! id) as [a|]; [|by einv].
    destruct (bool_decide _); rwa_inv; [done|]. eauto.
Qed.
End participation_runs.
