(* ===== verification/RwaInv.v ===== *)
(** * pallet-rwa: the invariant of the storage

    The tables fall into two groups that meet in the asset records: the
    registry of assets (owner, status, the owners' lists, the sunset schedule,
    proposed transfers, slash distributions) reads the owner and the status of
    a record, and the participations (records, holder indexes, approval queues)
    its participant count.  Each group has an invariant of its own, framed over
    the operations of the other. *)

From S2P Require Import Prelude Arith Errors Frame Rwa RwaSpec.

(** ** The registry *)

(** What the registry reads of an asset. *)
Definition asset_view (s : State) (id : Z) : option (AccountId * AssetStatus) :=
  (λ a, (a.(owner), a.(status))) <$> s.(RwaAssets) !! id.

(** A slash distribution hands out everything. *)
Definition dist_wf {T : Config} (d : list SlashRecipient) : Prop :=
  Forall (λ r, 0 ≤ r.(share) ≤ PERMILL_ACCURACY) d ∧
  foldr (λ r acc, r.(share) + acc) 0 d = PERMILL_ACCURACY ∧
  Z.of_nat (length d) ≤ MaxSlashRecipients.

Record registry_inv {T : Config} (s : State) : Prop := {
  ri_next : 0 ≤ s.(NextRwaAssetId) ≤ U32_MAX;
  ri_id : ∀ id, is_Some (asset_view s id) → 0 ≤ id < s.(NextRwaAssetId);
  ri_owner : ∀ who id, id ∈ owner_assets who s ↔
    ∃ st, asset_view s id = Some (who, st) ∧ st ≠ Retired;
  ri_owner_nodup : ∀ who, NoDup (owner_assets who s);
  ri_sunset : ∀ b id, id ∈ sunsetting_assets b s ↔
    ∃ o, asset_view s id = Some (o, Sunsetting b);
  ri_sunset_nodup : ∀ b, NoDup (sunsetting_assets b s);
  ri_transfer : ∀ id n, s.(PendingOwnershipTransfer) !! id = Some n →
    ∃ o st, asset_view s id = Some (o, st) ∧ o ≠ n ∧ st ≠ Retired;
  ri_slash : ∀ id d, s.(AssetSlashDistribution) !! id = Some d → dist_wf d;
}.

(** ** The participations *)

(** What the participations read of an asset. *)
Definition count_view (s : State) (id : Z) : option Z :=
  participant_count <$> s.(RwaAssets) !! id.

Record participation_wf (id : Z) (p : Participation) : Prop := {
  pw_asset : p.(rwa_asset_id) = id;
  pw_holders : NoDup p.(holders);
  pw_members : p.(pstatus) ≠ Exited → p.(holders) ≠ [];
  pw_closed : is_live p.(pstatus) = false → p.(deposit_held) = 0;
}.

Record parts_inv {T : Config} (s : State) : Prop := {
  pi_wf : ∀ id pid p, s.(Participations) !! (id, pid) = Some p →
    is_Some (count_view s id) ∧ 0 ≤ pid < next_participation_id id s ∧ participation_wf id p;
  pi_next : ∀ id, 0 ≤ next_participation_id id s ≤ U32_MAX;
  pi_count : ∀ id c, count_view s id = Some c → c = live_participations id s;
  pi_index : ∀ id h pid, s.(HolderIndex) !! (id, h) = Some pid ↔
    ∃ p, s.(Participations) !! (id, pid) = Some p ∧ is_live p.(pstatus) = true ∧ h ∈ p.(holders);
  pi_assets : ∀ h id, id ∈ holder_assets h s ↔ is_Some (s.(HolderIndex) !! (id, h));
  pi_assets_nodup : ∀ h, NoDup (holder_assets h s);
  pi_pending : ∀ id pid, pid ∈ pending_approvals id s →
    ∃ p, s.(Participations) !! (id, pid) = Some p ∧ p.(pstatus) = PendingApproval;
  pi_pending_nodup : ∀ id, NoDup (pending_approvals id s);
  pi_pending_len : ∀ id,
    Z.of_nat (length (pending_approvals id s)) ≤ Z.max 0 MaxPendingApprovals;
}.

(** ** Frames *)

(** [s'] has the registry of [s]. *)
Record same_registry (s s' : State) : Prop := {
  sr_view : ∀ id, asset_view s' id = asset_view s id;
  sr_next : s'.(NextRwaAssetId) = s.(NextRwaAssetId);
  sr_owner : ∀ who, owner_assets who s' = owner_assets who s;
  sr_sunset : ∀ b, sunsetting_assets b s' = sunsetting_assets b s;
  sr_transfer : s'.(PendingOwnershipTransfer) = s.(PendingOwnershipTransfer);
  sr_slash : s'.(AssetSlashDistribution) = s.(AssetSlashDistribution);
}.

(** [s'] has the participations of [s]; an asset may be new. *)
Record same_parts (s s' : State) : Prop := {
  sp_count : ∀ id, count_view s' id = count_view s id ∨
    (count_view s id = None ∧ count_view s' id = Some 0);
  sp_parts : s'.(Participations) = s.(Participations);
  sp_next : s'.(NextParticipationId) = s.(NextParticipationId);
  sp_index : s'.(HolderIndex) = s.(HolderIndex);
  sp_assets : s'.(HolderAssets) = s.(HolderAssets);
  sp_pending : ∀ id, pending_approvals id s' = pending_approvals id s ∨ pending_approvals id s' = [];
}.

Section frames.
Context {T : Config}.
Implicit Types (s : State) (a : AssetInfo) (p : Participation).

Lemma registry_frame s s' : registry_inv s → same_registry s s' → registry_inv s'.
Proof.
  intros [Hn Hid Ho Hon Hs Hsn Ht Hd] [Hv Hn' Ho' Hs' Ht' Hd'].
  split; intros; rewrite ?Hn', ?Ho', ?Hs' in *; auto.
  - apply Hid. by rewrite <- Hv.
  - setoid_rewrite Hv. auto.
  - setoid_rewrite Hv. auto.
  - setoid_rewrite Hv. apply Ht. congruence.
  - apply (Hd id). congruence.
Qed.

Lemma live_participations_agree id s s' :
  (∀ pid, s'.(Participations) !! (id, pid) = s.(Participations) !! (id, pid)) →
  live_participations id s' = live_participations id s.
Proof. apply prefix_sum_agree. Qed.

Lemma parts_frame s s' : parts_inv s → same_parts s s' → parts_inv s'.
Proof.
  intros [Hw Hn Hc Hi Ha Han Hp Hpn Hpl] [Hc' Hp' Hn' Hi' Ha' Hq'].
  assert (∀ id, next_participation_id id s' = next_participation_id id s) as Hnn
    by (intros; unfold next_participation_id; by rewrite Hn').
  assert (∀ h, holder_assets h s' = holder_assets h s) as Hha
    by (intros; unfold holder_assets; by rewrite Ha').
  split; intros; rewrite ?Hp', ?Hi', ?Hnn, ?Hha in *; auto.
  - destruct (Hw id pid p) as ([c Hcv] & Hpid & Hwf); [done|]. split_and!; try done; try lia.
    destruct (Hc' id) as [->|[? _]]; [by exists c|congruence].
  - rewrite (live_participations_agree id s s') by (intros; by rewrite Hp').
    destruct (Hc' id) as [Heq|[Hnone Hz]]; [apply Hc; congruence|].
    assert (c = 0) as -> by congruence. symmetry. apply prefix_sum_none. intros pid.
    destruct (Participations s !! (id, pid)) as [p|] eqn:E; [|done].
    destruct (Hw id pid p E) as ([? ?] & _). congruence.
  - destruct (Hq' id) as [Hq|Hq]; rewrite Hq in *; [auto|set_solver].
  - destruct (Hq' id) as [->| ->]; [auto|constructor].
  - destruct (Hq' id) as [->| ->]; [auto|simpl; lia].
Qed.

Lemma same_registry_refl s : same_registry s s.
Proof. by split. Qed.
Lemma same_parts_refl s : same_parts s s.
Proof. by split; auto. Qed.
End frames.

(** ** Changes of one asset *)

(** A list of assets of which only the place of [id] changes. *)
Record relisted (id : Z) (l l' : list Z) (listed : Prop) : Prop := {
  rl_nodup : NoDup l → NoDup l';
  rl_other : ∀ j, j ≠ id → (j ∈ l' ↔ j ∈ l);
  rl_this : NoDup l → (id ∈ l' ↔ listed);
}.

Lemma relisted_same id l (P : Prop) : (id ∈ l ↔ P) → relisted id l l P.
Proof. by split. Qed.

Lemma relisted_push id l bound (P : Prop) :
  id ∉ l → Z.of_nat (length l) < bound → P → relisted id l (push_or_skip bound l id) P.
Proof.
  intros Hid Hlen HP. unfold push_or_skip. rewrite (proj2 (try_push_Some bound l id (l ++ [id]))) by done.
  simpl. split.
  - intros Hl. by auto with vec.
  - set_solver.
  - set_solver.
Qed.

Lemma relisted_remove id l (P : Prop) : ¬ P → relisted id l (remove_first id l) P.
Proof.
  intros HP. split.
  - apply NoDup_remove_first.
  - intros j Hj. by apply elem_of_remove_first.
  - intros Hl. split; [|done]. intros Hin. by apply (notin_remove_first id l) in Hl.
Qed.

(** The registry of [s'] differs from that of [s] in the asset [id] only, which
    becomes [new]. *)
Record asset_change {T : Config} (id : Z) (new : option (AccountId * AssetStatus)) (s s' : State)
    : Prop := {
  ac_other : ∀ j, j ≠ id → asset_view s' j = asset_view s j;
  ac_this : asset_view s' id = new;
  ac_next : s.(NextRwaAssetId) ≤ s'.(NextRwaAssetId) ≤ U32_MAX;
  ac_id : is_Some new → 0 ≤ id < s'.(NextRwaAssetId);
  ac_owner : ∀ who, relisted id (owner_assets who s) (owner_assets who s')
    (∃ st, new = Some (who, st) ∧ st ≠ Retired);
  ac_sunset : ∀ b, relisted id (sunsetting_assets b s) (sunsetting_assets b s')
    (∃ o, new = Some (o, Sunsetting b));
  ac_transfer : ∀ j n, s'.(PendingOwnershipTransfer) !! j = Some n →
    (j ≠ id ∧ s.(PendingOwnershipTransfer) !! j = Some n) ∨
    (j = id ∧ ∃ o st, new = Some (o, st) ∧ o ≠ n ∧ st ≠ Retired);
  ac_slash : ∀ j d, s'.(AssetSlashDistribution) !! j = Some d →
    s.(AssetSlashDistribution) !! j = Some d ∨ dist_wf d;
}.

Section registry.
Context {T : Config}.
Implicit Types (s : State) (a : AssetInfo) (p : Participation).

Lemma registry_change id new s s' :
  registry_inv s → asset_change id new s s' → registry_inv s'.
Proof.
  intros [Hn Hid Ho Hon Hs Hsn Ht Hd] [Hv Hv' Hn' Hid' Ho' Hs' Ht' Hd']. split.
  - lia.
  - intros j Hj. destruct (decide (j = id)) as [->|Hne]; [apply Hid'; by rewrite <- Hv'|].
    rewrite Hv in Hj by done. specialize (Hid j Hj). lia.
  - intros who j. destruct (Ho' who) as [_ Hoth Hthis]. destruct (decide (j = id)) as [->|Hne].
    + rewrite Hv'. auto.
    + rewrite Hoth, Hv by done. auto.
  - intros who. apply (Ho' who), Hon.
  - intros b j. destruct (Hs' b) as [_ Hoth Hthis]. destruct (decide (j = id)) as [->|Hne].
    + rewrite Hv'. auto.
    + rewrite Hoth, Hv by done. auto.
  - intros b. apply (Hs' b), Hsn.
  - intros j n Hj. destruct (Ht' j n Hj) as [[Hne Hx]|[-> Hx]].
    + rewrite Hv by done. auto.
    + by rewrite Hv'.
  - intros j d Hj. destruct (Hd' j d Hj); eauto.
Qed.

Lemma asset_view_Some s id a :
  s.(RwaAssets) !! id = Some a → asset_view s id = Some (a.(owner), a.(status)).
Proof. intros Ha. unfold asset_view. by rewrite Ha. Qed.

Lemma view_insert id a s j :
  asset_view (insert_asset id a s) j =
  if decide (j = id) then Some (a.(owner), a.(status)) else asset_view s j.
Proof.
  unfold asset_view. simpl. destruct (decide (j = id)) as [->|Hne].
  - by rewrite lookup_insert_eq.
  - by rewrite lookup_insert_ne.
Qed.

(** The record of an asset changes in fields the registry does not read. *)
Lemma registry_record id a a' s :
  registry_inv s → s.(RwaAssets) !! id = Some a →
  a'.(owner) = a.(owner) → a'.(status) = a.(status) → registry_inv (insert_asset id a' s).
Proof.
  intros Hr Ha Ho Hs. eapply registry_frame; [exact Hr|]. split; try done.
  intros j. rewrite view_insert. destruct (decide (j = id)) as [->|]; [|done].
  rewrite Ho, Hs. symmetry. by apply asset_view_Some.
Qed.

(** Changes between the statuses that no list depends on. *)
Definition plain_status (st : AssetStatus) : bool :=
  match st with Active | Inactive | Paused => true | _ => false end.

Lemma registry_status id a st s :
  registry_inv s → s.(RwaAssets) !! id = Some a →
  plain_status a.(status) = true → plain_status st = true →
  registry_inv (insert_asset id (set_status st a) s).
Proof.
  intros Hr Ha Hp Hp'. pose proof (asset_view_Some _ _ _ Ha) as Hv.
  eapply (registry_change id (Some (a.(owner), st))); [exact Hr|]. split.
  - intros j Hj. rewrite view_insert. by rewrite decide_False.
  - rewrite view_insert. by rewrite decide_True.
  - simpl. pose proof (ri_next _ Hr). lia.
  - intros _. apply (ri_id _ Hr). by rewrite Hv.
  - intros who. apply relisted_same. setoid_rewrite (ri_owner _ Hr). rewrite Hv.
    by destruct a.(status), st; naive_solver.
  - intros b. apply relisted_same. setoid_rewrite (ri_sunset _ Hr). rewrite Hv.
    destruct a.(status), st; naive_solver.
  - intros j n Hj. destruct (decide (j = id)) as [->|]; [right|by left]. split; [done|].
    destruct (ri_transfer _ Hr _ _ Hj) as (o & st' & Hx & Hne & _). rewrite Hv in Hx.
    injection Hx as <- <-. exists a.(owner), st. by destruct st.
  - auto.
Qed.

Lemma next_id_fresh s : registry_inv s → s.(RwaAssets) !! s.(NextRwaAssetId) = None.
Proof.
  intros Hr. destruct (_ !! _) as [a|] eqn:Ha; [|done]. apply asset_view_Some in Ha.
  pose proof (ri_id _ Hr s.(NextRwaAssetId) ltac:(by rewrite Ha)). lia.
Qed.

Lemma unlisted_owner s id who :
  registry_inv s → asset_view s id = None → id ∉ owner_assets who s.
Proof. intros Hr Hv. rewrite (ri_owner _ Hr), Hv. naive_solver. Qed.

Lemma unlisted_sunset s id b :
  registry_inv s → (∀ o, asset_view s id ≠ Some (o, Sunsetting b)) → id ∉ sunsetting_assets b s.
Proof. intros Hr Hv. rewrite (ri_sunset _ Hr). naive_solver. Qed.

Lemma registry_registered who b pol m now s :
  registry_inv s → Z.of_nat (length (owner_assets who s)) < MaxAssetsPerOwner →
  s.(NextRwaAssetId) + 1 ≤ U32_MAX → registry_inv (registered who b pol m now s).
Proof.
  intros Hr Hlen Hn. pose proof (next_id_fresh _ Hr) as Hf. pose proof (ri_next _ Hr).
  set (id := s.(NextRwaAssetId)) in *.
  assert (asset_view s id = None) as Hv by (unfold asset_view; by rewrite Hf).
  eapply (registry_change id (Some (who, Active))); [exact Hr|]. split.
  - intros j Hj. unfold asset_view, registered. simpl. by rewrite lookup_insert_ne.
  - unfold asset_view, registered. simpl. by rewrite lookup_insert_eq.
  - simpl. lia.
  - simpl. intros _. lia.
  - intros x. unfold registered, owner_assets at 2. simpl.
    destruct (decide (x = who)) as [->|Hx].
    + rewrite lookup_insert_eq. simpl. apply relisted_push; [by apply unlisted_owner|done|].
      by exists Active.
    + rewrite lookup_insert_ne by done. apply relisted_same. fold (owner_assets x s).
      split; [intros Hin; by destruct (unlisted_owner s id x Hr Hv)|naive_solver].
  - intros x. apply relisted_same. fold (sunsetting_assets x s).
    split; [|by intros (? & [=])]. intros Hin. by destruct (unlisted_sunset s id x Hr ltac:(by rewrite Hv)).
  - intros j n Hj. left. split; [|done]. intros ->.
    destruct (ri_transfer _ Hr _ _ Hj) as (? & ? & Hx & _). by rewrite Hv in Hx.
  - auto.
Qed.

Lemma registry_sunset id b a s :
  registry_inv s → s.(RwaAssets) !! id = Some a → plain_status a.(status) = true →
  Z.of_nat (length (sunsetting_assets b s)) < MaxSunsettingPerBlock →
  registry_inv (sunset id b a s).
Proof.
  intros Hr Ha Hp Hlen. pose proof (asset_view_Some _ _ _ Ha) as Hv.
  assert (∀ x o, asset_view s id ≠ Some (o, Sunsetting x)) as Hns
    by (intros x o; rewrite Hv; intros [= _ Hx]; by rewrite Hx in Hp).
  eapply (registry_change id (Some (a.(owner), Sunsetting b))); [exact Hr|]. split.
  - intros j Hj. unfold asset_view, sunset. simpl. by rewrite lookup_insert_ne.
  - unfold asset_view, sunset. simpl. by rewrite lookup_insert_eq.
  - simpl. pose proof (ri_next _ Hr). lia.
  - intros _. apply (ri_id _ Hr). by rewrite Hv.
  - intros who. apply relisted_same. setoid_rewrite (ri_owner _ Hr). rewrite Hv.
    destruct a.(status); naive_solver.
  - intros x. unfold sunset, sunsetting_assets at 2. simpl.
    destruct (decide (x = b)) as [->|Hx].
    + rewrite lookup_insert_eq. simpl. apply relisted_push; [by apply unlisted_sunset|done|].
      by eexists.
    + rewrite lookup_insert_ne by done. apply relisted_same. fold (sunsetting_assets x s).
      split; [intros Hin; by destruct (unlisted_sunset s id x Hr (Hns x))|naive_solver].
  - intros j n Hj. destruct (decide (j = id)) as [->|]; [right|by left]. split; [done|].
    destruct (ri_transfer _ Hr _ _ Hj) as (o & st' & Hx & Hne & _). rewrite Hv in Hx.
    injection Hx as <- <-. by exists a.(owner), (Sunsetting b).
  - auto.
Qed.

(** *** Retirement *)

Lemma relisted_equiv id l l' (P Q : Prop) : (P ↔ Q) → relisted id l l' P → relisted id l l' Q.
Proof. intros HPQ [H1 H2 H3]. split; [done|done|]. intros Hl. rewrite H3 by done. done. Qed.

Lemma relisted_tail id l : relisted id (id :: l) l False.
Proof.
  split.
  - by intros [_ ?]%NoDup_cons.
  - set_solver.
  - intros [? _]%NoDup_cons. done.
Qed.

Lemma registry_retire id a s s' :
  registry_inv s → s.(RwaAssets) !! id = Some a →
  (∀ j, asset_view s' j = if decide (j = id) then Some (a.(owner), Retired) else asset_view s j) →
  s'.(NextRwaAssetId) = s.(NextRwaAssetId) →
  (∀ who, owner_assets who s' =
     if decide (who = a.(owner)) then remove_first id (owner_assets who s) else owner_assets who s) →
  (∀ b, relisted id (sunsetting_assets b s) (sunsetting_assets b s') False) →
  s'.(PendingOwnershipTransfer) = delete id s.(PendingOwnershipTransfer) →
  s'.(AssetSlashDistribution) = delete id s.(AssetSlashDistribution) →
  registry_inv s'.
Proof.
  intros Hr Ha Hv' Hn Ho Hs Ht Hd. pose proof (asset_view_Some _ _ _ Ha) as Hv.
  eapply (registry_change id (Some (a.(owner), Retired))); [exact Hr|]. split.
  - intros j Hj. rewrite Hv'. by rewrite decide_False.
  - rewrite Hv'. by rewrite decide_True.
  - rewrite Hn. pose proof (ri_next _ Hr). lia.
  - intros _. rewrite Hn. apply (ri_id _ Hr). by rewrite Hv.
  - intros who. rewrite Ho. apply relisted_equiv with False; [naive_solver|].
    destruct (decide (who = a.(owner))) as [->|Hne]; [apply relisted_remove; tauto|].
    apply relisted_same. rewrite (ri_owner _ Hr), Hv. naive_solver.
  - intros b. apply relisted_equiv with False; [naive_solver|]. apply Hs.
  - intros j n. rewrite Ht. intros [? ?]%lookup_delete_Some. by left.
  - intros j d. rewrite Hd. intros [_ ?]%lookup_delete_Some. by left.
Qed.

Lemma clear_asset_owner o id who s :
  owner_assets who (clear_asset o id s) =
  if decide (who = o) then remove_first id (owner_assets who s) else owner_assets who s.
Proof.
  unfold clear_asset, remove_from_owner_assets, owner_assets at 1. simpl.
  destruct (decide (who = o)) as [->|Hne].
  - by rewrite lookup_insert_eq.
  - by rewrite lookup_insert_ne.
Qed.

Lemma unscheduled_sunset id a b s :
  registry_inv s → s.(RwaAssets) !! id = Some a →
  relisted id (sunsetting_assets b s) (sunsetting_assets b (unscheduled id a s)) False.
Proof.
  intros Hr Ha. pose proof (asset_view_Some _ _ _ Ha) as Hv. unfold unscheduled.
  destruct (decide (a.(status) = Sunsetting b)) as [->|Hne].
  { unfold sunsetting_assets at 2, remove_sunsetting. simpl. rewrite lookup_insert_eq.
    apply relisted_remove; tauto. }
  replace (sunsetting_assets b match status a with
     | Sunsetting b0 => remove_sunsetting b0 id s | _ => s end) with (sunsetting_assets b s).
  - apply relisted_same. rewrite (ri_sunset _ Hr), Hv. naive_solver.
  - destruct a.(status); try done. unfold sunsetting_assets at 2, remove_sunsetting. simpl.
    by rewrite lookup_insert_ne by congruence.
Qed.

Lemma unscheduled_rest id a s :
  (unscheduled id a s).(RwaAssets) = s.(RwaAssets) ∧
  (unscheduled id a s).(NextRwaAssetId) = s.(NextRwaAssetId) ∧
  (unscheduled id a s).(OwnerAssets) = s.(OwnerAssets) ∧
  (unscheduled id a s).(PendingOwnershipTransfer) = s.(PendingOwnershipTransfer) ∧
  (unscheduled id a s).(AssetSlashDistribution) = s.(AssetSlashDistribution) ∧
  same_parts s (unscheduled id a s).
Proof. unfold unscheduled. destruct a.(status); split_and!; try done; by split; auto. Qed.

Lemma registry_retired id a s :
  registry_inv s → s.(RwaAssets) !! id = Some a →
  registry_inv (retired id a (unscheduled id a s)).
Proof.
  intros Hr Ha. destruct (unscheduled_rest id a s) as (Hras & Hn & Ho & Ht & Hd & _).
  eapply registry_retire; [exact Hr|exact Ha|..].
  - intros j. unfold asset_view, retired, mutate_asset. simpl. rewrite Hras.
    destruct (decide (j = id)) as [->|].
    + rewrite lookup_alter_eq, Ha. done.
    + by rewrite lookup_alter_ne.
  - done.
  - intros who. change (owner_assets who (retired id a (unscheduled id a s)))
      with (owner_assets who (clear_asset a.(owner) id (unscheduled id a s))).
    rewrite clear_asset_owner. unfold owner_assets. by rewrite Ho.
  - intros b. apply (unscheduled_sunset id a b s Hr Ha).
  - simpl. by rewrite Ht.
  - simpl. by rewrite Hd.
Qed.

(** The schedule of block [n] while its hook runs. *)
Definition scheduled (n : BlockNumber) (l : list Z) (s : State) : State :=
  put_SunsettingAssets (<[n := l]> s.(SunsettingAssets)) s.

Lemma scheduled_sunset n l s b :
  sunsetting_assets b (scheduled n l s) = if decide (b = n) then l else sunsetting_assets b s.
Proof.
  unfold sunsetting_assets, scheduled. simpl. destruct (decide (b = n)) as [->|].
  - by rewrite lookup_insert_eq.
  - by rewrite lookup_insert_ne.
Qed.

Lemma registry_retire_turn n id l a s :
  registry_inv (scheduled n (id :: l) s) → s.(RwaAssets) !! id = Some a →
  registry_inv (scheduled n l (clear_asset a.(owner) id (insert_asset id (set_status Retired a) s))).
Proof.
  intros Hr Ha.
  assert (∃ o, asset_view s id = Some (o, Sunsetting n)) as [o Ho].
  { apply (ri_sunset _ Hr n id). rewrite scheduled_sunset, decide_True by done. by left. }
  eapply registry_retire; [exact Hr|exact Ha|..].
  - intros j. unfold asset_view, scheduled. simpl. destruct (decide (j = id)) as [->|].
    + by rewrite lookup_insert_eq.
    + by rewrite lookup_insert_ne.
  - done.
  - intros who. exact (clear_asset_owner a.(owner) id who (insert_asset id (set_status Retired a) s)).
  - intros b. rewrite !scheduled_sunset. destruct (decide (b = n)) as [->|Hne].
    + apply relisted_tail.
    + apply relisted_same. fold (sunsetting_assets b s).
      pose proof (ri_sunset _ Hr b id) as Hx. rewrite scheduled_sunset, decide_False in Hx by done.
      change (sunsetting_assets b (clear_asset _ _ _)) with (sunsetting_assets b s).
      rewrite Hx. change (asset_view (scheduled n (id :: l) s) id) with (asset_view s id).
      rewrite Ho. naive_solver.
  - done.
  - done.
Qed.

(** *** Ownership *)

Lemma owned_by_owner who id a x s :
  who ≠ a.(owner) →
  owner_assets x (owned_by who id a s) =
  if decide (x = who) then push_or_skip MaxAssetsPerOwner (owner_assets who s) id
  else if decide (x = a.(owner)) then remove_first id (owner_assets x s)
  else owner_assets x s.
Proof.
  intros Hne. unfold owned_by, remove_from_owner_assets, owner_assets at 1. simpl.
  destruct (decide (x = who)) as [->|Hx].
  - rewrite lookup_insert_eq. simpl. unfold owner_assets at 1. simpl.
    by rewrite lookup_insert_ne by done.
  - rewrite lookup_insert_ne by done. destruct (decide (x = a.(owner))) as [->|Hy].
    + by rewrite lookup_insert_eq.
    + by rewrite lookup_insert_ne by done.
Qed.

Lemma registry_owned_by who id a s :
  registry_inv s → s.(RwaAssets) !! id = Some a →
  s.(PendingOwnershipTransfer) !! id = Some who →
  Z.of_nat (length (owner_assets who s)) < MaxAssetsPerOwner →
  registry_inv (owned_by who id a s).
Proof.
  intros Hr Ha Hp Hlen. pose proof (asset_view_Some _ _ _ Ha) as Hv.
  destruct (ri_transfer _ Hr _ _ Hp) as (o & st & Hx & Hne & Hst). rewrite Hv in Hx.
  injection Hx as <- Hst'. subst st.
  eapply (registry_change id (Some (who, a.(status)))); [exact Hr|]. split.
  - intros j Hj. unfold asset_view, owned_by. simpl. by rewrite lookup_insert_ne.
  - unfold asset_view, owned_by. simpl. by rewrite lookup_insert_eq.
  - simpl. pose proof (ri_next _ Hr). lia.
  - intros _. apply (ri_id _ Hr). by rewrite Hv.
  - intros x. rewrite owned_by_owner by done. destruct (decide (x = who)) as [->|Hxw].
    + apply relisted_push; [|done|by eauto]. rewrite (ri_owner _ Hr), Hv.
      by intros (? & [= ? ?] & ?).
    + destruct (decide (x = a.(owner))) as [->|Hxo]; [apply relisted_remove|].
      { by intros (? & [= ? ?] & ?). }
      apply relisted_same. rewrite (ri_owner _ Hr), Hv.
      by split; intros (? & [= ? ?] & ?).
  - intros b. change (sunsetting_assets b (owned_by who id a s)) with (sunsetting_assets b s).
    apply relisted_same. rewrite (ri_sunset _ Hr), Hv.
    split; intros (? & [= ? Hx]); rewrite Hx; eauto.
  - intros j n Hj. unfold owned_by in Hj. simpl in Hj.
    apply lookup_delete_Some in Hj as [? ?]. by left.
  - auto.
Qed.

Lemma registry_transfer id n a s :
  registry_inv s → s.(RwaAssets) !! id = Some a → n ≠ a.(owner) → a.(status) ≠ Retired →
  registry_inv (put_PendingOwnershipTransfer (<[id := n]> s.(PendingOwnershipTransfer)) s).
Proof.
  intros [Hn Hid Ho Hon Hs Hsn Ht Hd] Ha Hne Hst. split; auto. intros j m. simpl.
  intros [[-> <-]|[_ Hj]]%lookup_insert_Some; [|eauto].
  exists a.(owner), a.(status). by rewrite <- (asset_view_Some _ _ _ Ha).
Qed.

Lemma registry_transfer_dropped id s :
  registry_inv s →
  registry_inv (put_PendingOwnershipTransfer (delete id s.(PendingOwnershipTransfer)) s).
Proof.
  intros [Hn Hid Ho Hon Hs Hsn Ht Hd]. split; auto. intros j m. simpl.
  intros [_ Hj]%lookup_delete_Some. eauto.
Qed.

Lemma registry_slash id d s :
  registry_inv s → dist_wf d →
  registry_inv (put_AssetSlashDistribution (<[id := d]> s.(AssetSlashDistribution)) s).
Proof.
  intros [Hn Hid Ho Hon Hs Hsn Ht Hd] Hw. split; auto. intros j m. simpl.
  intros [[-> <-]|[_ Hj]]%lookup_insert_Some; eauto.
Qed.
End registry.

(** *** Slash distributions *)

(** A saturating sum below the bound is the sum. *)
Lemma saturating_shares d acc :
  Forall (λ r, 0 ≤ r.(share)) d → 0 ≤ acc →
  fold_left (λ acc r, saturating_add U32_MAX acc r.(share)) d acc = PERMILL_ACCURACY →
  foldr (λ r acc, r.(share) + acc) 0 d + acc = PERMILL_ACCURACY.
Proof.
  revert acc. induction d as [|r d IH]; intros acc Hd Hacc; simpl; [lia|].
  apply Forall_cons in Hd as [Hr Hd]. intros Hf.
  assert (0 ≤ saturating_add U32_MAX acc r.(share)) as Hs by ulia.
  specialize (IH _ Hd Hs Hf).
  assert (0 ≤ foldr (λ r acc, r.(share) + acc) 0 d).
  { clear - Hd. induction Hd; simpl; [done|]. simpl in *. lia. }
  unfold PERMILL_ACCURACY in *. ulia.
Qed.

(** The check of [try_state], which saturates at one, agrees. *)
Lemma permill_shares d acc :
  Forall (λ r, 0 ≤ r.(share)) d → 0 ≤ acc ≤ PERMILL_ACCURACY →
  foldr (λ r acc, r.(share) + acc) 0 d + acc = PERMILL_ACCURACY →
  fold_left (λ acc r, Z.min PERMILL_ACCURACY (acc + r.(share))) d acc = PERMILL_ACCURACY.
Proof.
  revert acc. induction d as [|r d IH]; intros acc Hd Hacc; simpl; [lia|].
  apply Forall_cons in Hd as [Hr Hd]. intros Hf.
  assert (0 ≤ foldr (λ r acc, r.(share) + acc) 0 d).
  { clear - Hd. induction Hd; simpl; [done|]. simpl in *. lia. }
  apply IH; [done|lia|lia].
Qed.
