(* ===== verification/RwaParts.v ===== *)
(** * pallet-rwa: participations over the operations

    Every operation on a participation changes one entry of [Participations]
    and the indexes that depend on it; [entry_change] describes such a change
    and [parts_entry] shows that it preserves [parts_inv]. *)

From S2P Require Import Prelude Arith Errors Frame Rwa RwaSpec RwaInv.

(** ** The index loops *)

Section indexes.
Context {T : Config}.
Implicit Types (s : State) (hs : list AccountId).

Lemma holder_assets_insert h l m s x :
  holder_assets x (put_HolderAssets (<[h := l]> m) s) =
  if decide (x = h) then l else default [] (m !! x).
Proof.
  unfold holder_assets. simpl. destruct (decide (x = h)) as [->|].
  - by rewrite lookup_insert_eq.
  - by rewrite lookup_insert_ne.
Qed.

(** The loops change the two index tables only. *)
Definition index_only s s' : Prop :=
  s' = put_HolderAssets s'.(HolderAssets) (put_HolderIndex s'.(HolderIndex) s).

Lemma index_only_trans s1 s2 s3 : index_only s1 s2 → index_only s2 s3 → index_only s1 s3.
Proof. unfold index_only. intros H1 H2. rewrite H2, H1. by destruct s1. Qed.

Lemma remove_all_index id hs s :
  let s' := remove_all_holder_indexes id hs s in
  index_only s s' ∧
  (∀ j h, s'.(HolderIndex) !! (j, h) =
     if decide (j = id ∧ h ∈ hs) then None else s.(HolderIndex) !! (j, h)) ∧
  (∀ h, NoDup hs → holder_assets h s' =
     if decide (h ∈ hs) then remove_first id (holder_assets h s) else holder_assets h s).
Proof.
  revert s. induction hs as [|x hs IH]; intros s; cbn zeta.
  { split_and!; [by destruct s|..].
    - intros j h. case_decide as Hd; [set_solver|done].
    - intros h _. case_decide as Hd; [set_solver|done]. }
  change (remove_all_holder_indexes id (x :: hs) s)
    with (remove_all_holder_indexes id hs (remove_single_holder_index id x s)).
  set (s1 := remove_single_holder_index id x s).
  destruct (IH s1) as (Ho & Hi & Ha). split_and!.
  - eapply index_only_trans; [|exact Ho]. by destruct s.
  - intros j h. rewrite Hi. destruct (decide (j = id ∧ h ∈ hs)) as [[-> Hh]|Hn].
    + by rewrite decide_True by set_solver.
    + simpl. destruct (decide ((j, h) = (id, x))) as [[= -> ->]|Hne].
      * by rewrite lookup_delete_eq, decide_True by set_solver.
      * rewrite lookup_delete_ne by done. rewrite decide_False by set_solver. done.
  - intros h [Hx Hnd]%NoDup_cons. rewrite Ha by done.
    unfold s1, remove_single_holder_index. rewrite holder_assets_insert.
    fold (holder_assets h s). destruct (decide (h = x)) as [->|Hne].
    + by rewrite decide_False, decide_True by set_solver.
    + destruct (decide (h ∈ hs)); [rewrite decide_True by set_solver|rewrite decide_False by set_solver]; done.
Qed.

Lemma add_all_index id pid hs s :
  NoDup hs →
  (∀ h, h ∈ hs → (id ∉ holder_assets h s) ∧
     Z.of_nat (length (holder_assets h s)) < MaxParticipationsPerHolder) →
  let s' := add_holder_indexes id pid hs s in
  index_only s s' ∧
  (∀ j h, s'.(HolderIndex) !! (j, h) =
     if decide (j = id ∧ h ∈ hs) then Some pid else s.(HolderIndex) !! (j, h)) ∧
  (∀ h, holder_assets h s' =
     if decide (h ∈ hs) then holder_assets h s ++ [id] else holder_assets h s).
Proof.
  revert s. induction hs as [|x hs IH]; intros s Hnd Hroom; cbn zeta.
  { split_and!; [by destruct s|..].
    - intros j h. case_decide as Hd; [set_solver|done].
    - intros h. case_decide as Hd; [set_solver|done]. }
  change (add_holder_indexes id pid (x :: hs) s) with (add_holder_indexes id pid hs
    (push_holder_asset x id (put_HolderIndex (<[(id, x):=pid]> s.(HolderIndex)) s))).
  apply NoDup_cons in Hnd as [Hx Hnd].
  set (s1 := push_holder_asset x id (put_HolderIndex (<[(id, x):=pid]> s.(HolderIndex)) s)).
  assert (∀ h, holder_assets h s1 = if decide (h = x) then holder_assets x s ++ [id]
                                    else holder_assets h s) as Hs1.
  { intros h. unfold s1, push_holder_asset. rewrite holder_assets_insert.
    fold (holder_assets h s). destruct (decide (h = x)) as [->|]; [|done].
    change (holder_assets x (put_HolderIndex _ s)) with (holder_assets x s).
    destruct (Hroom x) as [Hnin Hlen]; [by left|]. unfold contains, push_or_skip.
    rewrite bool_decide_false by done.
    by rewrite (proj2 (try_push_Some _ _ id (holder_assets x s ++ [id]))) by done. }
  destruct (IH s1) as (Ho & Hi & Ha); [done|..].
  { intros h Hh. rewrite Hs1, decide_False by set_solver. apply Hroom. by right. }
  split_and!.
  - eapply index_only_trans; [|exact Ho]. by destruct s.
  - intros j h. rewrite Hi. destruct (decide (j = id ∧ h ∈ hs)) as [[-> Hh]|Hn].
    + by rewrite decide_True by set_solver.
    + simpl. destruct (decide ((j, h) = (id, x))) as [[= -> ->]|Hne].
      * by rewrite lookup_insert_eq, decide_True by set_solver.
      * rewrite lookup_insert_ne by done. rewrite decide_False by set_solver. done.
  - intros h. rewrite Ha, Hs1. destruct (decide (h = x)) as [->|Hne].
    + by rewrite decide_False, decide_True by set_solver.
    + destruct (decide (h ∈ hs)); [rewrite decide_True by set_solver|rewrite decide_False by set_solver]; done.
Qed.
End indexes.

(** ** Changes of one participation *)

(** The holders an entry stands for in the indexes, and what it counts. *)
Definition live_holders (o : option Participation) : list AccountId :=
  match o with Some p => if is_live p.(pstatus) then p.(holders) else [] | None => [] end.
Definition live_weight (o : option Participation) : Z :=
  match o with Some p => if is_live p.(pstatus) then 1 else 0 | None => 0 end.

(** [s'] differs from [s] in the entry [(id, pid)], which becomes [new], and in
    what follows from it. *)
Record entry_change {T : Config} (id pid : Z) (new : option Participation) (s s' : State)
    : Prop := {
  ec_other : ∀ k, k ≠ (id, pid) → s'.(Participations) !! k = s.(Participations) !! k;
  ec_this : s'.(Participations) !! (id, pid) = new;
  ec_index : ∀ j h, s'.(HolderIndex) !! (j, h) =
    if decide (j = id ∧ h ∈ live_holders new) then Some pid
    else if decide (j = id ∧ h ∈ live_holders (s.(Participations) !! (id, pid))) then None
    else s.(HolderIndex) !! (j, h);
  ec_assets : ∀ h, relisted id (holder_assets h s) (holder_assets h s')
    (is_Some (s'.(HolderIndex) !! (id, h)));
  ec_count : ∀ j, count_view s' j = (λ c,
    if decide (j = id) then c + live_weight new - live_weight (s.(Participations) !! (id, pid))
    else c) <$> count_view s j;
  ec_next : ∀ j, next_participation_id j s ≤ next_participation_id j s' ≤ U32_MAX;
  ec_pending : ∀ j, NoDup (pending_approvals j s') ∧
    Z.of_nat (length (pending_approvals j s')) ≤ Z.max 0 MaxPendingApprovals ∧
    ∀ q, q ∈ pending_approvals j s' →
      ((j, q) ≠ (id, pid) ∧ q ∈ pending_approvals j s) ∨
      ((j, q) = (id, pid) ∧ ∃ p, new = Some p ∧ p.(pstatus) = PendingApproval);
  ec_wf : ∀ p, new = Some p → is_Some (count_view s id) ∧
    0 ≤ pid < next_participation_id id s' ∧ participation_wf id p;
  ec_fresh : ∀ h, h ∈ live_holders new →
    h ∈ live_holders (s.(Participations) !! (id, pid)) ∨ s.(HolderIndex) !! (id, h) = None;
}.

Section entries.
Context {T : Config}.
Implicit Types (s : State) (a : AssetInfo) (p : Participation).

Lemma in_live_holders o h :
  h ∈ live_holders o ↔ ∃ p, o = Some p ∧ is_live p.(pstatus) = true ∧ h ∈ p.(holders).
Proof.
  unfold live_holders. destruct o as [p|]; [|set_solver].
  destruct (is_live _) eqn:E; [naive_solver|]. split; [set_solver|].
  intros (? & [= <-] & ? & _). congruence.
Qed.

Lemma indexed s id pid h :
  parts_inv s → h ∈ live_holders (s.(Participations) !! (id, pid)) →
  s.(HolderIndex) !! (id, h) = Some pid.
Proof. intros Hp Hh. apply (pi_index _ Hp). by apply in_live_holders. Qed.

Lemma at_prefix_live s id pid :
  at_prefix id (λ _ p, if is_live p.(pstatus) then 1 else 0) s.(Participations) pid =
  live_weight (s.(Participations) !! (id, pid)).
Proof. unfold at_prefix, live_weight. by destruct (_ !! _). Qed.

(** The number of live participations over a change. *)
Lemma live_count_change id pid new s s' :
  entry_change id pid new s s' →
  ∀ j, live_participations j s' = live_participations j s +
    if decide (j = id) then live_weight new - live_weight (s.(Participations) !! (id, pid)) else 0.
Proof.
  intros [Ho Ht _ _ _ _ _ _ _] j. unfold live_participations.
  destruct (decide (j = id)) as [->|Hne].
  - rewrite <- at_prefix_live. destruct new as [p|].
    + rewrite (prefix_sum_agree id _ s'.(Participations) (<[(id, pid) := p]> s.(Participations))).
      * rewrite prefix_sum_insert. simpl. lia.
      * intros k. destruct (decide (k = pid)) as [->|].
        { by rewrite lookup_insert_eq. }
        rewrite lookup_insert_ne by congruence. apply Ho. congruence.
    + rewrite (prefix_sum_agree id _ s'.(Participations) (delete (id, pid) s.(Participations))).
      * rewrite prefix_sum_delete. simpl. lia.
      * intros k. destruct (decide (k = pid)) as [->|].
        { by rewrite lookup_delete_eq. }
        rewrite lookup_delete_ne by congruence. apply Ho. congruence.
  - rewrite Z.add_0_r. apply prefix_sum_agree. intros k. apply Ho. congruence.
Qed.

Lemma index_change id pid new s s' :
  parts_inv s → entry_change id pid new s s' →
  ∀ j h q, s'.(HolderIndex) !! (j, h) = Some q ↔ h ∈ live_holders (s'.(Participations) !! (j, q)).
Proof.
  intros Hp [Ho Ht Hi _ _ _ _ _ Hf] j h q. rewrite Hi.
  assert (∀ k h q, s.(HolderIndex) !! (k, h) = Some q ↔
    h ∈ live_holders (s.(Participations) !! (k, q))) as Hold.
  { intros. rewrite (pi_index _ Hp), in_live_holders. done. }
  destruct (decide (j = id ∧ h ∈ live_holders new)) as [[-> Hn]|Hn].
  - split; [intros [= <-]; by rewrite Ht|]. intros Hq. f_equal.
    destruct (decide (q = pid)) as [->|Hne]; [done|].
    rewrite Ho in Hq by congruence. apply Hold in Hq.
    destruct (Hf h Hn) as [Hx|Hx]; [apply Hold in Hx|]; congruence.
  - destruct (decide (j = id ∧ _)) as [[-> Hd]|Hd].
    + split; [done|]. intros Hq. apply Hold in Hd. destruct (decide (q = pid)) as [->|Hne].
      { rewrite Ht in Hq. naive_solver. }
      rewrite Ho in Hq by congruence. apply Hold in Hq. congruence.
    + rewrite Hold. destruct (decide ((j, q) = (id, pid))) as [[= -> ->]|Hne].
      * rewrite Ht. naive_solver.
      * by rewrite Ho.
Qed.

Theorem parts_entry id pid new s s' :
  parts_inv s → entry_change id pid new s s' → parts_inv s'.
Proof.
  intros Hp Hc. pose proof (index_change _ _ _ _ _ Hp Hc) as Hidx.
  pose proof (live_count_change _ _ _ _ _ Hc) as Hlive.
  destruct Hc as [Ho Ht Hi Ha Hcv Hn Hq Hwf Hf]. split.
  - intros j q p Hj.
    assert (is_Some (count_view s j) → is_Some (count_view s' j)) as Hs
      by (rewrite Hcv; intros [c ->]; by eexists).
    destruct (decide ((j, q) = (id, pid))) as [[= -> ->]|Hne].
    + rewrite Ht in Hj. destruct (Hwf p Hj) as (? & ? & ?). auto.
    + rewrite Ho in Hj by done. destruct (pi_wf _ Hp _ _ _ Hj) as (? & ? & ?).
      specialize (Hn j). split_and!; auto; lia.
  - intros j. pose proof (pi_next _ Hp j). specialize (Hn j). lia.
  - intros j c. rewrite Hcv, Hlive. destruct (count_view s j) as [c0|] eqn:E; [|done].
    intros [= <-]. rewrite (pi_count _ Hp _ _ E). destruct (decide (j = id)); lia.
  - intros j h q. rewrite Hidx. apply in_live_holders.
  - intros h j. destruct (Ha h) as [_ Hoth Hthis]. destruct (decide (j = id)) as [->|Hne].
    + apply Hthis, (pi_assets_nodup _ Hp).
    + rewrite Hoth, (pi_assets _ Hp), Hi by done. rewrite !decide_False by naive_solver. done.
  - intros h. apply (Ha h), (pi_assets_nodup _ Hp).
  - intros j q Hjq. destruct (Hq j) as (_ & _ & Hq'). destruct (Hq' q Hjq) as [[Hne Hin]|[[= -> ->] Hx]].
    + rewrite Ho by done. by apply (pi_pending _ Hp).
    + by rewrite Ht.
  - intros j. apply (Hq j).
  - intros j. apply (Hq j).
Qed.
End entries.

(** ** The kinds of change *)

Section kinds.
Context {T : Config}.
Implicit Types (s : State) (a : AssetInfo) (p : Participation).

Lemma live_holders_closed o : live_weight o = 0 → live_holders o = [].
Proof. unfold live_weight, live_holders. destruct o as [p|]; [|done]. by destruct (is_live _). Qed.

Lemma live_bound s id : parts_inv s → 0 ≤ live_participations id s ≤ next_participation_id id s.
Proof.
  intros Hp. split; [apply prefix_sum_nonneg; intros; case_match; lia|].
  pose proof (pi_next _ Hp id).
  rewrite <- (Z2Nat.id (next_participation_id id s)) by lia. apply prefix_count_le.
  intros pid p Hx. destruct (pi_wf _ Hp _ _ _ Hx) as (_ & ? & _).
  split; [lia|]. case_match; lia.
Qed.

Lemma live_count_fits s id : parts_inv s → 0 ≤ live_participations id s ≤ U32_MAX.
Proof. intros Hp. pose proof (live_bound s id Hp). pose proof (pi_next _ Hp id). lia. Qed.

Lemma live_count_pos s id pid p :
  s.(Participations) !! (id, pid) = Some p → is_live p.(pstatus) = true →
  1 ≤ live_participations id s.
Proof.
  intros Hx Hl. unfold live_participations.
  pose proof (prefix_sum_lookup_le id (λ _ p, if is_live p.(pstatus) then 1 else 0)
    s.(Participations) pid p) as H1. simpl in H1. rewrite Hl in H1. apply H1; [|done].
  intros. case_match; lia.
Qed.

Lemma count_view_alter id f s j :
  count_view (mutate_asset id (λ a, set_participant_count (f a.(participant_count)) a) s) j =
  (λ c, if decide (j = id) then f c else c) <$> count_view s j.
Proof.
  unfold count_view, mutate_asset. simpl. destruct (decide (j = id)) as [->|Hne].
  - rewrite lookup_alter_eq. by destruct (RwaAssets s !! id).
  - rewrite lookup_alter_ne by done. by destruct (RwaAssets s !! j).
Qed.

Lemma count_view_dec id pid p s j :
  parts_inv s → s.(Participations) !! (id, pid) = Some p → is_live p.(pstatus) = true →
  count_view (dec_participant_count id s) j =
  (λ c, if decide (j = id) then c - 1 else c) <$> count_view s j.
Proof.
  intros Hp Hx Hl. unfold dec_participant_count.
  rewrite (count_view_alter id (λ c, saturating_sub c 1)).
  destruct (count_view s j) as [c|] eqn:E; [|done]. simpl. f_equal.
  destruct (decide (j = id)) as [->|]; [|done].
  pose proof (live_count_pos _ _ _ _ Hx Hl). pose proof (pi_count _ Hp _ _ E).
  apply saturating_sub_exact. lia.
Qed.

Lemma queue_removed id pid s j (P : Z → Prop) :
  parts_inv s →
  let q' := if decide (j = id) then remove_first pid (pending_approvals j s)
            else pending_approvals j s in
  NoDup q' ∧ Z.of_nat (length q') ≤ Z.max 0 MaxPendingApprovals ∧
  ∀ q, q ∈ q' → ((j, q) ≠ (id, pid) ∧ q ∈ pending_approvals j s) ∨ P q.
Proof.
  intros Hp. pose proof (pi_pending_nodup _ Hp j). pose proof (pi_pending_len _ Hp j).
  cbn zeta. destruct (decide (j = id)) as [->|Hne].
  - split_and!; [by auto with vec| |].
    + pose proof (length_remove_first pid (pending_approvals id s)). lia.
    + intros q Hqq. left. split; [|by apply remove_first_subseteq in Hqq].
      intros [= ->]. by apply notin_remove_first in Hqq.
  - split_and!; [done|done|]. intros q Hqq. left. split; [congruence|done].
Qed.

(** A live participation ends. *)
Lemma entry_closed id pid p new s s' :
  parts_inv s → s.(Participations) !! (id, pid) = Some p → is_live p.(pstatus) = true →
  live_weight new = 0 → (∀ p', new = Some p' → participation_wf id p') →
  (∀ k, k ≠ (id, pid) → s'.(Participations) !! k = s.(Participations) !! k) →
  s'.(Participations) !! (id, pid) = new →
  s'.(HolderIndex) = (remove_all_holder_indexes id p.(holders) s).(HolderIndex) →
  s'.(HolderAssets) = (remove_all_holder_indexes id p.(holders) s).(HolderAssets) →
  s'.(NextParticipationId) = s.(NextParticipationId) →
  (∀ j, count_view s' j = count_view (dec_participant_count id s) j) →
  (∀ j, pending_approvals j s' =
     if decide (j = id) then remove_first pid (pending_approvals j s) else pending_approvals j s) →
  entry_change id pid new s s'.
Proof.
  intros Hp Hx Hl Hz Hwf Ho Ht Hi Ha Hn Hc Hq.
  destruct (pi_wf _ Hp _ _ _ Hx) as (Hcv & Hpid & Hpw).
  destruct (remove_all_index id p.(holders) s) as (_ & Hi' & Ha').
  specialize (λ h, Ha' h (pw_holders _ _ Hpw)).
  assert (∀ h, holder_assets h s' = holder_assets h (remove_all_holder_indexes id p.(holders) s))
    as Hha by (intros; unfold holder_assets; by rewrite Ha).
  assert (live_holders (s.(Participations) !! (id, pid)) = p.(holders)) as Hlh
    by (rewrite Hx; simpl; by rewrite Hl).
  assert (∀ j, next_participation_id j s' = next_participation_id j s) as Hnn
    by (intros; unfold next_participation_id; by rewrite Hn).
  rewrite <- Hi in Hi'. pose proof (live_holders_closed _ Hz) as Hnone.
  split; rewrite ?Hnone, ?Hlh; try done.
  - intros j h. rewrite Hi', (decide_False (P := j = id ∧ h ∈ [])) by set_solver. done.
  - intros h. rewrite Hha, Ha', Hi'. destruct (decide (h ∈ p.(holders))) as [Hh|Hh].
    + rewrite decide_True by done. apply relisted_remove. by intros [? ?].
    + rewrite decide_False by naive_solver. apply relisted_same, (pi_assets _ Hp).
  - intros j. rewrite Hc, (count_view_dec id pid p) by done. rewrite Hz, Hx. simpl. rewrite Hl.
    destruct (count_view s j); [|done]. simpl. f_equal. destruct (decide (j = id)); lia.
  - intros j. rewrite Hnn. pose proof (pi_next _ Hp j). lia.
  - intros j. rewrite Hq. by apply queue_removed.
  - intros p' Hnew. rewrite Hnn. auto.
  - set_solver.
Qed.

(** A participation that is not live comes to life. *)
Lemma entry_opened id pid p s s' :
  parts_inv s → live_weight (s.(Participations) !! (id, pid)) = 0 →
  is_live p.(pstatus) = true → participation_wf id p → is_Some (count_view s id) →
  0 ≤ pid < next_participation_id id s' →
  Forall (can_hold id s) p.(holders) →
  s'.(Participations) = <[(id, pid) := p]> s.(Participations) →
  s'.(HolderIndex) = (add_holder_indexes id pid p.(holders) s).(HolderIndex) →
  s'.(HolderAssets) = (add_holder_indexes id pid p.(holders) s).(HolderAssets) →
  (∀ j, next_participation_id j s ≤ next_participation_id j s' ≤ U32_MAX) →
  (∀ j, count_view s' j = (λ c, if decide (j = id) then c + 1 else c) <$> count_view s j) →
  (∀ j, NoDup (pending_approvals j s') ∧
    Z.of_nat (length (pending_approvals j s')) ≤ Z.max 0 MaxPendingApprovals ∧
    ∀ q, q ∈ pending_approvals j s' →
      ((j, q) ≠ (id, pid) ∧ q ∈ pending_approvals j s) ∨
      ((j, q) = (id, pid) ∧ p.(pstatus) = PendingApproval)) →
  entry_change id pid (Some p) s s'.
Proof.
  intros Hp Hz Hl Hpw Hcv Hpid Hcan Ht Hi Ha Hn Hc Hq.
  destruct (add_all_index id pid p.(holders) s) as (_ & Hi' & Ha').
  { apply Hpw. }
  { intros h Hh. rewrite Forall_forall in Hcan. destruct (Hcan h Hh) as [Hnone Hlen].
    split; [|done]. rewrite (pi_assets _ Hp), Hnone. by intros [? ?]. }
  rewrite <- Hi in Hi'.
  assert (∀ h, holder_assets h s' = holder_assets h (add_holder_indexes id pid p.(holders) s))
    as Hha by (intros; unfold holder_assets; by rewrite Ha).
  assert (live_holders (Some p) = p.(holders)) as Hlh by (simpl; by rewrite Hl).
  assert (∀ h, h ∈ p.(holders) → s.(HolderIndex) !! (id, h) = None) as Hfree.
  { intros h Hh. rewrite Forall_forall in Hcan. by destruct (Hcan h Hh). }
  split; rewrite ?Hlh, ?(live_holders_closed _ Hz); try done.
  - intros k Hk. by rewrite Ht, lookup_insert_ne.
  - by rewrite Ht, lookup_insert_eq.
  - intros j h. rewrite Hi', (decide_False (P := j = id ∧ h ∈ [])) by set_solver. done.
  - intros h. rewrite Hha, Ha', Hi'. destruct (decide (h ∈ p.(holders))) as [Hh|Hh].
    + rewrite decide_True by done.
      assert (id ∉ holder_assets h s) by (rewrite (pi_assets _ Hp), Hfree by done; by intros [? ?]).
      split; [intros; by auto with vec|set_solver|set_solver].
    + rewrite decide_False by naive_solver. apply relisted_same, (pi_assets _ Hp).
  - intros j. rewrite Hc. rewrite Hz. simpl. rewrite Hl.
    destruct (count_view s j); [|done]. simpl. f_equal. destruct (decide (j = id)); lia.
  - intros j. destruct (Hq j) as (H1 & H2 & H3). split_and!; [done|done|].
    intros q Hqq. destruct (H3 q Hqq) as [?|[? ?]]; eauto.
  - by intros p' [= <-].
  - auto.
Qed.

(** A live participation stays live with the same holders. *)
Lemma entry_kept id pid p p' s s' :
  parts_inv s → s.(Participations) !! (id, pid) = Some p →
  is_live p.(pstatus) = true → is_live p'.(pstatus) = true →
  p'.(holders) = p.(holders) → p'.(rwa_asset_id) = p.(rwa_asset_id) →
  s'.(Participations) = <[(id, pid) := p']> s.(Participations) →
  s'.(HolderIndex) = s.(HolderIndex) → s'.(HolderAssets) = s.(HolderAssets) →
  s'.(NextParticipationId) = s.(NextParticipationId) →
  (∀ j, count_view s' j = count_view s j) →
  (∀ j, pending_approvals j s' =
     if decide (j = id) then remove_first pid (pending_approvals j s) else pending_approvals j s) →
  entry_change id pid (Some p') s s'.
Proof.
  intros Hp Hx Hl Hl' Hh Hid Ht Hi Ha Hn Hc Hq.
  destruct (pi_wf _ Hp _ _ _ Hx) as (Hcv & Hpid & [Hw1 Hw2 Hw3 Hw4]).
  assert (∀ j, next_participation_id j s' = next_participation_id j s) as Hnn
    by (intros; unfold next_participation_id; by rewrite Hn).
  assert (live_holders (s.(Participations) !! (id, pid)) = p.(holders)) as Hlh
    by (rewrite Hx; simpl; by rewrite Hl).
  assert (live_holders (Some p') = p.(holders)) as Hlh' by (simpl; by rewrite Hl').
  split; rewrite ?Hlh', ?Hlh; try done.
  - intros k Hk. by rewrite Ht, lookup_insert_ne.
  - by rewrite Ht, lookup_insert_eq.
  - intros j h. rewrite Hi. destruct (decide (j = id ∧ h ∈ p.(holders))) as [[-> Hin]|]; [|done].
    apply (pi_index _ Hp). eauto.
  - intros h. unfold holder_assets. rewrite Ha, Hi. apply relisted_same, (pi_assets _ Hp).
  - intros j. rewrite Hc, Hx. simpl. rewrite Hl, Hl'. destruct (count_view s j); [|done].
    simpl. f_equal. destruct (decide (j = id)); lia.
  - intros j. rewrite Hnn. pose proof (pi_next _ Hp j). lia.
  - intros j. rewrite Hq. by apply queue_removed.
  - intros q [= <-]. rewrite Hnn. split_and!; try done; try lia.
    split; [congruence|by rewrite Hh| |by rewrite Hl'].
    intros _. rewrite Hh. apply Hw3. by destruct p.(pstatus).
  - auto.
Qed.
End kinds.
