(* ===== verification/RwaCorrect.v ===== *)
(** * pallet-rwa: every call keeps the invariant

    The invariant of the whole storage, its preservation by every call and by
    the hook of the pallet, and the reachable states. *)

From S2P Require Import Prelude Arith Errors Frame Rwa RwaSpec RwaInv RwaParts.

(** The registry and the participations together; an asset that is retired
    has no approval queue. *)
Record Inv {T : Config} (s : State) : Prop := {
  inv_registry : registry_inv s;
  inv_parts : parts_inv s;
  inv_retired : ∀ id o, asset_view s id = Some (o, Retired) → pending_approvals id s = [];
}.

Section operations.
Context {T : Config}.
Implicit Types (s : State) (a : AssetInfo) (p : Participation).

(** ** Frames of the operations on participations *)

Lemma same_registry_trans s1 s2 s3 :
  same_registry s1 s2 → same_registry s2 s3 → same_registry s1 s3.
Proof.
  intros [H1 H2 H3 H4 H5 H6] [K1 K2 K3 K4 K5 K6]. split; intros; congruence.
Qed.

Lemma index_only_registry s s' : index_only s s' → same_registry s s'.
Proof. unfold index_only. intros ->. by split. Qed.

Lemma insert_participation_registry id pid p s : same_registry s (insert_participation id pid p s).
Proof. by split. Qed.

Lemma view_alter id f s j :
  (∀ a, (f a).(owner) = a.(owner) ∧ (f a).(status) = a.(status)) →
  asset_view (mutate_asset id f s) j = asset_view s j.
Proof.
  intros Hf. unfold asset_view, mutate_asset. simpl. destruct (decide (j = id)) as [->|].
  - rewrite lookup_alter_eq. destruct (RwaAssets s !! id) as [a|]; [|done]. simpl.
    by destruct (Hf a) as [-> ->].
  - by rewrite lookup_alter_ne.
Qed.

Lemma dec_count_registry id s : same_registry s (dec_participant_count id s).
Proof. split; try done. intros j. by apply view_alter. Qed.
Lemma inc_count_registry id s : same_registry s (inc_participant_count id s).
Proof. split; try done. intros j. by apply view_alter. Qed.

Lemma remove_all_registry id hs s : same_registry s (remove_all_holder_indexes id hs s).
Proof. apply index_only_registry, remove_all_index. Qed.

Lemma add_all_index_only id pid hs s : index_only s (add_holder_indexes id pid hs s).
Proof.
  revert s. induction hs as [|h hs IH]; intros s; [by destruct s|].
  eapply index_only_trans; [|apply IH]. by destruct s.
Qed.
Lemma add_all_registry id pid hs s : same_registry s (add_holder_indexes id pid hs s).
Proof. apply index_only_registry, add_all_index_only. Qed.

Lemma index_only_rest s s' :
  index_only s s' →
  s'.(Participations) = s.(Participations) ∧ s'.(NextParticipationId) = s.(NextParticipationId) ∧
  s'.(PendingApprovals) = s.(PendingApprovals) ∧ s'.(RwaAssets) = s.(RwaAssets).
Proof. unfold index_only. by intros ->. Qed.

(** ** Queues *)

Lemma queue_untouched id pid p s :
  parts_inv s → s.(Participations) !! (id, pid) = Some p → p.(pstatus) ≠ PendingApproval →
  ∀ j, pending_approvals j s =
    if decide (j = id) then remove_first pid (pending_approvals j s) else pending_approvals j s.
Proof.
  intros Hp Hx Hst j. destruct (decide (j = id)) as [->|]; [|done]. symmetry.
  apply remove_first_notin. intros Hin. destruct (pi_pending _ Hp _ _ Hin) as (q & Hq & Hs).
  congruence.
Qed.

Lemma queue_kept id pid p s j (P : Z → Prop) :
  parts_inv s → s.(Participations) !! (id, pid) = Some p → p.(pstatus) ≠ PendingApproval →
  NoDup (pending_approvals j s) ∧
  Z.of_nat (length (pending_approvals j s)) ≤ Z.max 0 MaxPendingApprovals ∧
  ∀ q, q ∈ pending_approvals j s → ((j, q) ≠ (id, pid) ∧ q ∈ pending_approvals j s) ∨ P q.
Proof.
  intros Hp Hx Hst. split_and!; [apply (pi_pending_nodup _ Hp)|apply (pi_pending_len _ Hp)|].
  intros q Hin. left. split; [|done]. intros [= -> ->].
  destruct (pi_pending _ Hp _ _ Hin) as (? & Hy & Hz). congruence.
Qed.

Lemma remove_pending_queue id pid s j :
  pending_approvals j (remove_pending id pid s) =
  if decide (j = id) then remove_first pid (pending_approvals j s) else pending_approvals j s.
Proof.
  unfold pending_approvals, remove_pending. simpl. destruct (decide (j = id)) as [->|].
  - by rewrite lookup_insert_eq.
  - by rewrite lookup_insert_ne.
Qed.

(** ** The end of a participation *)

Lemma closed_wf id st p :
  is_live st = false → is_live p.(pstatus) = true → participation_wf id p →
  participation_wf id (close st p).
Proof.
  intros Hst Hl [H1 H2 H3 H4]. split; simpl; [done|done| |done].
  intros _. apply H3. by destruct p.(pstatus).
Qed.

Lemma close_weight st p : is_live st = false → live_weight (Some (close st p)) = 0.
Proof. intros Hst. simpl. by rewrite Hst. Qed.

Lemma active_live p : is_active_p p.(pstatus) = true → is_live p.(pstatus) = true ∧ p.(pstatus) ≠ PendingApproval.
Proof. by destruct p.(pstatus). Qed.

Lemma lapsed_active p now : lapsed p now = true → is_active_p p.(pstatus) = true.
Proof. unfold lapsed. by destruct p.(pstatus). Qed.

(** A participation is written over with its closed record: settlement, exit,
    revocation, slash. *)
Lemma parts_closed id pid p p' s s' :
  parts_inv s → s.(Participations) !! (id, pid) = Some p → is_live p.(pstatus) = true →
  is_live p'.(pstatus) = false → participation_wf id p' →
  (∀ j, pending_approvals j s =
    if decide (j = id) then remove_first pid (pending_approvals j s) else pending_approvals j s) →
  let r := remove_all_holder_indexes id p.(holders) s in
  s' = insert_participation id pid p' (dec_participant_count id r) →
  entry_change id pid (Some p') s s'.
Proof.
  intros Hp Hx Hl Hl' Hw Hq r ->.
  destruct (remove_all_index id p.(holders) s) as (Hio & _ & _).
  destruct (index_only_rest _ _ Hio) as (Hr1 & Hr2 & Hr3 & Hr4). fold r in Hr1, Hr2, Hr3, Hr4.
  eapply entry_closed; [exact Hp|exact Hx|exact Hl|..].
  - simpl. by rewrite Hl'.
  - by intros ? [= <-].
  - intros k Hk. simpl. rewrite Hr1. by rewrite lookup_insert_ne.
  - simpl. by rewrite lookup_insert_eq.
  - done.
  - done.
  - done.
  - intros j. unfold count_view. simpl. by rewrite Hr4.
  - intros j. rewrite <- Hq. unfold pending_approvals. simpl. by rewrite Hr3.
Qed.

Lemma end_participation_eq st id pid p s :
  end_participation st id pid p s =
  insert_participation id pid (close st p)
    (dec_participant_count id (remove_all_holder_indexes id p.(holders) s)).
Proof.
  unfold end_participation. generalize p.(holders). intros hs.
  assert (remove_all_holder_indexes id hs (insert_participation id pid (close st p) s) =
    insert_participation id pid (close st p) (remove_all_holder_indexes id hs s)) as ->; [|done].
  revert s. induction hs as [|h hs IH]; intros s; [done|]. apply (IH (remove_single_holder_index id h s)).
Qed.

Lemma ended_change st id pid p s :
  parts_inv s → s.(Participations) !! (id, pid) = Some p → is_live p.(pstatus) = true →
  is_live st = false →
  (∀ j, pending_approvals j s =
    if decide (j = id) then remove_first pid (pending_approvals j s) else pending_approvals j s) →
  entry_change id pid (Some (close st p)) s (end_participation st id pid p s).
Proof.
  intros Hp Hx Hl Hst Hq. eapply parts_closed; [done|exact Hx|done|done| |done|].
  - apply closed_wf; [done|done|]. by eapply pi_wf.
  - apply end_participation_eq.
Qed.

Lemma settled_change id pid p s :
  parts_inv s → s.(Participations) !! (id, pid) = Some p → is_active_p p.(pstatus) = true →
  entry_change id pid (Some (close Expired p)) s (settled id pid p s).
Proof.
  intros Hp Hx [Hl Hn]%active_live. eapply parts_closed; [done|exact Hx|done|done| | |done].
  - apply closed_wf; [done|done|]. by eapply pi_wf.
  - by eapply queue_untouched.
Qed.

(** A participation is deleted: the end of a rejection, alone or in a batch. *)
Lemma deleted_change id pid p s s' :
  parts_inv s → s.(Participations) !! (id, pid) = Some p → is_live p.(pstatus) = true →
  s'.(Participations) = delete (id, pid) s.(Participations) →
  s'.(HolderIndex) = (remove_all_holder_indexes id p.(holders) s).(HolderIndex) →
  s'.(HolderAssets) = (remove_all_holder_indexes id p.(holders) s).(HolderAssets) →
  s'.(NextParticipationId) = s.(NextParticipationId) →
  s'.(RwaAssets) = (dec_participant_count id s).(RwaAssets) →
  (∀ j, pending_approvals j s' =
    if decide (j = id) then remove_first pid (pending_approvals j s) else pending_approvals j s) →
  entry_change id pid None s s'.
Proof.
  intros Hp Hx Hl Ht Hi Ha Hn Hc Hq. eapply entry_closed; try done.
  - intros k Hk. by rewrite Ht, lookup_delete_ne.
  - by rewrite Ht, lookup_delete_eq.
  - intros j. unfold count_view. by rewrite Hc.
Qed.

Lemma pending_live p : p.(pstatus) = PendingApproval → is_live p.(pstatus) = true.
Proof. by intros ->. Qed.

Lemma rejected_change id pid p s :
  parts_inv s → s.(Participations) !! (id, pid) = Some p → p.(pstatus) = PendingApproval →
  let s1 := remove_all_holder_indexes id p.(holders) s in
  entry_change id pid None s (remove_pending id pid (dec_participant_count id
    (put_Participations (delete (id, pid) s1.(Participations)) s1))).
Proof.
  intros Hp Hx Hst%pending_live s1.
  destruct (remove_all_index id p.(holders) s) as (Hio & _ & _).
  destruct (index_only_rest _ _ Hio) as (Hr1 & Hr2 & Hr3 & Hr4). fold s1 in Hr1, Hr2, Hr3, Hr4.
  eapply deleted_change; try done.
  - simpl. by rewrite Hr1.
  - simpl. by rewrite Hr4.
  - intros j. rewrite remove_pending_queue. unfold pending_approvals. simpl. by rewrite Hr3.
Qed.

Lemma remove_all_put_parts id hs m s :
  remove_all_holder_indexes id hs (put_Participations m s) =
  put_Participations m (remove_all_holder_indexes id hs s).
Proof.
  revert s. induction hs as [|h hs IH]; intros s; [done|]. apply (IH (remove_single_holder_index id h s)).
Qed.

Lemma remove_all_queue id hs j l s :
  remove_all_holder_indexes id hs (queue j l s) = queue j l (remove_all_holder_indexes id hs s).
Proof.
  revert s. induction hs as [|h hs IH]; intros s; [done|]. apply (IH (remove_single_holder_index id h s)).
Qed.

Lemma queue_lookup id l s j :
  pending_approvals j (queue id l s) = if decide (j = id) then l else pending_approvals j s.
Proof.
  unfold pending_approvals, queue. simpl. destruct (decide (j = id)) as [->|].
  - by rewrite lookup_insert_eq.
  - by rewrite lookup_insert_ne.
Qed.

(** One turn of the batch, seen with the queue it has yet to write. *)
Lemma batch_turn_change id pid p kept l s :
  let s0 := queue id (kept ++ pid :: l) s in
  parts_inv s0 → s.(Participations) !! (id, pid) = Some p → p.(pstatus) = PendingApproval →
  entry_change id pid None s0 (queue id (kept ++ l) (rejected id pid p s)).
Proof.
  intros s0 Hp Hx Hst%pending_live. unfold rejected, unindexed. rewrite remove_all_put_parts.
  destruct (remove_all_index id p.(holders) s) as (Hio & _ & _).
  destruct (index_only_rest _ _ Hio) as (Hr1 & Hr2 & Hr3 & Hr4).
  eapply deleted_change; [exact Hp|exact Hx|done|..].
  - done.
  - unfold s0. by rewrite remove_all_queue.
  - unfold s0. by rewrite remove_all_queue.
  - done.
  - simpl. by rewrite Hr4.
  - intros j. unfold s0. rewrite !queue_lookup. destruct (decide (j = id)) as [->|].
    + pose proof (pi_pending_nodup _ Hp id) as Hnd. unfold s0 in Hnd.
      rewrite queue_lookup, decide_True in Hnd by done.
      destruct (remove_first_in pid (kept ++ pid :: l)) as (l1 & l2 & Heq & Hnin & ->); [set_solver|].
      apply NoDup_app in Hnd as (_ & Hk & _).
      assert (pid ∉ kept) as Hpk by (intros Hin; apply (Hk pid Hin); set_solver).
      clear - Heq Hnin Hpk. revert l1 Heq Hnin. induction kept as [|x kept IH]; intros [|y l1] Heq Hnin.
      * by injection Heq as <-.
      * injection Heq as <- _. set_solver.
      * injection Heq as -> _. set_solver.
      * injection Heq as <- Heq. simpl. f_equal. apply IH; set_solver.
    + unfold pending_approvals. simpl. by rewrite Hr3.
Qed.

(** ** The beginning of a participation *)

Lemma count_view_inc id s j :
  (∀ c, count_view s id = Some c → c + 1 ≤ U32_MAX) →
  count_view (inc_participant_count id s) j =
  (λ c, if decide (j = id) then c + 1 else c) <$> count_view s j.
Proof.
  intros Hc. unfold inc_participant_count.
  rewrite (count_view_alter id (λ c, saturating_add U32_MAX c 1)).
  destruct (count_view s j) as [c|] eqn:E; [|done]. simpl. f_equal.
  destruct (decide (j = id)) as [->|]; [|done]. apply saturating_add_exact. auto.
Qed.

(** One more participation can be counted: the identifiers are not exhausted. *)
Lemma room_for_one id pid s :
  parts_inv s → live_weight (s.(Participations) !! (id, pid)) = 0 →
  0 ≤ pid < next_participation_id id s ∨
    (pid = next_participation_id id s ∧ next_participation_id id s + 1 ≤ U32_MAX) →
  ∀ c, count_view s id = Some c → c + 1 ≤ U32_MAX.
Proof.
  intros Hp Hz Hpid c Hc. rewrite (pi_count _ Hp _ _ Hc). pose proof (pi_next _ Hp id) as Hn.
  set (n := next_participation_id id s) in *.
  assert (prefix_sum id (λ _ p, if is_live p.(pstatus) then 1 else 0)
    (delete (id, pid) s.(Participations)) + 1 ≤ U32_MAX) as Hle.
  2: { rewrite prefix_sum_delete, at_prefix_live, Hz in Hle. unfold live_participations. lia. }
  destruct Hpid as [Hpid|[-> Hpid]].
  - assert (live_participations id (put_Participations (<[(id, pid) :=
      mkParticipation id 0 [] PendingApproval 0 0]> s.(Participations)) s) ≤ n) as Hle.
    { unfold live_participations. simpl. rewrite <- (Z2Nat.id n) by lia. apply prefix_count_le.
      intros k v Hk. split; [|case_match; lia]. rewrite Z2Nat.id by lia.
      destruct (decide (k = pid)) as [->|]; [done|]. rewrite lookup_insert_ne in Hk by congruence.
      by apply (pi_wf _ Hp) in Hk as (_ & ? & _). }
    unfold live_participations in Hle. simpl in Hle. rewrite prefix_sum_insert, at_prefix_live, Hz in Hle.
    rewrite prefix_sum_delete, at_prefix_live, Hz. simpl in Hle. lia.
  - transitivity (n + 1); [|done]. apply Zplus_le_compat_r.
    rewrite <- (Z2Nat.id n) by lia. apply prefix_count_le.
    intros k v [_ Hk]%lookup_delete_Some. split; [|case_match; lia]. rewrite Z2Nat.id by lia.
    by apply (pi_wf _ Hp) in Hk as (_ & ? & _).
Qed.

Lemma add_all_same id pid hs s t :
  t.(HolderIndex) = s.(HolderIndex) → t.(HolderAssets) = s.(HolderAssets) →
  (add_holder_indexes id pid hs t).(HolderIndex) = (add_holder_indexes id pid hs s).(HolderIndex) ∧
  (add_holder_indexes id pid hs t).(HolderAssets) = (add_holder_indexes id pid hs s).(HolderAssets).
Proof.
  revert s t. induction hs as [|h hs IH]; intros s t Hi Ha; [done|]. apply IH.
  - simpl. by rewrite Hi.
  - unfold push_holder_asset, holder_assets. simpl. by rewrite Ha.
Qed.

Lemma next_pid_fresh id s : parts_inv s → s.(Participations) !! (id, next_participation_id id s) = None.
Proof.
  intros Hp. destruct (_ !! _) as [p|] eqn:E; [|done]. apply (pi_wf _ Hp) in E as (_ & ? & _). lia.
Qed.

Lemma requested_rest who id hs a now s :
  let s' := requested who id hs a now s in
  let pid := next_participation_id id s in
  same_registry s s' ∧
  s'.(Participations) = <[(id, pid) := mkParticipation id who hs (first_status a now)
    a.(policy).(deposit) a.(policy).(entry_fee)]> s.(Participations) ∧
  s'.(NextParticipationId) = <[id := pid + 1]> s.(NextParticipationId) ∧
  s'.(HolderIndex) = (add_holder_indexes id pid hs s).(HolderIndex) ∧
  s'.(HolderAssets) = (add_holder_indexes id pid hs s).(HolderAssets) ∧
  s'.(RwaAssets) = (inc_participant_count id s).(RwaAssets) ∧
  (∀ j, pending_approvals j s' =
    if decide (j = id ∧ a.(policy).(requires_approval) = true)
    then push_or_skip MaxPendingApprovals (pending_approvals id s) pid else pending_approvals j s).
Proof.
  unfold requested, entered. cbn zeta.
  set (pid := next_participation_id id s). set (p := mkParticipation _ _ _ _ _ _).
  set (s2 := insert_participation id pid p (put_NextParticipationId _ s)).
  destruct (add_all_same id pid hs s s2) as [Hi Ha]; [done|done|].
  destruct (index_only_rest _ _ (add_all_index_only id pid hs s2)) as (Hr1 & Hr2 & Hr3 & Hr4).
  set (s3 := add_holder_indexes id pid hs s2) in *.
  assert (same_registry s (inc_participant_count id s3)) as Hreg.
  { eapply same_registry_trans; [|apply inc_count_registry].
    eapply same_registry_trans; [|apply add_all_registry]. by split. }
  assert (∀ j, pending_approvals j (inc_participant_count id s3) = pending_approvals j s) as Hq
    by (intros; unfold pending_approvals; simpl; by rewrite Hr3).
  destruct (requires_approval (policy a)) eqn:Hra; split_and!; simpl; rewrite ?Hr1, ?Hr2, ?Hr4; try done.
  - eapply same_registry_trans; [exact Hreg|by split].
  - intros j. rewrite queue_lookup, !Hq. case_decide; case_decide; naive_solver.
  - intros j. rewrite Hq. case_decide; naive_solver.
Qed.

Lemma requested_change who id hs a now s :
  parts_inv s → s.(RwaAssets) !! id = Some a → hs ≠ [] → NoDup hs →
  Forall (can_hold id s) hs → next_participation_id id s + 1 ≤ U32_MAX →
  (a.(policy).(requires_approval) = true →
     Z.of_nat (length (pending_approvals id s)) < MaxPendingApprovals) →
  let pid := next_participation_id id s in
  entry_change id pid (Some (mkParticipation id who hs (first_status a now)
    a.(policy).(deposit) a.(policy).(entry_fee))) s (requested who id hs a now s).
Proof.
  intros Hp Ha Hne Hnd Hcan Hn Hlen pid.
  destruct (requested_rest who id hs a now s) as (_ & Hr1 & Hr2 & Hr3 & Hr4 & Hr5 & Hr6).
  pose proof (next_pid_fresh id s Hp) as Hf. fold pid in Hf, Hr1, Hr2, Hr3, Hr4, Hr6.
  pose proof (pi_next _ Hp id) as Hnx.
  assert (∀ j, next_participation_id j (requested who id hs a now s) =
    if decide (j = id) then pid + 1 else next_participation_id j s) as Hnext.
  { intros j. unfold next_participation_id at 1. rewrite Hr2. destruct (decide (j = id)) as [->|].
    - by rewrite lookup_insert_eq.
    - by rewrite lookup_insert_ne. }
  assert (is_live (first_status a now) = true) as Hl
    by (unfold first_status; by destruct (requires_approval _)).
  eapply entry_opened; try done.
  - by rewrite Hf.
  - split; simpl; [done|done|done|congruence].
  - unfold count_view. by rewrite Ha.
  - rewrite Hnext, decide_True by done. unfold pid in *. lia.
  - intros j. rewrite Hnext. pose proof (pi_next _ Hp j).
    destruct (decide (j = id)) as [->|]; unfold pid in *; lia.
  - intros j. unfold count_view at 1. rewrite Hr5. apply count_view_inc.
    apply (room_for_one id pid); [done|by rewrite Hf|by right].
  - intros j. rewrite Hr6. pose proof (pi_pending_nodup _ Hp j) as Hq. pose proof (pi_pending_len _ Hp j).
    destruct (decide (j = id ∧ _)) as [[-> Hra]|Hd].
    + specialize (Hlen Hra). unfold push_or_skip.
      rewrite (proj2 (try_push_Some _ _ pid (pending_approvals id s ++ [pid]))) by done. simpl.
      assert (pid ∉ pending_approvals id s) as Hnin
        by (intros Hin; destruct (pi_pending _ Hp _ _ Hin) as (? & Hx & _); congruence).
      split_and!; [by auto with vec|rewrite length_app; simpl; lia|].
      intros q [Hin|Hin]%elem_of_app; [left; split; [intros [= ->]|]; done|right].
      apply list_elem_of_singleton in Hin as ->. unfold first_status. by rewrite Hra.
    + split_and!; [done|done|]. intros q Hin. left. split; [|done]. intros [= -> ->].
      destruct (pi_pending _ Hp _ _ Hin) as (? & Hx & _). congruence.
Qed.

(** A settled participation comes back. *)
Lemma reentered_change id pid p st dep s :
  parts_inv s → s.(Participations) !! (id, pid) = Some p → p.(pstatus) = Expired →
  is_active_p st = true → Forall (can_hold id s) p.(holders) →
  entry_change id pid (Some (set_pstatus st (set_deposit_held dep p))) s
    (insert_participation id pid (set_pstatus st (set_deposit_held dep p))
      (reentered id pid p.(holders) s)).
Proof.
  intros Hp Hx Hst Hact Hcan. destruct (pi_wf _ Hp _ _ _ Hx) as (Hcv & Hpid & Hw).
  destruct (index_only_rest _ _ (add_all_index_only id pid p.(holders) s)) as (Hr1 & Hr2 & Hr3 & Hr4).
  assert (is_live st = true) as Hl by (by destruct st).
  assert (∀ j, next_participation_id j (insert_participation id pid
     (set_pstatus st (set_deposit_held dep p)) (reentered id pid p.(holders) s)) =
     next_participation_id j s) as Hnext
    by (intros; unfold next_participation_id; simpl; by rewrite Hr2).
  eapply entry_opened; try done.
  - rewrite Hx. simpl. by rewrite Hst.
  - destruct Hw as [H1 H2 H3 H4]. split; simpl; [done|done| |congruence].
    intros _. apply H3. by rewrite Hst.
  - by rewrite Hnext.
  - simpl. by rewrite Hr1.
  - intros j. rewrite Hnext. pose proof (pi_next _ Hp j). lia.
  - intros j. unfold count_view at 1. simpl. rewrite Hr4. apply count_view_inc.
    apply (room_for_one id pid); [done|rewrite Hx; simpl; by rewrite Hst|by left].
  - intros j. assert (pending_approvals j (insert_participation id pid
      (set_pstatus st (set_deposit_held dep p)) (reentered id pid p.(holders) s))
      = pending_approvals j s) as -> by (unfold pending_approvals; simpl; by rewrite Hr3).
    apply (queue_kept id pid p); [done|done|congruence].
Qed.

(** ** Changes of the group *)

Lemma add_holder_change id pid p h s :
  parts_inv s → s.(Participations) !! (id, pid) = Some p → is_active_p p.(pstatus) = true →
  h ∉ p.(holders) → can_hold id s h →
  let p' := set_holders (p.(holders) ++ [h]) p in
  entry_change id pid (Some p') s
    (insert_participation id pid p' (add_holder_indexes id pid [h] s)).
Proof.
  intros Hp Hx Hact Hh [Hfree Hroom] p'. destruct (active_live _ Hact) as [Hl Hnp].
  destruct (pi_wf _ Hp _ _ _ Hx) as (Hcv & Hpid & [Hw1 Hw2 Hw3 Hw4]).
  destruct (add_all_index id pid [h] s) as (Hio & Hi & Ha).
  { apply NoDup_singleton. }
  { intros x ->%list_elem_of_singleton. split; [|done]. rewrite (pi_assets _ Hp), Hfree. by intros [? ?]. }
  destruct (index_only_rest _ _ Hio) as (Hr1 & Hr2 & Hr3 & Hr4).
  set (s1 := add_holder_indexes id pid [h] s) in *. clearbody s1.
  assert (∀ x, x ∈ p.(holders) → s.(HolderIndex) !! (id, x) = Some pid) as Hold
    by (intros x Hin; apply (pi_index _ Hp); eauto).
  assert (live_holders (Some p') = p.(holders) ++ [h]) as Hlh by (simpl; by rewrite Hl).
  assert (live_holders (s.(Participations) !! (id, pid)) = p.(holders)) as Hlh'
    by (rewrite Hx; simpl; by rewrite Hl).
  split; rewrite ?Hlh, ?Hlh'.
  - intros k Hk. simpl. by rewrite Hr1, lookup_insert_ne.
  - simpl. by rewrite lookup_insert_eq.
  - intros j x. simpl. rewrite Hi. destruct (decide (j = id ∧ x ∈ p.(holders) ++ [h])) as [[-> Hin]|Hn].
    + apply elem_of_app in Hin as [Hin|Hin]; [|by rewrite decide_True].
      destruct (decide _); [done|]. auto.
    + rewrite !decide_False by set_solver. done.
  - intros x. change (holder_assets x (insert_participation _ _ _ s1)) with (holder_assets x s1).
    simpl. rewrite Ha, Hi. destruct (decide (x ∈ [h])) as [->%list_elem_of_singleton|Hn].
    + rewrite decide_True by set_solver.
      assert (id ∉ holder_assets h s) by (rewrite (pi_assets _ Hp), Hfree; by intros [? ?]).
      split; [intros; by auto with vec|set_solver|set_solver].
    + rewrite decide_False by naive_solver. apply relisted_same, (pi_assets _ Hp).
  - intros j. unfold count_view. simpl. rewrite Hr4, Hx. simpl. rewrite Hl.
    destruct (RwaAssets s !! j); [|done]. simpl. f_equal. case_decide; lia.
  - intros j. unfold next_participation_id. simpl. rewrite Hr2. pose proof (pi_next _ Hp j). split; [done|].
    apply (pi_next _ Hp j).
  - intros j. unfold pending_approvals. simpl. rewrite Hr3. fold (pending_approvals j s).
    by apply (queue_kept id pid p).
  - intros q [= <-]. unfold next_participation_id. simpl. rewrite Hr2. split_and!; try done; [apply Hpid..|].
    split; simpl; [done|by auto with vec| |done]. by destruct p.(holders).
  - intros x Hin. apply elem_of_app in Hin as [?| ->%list_elem_of_singleton]; auto.
Qed.

Lemma drop_holder_change id pid p h s :
  parts_inv s → s.(Participations) !! (id, pid) = Some p → is_active_p p.(pstatus) = true →
  h ∈ p.(holders) → remove_first h p.(holders) ≠ [] →
  let p' := set_holders (remove_first h p.(holders)) p in
  entry_change id pid (Some p') s
    (insert_participation id pid p' (remove_single_holder_index id h s)).
Proof.
  intros Hp Hx Hact Hh Hne p'. destruct (active_live _ Hact) as [Hl Hnp].
  destruct (pi_wf _ Hp _ _ _ Hx) as (Hcv & Hpid & [Hw1 Hw2 Hw3 Hw4]).
  destruct (remove_all_index id [h] s) as (_ & Hi & Ha).
  specialize (λ x, Ha x (NoDup_singleton h)). cbn zeta in Hi, Ha.
  change (remove_all_holder_indexes id [h] s) with (remove_single_holder_index id h s) in *.
  set (s1 := remove_single_holder_index id h s) in *.
  assert (∀ x, x ∈ p.(holders) → s.(HolderIndex) !! (id, x) = Some pid) as Hold
    by (intros x Hin; apply (pi_index _ Hp); eauto).
  assert (live_holders (Some p') = remove_first h p.(holders)) as Hlh by (simpl; by rewrite Hl).
  assert (live_holders (s.(Participations) !! (id, pid)) = p.(holders)) as Hlh'
    by (rewrite Hx; simpl; by rewrite Hl).
  pose proof (notin_remove_first h _ Hw2) as Hgone.
  split; rewrite ?Hlh, ?Hlh'.
  - intros k Hk. simpl. by rewrite lookup_insert_ne.
  - simpl. by rewrite lookup_insert_eq.
  - intros j x. change (HolderIndex (insert_participation _ _ _ s1)) with (HolderIndex s1). rewrite Hi.
    destruct (decide (x = h)) as [->|Hxh].
    + rewrite (decide_False (P := j = id ∧ h ∈ remove_first h p.(holders))) by naive_solver.
      destruct (decide (j = id)) as [->|Hj].
      * rewrite !decide_True by set_solver. done.
      * rewrite !decide_False by naive_solver. done.
    + rewrite (decide_False (P := j = id ∧ x ∈ [h])) by set_solver.
      destruct (decide (j = id ∧ x ∈ remove_first h p.(holders))) as [[-> Hin]|Hn].
      * apply elem_of_remove_first in Hin; auto.
      * rewrite elem_of_remove_first in Hn by done. by rewrite decide_False.
  - intros x. change (holder_assets x (insert_participation _ _ _ s1)) with (holder_assets x s1).
    change (HolderIndex (insert_participation _ _ _ s1)) with (HolderIndex s1).
    rewrite Ha, Hi. destruct (decide (x ∈ [h])) as [->%list_elem_of_singleton|Hn].
    + rewrite decide_True by set_solver. apply relisted_remove. by intros [? ?].
    + rewrite decide_False by naive_solver. apply relisted_same, (pi_assets _ Hp).
  - intros j. unfold count_view. simpl. rewrite Hx. simpl. rewrite Hl.
    destruct (RwaAssets s !! j); [|done]. simpl. f_equal. case_decide; lia.
  - intros j. change (next_participation_id j (insert_participation _ _ _ s1))
      with (next_participation_id j s). pose proof (pi_next _ Hp j). lia.
  - intros j. change (pending_approvals j (insert_participation _ _ _ s1)) with (pending_approvals j s).
    by apply (queue_kept id pid p).
  - intros q [= <-]. split_and!; try done; [apply Hpid..|].
    split; simpl; [done|by auto with vec|done|done].
  - intros x Hin. left. by apply remove_first_subseteq in Hin.
Qed.

(** The last holder leaves. *)
Lemma last_holder_change id pid p h s :
  parts_inv s → s.(Participations) !! (id, pid) = Some p → is_active_p p.(pstatus) = true →
  h ∈ p.(holders) → remove_first h p.(holders) = [] →
  let p' := set_holders (remove_first h p.(holders)) p in
  entry_change id pid (Some (close Exited p')) s
    (insert_participation id pid (close Exited p')
      (dec_participant_count id (remove_single_holder_index id h s))).
Proof.
  intros Hp Hx Hact Hh Hnil p'. destruct (active_live _ Hact) as [Hl Hnp].
  destruct (pi_wf _ Hp _ _ _ Hx) as (Hcv & Hpid & [Hw1 Hw2 Hw3 Hw4]).
  assert (p.(holders) = [h]) as Hhs.
  { destruct (remove_first_in h p.(holders) Hh) as (l1 & l2 & Hl12 & _ & Heq).
    rewrite Heq in Hnil. apply app_eq_nil in Hnil as [-> ->]. done. }
  eapply parts_closed; [done|exact Hx|done|done| |by eapply queue_untouched|].
  - split; simpl; [done| |done|done]. rewrite Hnil. constructor.
  - by rewrite Hhs.
Qed.
End operations.
