(* ===== verification/RwaReach.v ===== *)
(** * pallet-rwa: reachable states

    Every call and the hook keep the invariant, hence every reachable state
    has it. *)

From S2P Require Import Prelude Arith Errors Frame Rwa RwaSpec RwaInv RwaParts RwaCorrect.

(** What the types of the arguments say and a [Z] does not. *)
Definition typed_call {T : Config} (call : Call) : Prop :=
  match call with
  | Set_slash_distribution _ d =>
      Forall (λ r, 0 ≤ r.(share) ≤ PERMILL_ACCURACY) d ∧ Z.of_nat (length d) ≤ MaxSlashRecipients
  | _ => True
  end.

Section preserved.
Context {W : Type} `{!System W, !Currency W, !ReservableCurrency W, !Fungibles W}
  `{!ParticipationFilter W, !AssetLifecycleGuard W} {T : Config}.
Implicit Types (e : CEnv W) (s : State) (a : AssetInfo) (p : Participation).

(** ** Assembling the invariant *)

Lemma Inv_entry id pid new s s' :
  Inv s → entry_change id pid new s s' → same_registry s s' →
  (∀ j o, asset_view s j = Some (o, Retired) → pending_approvals j s' ⊆ pending_approvals j s) →
  Inv s'.
Proof.
  intros [Hr Hp Hl] Hc Hs Hq. split.
  - by eapply registry_frame.
  - by eapply parts_entry.
  - intros j o Hv. rewrite (sr_view _ _ Hs) in Hv. specialize (Hq j o Hv).
    rewrite (Hl j o Hv) in Hq. by apply list_nil_subseteq in Hq.
Qed.

Lemma Inv_asset s s' :
  Inv s → registry_inv s' → same_parts s s' →
  (∀ id o, asset_view s' id = Some (o, Retired) →
     (∃ o', asset_view s id = Some (o', Retired)) ∨ pending_approvals id s' = []) →
  Inv s'.
Proof.
  intros [Hr Hp Hl] Hr' Hs Hv. split; [done|by eapply parts_frame|].
  intros id o Ho. destruct (Hv id o Ho) as [[o' Ho']|]; [|done].
  destruct (sp_pending _ _ Hs id) as [->|]; [|done]. by eapply Hl.
Qed.

(** The record of an asset is replaced; its participants are those it had. *)
Lemma Inv_record id a a' s :
  Inv s → s.(RwaAssets) !! id = Some a → a'.(participant_count) = a.(participant_count) →
  registry_inv (insert_asset id a' s) → (a'.(status) = Retired → a.(status) = Retired) →
  Inv (insert_asset id a' s).
Proof.
  intros HI Ha Hc Hr Hst. eapply Inv_asset; [done|done|..].
  - split; auto. intros j. left. unfold count_view. simpl. destruct (decide (j = id)) as [->|].
    + rewrite lookup_insert_eq, Ha. simpl. by rewrite Hc.
    + by rewrite lookup_insert_ne.
  - intros j o. rewrite view_insert. destruct (decide (j = id)) as [->|]; [|eauto].
    intros [= _ Hx]. left. exists a.(owner). rewrite (asset_view_Some _ _ _ Ha), (Hst Hx). done.
Qed.

(** A record with other terms, or another of the statuses no list depends on. *)
Lemma Inv_terms id a a' s :
  Inv s → s.(RwaAssets) !! id = Some a → a'.(participant_count) = a.(participant_count) →
  a'.(owner) = a.(owner) → a'.(status) = a.(status) → Inv (insert_asset id a' s).
Proof.
  intros HI Ha Hc Ho Hst. eapply Inv_record; [done|exact Ha|done| |congruence].
  eapply registry_record; [apply (inv_registry _ HI)|done..].
Qed.

Lemma Inv_restatus id a st s :
  Inv s → s.(RwaAssets) !! id = Some a → plain_status a.(status) = true → plain_status st = true →
  Inv (insert_asset id (set_status st a) s).
Proof.
  intros HI Ha Hp Hp'. eapply Inv_record; [done|exact Ha|done| |].
  - apply registry_status; [apply (inv_registry _ HI)|done..].
  - simpl. by intros ->.
Qed.

Lemma Inv_same_assets s s' :
  Inv s → registry_inv s' → s'.(RwaAssets) = s.(RwaAssets) →
  s'.(Participations) = s.(Participations) → s'.(NextParticipationId) = s.(NextParticipationId) →
  s'.(HolderIndex) = s.(HolderIndex) → s'.(HolderAssets) = s.(HolderAssets) →
  s'.(PendingApprovals) = s.(PendingApprovals) → Inv s'.
Proof.
  intros HI Hr Ha H1 H2 H3 H4 H5. eapply Inv_asset; [done|done|..].
  - split; try done; intros; left; [unfold count_view|unfold pending_approvals]; congruence.
  - intros id o Hv. left. exists o. unfold asset_view in *. congruence.
Qed.

(** ** The registry *)

Lemma Inv_registered who b pol m now s :
  Inv s → Z.of_nat (length (owner_assets who s)) < MaxAssetsPerOwner →
  s.(NextRwaAssetId) + 1 ≤ U32_MAX → Inv (registered who b pol m now s).
Proof.
  intros HI Hlen Hn. pose proof (inv_registry _ HI) as Hr.
  pose proof (next_id_fresh _ Hr) as Hf.
  eapply Inv_asset; [done|by apply registry_registered|..].
  - split; auto. intros j. unfold count_view, registered. simpl.
    destruct (decide (j = s.(NextRwaAssetId))) as [->|].
    + rewrite lookup_insert_eq, Hf. by right.
    + rewrite lookup_insert_ne by done. by left.
  - intros j o. unfold asset_view, registered. simpl.
    destruct (decide (j = s.(NextRwaAssetId))) as [->|].
    + by rewrite lookup_insert_eq.
    + rewrite lookup_insert_ne by done. eauto.
Qed.

Lemma retired_same_parts id a s : same_parts s (retired id a (unscheduled id a s)).
Proof.
  destruct (unscheduled_rest id a s) as (Hra & _ & _ & _ & _ & [H1 H2 H3 H4 H5 H6]).
  split; try done.
  - intros j. left. unfold count_view, retired, mutate_asset. simpl. rewrite Hra.
    destruct (decide (j = id)) as [->|].
    + rewrite lookup_alter_eq. by destruct (RwaAssets s !! id).
    + by rewrite lookup_alter_ne.
  - intros j. unfold pending_approvals, retired, clear_asset. simpl.
    destruct (decide (j = id)) as [->|]; [right; by rewrite lookup_delete_eq|].
    rewrite lookup_delete_ne by done. left.
    unfold unscheduled. by destruct a.(status).
Qed.

Lemma Inv_retired id a s :
  Inv s → s.(RwaAssets) !! id = Some a → Inv (retired id a (unscheduled id a s)).
Proof.
  intros HI Ha. eapply Inv_asset; [done|apply registry_retired; [apply HI|done]|apply retired_same_parts|].
  intros j o. unfold asset_view, retired, mutate_asset. simpl.
  destruct (unscheduled_rest id a s) as (-> & _). destruct (decide (j = id)) as [->|].
  - intros _. right. unfold pending_approvals. simpl. by rewrite lookup_delete_eq.
  - rewrite lookup_alter_ne by done. eauto.
Qed.

Lemma Inv_sunset id b a s :
  Inv s → s.(RwaAssets) !! id = Some a → plain_status a.(status) = true →
  Z.of_nat (length (sunsetting_assets b s)) < MaxSunsettingPerBlock → Inv (sunset id b a s).
Proof.
  intros HI Ha Hp Hlen. eapply Inv_asset; [done|apply registry_sunset; try done; apply HI|..].
  - split; auto. intros j. left. unfold count_view, sunset. simpl. destruct (decide (j = id)) as [->|].
    + by rewrite lookup_insert_eq, Ha.
    + by rewrite lookup_insert_ne.
  - intros j o. unfold asset_view, sunset. simpl. destruct (decide (j = id)) as [->|].
    + by rewrite lookup_insert_eq.
    + rewrite lookup_insert_ne by done. eauto.
Qed.

Lemma Inv_owned_by who id a s :
  Inv s → s.(RwaAssets) !! id = Some a → s.(PendingOwnershipTransfer) !! id = Some who →
  Z.of_nat (length (owner_assets who s)) < MaxAssetsPerOwner → Inv (owned_by who id a s).
Proof.
  intros HI Ha Hp Hlen. eapply Inv_asset; [done|apply registry_owned_by; try done; apply HI|..].
  - split; auto. intros j. left. unfold count_view, owned_by. simpl. destruct (decide (j = id)) as [->|].
    + by rewrite lookup_insert_eq, Ha.
    + by rewrite lookup_insert_ne.
  - intros j o. unfold asset_view, owned_by. simpl. destruct (decide (j = id)) as [->|].
    + rewrite lookup_insert_eq. intros [= _ Hx]. left. exists a.(owner). rewrite Ha. simpl. by rewrite Hx.
    + rewrite lookup_insert_ne by done. eauto.
Qed.

(** ** The hook *)

Lemma Inv_views s s' : Inv s → same_registry s s' → same_parts s s' → Inv s'.
Proof.
  intros HI Hr Hp. eapply Inv_asset; [done|eapply registry_frame; [apply HI|done]|done|].
  intros id o. rewrite (sr_view _ _ Hr). eauto.
Qed.

Lemma scheduled_views n l s s' :
  (∀ b, sunsetting_assets b s' = if decide (b = n) then l else sunsetting_assets b s) →
  s' = put_SunsettingAssets s'.(SunsettingAssets) s →
  same_registry (scheduled n l s) s' ∧ same_parts (scheduled n l s) s'.
Proof.
  intros Hb Heq. assert (∀ b, sunsetting_assets b s' = sunsetting_assets b (scheduled n l s)) as Hs
    by (intros; by rewrite scheduled_sunset).
  rewrite Heq in Hs |- *. split; split; auto.
Qed.

Lemma Inv_retire_turn n id l e e' :
  Inv (scheduled n (id :: l) (store e)) → sunsetting_assets n (store e) = [] →
  retire_turn id e e' →
  Inv (scheduled n l (store e')) ∧ sunsetting_assets n (store e') = [].
Proof.
  unfold retire_turn. intros HI Hnil Ht. pose proof (inv_registry _ HI) as Hr.
  assert (∃ o, asset_view (store e) id = Some (o, Sunsetting n)) as [o Ho].
  { apply (ri_sunset _ Hr n id). rewrite scheduled_sunset, decide_True by done. by left. }
  unfold asset_view in Ho. destruct ((store e).(RwaAssets) !! id) as [a|] eqn:Ha; [|done].
  injection Ho as _ Hst. rewrite bool_decide_false in Ht by congruence.
  destruct Ht as (r & _ & ->). split; [|exact Hnil].
  eapply Inv_asset; [exact HI|by apply registry_retire_turn|..].
  - split; try done.
    + intros j. left. unfold count_view. simpl. destruct (decide (j = id)) as [->|].
      * by rewrite lookup_insert_eq, Ha.
      * by rewrite lookup_insert_ne.
    + intros j. unfold pending_approvals. simpl. destruct (decide (j = id)) as [->|].
      * right. by rewrite lookup_delete_eq.
      * left. by rewrite lookup_delete_ne.
  - intros j x. unfold asset_view. simpl. destruct (decide (j = id)) as [->|].
    + intros _. right. unfold pending_approvals. simpl. by rewrite lookup_delete_eq.
    + rewrite lookup_insert_ne by done. eauto.
Qed.

Lemma Inv_retire_turns n l e e' :
  Inv (scheduled n l (store e)) → sunsetting_assets n (store e) = [] →
  retire_turns l e e' → Inv (store e').
Proof.
  revert e. induction l as [|id l IH]; intros e HI Hnil; simpl.
  - intros ->. eapply Inv_views; [exact HI| |]; apply (scheduled_views n []); try (by destruct (store e));
      intros b; case_decide; by subst.
  - intros (e1 & Ht & Hl). destruct (Inv_retire_turn _ _ _ _ _ HI Hnil Ht). eauto.
Qed.

Lemma on_initialize_inv n e e' : Inv (store e) → on_initialize n e = Ok (tt, e') → Inv (store e').
Proof.
  intros HI Hrun%on_initialize_run. set (s := store e) in *.
  assert (∀ b, sunsetting_assets b (put_SunsettingAssets (delete n s.(SunsettingAssets)) s) =
    if decide (b = n) then [] else sunsetting_assets b s) as Hd.
  { intros b. unfold sunsetting_assets. simpl. destruct (decide (b = n)) as [->|].
    - by rewrite lookup_delete_eq.
    - by rewrite lookup_delete_ne. }
  eapply (Inv_retire_turns n); [..|exact Hrun]; simpl.
  - eapply Inv_views; [exact HI| |].
    + split; try done. intros b. rewrite scheduled_sunset, Hd. by destruct (decide (b = n)) as [->|].
    + split; auto.
  - rewrite Hd. by rewrite decide_True.
Qed.

(** ** Participations *)

Lemma closed_registry id pid p hs s :
  same_registry s (insert_participation id pid p (unindexed id hs s)).
Proof.
  unfold unindexed. eapply same_registry_trans; [|apply insert_participation_registry].
  eapply same_registry_trans; [apply remove_all_registry|apply dec_count_registry].
Qed.

Lemma remove_all_pending id hs s j :
  pending_approvals j (remove_all_holder_indexes id hs s) = pending_approvals j s.
Proof.
  destruct (remove_all_index id hs s) as (Hio & _). apply index_only_rest in Hio as (_ & _ & Hq & _).
  unfold pending_approvals. by rewrite Hq.
Qed.

Lemma Inv_settled id pid p s :
  Inv s → s.(Participations) !! (id, pid) = Some p → is_active_p p.(pstatus) = true →
  Inv (settled id pid p s).
Proof.
  intros HI Hx Hact. eapply Inv_entry; [done|apply settled_change; try done; apply HI|apply closed_registry|].
  intros j o _. change (pending_approvals j (settled id pid p s))
    with (pending_approvals j (remove_all_holder_indexes id p.(holders) s)).
  by rewrite remove_all_pending.
Qed.

Lemma Inv_ended st id pid p s :
  Inv s → s.(Participations) !! (id, pid) = Some p → is_live p.(pstatus) = true →
  is_live st = false →
  (p.(pstatus) = PendingApproval → ∃ o, asset_view s id = Some (o, Retired)) →
  Inv (end_participation st id pid p s).
Proof.
  intros HI Hx Hl Hst Hpend. pose proof (inv_parts _ HI) as Hp.
  eapply Inv_entry; [done|apply ended_change; try done|..].
  - destruct (decide (p.(pstatus) = PendingApproval)) as [Hpe|Hne]; [|by eapply queue_untouched].
    intros j. destruct (decide (j = id)) as [->|]; [|done].
    destruct (Hpend Hpe) as [o Ho]. by rewrite (inv_retired _ HI id o Ho).
  - rewrite end_participation_eq. apply closed_registry.
  - intros j o _. rewrite end_participation_eq.
    change (pending_approvals j (remove_all_holder_indexes id p.(holders) s) ⊆ pending_approvals j s).
    by rewrite remove_all_pending.
Qed.

Lemma Inv_rejected id pid p s :
  Inv s → s.(Participations) !! (id, pid) = Some p → p.(pstatus) = PendingApproval →
  let s1 := remove_all_holder_indexes id p.(holders) s in
  Inv (remove_pending id pid (dec_participant_count id
    (put_Participations (delete (id, pid) s1.(Participations)) s1))).
Proof.
  intros HI Hx Hst s1. eapply Inv_entry; [done|apply rejected_change; try done; apply HI|..].
  - eapply same_registry_trans; [apply (remove_all_registry id p.(holders))|].
    apply (same_registry_trans s1 (dec_participant_count id s1)); [apply dec_count_registry|by split].
  - intros j o _. rewrite remove_pending_queue.
    change (pending_approvals j (dec_participant_count id _)) with (pending_approvals j s1).
    unfold s1. rewrite remove_all_pending.
    case_decide; [apply remove_first_subseteq|done].
Qed.

Lemma Inv_requested who id hs a now s :
  Inv s → s.(RwaAssets) !! id = Some a → a.(status) = Active → hs ≠ [] → NoDup hs →
  Forall (can_hold id s) hs → next_participation_id id s + 1 ≤ U32_MAX →
  (a.(policy).(requires_approval) = true →
     Z.of_nat (length (pending_approvals id s)) < MaxPendingApprovals) →
  Inv (requested who id hs a now s).
Proof.
  intros HI Ha Hst Hne Hnd Hcan Hn Hlen.
  destruct (requested_rest who id hs a now s) as (Hreg & _ & _ & _ & _ & _ & Hq).
  eapply Inv_entry; [done|apply requested_change; try done; apply HI|done|].
  intros j o Hv. rewrite Hq. destruct (decide (j = id ∧ _)) as [[-> _]|]; [|done].
  rewrite (asset_view_Some _ _ _ Ha), Hst in Hv. done.
Qed.

Lemma Inv_reentered id pid p st dep s :
  Inv s → s.(Participations) !! (id, pid) = Some p → p.(pstatus) = Expired →
  is_active_p st = true → Forall (can_hold id s) p.(holders) →
  Inv (insert_participation id pid (set_pstatus st (set_deposit_held dep p))
        (reentered id pid p.(holders) s)).
Proof.
  intros HI Hx Hst Hact Hcan.
  destruct (index_only_rest _ _ (add_all_index_only id pid p.(holders) s)) as (_ & _ & Hq & _).
  eapply Inv_entry; [done|apply reentered_change; try done; apply HI|..].
  - unfold reentered. eapply same_registry_trans; [|apply insert_participation_registry].
    eapply same_registry_trans; [apply add_all_registry|apply inc_count_registry].
  - intros j o _. unfold pending_approvals at 1, reentered. simpl. by rewrite Hq.
Qed.

(** The record of a live participation is replaced. *)
Lemma Inv_kept id pid p p' s :
  Inv s → s.(Participations) !! (id, pid) = Some p → is_active_p p.(pstatus) = true →
  is_live p'.(pstatus) = true → p'.(holders) = p.(holders) → p'.(rwa_asset_id) = p.(rwa_asset_id) →
  Inv (insert_participation id pid p' s).
Proof.
  intros HI Hx [Hl Hnp]%active_live Hl' Hh Hid. pose proof (inv_parts _ HI) as Hp.
  eapply Inv_entry; [done|eapply entry_kept; try done|apply insert_participation_registry|done].
  exact (queue_untouched id pid p s Hp Hx Hnp).
Qed.

Lemma Inv_approved id pid p st s :
  Inv s → s.(Participations) !! (id, pid) = Some p → p.(pstatus) = PendingApproval →
  is_active_p st = true →
  Inv (remove_pending id pid (insert_participation id pid (set_pstatus st p) s)).
Proof.
  intros HI Hx Hst Hact.
  eapply Inv_entry; [done|eapply (entry_kept id pid p (set_pstatus st p)); try done|by split|].
  - apply HI.
  - by apply pending_live.
  - simpl. by destruct st.
  - intros j. by rewrite remove_pending_queue.
  - intros j o _. rewrite remove_pending_queue. case_decide; [apply remove_first_subseteq|done].
Qed.

Lemma Inv_add_holder id pid p h s :
  Inv s → s.(Participations) !! (id, pid) = Some p → is_active_p p.(pstatus) = true →
  h ∉ p.(holders) → can_hold id s h →
  Inv (insert_participation id pid (set_holders (p.(holders) ++ [h]) p)
        (add_holder_indexes id pid [h] s)).
Proof.
  intros HI Hx Hact Hh Hcan. eapply Inv_entry; [done|apply add_holder_change; try done; apply HI| |done].
  eapply same_registry_trans; [apply add_all_registry|apply insert_participation_registry].
Qed.

Lemma Inv_dropped id pid a p h e e' :
  Inv (store e) → running id pid e a p → h ∈ p.(holders) → dropped id pid a p h e e' →
  Inv (store e').
Proof.
  intros HI (_ & Hx & _ & Hact) Hh [(Hnil & _ & ->)|(Hne & _ & ->)].
  - eapply Inv_entry; [done|apply last_holder_change; try done; apply HI| |done].
    eapply same_registry_trans; [|apply insert_participation_registry].
    eapply same_registry_trans; [|apply dec_count_registry]. by split.
  - eapply Inv_entry; [done|apply drop_holder_change; try done; apply HI|by split|done].
Qed.

(** ** The batch *)

Lemma Inv_reject_turn id pid a l n kept e e1 n1 kept1 :
  Inv (queue id (kept ++ pid :: l) (store e)) → reject_turn id pid a e n kept e1 n1 kept1 →
  Inv (queue id (kept1 ++ l) (store e1)).
Proof.
  intros HI. pose proof (inv_parts _ HI) as Hp.
  assert (pid ∈ pending_approvals id (queue id (kept ++ pid :: l) (store e))) as Hin
    by (rewrite queue_lookup, decide_True by done; set_solver).
  destruct (pi_pending _ Hp _ _ Hin) as (p & Hx & Hst). simpl in Hx.
  intros [(Hnone & _)|[(p' & _ & -> & -> & ->)|(p' & Hx' & _ & _ & -> & -> & ->)]]; [congruence| |].
  - by rewrite <- app_assoc.
  - rewrite Hx in Hx'. injection Hx' as <-.
    eapply Inv_entry; [exact HI|by apply batch_turn_change|..].
    + unfold rejected, unindexed. rewrite remove_all_put_parts.
      set (r := remove_all_holder_indexes id p.(holders) (store e)).
      apply (same_registry_trans _ (store e)); [by split|].
      apply (same_registry_trans _ r); [apply remove_all_registry|].
      apply (same_registry_trans _ (dec_participant_count id r)); [apply dec_count_registry|by split].
    + intros j o _. rewrite !queue_lookup. case_decide; [set_solver|].
      unfold rejected, unindexed. rewrite remove_all_put_parts.
      change (pending_approvals j (remove_all_holder_indexes id p.(holders) (store e)) ⊆
              pending_approvals j (store e)). by rewrite remove_all_pending.
Qed.

Lemma Inv_reject_each id a l n kept e n' kept' e' :
  Inv (queue id (kept ++ l) (store e)) →
  reject_each id a l n kept e = Ok ((n', kept'), e') → Inv (queue id kept' (store e')).
Proof.
  revert n kept e. induction l as [|pid l IH]; intros n kept e HI Hrun.
  - simpl in Hrun. einv. by rewrite app_nil_r in HI.
  - apply reject_each_cons_ok in Hrun as (e1 & n1 & kept1 & Ht & Hrun).
    eapply IH; [|exact Hrun]. by eapply Inv_reject_turn.
Qed.

Lemma Inv_batch o id e e' :
  Inv (store e) → batch_reject_pending o id e = Ok (tt, e') → Inv (store e').
Proof.
  intros HI (a & n & kept & e1 & _ & _ & Hrun & _ & ->)%batch_reject_pending_run.
  assert (Inv (queue id (pending_approvals id (store e)) (store e))) as HI0.
  { eapply Inv_views; [exact HI|by split|]. split; auto. intros j. rewrite queue_lookup. left.
    by destruct (decide (j = id)) as [->|]. }
  pose proof (Inv_reject_each id a _ 0 [] _ _ _ _ HI0 Hrun) as HI1.
  eapply Inv_views; [exact HI1|by split|]. split; auto. intros j. left. rewrite queue_lookup.
  unfold pending_approvals. simpl. destruct (decide (j = id)) as [->|].
  - case_bool_decide as Hk; [by rewrite lookup_delete_eq, Hk|by rewrite lookup_insert_eq].
  - case_bool_decide as Hk; [by rewrite lookup_delete_ne|by rewrite lookup_insert_ne].
Qed.

(** ** Every call *)

Lemma Inv_renewal_base id pid a p e e1 p1 :
  Inv (store e) → (store e).(Participations) !! (id, pid) = Some p →
  renewal_base id pid a p e e1 p1 →
  Inv (store e1) ∧ (store e1).(Participations) !! (id, pid) = Some p1.
Proof.
  intros HI Hx [(_ & -> & ->)|[(Hl%lapsed_active & _ & Hs) ->]]; [done|]. rewrite Hs. split.
  - by apply Inv_settled.
  - unfold settled. simpl. by rewrite lookup_insert_eq.
Qed.

Lemma Inv_renew o id pid e e' :
  Inv (store e) → renew_participation o id pid e = Ok (tt, e') → Inv (store e').
Proof.
  intros HI (a & p & e1 & p1 & w2 & Ha & Hst & Hx & _ & Hb & _ & _ & Hc)%renew_participation_run.
  destruct (Inv_renewal_base _ _ _ _ _ _ _ HI Hx Hb) as [HI1 Hx1].
  destruct Hc as [(Hact & _ & ->)|(Hex & _ & Hcan & ->)].
  - by eapply Inv_kept.
  - by apply Inv_reentered.
Qed.

Lemma plain_status_of a : a.(status) ∈ [Active; Inactive] → plain_status a.(status) = true.
Proof. destruct a.(status); try done; set_solver. Qed.

Lemma dist_wf_typed d :
  Forall (λ r, 0 ≤ r.(share) ≤ PERMILL_ACCURACY) d → Z.of_nat (length d) ≤ MaxSlashRecipients →
  fold_left (λ acc r, saturating_add U32_MAX acc r.(share)) d 0 = PERMILL_ACCURACY → dist_wf d.
Proof.
  intros Hd Hlen Hsum. split_and!; [done| |done].
  rewrite <- (Z.add_0_r (foldr _ _ _)). apply saturating_shares; [|done|done].
  eapply Forall_impl; [exact Hd|]. simpl. lia.
Qed.

Lemma exit_settle_inv o id pid e e' :
  Inv (store e) → exit_participation o id pid e = Ok (tt, e') → Inv (store e').
Proof.
  intros HI (a & p & Ha & Hx & _ & [(Hl%lapsed_active & _ & ->)|(_ & Hact & _ & ->)])%exit_participation_run.
  - by apply Inv_settled.
  - destruct (active_live _ Hact). by apply Inv_ended.
Qed.

Lemma dispatch_inv o call e e' :
  Inv (store e) → typed_call call → e ⊢ dispatch o call ⇝ e' → Inv (store e').
Proof.
  intros HI Hty Hrun. pose proof (inv_registry _ HI) as Hr. destruct call; simpl in Hrun.
  - apply register_asset_run in Hrun as (who & _ & _ & Hlen & _ & _ & Hn & ->). by apply Inv_registered.
  - apply update_asset_policy_run in Hrun as (a & Ha & _ & _ & _ & _ & ->). by eapply Inv_terms.
  - apply deactivate_asset_run in Hrun as (a & Ha & _ & Hst & _ & ->).
    apply Inv_restatus; try done. by rewrite Hst.
  - apply reactivate_asset_run in Hrun as (a & Ha & _ & Hst & _ & ->).
    apply Inv_restatus; try done. by rewrite Hst.
  - apply sunset_asset_run in Hrun as (a & Ha & _ & Hst%plain_status_of & _ & Hlen & _ & ->).
    by apply Inv_sunset.
  - apply force_retire_asset_run in Hrun as (a & r & Ha & _ & _ & _ & _ & ->). by apply Inv_retired.
  - apply retire_asset_run in Hrun as (a & b & r & Ha & _ & _ & _ & ->). by apply Inv_retired.
  - apply request_participation_run in Hrun as (who & a & _ & Ha & Hst & Hne & _ & Hnd & _ & Hcan
      & _ & Hlen & Hn & _ & ->). apply (sort_dedup_NoDup Z.le) in Hnd. by apply Inv_requested.
  - apply approve_participation_run in Hrun as (a & p & _ & _ & _ & Hx & Hst & _ & ->).
    by apply Inv_approved.
  - apply reject_participation_run in Hrun as (a & p & _ & _ & Hx & Hst & _ & ->). by apply Inv_rejected.
  - by eapply exit_settle_inv.
  - by eapply Inv_renew.
  - apply settle_expired_run in Hrun as (a & p & _ & Hx & Hl%lapsed_active & _ & ->). by apply Inv_settled.
  - apply claim_retired_deposit_run in Hrun as (a & p & Ha & Hst & Hx & Hl & _ & ->).
    apply Inv_ended; try done. intros _. exists a.(owner). rewrite (asset_view_Some _ _ _ Ha). by rewrite Hst.
  - apply add_holder_run in Hrun as (a & p & (_ & Hx & _ & Hact) & _ & Hh & Hcan & _ & _ & _ & ->).
    by apply Inv_add_holder.
  - apply remove_holder_run in Hrun as (a & p & Hrunning & _ & Hh & Hd). by eapply Inv_dropped.
  - apply leave_participation_run in Hrun as (a & p & h & Hrunning & _ & Hh & Hd). by eapply Inv_dropped.
  - apply set_slash_distribution_run in Hrun as (a & _ & _ & Hsum & _ & ->). destruct Hty as [Hd Hlen].
    eapply Inv_same_assets; try done. by apply registry_slash, dist_wf_typed.
  - apply slash_participation_run in Hrun as (a & p & w1 & (_ & Hx & _ & Hact) & _ & _ & _ & _ & _ & ->).
    destruct (active_live _ Hact). by apply Inv_ended.
  - apply revoke_participation_run in Hrun as (a & p & (_ & Hx & _ & Hact) & _ & _ & ->).
    destruct (active_live _ Hact). by apply Inv_ended.
  - apply transfer_ownership_run in Hrun as (a & Ha & _ & Hst & Hne & _ & ->).
    eapply Inv_same_assets; try done. by eapply registry_transfer.
  - apply accept_ownership_run in Hrun as (who & a & r & w1 & Ha & _ & Hp & _ & Hlen & _ & _ & ->).
    by apply Inv_owned_by.
  - apply cancel_ownership_transfer_run in Hrun as (a & _ & _ & _ & ->).
    eapply Inv_same_assets; try done. by apply registry_transfer_dropped.
  - apply update_beneficiary_run in Hrun as (a & Ha & _ & _ & _ & ->). by eapply Inv_terms.
  - apply update_metadata_run in Hrun as (a & Ha & _ & _ & _ & _ & ->). by eapply Inv_terms.
  - apply transfer_participation_run in Hrun as (a & p & (_ & Hx & _ & Hact) & _ & _ & _ & _ & ->).
    destruct (active_live _ Hact). by eapply Inv_kept.
  - apply pause_asset_run in Hrun as (a & Ha & _ & Hst%plain_status_of & _ & ->). by apply Inv_restatus.
  - apply unpause_asset_run in Hrun as (a & Ha & _ & Hst & _ & ->).
    apply Inv_restatus; try done. by rewrite Hst.
  - by eapply Inv_batch.
Qed.

(** ** Reachable states *)

(** What a block can do: a call of the pallet that succeeds, the hook at its
    beginning, and anything the rest of the runtime does. *)
Inductive step (e : CEnv W) : CEnv W → Prop :=
| step_call o call e' : typed_call call → e ⊢ dispatch o call ⇝ e' → step e e'
| step_hook n e' : on_initialize n e = Ok (tt, e') → step e e'
| step_world w' : step e (mkEnv (store e) w' (events e)).

Definition genesis : State := mkState ∅ 0 ∅ ∅ ∅ ∅ ∅ ∅ ∅ ∅ ∅.

Inductive reachable : CEnv W → Prop :=
| reachable_genesis w : reachable (mkEnv genesis w [])
| reachable_step e e' : reachable e → step e e' → reachable e'.

Lemma rwa_genesis_inv : Inv genesis.
Proof.
  assert (∀ id, asset_view genesis id = None) as Hv by done.
  assert (∀ id, count_view genesis id = None) as Hc by done.
  assert (∀ k, Participations genesis !! k = None) as Hp by done.
  assert (∀ k, HolderIndex genesis !! k = None) as Hh by done.
  split.
  - split; try done.
    + intros id. rewrite Hv. by intros [? ?].
    + intros who id. rewrite Hv. change (owner_assets who genesis) with (@nil Z). set_solver.
    + intros who. constructor.
    + intros b id. rewrite Hv. change (sunsetting_assets b genesis) with (@nil Z). set_solver.
    + intros b. constructor.
  - split; try done.
    + intros id h pid. rewrite Hh. setoid_rewrite Hp. naive_solver.
    + intros h id. setoid_rewrite Hh. change (holder_assets h genesis) with (@nil Z).
      unfold is_Some. set_solver.
    + intros h. constructor.
    + intros id pid. change (pending_approvals id genesis) with (@nil Z). set_solver.
    + intros id. constructor.
    + intros id. change (pending_approvals id genesis) with (@nil Z). simpl. lia.
  - intros id o. by rewrite Hv.
Qed.

Lemma step_inv e e' : Inv (store e) → step e e' → Inv (store e').
Proof.
  intros HI [o call e1 Ht Hrun|n e1 Hrun|w']; [by eapply dispatch_inv|by eapply on_initialize_inv|done].
Qed.

Lemma reachable_inv e : reachable e → Inv (store e).
Proof. induction 1 as [w|e e' _ IH Hs]; [apply rwa_genesis_inv|by eapply step_inv]. Qed.
End preserved.
