(* ===== verification/RwaMachine.v ===== *)
(** * pallet-rwa: the abstract machine

    The registry as its users see it: assets, their slash distributions and
    proposed owners, and participations, each with the payments that go with a
    change.  The counters, the approval queues and the five indexes of the
    pallet are not part of it.  Every call of the pallet that succeeds, and the
    hook, is a sequence of transitions of this machine. *)

From S2P Require Import Prelude Arith Errors Frame Rwa RwaSpec RwaInv RwaParts RwaCorrect.
From S2P Require Import RwaReach.

Record Registry := mkRegistry {
  r_assets : gmap Z AssetInfo;
  r_slash : gmap Z (list SlashRecipient);
  r_transfer : gmap Z AccountId;
  r_parts : gmap (Z * Z) Participation;
}.

(** An asset without its counter. *)
Definition uncounted (a : AssetInfo) : AssetInfo := set_participant_count 0 a.

Definition abs (s : State) : Registry :=
  mkRegistry (uncounted <$> s.(RwaAssets)) s.(AssetSlashDistribution)
    s.(PendingOwnershipTransfer) s.(Participations).

Definition put_asset (id : Z) (a : AssetInfo) (r : Registry) : Registry :=
  mkRegistry (<[id := a]> r.(r_assets)) r.(r_slash) r.(r_transfer) r.(r_parts).
Definition put_slash (id : Z) (d : list SlashRecipient) (r : Registry) : Registry :=
  mkRegistry r.(r_assets) (<[id := d]> r.(r_slash)) r.(r_transfer) r.(r_parts).
Definition put_proposal (id : Z) (n : option AccountId) (r : Registry) : Registry :=
  mkRegistry r.(r_assets) r.(r_slash) (partial_alter (λ _, n) id r.(r_transfer)) r.(r_parts).
Definition put_part (id pid : Z) (p : option Participation) (r : Registry) : Registry :=
  mkRegistry r.(r_assets) r.(r_slash) r.(r_transfer)
    (partial_alter (λ _, p) (id, pid) r.(r_parts)).

(** The asset [id] leaves the registry for good. *)
Definition retire (id : Z) (a : AssetInfo) (r : Registry) : Registry :=
  mkRegistry (<[id := set_status Retired a]> r.(r_assets)) (delete id r.(r_slash))
    (delete id r.(r_transfer)) r.(r_parts).

(** The number of live participations of an asset, and the account [h] being
    in none of them. *)
Definition live_in (id : Z) (r : Registry) : Z :=
  prefix_sum id (λ _ p, if is_live p.(pstatus) then 1 else 0) r.(r_parts).
Definition not_in (id : Z) (r : Registry) (h : AccountId) : Prop :=
  ∀ pid p, r.(r_parts) !! (id, pid) = Some p → is_live p.(pstatus) = true → h ∉ p.(holders).

(** What moves the machine: an origin's call, or the hook of a block. *)
Inductive mover :=
| ByCall (o : Origin) (call : Call)
| ByHook (n : BlockNumber).

Section machine.
Context {W : Type} `{!System W, !Currency W, !ReservableCurrency W, !Fungibles W}
  `{!ParticipationFilter W, !AssetLifecycleGuard W} {T : Config}.
Implicit Types (e : CEnv W) (s : State) (w : W) (r : Registry) (a : AssetInfo) (p : Participation).

Definition called_by (m : mover) (P : Origin → Prop) : Prop :=
  match m with ByCall o _ => P o | ByHook _ => False end.
Definition signed_by (m : mover) (who : AccountId) : Prop := called_by m (λ o, o = Signed who).
Definition by_owner (m : mover) (a : AssetInfo) : Prop := signed_by m a.(owner).
Definition by_owner_or_admin (m : mover) (a : AssetInfo) : Prop := called_by m (λ o, acts_for_owner o a).
Definition by_admin (m : mover) : Prop := called_by m (λ o, AdminOrigin o = true).
Definition by_force (m : mover) : Prop := called_by m (λ o, ForceOrigin o = true).
(** The call that moves the machine. *)
Definition asks (m : mover) (call : Call) : Prop :=
  match m with ByCall _ c => c = call | ByHook _ => False end.
Definition clock (m : mover) (w : W) : BlockNumber :=
  match m with ByCall _ _ => block_number w | ByHook n => n end.

(** The transitions of an asset. *)
Inductive asset_move (m : mover) (id : Z) (r : Registry) (w : W) : Registry → W → Prop :=
| move_register who b pol meta w' :
    signed_by m who → asks m (Register_asset b pol meta) → r.(r_assets) !! id = None →
    MinParticipationDeposit ≤ pol.(deposit) → Z.of_nat (length meta) ≤ MaxMetadataLen →
    reserve who AssetRegistrationDeposit w = Ok (tt, w') →
    asset_move m id r w
      (put_asset id (mkAssetInfo who b Active pol meta 0 AssetRegistrationDeposit (block_number w')) r) w'
| move_policy a pol :
    r.(r_assets) !! id = Some a → by_owner m a → asks m (Update_asset_policy id pol) →
    a.(status) = Active →
    a.(policy).(deposit_currency) = pol.(deposit_currency) →
    a.(policy).(deposit) = pol.(deposit) →
    (∀ max, pol.(max_participants) = Some max → live_in id r ≤ max) →
    (0 < live_in id r → policy_change_allowed a.(policy) pol = true) →
    asset_move m id r w (put_asset id (set_policy pol a) r) w
| move_deactivate a :
    r.(r_assets) !! id = Some a → by_owner m a → a.(status) = Active →
    asset_move m id r w (put_asset id (set_status Inactive a) r) w
| move_reactivate a :
    r.(r_assets) !! id = Some a → by_owner m a → a.(status) = Inactive →
    asset_move m id r w (put_asset id (set_status Active a) r) w
| move_pause a :
    r.(r_assets) !! id = Some a → by_admin m → a.(status) ∈ [Active; Inactive] →
    asset_move m id r w (put_asset id (set_status Paused a) r) w
| move_unpause a :
    r.(r_assets) !! id = Some a → by_admin m → a.(status) = Paused →
    asset_move m id r w (put_asset id (set_status Active a) r) w
| move_sunset a b :
    r.(r_assets) !! id = Some a → by_owner m a → a.(status) ∈ [Active; Inactive] →
    block_number w < b →
    asset_move m id r w (put_asset id (set_status (Sunsetting b) a) r) w
| move_retire a b x w' :
    r.(r_assets) !! id = Some a → a.(status) = Sunsetting b → b ≤ clock m w →
    unreserve a.(owner) a.(registration_deposit) w = (x, w') →
    asset_move m id r w (retire id a r) w'
| move_force_retire a x w' :
    r.(r_assets) !! id = Some a → by_force m → a.(status) ≠ Retired →
    can_retire_asset id w = Ok tt →
    unreserve a.(owner) a.(registration_deposit) w = (x, w') →
    asset_move m id r w (retire id a r) w'
| move_propose a n :
    r.(r_assets) !! id = Some a → by_owner m a → a.(status) ≠ Retired → n ≠ a.(owner) →
    asset_move m id r w (put_proposal id (Some n) r) w
| move_cancel a :
    r.(r_assets) !! id = Some a → by_owner m a →
    asset_move m id r w (put_proposal id None r) w
| move_accept a who x w1 w' :
    r.(r_assets) !! id = Some a → r.(r_transfer) !! id = Some who → signed_by m who →
    a.(status) ∉ [Retired; Paused] →
    unreserve a.(owner) a.(registration_deposit) w = (x, w1) →
    reserve who a.(registration_deposit) w1 = Ok (tt, w') →
    asset_move m id r w (put_proposal id None (put_asset id (set_owner who a) r)) w'
| move_beneficiary a b :
    r.(r_assets) !! id = Some a → by_owner_or_admin m a → a.(status) ≠ Retired →
    asset_move m id r w (put_asset id (set_beneficiary b a) r) w
| move_metadata a meta :
    r.(r_assets) !! id = Some a → by_owner_or_admin m a → a.(status) ≠ Retired →
    Z.of_nat (length meta) ≤ MaxMetadataLen →
    asset_move m id r w (put_asset id (set_metadata meta a) r) w
| move_distribution a d :
    r.(r_assets) !! id = Some a → by_owner_or_admin m a → asks m (Set_slash_distribution id d) →
    fold_left (λ acc x, saturating_add U32_MAX acc x.(share)) d 0 = PERMILL_ACCURACY →
    asset_move m id r w (put_slash id d r) w.

(** A slashed amount, handed out by the distribution of the asset. *)
Definition slash_handed_out (d : option (list SlashRecipient)) (a : AssetInfo) (amount : Balance)
    (rep : option AccountId) (w w' : W) : Prop :=
  match d with
  | Some ((_ :: _) as d) => shares_paid (cur_of a) amount a.(beneficiary) rep d 0 w w'
  | _ => pays (cur_of a) pallet_account a.(beneficiary) amount w w'
  end.

Definition by_payer (m : mover) (p : Participation) : Prop := signed_by m p.(payer).

(** An administrator slashes the participation by [amount]. *)
Definition slashes (m : mover) (id pid : Z) (amount : Balance) : Prop :=
  match m with
  | ByCall o (Slash_participation id' pid' amount' _) =>
      AdminOrigin o = true ∧ id' = id ∧ pid' = pid ∧ amount' = amount
  | _ => False
  end.

(** [p] is active and its term is not over. *)
Definition in_term (p : Participation) (w : W) : Prop :=
  is_active_p p.(pstatus) = true ∧ lapsed p (block_number w) = false.

(** The new term of a participation of [a]. *)
Definition term (a : AssetInfo) (w : W) : ParticipationStatus :=
  ActiveSince (block_number w) (expiry_from (block_number w) a.(policy)).

(** What the pallet keeps for [p]: its deposit, and the entry fee until the
    participation is approved. *)
Definition escrow (p : Participation) : Balance :=
  p.(deposit_held) + if bool_decide (p.(pstatus) = PendingApproval) then p.(entry_fee_paid) else 0.

(** The transitions of a participation of the asset [a]. *)
Inductive part_move (m : mover) (id pid : Z) (a : AssetInfo) (r : Registry) (w : W)
    : option Participation → option Participation → W → Prop :=
| move_request who hs w' :
    signed_by m who → a.(status) = Active → hs ≠ [] → NoDup hs →
    Z.of_nat (length hs) ≤ MaxGroupSize →
    (∀ max, a.(policy).(max_participants) = Some max → live_in id r < max) →
    Forall (not_in id r) hs → Forall (eligible id w) hs →
    entry_paid a who w w' →
    part_move m id pid a r w None
      (Some (mkParticipation id who hs (first_status a (block_number w'))
               a.(policy).(deposit) a.(policy).(entry_fee))) w'
| move_approve p w' :
    by_owner_or_admin m a → a.(status) = Active → p.(pstatus) = PendingApproval →
    pays (cur_of a) pallet_account a.(beneficiary) p.(entry_fee_paid) w w' →
    part_move m id pid a r w (Some p) (Some (set_pstatus (term a w') p)) w'
| move_reject p w' :
    by_owner_or_admin m a → p.(pstatus) = PendingApproval →
    pays (cur_of a) pallet_account p.(payer)
      (saturating_add U128_MAX p.(deposit_held) p.(entry_fee_paid)) w w' →
    part_move m id pid a r w (Some p) None w'
| move_settle p w' :
    lapsed p (block_number w) = true →
    pays (cur_of a) pallet_account p.(payer) p.(deposit_held) w w' →
    part_move m id pid a r w (Some p) (Some (close Expired p)) w'
| move_exit p w' :
    by_payer m p → in_term p w →
    pays (cur_of a) pallet_account p.(payer) p.(deposit_held) w w' →
    part_move m id pid a r w (Some p) (Some (close Exited p)) w'
| move_claim p w' :
    a.(status) = Retired → is_live p.(pstatus) = true →
    pays (cur_of a) pallet_account p.(payer)
      (saturating_add U128_MAX p.(deposit_held)
        (if bool_decide (p.(pstatus) = PendingApproval) then p.(entry_fee_paid) else 0)) w w' →
    part_move m id pid a r w (Some p) (Some (close Exited p)) w'
| move_renew p w' :
    by_payer m p → a.(status) = Active → in_term p w → Forall (eligible id w) p.(holders) →
    pays (cur_of a) p.(payer) a.(beneficiary) a.(policy).(entry_fee) w w' →
    part_move m id pid a r w (Some p) (Some (set_pstatus (term a w') p)) w'
| move_reenter p w1 w' :
    by_payer m p → a.(status) = Active → p.(pstatus) = Expired →
    Forall (not_in id r) p.(holders) → Forall (eligible id w1) p.(holders) →
    pays (cur_of a) p.(payer) pallet_account a.(policy).(deposit) w w1 →
    pays (cur_of a) p.(payer) a.(beneficiary) a.(policy).(entry_fee) w1 w' →
    part_move m id pid a r w (Some p)
      (Some (set_pstatus (term a w') (set_deposit_held a.(policy).(deposit) p))) w'
| move_join p h :
    by_payer m p → in_term p w → h ∉ p.(holders) → not_in id r h → eligible id w h →
    Z.of_nat (length p.(holders)) < MaxGroupSize →
    part_move m id pid a r w (Some p) (Some (set_holders (p.(holders) ++ [h]) p)) w
| move_part p h :
    by_payer m p ∨ signed_by m h → in_term p w → h ∈ p.(holders) →
    remove_first h p.(holders) ≠ [] →
    part_move m id pid a r w (Some p) (Some (set_holders (remove_first h p.(holders)) p)) w
| move_last p h w' :
    by_payer m p ∨ signed_by m h → in_term p w → h ∈ p.(holders) →
    remove_first h p.(holders) = [] →
    pays (cur_of a) pallet_account p.(payer) p.(deposit_held) w w' →
    part_move m id pid a r w (Some p) (Some (close Exited (set_holders [] p))) w'
| move_payer p n :
    by_payer m p → a.(status) = Active → in_term p w → n ≠ p.(payer) →
    part_move m id pid a r w (Some p) (Some (set_payer n p)) w
| move_revoke p w' :
    by_admin m → in_term p w →
    pays (cur_of a) pallet_account p.(payer) p.(deposit_held) w w' →
    part_move m id pid a r w (Some p) (Some (close Revoked p)) w'
| move_slash p amount rep w1 w' :
    slashes m id pid amount → in_term p w → can_slash_participation id pid w = Ok tt →
    amount ≤ p.(deposit_held) →
    slash_handed_out (r.(r_slash) !! id) a amount rep w w1 →
    pays (cur_of a) pallet_account p.(payer) (p.(deposit_held) - amount) w1 w' →
    part_move m id pid a r w (Some p) (Some (close Slashed p)) w'.

(** The transitions of the machine. *)
Inductive part_step (m : mover) : Registry * W → Registry * W → Prop :=
| part_step_at id pid a r w new w' :
    r.(r_assets) !! id = Some a →
    part_move m id pid a r w (r.(r_parts) !! (id, pid)) new w' →
    part_step m (r, w) (put_part id pid new r, w').

Definition asset_step (m : mover) (v v' : Registry * W) : Prop :=
  ∃ id, asset_move m id v.1 v.2 v'.1 v'.2.

Definition move (m : mover) (v v' : Registry * W) : Prop := asset_step m v v' ∨ part_step m v v'.

(** The machine in a state of the pallet. *)
Definition view e : Registry * W := (abs (store e), world e).
End machine.
