(* ===== verification/RwaRefine.v ===== *)
(** * pallet-rwa: the pallet refines the abstract machine *)

From stdpp Require Import relations.
From S2P Require Import Prelude Arith Errors Frame Rwa RwaSpec RwaInv RwaParts RwaCorrect.
From S2P Require Import RwaReach RwaMachine.

(** ** The machine seen in a state *)

Section views.
Context {W : Type} `{!System W, !Currency W, !ReservableCurrency W, !Fungibles W}
  `{!ParticipationFilter W, !AssetLifecycleGuard W} {T : Config}.
Implicit Types (e : CEnv W) (s : State) (w : W) (r : Registry) (a : AssetInfo) (p : Participation).

Lemma abs_asset s id a :
  s.(RwaAssets) !! id = Some a → (abs s).(r_assets) !! id = Some (uncounted a).
Proof. intros Ha. simpl. by rewrite lookup_fmap, Ha. Qed.

Lemma abs_insert_asset id a s : abs (insert_asset id a s) = put_asset id (uncounted a) (abs s).
Proof. unfold abs, put_asset. simpl. by rewrite fmap_insert. Qed.

Lemma abs_mutate_asset id f s :
  (∀ a, uncounted (f a) = uncounted a) → abs (mutate_asset id f s) = abs s.
Proof.
  intros Hf. unfold abs, mutate_asset. simpl. f_equal. apply map_eq. intros j.
  rewrite !lookup_fmap, lookup_alter. case_decide as Hj; [subst|done].
  destruct (RwaAssets s !! j); simpl; [by rewrite Hf|done].
Qed.

Lemma abs_dec id s : abs (dec_participant_count id s) = abs s.
Proof. by apply abs_mutate_asset. Qed.
Lemma abs_inc id s : abs (inc_participant_count id s) = abs s.
Proof. by apply abs_mutate_asset. Qed.

Lemma abs_index_only s s' : index_only s s' → abs s' = abs s.
Proof. intros ->. done. Qed.

Lemma abs_remove_all id hs s : abs (remove_all_holder_indexes id hs s) = abs s.
Proof. apply abs_index_only, remove_all_index. Qed.
Lemma abs_add_all id pid hs s : abs (add_holder_indexes id pid hs s) = abs s.
Proof. apply abs_index_only, add_all_index_only. Qed.

Lemma abs_unindexed id hs s : abs (unindexed id hs s) = abs s.
Proof. unfold unindexed. by rewrite abs_dec, abs_remove_all. Qed.

Lemma abs_insert_part id pid p s :
  abs (insert_participation id pid p s) = put_part id pid (Some p) (abs s).
Proof. done. Qed.

Lemma abs_delete_part id pid s :
  abs (put_Participations (delete (id, pid) s.(Participations)) s) = put_part id pid None (abs s).
Proof. done. Qed.

Lemma abs_pending v s : abs (put_PendingApprovals v s) = abs s.
Proof. done. Qed.

Lemma abs_remove_pending id pid s : abs (remove_pending id pid s) = abs s.
Proof. done. Qed.

Lemma abs_next_id v s : abs (put_NextParticipationId v s) = abs s.
Proof. done. Qed.

Lemma abs_settled id pid p s : abs (settled id pid p s) = put_part id pid (Some (close Expired p)) (abs s).
Proof. unfold settled. by rewrite abs_insert_part, abs_unindexed. Qed.

Lemma abs_ended st id pid p s :
  abs (end_participation st id pid p s) = put_part id pid (Some (close st p)) (abs s).
Proof. unfold end_participation. by rewrite abs_dec, abs_remove_all. Qed.

Lemma abs_rejected id pid p s : abs (rejected id pid p s) = put_part id pid None (abs s).
Proof. unfold rejected. by rewrite abs_unindexed. Qed.

Lemma abs_retire id a s s' :
  s'.(RwaAssets) = <[id := set_status Retired a]> s.(RwaAssets) →
  s'.(AssetSlashDistribution) = delete id s.(AssetSlashDistribution) →
  s'.(PendingOwnershipTransfer) = delete id s.(PendingOwnershipTransfer) →
  s'.(Participations) = s.(Participations) → abs s' = retire id (uncounted a) (abs s).
Proof. intros Ha Hd Ht Hp. unfold abs, retire. rewrite Ha, Hd, Ht, Hp. simpl. by rewrite fmap_insert. Qed.

Lemma abs_retired id a s :
  s.(RwaAssets) !! id = Some a →
  abs (retired id a (unscheduled id a s)) = retire id (uncounted a) (abs s).
Proof.
  intros Ha. destruct (unscheduled_rest id a s) as (HA & _ & _ & HT & HD & [_ HP _ _ _ _]).
  apply abs_retire; simpl; rewrite ?HA, ?HT, ?HD, ?HP; try done.
  apply map_eq. intros j. rewrite lookup_alter, lookup_insert.
  case_decide as Hj; [subst; by rewrite Ha|done].
Qed.

Lemma abs_count s id a :
  Inv s → s.(RwaAssets) !! id = Some a → a.(participant_count) = live_in id (abs s).
Proof. intros HI Ha. apply (pi_count _ (inv_parts _ HI)). unfold count_view. by rewrite Ha. Qed.

Lemma can_hold_not_in s id h : Inv s → can_hold id s h → not_in id (abs s) h.
Proof.
  intros HI [Hn _] pid p Hp Hl Hh.
  assert (HolderIndex s !! (id, h) = Some pid); [|congruence].
  apply (pi_index _ (inv_parts _ HI)). eauto.
Qed.

Lemma all_not_in s id hs : Inv s → Forall (can_hold id s) hs → Forall (not_in id (abs s)) hs.
Proof. intros HI Hh. eapply Forall_impl; [exact Hh|]. intros h. by apply can_hold_not_in. Qed.

(** A call that is one transition of the machine. *)
Lemma one_asset m id e e' r' :
  abs (store e') = r' → asset_move m id (abs (store e)) (world e) r' (world e') →
  asset_step m (view e) (view e').
Proof. intros <- Hm. by exists id. Qed.

Lemma one_part_abs m id pid a old new e e' :
  abs (store e') = put_part id pid new (abs (store e)) →
  (abs (store e)).(r_assets) !! id = Some a →
  (store e).(Participations) !! (id, pid) = old →
  part_move m id pid a (abs (store e)) (world e) old new (world e') →
  part_step m (view e) (view e').
Proof.
  intros Hr Ha Hp Hm. unfold view. rewrite Hr. subst old. by apply (part_step_at _ id pid a).
Qed.

Lemma one_part m id pid a old new e e' :
  abs (store e') = put_part id pid new (abs (store e)) →
  (store e).(RwaAssets) !! id = Some a →
  (store e).(Participations) !! (id, pid) = old →
  part_move m id pid (uncounted a) (abs (store e)) (world e) old new (world e') →
  part_step m (view e) (view e').
Proof. intros Hr Ha. apply one_part_abs; [done|by apply abs_asset]. Qed.

Lemma within_two m (v v' : Registry * W) : part_step m v v' → bsteps (part_step m) 2 v v'.
Proof. intros Hm. apply (bsteps_weaken 1); [lia|]. by apply bsteps_once. Qed.
End views.

(** ** The operations *)

Section refines.
Context {W : Type} `{!System W, !Currency W, !ReservableCurrency W, !Fungibles W}
  `{!ParticipationFilter W, !AssetLifecycleGuard W} {T : Config}.
Implicit Types (e : CEnv W) (s : State) (w : W) (r : Registry) (a : AssetInfo) (p : Participation).

Lemma register_refines o b pol m e e' :
  Inv (store e) → register_asset o b pol m e = Ok (tt, e') →
  asset_step (ByCall o (Register_asset b pol m)) (view e) (view e').
Proof.
  intros HI (who & -> & Hm & Hlen & Hmin & Hres & Hnext & Hs)%register_asset_run.
  apply (one_asset _ (store e).(NextRwaAssetId) _ _ _ eq_refl). rewrite Hs. unfold registered.
  change (abs (put_OwnerAssets _ ?x)) with (abs x). rewrite abs_insert_asset.
  apply (move_register _ _ _ _ who b pol m); try done.
  simpl. by rewrite lookup_fmap, next_id_fresh by apply HI.
Qed.

Lemma policy_refines o id pol e e' :
  Inv (store e) → update_asset_policy o id pol e = Ok (tt, e') →
  asset_step (ByCall o (Update_asset_policy id pol)) (view e) (view e').
Proof.
  intros HI (a & Ha & -> & Hst & (Hcur & Hdep & Hmax & Hch) & Hw & Hs)%update_asset_policy_run.
  apply (one_asset _ id _ _ _ eq_refl). rewrite Hs, Hw, abs_insert_asset.
  rewrite (abs_count _ _ _ HI Ha) in Hmax, Hch.
  apply (move_policy _ _ _ _ (uncounted a)); try done. by apply abs_asset.
Qed.

Lemma request_refines o id hs e e' call :
  Inv (store e) → request_participation o id hs e = Ok (tt, e') →
  part_step (ByCall o call) (view e) (view e').
Proof.
  intros HI (who & a & -> & Ha & Hst & Hne & Hlen & Hd & Hmax & Hcan & Hel & Hq & Hn & Hpaid & Hs)
    %request_participation_run.
  assert (live_in id (abs (store e)) < U32_MAX) as Hlt.
  { pose proof (live_bound (store e) id (inv_parts _ HI)). 
    change (live_in id (abs (store e))) with (live_participations id (store e)). lia. }
  set (a' := uncounted a).
  apply (one_part _ id (next_participation_id id (store e)) a None
    (Some (mkParticipation id who hs (first_status a' (block_number (world e')))
             a'.(policy).(deposit) a'.(policy).(entry_fee)))); try done.
  - rewrite Hs. unfold requested, entered.
    destruct (requires_approval _); unfold queue; rewrite ?abs_pending, abs_inc, abs_add_all; done.
  - apply next_pid_fresh, HI.
  - apply (move_request _ _ _ _ _ _ who hs); try done.
    + by apply (sort_dedup_NoDup Z.le).
    + intros max Hm. specialize (Hmax max Hm). rewrite (abs_count _ _ _ HI Ha) in Hmax.
      unfold saturating_add in Hmax. lia.
    + by apply all_not_in.
Qed.

Lemma settle_refines m id pid a p e e' :
  (store e).(RwaAssets) !! id = Some a → (store e).(Participations) !! (id, pid) = Some p →
  maybe_settled id pid a p e e' → part_step m (view e) (view e').
Proof.
  intros Ha Hp (Hl & Hpay & Hs). eapply one_part; [|exact Ha|exact Hp|by apply move_settle].
  by rewrite Hs, abs_settled.
Qed.

Lemma approve_refines o id pid e e' call :
  approve_participation o id pid e = Ok (tt, e') → part_step (ByCall o call) (view e) (view e').
Proof.
  intros (a & p & Ha & Ho & Hst & Hp & Hps & Hpay & Hs)%approve_participation_run.
  eapply one_part; [|exact Ha|exact Hp|eapply move_approve; try done].
  rewrite Hs. done.
Qed.

Lemma reject_refines o id pid e e' call :
  reject_participation o id pid e = Ok (tt, e') → part_step (ByCall o call) (view e) (view e').
Proof.
  intros (a & p & Ha & Ho & Hp & Hps & Hpay & Hs)%reject_participation_run.
  eapply one_part; [|exact Ha|exact Hp|eapply move_reject; try done].
  rewrite Hs, abs_remove_pending, abs_dec, abs_delete_part, abs_remove_all. done.
Qed.

Lemma exit_refines o id pid e e' call :
  exit_participation o id pid e = Ok (tt, e') → part_step (ByCall o call) (view e) (view e').
Proof.
  intros (a & p & Ha & Hp & -> & [Hm|(Hl & Hact & Hpay & Hs)])%exit_participation_run.
  - by eapply settle_refines.
  - eapply one_part; [|exact Ha|exact Hp|by apply move_exit]. by rewrite Hs, abs_ended.
Qed.

Lemma claim_refines o id pid e e' call :
  claim_retired_deposit o id pid e = Ok (tt, e') → part_step (ByCall o call) (view e) (view e').
Proof.
  intros (a & p & Ha & Hst & Hp & Hl & Hpay & Hs)%claim_retired_deposit_run.
  eapply one_part; [|exact Ha|exact Hp|by apply move_claim]. by rewrite Hs, abs_ended.
Qed.

Lemma join_refines o id pid h e e' call :
  Inv (store e) → add_holder o id pid h e = Ok (tt, e') → part_step (ByCall o call) (view e) (view e').
Proof.
  intros HI (a & p & (Ha & Hp & Hl & Hact) & -> & Hh & Hcan & Hel & Hlen & Hw & Hs)%add_holder_run.
  eapply one_part; [|exact Ha|exact Hp|].
  - by rewrite Hs, abs_insert_part, abs_add_all.
  - rewrite Hw. apply move_join; try done. by apply can_hold_not_in.
Qed.

Lemma drop_refines m id pid a p h e e' :
  by_payer m p ∨ signed_by m h → running id pid e a p → h ∈ p.(holders) →
  dropped id pid a p h e e' → part_step m (view e) (view e').
Proof.
  intros Hm (Ha & Hp & Hl & Hact) Hh [(Hnil & Hpay & Hs)|(Hne & Hw & Hs)]; simpl in *.
  - eapply one_part; [|exact Ha|exact Hp|by eapply (move_last _ _ _ _ _ _ p h)].
    rewrite Hs, Hnil. by rewrite abs_insert_part, abs_dec.
  - eapply one_part; [|exact Ha|exact Hp|rewrite Hw; by eapply (move_part _ _ _ _ _ _ p h)].
    by rewrite Hs.
Qed.

Lemma revoke_refines o id pid e e' call :
  revoke_participation o id pid e = Ok (tt, e') → part_step (ByCall o call) (view e) (view e').
Proof.
  intros (a & p & (Ha & Hp & Hl & Hact) & Ho & Hpay & Hs)%revoke_participation_run.
  eapply one_part; [|exact Ha|exact Hp|apply move_revoke; try done].
  by rewrite Hs, abs_ended.
Qed.

Lemma payer_refines o id pid n e e' call :
  transfer_participation o id pid n e = Ok (tt, e') → part_step (ByCall o call) (view e) (view e').
Proof.
  intros (a & p & (Ha & Hp & Hl & Hact) & Hst & -> & Hn & Hw & Hs)%transfer_participation_run.
  eapply one_part; [|exact Ha|exact Hp|rewrite Hw; by apply move_payer]. by rewrite Hs.
Qed.

Lemma slash_refines o id pid amount rep e e' :
  slash_participation o id pid amount rep e = Ok (tt, e') →
  part_step (ByCall o (Slash_participation id pid amount rep)) (view e) (view e').
Proof.
  intros (a & p & w1 & (Ha & Hp & Hl & Hact) & Ho & Hg & Hle & Hd & Hpay & Hs)%slash_participation_run.
  rewrite saturating_sub_exact in Hpay by lia.
  eapply one_part; [|exact Ha|exact Hp|eapply (move_slash _ _ _ _ _ _ p amount rep w1); try done].
  by rewrite Hs, abs_ended.
Qed.

Lemma reenter_refines id pid a p e1 w2 e' call :
  Inv (store e1) → (abs (store e1)).(r_assets) !! id = Some a → a.(status) = Active →
  (store e1).(Participations) !! (id, pid) = Some p → p.(pstatus) = Expired →
  Forall (can_hold id (store e1)) p.(holders) → Forall (eligible id w2) p.(holders) →
  pays (cur_of a) p.(payer) pallet_account a.(policy).(deposit) (world e1) w2 →
  pays (cur_of a) p.(payer) a.(beneficiary) a.(policy).(entry_fee) w2 (world e') →
  store e' = insert_participation id pid
    (set_pstatus (term a (world e')) (set_deposit_held a.(policy).(deposit) p))
    (reentered id pid p.(holders) (store e1)) →
  part_step (ByCall (Signed p.(payer)) call) (view e1) (view e').
Proof.
  intros HI Ha Hst Hp Hps Hcan Hel Hpay Hfee Hs. eapply one_part_abs; [|exact Ha|exact Hp|].
  - rewrite Hs. unfold reentered. by rewrite abs_insert_part, abs_inc, abs_add_all.
  - eapply move_reenter; try done. by apply all_not_in.
Qed.

Lemma renew_refines o id pid e e' call :
  Inv (store e) → renew_participation o id pid e = Ok (tt, e') →
  bsteps (part_step (ByCall o call)) 2 (view e) (view e').
Proof.
  intros HI (a & p & e1 & p1 & w2 & Ha & Hst & Hp & -> & Hb & Hel & Hfee & Hcase)
    %renew_participation_run.
  destruct (Inv_renewal_base _ _ _ _ _ _ _ HI Hp Hb) as [HI1 Hp1].
  assert (p1.(payer) = p.(payer)) as Hpayer by (by destruct Hb as [(_ & _ & ->)|[_ ->]]).
  destruct Hcase as [(Hact & -> & Hs)|(Hexp & Hpay & Hcan & Hs)].
  - destruct Hb as [(Hl & -> & ->)|[_ ->]]; [|done]. apply within_two.
    eapply one_part; [|exact Ha|exact Hp|by apply move_renew]. by rewrite Hs.
  - assert (part_step (ByCall (Signed p.(payer)) call) (view e1) (view e')) as Hlast.
    { rewrite <- Hpayer. rewrite <- Hpayer in Hfee, Hpay.
      apply (reenter_refines id pid (uncounted a) p1 e1 w2 e'); try done.
      destruct Hb as [(_ & -> & _)|[(_ & _ & ->) _]]; rewrite ?abs_settled; by apply abs_asset. }
    destruct Hb as [(_ & -> & _)|[Hm _]]; [by apply within_two|].
    eapply bsteps_l; [by eapply settle_refines|]. by apply bsteps_once.
Qed.

Lemma reject_turn_refines o id pid a n kept e e1 n1 kept1 call :
  (abs (store e)).(r_assets) !! id = Some a → acts_for_owner o a →
  reject_turn id pid a e n kept e1 n1 kept1 →
  bsteps (part_step (ByCall o call)) 1 (view e) (view e1) ∧ (abs (store e1)).(r_assets) !! id = Some a.
Proof.
  intros Ha Ho [(_ & -> & _)|[(p & _ & -> & _)|(p & Hp & Hps & Hpay & Hs & _)]].
  - split; [apply bsteps_refl|done].
  - split; [apply bsteps_refl|done].
  - rewrite Hs, abs_rejected. split; [|done]. apply bsteps_once.
    eapply one_part_abs; [|exact Ha|exact Hp|apply move_reject; try done].
    by rewrite Hs, abs_rejected.
Qed.

Lemma reject_each_refines o id a l n kept e x e' call :
  (abs (store e)).(r_assets) !! id = Some (uncounted a) → acts_for_owner o a →
  reject_each id a l n kept e = Ok (x, e') →
  bsteps (part_step (ByCall o call)) (length l) (view e) (view e').
Proof.
  revert n kept e. induction l as [|pid l IH]; intros n kept e Ha Ho Hrun.
  - simpl in Hrun. rwa_inv. apply bsteps_refl.
  - apply reject_each_cons_ok in Hrun as (e1 & n1 & kept1 & Ht & Hrun).
    destruct (reject_turn_refines o id pid (uncounted a) n kept e e1 n1 kept1 call) as [H1 Ha1]; try done.
    apply (bsteps_trans 1 (length l) _ (view e1)); [done|by eapply IH].
Qed.

Lemma batch_refines o id e e' call :
  Inv (store e) → batch_reject_pending o id e = Ok (tt, e') →
  bsteps (part_step (ByCall o call)) (Z.to_nat MaxPendingApprovals) (view e) (view e').
Proof.
  intros HI (a & n & kept & e1 & Ha & Ho & Hrun & Hw & Hs)%batch_reject_pending_run.
  pose proof (pi_pending_len _ (inv_parts _ HI) id).
  apply (bsteps_weaken (length (pending_approvals id (store e)))); [lia|].
  replace (view e') with (view e1) by (unfold view; by rewrite Hw, Hs).
  eapply reject_each_refines; [by apply abs_asset|done|exact Hrun].
Qed.

(** A write of one asset record, with the world untouched. *)
Lemma record_refines m id a a' e e' :
  (store e).(RwaAssets) !! id = Some a → world e' = world e →
  store e' = insert_asset id a' (store e) →
  (∀ r w, r.(r_assets) !! id = Some (uncounted a) →
     asset_move m id r w (put_asset id (uncounted a') r) w) →
  asset_step m (view e) (view e').
Proof.
  intros Ha Hw Hs Hm. apply (one_asset _ id _ _ _ eq_refl). rewrite Hs, Hw, abs_insert_asset.
  apply Hm. by apply abs_asset.
Qed.

Lemma retire_refines m id a x e e' :
  (store e).(RwaAssets) !! id = Some a →
  unreserve a.(owner) a.(registration_deposit) (world e) = (x, world e') →
  store e' = retired id a (unscheduled id a (store e)) →
  (∀ r w', r.(r_assets) !! id = Some (uncounted a) →
     unreserve a.(owner) a.(registration_deposit) (world e) = (x, w') →
     asset_move m id r (world e) (retire id (uncounted a) r) w') →
  asset_step m (view e) (view e').
Proof.
  intros Ha Hu Hs Hm. apply (one_asset _ id _ _ _ eq_refl). rewrite Hs, abs_retired by done.
  apply Hm; [by apply abs_asset|done].
Qed.

Lemma accept_refines o id e e' call :
  accept_ownership o id e = Ok (tt, e') → asset_step (ByCall o call) (view e) (view e').
Proof.
  intros (who & a & x & w1 & Ha & -> & Ht & Hst & _ & Hu & Hr & Hs)%accept_ownership_run.
  apply (one_asset _ id _ _ _ eq_refl). rewrite Hs.
  change (abs (owned_by who id a (store e)))
    with (put_proposal id None (abs (insert_asset id (set_owner who a) (store e)))).
  rewrite abs_insert_asset. eapply (move_accept _ _ _ _ (uncounted a) who); try done.
  by apply abs_asset.
Qed.

(** What of a call is not a single record: the bound on its transitions. *)
Definition call_bound : nat := Nat.max 2 (Z.to_nat MaxPendingApprovals).

Tactic Notation "by_record" uconstr(C) :=
  eapply record_refines; [eassumption..|]; intros; by eapply C.

Lemma asset_calls_refine o call e e' :
  Inv (store e) → e ⊢ dispatch o call ⇝ e' →
  match call with
  | Register_asset _ _ _ | Update_asset_policy _ _ | Deactivate_asset _ | Reactivate_asset _
  | Sunset_asset _ _ | Force_retire_asset _ | Retire_asset _ | Set_slash_distribution _ _
  | Transfer_ownership _ _ | Accept_ownership _ | Cancel_ownership_transfer _
  | Update_beneficiary _ _ | Update_metadata _ _ | Pause_asset _ | Unpause_asset _ =>
      asset_step (ByCall o call) (view e) (view e')
  | _ => True
  end.
Proof.
  intros HI. destruct call; simpl; try done.
  - by apply register_refines.
  - by apply policy_refines.
  - intros (a & Ha & -> & Hst & Hw & Hs)%deactivate_asset_run.
    by_record (move_deactivate _ _ _ _ (uncounted a)).
  - intros (a & Ha & -> & Hst & Hw & Hs)%reactivate_asset_run.
    by_record (move_reactivate _ _ _ _ (uncounted a)).
  - intros (a & Ha & -> & Hst & Hb & _ & Hw & Hs)%sunset_asset_run.
    apply (one_asset _ id _ _ _ eq_refl). rewrite Hs, Hw. unfold sunset.
    change (abs (put_SunsettingAssets _ ?x)) with (abs x). rewrite abs_insert_asset.
    apply (move_sunset _ _ _ _ (uncounted a)); try done. by apply abs_asset.
  - intros (a & x & Ha & Ho & Hst & Hg & Hu & Hs)%force_retire_asset_run.
    eapply retire_refines; [eassumption..|]. intros r w' Hr Hw.
    by eapply (move_force_retire _ _ _ _ (uncounted a)).
  - intros (a & b & x & Ha & Hst & Hb & Hu & Hs)%retire_asset_run.
    eapply retire_refines; [eassumption..|]. intros r w' Hr Hw.
    by eapply (move_retire _ _ _ _ (uncounted a)).
  - intros (a & Ha & Ho & Hd & Hw & Hs)%set_slash_distribution_run.
    apply (one_asset _ id _ _ (put_slash id distribution (abs (store e)))); [by rewrite Hs|].
    rewrite Hw. apply (move_distribution _ _ _ _ (uncounted a)); [by apply abs_asset|done..].
  - intros (a & Ha & -> & Hst & Hn & Hw & Hs)%transfer_ownership_run.
    apply (one_asset _ id _ _ (put_proposal id (Some new_owner) (abs (store e)))); [by rewrite Hs|].
    rewrite Hw. apply (move_propose _ _ _ _ (uncounted a)); try done. by apply abs_asset.
  - by apply accept_refines.
  - intros (a & Ha & -> & Hw & Hs)%cancel_ownership_transfer_run.
    apply (one_asset _ id _ _ (put_proposal id None (abs (store e)))); [by rewrite Hs|].
    rewrite Hw. apply (move_cancel _ _ _ _ (uncounted a)); try done. by apply abs_asset.
  - intros (a & Ha & Ho & Hst & Hw & Hs)%update_beneficiary_run.
    eapply record_refines; [eassumption..|]. intros.
    apply (move_beneficiary _ _ _ _ (uncounted a)); try done. 
  - intros (a & Ha & Ho & Hst & Hm & Hw & Hs)%update_metadata_run.
    eapply record_refines; [eassumption..|]. intros.
    apply (move_metadata _ _ _ _ (uncounted a)); try done. 
  - intros (a & Ha & Ho & Hst & Hw & Hs)%pause_asset_run.
    eapply record_refines; [eassumption..|]. intros.
    apply (move_pause _ _ _ _ (uncounted a)); try done. 
  - intros (a & Ha & Ho & Hst & Hw & Hs)%unpause_asset_run.
    eapply record_refines; [eassumption..|]. intros.
    apply (move_unpause _ _ _ _ (uncounted a)); try done. 
Qed.

Lemma dispatch_refines o call e e' :
  Inv (store e) → e ⊢ dispatch o call ⇝ e' →
  asset_step (ByCall o call) (view e) (view e') ∨
  bsteps (part_step (ByCall o call)) call_bound (view e) (view e').
Proof.
  intros HI Hrun. pose proof (asset_calls_refine _ _ _ _ HI Hrun) as Ha.
  assert (∀ v v', bsteps (part_step (ByCall o call)) 2 v v' →
    bsteps (part_step (ByCall o call)) call_bound v v')
    as Hweak by (intros v v'; apply bsteps_weaken; unfold call_bound; lia).
  destruct call; try (by left); right; simpl in Hrun;
    try (apply Hweak, within_two; by eauto using request_refines, approve_refines, reject_refines,
      exit_refines, claim_refines, join_refines, revoke_refines, payer_refines, slash_refines).
  - by eapply Hweak, renew_refines.
  - apply settle_expired_run in Hrun as (a & p & Hx & Hp & Hm).
    apply Hweak, within_two. by eapply settle_refines.
  - apply remove_holder_run in Hrun as (a & p & Hr & -> & Hh & Hd).
    apply Hweak, within_two, (drop_refines _ id pid a p holder); [by left|done..].
  - apply leave_participation_run in Hrun as (a & p & h & Hr & -> & Hh & Hd).
    apply Hweak, within_two, (drop_refines _ id pid a p h); [by right|done..].
  - eapply bsteps_weaken; [|by eapply batch_refines]. unfold call_bound. lia.
Qed.

(** ** The hook *)

Lemma retire_turn_refines n id a b e e' :
  (store e).(RwaAssets) !! id = Some a → a.(status) = Sunsetting b → b ≤ n →
  retire_turn id e e' → bsteps (asset_step (ByHook n)) 1 (view e) (view e').
Proof.
  unfold retire_turn. intros Ha Hst Hb Ht. rewrite Ha, Hst in Ht. simpl in Ht.
  destruct Ht as (x & Hu & Hs). apply bsteps_once. unfold view.
  rewrite (abs_retire id a (store e) (store e')) by (by rewrite Hs).
  exists id; eapply (move_retire _ _ _ _ (uncounted a)); [by apply abs_asset|done|done|done].
Qed.

Lemma retire_turn_view id e e' j :
  j ≠ id → retire_turn id e e' → asset_view (store e') j = asset_view (store e) j.
Proof.
  unfold retire_turn. intros Hj. destruct (_ !! id); [|by intros ->].
  case_bool_decide; [by intros ->|]. intros (x & _ & ->).
  change (asset_view (clear_asset _ _ ?y) j) with (asset_view y j).
  rewrite view_insert. by rewrite decide_False.
Qed.

Lemma retire_turns_refine n ids e e' :
  NoDup ids → (∀ id, id ∈ ids → ∃ o, asset_view (store e) id = Some (o, Sunsetting n)) →
  retire_turns ids e e' → bsteps (asset_step (ByHook n)) (length ids) (view e) (view e').
Proof.
  revert e. induction ids as [|id ids IH]; intros e Hnd Hv Ht; simpl in Ht.
  - subst. apply bsteps_refl.
  - destruct Ht as (e1 & H1 & Ht). apply NoDup_cons in Hnd as [Hid Hnd].
    apply (bsteps_trans 1 (length ids) _ (view e1)).
    + destruct (Hv id) as [o Ho]; [set_solver|]. unfold asset_view in Ho.
      destruct (RwaAssets (store e) !! id) as [a|] eqn:Ha; [|done]. injection Ho as _ Hst.
      by eapply (retire_turn_refines n id a n).
    + apply IH; [done| |done]. intros j Hj. rewrite (retire_turn_view id e) by (done || set_solver).
      apply Hv. set_solver.
Qed.

Lemma hook_refines n e e' :
  Inv (store e) → on_initialize n e = Ok (tt, e') →
  bsteps (asset_step (ByHook n)) (length (sunsetting_assets n (store e))) (view e) (view e').
Proof.
  intros HI Ht%on_initialize_run. pose proof (inv_registry _ HI) as Hr.
  eapply (retire_turns_refine n) in Ht; [exact Ht|apply (ri_sunset_nodup _ Hr)|].
  intros id Hid. by apply (ri_sunset _ Hr).
Qed.
End refines.
