(* ===== verification/RwaEvolve.v ===== *)
(** * pallet-rwa: how assets and participations evolve

    What a transition of the abstract machine does to an asset and to a
    participation that is there before it. *)

From stdpp Require Import relations.
From S2P Require Import Prelude Arith Errors Frame Rwa RwaSpec RwaInv RwaParts RwaCorrect.
From S2P Require Import RwaReach RwaMachine RwaRefine.

(** ** Assets *)

(** The status machine of an asset: sunsetting is a one-way street, and a
    retired asset stays retired. *)
Definition asset_may_become (x y : AssetStatus) : bool :=
  bool_decide (x = y) ||
  match x, y with
  | Active, (Inactive | Paused | Sunsetting _ | Retired) => true
  | Inactive, (Active | Paused | Sunsetting _ | Retired) => true
  | Paused, (Active | Retired) => true
  | Sunsetting _, Retired => true
  | _, _ => false
  end.

(** What never changes about an asset. *)
Definition terms_of (a : AssetInfo) : PaymentCurrency * Balance * Balance * BlockNumber :=
  (a.(policy).(deposit_currency), a.(policy).(deposit), a.(registration_deposit), a.(created_at)).

Section assets.
Context {W : Type} `{!System W, !Currency W, !ReservableCurrency W, !Fungibles W}
  `{!ParticipationFilter W, !AssetLifecycleGuard W} {T : Config}.
Implicit Types (e : CEnv W) (w : W) (r : Registry) (a : AssetInfo) (p : Participation).

(** Who may change an asset: its owner or an administrator, the account it was
    offered to, the force origin, and anyone once its sunset has come. *)
Definition authorised (m : mover) (id : Z) (r : Registry) (w : W) (a : AssetInfo) : Prop :=
  by_owner_or_admin m a ∨
  (∃ who, signed_by m who ∧ r.(r_transfer) !! id = Some who) ∨ by_force m ∨
  (∃ b, a.(status) = Sunsetting b ∧ b ≤ clock m w).

Record asset_follows (m : mover) (id : Z) (r : Registry) (w : W) (a a' : AssetInfo) : Prop := {
  af_status : asset_may_become a.(status) a'.(status) = true;
  af_terms : terms_of a' = terms_of a;
  af_owner : a'.(owner) = a.(owner) ∨
    (signed_by m a'.(owner) ∧ r.(r_transfer) !! id = Some a'.(owner));
  af_authority : a' = a ∨ authorised m id r w a;
  af_retired : a.(status) = Retired → a' = a;
}.

Lemma may_become_refl x : asset_may_become x x = true.
Proof. unfold asset_may_become. by rewrite bool_decide_true. Qed.

Lemma asset_follows_refl m id r w a : asset_follows m id r w a a.
Proof. split; auto using may_become_refl. Qed.

Lemma by_owner_authorised m id r w a : by_owner m a → authorised m id r w a.
Proof. destruct m; [|done]. intros ->. left. by right. Qed.

Lemma by_admin_authorised m id r w a : by_admin m → authorised m id r w a.
Proof. destruct m; [|done]. intros Ho. left. by left. Qed.

Lemma follows_status m id r w a st :
  authorised m id r w a → asset_may_become a.(status) st = true → a.(status) ≠ Retired →
  asset_follows m id r w a (set_status st a).
Proof. intros. split; auto; done. Qed.

Lemma follows_record m id r w a a' :
  authorised m id r w a → a'.(status) = a.(status) → terms_of a' = terms_of a →
  a'.(owner) = a.(owner) → a.(status) ≠ Retired → asset_follows m id r w a a'.
Proof. intros Ha Hst Ht Ho Hr. split; auto; [rewrite Hst; apply may_become_refl|done]. Qed.

(** What a transition of [j] does to the asset [id]. *)
Lemma put_asset_follows m j id r w x a a' :
  r.(r_assets) !! id = Some a → r.(r_assets) !! j = Some x →
  asset_follows m j r w x a' →
  ∃ a2, (put_asset j a' r).(r_assets) !! id = Some a2 ∧ asset_follows m id r w a a2.
Proof.
  intros Ha Hx Hf. simpl. destruct (decide (j = id)) as [->|Hj].
  - rewrite Ha in Hx. injection Hx as ->. rewrite lookup_insert_eq. eauto.
  - rewrite lookup_insert_ne by done. eauto using asset_follows_refl.
Qed.

Lemma plain_not_retired a : a.(status) ∈ [Active; Inactive] → a.(status) ≠ Retired.
Proof. intros H Hr. rewrite Hr in H. set_solver. Qed.

Lemma asset_move_follows m j id r w r' w' a :
  asset_move m j r w r' w' → r.(r_assets) !! id = Some a →
  ∃ a', r'.(r_assets) !! id = Some a' ∧ asset_follows m id r w a a'.
Proof.
  intros Hm Ha. destruct Hm;
    try (by exists a; split; [done|apply asset_follows_refl]);
    try (eapply put_asset_follows; [done|eassumption|]).
  - exists a. split; [|apply asset_follows_refl]. simpl.
    rewrite lookup_insert_ne; [done|]. intros ->. congruence.
  - apply follows_record; try done; [by apply by_owner_authorised| |congruence].
    unfold terms_of. simpl. congruence.
  - apply follows_status; [by apply by_owner_authorised|..]; by rewrite H1.
  - apply follows_status; [by apply by_owner_authorised|..]; by rewrite H1.
  - apply follows_status; [by apply by_admin_authorised| |by apply plain_not_retired].
    apply list_elem_of_In in H1. simpl in H1. destruct H1 as [<-|[<-|[]]]; done.
  - apply follows_status; [by apply by_admin_authorised|..]; by rewrite H1.
  - apply follows_status; [by apply by_owner_authorised| |by apply plain_not_retired].
    apply list_elem_of_In in H1. simpl in H1. destruct H1 as [<-|[<-|[]]]; done.
  - apply follows_status; [|by rewrite H0..]. right; right; right. eauto.
  - apply follows_status; [|by destruct (status a0)|done]. right; right; by left.
  - split; simpl.
    + apply may_become_refl.
    + done.
    + by right.
    + right. right. left. eauto.
    + intros Hr. rewrite Hr in *. set_solver.
  - apply follows_record; try done. by left.
  - apply follows_record; try done. by left.
Qed.

Lemma asset_steps_follow m n (v v' : Registry * W) id a :
  bsteps (asset_step m) n v v' → v.1.(r_assets) !! id = Some a →
  ∃ a', v'.1.(r_assets) !! id = Some a' ∧ terms_of a' = terms_of a ∧
    (a.(status) = Retired → a' = a).
Proof.
  intros Hs. revert a. induction Hs as [n v|n v v1 v' (j & Hm) _ IH]; intros a Ha; [eauto|].
  destruct (asset_move_follows _ _ _ _ _ _ _ _ Hm Ha) as (a1 & Ha1 & [_ Ht _ _ Hr]).
  destruct (IH a1 Ha1) as (a' & Ha' & Ht' & Hr'). exists a'. split_and!; [done|congruence|].
  intros Hst. specialize (Hr Hst). subst a1. auto.
Qed.

(** Participations do not touch the assets. *)
Lemma part_steps_assets m n (v v' : Registry * W) :
  bsteps (part_step m) n v v' → v'.1.(r_assets) = v.1.(r_assets).
Proof. induction 1 as [n v|n v v1 v' [] _ IH]; [done|]. by rewrite IH. Qed.

Lemma abs_lookup s id a' :
  (abs s).(r_assets) !! id = Some a' → ∃ a, s.(RwaAssets) !! id = Some a ∧ uncounted a = a'.
Proof. simpl. rewrite lookup_fmap. destruct (_ !! id); naive_solver. Qed.
End assets.

(** ** Participations *)

(** The status machine of a participation: an approved one is never pending
    again, and one that was left, slashed or revoked stays as it is. *)
Definition part_may_become (x y : ParticipationStatus) : bool :=
  match x with
  | PendingApproval => true
  | ActiveSince _ _ | Expired => negb (bool_decide (y = PendingApproval))
  | Exited | Slashed | Revoked => bool_decide (y = x)
  end.

Definition is_over (st : ParticipationStatus) : bool :=
  match st with Exited | Slashed | Revoked => true | _ => false end.

Section participations.
Context {W : Type} `{!System W, !Currency W, !ReservableCurrency W, !Fungibles W}
  `{!ParticipationFilter W, !AssetLifecycleGuard W} {T : Config}.
Implicit Types (e : CEnv W) (w : W) (r : Registry) (a : AssetInfo) (p : Participation).

Record part_follows p p' : Prop := {
  pf_asset : p'.(rwa_asset_id) = p.(rwa_asset_id);
  pf_fee : p'.(entry_fee_paid) = p.(entry_fee_paid);
  pf_status : part_may_become p.(pstatus) p'.(pstatus) = true;
  pf_over : is_over p.(pstatus) = true → p' = p;
}.

Lemma part_may_become_refl x : part_may_become x x = true.
Proof. by destruct x; simpl; rewrite ?bool_decide_true. Qed.

Lemma part_follows_refl p : part_follows p p.
Proof. split; auto using part_may_become_refl. Qed.

Lemma part_follows_trans p1 p2 p3 : part_follows p1 p2 → part_follows p2 p3 → part_follows p1 p3.
Proof.
  intros [Ha Hf Hs Ho] [Ha' Hf' Hs' Ho']. split; [congruence..| |].
  - destruct p1.(pstatus), p2.(pstatus), p3.(pstatus); simpl in *; by simplify_eq.
  - intros H. specialize (Ho H). subst p2. auto.
Qed.

Lemma in_term_active p w : in_term p w → ∃ x y, p.(pstatus) = ActiveSince x y.
Proof. intros [Ha _]. destruct p.(pstatus); naive_solver. Qed.

Lemma lapsed_since p n : lapsed p n = true → ∃ x y, p.(pstatus) = ActiveSince x y.
Proof. unfold lapsed. destruct p.(pstatus); naive_solver. Qed.

(** A transition of a participation, or its rejection. *)
Lemma part_move_follows m id pid a r w p new w' :
  part_move m id pid a r w (Some p) new w' →
  (p.(pstatus) = PendingApproval ∧ new = None) ∨ ∃ p', new = Some p' ∧ part_follows p p'.
Proof.
  intros Hm. remember (Some p) as old eqn:Hold.
  destruct Hm; simplify_eq; try (by left); right; eexists; (split; [done|]);
    repeat match goal with
    | H : in_term _ _ |- _ => apply in_term_active in H as (? & ? & ?)
    | H : lapsed _ _ = true |- _ => apply lapsed_since in H as (? & ? & ?)
    end;
    split; simpl; try done;
    repeat match goal with H : pstatus _ = _ |- _ => rewrite H end; try done.
  - by destruct (pstatus p).
  - by destruct (pstatus p).
Qed.

Lemma part_step_follows m (v v' : Registry * W) k p :
  part_step m v v' → v.1.(r_parts) !! k = Some p →
  (p.(pstatus) = PendingApproval ∧ v'.1.(r_parts) !! k = None) ∨
  ∃ p', v'.1.(r_parts) !! k = Some p' ∧ part_follows p p'.
Proof.
  intros [id pid a r w new w' Ha Hm] Hp. simpl in *. destruct (decide (k = (id, pid))) as [->|Hk].
  - rewrite lookup_partial_alter_eq. rewrite Hp in Hm.
    by destruct (part_move_follows _ _ _ _ _ _ _ _ _ Hm) as [[? ->]|(p' & -> & ?)]; eauto.
  - rewrite lookup_partial_alter_ne by done. right. eauto using part_follows_refl.
Qed.

Lemma part_steps_follow m n (v v' : Registry * W) k p :
  bsteps (part_step m) n v v' → v.1.(r_parts) !! k = Some p → p.(pstatus) ≠ PendingApproval →
  ∃ p', v'.1.(r_parts) !! k = Some p' ∧ part_follows p p'.
Proof.
  intros Hs. revert p. induction Hs as [n v|n v v1 v' Hm _ IH]; intros p Hp Hpend.
  { eauto using part_follows_refl. }
  destruct (part_step_follows _ _ _ _ _ Hm Hp) as [[? _]|(p1 & Hp1 & Hf)]; [done|].
  destruct (IH p1 Hp1) as (p' & Hp' & Hf'); [|eauto using part_follows_trans].
  intros Heq. apply Hpend. pose proof (pf_status _ _ Hf) as Hst. rewrite Heq in Hst.
  by destruct p.(pstatus).
Qed.

(** Assets do not touch the participations. *)
Lemma asset_steps_parts m n (v v' : Registry * W) :
  bsteps (asset_step m) n v v' → v'.1.(r_parts) = v.1.(r_parts).
Proof. induction 1 as [n v|n v v1 v' [j Hm] _ IH]; [done|]. rewrite IH. by destruct Hm. Qed.
End participations.
