(* ===== verification/RwaFunds.v ===== *)
(** * pallet-rwa: the money

    What the pallet's account holds for the participants and what stays
    reserved for the registrations, proved on the abstract machine against the
    laws of the currencies in Frame.v. *)

From stdpp Require Import relations.
From S2P Require Import Prelude Arith Errors Frame Rwa RwaSpec RwaInv RwaParts RwaCorrect.
From S2P Require Import RwaReach RwaMachine RwaRefine RwaEvolve.

(** ** Payments *)

Section payments.
Context {W : Type} `{!System W, !Currency W, !ReservableCurrency W, !Fungibles W}
  `{!WorldLaws W, !ReserveLaws W} {T : Config}.
Implicit Types (w : W) (cur : PaymentCurrency).

Definition bal (cur : PaymentCurrency) (who : AccountId) (w : W) : Balance :=
  match cur with
  | Native => free_balance who w
  | Asset x => asset_balance x who w
  end.

(** No dust: the native currency is burnt keeping the account alive, and an
    asset with a minimum balance of one has no balances below it. *)
Definition dustless (cur : PaymentCurrency) (w : W) : Prop :=
  match cur with
  | Native => True
  | Asset x => asset_minimum_balance x w = 1
  end.

(** What no payment touches; [n] asset accounts may be opened. *)
Record quiet (n : nat) (w w' : W) : Prop := {
  qu_wf : ∀ k, world_wf (n + k) w → world_wf k w';
  qu_block : block_number w' = block_number w;
  qu_min : ∀ x, asset_minimum_balance x w' = asset_minimum_balance x w;
  qu_reserved : ∀ x, reserved_balance x w' = reserved_balance x w;
}.

Lemma wf_less n k w : world_wf (n + k) w → world_wf k w.
Proof. induction n as [|n IH]; [done|]. intros H. by apply IH, world_wf_less. Qed.

Lemma quiet_refl n w : quiet n w w.
Proof. split; try done. intros k. apply wf_less. Qed.

Lemma quiet_trans n1 n2 w1 w2 w3 : quiet n1 w1 w2 → quiet n2 w2 w3 → quiet (n1 + n2) w1 w3.
Proof.
  intros [] []. split; try congruence. intros k Hk. apply qu_wf1, qu_wf0. by rewrite Nat.add_assoc.
Qed.

Lemma quiet_weaken n1 n2 w w' : (n1 ≤ n2)%nat → quiet n1 w w' → quiet n2 w w'.
Proof.
  intros Hn [Hw]. split; try done. intros k Hk. apply Hw, (wf_less (n2 - n1)).
  by replace (n2 - n1 + (n1 + k))%nat with (n2 + k)%nat by lia.
Qed.

Lemma dustless_quiet n cur w w' : quiet n w w' → dustless cur w' ↔ dustless cur w.
Proof. intros [_ _ Hm _]. destruct cur; simpl; [done|by rewrite Hm]. Qed.

(** [v] of [cur] goes from one account to another. *)
Record paid cur (from to : AccountId) (v : Balance) w w' : Prop := {
  pd_quiet : quiet 1 w w';
  pd_bal : ∀ x, bal cur x w' =
    bal cur x w + (if decide (x = to) then v else 0) - (if decide (x = from) then v else 0);
  pd_other : ∀ cur' x, cur' ≠ cur → bal cur' x w' = bal cur' x w;
}.

Lemma paid_noop cur from to v w : v = 0 ∨ from = to → paid cur from to v w w.
Proof.
  intros Hv. split; [apply quiet_refl| |done]. intros x.
  destruct (decide (x = to)), (decide (x = from)); destruct Hv; subst; try done; lia.
Qed.

Lemma moved_balance (f g : AccountId → Z) ed from to v x :
  from ≠ to → moved f g ed from to v true →
  g x = f x + (if decide (x = to) then v else 0) - (if decide (x = from) then v else 0).
Proof.
  intros Hne [_ Hto [Hfrom|[? _]] _ Hother]; [|done].
  destruct (decide (x = to)) as [Hx|], (decide (x = from)) as [Hy|].
  - congruence.
  - rewrite Hx. lia.
  - rewrite Hy. lia.
  - rewrite Hother by done. lia.
Qed.

Lemma transfer_paid k from to v w w' :
  world_wf k w → 0 < v → transfer from to v KeepAlive w = Ok (tt, w') →
  paid Native from to v w w'.
Proof.
  intros Hw Hv Ht. destruct (decide (from = to)) as [->|Hne].
  { rewrite (transfer_noop _ _ _ _ _ _ Ht) by auto. apply paid_noop; auto. }
  destruct (transfer_moved _ _ _ _ _ _ _ Hw Hv Hne Ht) as (_ & Hm & Ha & Hmin & Hb).
  split; [split|..]; try done.
  - intros j Hj. eapply transfer_moved; [|exact Hv|exact Hne|exact Ht]. by apply world_wf_less.
  - intros x. eapply transfer_reserved; [exact Hw| |exact Ht]; lia.
  - intros x. by apply (moved_balance (λ x, free_balance x w) (λ x, free_balance x w') minimum_balance).
  - by intros [|a] x Hx; [|apply Ha].
Qed.

Lemma asset_transfer_paid k a from to v w w' b :
  world_wf (S k) w → 0 < v → asset_transfer a from to v Preserve w = Ok (b, w') →
  paid (Asset a) from to v w w'.
Proof.
  intros Hw Hv Ht. destruct (decide (from = to)) as [->|Hne].
  { rewrite (asset_transfer_noop _ _ _ _ _ _ _ _ Ht) by auto. apply paid_noop; auto. }
  destruct (asset_transfer_moved _ _ _ _ _ _ _ _ _ Hw Hv Hne Ht) as (_ & _ & Hm & Ha & Hmin & Hf & Hb).
  split; [split|..]; try done.
  - intros j Hj. by eapply asset_transfer_moved; [|exact Hv|exact Hne|exact Ht].
  - intros x. eapply asset_transfer_reserved; [exact Hw| |exact Ht]; lia.
  - intros x. by apply (moved_balance (λ x, asset_balance a x w) (λ x, asset_balance a x w')
      (asset_minimum_balance a w)).
  - intros [|a'] x Hx; simpl; [auto|]. apply Ha. congruence.
Qed.

Lemma pays_paid k cur from to v w w' :
  world_wf (S k) w → 0 ≤ v → pays cur from to v w w' → paid cur from to v w w'.
Proof.
  unfold pays. intros Hw Hv Hp. destruct (Z.eqb_spec v 0) as [->|Hne].
  { subst. apply paid_noop. auto. }
  destruct cur as [|a]; [eapply transfer_paid; [exact Hw| |exact Hp]; lia|].
  destruct Hp as [b Hp]. eapply asset_transfer_paid; [exact Hw| |exact Hp]; lia.
Qed.

(** [v] of [cur] is burnt; exactly [v] when there is no dust. *)
Record gone cur (who : AccountId) (v : Balance) w w' : Prop := {
  gn_quiet : quiet 1 w w';
  gn_bal : dustless cur w → bal cur who w' = bal cur who w - v;
  gn_other : ∀ cur' x, cur' ≠ cur → bal cur' x w' = bal cur' x w;
}.

Lemma burns_gone k cur who v w w' :
  world_wf (S k) w → 0 ≤ v → burns cur who v w w' → gone cur who v w w'.
Proof.
  unfold burns. intros Hw Hv Hp. destruct (Z.eqb_spec v 0) as [->|Hne].
  { subst. split; [apply quiet_refl|intros; lia|done]. }
  assert (0 < v) as Hpos by lia. destruct cur as [|a].
  - destruct (withdraw_burnt _ _ _ _ _ _ Hw Hpos Hp) as (_ & Hm & Hk & Ha & Hmin & Hb).
    split; [split|..]; try done.
    + intros j Hj. eapply withdraw_burnt; [|exact Hpos|exact Hp]. by apply world_wf_less.
    + intros x. eapply withdraw_reserved; [exact Hw| |exact Hp]; lia.
    + intros _. by apply Hk.
    + by intros [|a] x Hx; [|apply Ha].
  - destruct Hp as [b Hp].
    destruct (asset_burn_burnt _ _ _ _ _ _ _ Hw Hpos Hp) as (_ & [He Hf _] & Ha & Hmin & Hfree & Hb).
    split; [split|..]; try done.
    + intros j Hj. eapply asset_burn_burnt; [|exact Hpos|exact Hp]. by apply world_wf_less.
    + intros x. eapply asset_burn_reserved; [exact Hw| |exact Hp]; lia.
    + simpl. intros Hd. destruct Hf as [->|[Hlt ->]]; lia.
    + intros [|a'] x Hx; simpl; [auto|]. apply Ha. congruence.
Qed.
End payments.

(** ** The shares of a slash *)

(** What the shares of [total] add up to. *)
Fixpoint share_total (total : Balance) (d : list SlashRecipient) (distributed : Balance) : Balance :=
  match d with
  | [] => 0
  | r :: d' =>
      let amount := share_of total distributed r d' in
      amount + share_total total d'
        (if amount =? 0 then distributed else saturating_add U128_MAX distributed amount)
  end.

(** The same for all recipients but the last. *)
Fixpoint rounded_shares (total : Balance) (d : list SlashRecipient) : Balance :=
  match d with
  | [] | [_] => 0
  | r :: d' => permill_mul r.(share) total + rounded_shares total d'
  end.

Lemma rounded_shares_nonneg total d :
  0 ≤ total → Forall (λ r, 0 ≤ r.(share)) d → 0 ≤ rounded_shares total d.
Proof.
  intros Ht Hd. induction Hd as [|r d Hr Hd IH]; simpl; [done|]. destruct d; [done|].
  pose proof (permill_mul_nonneg r.(share) total Hr Ht). lia.
Qed.

Lemma share_total_rounded total d dd :
  d ≠ [] → 0 ≤ total → 0 ≤ dd ≤ U128_MAX → Forall (λ r, 0 ≤ r.(share)) d →
  share_total total d dd =
  rounded_shares total d + Z.max 0 (total - Z.min U128_MAX (dd + rounded_shares total d)).
Proof.
  revert dd. induction d as [|r d IH]; intros dd Hne Ht Hdd Hd; [done|].
  apply Forall_cons in Hd as [Hr Hd]. destruct d as [|r2 d].
  - simpl. unfold saturating_sub. lia.
  - pose proof (permill_mul_nonneg r.(share) total Hr Ht) as Hp.
    pose proof (rounded_shares_nonneg total (r2 :: d) Ht Hd) as Hq.
    change (share_total total (r :: r2 :: d) dd) with
      (permill_mul r.(share) total + share_total total (r2 :: d)
        (if permill_mul r.(share) total =? 0 then dd
         else saturating_add U128_MAX dd (permill_mul r.(share) total))).
    change (rounded_shares total (r :: r2 :: d)) with
      (permill_mul r.(share) total + rounded_shares total (r2 :: d)).
    rewrite IH; [|done|done| |done]; unfold saturating_add;
      destruct (Z.eqb_spec (permill_mul r.(share) total) 0); lia.
Qed.

(** Everything is handed out, or what the rounded shares are too much. *)
Lemma share_total_max total d :
  d ≠ [] → 0 ≤ total ≤ U128_MAX → Forall (λ r, 0 ≤ r.(share)) d →
  share_total total d 0 = Z.max total (rounded_shares total d).
Proof.
  intros Hne Ht Hd. rewrite share_total_rounded by (done || ulia).
  pose proof (rounded_shares_nonneg total d ltac:(lia) Hd). lia.
Qed.

Lemma rounded_shares_bound total d :
  0 ≤ total → Forall (λ r, 0 ≤ r.(share) ≤ PERMILL_ACCURACY) d →
  2 * PERMILL_ACCURACY * rounded_shares total d
    ≤ 2 * total * foldr (λ r acc, r.(share) + acc) 0 d + PERMILL_ACCURACY * Z.of_nat (length d).
Proof.
  intros Ht Hd. induction Hd as [|r d Hr Hd IH]; simpl rounded_shares; simpl foldr; simpl length.
  - lia.
  - pose proof (permill_mul_bounds r.(share) total Hr Ht) as [_ Hb].
    assert (0 ≤ foldr (λ r acc, r.(share) + acc) 0 d).
    { clear - Hd. induction Hd; simpl; lia. }
    unfold PERMILL_ACCURACY in *. destruct d; [nia|]. nia.
Qed.

(** ** What the pallet's account loses *)

Section draws.
Context {W : Type} `{!System W, !Currency W, !ReservableCurrency W, !Fungibles W}
  `{!WorldLaws W, !ReserveLaws W} `{!ParticipationFilter W, !AssetLifecycleGuard W} {T : Config}.
Implicit Types (w : W) (cur : PaymentCurrency) (r : Registry) (a : AssetInfo) (p : Participation).

(** The pallet's account loses at most [v] of [cur], and nothing else. *)
Record drawn (n : nat) cur (v : Z) w w' : Prop := {
  dn_quiet : quiet n w w';
  dn_bal : dustless cur w → bal cur pallet_account w - v ≤ bal cur pallet_account w';
  dn_other : ∀ cur', cur' ≠ cur → bal cur' pallet_account w ≤ bal cur' pallet_account w';
}.

Lemma drawn_refl n cur v w : 0 ≤ v → drawn n cur v w w.
Proof. intros Hv. split; [apply quiet_refl|lia|done]. Qed.

Lemma drawn_trans n1 n2 cur v1 v2 w1 w2 w3 :
  drawn n1 cur v1 w1 w2 → drawn n2 cur v2 w2 w3 → drawn (n1 + n2) cur (v1 + v2) w1 w3.
Proof.
  intros [Hq1 Hb1 Ho1] [Hq2 Hb2 Ho2]. split; [by eapply quiet_trans|..].
  - intros Hd. specialize (Hb1 Hd). apply (dustless_quiet _ _ _ _ Hq1) in Hd.
    specialize (Hb2 Hd). lia.
  - intros cur' Hne. specialize (Ho1 cur' Hne). specialize (Ho2 cur' Hne). lia.
Qed.

Lemma drawn_weaken n1 n2 cur v1 v2 w w' :
  (n1 ≤ n2)%nat → v1 ≤ v2 → drawn n1 cur v1 w w' → drawn n2 cur v2 w w'.
Proof.
  intros Hn Hv [Hq Hb Ho]. split; [by eapply quiet_weaken| |done]. intros Hd. specialize (Hb Hd). lia.
Qed.

Lemma paid_drawn cur from to v w w' :
  paid cur from to v w w' → 0 ≤ v →
  drawn 1 cur (if decide (from = pallet_account) then v
               else if decide (to = pallet_account) then - v else 0) w w'.
Proof.
  intros [Hq Hb Ho] Hv. split; [done| |intros; by rewrite Ho]. intros _. rewrite Hb.
  destruct (decide (from = pallet_account)), (decide (to = pallet_account)),
    (decide (pallet_account = to)), (decide (pallet_account = from)); try congruence; lia.
Qed.

(** Out of the pallet, into it, and past it. *)
Lemma pays_out k cur to v w w' :
  world_wf (S k) w → 0 ≤ v → pays cur pallet_account to v w w' → drawn 1 cur v w w'.
Proof.
  intros Hw Hv Hp. eapply pays_paid in Hp; [|exact Hw|done].
  pose proof (paid_drawn _ _ _ _ _ _ Hp Hv) as Hd. by rewrite decide_True in Hd.
Qed.

Lemma pays_in k cur from v w w' :
  world_wf (S k) w → 0 ≤ v → from ≠ pallet_account → pays cur from pallet_account v w w' →
  drawn 1 cur (- v) w w'.
Proof.
  intros Hw Hv Hne Hp. eapply pays_paid in Hp; [|exact Hw|done].
  pose proof (paid_drawn _ _ _ _ _ _ Hp Hv) as Hd.
  by rewrite decide_False, decide_True in Hd.
Qed.

Lemma pays_past k cur from to v w w' :
  world_wf (S k) w → 0 ≤ v → from ≠ pallet_account → pays cur from to v w w' → drawn 1 cur 0 w w'.
Proof.
  intros Hw Hv Hne Hp. eapply pays_paid in Hp; [|exact Hw|done].
  pose proof (paid_drawn _ _ _ _ _ _ Hp Hv) as Hd. rewrite decide_False in Hd by done.
  eapply drawn_weaken; [done| |exact Hd]. destruct (decide _); lia.
Qed.

Lemma burns_drawn k cur v w w' :
  world_wf (S k) w → 0 ≤ v → burns cur pallet_account v w w' → drawn 1 cur v w w'.
Proof.
  intros Hw Hv Hp. eapply burns_gone in Hp as [Hq Hb Ho]; [|exact Hw|done].
  split; [done| |intros; by rewrite Ho]. intros Hd. rewrite Hb by done. lia.
Qed.

Lemma share_of_nonneg total dd x d : 0 ≤ total → 0 ≤ x.(share) → 0 ≤ share_of total dd x d.
Proof.
  intros. unfold share_of. destruct d; [apply saturating_sub_nonneg|by apply permill_mul_nonneg].
Qed.

Lemma shares_drawn k cur total b rep d dd w w' :
  world_wf (length d + k) w → 0 ≤ total → Forall (λ x, 0 ≤ x.(share)) d →
  shares_paid cur total b rep d dd w w' →
  drawn (length d) cur (share_total total d dd) w w'.
Proof.
  intros Hw Ht Hd. revert dd w Hw. induction Hd as [|x d Hx Hd IH]; intros dd w Hw Hp; simpl in Hp.
  { subst. by apply drawn_refl. }
  destruct Hp as (w1 & H1 & Hp).
  pose proof (share_of_nonneg total dd x d Ht Hx) as Hnn. simpl.
  assert (drawn 1 cur (share_of total dd x d) w w1) as Hd1.
  { unfold slash_paid in H1. simpl in Hw.
    destruct (slash_dest b rep x.(kind)); [by eapply pays_out|by eapply burns_drawn]. }
  eapply (drawn_trans 1); [exact Hd1|]. apply IH; [|done].
  by apply (qu_wf _ _ _ (dn_quiet _ _ _ _ _ Hd1)).
Qed.

Lemma slash_drawn k d a amount rep w w' :
  world_wf (S (match d with Some d => length d | None => 0 end) + k) w → 0 ≤ amount →
  (∀ l, d = Some l → Forall (λ x, 0 ≤ x.(share)) l ∧ share_total amount l 0 ≤ amount) →
  slash_handed_out d a amount rep w w' →
  drawn (S (match d with Some d => length d | None => 0 end)) (cur_of a) amount w w'.
Proof.
  intros Hw Ha Hd. unfold slash_handed_out. destruct d as [[|x d]|].
  - intros Hp. by eapply pays_out.
  - destruct (Hd _ eq_refl) as [Hs Ht]. intros Hp.
    eapply shares_drawn in Hp; [|by apply world_wf_less|done|done].
    eapply drawn_weaken; [|exact Ht|exact Hp]. simpl. lia.
  - intros Hp. by eapply pays_out.
Qed.
End draws.
