(* ===== verification/RwaCustody.v ===== *)
(** * pallet-rwa: custody of the deposits

    The account of the pallet covers every deposit and every entry fee held
    for a participation, and what an owner has reserved covers the registration
    deposits of their assets. *)

From stdpp Require Import relations.
From S2P Require Import Prelude Arith Errors Frame Rwa RwaSpec RwaInv RwaParts RwaCorrect.
From S2P Require Import RwaReach RwaMachine RwaRefine RwaEvolve RwaFunds.

Section sanity.
Context {T : Config}.
Implicit Types (r : Registry) (a : AssetInfo) (p : Participation).

(** Amounts of a policy are balances, and what entering costs is one. *)
Definition policy_fits (pol : AssetPolicy) : Prop :=
  0 ≤ pol.(deposit) ∧ 0 ≤ pol.(entry_fee) ∧ pol.(deposit) + pol.(entry_fee) ≤ U128_MAX.

(** Calls with arguments of their type, by an account somebody has a key of. *)
Definition sound_call (o : Origin) (call : Call) : Prop :=
  (∀ who, o = Signed who → who ≠ pallet_account) ∧ typed_call call ∧
  match call with
  | Register_asset _ pol _ | Update_asset_policy _ pol => policy_fits pol
  | Slash_participation _ _ amount _ => 0 ≤ amount
  | _ => True
  end.

Definition sound (m : mover) : Prop :=
  match m with ByCall o call => sound_call o call | ByHook _ => True end.

Lemma signed_external m who : sound m → signed_by m who → who ≠ pallet_account.
Proof. destruct m as [o call|]; [|done]. intros [Ho _] ->. by apply Ho. Qed.

(** What custody needs to know of the registry. *)
Record sane (r : Registry) : Prop := {
  sn_assets : ∀ id a, r.(r_assets) !! id = Some a →
    policy_fits a.(policy) ∧ 0 ≤ a.(registration_deposit) ∧ a.(owner) ≠ pallet_account;
  sn_parts : ∀ id pid p, r.(r_parts) !! (id, pid) = Some p →
    is_Some (r.(r_assets) !! id) ∧ 0 ≤ p.(deposit_held) ∧ 0 ≤ p.(entry_fee_paid);
  sn_slash : ∀ id d, r.(r_slash) !! id = Some d → dist_wf d;
}.

Definition escrow_of (o : option Participation) : Balance :=
  match o with Some p => escrow p | None => 0 end.

(** The asset accounts one transition of a participation may open. *)
Definition part_room : nat := 2 + Z.to_nat MaxSlashRecipients.
End sanity.

Section moves.
Context {W : Type} `{!System W, !Currency W, !ReservableCurrency W, !Fungibles W}
  `{!WorldLaws W, !ReserveLaws W} `{!ParticipationFilter W, !AssetLifecycleGuard W} {T : Config}.
Implicit Types (w : W) (cur : PaymentCurrency) (r : Registry) (a : AssetInfo) (p : Participation).

(** The shares of a slashed amount do not round up to more than the amount. *)
Definition slash_fits (m : mover) (r : Registry) : Prop :=
  ∀ id pid amount l, slashes m id pid amount → r.(r_slash) !! id = Some l →
    share_total amount l 0 ≤ amount.

Lemma escrow_active p : is_active_p p.(pstatus) = true → escrow p = p.(deposit_held).
Proof.
  intros Ha. unfold escrow. rewrite bool_decide_false; [lia|]. intros Hp. by rewrite Hp in Ha.
Qed.

Lemma escrow_pending p :
  p.(pstatus) = PendingApproval → escrow p = p.(deposit_held) + p.(entry_fee_paid).
Proof. intros Hp. unfold escrow. by rewrite bool_decide_true. Qed.

Lemma escrow_closed st p : st ≠ PendingApproval → escrow (close st p) = 0.
Proof. intros Hst. unfold escrow. simpl. by rewrite bool_decide_false. Qed.

Lemma in_term_escrow p w : in_term p w → escrow p = p.(deposit_held).
Proof. intros [Ha _]. by apply escrow_active. Qed.

Lemma lapsed_escrow p n : lapsed p n = true → escrow p = p.(deposit_held).
Proof. intros (x & y & Hp)%lapsed_since. apply escrow_active. by rewrite Hp. Qed.

Lemma out_drawn k cur to v x w w' :
  world_wf (part_room + k) w → 0 ≤ v ≤ x → pays cur pallet_account to v w w' →
  drawn part_room cur x w w'.
Proof.
  intros Hw Hv Hp. eapply pays_out in Hp; [|exact Hw|lia].
  eapply drawn_weaken; [| |exact Hp]; [unfold part_room|]; lia.
Qed.

Lemma request_drawn k who a w w' :
  world_wf (part_room + k) w → who ≠ pallet_account → policy_fits a.(policy) →
  entry_paid a who w w' →
  drawn part_room (cur_of a)
    (- (a.(policy).(deposit) +
        if a.(policy).(requires_approval) then a.(policy).(entry_fee) else 0)) w w'.
Proof.
  intros Hw Hne (Hd & Hf & Hs). unfold entry_paid. destruct (requires_approval _).
  - rewrite saturating_add_exact by lia. intros Hp. eapply pays_in in Hp; [|exact Hw|lia|done].
    eapply drawn_weaken; [| |exact Hp]; [unfold part_room|]; lia.
  - intros (w1 & H1 & H2). eapply pays_in in H1; [|exact Hw|lia|done].
    pose proof (qu_wf _ _ _ (dn_quiet _ _ _ _ _ H1) (S (Z.to_nat MaxSlashRecipients) + k) Hw) as Hw1.
    eapply pays_past in H2; [|exact Hw1|lia|done]. pose proof (drawn_trans _ _ _ _ _ _ _ _ H1 H2).
    eapply drawn_weaken; [| |done]; [unfold part_room|]; lia.
Qed.

(** Two payments one after the other. *)
Lemma drawn_then n k cur v1 v2 x w w1 w' :
  (S n ≤ part_room)%nat → world_wf (part_room + k) w → drawn n cur v1 w w1 → v1 + v2 ≤ x →
  (∀ j, world_wf (S j) w1 → drawn 1 cur v2 w1 w') → drawn part_room cur x w w'.
Proof.
  intros Hn Hw H1 Hx H2. eapply drawn_weaken; [|exact Hx|eapply (drawn_trans n 1); [exact H1|]]; [lia|].
  apply (H2 (part_room + k - n - 1)%nat), (qu_wf _ _ _ (dn_quiet _ _ _ _ _ H1)).
  by replace (n + S (part_room + k - n - 1))%nat with (part_room + k)%nat by lia.
Qed.

Lemma reenter_drawn k who a w w1 w' :
  world_wf (part_room + k) w → who ≠ pallet_account → policy_fits a.(policy) →
  pays (cur_of a) who pallet_account a.(policy).(deposit) w w1 →
  pays (cur_of a) who a.(beneficiary) a.(policy).(entry_fee) w1 w' →
  drawn part_room (cur_of a) (- a.(policy).(deposit)) w w'.
Proof.
  intros Hw Hne (Hd & Hf & _) H1 H2. eapply pays_in in H1; [|exact Hw|lia|done].
  eapply (drawn_then 1 k _ _ 0); [unfold part_room; lia|done|exact H1|lia|].
  intros j Hj. by eapply pays_past.
Qed.

Lemma slash_move_drawn k id a p r amount rep w w1 w' :
  sane r → world_wf (part_room + k) w → 0 ≤ amount ≤ p.(deposit_held) →
  (∀ l, r.(r_slash) !! id = Some l → share_total amount l 0 ≤ amount) →
  slash_handed_out (r.(r_slash) !! id) a amount rep w w1 →
  pays (cur_of a) pallet_account p.(payer) (p.(deposit_held) - amount) w1 w' →
  drawn part_room (cur_of a) p.(deposit_held) w w'.
Proof.
  intros Hs Hw Ha Hfit H1 H2.
  set (n := S (match r.(r_slash) !! id with Some d => length d | None => 0 end)).
  assert (S n ≤ part_room)%nat as Hn.
  { unfold n, part_room. destruct (r.(r_slash) !! id) as [d|] eqn:Hd; [|lia].
    destruct (sn_slash _ Hs _ _ Hd) as (_ & _ & Hlen). lia. }
  eapply (slash_drawn (part_room - n + k)) in H1.
  - eapply (drawn_then n k _ amount (p.(deposit_held) - amount)); [done|done|exact H1|lia|].
    intros j Hj. eapply pays_out; [exact Hj|lia|done].
  - fold n. by replace (n + (part_room - n + k))%nat with (part_room + k)%nat by lia.
  - lia.
  - intros l Hl. split; [|by apply Hfit]. destruct (sn_slash _ Hs _ _ Hl) as (Hsh & _).
    eapply Forall_impl; [exact Hsh|]. simpl. lia.
Qed.

(** The escrow of a participation and the account of the pallet move together. *)
Lemma part_move_drawn k m id pid a r w new w' :
  sound m → sane r → slash_fits m r → r.(r_assets) !! id = Some a →
  world_wf (part_room + k) w →
  part_move m id pid a r w (r.(r_parts) !! (id, pid)) new w' →
  drawn part_room (cur_of a) (escrow_of (r.(r_parts) !! (id, pid)) - escrow_of new) w w'.
Proof.
  intros Hm Hs Hfit Ha Hw Hmove. destruct (sn_assets _ Hs _ _ Ha) as (Hpol & _ & _).
  assert (∀ p, r.(r_parts) !! (id, pid) = Some p → 0 ≤ p.(deposit_held) ∧ 0 ≤ p.(entry_fee_paid))
    as Hnn by (intros p Hp; by apply (sn_parts _ Hs _ _ _ Hp)).
  remember (r.(r_parts) !! (id, pid)) as old eqn:Hold. clear Hold.
  destruct Hmove; simpl; try specialize (Hnn _ eq_refl) as [Hdep Hfee];
    rewrite ?(escrow_closed _ _) by done.
  - pose proof (signed_external _ _ Hm H) as Hne.
    eapply drawn_weaken; [done| |by eapply request_drawn].
    unfold escrow, first_status. simpl. destruct (requires_approval _); simpl; lia.
  - rewrite escrow_pending, escrow_active by done. simpl. eapply out_drawn; [done| |done]. lia.
  - rewrite escrow_pending by done. eapply out_drawn; [done| |done]. ulia.
  - erewrite lapsed_escrow by done. eapply out_drawn; [done| |done]. lia.
  - erewrite in_term_escrow by done. eapply out_drawn; [done| |done]. lia.
  - eapply out_drawn; [done| |done]. unfold escrow. destruct (bool_decide _); ulia.
  - rewrite (in_term_escrow p w), escrow_active by done. simpl.
    pose proof (signed_external _ _ Hm H) as Hne. destruct Hpol as (_ & Hf & _).
    eapply pays_past in H3; [|exact Hw|done|done].
    eapply drawn_weaken; [| |exact H3]; [unfold part_room|]; lia.
  - pose proof (signed_external _ _ Hm H) as Hne.
    eapply drawn_weaken; [done| |by eapply reenter_drawn].
    rewrite (escrow_active (set_pstatus _ _)) by done. simpl. unfold escrow.
    rewrite bool_decide_false by congruence. lia.
  - apply drawn_refl. unfold escrow. simpl. lia.
  - apply drawn_refl. unfold escrow. simpl. lia.
  - erewrite in_term_escrow by done. eapply out_drawn; [done| |done]. simpl. lia.
  - apply drawn_refl. unfold escrow. simpl. lia.
  - erewrite in_term_escrow by done. eapply out_drawn; [done| |done]. lia.
  - erewrite in_term_escrow by done. rewrite Z.sub_0_r. eapply slash_move_drawn; try done.
    + split; [|done]. destruct m as [o []|]; try done. simpl in H. destruct H as (_ & _ & _ & <-). apply Hm.
    + intros l Hl. by eapply Hfit.
Qed.
End moves.

(** ** The whole escrow *)

(** Registrations are covered by what their owners have reserved, next to the
    [other] claims on the same reserves, for the accounts that are [counted]. *)
Section custody.
Context (counted : AccountId → Prop) (other : AccountId → Balance).
Context {W : Type} `{!System W, !Currency W, !ReservableCurrency W, !Fungibles W}
  `{!WorldLaws W, !ReserveLaws W} `{!ParticipationFilter W, !AssetLifecycleGuard W} {T : Config}.
Implicit Types (w : W) (cur : PaymentCurrency) (r : Registry) (a : AssetInfo) (p : Participation).

Definition held_for (cur : PaymentCurrency) (r : Registry) (k : Z * Z) (p : Participation) : Balance :=
  match r.(r_assets) !! k.1 with
  | Some a => if decide (cur_of a = cur) then escrow p else 0
  | None => 0
  end.

(** What is held in [cur] for all participations. *)
Definition held (cur : PaymentCurrency) (r : Registry) : Balance :=
  map_sum (held_for cur r) r.(r_parts).

(** The registration deposits of the assets of [who] that are not retired. *)
Definition pledge (who : AccountId) (id : Z) (a : AssetInfo) : Balance :=
  if decide (a.(owner) = who ∧ a.(status) ≠ Retired) then a.(registration_deposit) else 0.
Definition pledged (who : AccountId) (r : Registry) : Balance := map_sum (pledge who) r.(r_assets).

Record custody (v : Registry * W) : Prop := {
  cu_sane : sane v.1;
  cu_held : ∀ cur, dustless cur v.2 → held cur v.1 ≤ bal cur pallet_account v.2;
  cu_pledged : ∀ who, counted who → pledged who v.1 + other who ≤ reserved_balance who v.2;
}.

Lemma at_held cur r k a :
  r.(r_assets) !! k.1 = Some a →
  at_key (held_for cur r) r.(r_parts) k =
  if decide (cur_of a = cur) then escrow_of (r.(r_parts) !! k) else 0.
Proof.
  intros Ha. unfold at_key, held_for. rewrite Ha. destruct (r_parts r !! k); [done|].
  by destruct (decide _).
Qed.

Lemma held_put_part cur id pid a new r :
  r.(r_assets) !! id = Some a →
  held cur (put_part id pid new r) = held cur r +
    (if decide (cur_of a = cur) then escrow_of new - escrow_of (r.(r_parts) !! (id, pid)) else 0).
Proof.
  intros Ha. unfold held. change (held_for cur (put_part id pid new r)) with (held_for cur r).
  pose proof (at_held cur r (id, pid) a Ha) as Hat. destruct new as [p|]; simpl.
  - change (partial_alter (λ _, Some p) (id, pid) (r_parts r)) with (<[(id, pid) := p]> (r_parts r)).
    rewrite map_sum_insert, Hat. unfold held_for at 1. simpl. rewrite Ha. destruct (decide _); lia.
  - change (partial_alter (λ _, None) (id, pid) (r_parts r)) with (delete (id, pid) (r_parts r)).
    rewrite map_sum_remove, Hat. destruct (decide _); lia.
Qed.

Lemma part_move_sane m id pid a r w new w' p' :
  sane r → r.(r_assets) !! id = Some a →
  part_move m id pid a r w (r.(r_parts) !! (id, pid)) new w' → new = Some p' →
  0 ≤ p'.(deposit_held) ∧ 0 ≤ p'.(entry_fee_paid).
Proof.
  intros Hs Ha Hm Hnew. destruct (sn_assets _ Hs _ _ Ha) as ((Hd & Hf & _) & _ & _).
  assert (∀ p, r.(r_parts) !! (id, pid) = Some p → 0 ≤ p.(deposit_held) ∧ 0 ≤ p.(entry_fee_paid))
    as Hnn by (intros p Hp; by apply (sn_parts _ Hs _ _ _ Hp)).
  remember (r.(r_parts) !! (id, pid)) as old eqn:Hold. clear Hold.
  destruct Hm; try specialize (Hnn _ eq_refl) as [Hdep Hfee]; simplify_eq; simpl; lia.
Qed.

Lemma part_step_sane m (v v' : Registry * W) : sane v.1 → part_step m v v' → sane v'.1.
Proof.
  intros Hs Hstep. destruct Hstep as [id pid a r w new w' Ha Hm]. simpl in *. pose proof Hs as [Hsa Hsp Hss].
  split; simpl; [exact Hsa| |exact Hss]. intros id' pid' p Hp.
  destruct (decide ((id', pid') = (id, pid))) as [Hk|Hk].
  - injection Hk as -> ->. rewrite lookup_partial_alter_eq in Hp. split; [by eexists|].
    by eapply part_move_sane.
  - rewrite lookup_partial_alter_ne in Hp by done. by eapply Hsp.
Qed.

Lemma part_step_custody k m (v v' : Registry * W) :
  sound m → slash_fits m v.1 → world_wf (part_room + k) v.2 → custody v → part_step m v v' →
  custody v' ∧ world_wf k v'.2.
Proof.
  intros Hm Hfit Hw [Hs Hh Hp] Hstep. pose proof (part_step_sane _ _ _ Hs Hstep) as Hs'.
  destruct Hstep as [id pid a r w new w' Ha Hmove]. simpl in *.
  destruct (part_move_drawn _ _ _ _ _ _ _ _ _ Hm Hs Hfit Ha Hw Hmove) as [Hq Hb Ho].
  split; [|by apply Hq]. split; simpl; [done| |].
  - intros cur Hd. apply (dustless_quiet _ _ _ _ Hq) in Hd. specialize (Hh cur Hd).
    rewrite (held_put_part _ _ _ _ _ _ Ha). destruct (decide (cur_of a = cur)) as [<-|Hne].
    + specialize (Hb Hd). lia.
    + specialize (Ho cur ltac:(done)). lia.
  - intros who Hwho. rewrite (qu_reserved _ _ _ Hq). by apply Hp.
Qed.

Lemma part_step_slash m (v v' : Registry * W) : part_step m v v' → v'.1.(r_slash) = v.1.(r_slash).
Proof. by intros []. Qed.

Lemma part_steps_custody n k m (v v' : Registry * W) :
  sound m → slash_fits m v.1 → world_wf (n * part_room + k) v.2 → custody v →
  bsteps (part_step m) n v v' → custody v' ∧ world_wf k v'.2.
Proof.
  intros Hm Hfit Hw Hc Hs. revert Hfit Hw Hc.
  induction Hs as [n v|n v v1 v' Hstep _ IH]; intros Hfit Hw Hc.
  { split; [done|]. by apply wf_less in Hw. }
  assert (world_wf (part_room + (n * part_room + k)) v.2) as Hw1.
  { by replace (part_room + (n * part_room + k))%nat with (S n * part_room + k)%nat by lia. }
  destruct (part_step_custody _ _ _ _ Hm Hfit Hw1 Hc Hstep) as [Hc1 Hw2].
  apply IH; [|done|done]. unfold slash_fits. by rewrite (part_step_slash _ _ _ Hstep).
Qed.

(** *** Assets *)

Lemma sane_put_asset id a r :
  sane r → policy_fits a.(policy) → 0 ≤ a.(registration_deposit) → a.(owner) ≠ pallet_account →
  sane (put_asset id a r).
Proof.
  intros [Ha Hp Hs] H1 H2 H3. split; simpl; [| |exact Hs].
  - intros j x. rewrite lookup_insert. case_decide; [|by apply Ha]. intros [= <-]. done.
  - intros j pid p Hx. destruct (Hp _ _ _ Hx) as (Hsome & Hd & Hf). split; [|done].
    rewrite lookup_insert. by case_decide.
Qed.

Lemma sane_retire id a r : sane (put_asset id (set_status Retired a) r) → sane (retire id a r).
Proof.
  intros [Ha Hp Hs]. split; [exact Ha|exact Hp|]. simpl. intros j d. rewrite lookup_delete.
  case_decide; [done|]. apply Hs.
Qed.

Lemma sane_proposal id n r : sane r → sane (put_proposal id n r).
Proof. by intros []. Qed.

Lemma sane_slash id d r : sane r → dist_wf d → sane (put_slash id d r).
Proof.
  intros [Ha Hp Hs] Hd. split; [exact Ha|exact Hp|]. simpl. intros j x. rewrite lookup_insert.
  case_decide; [by intros [= <-]|apply Hs].
Qed.

Lemma asset_move_sane m id r w r' w' :
  sound m → 0 ≤ AssetRegistrationDeposit → sane r → asset_move m id r w r' w' → sane r'.
Proof.
  intros Hm Hreg Hs Hmove. destruct m as [o call|n].
  2:{ destruct Hmove; try done. destruct (sn_assets _ Hs _ _ H) as (? & ? & ?).
      by apply sane_retire, sane_put_asset. }
  destruct Hm as (Ho & Htyped & Hcall).
  destruct Hmove; try destruct (sn_assets _ Hs _ _ H) as (? & ? & ?);
    try (by apply sane_put_asset); try (by apply sane_retire, sane_put_asset);
    try (by apply sane_proposal).
  - simpl in H0. subst call. apply sane_put_asset; simpl; try done. by apply Ho.
  - simpl in H1. subst call. apply sane_put_asset; simpl; done.
  - apply sane_proposal, sane_put_asset; simpl; try done. by apply Ho.
  - apply sane_slash; [done|]. simpl in H1. subst call. destruct Htyped. by apply dist_wf_typed.
Qed.

(** Nothing held changes hands when an asset does not change its currency. *)
Lemma held_assets cur r r' :
  sane r → r'.(r_parts) = r.(r_parts) →
  (∀ j a, r.(r_assets) !! j = Some a →
     ∃ a', r'.(r_assets) !! j = Some a' ∧ cur_of a' = cur_of a) →
  held cur r' = held cur r.
Proof.
  intros Hs Hp Ha. unfold held. rewrite Hp. apply map_sum_ext. intros [j pid] p Hx.
  destruct (sn_parts _ Hs _ _ _ Hx) as ([a Hj] & _ & _). destruct (Ha j a Hj) as (a' & Hj' & Hc).
  unfold held_for. simpl. by rewrite Hj, Hj', Hc.
Qed.

Lemma asset_move_held m id r w r' w' cur :
  sane r → asset_move m id r w r' w' → held cur r' = held cur r.
Proof.
  intros Hs Hm. apply held_assets; [done|by destruct Hm|]. intros j a Ha.
  destruct (asset_move_follows _ _ _ _ _ _ _ _ Hm Ha) as (a' & Ha' & [_ Ht _ _ _]).
  exists a'. split; [done|]. by injection Ht.
Qed.

Lemma pledged_put who id a r :
  pledged who (put_asset id a r) =
  pledge who id a - at_key (pledge who) r.(r_assets) id + pledged who r.
Proof. apply map_sum_insert. Qed.

Lemma pledged_same who id a a' r :
  r.(r_assets) !! id = Some a → pledge who id a' = pledge who id a →
  pledged who (put_asset id a' r) = pledged who r.
Proof. intros Ha Hp. rewrite pledged_put. unfold at_key. rewrite Ha. lia. Qed.

(** A status that is not retired replaces another. *)
Lemma pledge_status who id st a :
  a.(status) ≠ Retired → st ≠ Retired → pledge who id (set_status st a) = pledge who id a.
Proof. intros H1 H2. unfold pledge. simpl. destruct (decide _), (decide _); tauto. Qed.

Lemma pledge_nonneg who id a : 0 ≤ a.(registration_deposit) → 0 ≤ pledge who id a.
Proof. unfold pledge. destruct (decide _); lia. Qed.

(** What reserving leaves alone, and [delta] of what [who] has reserved. *)
Record set_aside (k : nat) (who : AccountId) (delta : Z) w w' : Prop := {
  sa_wf : world_wf k w';
  sa_bal : ∀ cur, bal cur pallet_account w' = bal cur pallet_account w;
  sa_min : ∀ x, asset_minimum_balance x w' = asset_minimum_balance x w;
  sa_reserved : ∀ x, reserved_balance x w + (if decide (x = who) then delta else 0)
    ≤ reserved_balance x w';
}.

Lemma reserve_aside k who v w w' :
  world_wf k w → 0 ≤ v → who ≠ pallet_account → reserve who v w = Ok (tt, w') →
  set_aside k who v w w'.
Proof.
  intros Hw Hv Hne Hr. destruct (reserve_effect _ _ _ _ _ Hw Hv Hr) as (Hw' & Hres & Hx & Ha & Hm & _).
  split; try done.
  - intros [|x]; simpl; [|done]. by apply Hx.
  - intros x. destruct (decide (x = who)) as [->|Hxw]; [lia|]. destruct (Hx x Hxw) as [_ ->]. lia.
Qed.

Lemma unreserve_aside k who v w x w' :
  world_wf k w → 0 ≤ v → who ≠ pallet_account → unreserve who v w = (x, w') →
  set_aside k who (- v) w w'.
Proof.
  intros Hw Hv Hne Hr. destruct (unreserve_effect _ _ _ _ _ _ Hw Hv Hr) as (Hw' & Hres & Hx & Ha & Hm & _).
  split; try done.
  - intros [|y]; simpl; [|done]. by apply Hx.
  - intros y. destruct (decide (y = who)) as [->|Hxw]; [lia|]. destruct (Hx y Hxw) as [_ ->]. lia.
Qed.

Lemma custody_aside k who delta m id r w r' w' :
  sound m → 0 ≤ AssetRegistrationDeposit → custody (r, w) → asset_move m id r w r' w' →
  set_aside k who delta w w' →
  (∀ x, pledged x r' ≤ pledged x r + if decide (x = who) then delta else 0) →
  custody (r', w') ∧ world_wf k w'.
Proof.
  intros Hm Hreg [Hs Hh Hp] Hmove [Hw Hb Hmin Hres] Hpl. simpl in *. split; [|done].
  split; simpl; [by eapply asset_move_sane|..].
  - intros cur Hd. rewrite (asset_move_held _ _ _ _ _ _ _ Hs Hmove), Hb. apply Hh.
    destruct cur; simpl in *; [done|congruence].
  - intros x Hx. specialize (Hpl x). specialize (Hres x). specialize (Hp x Hx).
    destruct (decide (x = who)); lia.
Qed.

Lemma aside_refl k who w : world_wf k w → set_aside k who 0 w w.
Proof. intros Hw. split; try done. intros x. destruct (decide _); lia. Qed.

(** Moves that leave the world and the pledges alone. *)
Lemma rwa_custody_still k m id r w r' :
  sound m → 0 ≤ AssetRegistrationDeposit → world_wf k w → custody (r, w) →
  asset_move m id r w r' w → (∀ x, pledged x r' = pledged x r) →
  custody (r', w) ∧ world_wf k w.
Proof.
  intros Hm Hreg Hw Hc Hmove Hp. eapply (custody_aside k pallet_account 0); try done.
  - by apply aside_refl.
  - intros x. rewrite Hp. destruct (decide _); lia.
Qed.

Lemma pledged_retire who id a r :
  r.(r_assets) !! id = Some a → a.(status) ≠ Retired →
  pledged who (retire id a r) =
  pledged who r + if decide (who = a.(owner)) then - a.(registration_deposit) else 0.
Proof.
  intros Ha Hst. change (pledged who (retire id a r)) with (pledged who (put_asset id (set_status Retired a) r)).
  rewrite pledged_put. unfold at_key. rewrite Ha. unfold pledge. simpl.
  rewrite (decide_False (P := owner a = who ∧ Retired ≠ Retired)) by tauto.
  destruct (decide (who = owner a)) as [->|Hne].
  - rewrite decide_True by done. lia.
  - rewrite decide_False by naive_solver. lia.
Qed.

Lemma retire_custody k m id r w w' a x :
  sound m → 0 ≤ AssetRegistrationDeposit → world_wf k w → custody (r, w) →
  r.(r_assets) !! id = Some a → a.(status) ≠ Retired →
  unreserve a.(owner) a.(registration_deposit) w = (x, w') →
  asset_move m id r w (retire id a r) w' → custody (retire id a r, w') ∧ world_wf k w'.
Proof.
  intros Hm Hreg Hw Hc Ha Hst Hu Hmove. destruct (sn_assets _ (cu_sane _ Hc) _ _ Ha) as (_ & Hd & Ho).
  eapply custody_aside; try done; [by eapply unreserve_aside|].
  intros y. by rewrite (pledged_retire _ _ _ _ Ha Hst).
Qed.

Lemma register_custody k m id r w w' who b pol meta now :
  sound m → 0 ≤ AssetRegistrationDeposit → world_wf k w → custody (r, w) →
  signed_by m who → r.(r_assets) !! id = None →
  reserve who AssetRegistrationDeposit w = Ok (tt, w') →
  let r' := put_asset id (mkAssetInfo who b Active pol meta 0 AssetRegistrationDeposit now) r in
  asset_move m id r w r' w' → custody (r', w') ∧ world_wf k w'.
Proof.
  intros Hm Hreg Hw Hc Ho Hn Hr r' Hmove. pose proof (signed_external _ _ Hm Ho) as Hext.
  eapply custody_aside; try done; [by eapply reserve_aside|].
  intros x. unfold r'. rewrite pledged_put. unfold at_key. rewrite Hn. unfold pledge. simpl.
  destruct (decide (x = who)) as [->|Hne].
  - rewrite decide_True by done. lia.
  - rewrite decide_False by naive_solver. lia.
Qed.

(** Unreserving here and reserving there. *)
Lemma aside_trans k who1 d1 who2 d2 w w1 w' :
  set_aside k who1 d1 w w1 → set_aside k who2 d2 w1 w' →
  world_wf k w' ∧ (∀ cur, bal cur pallet_account w' = bal cur pallet_account w) ∧
  (∀ x, asset_minimum_balance x w' = asset_minimum_balance x w) ∧
  (∀ x, reserved_balance x w + (if decide (x = who1) then d1 else 0)
     + (if decide (x = who2) then d2 else 0) ≤ reserved_balance x w').
Proof.
  intros [Hw1 Hb1 Hm1 Hr1] [Hw2 Hb2 Hm2 Hr2]. split_and!; [done|congruence|congruence|].
  intros x. specialize (Hr1 x). specialize (Hr2 x). lia.
Qed.

Lemma accept_custody k m id r w w1 w' a who x :
  sound m → 0 ≤ AssetRegistrationDeposit → world_wf k w → custody (r, w) →
  r.(r_assets) !! id = Some a → signed_by m who → a.(status) ≠ Retired →
  unreserve a.(owner) a.(registration_deposit) w = (x, w1) →
  reserve who a.(registration_deposit) w1 = Ok (tt, w') →
  let r' := put_proposal id None (put_asset id (set_owner who a) r) in
  asset_move m id r w r' w' → custody (r', w') ∧ world_wf k w'.
Proof.
  intros Hm Hreg Hw Hc Ha Hs Hst Hu Hr r' Hmove. pose proof (signed_external _ _ Hm Hs) as Hext.
  destruct Hc as [Hsane Hh Hp]. destruct (sn_assets _ Hsane _ _ Ha) as (_ & Hd & Ho). simpl in *.
  eapply unreserve_aside in Hu; [|done..].
  eapply (reserve_aside k) in Hr; [|apply Hu|done|done].
  destruct (aside_trans _ _ _ _ _ _ _ _ Hu Hr) as (Hw' & Hb & Hmin & Hres). split; [|done].
  split; simpl; [by eapply asset_move_sane|..].
  - intros cur Hdl. rewrite (asset_move_held _ _ _ _ _ _ _ Hsane Hmove), Hb. apply Hh.
    destruct cur; simpl in *; [done|congruence].
  - intros y Hy. specialize (Hres y). specialize (Hp y Hy).
    change (pledged y r') with (pledged y (put_asset id (set_owner who a) r)).
    rewrite pledged_put. unfold at_key. rewrite Ha. unfold pledge. simpl.
    destruct (decide (y = who)), (decide (y = owner a)),
      (decide (who = y ∧ _)), (decide (owner a = y ∧ _)); naive_solver lia.
Qed.

Lemma asset_step_custody k m (v v' : Registry * W) :
  sound m → 0 ≤ AssetRegistrationDeposit → world_wf k v.2 → custody v → asset_step m v v' →
  custody v' ∧ world_wf k v'.2.
Proof.
  intros Hm Hreg Hw Hc [id Hmove]. destruct v as [r w], v' as [r' w']. simpl in *.
  pose proof Hmove as Hmove0.
  destruct Hmove; try (eapply rwa_custody_still; try done; intros y; eapply pledged_same; try done;
    apply pledge_status; try done; by rewrite ?H1, ?H0).
  - by eapply register_custody.
  - eapply rwa_custody_still; try done. intros y. eapply pledged_same; [done|].
    by apply pledge_status; [apply plain_not_retired|].
  - eapply rwa_custody_still; try done. intros y. eapply pledged_same; [done|].
    by apply pledge_status; [apply plain_not_retired|].
  - eapply retire_custody; try done. by rewrite H0.
  - by eapply retire_custody.
  - eapply accept_custody; try done. intros Hr. rewrite Hr in *. set_solver.
Qed.

Lemma asset_steps_custody n k m (v v' : Registry * W) :
  sound m → 0 ≤ AssetRegistrationDeposit → world_wf k v.2 → custody v →
  bsteps (asset_step m) n v v' → custody v' ∧ world_wf k v'.2.
Proof.
  intros Hm Hreg Hw Hc Hs. revert Hw Hc.
  induction Hs as [n v|n v v1 v' Hstep _ IH]; intros Hw Hc; [done|].
  destruct (asset_step_custody _ _ _ _ Hm Hreg Hw Hc Hstep) as [Hc1 Hw1]. by apply IH.
Qed.
(** *** Calls, the hook, and the rest of the runtime *)

(** The ledgers have room for the asset accounts a call may open. *)
Definition roomy (e : CEnv W) : Prop := world_wf (call_bound * part_room) (world e).

Lemma dispatch_custody o call (e e' : CEnv W) :
  0 ≤ AssetRegistrationDeposit → Inv (store e) → custody (view e) →
  sound_call o call → roomy e → slash_fits (ByCall o call) (abs (store e)) →
  e ⊢ dispatch o call ⇝ e' → custody (view e') ∧ world_wf 0 (world e').
Proof.
  intros Hreg HI Hcu Hc Hroom Hfit Hrun.
  destruct (dispatch_refines _ _ _ _ HI Hrun) as [Ha|Hp].
  - eapply (asset_step_custody 0 (ByCall o call) (view e) (view e')); try done.
    apply (wf_less (call_bound * part_room) 0). simpl. by rewrite Nat.add_0_r.
  - eapply (part_steps_custody _ 0) in Hp; try done. by rewrite Nat.add_0_r.
Qed.

Lemma hook_custody n (e e' : CEnv W) :
  0 ≤ AssetRegistrationDeposit → Inv (store e) → custody (view e) → world_wf 0 (world e) →
  on_initialize n e = Ok (tt, e') → custody (view e') ∧ world_wf 0 (world e').
Proof.
  intros Hreg HI Hcu Hw Hrun.
  eapply (asset_steps_custody _ 0 (ByHook n) (view e)); [done..|by apply hook_refines].
Qed.

Lemma genesis_custody w :
  world_wf 0 w → (∀ who, counted who → other who ≤ reserved_balance who w) → custody (abs genesis, w).
Proof.
  intros Hw Hr. split; simpl.
  - split; simpl; intros *; by rewrite ?fmap_empty, lookup_empty.
  - intros cur _. unfold held. simpl. rewrite map_sum_empty.
    destruct cur; simpl; [by apply (free_balance_fits 0)|by apply (asset_balance_fits 0)].
  - intros who Hwho. unfold pledged. simpl. rewrite fmap_empty, map_sum_empty. by apply Hr.
Qed.
End custody.

(** ** Reachable states *)

Section solvent.
Context {W : Type} `{!System W, !Currency W, !ReservableCurrency W, !Fungibles W}
  `{!WorldLaws W, !ReserveLaws W} `{!ParticipationFilter W, !AssetLifecycleGuard W} {T : Config}.
Implicit Types (e : CEnv W) (w : W).

(** What the rest of the runtime may do: anything but debit the account of the
    pallet, lower what is reserved, or change the minimum of an asset. *)
Record benign w w' : Prop := {
  bn_wf : world_wf 0 w';
  bn_bal : ∀ cur, bal cur pallet_account w ≤ bal cur pallet_account w';
  bn_reserved : ∀ who, reserved_balance who w ≤ reserved_balance who w';
  bn_min : ∀ x, asset_minimum_balance x w' = asset_minimum_balance x w;
}.

(** The steps of RwaReach.v with the conditions under which deposits are safe:
    sound calls, ledgers with room, slashes whose shares do not round up to
    more than the slashed amount, and a benign rest of the runtime. *)
Inductive funded_step e : CEnv W → Prop :=
| funded_call o call e' :
    sound_call o call → roomy e → slash_fits (ByCall o call) (abs (store e)) →
    e ⊢ dispatch o call ⇝ e' → funded_step e e'
| funded_hook n e' : on_initialize n e = Ok (tt, e') → funded_step e e'
| funded_world w' : benign (world e) w' → funded_step e (mkEnv (store e) w' (events e)).

Inductive solvent : CEnv W → Prop :=
| solvent_genesis w :
    world_wf 0 w → (∀ who, 0 ≤ reserved_balance who w) → solvent (mkEnv genesis w [])
| solvent_step e e' : solvent e → funded_step e e' → solvent e'.

Lemma funded_is_step e e' : funded_step e e' → step e e'.
Proof.
  intros [o call e1 (_ & Ht & _) _ _ Hrun|n e1 Hrun|w' _].
  - by eapply step_call.
  - by eapply step_hook.
  - apply step_world.
Qed.

Lemma solvent_reachable e : solvent e → reachable e.
Proof. induction 1; [apply reachable_genesis|]. eauto using reachable_step, funded_is_step. Qed.

Lemma custody_world counted other other' r w w' :
  custody counted other (r, w) →
  (∀ cur, bal cur pallet_account w ≤ bal cur pallet_account w') →
  (∀ who, counted who →
     reserved_balance who w + other' who ≤ reserved_balance who w' + other who) →
  (∀ x, asset_minimum_balance x w' = asset_minimum_balance x w) → custody counted other' (r, w').
Proof.
  intros [Hsane Hh Hp] Hb Hres Hmin. split; simpl in *; [done|..].
  - intros cur Hd. etransitivity; [apply Hh|apply Hb]. destruct cur; simpl in *; [done|congruence].
  - intros who Hwho. specialize (Hp who Hwho). specialize (Hres who Hwho). lia.
Qed.

Lemma solvent_custody e :
  0 ≤ AssetRegistrationDeposit → solvent e →
  custody (λ _, True) (λ _, 0) (view e) ∧ world_wf 0 (world e).
Proof.
  intros Hreg. induction 1 as [w Hw Hr|e e' Hs [IH Hw] Hstep].
  { split; [eapply genesis_custody; [exact Hw|auto]|done]. }
  pose proof (reachable_inv _ (solvent_reachable _ Hs)) as HI.
  destruct Hstep as [o call e' Hc Hroom Hfit Hrun|n e' Hrun|w' [Hw' Hb Hres Hmin]].
  - by eapply dispatch_custody.
  - by eapply hook_custody.
  - split; [|done]. eapply custody_world; [exact IH|done| |done]. intros who _. specialize (Hres who). simpl. lia.
Qed.
End solvent.
