(* ===== verification/RwaTheorems.v ===== *)
(** * pallet-rwa: the properties of its storage

    What holds of every reachable state and of every call that succeeds,
    whatever the rest of the runtime does. *)

From stdpp Require Import relations.
From S2P Require Import Prelude Arith Errors Frame Rwa RwaSpec RwaInv RwaParts RwaCorrect.
From S2P Require Import RwaReach RwaMachine RwaRefine RwaEvolve RwaFunds RwaCustody.
Import RwaErrors.

Section theorems.
Context {W : Type} `{!System W, !Currency W, !ReservableCurrency W, !Fungibles W}
  `{!ParticipationFilter W, !AssetLifecycleGuard W} {T : Config}.
Implicit Types (e : CEnv W) (s : State) (a : AssetInfo) (p : Participation).

(** ** The whole of [try_state] *)

Lemma nested_ok {A E} (l : list A) (f : A → option E) :
  (∀ x, x ∈ l → f x = None) →
  match try_for_each l f with Ok _ => None | Err e => Some e end = None.
Proof. intros Hf. by rewrite try_for_each_ok. Qed.

Lemma Inv_rwa_try_state s : Inv s → do_try_state s = Ok tt.
Proof.
  intros [Hr Hp Hl]. unfold do_try_state. repeat apply and_then_ok; apply try_for_each_ok.
  - intros [id a] Ha%elem_of_map_to_list. apply asset_view_Some in Ha.
    pose proof (ri_id _ Hr id ltac:(by rewrite Ha)). by rewrite (proj2 (Z.leb_gt _ _)) by lia.
  - intros [who ids] Hids%elem_of_map_to_list. apply nested_ok. intros id Hid.
    assert (id ∈ owner_assets who s) as Hin by (unfold owner_assets; by rewrite Hids).
    apply (ri_owner _ Hr) in Hin as (st & Hv & Hst). unfold asset_view in Hv.
    destruct (RwaAssets s !! id) as [a|]; [|done]. injection Hv as <- <-.
    rewrite Z.eqb_refl. simpl. by rewrite bool_decide_false.
  - intros [id a] Ha%elem_of_map_to_list.
    assert (a.(participant_count) = live_participations id s) as Hc
      by (apply (pi_count _ Hp); unfold count_view; by rewrite Ha).
    rewrite wrap_small by (by apply live_count_fits). by rewrite Hc, Z.eqb_refl.
  - intros [[id h] pid] Hi%elem_of_map_to_list. apply (pi_index _ Hp) in Hi as (p & -> & -> & Hh).
    unfold contains. by rewrite bool_decide_true.
  - intros [h ids] Hids%elem_of_map_to_list. apply nested_ok. intros id Hid.
    assert (id ∈ holder_assets h s) as Hin by (unfold holder_assets; by rewrite Hids).
    apply (pi_assets _ Hp) in Hin as [pid ->]. by rewrite bool_decide_false.
  - intros [id pids] Hids%elem_of_map_to_list. apply nested_ok. intros pid Hpid.
    assert (pid ∈ pending_approvals id s) as Hin by (unfold pending_approvals; by rewrite Hids).
    apply (pi_pending _ Hp) in Hin as (p & -> & Hst). by rewrite bool_decide_true.
  - intros [id d] Hd%elem_of_map_to_list. destruct (ri_slash _ Hr _ _ Hd) as (Hsh & Hsum & _).
    rewrite permill_shares; [done| |done|lia]. eapply Forall_impl; [exact Hsh|]. simpl. lia.
  - intros [b ids] Hids%elem_of_map_to_list. apply nested_ok. intros id Hid.
    assert (id ∈ sunsetting_assets b s) as Hin by (unfold sunsetting_assets; by rewrite Hids).
    apply (ri_sunset _ Hr) in Hin as (o & Hv). unfold asset_view in Hv.
    destruct (RwaAssets s !! id) as [a|]; [|done]. injection Hv as _ ->. by rewrite Z.eqb_refl.
  - intros [id n] Hn%elem_of_map_to_list. destruct (ri_transfer _ Hr _ _ Hn) as (o & st & Hv & Hne & Hst).
    unfold asset_view in Hv. destruct (RwaAssets s !! id) as [a|]; [|done]. injection Hv as -> ->.
    rewrite (proj2 (Z.eqb_neq _ _)) by done. by rewrite bool_decide_false.
Qed.

(** C5. No sequence of calls, hooks and changes in the rest of the runtime leads
    to a storage that the pallet's own consistency check, [do_try_state],
    rejects: identifiers, owner lists, participant counts, holder indexes,
    approval queues, slash distributions, the sunset schedule and proposed
    transfers stay consistent. *)
Theorem rwa_reachable_try_state e : reachable e → do_try_state (store e) = Ok tt.
Proof. intros Hr. by apply Inv_rwa_try_state, reachable_inv. Qed.

(** ** The machine *)

(** C6. Every call that succeeds is a behaviour of the abstract machine of
    RwaMachine.v, whose transitions carry the guards, the authority and the
    payments of each operation: one transition of an asset, or at most
    [call_bound] transitions of participations. *)
Theorem call_refines_machine e o call e' :
  reachable e → e ⊢ dispatch o call ⇝ e' →
  asset_step (ByCall o call) (view e) (view e') ∨
  bsteps (part_step (ByCall o call)) call_bound (view e) (view e').
Proof. intros Hr%reachable_inv. by apply dispatch_refines. Qed.

Lemma on_initialize_total n e : ∃ e', on_initialize n e = Ok (tt, e').
Proof.
  unfold on_initialize, mbind, M_bind. simpl. apply for_each_total. intros id e1.
  unfold mbind, M_bind. simpl. destruct (RwaAssets (store e1) !! id) as [a|]; [|by eexists].
  destruct (bool_decide _); [by eexists|]. unfold do_unreserve, calls, mbind, M_bind. simpl.
  destruct (unreserve a.(owner) a.(registration_deposit) (world e1)) as [x w']. by eexists.
Qed.

Lemma retire_turn_assets id e e' j :
  retire_turn id e e' →
  (store e').(RwaAssets) !! j =
  (λ a, if decide (j = id) then set_status Retired a else a) <$> (store e).(RwaAssets) !! j.
Proof.
  unfold retire_turn. intros Ht. destruct (decide (j = id)) as [->|Hj].
  - destruct (_ !! id) as [a|] eqn:Ha; [|by subst; rewrite Ha]. simpl.
    case_bool_decide as Hst.
    + subst. rewrite Ha. f_equal. destruct a; simpl in *. by subst.
    + destruct Ht as (x & _ & ->). simpl. by rewrite lookup_insert_eq.
  - transitivity (RwaAssets (store e) !! j); [|by destruct (_ !! j)].
    destruct (_ !! id) as [a|]; [|by subst]. case_bool_decide; [by subst|].
    destruct Ht as (x & _ & ->). simpl. by rewrite lookup_insert_ne.
Qed.

Lemma retire_turns_assets ids e e' j :
  retire_turns ids e e' →
  (store e').(RwaAssets) !! j =
  (λ a, if decide (j ∈ ids) then set_status Retired a else a) <$> (store e).(RwaAssets) !! j.
Proof.
  revert e. induction ids as [|id ids IH]; intros e Ht; simpl in Ht.
  - subst. destruct (RwaAssets (store e) !! j) as [a|]; simpl; [|done]. f_equal.
  - destruct Ht as (e1 & H1 & Ht). rewrite (IH _ Ht), (retire_turn_assets _ _ _ _ H1).
    destruct (RwaAssets (store e) !! j) as [a|]; simpl; [|done]. f_equal.
    destruct (decide (j = id)), (decide (j ∈ ids)), (decide (j ∈ id :: ids)); set_solver.
Qed.

(** C8. The hook at the beginning of block [n] always succeeds, and it retires
    exactly the assets whose sunset is at [n]: after it none is left, and no
    other asset has changed. *)
Theorem hook_retires_due n e :
  reachable e →
  ∃ e', on_initialize n e = Ok (tt, e') ∧
  ∀ id, (store e').(RwaAssets) !! id =
    (λ a, if decide (a.(status) = Sunsetting n) then set_status Retired a else a)
      <$> (store e).(RwaAssets) !! id.
Proof.
  intros HI%reachable_inv. destruct (on_initialize_total n e) as [e' Hrun]. exists e'.
  split; [done|]. intros id. apply on_initialize_run in Hrun.
  rewrite (retire_turns_assets _ _ _ id Hrun). simpl.
  pose proof (ri_sunset _ (inv_registry _ HI) n id) as Hs. unfold asset_view in Hs.
  destruct (RwaAssets (store e) !! id) as [a|]; simpl in *; [|done]. f_equal.
  assert (id ∈ sunsetting_assets n (store e) ↔ a.(status) = Sunsetting n) as Heq.
  { rewrite Hs. split; [by intros (o & [= _ ->])|intros ->; by eexists]. }
  destruct (decide (id ∈ _)), (decide (a.(status) = _)); tauto.
Qed.

(** ** Assets *)

Lemma call_follows e o call e' id a :
  Inv (store e) → e ⊢ dispatch o call ⇝ e' → (store e).(RwaAssets) !! id = Some a →
  ∃ a', (store e').(RwaAssets) !! id = Some a' ∧
    asset_follows (ByCall o call) id (abs (store e)) (world e) (uncounted a) (uncounted a').
Proof.
  intros HI Hrun Ha%abs_asset. destruct (dispatch_refines _ _ _ _ HI Hrun) as [[j Hm]|Hs].
  - destruct (asset_move_follows _ _ _ _ _ _ _ _ Hm Ha) as (a' & Ha' & Hf).
    apply abs_lookup in Ha' as (a2 & Ha2 & <-). eauto.
  - apply part_steps_assets in Hs. change (r_assets (abs (store e')) = r_assets (abs (store e))) in Hs.
    rewrite <- Hs in Ha.
    apply abs_lookup in Ha as (a2 & Ha2 & Heq). exists a2. split; [done|]. rewrite Heq.
    apply asset_follows_refl.
Qed.

Lemma step_follows e e' id a :
  Inv (store e) → step e e' → (store e).(RwaAssets) !! id = Some a →
  ∃ a', (store e').(RwaAssets) !! id = Some a' ∧
    asset_may_become a.(status) a'.(status) = true ∧ terms_of a' = terms_of a ∧
    (a.(status) = Retired → uncounted a' = uncounted a).
Proof.
  intros HI Hstep Ha. destruct Hstep as [o call e' _ Hrun|n e' Hrun|w'].
  - destruct (call_follows _ _ _ _ _ _ HI Hrun Ha) as (a' & Ha' & [Hst Ht _ _ Hr]). eauto.
  - apply on_initialize_run in Hrun. rewrite (retire_turns_assets _ _ _ id Hrun). simpl. rewrite Ha.
    eexists. split; [done|]. pose proof (ri_sunset _ (inv_registry _ HI) n id) as Hs.
    unfold asset_view in Hs. rewrite Ha in Hs.
    destruct (decide (id ∈ _)) as [Hin|_]; [|by rewrite may_become_refl].
    apply Hs in Hin as (o & [= _ Hst]). by rewrite Hst.
  - exists a. by rewrite may_become_refl.
Qed.

(** An asset, once registered, is never removed; in each step its status
    moves along the machine [asset_may_become] only, so sunsetting cannot be
    undone and a retired asset stays retired. *)
Theorem asset_transitions e e' id a :
  reachable e → step e e' → (store e).(RwaAssets) !! id = Some a →
  ∃ a', (store e').(RwaAssets) !! id = Some a' ∧
    asset_may_become a.(status) a'.(status) = true.
Proof.
  intros HI%reachable_inv Hs Ha. destruct (step_follows _ _ _ _ HI Hs Ha) as (a' & ? & ? & _). eauto.
Qed.

Lemma reachable_path e e' : reachable e → rtc step e e' → reachable e'.
Proof. intros Hr Hs. induction Hs; eauto using reachable_step. Qed.

(** Over any number of steps the currency and the amount of an asset's
    deposit, its registration deposit and its creation block never change, and
    of a retired asset nothing changes but the number of its participants. *)
Theorem asset_terms_fixed e e' id a :
  reachable e → rtc step e e' → (store e).(RwaAssets) !! id = Some a →
  ∃ a', (store e').(RwaAssets) !! id = Some a' ∧ terms_of a' = terms_of a ∧
    (a.(status) = Retired → uncounted a' = uncounted a).
Proof.
  intros Hr Hs. revert a. induction Hs as [e|e e1 e' Hstep _ IH]; intros a Ha; [eauto|].
  destruct (step_follows _ _ _ _ (reachable_inv _ Hr) Hstep Ha) as (a1 & Ha1 & _ & Ht & Hret).
  destruct (IH (reachable_step _ _ Hr Hstep) a1 Ha1) as (a' & Ha' & Ht' & Hret').
  exists a'. split_and!; [done|congruence|]. intros Hst. specialize (Hret Hst).
  rewrite <- Hret. apply Hret'. change (a1.(status)) with ((uncounted a1).(status)).
  by rewrite Hret.
Qed.

(** C10. A call changes an asset only with authority: the call is by the owner
    or an administrator, by the account the asset was offered to, by the force
    origin, or by anyone once the asset's sunset block has come.  The owner
    changes only to the account that was offered the asset, by its own call. *)
Theorem asset_authority e o call e' id a a' :
  reachable e → e ⊢ dispatch o call ⇝ e' →
  (store e).(RwaAssets) !! id = Some a → (store e').(RwaAssets) !! id = Some a' →
  (uncounted a' ≠ uncounted a → authorised (ByCall o call) id (abs (store e)) (world e) a) ∧
  (a'.(owner) ≠ a.(owner) →
     o = Signed a'.(owner) ∧ (store e).(PendingOwnershipTransfer) !! id = Some a'.(owner)).
Proof.
  intros HI%reachable_inv Hrun Ha Ha'.
  destruct (call_follows _ _ _ _ _ _ HI Hrun Ha) as (a2 & Ha2 & [_ _ Ho Hau _]).
  rewrite Ha' in Ha2. injection Ha2 as <-. split.
  - intros Hne. destruct Hau as [?|Hau]; [done|exact Hau].
  - intros Hne. destruct Ho as [?|[Heq ?]]; [done|]. by split.
Qed.

(** ** Participations *)

Lemma step_part_follows e e' k p :
  Inv (store e) → step e e' → (store e).(Participations) !! k = Some p →
  p.(pstatus) ≠ PendingApproval →
  ∃ p', (store e').(Participations) !! k = Some p' ∧ part_follows p p'.
Proof.
  intros HI [o call e1 _ Hrun|n e1 Hrun|w'] Hp Hst.
  - destruct (dispatch_refines _ _ _ _ HI Hrun) as [Hm|Hs].
    + pose proof (asset_steps_parts _ _ _ _ (bsteps_once 0 _ _ Hm)) as Heq. simpl in Heq.
      rewrite Heq. eauto using part_follows_refl.
    + exact (part_steps_follow _ _ _ _ _ _ Hs Hp Hst).
  - pose proof (asset_steps_parts _ _ _ _ (hook_refines _ _ _ HI Hrun)) as Heq. simpl in Heq.
    rewrite Heq. eauto using part_follows_refl.
  - eauto using part_follows_refl.
Qed.

(** C9. A participation that was admitted stays in the storage for ever, for
    the same asset; its status follows the machine [part_may_become], and once
    it was left, slashed or revoked nothing about it changes. *)
Theorem participation_lifecycle e e' k p :
  reachable e → rtc step e e' → (store e).(Participations) !! k = Some p →
  p.(pstatus) ≠ PendingApproval →
  ∃ p', (store e').(Participations) !! k = Some p' ∧ part_follows p p'.
Proof.
  intros Hr Hs. revert p. induction Hs as [e|e e1 e' Hstep _ IH]; intros p Hp Hst.
  { eauto using part_follows_refl. }
  destruct (step_part_follows _ _ _ _ (reachable_inv _ Hr) Hstep Hp Hst) as (p1 & Hp1 & Hf).
  destruct (IH (reachable_step _ _ Hr Hstep) p1 Hp1) as (p' & Hp' & Hf'); [|eauto using part_follows_trans].
  intros Heq. apply Hst. pose proof (pf_status _ _ Hf) as Hb. rewrite Heq in Hb.
  by destruct p.(pstatus).
Qed.

Lemma by_holder_in h e id pid :
  (id, pid) ∈ participations_by_holder h e ↔
  id ∈ holder_assets h (store e) ∧ (store e).(HolderIndex) !! (id, h) = Some pid.
Proof.
  unfold participations_by_holder. rewrite list_elem_of_omap. split.
  - intros (x & Hx & Heq). destruct (HolderIndex (store e) !! (x, h)) eqn:E; naive_solver.
  - intros [Hx Heq]. exists id. by rewrite Heq.
Qed.

(** An account is in at most one live participation of an asset, and the
    runtime API [participations_by_holder] lists exactly the live
    participations the account is in. *)
Theorem one_participation_per_holder e h :
  reachable e →
  (∀ id pid, (id, pid) ∈ participations_by_holder h e ↔
     ∃ p, (store e).(Participations) !! (id, pid) = Some p ∧ is_live p.(pstatus) = true ∧
       h ∈ p.(holders)) ∧
  (∀ id pid1 pid2, (id, pid1) ∈ participations_by_holder h e →
     (id, pid2) ∈ participations_by_holder h e → pid1 = pid2).
Proof.
  intros HI%reachable_inv. pose proof (inv_parts _ HI) as Hp. split.
  - intros id pid. rewrite by_holder_in, (pi_assets _ Hp), <- (pi_index _ Hp).
    split; [by intros [_ ?]|]. intros Heq. split; [by eexists|done].
  - intros id pid1 pid2 [_ H1]%by_holder_in [_ H2]%by_holder_in. congruence.
Qed.

(** The error of [request_participation] an answer of [can_participate] stands
    for. *)
Definition refusal (x : CanParticipateError) : RwaError :=
  match x with
  | CPAssetNotFound => AssetNotFound
  | CPAssetNotActive => AssetNotActive
  | CPMaxParticipantsReached => MaxParticipantsReached
  | CPAlreadyParticipating => AlreadyParticipating
  | CPNotEligible => ParticipantNotEligible
  end.

Lemma request_refused e payer id who x :
  can_participate id who e = Err x → 1 ≤ MaxGroupSize →
  active_participant_count id e < U32_MAX →
  Z.of_nat (length (holder_assets who (store e))) < MaxParticipationsPerHolder →
  request_participation (Signed payer) id [who] e = Err (err (refusal x)).
Proof.
  unfold can_participate, active_participant_count, request_participation, get_asset.
  intros Hcan Hg Hc Hh. unfold mbind, M_bind; simpl. unfold mbind, M_bind; simpl.
  destruct (RwaAssets (store e) !! id) as [a|]; simpl; [|by injection Hcan as <-].
  destruct (bool_decide (status a = Active)); simpl in *; [|by injection Hcan as <-].
  rewrite (proj2 (Z.leb_le _ _)) by lia. simpl.
  destruct (max_participants (policy a)) as [mx|]; simpl.
  1: destruct (mx <=? participant_count a) eqn:Hmx; [injection Hcan as <-|].
  1: rewrite saturating_add_exact, (proj2 (Z.leb_gt _ _)) by lia; done.
  1: rewrite saturating_add_exact, (proj2 (Z.leb_le _ _)) by lia.
  all: simpl; unfold ensure_can_hold, mbind, M_bind; simpl.
  all: destruct (HolderIndex (store e) !! (id, who)); simpl in *; [by injection Hcan as <-|].
  all: rewrite (proj2 (Z.ltb_lt _ _)) by lia; simpl; unfold ensure_filter, mbind, M_bind; simpl.
  all: destruct (ensure_eligible id who (world e)); [done|by injection Hcan as <-].
Qed.

(** The answers of the runtime API [can_participate] are those of the
    dispatchable: whoever is let in by [request_participation], alone or in a
    group, was told they can participate, and a refusal of the API is the error
    the call returns for that account, unless a counter or the account's list is
    full. *)
Theorem can_participate_agrees e id :
  reachable e →
  (∀ payer hs e', request_participation (Signed payer) id hs e = Ok (tt, e') →
     Forall (λ h, can_participate id h e = Ok tt) hs) ∧
  (∀ payer who x, can_participate id who e = Err x → 1 ≤ MaxGroupSize →
     active_participant_count id e < U32_MAX →
     Z.of_nat (length (holder_assets who (store e))) < MaxParticipationsPerHolder →
     request_participation (Signed payer) id [who] e = Err (err (refusal x))).
Proof.
  intros HI%reachable_inv. split; [|intros; by apply request_refused].
  intros payer hs e' (who & a & _ & Ha & Hst & _ & _ & _ & Hmax & Hcan & Hel & _ & Hn & _ & _)
    %request_participation_run.
  pose proof (live_bound (store e) id (inv_parts _ HI)) as Hlive.
  assert (a.(participant_count) = live_participations id (store e)) as Hc
    by (apply (pi_count _ (inv_parts _ HI)); unfold count_view; by rewrite Ha).
  rewrite Forall_forall in Hcan, Hel |- *. intros h Hh. unfold can_participate. rewrite Ha.
  rewrite bool_decide_true by done. simpl. destruct (Hcan h Hh) as [-> _].
  specialize (Hel h Hh). unfold eligible in Hel. rewrite Hel. simpl.
  destruct (max_participants (policy a)) as [mx|]; [|done].
  specialize (Hmax mx eq_refl). rewrite (proj2 (Z.leb_gt _ _)); [done|]. ulia.
Qed.
End theorems.

(** ** The money *)

Section money.
Context {W : Type} `{!System W, !Currency W, !ReservableCurrency W, !Fungibles W}
  `{!WorldLaws W, !ReserveLaws W} `{!ParticipationFilter W, !AssetLifecycleGuard W} {T : Config}.
Implicit Types (e : CEnv W) (s : State) (a : AssetInfo) (p : Participation).


(** What an account has reserved always covers the registration deposits of
    the assets it owns that are not retired. *)
Theorem registration_reserved e who :
  0 ≤ AssetRegistrationDeposit → solvent e →
  pledged who (abs (store e)) ≤ reserved_balance who (world e).
Proof. intros Hreg Hs. destruct (solvent_custody _ Hreg Hs) as [[_ _ Hp] _]. specialize (Hp who I). simpl in Hp. lia. Qed.

(** A slashed amount is handed out completely, and the recipients of the
    configured distribution get at most half a unit each more than it. *)
Theorem slash_handed_out_bound e id d amount :
  reachable e → (store e).(AssetSlashDistribution) !! id = Some d → 0 ≤ amount ≤ U128_MAX →
  amount ≤ share_total amount d 0 ∧ 2 * (share_total amount d 0 - amount) ≤ Z.of_nat (length d).
Proof.
  intros HI%reachable_inv Hd Ha.
  destruct (ri_slash _ (inv_registry _ HI) _ _ Hd) as (Hsh & Hsum & _).
  assert (Forall (λ r, 0 ≤ r.(share)) d) as Hnn by (eapply Forall_impl; [exact Hsh|]; simpl; lia).
  assert (d ≠ []) as Hne by (intros ->; simpl in Hsum; unfold PERMILL_ACCURACY in Hsum; lia).
  rewrite share_total_max by done.
  pose proof (rounded_shares_bound amount d ltac:(lia) Hsh) as Hb. rewrite Hsum in Hb.
  unfold PERMILL_ACCURACY in Hb. lia.
Qed.

Lemma settled_not_again id pid p s o e :
  store e = s → s.(Participations) !! (id, pid) = Some p → is_live p.(pstatus) = false →
  ∀ e', exit_participation o id pid e ≠ Ok (tt, e').
Proof.
  intros Hs Hp Hl e' (a & q & _ & Hq & _ & Hcase)%exit_participation_run.
  rewrite Hs, Hp in Hq. injection Hq as <-.
  destruct Hcase as [(Hlap & _)|(_ & Hact & _)].
  - apply lapsed_since in Hlap as (x & y & Hst). by rewrite Hst in Hl.
  - by destruct p.(pstatus).
Qed.

(** C39. Leaving a participation pays its deposit back to its payer, all of it and
    from the account of the pallet, and cannot be done twice. *)
Theorem exit_pays_once e id pid who e' :
  0 ≤ AssetRegistrationDeposit → solvent e → world_wf 1 (world e) → who ≠ pallet_account →
  exit_participation (Signed who) id pid e = Ok (tt, e') →
  ∃ a p, (store e).(RwaAssets) !! id = Some a ∧
    (store e).(Participations) !! (id, pid) = Some p ∧
    bal (cur_of a) who (world e') = bal (cur_of a) who (world e) + p.(deposit_held) ∧
    bal (cur_of a) pallet_account (world e') =
      bal (cur_of a) pallet_account (world e) - p.(deposit_held) ∧
    ∀ o e'', exit_participation o id pid e' ≠ Ok (tt, e'').
Proof.
  intros Hreg Hsol Hw Hne Hrun. destruct (solvent_custody _ Hreg Hsol) as [[Hsane _ _] _].
  apply exit_participation_run in Hrun as (a & p & Ha & Hp & [= ->] & Hcase).
  exists a, p. split; [done|]. split; [done|]. destruct (sn_parts _ Hsane _ _ _ Hp) as (_ & Hnn & _).
  assert (pays (cur_of a) pallet_account p.(payer) p.(deposit_held) (world e) (world e') ∧
    ∃ st, is_live st = false ∧ (store e').(Participations) !! (id, pid) = Some (close st p))
    as (Hpay & st & Hst & Hp').
  { destruct Hcase as [(_ & Hpay & Hs)|(_ & _ & Hpay & Hs)]; (split; [done|]);
      [exists Expired|exists Exited]; (split; [done|]); rewrite Hs.
    - change (Participations (settled id pid p (store e)) !! (id, pid))
        with (r_parts (abs (settled id pid p (store e))) !! (id, pid)).
      rewrite abs_settled. simpl. by rewrite lookup_partial_alter_eq.
    - change (Participations (end_participation Exited id pid p (store e)) !! (id, pid))
        with (r_parts (abs (end_participation Exited id pid p (store e))) !! (id, pid)).
      rewrite abs_ended. simpl. by rewrite lookup_partial_alter_eq. }
  eapply (pays_paid 0) in Hpay as [_ Hb _]; [|done..].
  split_and!; [| |intros o e''; by eapply settled_not_again].
  - rewrite Hb, decide_True, decide_False by done. lia.
  - rewrite Hb, decide_False, decide_True by done. lia.
Qed.

Lemma entry_paid_exact a who w w' :
  world_wf 2 w → policy_fits a.(policy) → who ≠ pallet_account → a.(beneficiary) ≠ pallet_account →
  a.(beneficiary) ≠ who → entry_paid a who w w' →
  bal (cur_of a) who w' = bal (cur_of a) who w - (a.(policy).(deposit) + a.(policy).(entry_fee)) ∧
  bal (cur_of a) pallet_account w' = bal (cur_of a) pallet_account w +
    (a.(policy).(deposit) + if a.(policy).(requires_approval) then a.(policy).(entry_fee) else 0).
Proof.
  intros Hw (Hd & Hf & Hs) Hne Hb Hbw. unfold entry_paid. destruct (requires_approval _).
  - rewrite saturating_add_exact by lia. intros Hp. eapply (pays_paid 1) in Hp as [_ Hx _]; [|done|lia].
    rewrite !Hx. repeat case_decide; try congruence; lia.
  - intros (w1 & H1 & H2). eapply (pays_paid 1) in H1 as [Hq1 Hx1 _]; [|done|lia].
    eapply (pays_paid 0) in H2 as [_ Hx2 _]; [|by apply Hq1|lia].
    rewrite !Hx2, !Hx1. repeat case_decide; try congruence; lia.
Qed.

(** Entering an asset costs its payer exactly the deposit and the entry fee of
    the policy; the account of the pallet receives the deposit, and the fee too
    when the owner has yet to approve; and the participation is recorded under the
    next number, with both amounts. *)
Theorem request_exact e id who hs a e' :
  0 ≤ AssetRegistrationDeposit → solvent e → world_wf 2 (world e) →
  (store e).(RwaAssets) !! id = Some a →
  who ≠ pallet_account → a.(beneficiary) ≠ pallet_account → a.(beneficiary) ≠ who →
  request_participation (Signed who) id hs e = Ok (tt, e') →
  let fee := a.(policy).(entry_fee) in
  let approval := a.(policy).(requires_approval) in
  bal (cur_of a) who (world e') = bal (cur_of a) who (world e) - (a.(policy).(deposit) + fee) ∧
  bal (cur_of a) pallet_account (world e') =
    bal (cur_of a) pallet_account (world e) + (a.(policy).(deposit) + if approval then fee else 0) ∧
  (store e').(Participations) = <[(id, next_participation_id id (store e)) :=
    mkParticipation id who hs (first_status a (block_number (world e'))) a.(policy).(deposit) fee]>
    (store e).(Participations).
Proof.
  intros Hreg Hsol Hw Ha Hne Hb Hbw Hrun. destruct (solvent_custody _ Hreg Hsol) as [[Hsane _ _] _].
  apply request_participation_run in Hrun
    as (? & a' & [= <-] & Ha' & _ & _ & _ & _ & _ & _ & _ & _ & _ & Hpaid & Hs).
  rewrite Ha in Ha'. injection Ha' as <-.
  destruct (sn_assets _ Hsane _ _ (abs_asset _ _ _ Ha)) as (Hpol & _ & _).
  destruct (entry_paid_exact _ _ _ _ Hw Hpol Hne Hb Hbw Hpaid) as [H1 H2].
  split_and!; [done|done|]. rewrite Hs.
  change (Participations (requested ?w ?i ?h ?x ?n ?s)) with (r_parts (abs (requested w i h x n s))).
  unfold requested, entered.
  destruct (requires_approval _); unfold queue; by rewrite ?abs_pending, abs_inc, abs_add_all.
Qed.
End money.
