(* ===== verification/TrustlessAgent.v ===== *)
(** * pallet-trustless-agent

    Agents and their reputation, thxnet/leafchain/pallets/trustless-agent/src/lib.rs:
    the registries of identities, feedback and validations, escrows and disputes.
    Hashes and account ids are integers, byte strings are lists of integers. *)

From S2P Require Import Prelude Arith Errors Frame.
Import TrustlessAgentErrors.

Definition err (e : TrustlessAgentError) : DispatchError := Module_ (InTrustlessAgent e).

(** ** Data *)

Record AgentInfo := mkAgentInfo {
  owner : AccountId;
  registration_uri : list Z;
  agent_created_at : BlockNumber;
}.

Record FeedbackInfo := mkFeedbackInfo {
  agent_id : Z;
  client : AccountId;
  score : Z;
  tags : list (list Z);
  file_uri : list Z;
  content_hash : Z;
  created_at : BlockNumber;
  revoked : bool;
}.

Record FeedbackAuthorization := mkFeedbackAuthorization {
  auth_agent_id : Z;
  auth_client : AccountId;
  index_limit : Z;
  expiry : BlockNumber;
  auth_created_at : BlockNumber;
  auth_revoked : bool;
}.

Record FeedbackResponse := mkFeedbackResponse {
  response_uri : list Z;
  response_hash : Z;
  response_created_at : BlockNumber;
}.

Record ValidatorInfo := mkValidatorInfo {
  account : AccountId;
  stake : Balance;
  registered_at : BlockNumber;
  active : bool;
}.

Record ValidationRequest := mkValidationRequest {
  request_agent_id : Z;
  requester : AccountId;
  reward : Balance;
  request_created_at : BlockNumber;
  deadline : BlockNumber;
  completed : bool;
}.

Record ValidationResponse := mkValidationResponse {
  request_id : Z;
  validator : AccountId;
  response_score : Z;
  evidence_uri : list Z;
  evidence_hash : Z;
  response_tags : list (list Z);
  validated_at : BlockNumber;
}.

Inductive EscrowStatus := EscrowActive | AutoCompleted | Disputed | Resolved.

#[global] Instance EscrowStatus_eq_dec : EqDecision EscrowStatus.
Proof. solve_decision. Defined.

Record EscrowInfo := mkEscrowInfo {
  escrow_client : AccountId;
  escrow_agent_id : Z;
  amount : Balance;
  auto_complete_at : BlockNumber;
  timeout : BlockNumber;
  status : EscrowStatus;
  escrow_created_at : BlockNumber;
}.

Record ReputationScore := mkReputationScore {
  feedback_score : Z;
  feedback_count : Z;
  validation_score : Z;
  validation_count : Z;
  overall_score : Z;
  last_updated : Z;
}.

Inductive DisputeStatus := Open | ResolvedForDisputer | ResolvedAgainstDisputer | Dismissed.

#[global] Instance DisputeStatus_eq_dec : EqDecision DisputeStatus.
Proof. solve_decision. Defined.

Record DisputeInfo := mkDisputeInfo {
  feedback_id : Z;
  disputer : AccountId;
  reason_uri : list Z;
  reason_hash : Z;
  dispute_status : DisputeStatus;
  dispute_created_at : BlockNumber;
  resolved_at : option BlockNumber;
}.

Definition set_owner x a := mkAgentInfo x a.(registration_uri) a.(agent_created_at).
Definition set_revoked x f :=
  mkFeedbackInfo f.(agent_id) f.(client) f.(score) f.(tags) f.(file_uri) f.(content_hash)
    f.(created_at) x.
Definition set_auth_revoked x a :=
  mkFeedbackAuthorization a.(auth_agent_id) a.(auth_client) a.(index_limit) a.(expiry)
    a.(auth_created_at) x.
Definition set_completed x r :=
  mkValidationRequest r.(request_agent_id) r.(requester) r.(reward) r.(request_created_at)
    r.(deadline) x.
Definition set_status x e :=
  mkEscrowInfo e.(escrow_client) e.(escrow_agent_id) e.(amount) e.(auto_complete_at) e.(timeout) x
    e.(escrow_created_at).
Definition set_dispute_status x at_ d :=
  mkDisputeInfo d.(feedback_id) d.(disputer) d.(reason_uri) d.(reason_hash) x
    d.(dispute_created_at) at_.

(** ** Storage *)

Record State := mkState {
  Escrows : gmap Z EscrowInfo;
  NextEscrowId : Z;
  Agents : gmap Z AgentInfo;
  AgentMetadata : gmap (Z * list Z) (list Z);
  AgentsByOwner : gmap AccountId (list Z);
  NextAgentId : Z;
  Feedbacks : gmap Z FeedbackInfo;
  AgentFeedbacks : gmap Z (list Z);
  ClientFeedbacks : gmap AccountId (list Z);
  FeedbackResponses : gmap Z (list FeedbackResponse);
  NextFeedbackId : Z;
  FeedbackAuthorizations : gmap Z FeedbackAuthorization;
  AgentClientAuthorizations : gmap (Z * AccountId) Z;
  FeedbackIndices : gmap (Z * AccountId) Z;
  LastFeedbackTimestamp : gmap (Z * AccountId) BlockNumber;
  NextAuthorizationId : Z;
  Validators : gmap AccountId ValidatorInfo;
  ValidationRequests : gmap Z ValidationRequest;
  ValidationResponses : gmap (Z * AccountId) ValidationResponse;
  AgentValidations : gmap Z (list Z);
  NextRequestId : Z;
  AgentReputations : gmap Z ReputationScore;
  Disputes : gmap Z DisputeInfo;
  FeedbackDisputes : gmap Z (list Z);
  NextDisputeId : Z;
  ValidatorWhitelist : gmap AccountId bool;
}.

Definition put_Escrows x s :=
  mkState x s.(NextEscrowId) s.(Agents) s.(AgentMetadata) s.(AgentsByOwner) s.(NextAgentId)
    s.(Feedbacks) s.(AgentFeedbacks) s.(ClientFeedbacks) s.(FeedbackResponses)
    s.(NextFeedbackId) s.(FeedbackAuthorizations) s.(AgentClientAuthorizations)
    s.(FeedbackIndices) s.(LastFeedbackTimestamp) s.(NextAuthorizationId) s.(Validators)
    s.(ValidationRequests) s.(ValidationResponses) s.(AgentValidations) s.(NextRequestId)
    s.(AgentReputations) s.(Disputes) s.(FeedbackDisputes) s.(NextDisputeId)
    s.(ValidatorWhitelist).
Definition put_NextEscrowId x s :=
  mkState s.(Escrows) x s.(Agents) s.(AgentMetadata) s.(AgentsByOwner) s.(NextAgentId) s.(Feedbacks)
    s.(AgentFeedbacks) s.(ClientFeedbacks) s.(FeedbackResponses) s.(NextFeedbackId)
    s.(FeedbackAuthorizations) s.(AgentClientAuthorizations) s.(FeedbackIndices)
    s.(LastFeedbackTimestamp) s.(NextAuthorizationId) s.(Validators) s.(ValidationRequests)
    s.(ValidationResponses) s.(AgentValidations) s.(NextRequestId) s.(AgentReputations)
    s.(Disputes) s.(FeedbackDisputes) s.(NextDisputeId) s.(ValidatorWhitelist).
Definition put_Agents x s :=
  mkState s.(Escrows) s.(NextEscrowId) x s.(AgentMetadata) s.(AgentsByOwner) s.(NextAgentId)
    s.(Feedbacks) s.(AgentFeedbacks) s.(ClientFeedbacks) s.(FeedbackResponses)
    s.(NextFeedbackId) s.(FeedbackAuthorizations) s.(AgentClientAuthorizations)
    s.(FeedbackIndices) s.(LastFeedbackTimestamp) s.(NextAuthorizationId) s.(Validators)
    s.(ValidationRequests) s.(ValidationResponses) s.(AgentValidations) s.(NextRequestId)
    s.(AgentReputations) s.(Disputes) s.(FeedbackDisputes) s.(NextDisputeId)
    s.(ValidatorWhitelist).
Definition put_AgentMetadata x s :=
  mkState s.(Escrows) s.(NextEscrowId) s.(Agents) x s.(AgentsByOwner) s.(NextAgentId) s.(Feedbacks)
    s.(AgentFeedbacks) s.(ClientFeedbacks) s.(FeedbackResponses) s.(NextFeedbackId)
    s.(FeedbackAuthorizations) s.(AgentClientAuthorizations) s.(FeedbackIndices)
    s.(LastFeedbackTimestamp) s.(NextAuthorizationId) s.(Validators) s.(ValidationRequests)
    s.(ValidationResponses) s.(AgentValidations) s.(NextRequestId) s.(AgentReputations)
    s.(Disputes) s.(FeedbackDisputes) s.(NextDisputeId) s.(ValidatorWhitelist).
Definition put_AgentsByOwner x s :=
  mkState s.(Escrows) s.(NextEscrowId) s.(Agents) s.(AgentMetadata) x s.(NextAgentId) s.(Feedbacks)
    s.(AgentFeedbacks) s.(ClientFeedbacks) s.(FeedbackResponses) s.(NextFeedbackId)
    s.(FeedbackAuthorizations) s.(AgentClientAuthorizations) s.(FeedbackIndices)
    s.(LastFeedbackTimestamp) s.(NextAuthorizationId) s.(Validators) s.(ValidationRequests)
    s.(ValidationResponses) s.(AgentValidations) s.(NextRequestId) s.(AgentReputations)
    s.(Disputes) s.(FeedbackDisputes) s.(NextDisputeId) s.(ValidatorWhitelist).
Definition put_NextAgentId x s :=
  mkState s.(Escrows) s.(NextEscrowId) s.(Agents) s.(AgentMetadata) s.(AgentsByOwner) x s.(Feedbacks)
    s.(AgentFeedbacks) s.(ClientFeedbacks) s.(FeedbackResponses) s.(NextFeedbackId)
    s.(FeedbackAuthorizations) s.(AgentClientAuthorizations) s.(FeedbackIndices)
    s.(LastFeedbackTimestamp) s.(NextAuthorizationId) s.(Validators) s.(ValidationRequests)
    s.(ValidationResponses) s.(AgentValidations) s.(NextRequestId) s.(AgentReputations)
    s.(Disputes) s.(FeedbackDisputes) s.(NextDisputeId) s.(ValidatorWhitelist).
Definition put_Feedbacks x s :=
  mkState s.(Escrows) s.(NextEscrowId) s.(Agents) s.(AgentMetadata) s.(AgentsByOwner) s.(NextAgentId)
    x s.(AgentFeedbacks) s.(ClientFeedbacks) s.(FeedbackResponses) s.(NextFeedbackId)
    s.(FeedbackAuthorizations) s.(AgentClientAuthorizations) s.(FeedbackIndices)
    s.(LastFeedbackTimestamp) s.(NextAuthorizationId) s.(Validators) s.(ValidationRequests)
    s.(ValidationResponses) s.(AgentValidations) s.(NextRequestId) s.(AgentReputations)
    s.(Disputes) s.(FeedbackDisputes) s.(NextDisputeId) s.(ValidatorWhitelist).
Definition put_AgentFeedbacks x s :=
  mkState s.(Escrows) s.(NextEscrowId) s.(Agents) s.(AgentMetadata) s.(AgentsByOwner) s.(NextAgentId)
    s.(Feedbacks) x s.(ClientFeedbacks) s.(FeedbackResponses) s.(NextFeedbackId)
    s.(FeedbackAuthorizations) s.(AgentClientAuthorizations) s.(FeedbackIndices)
    s.(LastFeedbackTimestamp) s.(NextAuthorizationId) s.(Validators) s.(ValidationRequests)
    s.(ValidationResponses) s.(AgentValidations) s.(NextRequestId) s.(AgentReputations)
    s.(Disputes) s.(FeedbackDisputes) s.(NextDisputeId) s.(ValidatorWhitelist).
Definition put_ClientFeedbacks x s :=
  mkState s.(Escrows) s.(NextEscrowId) s.(Agents) s.(AgentMetadata) s.(AgentsByOwner) s.(NextAgentId)
    s.(Feedbacks) s.(AgentFeedbacks) x s.(FeedbackResponses) s.(NextFeedbackId)
    s.(FeedbackAuthorizations) s.(AgentClientAuthorizations) s.(FeedbackIndices)
    s.(LastFeedbackTimestamp) s.(NextAuthorizationId) s.(Validators) s.(ValidationRequests)
    s.(ValidationResponses) s.(AgentValidations) s.(NextRequestId) s.(AgentReputations)
    s.(Disputes) s.(FeedbackDisputes) s.(NextDisputeId) s.(ValidatorWhitelist).
Definition put_FeedbackResponses x s :=
  mkState s.(Escrows) s.(NextEscrowId) s.(Agents) s.(AgentMetadata) s.(AgentsByOwner) s.(NextAgentId)
    s.(Feedbacks) s.(AgentFeedbacks) s.(ClientFeedbacks) x s.(NextFeedbackId)
    s.(FeedbackAuthorizations) s.(AgentClientAuthorizations) s.(FeedbackIndices)
    s.(LastFeedbackTimestamp) s.(NextAuthorizationId) s.(Validators) s.(ValidationRequests)
    s.(ValidationResponses) s.(AgentValidations) s.(NextRequestId) s.(AgentReputations)
    s.(Disputes) s.(FeedbackDisputes) s.(NextDisputeId) s.(ValidatorWhitelist).
Definition put_NextFeedbackId x s :=
  mkState s.(Escrows) s.(NextEscrowId) s.(Agents) s.(AgentMetadata) s.(AgentsByOwner) s.(NextAgentId)
    s.(Feedbacks) s.(AgentFeedbacks) s.(ClientFeedbacks) s.(FeedbackResponses) x
    s.(FeedbackAuthorizations) s.(AgentClientAuthorizations) s.(FeedbackIndices)
    s.(LastFeedbackTimestamp) s.(NextAuthorizationId) s.(Validators) s.(ValidationRequests)
    s.(ValidationResponses) s.(AgentValidations) s.(NextRequestId) s.(AgentReputations)
    s.(Disputes) s.(FeedbackDisputes) s.(NextDisputeId) s.(ValidatorWhitelist).
Definition put_FeedbackAuthorizations x s :=
  mkState s.(Escrows) s.(NextEscrowId) s.(Agents) s.(AgentMetadata) s.(AgentsByOwner) s.(NextAgentId)
    s.(Feedbacks) s.(AgentFeedbacks) s.(ClientFeedbacks) s.(FeedbackResponses)
    s.(NextFeedbackId) x s.(AgentClientAuthorizations) s.(FeedbackIndices)
    s.(LastFeedbackTimestamp) s.(NextAuthorizationId) s.(Validators) s.(ValidationRequests)
    s.(ValidationResponses) s.(AgentValidations) s.(NextRequestId) s.(AgentReputations)
    s.(Disputes) s.(FeedbackDisputes) s.(NextDisputeId) s.(ValidatorWhitelist).
Definition put_AgentClientAuthorizations x s :=
  mkState s.(Escrows) s.(NextEscrowId) s.(Agents) s.(AgentMetadata) s.(AgentsByOwner) s.(NextAgentId)
    s.(Feedbacks) s.(AgentFeedbacks) s.(ClientFeedbacks) s.(FeedbackResponses)
    s.(NextFeedbackId) s.(FeedbackAuthorizations) x s.(FeedbackIndices)
    s.(LastFeedbackTimestamp) s.(NextAuthorizationId) s.(Validators) s.(ValidationRequests)
    s.(ValidationResponses) s.(AgentValidations) s.(NextRequestId) s.(AgentReputations)
    s.(Disputes) s.(FeedbackDisputes) s.(NextDisputeId) s.(ValidatorWhitelist).
Definition put_FeedbackIndices x s :=
  mkState s.(Escrows) s.(NextEscrowId) s.(Agents) s.(AgentMetadata) s.(AgentsByOwner) s.(NextAgentId)
    s.(Feedbacks) s.(AgentFeedbacks) s.(ClientFeedbacks) s.(FeedbackResponses)
    s.(NextFeedbackId) s.(FeedbackAuthorizations) s.(AgentClientAuthorizations) x
    s.(LastFeedbackTimestamp) s.(NextAuthorizationId) s.(Validators) s.(ValidationRequests)
    s.(ValidationResponses) s.(AgentValidations) s.(NextRequestId) s.(AgentReputations)
    s.(Disputes) s.(FeedbackDisputes) s.(NextDisputeId) s.(ValidatorWhitelist).
Definition put_LastFeedbackTimestamp x s :=
  mkState s.(Escrows) s.(NextEscrowId) s.(Agents) s.(AgentMetadata) s.(AgentsByOwner) s.(NextAgentId)
    s.(Feedbacks) s.(AgentFeedbacks) s.(ClientFeedbacks) s.(FeedbackResponses)
    s.(NextFeedbackId) s.(FeedbackAuthorizations) s.(AgentClientAuthorizations)
    s.(FeedbackIndices) x s.(NextAuthorizationId) s.(Validators) s.(ValidationRequests)
    s.(ValidationResponses) s.(AgentValidations) s.(NextRequestId) s.(AgentReputations)
    s.(Disputes) s.(FeedbackDisputes) s.(NextDisputeId) s.(ValidatorWhitelist).
Definition put_NextAuthorizationId x s :=
  mkState s.(Escrows) s.(NextEscrowId) s.(Agents) s.(AgentMetadata) s.(AgentsByOwner) s.(NextAgentId)
    s.(Feedbacks) s.(AgentFeedbacks) s.(ClientFeedbacks) s.(FeedbackResponses)
    s.(NextFeedbackId) s.(FeedbackAuthorizations) s.(AgentClientAuthorizations)
    s.(FeedbackIndices) s.(LastFeedbackTimestamp) x s.(Validators) s.(ValidationRequests)
    s.(ValidationResponses) s.(AgentValidations) s.(NextRequestId) s.(AgentReputations)
    s.(Disputes) s.(FeedbackDisputes) s.(NextDisputeId) s.(ValidatorWhitelist).
Definition put_Validators x s :=
  mkState s.(Escrows) s.(NextEscrowId) s.(Agents) s.(AgentMetadata) s.(AgentsByOwner) s.(NextAgentId)
    s.(Feedbacks) s.(AgentFeedbacks) s.(ClientFeedbacks) s.(FeedbackResponses)
    s.(NextFeedbackId) s.(FeedbackAuthorizations) s.(AgentClientAuthorizations)
    s.(FeedbackIndices) s.(LastFeedbackTimestamp) s.(NextAuthorizationId) x
    s.(ValidationRequests) s.(ValidationResponses) s.(AgentValidations) s.(NextRequestId)
    s.(AgentReputations) s.(Disputes) s.(FeedbackDisputes) s.(NextDisputeId)
    s.(ValidatorWhitelist).
Definition put_ValidationRequests x s :=
  mkState s.(Escrows) s.(NextEscrowId) s.(Agents) s.(AgentMetadata) s.(AgentsByOwner) s.(NextAgentId)
    s.(Feedbacks) s.(AgentFeedbacks) s.(ClientFeedbacks) s.(FeedbackResponses)
    s.(NextFeedbackId) s.(FeedbackAuthorizations) s.(AgentClientAuthorizations)
    s.(FeedbackIndices) s.(LastFeedbackTimestamp) s.(NextAuthorizationId) s.(Validators) x
    s.(ValidationResponses) s.(AgentValidations) s.(NextRequestId) s.(AgentReputations)
    s.(Disputes) s.(FeedbackDisputes) s.(NextDisputeId) s.(ValidatorWhitelist).
Definition put_ValidationResponses x s :=
  mkState s.(Escrows) s.(NextEscrowId) s.(Agents) s.(AgentMetadata) s.(AgentsByOwner) s.(NextAgentId)
    s.(Feedbacks) s.(AgentFeedbacks) s.(ClientFeedbacks) s.(FeedbackResponses)
    s.(NextFeedbackId) s.(FeedbackAuthorizations) s.(AgentClientAuthorizations)
    s.(FeedbackIndices) s.(LastFeedbackTimestamp) s.(NextAuthorizationId) s.(Validators)
    s.(ValidationRequests) x s.(AgentValidations) s.(NextRequestId) s.(AgentReputations)
    s.(Disputes) s.(FeedbackDisputes) s.(NextDisputeId) s.(ValidatorWhitelist).
Definition put_AgentValidations x s :=
  mkState s.(Escrows) s.(NextEscrowId) s.(Agents) s.(AgentMetadata) s.(AgentsByOwner) s.(NextAgentId)
    s.(Feedbacks) s.(AgentFeedbacks) s.(ClientFeedbacks) s.(FeedbackResponses)
    s.(NextFeedbackId) s.(FeedbackAuthorizations) s.(AgentClientAuthorizations)
    s.(FeedbackIndices) s.(LastFeedbackTimestamp) s.(NextAuthorizationId) s.(Validators)
    s.(ValidationRequests) s.(ValidationResponses) x s.(NextRequestId) s.(AgentReputations)
    s.(Disputes) s.(FeedbackDisputes) s.(NextDisputeId) s.(ValidatorWhitelist).
Definition put_NextRequestId x s :=
  mkState s.(Escrows) s.(NextEscrowId) s.(Agents) s.(AgentMetadata) s.(AgentsByOwner) s.(NextAgentId)
    s.(Feedbacks) s.(AgentFeedbacks) s.(ClientFeedbacks) s.(FeedbackResponses)
    s.(NextFeedbackId) s.(FeedbackAuthorizations) s.(AgentClientAuthorizations)
    s.(FeedbackIndices) s.(LastFeedbackTimestamp) s.(NextAuthorizationId) s.(Validators)
    s.(ValidationRequests) s.(ValidationResponses) s.(AgentValidations) x s.(AgentReputations)
    s.(Disputes) s.(FeedbackDisputes) s.(NextDisputeId) s.(ValidatorWhitelist).
Definition put_AgentReputations x s :=
  mkState s.(Escrows) s.(NextEscrowId) s.(Agents) s.(AgentMetadata) s.(AgentsByOwner) s.(NextAgentId)
    s.(Feedbacks) s.(AgentFeedbacks) s.(ClientFeedbacks) s.(FeedbackResponses)
    s.(NextFeedbackId) s.(FeedbackAuthorizations) s.(AgentClientAuthorizations)
    s.(FeedbackIndices) s.(LastFeedbackTimestamp) s.(NextAuthorizationId) s.(Validators)
    s.(ValidationRequests) s.(ValidationResponses) s.(AgentValidations) s.(NextRequestId) x
    s.(Disputes) s.(FeedbackDisputes) s.(NextDisputeId) s.(ValidatorWhitelist).
Definition put_Disputes x s :=
  mkState s.(Escrows) s.(NextEscrowId) s.(Agents) s.(AgentMetadata) s.(AgentsByOwner) s.(NextAgentId)
    s.(Feedbacks) s.(AgentFeedbacks) s.(ClientFeedbacks) s.(FeedbackResponses)
    s.(NextFeedbackId) s.(FeedbackAuthorizations) s.(AgentClientAuthorizations)
    s.(FeedbackIndices) s.(LastFeedbackTimestamp) s.(NextAuthorizationId) s.(Validators)
    s.(ValidationRequests) s.(ValidationResponses) s.(AgentValidations) s.(NextRequestId)
    s.(AgentReputations) x s.(FeedbackDisputes) s.(NextDisputeId) s.(ValidatorWhitelist).
Definition put_FeedbackDisputes x s :=
  mkState s.(Escrows) s.(NextEscrowId) s.(Agents) s.(AgentMetadata) s.(AgentsByOwner) s.(NextAgentId)
    s.(Feedbacks) s.(AgentFeedbacks) s.(ClientFeedbacks) s.(FeedbackResponses)
    s.(NextFeedbackId) s.(FeedbackAuthorizations) s.(AgentClientAuthorizations)
    s.(FeedbackIndices) s.(LastFeedbackTimestamp) s.(NextAuthorizationId) s.(Validators)
    s.(ValidationRequests) s.(ValidationResponses) s.(AgentValidations) s.(NextRequestId)
    s.(AgentReputations) s.(Disputes) x s.(NextDisputeId) s.(ValidatorWhitelist).
Definition put_NextDisputeId x s :=
  mkState s.(Escrows) s.(NextEscrowId) s.(Agents) s.(AgentMetadata) s.(AgentsByOwner) s.(NextAgentId)
    s.(Feedbacks) s.(AgentFeedbacks) s.(ClientFeedbacks) s.(FeedbackResponses)
    s.(NextFeedbackId) s.(FeedbackAuthorizations) s.(AgentClientAuthorizations)
    s.(FeedbackIndices) s.(LastFeedbackTimestamp) s.(NextAuthorizationId) s.(Validators)
    s.(ValidationRequests) s.(ValidationResponses) s.(AgentValidations) s.(NextRequestId)
    s.(AgentReputations) s.(Disputes) s.(FeedbackDisputes) x s.(ValidatorWhitelist).
Definition put_ValidatorWhitelist x s :=
  mkState s.(Escrows) s.(NextEscrowId) s.(Agents) s.(AgentMetadata) s.(AgentsByOwner) s.(NextAgentId)
    s.(Feedbacks) s.(AgentFeedbacks) s.(ClientFeedbacks) s.(FeedbackResponses)
    s.(NextFeedbackId) s.(FeedbackAuthorizations) s.(AgentClientAuthorizations)
    s.(FeedbackIndices) s.(LastFeedbackTimestamp) s.(NextAuthorizationId) s.(Validators)
    s.(ValidationRequests) s.(ValidationResponses) s.(AgentValidations) s.(NextRequestId)
    s.(AgentReputations) s.(Disputes) s.(FeedbackDisputes) s.(NextDisputeId) x.

Inductive Event :=
| AgentRegistered (agent_id : Z) (owner : AccountId) (registration_uri : list Z)
| AgentMetadataUpdated (agent_id : Z) (key : list Z)
| AgentTransferred (agent_id : Z) (old_owner new_owner : AccountId)
| FeedbackAuthorizationGranted (authorization_id agent_id : Z) (client : AccountId)
    (index_limit : Z) (expiry : BlockNumber)
| FeedbackAuthorizationRevoked (authorization_id : Z)
| FeedbackGiven (feedback_id agent_id : Z) (client : AccountId) (score : Z)
| FeedbackRevoked (feedback_id : Z)
| ResponseAppended (feedback_id : Z) (responder : AccountId)
| ValidatorRegistered (validator : AccountId) (stake : Balance)
| ValidatorUnregistered (validator : AccountId)
| ValidationRequested (request_id agent_id : Z) (requester : AccountId)
| ValidationSubmitted (request_id : Z) (validator : AccountId) (score : Z)
| EscrowCreated (escrow_id : Z) (client : AccountId) (agent_id : Z) (amount : Balance)
    (timeout : BlockNumber)
| EscrowAutoCompleted (escrow_id : Z)
| EscrowDisputedEvent (escrow_id : Z) (disputer : AccountId)
| EscrowDisputeResolved (escrow_id : Z) (status : EscrowStatus)
| EscrowClaimed (escrow_id agent_id : Z)
| EscrowCancelled (escrow_id : Z) (client : AccountId)
| ReputationUpdated (agent_id overall_score : Z)
| DisputeCreated (dispute_id feedback_id : Z) (disputer : AccountId)
| DisputeResolved (dispute_id : Z) (status : DisputeStatus)
| ValidationRequestCancelled (request_id : Z) (requester : AccountId)
| ValidatorWhitelisted (validator : AccountId)
| ValidatorRemovedFromWhitelist (validator : AccountId).

Class Config := {
  AgentDeposit : Balance;
  FeedbackDeposit : Balance;
  ValidatorMinStake : Balance;
  MaxUriLength : Z;
  MaxTagLength : Z;
  MaxTags : Z;
  MaxMetadataKeyLength : Z;
  MaxMetadataValueLength : Z;
  MaxMetadataEntries : Z;
  MaxResponsesPerFeedback : Z;
  ValidationRequestDeposit : Balance;
  DisputeDeposit : Balance;
  ValidationDeadline : BlockNumber;
  EscrowAutoCompleteBlocks : BlockNumber;
  FeedbackRateLimitBlocks : BlockNumber;
  DisputeResolverOrigin : Origin → bool;
  ValidatorManagerOrigin : Origin → bool;
}.

Abbreviation CEnv W := (Env State W Event).

(** [BoundedVec<_, ConstU32<n>>] of the storage items. *)
Definition MaxAgentsPerOwner : Z := 1000.
Definition MaxFeedbacksPerAgent : Z := 10000.
Definition MaxFeedbacksPerClient : Z := 1000.
Definition MaxValidationsPerAgent : Z := 100.
Definition MaxDisputesPerFeedback : Z := 10.

(** [v.swap_remove(pos)] at the first position of [x]. *)
Definition swap_remove_first (x : Z) (l : list Z) : list Z :=
  match list_find (λ y, y = x) l, last l with
  | Some (pos, _), Some z => take (length l - 1) (<[pos := z]> l)
  | _, _ => l
  end.

(** ** Reputation *)

(** The loop over the feedbacks of an agent: the weighted score, the total of
    the weights and the number of feedbacks that count. *)
Record Weighed := mkWeighed {
  weighted_score : Z;
  total_weight : Z;
  valid_count : Z;
}.

Definition days_in_blocks : Z := 7200.

(** The weight of a feedback of the given age. *)
Definition decay_weight (age : Z) : Z :=
  if age <=? 30 * days_in_blocks then 100
  else if age <=? 90 * days_in_blocks then 70
  else if age <=? 180 * days_in_blocks then 40
  else 20.

Definition weigh (now : BlockNumber) (feedbacks : gmap Z FeedbackInfo) (acc : Weighed) (id : Z)
    : Weighed :=
  match feedbacks !! id with
  | Some f =>
      if negb f.(revoked) then
        let weight := decay_weight (saturating_sub now f.(created_at)) in
        mkWeighed
          (saturating_add U64_MAX acc.(weighted_score) (saturating_mul U64_MAX f.(score) weight))
          (saturating_add U64_MAX acc.(total_weight) weight)
          (saturating_add U32_MAX acc.(valid_count) 1)
      else acc
  | None => acc
  end.

Definition feedback_average (now : BlockNumber) (s : State) (id : Z) : Z * Z :=
  match s.(AgentFeedbacks) !! id with
  | Some ids =>
      let w := foldl (weigh now s.(Feedbacks)) (mkWeighed 0 0 0) ids in
      (if 0 <? w.(total_weight)
       then Z.min (saturating_mul U64_MAX w.(weighted_score) 100 / w.(total_weight)) 10000
       else 0, w.(valid_count))
  | None => (0, 0)
  end.

(** The responses to a request, in the order of the storage. *)
Definition responses_to (s : State) (id : Z) : list ValidationResponse :=
  (λ kv, kv.2) <$> filter (λ kv, kv.1.1 = id) (map_to_list s.(ValidationResponses)).

Definition add_response (acc : Z * Z) (r : ValidationResponse) : Z * Z :=
  (saturating_add U64_MAX acc.1 r.(response_score), saturating_add U32_MAX acc.2 1).

Definition validation_average (s : State) (id : Z) : Z * Z :=
  match s.(AgentValidations) !! id with
  | Some ids =>
      let acc := foldl (λ acc id, foldl add_response acc (responses_to s id)) (0, 0) ids in
      (if 0 <? acc.2 then Z.min (saturating_mul U64_MAX acc.1 100 / acc.2) 10000 else 0, acc.2)
  | None => (0, 0)
  end.

Definition calculate_reputation (now : BlockNumber) (s : State) (id : Z) : ReputationScore :=
  let f := feedback_average now s id in
  let v := validation_average s id in
  let overall :=
    if (0 <? f.2) || (0 <? v.2) then
      saturating_add U32_MAX (saturating_mul U32_MAX f.1 60 / 100)
        (saturating_mul U32_MAX v.1 40 / 100)
    else 0 in
  mkReputationScore f.1 f.2 v.1 v.2 overall now.

Section pallet.
Context {W : Type} `{!System W, !Currency W, !ReservableCurrency W} {T : Config}.
Abbreviation C := (M DispatchError (CEnv W)).

Definition update_reputation (id : Z) : C unit :=
  now ← asks block_number;
  reputation ← reads (λ s, calculate_reputation now s id);
  writes (λ s, put_AgentReputations (<[id := reputation]> s.(AgentReputations)) s) ;;
  deposit_event (ReputationUpdated id reputation.(overall_score)).

(** ** Helpers *)

(** [x.try_into().map_err(|_| e)?] into a [BoundedVec]. *)
Definition bounded {A} (bound : Z) (l : list A) (e : TrustlessAgentError) : C (list A) :=
  ensure (Z.of_nat (length l) <=? bound) (err e) ;; mret l.

Definition get_agent (id : Z) : C AgentInfo :=
  o ← reads (λ s, s.(Agents) !! id);
  ok_or o (err AgentNotFound).

Definition ensure_agent (id : Z) : C unit :=
  o ← reads (λ s, s.(Agents) !! id);
  ensure (bool_decide (is_Some o)) (err AgentNotFound).

Definition get_feedback (id : Z) : C FeedbackInfo :=
  o ← reads (λ s, s.(Feedbacks) !! id);
  ok_or o (err FeedbackNotFound).

Definition get_escrow (id : Z) : C EscrowInfo :=
  o ← reads (λ s, s.(Escrows) !! id);
  ok_or o (err EscrowNotFound).

Definition get_request (id : Z) : C ValidationRequest :=
  o ← reads (λ s, s.(ValidationRequests) !! id);
  ok_or o (err ValidationRequestNotFound).

(** [id.checked_add(1).ok_or(Overflow)?] for the next number of a registry. *)
Definition take_id (next : State → Z) : C (Z * Z) :=
  id ← reads next;
  next_id ← ok_or (checked_add U64_MAX id 1) (err Overflow);
  mret (id, next_id).

(** [map.try_mutate(key, |list| push id)] *)
Definition push_id {K} `{Countable K} (bound : Z) (get : State → gmap K (list Z))
    (put : gmap K (list Z) → State → State) (k : K) (id : Z) (e : TrustlessAgentError) : C unit :=
  m ← reads get;
  l ← ok_or (try_push bound (default [] (m !! k)) id) (err e);
  writes (λ s, put (<[k := l]> (get s)) s).

(** The loop that bounds the tags. *)
Fixpoint push_tags (bounded_tags : list (list Z)) (tags : list (list Z)) : C (list (list Z)) :=
  match tags with
  | [] => mret bounded_tags
  | tag :: tags =>
      tag ← bounded MaxTagLength tag TagTooLong;
      bounded_tags ← ok_or (try_push MaxTags bounded_tags tag) (err TooManyTags);
      push_tags bounded_tags tags
  end.

Definition validate_feedback_data (score : Z) (tags : list (list Z)) (file_uri : list Z)
    : C (list (list Z) * list Z) :=
  ensure (score <=? 100) (err InvalidScore) ;;
  ensure (Z.of_nat (length tags) <=? MaxTags) (err TooManyTags) ;;
  bounded_tags ← push_tags [] tags;
  bounded_uri ← bounded MaxUriLength file_uri UriTooLong;
  mret (bounded_tags, bounded_uri).

Definition verify_feedback_authorization (agent_id : Z) (client : AccountId)
    (current_block : BlockNumber) : C unit :=
  o ← reads (λ s, s.(AgentClientAuthorizations) !! (agent_id, client));
  auth_id ← ok_or o (err NoValidAuthorization);
  o ← reads (λ s, s.(FeedbackAuthorizations) !! auth_id);
  authorization ← ok_or o (err NoValidAuthorization);
  ensure (negb authorization.(auth_revoked)) (err AuthorizationRevoked) ;;
  ensure (current_block <=? authorization.(expiry)) (err AuthorizationExpired) ;;
  current_index ← reads (λ s, default 0 (s.(FeedbackIndices) !! (agent_id, client)));
  ensure (current_index <? authorization.(index_limit)) (err AuthorizationIndexLimitExceeded) ;;
  ensure (current_index <? U32_MAX) (err TooManyFeedbacks).

Definition check_feedback_rate_limit (agent_id : Z) (client : AccountId)
    (current_block : BlockNumber) : C unit :=
  last_timestamp ← reads (λ s, s.(LastFeedbackTimestamp) !! (agent_id, client));
  ensure_some last_timestamp
    (λ last_timestamp, FeedbackRateLimitBlocks <=? saturating_sub current_block last_timestamp)
    (err FeedbackRateLimitExceeded).

Definition store_feedback (agent_id : Z) (client : AccountId) (feedback_info : FeedbackInfo)
    (current_block : BlockNumber) : C Z :=
  ids ← take_id NextFeedbackId;
  let feedback_id := ids.1 in
  writes (λ s, put_Feedbacks (<[feedback_id := feedback_info]> s.(Feedbacks)) s) ;;
  writes (put_NextFeedbackId ids.2) ;;
  push_id MaxFeedbacksPerAgent AgentFeedbacks put_AgentFeedbacks agent_id feedback_id TooManyFeedbacks ;;
  push_id MaxFeedbacksPerClient ClientFeedbacks put_ClientFeedbacks client feedback_id TooManyFeedbacks ;;
  index ← reads (λ s, default 0 (s.(FeedbackIndices) !! (agent_id, client)));
  next_index ← ok_or (checked_add U32_MAX index 1) (err TooManyFeedbacks);
  writes (λ s, put_FeedbackIndices (<[(agent_id, client) := next_index]> s.(FeedbackIndices)) s) ;;
  writes (λ s, put_LastFeedbackTimestamp
    (<[(agent_id, client) := current_block]> s.(LastFeedbackTimestamp)) s) ;;
  mret feedback_id.
End pallet.

(** ** Dispatchables *)

Section dispatchables.
Context {W : Type} `{!System W, !Currency W, !ReservableCurrency W} {T : Config}.
Abbreviation C := (M DispatchError (CEnv W)).

Definition do_unreserve (who : AccountId) (value : Balance) : C Balance :=
  calls (λ w, Ok (unreserve who value w)).

(** *** Identity registry *)

Definition insert_metadata (id : Z) (entry : list Z * list Z) : C unit :=
  key ← bounded MaxMetadataKeyLength entry.1 MetadataKeyTooLong;
  value ← bounded MaxMetadataValueLength entry.2 MetadataValueTooLong;
  writes (λ s, put_AgentMetadata (<[(id, key) := value]> s.(AgentMetadata)) s).

Definition register_agent (origin : Origin) (registration_uri : list Z)
    (metadata : list (list Z * list Z)) : C unit :=
  who ← ensure_signed origin;
  bounded_uri ← bounded MaxUriLength registration_uri UriTooLong;
  ensure (Z.of_nat (length metadata) <=? MaxMetadataEntries) (err TooManyMetadataEntries) ;;
  calls (reserve who AgentDeposit) ;;
  ids ← take_id NextAgentId;
  let agent_id := ids.1 in
  now ← asks block_number;
  writes (λ s, put_Agents (<[agent_id := mkAgentInfo who bounded_uri now]> s.(Agents)) s) ;;
  writes (put_NextAgentId ids.2) ;;
  for_each metadata (insert_metadata agent_id) ;;
  push_id MaxAgentsPerOwner AgentsByOwner put_AgentsByOwner who agent_id TooManyAgents ;;
  deposit_event (AgentRegistered agent_id who registration_uri).

Definition update_metadata (origin : Origin) (agent_id : Z) (key : list Z)
    (value : option (list Z)) : C unit :=
  who ← ensure_signed origin;
  agent ← get_agent agent_id;
  ensure (agent.(owner) =? who) (err NotAgentOwner) ;;
  bounded_key ← bounded MaxMetadataKeyLength key MetadataKeyTooLong;
  match value with
  | Some val =>
      bounded_value ← bounded MaxMetadataValueLength val MetadataValueTooLong;
      writes (λ s, put_AgentMetadata (<[(agent_id, bounded_key) := bounded_value]> s.(AgentMetadata)) s)
  | None => writes (λ s, put_AgentMetadata (delete (agent_id, bounded_key) s.(AgentMetadata)) s)
  end ;;
  deposit_event (AgentMetadataUpdated agent_id key).

Definition transfer_agent (origin : Origin) (agent_id : Z) (new_owner : AccountId) : C unit :=
  who ← ensure_signed origin;
  agent ← get_agent agent_id;
  ensure (agent.(owner) =? who) (err NotAgentOwner) ;;
  calls (repatriate_reserved who new_owner AgentDeposit ReservedStatus) ;;
  let old_owner := agent.(owner) in
  writes (λ s, put_Agents (<[agent_id := set_owner new_owner agent]> s.(Agents)) s) ;;
  writes (λ s, put_AgentsByOwner (alter (filter (λ id, id ≠ agent_id)) old_owner s.(AgentsByOwner)) s) ;;
  push_id MaxAgentsPerOwner AgentsByOwner put_AgentsByOwner new_owner agent_id TooManyAgents ;;
  deposit_event (AgentTransferred agent_id old_owner new_owner).

(** *** Reputation registry *)

Definition authorize_feedback (origin : Origin) (agent_id : Z) (client : AccountId)
    (index_limit : Z) (expiry_blocks : BlockNumber) : C unit :=
  who ← ensure_signed origin;
  agent ← get_agent agent_id;
  ensure (agent.(owner) =? who) (err NotAgentOwner) ;;
  existing ← reads (λ s, s.(AgentClientAuthorizations) !! (agent_id, client));
  ensure (bool_decide (existing = None)) (err AuthorizationAlreadyExists) ;;
  ids ← take_id NextAuthorizationId;
  let auth_id := ids.1 in
  current_block ← asks block_number;
  let expiry := saturating_add U32_MAX current_block expiry_blocks in
  let authorization :=
    mkFeedbackAuthorization agent_id client index_limit expiry current_block false in
  writes (λ s, put_FeedbackAuthorizations
    (<[auth_id := authorization]> s.(FeedbackAuthorizations)) s) ;;
  writes (λ s, put_AgentClientAuthorizations
    (<[(agent_id, client) := auth_id]> s.(AgentClientAuthorizations)) s) ;;
  writes (put_NextAuthorizationId ids.2) ;;
  deposit_event (FeedbackAuthorizationGranted auth_id agent_id client index_limit expiry).

Definition revoke_authorization (origin : Origin) (agent_id : Z) (client : AccountId) : C unit :=
  who ← ensure_signed origin;
  agent ← get_agent agent_id;
  ensure (agent.(owner) =? who) (err NotAgentOwner) ;;
  o ← reads (λ s, s.(AgentClientAuthorizations) !! (agent_id, client));
  auth_id ← ok_or o (err AuthorizationNotFound);
  o ← reads (λ s, s.(FeedbackAuthorizations) !! auth_id);
  auth ← ok_or o (err AuthorizationNotFound);
  writes (λ s, put_FeedbackAuthorizations
    (<[auth_id := set_auth_revoked true auth]> s.(FeedbackAuthorizations)) s) ;;
  deposit_event (FeedbackAuthorizationRevoked auth_id).

Definition give_feedback (origin : Origin) (agent_id score : Z) (tags : list (list Z))
    (file_uri : list Z) (content_hash : Z) : C unit :=
  who ← ensure_signed origin;
  ensure_agent agent_id ;;
  current_block ← asks block_number;
  verify_feedback_authorization agent_id who current_block ;;
  check_feedback_rate_limit agent_id who current_block ;;
  data ← validate_feedback_data score tags file_uri;
  calls (reserve who FeedbackDeposit) ;;
  let feedback :=
    mkFeedbackInfo agent_id who score data.1 data.2 content_hash current_block false in
  feedback_id ← store_feedback agent_id who feedback current_block;
  deposit_event (FeedbackGiven feedback_id agent_id who score) ;;
  update_reputation agent_id.

Definition revoke_feedback (origin : Origin) (feedback_id : Z) : C unit :=
  who ← ensure_signed origin;
  feedback ← get_feedback feedback_id;
  ensure (feedback.(client) =? who) (err NotFeedbackClient) ;;
  ensure (negb feedback.(revoked)) (err FeedbackAlreadyRevoked) ;;
  writes (λ s, put_Feedbacks (<[feedback_id := set_revoked true feedback]> s.(Feedbacks)) s) ;;
  do_unreserve who FeedbackDeposit ;;
  deposit_event (FeedbackRevoked feedback_id) ;;
  update_reputation feedback.(agent_id).

Definition append_response (origin : Origin) (feedback_id : Z) (response_uri : list Z)
    (content_hash : Z) : C unit :=
  who ← ensure_signed origin;
  feedback ← get_feedback feedback_id;
  agent ← get_agent feedback.(agent_id);
  ensure (agent.(owner) =? who) (err NotAgentOwner) ;;
  bounded_uri ← bounded MaxUriLength response_uri UriTooLong;
  now ← asks block_number;
  let response := mkFeedbackResponse bounded_uri content_hash now in
  responses ← reads (λ s, default [] (s.(FeedbackResponses) !! feedback_id));
  responses ← ok_or (try_push MaxResponsesPerFeedback responses response) (err TooManyResponses);
  writes (λ s, put_FeedbackResponses (<[feedback_id := responses]> s.(FeedbackResponses)) s) ;;
  deposit_event (ResponseAppended feedback_id who).

(** *** Validation registry *)

Definition register_validator (origin : Origin) (stake : Balance) : C unit :=
  who ← ensure_signed origin;
  o ← reads (λ s, s.(Validators) !! who);
  ensure (bool_decide (o = None)) (err ValidatorAlreadyRegistered) ;;
  whitelist_enabled ← reads (λ s, bool_decide (map_to_list s.(ValidatorWhitelist) ≠ []));
  when whitelist_enabled
    (listed ← reads (λ s, default false (s.(ValidatorWhitelist) !! who));
     ensure listed (err ValidatorNotWhitelisted)) ;;
  ensure (ValidatorMinStake <=? stake) (err InsufficientStake) ;;
  calls (reserve who stake) ;;
  now ← asks block_number;
  writes (λ s, put_Validators (<[who := mkValidatorInfo who stake now true]> s.(Validators)) s) ;;
  deposit_event (ValidatorRegistered who stake).

Definition unregister_validator (origin : Origin) : C unit :=
  who ← ensure_signed origin;
  o ← reads (λ s, s.(Validators) !! who);
  validator ← ok_or o (err ValidatorNotFound);
  do_unreserve who validator.(stake) ;;
  writes (λ s, put_Validators (delete who s.(Validators)) s) ;;
  deposit_event (ValidatorUnregistered who).

Definition request_validation (origin : Origin) (agent_id : Z) (reward : Balance) : C unit :=
  who ← ensure_signed origin;
  ensure_agent agent_id ;;
  calls (reserve who (saturating_add U128_MAX ValidationRequestDeposit reward)) ;;
  ids ← take_id NextRequestId;
  let request_id := ids.1 in
  current_block ← asks block_number;
  let deadline := saturating_add U32_MAX current_block ValidationDeadline in
  writes (λ s, put_ValidationRequests
    (<[request_id := mkValidationRequest agent_id who reward current_block deadline false]>
       s.(ValidationRequests)) s) ;;
  writes (put_NextRequestId ids.2) ;;
  push_id MaxValidationsPerAgent AgentValidations put_AgentValidations agent_id request_id
    TooManyValidationRequests ;;
  deposit_event (ValidationRequested request_id agent_id who).

Definition submit_validation (origin : Origin) (request_id score : Z) (evidence_uri : list Z)
    (content_hash : Z) (tags : list (list Z)) : C unit :=
  who ← ensure_signed origin;
  o ← reads (λ s, s.(ValidationRequests) !! request_id);
  ensure (bool_decide (is_Some o)) (err ValidationRequestNotFound) ;;
  o ← reads (λ s, s.(Validators) !! who);
  validator ← ok_or o (err ValidatorNotFound);
  ensure validator.(active) (err ValidatorNotActive) ;;
  o ← reads (λ s, s.(ValidationResponses) !! (request_id, who));
  ensure (bool_decide (o = None)) (err ValidationAlreadySubmitted) ;;
  ensure (score <=? 100) (err InvalidScore) ;;
  ensure (Z.of_nat (length tags) <=? MaxTags) (err TooManyTags) ;;
  bounded_tags ← push_tags [] tags;
  bounded_uri ← bounded MaxUriLength evidence_uri UriTooLong;
  now ← asks block_number;
  let response :=
    mkValidationResponse request_id who score bounded_uri content_hash bounded_tags now in
  writes (λ s, put_ValidationResponses
    (<[(request_id, who) := response]> s.(ValidationResponses)) s) ;;
  request ← get_request request_id;
  update_reputation request.(request_agent_id) ;;
  when (0 <? request.(reward))
    (calls (repatriate_reserved request.(requester) who request.(reward) FreeStatus) ;; mret tt) ;;
  writes (λ s, put_ValidationRequests
    (alter (set_completed true) request_id s.(ValidationRequests)) s) ;;
  deposit_event (ValidationSubmitted request_id who score).

Definition cancel_validation_request (origin : Origin) (request_id : Z) : C unit :=
  who ← ensure_signed origin;
  request ← get_request request_id;
  ensure (request.(requester) =? who) (err NotRequester) ;;
  ensure (negb request.(completed)) (err ValidationRequestCompleted) ;;
  current_block ← asks block_number;
  ensure (request.(deadline) <=? current_block) (err ValidationDeadlineNotPassed) ;;
  do_unreserve who (saturating_add U128_MAX ValidationRequestDeposit request.(reward)) ;;
  writes (λ s, put_AgentValidations
    (alter (swap_remove_first request_id) request.(request_agent_id) s.(AgentValidations)) s) ;;
  writes (λ s, put_ValidationRequests (delete request_id s.(ValidationRequests)) s) ;;
  deposit_event (ValidationRequestCancelled request_id who).
End dispatchables.

Section escrows.
Context {W : Type} `{!System W, !Currency W, !ReservableCurrency W} {T : Config}.
Abbreviation C := (M DispatchError (CEnv W)).

Definition create_escrow (origin : Origin) (agent_id : Z) (amount : Balance)
    (timeout : BlockNumber) (custom_auto_complete_blocks : option BlockNumber) : C unit :=
  who ← ensure_signed origin;
  ensure_agent agent_id ;;
  calls (reserve who amount) ;;
  ids ← take_id NextEscrowId;
  let escrow_id := ids.1 in
  current_block ← asks block_number;
  let auto_complete_duration := default EscrowAutoCompleteBlocks custom_auto_complete_blocks in
  let auto_complete_at := saturating_add U32_MAX current_block auto_complete_duration in
  let escrow_info :=
    mkEscrowInfo who agent_id amount auto_complete_at timeout EscrowActive current_block in
  writes (λ s, put_Escrows (<[escrow_id := escrow_info]> s.(Escrows)) s) ;;
  writes (put_NextEscrowId ids.2) ;;
  deposit_event (EscrowCreated escrow_id who agent_id amount timeout).

Definition remove_escrow (escrow_id : Z) : C unit :=
  writes (λ s, put_Escrows (delete escrow_id s.(Escrows)) s).

Definition put_escrow (escrow_id : Z) (escrow : EscrowInfo) : C unit :=
  writes (λ s, put_Escrows (<[escrow_id := escrow]> s.(Escrows)) s).

(** The check of an escrow's status: the escrow to be claimed. *)
Definition auto_complete (escrow_id : Z) (escrow : EscrowInfo) (current_block : BlockNumber)
    : C EscrowInfo :=
  if bool_decide (escrow.(status) = EscrowActive) then
    ensure (escrow.(auto_complete_at) <=? current_block) (err EscrowNotAutoCompleted) ;;
    let escrow := set_status AutoCompleted escrow in
    put_escrow escrow_id escrow ;;
    deposit_event (EscrowAutoCompleted escrow_id) ;;
    mret escrow
  else mret escrow.

Definition claim_escrow (origin : Origin) (escrow_id : Z) : C unit :=
  who ← ensure_signed origin;
  escrow ← get_escrow escrow_id;
  agent ← get_agent escrow.(escrow_agent_id);
  ensure (agent.(owner) =? who) (err NotAgentOwner) ;;
  current_block ← asks block_number;
  escrow ← auto_complete escrow_id escrow current_block;
  ensure (bool_decide (escrow.(status) ≠ Disputed)) (err EscrowDisputed) ;;
  ensure (bool_decide (escrow.(status) = AutoCompleted) || bool_decide (escrow.(status) = Resolved))
    (err EscrowNotAutoCompleted) ;;
  do_unreserve escrow.(escrow_client) escrow.(amount) ;;
  calls (transfer escrow.(escrow_client) agent.(owner) escrow.(amount) KeepAlive) ;;
  remove_escrow escrow_id ;;
  deposit_event (EscrowClaimed escrow_id escrow.(escrow_agent_id)).

Definition cancel_escrow (origin : Origin) (escrow_id : Z) : C unit :=
  who ← ensure_signed origin;
  escrow ← get_escrow escrow_id;
  ensure (escrow.(escrow_client) =? who) (err NotEscrowClient) ;;
  current_block ← asks block_number;
  ensure (escrow.(timeout) <=? current_block) (err EscrowNotTimedOut) ;;
  do_unreserve escrow.(escrow_client) escrow.(amount) ;;
  remove_escrow escrow_id ;;
  deposit_event (EscrowCancelled escrow_id who).

Definition dispute_escrow (origin : Origin) (escrow_id : Z) : C unit :=
  who ← ensure_signed origin;
  escrow ← get_escrow escrow_id;
  ensure (escrow.(escrow_client) =? who) (err NotEscrowClient) ;;
  ensure (bool_decide (escrow.(status) = EscrowActive) || bool_decide (escrow.(status) = AutoCompleted))
    (err CannotDisputeEscrow) ;;
  put_escrow escrow_id (set_status Disputed escrow) ;;
  deposit_event (EscrowDisputedEvent escrow_id who).

Definition resolve_escrow_dispute (origin : Origin) (escrow_id : Z) (favor_client : bool) : C unit :=
  ensure_origin DisputeResolverOrigin origin ;;
  escrow ← get_escrow escrow_id;
  ensure (bool_decide (escrow.(status) = Disputed)) (err CannotDisputeEscrow) ;;
  if favor_client then
    do_unreserve escrow.(escrow_client) escrow.(amount) ;;
    remove_escrow escrow_id ;;
    deposit_event (EscrowCancelled escrow_id escrow.(escrow_client))
  else
    put_escrow escrow_id (set_status Resolved escrow) ;;
    deposit_event (EscrowDisputeResolved escrow_id Resolved).

(** *** Disputes *)

Definition dispute_feedback (origin : Origin) (feedback_id : Z) (reason_uri : list Z)
    (content_hash : Z) : C unit :=
  who ← ensure_signed origin;
  feedback ← get_feedback feedback_id;
  ensure (negb feedback.(revoked)) (err CannotDisputeRevokedFeedback) ;;
  agent ← get_agent feedback.(agent_id);
  ensure (agent.(owner) =? who) (err NotAgentOwner) ;;
  bounded_uri ← bounded MaxUriLength reason_uri UriTooLong;
  calls (reserve who DisputeDeposit) ;;
  ids ← take_id NextDisputeId;
  let dispute_id := ids.1 in
  now ← asks block_number;
  let dispute := mkDisputeInfo feedback_id who bounded_uri content_hash Open now None in
  writes (λ s, put_Disputes (<[dispute_id := dispute]> s.(Disputes)) s) ;;
  writes (put_NextDisputeId ids.2) ;;
  push_id MaxDisputesPerFeedback FeedbackDisputes put_FeedbackDisputes feedback_id dispute_id
    TooManyDisputes ;;
  deposit_event (DisputeCreated dispute_id feedback_id who).

Definition resolve_dispute (origin : Origin) (dispute_id : Z) (status : DisputeStatus) : C unit :=
  ensure_origin DisputeResolverOrigin origin ;;
  o ← reads (λ s, s.(Disputes) !! dispute_id);
  dispute ← ok_or o (err DisputeNotFound);
  ensure (bool_decide (dispute.(dispute_status) = Open)) (err DisputeAlreadyResolved) ;;
  now ← asks block_number;
  writes (λ s, put_Disputes
    (<[dispute_id := set_dispute_status status (Some now) dispute]> s.(Disputes)) s) ;;
  match status with
  | ResolvedForDisputer =>
      o ← reads (λ s, s.(Feedbacks) !! dispute.(feedback_id));
      match o with
      | Some feedback =>
          writes (λ s, put_Feedbacks
            (<[dispute.(feedback_id) := set_revoked true feedback]> s.(Feedbacks)) s) ;;
          update_reputation feedback.(agent_id) ;;
          do_unreserve dispute.(disputer) DisputeDeposit ;;
          mret tt
      | None => mret tt
      end
  | ResolvedAgainstDisputer | Dismissed => mret tt
  | Open => mret tt
  end ;;
  deposit_event (DisputeResolved dispute_id status).

(** *** The whitelist of validators *)

Definition add_validator_to_whitelist (origin : Origin) (validator : AccountId) : C unit :=
  ensure_origin ValidatorManagerOrigin origin ;;
  listed ← reads (λ s, default false (s.(ValidatorWhitelist) !! validator));
  ensure (negb listed) (err ValidatorAlreadyWhitelisted) ;;
  writes (λ s, put_ValidatorWhitelist (<[validator := true]> s.(ValidatorWhitelist)) s) ;;
  deposit_event (ValidatorWhitelisted validator).

Definition remove_validator_from_whitelist (origin : Origin) (validator : AccountId) : C unit :=
  ensure_origin ValidatorManagerOrigin origin ;;
  listed ← reads (λ s, default false (s.(ValidatorWhitelist) !! validator));
  ensure listed (err ValidatorNotWhitelisted) ;;
  writes (λ s, put_ValidatorWhitelist (delete validator s.(ValidatorWhitelist)) s) ;;
  deposit_event (ValidatorRemovedFromWhitelist validator).
End escrows.

(** ** Queries *)

(** The ids at the positions [start..end], with what is stored under them. *)
Definition page_of {A} (ids : list Z) (m : gmap Z A) (start stop : Z) : list (Z * A) :=
  omap (λ id, (id,.) <$> m !! id)
    (take (Z.to_nat (stop - start)) (drop (Z.to_nat start) ids)).

(** [page * page_size] and [(page + 1) * page_size] are [u32] products. *)
Definition paginated {A} (ids : list Z) (m : gmap Z A) (page page_size : Z) : list (Z * A) * Z :=
  let total_count := wrap U32_MAX (Z.of_nat (length ids)) in
  let start := wrap U32_MAX (page * page_size) in
  let stop := Z.min (wrap U32_MAX (wrap U32_MAX (page + 1) * page_size)) total_count in
  (page_of ids m start stop, total_count).

Definition get_agent_feedbacks_paginated (s : State) (agent_id page page_size : Z)
    : list (Z * FeedbackInfo) * Z :=
  paginated (default [] (s.(AgentFeedbacks) !! agent_id)) s.(Feedbacks) page page_size.

Definition get_agent_validations_paginated (s : State) (agent_id page page_size : Z)
    : list (Z * ValidationRequest) * Z :=
  paginated (default [] (s.(AgentValidations) !! agent_id)) s.(ValidationRequests) page page_size.

Definition get_feedbacks_by_client (s : State) (agent_id : Z) (c : AccountId)
    : list (Z * FeedbackInfo) :=
  filter (λ kv, kv.2.(client) = c)
    (omap (λ id, (id,.) <$> s.(Feedbacks) !! id) (default [] (s.(AgentFeedbacks) !! agent_id))).

(** ** The calls *)

Inductive Call :=
| Register_agent (registration_uri : list Z) (metadata : list (list Z * list Z))
| Update_metadata (agent_id : Z) (key : list Z) (value : option (list Z))
| Transfer_agent (agent_id : Z) (new_owner : AccountId)
| Give_feedback (agent_id score : Z) (tags : list (list Z)) (file_uri : list Z) (content_hash : Z)
| Revoke_feedback (feedback_id : Z)
| Append_response (feedback_id : Z) (response_uri : list Z) (content_hash : Z)
| Register_validator (stake : Balance)
| Unregister_validator
| Request_validation (agent_id : Z) (reward : Balance)
| Submit_validation (request_id score : Z) (evidence_uri : list Z) (content_hash : Z)
    (tags : list (list Z))
| Create_escrow (agent_id : Z) (amount : Balance) (timeout : BlockNumber)
    (custom_auto_complete_blocks : option BlockNumber)
| Claim_escrow (escrow_id : Z)
| Cancel_escrow (escrow_id : Z)
| Cancel_validation_request (request_id : Z)
| Dispute_feedback (feedback_id : Z) (reason_uri : list Z) (content_hash : Z)
| Resolve_dispute (dispute_id : Z) (status : DisputeStatus)
| Add_validator_to_whitelist (validator : AccountId)
| Remove_validator_from_whitelist (validator : AccountId)
| Authorize_feedback (agent_id : Z) (client : AccountId) (index_limit : Z)
    (expiry_blocks : BlockNumber)
| Revoke_authorization (agent_id : Z) (client : AccountId)
| Dispute_escrow (escrow_id : Z)
| Resolve_escrow_dispute (escrow_id : Z) (favor_client : bool).

Definition agent_dispatch {W} `{!System W, !Currency W, !ReservableCurrency W} {T : Config}
    (origin : Origin) (call : Call) : M DispatchError (CEnv W) unit :=
  match call with
  | Register_agent uri metadata => register_agent origin uri metadata
  | Update_metadata id key value => update_metadata origin id key value
  | Transfer_agent id new_owner => transfer_agent origin id new_owner
  | Give_feedback id score tags uri hash => give_feedback origin id score tags uri hash
  | Revoke_feedback id => revoke_feedback origin id
  | Append_response id uri hash => append_response origin id uri hash
  | Register_validator stake => register_validator origin stake
  | Unregister_validator => unregister_validator origin
  | Request_validation id reward => request_validation origin id reward
  | Submit_validation id score uri hash tags => submit_validation origin id score uri hash tags
  | Create_escrow id amount timeout blocks => create_escrow origin id amount timeout blocks
  | Claim_escrow id => claim_escrow origin id
  | Cancel_escrow id => cancel_escrow origin id
  | Cancel_validation_request id => cancel_validation_request origin id
  | Dispute_feedback id uri hash => dispute_feedback origin id uri hash
  | Resolve_dispute id status => resolve_dispute origin id status
  | Add_validator_to_whitelist validator => add_validator_to_whitelist origin validator
  | Remove_validator_from_whitelist validator => remove_validator_from_whitelist origin validator
  | Authorize_feedback id client limit expiry => authorize_feedback origin id client limit expiry
  | Revoke_authorization id client => revoke_authorization origin id client
  | Dispute_escrow id => dispute_escrow origin id
  | Resolve_escrow_dispute id favor_client => resolve_escrow_dispute origin id favor_client
  end.
