(* ===== verification/TrustlessAgentSpec.v ===== *)
(** * pallet-trustless-agent: what each dispatchable does

    For every dispatchable, the facts a successful run establishes: the guards
    that held, the calls into the currency, and the storage it leaves.  The
    invariants of TrustlessAgentInv.v and the reserves of
    TrustlessAgentFunds.v are proved from these lemmas alone. *)

From S2P Require Import Prelude Arith Errors Frame TrustlessAgent.
Import TrustlessAgentErrors.

(** The lists of the indexes. *)
Definition agents_of (s : State) (o : AccountId) : list Z := default [] (s.(AgentsByOwner) !! o).
Definition feedbacks_of (s : State) (id : Z) : list Z := default [] (s.(AgentFeedbacks) !! id).
Definition given_by (s : State) (c : AccountId) : list Z := default [] (s.(ClientFeedbacks) !! c).
Definition requests_of (s : State) (id : Z) : list Z := default [] (s.(AgentValidations) !! id).
Definition disputes_of (s : State) (id : Z) : list Z := default [] (s.(FeedbackDisputes) !! id).
Definition feedback_index (s : State) (id : Z) (c : AccountId) : Z :=
  default 0 (s.(FeedbackIndices) !! (id, c)).

(** The reputation of an agent computed anew. *)
Definition refreshed (now : BlockNumber) (id : Z) (s : State) : State :=
  put_AgentReputations (<[id := calculate_reputation now s id]> s.(AgentReputations)) s.

Section spec.
Context {W : Type} `{!System W, !Currency W, !ReservableCurrency W} {T : Config}.
Implicit Types (e : CEnv W) (s : State) (w : W).

(** ** Helpers *)

Lemma agent_unreserve_ok who v e r e' :
  do_unreserve who v e = Ok (r, e') ↔
  ∃ w', unreserve who v (world e) = (r, w') ∧ e' = mkEnv (store e) w' (events e).
Proof.
  unfold do_unreserve. rewrite calls_ok. split.
  - intros (w & [= Hw] & ->). eauto.
  - intros (w & Hw & ->). exists w. by rewrite Hw.
Qed.

Lemma agent_bounded_ok {A} n (l : list A) x e l' e' :
  bounded n l x e = Ok (l', e') ↔ Z.of_nat (length l) ≤ n ∧ l' = l ∧ e' = e.
Proof.
  unfold bounded. rewrite bind_ok. setoid_rewrite ensure_ok. setoid_rewrite ret_ok.
  setoid_rewrite Z.leb_le. naive_solver.
Qed.

Lemma get_agent_ok id e a e' :
  get_agent id e = Ok (a, e') ↔ (store e).(Agents) !! id = Some a ∧ e' = e.
Proof.
  unfold get_agent. rewrite bind_ok. setoid_rewrite reads_ok. setoid_rewrite ok_or_ok. naive_solver.
Qed.

Lemma ensure_agent_ok id e u e' :
  ensure_agent id e = Ok (u, e') ↔ is_Some ((store e).(Agents) !! id) ∧ e' = e.
Proof.
  unfold ensure_agent. rewrite bind_ok. setoid_rewrite reads_ok. setoid_rewrite ensure_ok.
  setoid_rewrite bool_decide_eq_true. naive_solver.
Qed.

Lemma get_feedback_ok id e f e' :
  get_feedback id e = Ok (f, e') ↔ (store e).(Feedbacks) !! id = Some f ∧ e' = e.
Proof.
  unfold get_feedback. rewrite bind_ok. setoid_rewrite reads_ok. setoid_rewrite ok_or_ok. naive_solver.
Qed.

Lemma get_escrow_ok id e x e' :
  get_escrow id e = Ok (x, e') ↔ (store e).(Escrows) !! id = Some x ∧ e' = e.
Proof.
  unfold get_escrow. rewrite bind_ok. setoid_rewrite reads_ok. setoid_rewrite ok_or_ok. naive_solver.
Qed.

Lemma get_request_ok id e r e' :
  get_request id e = Ok (r, e') ↔ (store e).(ValidationRequests) !! id = Some r ∧ e' = e.
Proof.
  unfold get_request. rewrite bind_ok. setoid_rewrite reads_ok. setoid_rewrite ok_or_ok. naive_solver.
Qed.

Lemma take_id_ok next e p e' :
  take_id next e = Ok (p, e') ↔
  p = (next (store e), next (store e) + 1) ∧ next (store e) + 1 ≤ U64_MAX ∧ e' = e.
Proof.
  unfold take_id, checked_add. split.
  - intros Hr. einv. destruct (Z.leb_spec (next (store e) + 1) U64_MAX); by simplify_eq.
  - intros (-> & Hle & ->). apply bind_ok. exists (next (store e)), e. split; [by apply reads_ok|].
    apply bind_ok. exists (next (store e) + 1), e. split; [|by apply ret_ok].
    apply ok_or_ok. split; [|done]. apply Z.leb_le in Hle. by rewrite Hle.
Qed.

Lemma push_id_ok {K} `{Countable K} n get put (k : K) id x e u e' :
  push_id n get put k id x e = Ok (u, e') ↔
  Z.of_nat (length (default [] (get (store e) !! k))) < n ∧
  e' = mkEnv (put (<[k := default [] (get (store e) !! k) ++ [id]]> (get (store e))) (store e))
         (world e) (events e).
Proof.
  unfold push_id. rewrite bind_ok. setoid_rewrite reads_ok. setoid_rewrite bind_ok.
  setoid_rewrite ok_or_ok. setoid_rewrite try_push_Some. setoid_rewrite writes_ok. naive_solver.
Qed.

Lemma push_tags_ok tags ts e ts' e' : push_tags ts tags e = Ok (ts', e') → e' = e.
Proof.
  revert ts. induction tags as [|t tags IH]; intros ts Hr; simpl in Hr; einv; [done|].
  match goal with H : bounded _ _ _ _ = _ |- _ => apply agent_bounded_ok in H as (_ & -> & ->) end.
  by apply IH in Hr.
Qed.

Lemma validate_feedback_data_ok sc tags uri e d e' :
  validate_feedback_data sc tags uri e = Ok (d, e') → sc ≤ 100 ∧ e' = e.
Proof.
  unfold validate_feedback_data. intros Hr. einv. bool_facts.
  repeat match goal with
  | H : push_tags _ _ _ = _ |- _ => apply push_tags_ok in H as ->
  | H : bounded _ _ _ _ = _ |- _ => apply agent_bounded_ok in H as (_ & -> & ->)
  end. done.
Qed.

Lemma update_reputation_ok id e u e' :
  update_reputation id e = Ok (u, e') ↔
  e' = mkEnv (refreshed (block_number (world e)) id (store e)) (world e)
    (events e ++ [ReputationUpdated id
      (calculate_reputation (block_number (world e)) (store e) id).(overall_score)]).
Proof.
  unfold update_reputation. rewrite bind_ok. setoid_rewrite asks_ok. setoid_rewrite bind_ok.
  setoid_rewrite reads_ok. setoid_rewrite bind_ok. setoid_rewrite writes_ok.
  setoid_rewrite deposit_event_ok. split.
  - intros (? & ? & [-> ->] & ? & ? & [-> ->] & ? & ? & -> & ->). done.
  - intros ->. eexists _, _. split; [done|]. eexists _, _. split; [done|]. by eexists tt, _.
Qed.
End spec.

#[global] Arguments calculate_reputation : simpl never.

(** Inversion of a run through the helpers. *)
Ltac agent_step :=
  match goal with
  | H : ensure_signed _ _ = Ok _ |- _ => apply ensure_signed_ok in H as [-> ->]
  | H : ensure_origin _ _ _ = Ok _ |- _ => apply ensure_origin_ok in H as [? ->]
  | H : do_unreserve _ _ _ = Ok _ |- _ => apply agent_unreserve_ok in H as (? & ? & ->)
  | H : bounded _ _ _ _ = Ok _ |- _ => apply agent_bounded_ok in H as (? & -> & ->)
  | H : get_agent _ _ = Ok _ |- _ => apply get_agent_ok in H as [? ->]
  | H : ensure_agent _ _ = Ok _ |- _ => apply ensure_agent_ok in H as [? ->]
  | H : get_feedback _ _ = Ok _ |- _ => apply get_feedback_ok in H as [? ->]
  | H : get_escrow _ _ = Ok _ |- _ => apply get_escrow_ok in H as [? ->]
  | H : get_request _ _ = Ok _ |- _ => apply get_request_ok in H as [? ->]
  | H : take_id _ _ = Ok _ |- _ => apply take_id_ok in H as (-> & ? & ->)
  | H : push_id _ _ _ _ _ _ _ = Ok _ |- _ => apply push_id_ok in H as [? ->]
  | H : push_tags _ _ _ = Ok _ |- _ => apply push_tags_ok in H as ->
  | H : validate_feedback_data _ _ _ _ = Ok _ |- _ => apply validate_feedback_data_ok in H as [? ->]
  | H : update_reputation _ _ = Ok _ |- _ => apply update_reputation_ok in H as ->
  | H : remove_escrow _ _ = Ok _ |- _ => unfold remove_escrow in H
  | H : put_escrow _ _ _ = Ok _ |- _ => unfold put_escrow in H
  end.
Ltac ainv := repeat first [minv_step | env_step | agent_step]; simpl in *; bool_facts; subst.

(** ** The moves of the pallet *)

Create HintDb moves.

Section moves.
Context {W : Type} `{!System W, !Currency W, !ReservableCurrency W} {T : Config}.
Implicit Types (e : CEnv W) (s : State) (w : W).

(** Metadata that differs for one agent only. *)
Definition metadata_of (id : Z) (md md' : gmap (Z * list Z) (list Z)) : Prop :=
  ∀ k, k.1 ≠ id → md' !! k = md !! k.

(** The storage after a feedback was stored. *)
Definition feedback_stored (f : FeedbackInfo) (s : State) : State :=
  let id := s.(NextFeedbackId) in
  let pair := (f.(agent_id), f.(client)) in
  put_LastFeedbackTimestamp (<[pair := f.(created_at)]> s.(LastFeedbackTimestamp))
  (put_FeedbackIndices (<[pair := feedback_index s f.(agent_id) f.(client) + 1]> s.(FeedbackIndices))
  (put_ClientFeedbacks (<[f.(client) := given_by s f.(client) ++ [id]]> s.(ClientFeedbacks))
  (put_AgentFeedbacks (<[f.(agent_id) := feedbacks_of s f.(agent_id) ++ [id]]> s.(AgentFeedbacks))
  (put_NextFeedbackId (id + 1)
  (put_Feedbacks (<[id := f]> s.(Feedbacks)) s))))).

Definition claimable (x : EscrowInfo) (now : BlockNumber) : Prop :=
  match x.(status) with
  | EscrowActive => x.(auto_complete_at) ≤ now
  | AutoCompleted | Resolved => True
  | Disputed => False
  end.

Inductive agent_move (o : Origin) (s : State) (w : W) : State → W → Prop :=
| move_register who uri md w' :
    o = Signed who → reserve who AgentDeposit w = Ok (tt, w') →
    s.(NextAgentId) + 1 ≤ U64_MAX → Z.of_nat (length (agents_of s who)) < MaxAgentsPerOwner →
    metadata_of s.(NextAgentId) s.(AgentMetadata) md →
    agent_move o s w
      (put_AgentsByOwner (<[who := agents_of s who ++ [s.(NextAgentId)]]> s.(AgentsByOwner))
      (put_AgentMetadata md
      (put_NextAgentId (s.(NextAgentId) + 1)
      (put_Agents (<[s.(NextAgentId) := mkAgentInfo who uri (block_number w')]> s.(Agents)) s)))) w'
| move_metadata a id md :
    s.(Agents) !! id = Some a → o = Signed a.(owner) → metadata_of id s.(AgentMetadata) md →
    agent_move o s w (put_AgentMetadata md s) w
| move_transfer a id new r w' :
    s.(Agents) !! id = Some a → o = Signed a.(owner) →
    repatriate_reserved a.(owner) new AgentDeposit ReservedStatus w = Ok (r, w') →
    let index := alter (filter (λ i, i ≠ id)) a.(owner) s.(AgentsByOwner) in
    Z.of_nat (length (default [] (index !! new))) < MaxAgentsPerOwner →
    agent_move o s w
      (put_AgentsByOwner (<[new := default [] (index !! new) ++ [id]]> index)
      (put_Agents (<[id := set_owner new a]> s.(Agents)) s)) w'
| move_authorize a id c limit expiry :
    s.(Agents) !! id = Some a → o = Signed a.(owner) →
    s.(AgentClientAuthorizations) !! (id, c) = None → s.(NextAuthorizationId) + 1 ≤ U64_MAX →
    agent_move o s w
      (put_NextAuthorizationId (s.(NextAuthorizationId) + 1)
      (put_AgentClientAuthorizations
        (<[(id, c) := s.(NextAuthorizationId)]> s.(AgentClientAuthorizations))
      (put_FeedbackAuthorizations
        (<[s.(NextAuthorizationId) := mkFeedbackAuthorization id c limit expiry (block_number w) false]>
          s.(FeedbackAuthorizations)) s))) w
| move_unauthorize a id c n auth :
    s.(Agents) !! id = Some a → o = Signed a.(owner) →
    s.(AgentClientAuthorizations) !! (id, c) = Some n →
    s.(FeedbackAuthorizations) !! n = Some auth →
    agent_move o s w
      (put_FeedbackAuthorizations (<[n := set_auth_revoked true auth]> s.(FeedbackAuthorizations)) s) w
| move_feedback f n auth w' :
    o = Signed f.(client) → is_Some (s.(Agents) !! f.(agent_id)) →
    s.(AgentClientAuthorizations) !! (f.(agent_id), f.(client)) = Some n →
    s.(FeedbackAuthorizations) !! n = Some auth →
    auth.(auth_revoked) = false → block_number w ≤ auth.(expiry) →
    feedback_index s f.(agent_id) f.(client) < auth.(index_limit) →
    feedback_index s f.(agent_id) f.(client) < U32_MAX →
    (∀ t, s.(LastFeedbackTimestamp) !! (f.(agent_id), f.(client)) = Some t →
      FeedbackRateLimitBlocks ≤ saturating_sub (block_number w) t) →
    0 ≤ f.(score) ≤ 100 → f.(created_at) = block_number w → f.(revoked) = false →
    reserve f.(client) FeedbackDeposit w = Ok (tt, w') →
    s.(NextFeedbackId) + 1 ≤ U64_MAX →
    Z.of_nat (length (feedbacks_of s f.(agent_id))) < MaxFeedbacksPerAgent →
    Z.of_nat (length (given_by s f.(client))) < MaxFeedbacksPerClient →
    agent_move o s w (refreshed (block_number w') f.(agent_id) (feedback_stored f s)) w'
| move_revoke f id r w' :
    s.(Feedbacks) !! id = Some f → o = Signed f.(client) → f.(revoked) = false →
    unreserve f.(client) FeedbackDeposit w = (r, w') →
    agent_move o s w
      (refreshed (block_number w') f.(agent_id)
        (put_Feedbacks (<[id := set_revoked true f]> s.(Feedbacks)) s)) w'
| move_response f a id m :
    s.(Feedbacks) !! id = Some f → s.(Agents) !! f.(agent_id) = Some a → o = Signed a.(owner) →
    agent_move o s w (put_FeedbackResponses m s) w
| move_validator who v w' :
    o = Signed who → s.(Validators) !! who = None → ValidatorMinStake ≤ v → fits U128_MAX v →
    reserve who v w = Ok (tt, w') →
    agent_move o s w
      (put_Validators (<[who := mkValidatorInfo who v (block_number w') true]> s.(Validators)) s) w'
| move_unvalidator who v r w' :
    o = Signed who → s.(Validators) !! who = Some v →
    unreserve who v.(stake) w = (r, w') →
    agent_move o s w (put_Validators (delete who s.(Validators)) s) w'
| move_request who id v deadline w' :
    o = Signed who → is_Some (s.(Agents) !! id) → fits U128_MAX v →
    reserve who (saturating_add U128_MAX ValidationRequestDeposit v) w = Ok (tt, w') →
    s.(NextRequestId) + 1 ≤ U64_MAX →
    Z.of_nat (length (requests_of s id)) < MaxValidationsPerAgent →
    agent_move o s w
      (put_AgentValidations (<[id := requests_of s id ++ [s.(NextRequestId)]]> s.(AgentValidations))
      (put_NextRequestId (s.(NextRequestId) + 1)
      (put_ValidationRequests
        (<[s.(NextRequestId) := mkValidationRequest id who v (block_number w') deadline false]>
          s.(ValidationRequests)) s))) w'
| move_submit id req val resp w' :
    o = Signed resp.(validator) → resp.(request_id) = id →
    s.(ValidationRequests) !! id = Some req →
    s.(Validators) !! resp.(validator) = Some val → val.(active) = true →
    s.(ValidationResponses) !! (id, resp.(validator)) = None →
    0 ≤ resp.(response_score) ≤ 100 →
    (if 0 <? req.(reward)
     then ∃ r, repatriate_reserved req.(requester) resp.(validator) req.(reward) FreeStatus w = Ok (r, w')
     else w' = w) →
    agent_move o s w
      (put_ValidationRequests (<[id := set_completed true req]> s.(ValidationRequests))
        (refreshed (block_number w) req.(request_agent_id)
          (put_ValidationResponses (<[(id, resp.(validator)) := resp]> s.(ValidationResponses)) s))) w'
| move_unrequest id req r w' :
    s.(ValidationRequests) !! id = Some req → o = Signed req.(requester) →
    req.(completed) = false → req.(deadline) ≤ block_number w →
    unreserve req.(requester) (saturating_add U128_MAX ValidationRequestDeposit req.(reward)) w = (r, w') →
    agent_move o s w
      (put_ValidationRequests (delete id s.(ValidationRequests))
      (put_AgentValidations
        (alter (swap_remove_first id) req.(request_agent_id) s.(AgentValidations)) s)) w'
| move_escrow x w' :
    o = Signed x.(escrow_client) → is_Some (s.(Agents) !! x.(escrow_agent_id)) →
    x.(status) = EscrowActive → fits U128_MAX x.(amount) →
    reserve x.(escrow_client) x.(amount) w = Ok (tt, w') →
    s.(NextEscrowId) + 1 ≤ U64_MAX →
    agent_move o s w
      (put_NextEscrowId (s.(NextEscrowId) + 1) (put_Escrows (<[s.(NextEscrowId) := x]> s.(Escrows)) s)) w'
| move_claim id x a r w1 w' :
    s.(Escrows) !! id = Some x → s.(Agents) !! x.(escrow_agent_id) = Some a → o = Signed a.(owner) →
    claimable x (block_number w) →
    unreserve x.(escrow_client) x.(amount) w = (r, w1) →
    transfer x.(escrow_client) a.(owner) x.(amount) KeepAlive w1 = Ok (tt, w') →
    agent_move o s w (put_Escrows (delete id s.(Escrows)) s) w'
| move_unescrow id x r w' :
    s.(Escrows) !! id = Some x →
    (o = Signed x.(escrow_client) ∧ x.(timeout) ≤ block_number w) ∨
    (DisputeResolverOrigin o = true ∧ x.(status) = Disputed) →
    unreserve x.(escrow_client) x.(amount) w = (r, w') →
    agent_move o s w (put_Escrows (delete id s.(Escrows)) s) w'
| move_dispute_escrow id x st :
    s.(Escrows) !! id = Some x →
    (o = Signed x.(escrow_client) ∧ x.(status) ∈ [EscrowActive; AutoCompleted] ∧ st = Disputed) ∨
    (DisputeResolverOrigin o = true ∧ x.(status) = Disputed ∧ st = Resolved) →
    agent_move o s w (put_Escrows (<[id := set_status st x]> s.(Escrows)) s) w
| move_dispute id f a d w' :
    s.(Feedbacks) !! id = Some f → f.(revoked) = false →
    s.(Agents) !! f.(agent_id) = Some a → o = Signed a.(owner) →
    d.(feedback_id) = id → d.(disputer) = a.(owner) → d.(dispute_status) = Open →
    reserve a.(owner) DisputeDeposit w = Ok (tt, w') →
    s.(NextDisputeId) + 1 ≤ U64_MAX →
    Z.of_nat (length (disputes_of s id)) < MaxDisputesPerFeedback →
    agent_move o s w
      (put_FeedbackDisputes (<[id := disputes_of s id ++ [s.(NextDisputeId)]]> s.(FeedbackDisputes))
      (put_NextDisputeId (s.(NextDisputeId) + 1)
      (put_Disputes (<[s.(NextDisputeId) := d]> s.(Disputes)) s))) w'
| move_resolve id d st :
    DisputeResolverOrigin o = true → s.(Disputes) !! id = Some d → d.(dispute_status) = Open →
    st ≠ ResolvedForDisputer ∨ s.(Feedbacks) !! d.(feedback_id) = None →
    agent_move o s w
      (put_Disputes (<[id := set_dispute_status st (Some (block_number w)) d]> s.(Disputes)) s) w
| move_resolve_for id d f r w' :
    DisputeResolverOrigin o = true → s.(Disputes) !! id = Some d → d.(dispute_status) = Open →
    s.(Feedbacks) !! d.(feedback_id) = Some f →
    unreserve d.(disputer) DisputeDeposit w = (r, w') →
    agent_move o s w
      (refreshed (block_number w) f.(agent_id)
        (put_Feedbacks (<[d.(feedback_id) := set_revoked true f]> s.(Feedbacks))
        (put_Disputes
          (<[id := set_dispute_status ResolvedForDisputer (Some (block_number w)) d]> s.(Disputes)) s))) w'
| move_whitelist m :
    ValidatorManagerOrigin o = true → agent_move o s w (put_ValidatorWhitelist m s) w.

Abbreviation moved_by o e e' := (agent_move o (store e) (world e) (store e') (world e')).

Lemma metadata_loop id l e u e' :
  for_each l (insert_metadata id) e = Ok (u, e') →
  ∃ md, metadata_of id (store e).(AgentMetadata) md ∧
    e' = mkEnv (put_AgentMetadata md (store e)) (world e) (events e).
Proof.
  intros Hl. pattern e'. eapply for_each_inv; [| |exact Hl].
  - intros [k v] e1 e2 _ (md & Hmd & ->) Hi. unfold insert_metadata in Hi. ainv.
    eexists. split; [|done]. intros [j k'] Hj. simpl in *.
    rewrite lookup_insert_ne by congruence. by apply Hmd.
  - exists (store e).(AgentMetadata). split; [done|]. by destruct e as [[]].
Qed.

Lemma register_agent_move o uri md e u e' : register_agent o uri md e = Ok (u, e') → moved_by o e e'.
Proof.
  unfold register_agent. intros Hr. ainv.
  match goal with H : for_each _ _ _ = _ |- _ => apply metadata_loop in H as (md' & Hmd & ->) end.
  ainv. econstructor; eauto.
Qed.

Lemma update_metadata_move o id k v e u e' : update_metadata o id k v e = Ok (u, e') → moved_by o e e'.
Proof.
  unfold update_metadata. intros Hr. destruct v as [v|]; ainv; econstructor; eauto; intros [j k'] Hj; simpl in *.
  - by rewrite lookup_insert_ne by congruence.
  - by rewrite lookup_delete_ne by congruence.
Qed.

Lemma transfer_agent_move o id new e u e' : transfer_agent o id new e = Ok (u, e') → moved_by o e e'.
Proof. unfold transfer_agent. intros Hr. ainv. econstructor; eauto. Qed.

Lemma authorize_feedback_move o id c limit blocks e u e' :
  authorize_feedback o id c limit blocks e = Ok (u, e') → moved_by o e e'.
Proof. unfold authorize_feedback. intros Hr. ainv. econstructor; eauto. Qed.

Lemma revoke_authorization_move o id c e u e' :
  revoke_authorization o id c e = Ok (u, e') → moved_by o e e'.
Proof. unfold revoke_authorization. intros Hr. ainv. econstructor; eauto. Qed.

Lemma store_feedback_ok f now e id e' :
  store_feedback f.(agent_id) f.(client) f now e = Ok (id, e') → now = f.(created_at) →
  (store e).(NextFeedbackId) + 1 ≤ U64_MAX ∧
  Z.of_nat (length (feedbacks_of (store e) f.(agent_id))) < MaxFeedbacksPerAgent ∧
  Z.of_nat (length (given_by (store e) f.(client))) < MaxFeedbacksPerClient ∧
  e' = mkEnv (feedback_stored f (store e)) (world e) (events e).
Proof.
  unfold store_feedback, checked_add. intros Hr ->. ainv.
  destruct (Z.leb_spec (default 0 ((store e).(FeedbackIndices) !! (f.(agent_id), f.(client))) + 1) U32_MAX);
    by simplify_eq/=.
Qed.

Lemma give_feedback_move o id sc tags uri h e u e' :
  fits U8_MAX sc → give_feedback o id sc tags uri h e = Ok (u, e') → moved_by o e e'.
Proof.
  unfold give_feedback, verify_feedback_authorization, check_feedback_rate_limit. intros [Hsc _] Hr. ainv.
  match goal with H : store_feedback ?a ?c ?f ?n _ = _ |- _ =>
    change (store_feedback f.(agent_id) f.(client) f n) with (store_feedback a c f n) in H;
    apply (store_feedback_ok f) in H as (? & ? & ? & ->); [|done] end.
  ainv. eapply (move_feedback _ _ _ (mkFeedbackInfo _ _ _ _ _ _ _ _)); eauto; simpl.
  intros t Ht. apply Z.leb_le. eauto.
Qed.

Lemma revoke_feedback_move o id e u e' : revoke_feedback o id e = Ok (u, e') → moved_by o e e'.
Proof. unfold revoke_feedback. intros Hr. ainv. econstructor; eauto. Qed.

Lemma append_response_move o id uri h e u e' :
  append_response o id uri h e = Ok (u, e') → moved_by o e e'.
Proof. unfold append_response. intros Hr. ainv. econstructor; eauto. Qed.

Lemma register_validator_move o v e u e' :
  fits U128_MAX v → register_validator o v e = Ok (u, e') → moved_by o e e'.
Proof.
  unfold register_validator. intros Hv Hr. ainv.
  match goal with H : when _ _ _ = _ |- _ => apply when_ok in H as [[_ H]|[_ ->]]; ainv end;
    econstructor; eauto.
Qed.

Lemma unregister_validator_move o e u e' : unregister_validator o e = Ok (u, e') → moved_by o e e'.
Proof. unfold unregister_validator. intros Hr. ainv. econstructor; eauto. Qed.

Lemma request_validation_move o id v e u e' :
  fits U128_MAX v → request_validation o id v e = Ok (u, e') → moved_by o e e'.
Proof. unfold request_validation. intros Hv Hr. ainv. econstructor; eauto. Qed.

Lemma alter_Some {K V} `{Countable K} (f : V → V) (m : gmap K V) k v :
  m !! k = Some v → alter f k m = <[k := f v]> m.
Proof.
  intros Hk. apply map_eq. intros j. destruct (decide (j = k)) as [->|Hne].
  - by rewrite lookup_alter_eq, lookup_insert_eq, Hk.
  - by rewrite lookup_alter_ne, lookup_insert_ne by done.
Qed.

Lemma when_calls_ok {A} b (f : W → result DispatchError (A * W)) e u e' :
  when b (calls f ;; mret tt) e = Ok (u, e') →
  ∃ w', (if b then ∃ r, f (world e) = Ok (r, w') else w' = world e) ∧
    e' = mkEnv (store e) w' (events e).
Proof.
  intros Hr. apply when_ok in Hr as [[-> Hr]|[-> ->]]; einv; eauto. eexists. by destruct e.
Qed.

Lemma submit_validation_move o id sc uri h tags e u e' :
  fits U8_MAX sc → submit_validation o id sc uri h tags e = Ok (u, e') → moved_by o e e'.
Proof.
  unfold submit_validation. intros [Hsc _] Hr. ainv.
  match goal with H : when _ _ _ = _ |- _ => apply when_calls_ok in H as (w' & Hpay & ->) end.
  ainv. erewrite alter_Some by eassumption.
  by eapply (move_submit _ _ _ id _ _ (mkValidationResponse _ _ _ _ _ _ _)).
Qed.

Lemma cancel_validation_request_move o id e u e' :
  cancel_validation_request o id e = Ok (u, e') → moved_by o e e'.
Proof. unfold cancel_validation_request. intros Hr. ainv. by econstructor. Qed.

(** *** Escrows and disputes *)

Lemma create_escrow_move o id v t blocks e u e' :
  fits U128_MAX v → create_escrow o id v t blocks e = Ok (u, e') → moved_by o e e'.
Proof. unfold create_escrow. intros Hv Hr. ainv. by eapply (move_escrow _ _ _ (mkEscrowInfo _ _ _ _ _ _ _)). Qed.

Lemma claim_escrow_move o id e u e' : claim_escrow o id e = Ok (u, e') → moved_by o e e'.
Proof.
  unfold claim_escrow, auto_complete. intros Hr. ainv.
  match goal with H : Escrows _ !! id = Some ?y |- _ => rename y into esc end.
  destruct (bool_decide (status esc = EscrowActive)) eqn:Hs; ainv.
  - rewrite delete_insert_eq. change (put_Escrows ?x (put_Escrows _ ?s)) with (put_Escrows x s).
    eapply move_claim; eauto. unfold claimable. by rewrite Hs.
  - eapply move_claim; eauto. unfold claimable. destruct (status esc); done.
Qed.

Lemma cancel_escrow_move o id e u e' : cancel_escrow o id e = Ok (u, e') → moved_by o e e'.
Proof. unfold cancel_escrow. intros Hr. ainv. eapply move_unescrow; eauto. Qed.

Lemma dispute_escrow_move o id e u e' : dispute_escrow o id e = Ok (u, e') → moved_by o e e'.
Proof.
  unfold dispute_escrow. intros Hr. ainv. eapply move_dispute_escrow; [done|].
  left. split_and!; [done| |done].
  match goal with H : _ || _ = true |- _ => apply orb_true_iff in H as [H|H]; bool_facts; rewrite H end;
    set_solver.
Qed.

Lemma resolve_escrow_dispute_move o id b e u e' :
  resolve_escrow_dispute o id b e = Ok (u, e') → moved_by o e e'.
Proof.
  unfold resolve_escrow_dispute. intros Hr. destruct b; ainv.
  - eapply move_unescrow; eauto.
  - eapply move_dispute_escrow; eauto.
Qed.

Lemma dispute_feedback_move o id uri h e u e' :
  dispute_feedback o id uri h e = Ok (u, e') → moved_by o e e'.
Proof.
  unfold dispute_feedback. intros Hr. ainv.
  by eapply (move_dispute _ _ _ id _ _ (mkDisputeInfo _ _ _ _ _ _ _)).
Qed.

Lemma resolve_dispute_move o id st e u e' : resolve_dispute o id st e = Ok (u, e') → moved_by o e e'.
Proof.
  unfold resolve_dispute. intros Hr. destruct st; ainv; try (eapply move_resolve; eauto; by left).
  destruct (Feedbacks (store e) !! _) as [f|] eqn:Hf; ainv.
  - by eapply move_resolve_for.
  - eapply move_resolve; eauto.
Qed.

Lemma add_validator_to_whitelist_move o v e u e' :
  add_validator_to_whitelist o v e = Ok (u, e') → moved_by o e e'.
Proof. unfold add_validator_to_whitelist. intros Hr. ainv. by constructor. Qed.

Lemma remove_validator_from_whitelist_move o v e u e' :
  remove_validator_from_whitelist o v e = Ok (u, e') → moved_by o e e'.
Proof. unfold remove_validator_from_whitelist. intros Hr. ainv. by constructor. Qed.

#[local] Hint Resolve register_agent_move update_metadata_move transfer_agent_move
  authorize_feedback_move revoke_authorization_move give_feedback_move revoke_feedback_move
  append_response_move register_validator_move unregister_validator_move request_validation_move
  submit_validation_move cancel_validation_request_move create_escrow_move claim_escrow_move
  cancel_escrow_move dispute_escrow_move resolve_escrow_dispute_move dispute_feedback_move
  resolve_dispute_move add_validator_to_whitelist_move remove_validator_from_whitelist_move : moves.

(** The arguments have the width of their types. *)
Definition agent_call_typed (c : Call) : Prop :=
  match c with
  | Give_feedback _ sc _ _ _ | Submit_validation _ sc _ _ _ => fits U8_MAX sc
  | Register_validator v | Request_validation _ v | Create_escrow _ v _ _ => fits U128_MAX v
  | Authorize_feedback _ _ limit _ => fits U32_MAX limit
  | _ => True
  end.

(** Every successful call is one of the moves. *)
Lemma agent_dispatch_move o c e u e' :
  agent_call_typed c → agent_dispatch o c e = Ok (u, e') → moved_by o e e'.
Proof. destruct c; simpl; eauto with moves. Qed.
End moves.
