(* ===== verification/TrustlessAgentInv.v ===== *)
(** * pallet-trustless-agent: the registries

    The storage items that list what belongs to an agent, an owner, a client or
    a feedback agree with the registries themselves; feedback is backed by an
    authorization; responses belong to completed requests; and the stored
    reputation is the one the registries give.  Every move keeps this. *)

From stdpp Require Import relations.
From S2P Require Import Prelude Arith Errors Frame TrustlessAgent TrustlessAgentSpec.

(** ** Indexes *)

(** [v.swap_remove(pos)] removes one element and keeps the others, in another
    order. *)
Lemma swap_remove_Permutation x l : x ∈ l → l ≡ₚ x :: swap_remove_first x l.
Proof.
  intros Hx. unfold swap_remove_first.
  destruct (list_find (λ y, y = x) l) as [[pos y]|] eqn:Hf.
  2:{ apply list_find_None in Hf. rewrite Forall_forall in Hf. by destruct (Hf x Hx). }
  apply list_find_Some in Hf as (Hpos & -> & _). clear Hx.
  destruct l as [|z l' _] using rev_ind; [done|].
  rewrite last_snoc, length_app. simpl.
  replace (length l' + 1 - 1)%nat with (length l') by lia.
  destruct (decide (pos < length l')%nat) as [Hlt|Hge].
  - rewrite insert_app_l, take_app_le by (rewrite ?length_insert; lia).
    rewrite take_ge by (rewrite length_insert; lia). rewrite lookup_app_l in Hpos by done.
    apply list_elem_of_split_length in Hpos as (l1 & l2 & -> & ->).
    rewrite insert_app_r_alt by done. rewrite Nat.sub_diag. simpl.
    rewrite <- app_assoc. simpl. rewrite <- Permutation_middle.
    apply perm_skip, Permutation_app_head. symmetry. apply Permutation_cons_append.
  - pose proof (lookup_lt_Some _ _ _ Hpos) as Hlen. rewrite length_app in Hlen. simpl in Hlen.
    assert (pos = length l') as -> by lia. rewrite list_lookup_middle in Hpos by done.
    injection Hpos as ->. rewrite list_insert_id by by rewrite list_lookup_middle.
    rewrite take_app_length. by rewrite <- Permutation_cons_append.
Qed.

Section index.
Context {V K : Type} `{Countable K} (key : V → K).
Implicit Types (m : gmap Z V) (ix : gmap K (list Z)) (v : V) (k : K).

Definition listed ix k : list Z := default [] (ix !! k).

(** [ix] lists under every key exactly the entries of [m] with that key, each
    once and at most [bound] of them; the numbers from [next] on are free. *)
Record indexed (bound next : Z) m ix : Prop := {
  ix_elem : ∀ k id, id ∈ listed ix k ↔ ∃ v, m !! id = Some v ∧ key v = k;
  ix_nodup : ∀ k, NoDup (listed ix k);
  ix_bound : ∀ k, Z.of_nat (length (listed ix k)) ≤ bound;
  ix_next : ∀ id, is_Some (m !! id) → id < next;
}.

Lemma listed_insert ix k l k' :
  listed (<[k := l]> ix) k' = if decide (k' = k) then l else listed ix k'.
Proof.
  unfold listed. destruct (decide (k' = k)) as [->|Hne].
  - by rewrite lookup_insert_eq.
  - by rewrite lookup_insert_ne by done.
Qed.

Lemma listed_alter f ix k k' :
  f [] = [] → listed (alter f k ix) k' = if decide (k' = k) then f (listed ix k) else listed ix k'.
Proof.
  intros Hf. unfold listed. destruct (decide (k' = k)) as [->|Hne].
  - rewrite lookup_alter_eq. by destruct (ix !! k).
  - by rewrite lookup_alter_ne by done.
Qed.

Lemma indexed_empty bound : 0 ≤ bound → indexed bound 0 ∅ ∅.
Proof.
  intros Hb. split; unfold listed; intros; rewrite ?lookup_empty in *; simpl.
  - set_solver.
  - constructor.
  - lia.
  - by destruct H0.
Qed.

Lemma indexed_fresh bound next m ix : indexed bound next m ix → m !! next = None.
Proof.
  intros Hi. apply eq_None_not_Some. intros Hs. apply (ix_next _ _ _ _ Hi) in Hs. lia.
Qed.

Lemma indexed_push bound next m ix v :
  indexed bound next m ix → Z.of_nat (length (listed ix (key v))) < bound →
  indexed bound (next + 1) (<[next := v]> m) (<[key v := listed ix (key v) ++ [next]]> ix).
Proof.
  intros Hi Hlen. pose proof (indexed_fresh _ _ _ _ Hi) as Hf. destruct Hi as [He Hn Hb Hx].
  assert (∀ k, next ∉ listed ix k) as Hout by (intros k (w & Hw & _)%He; congruence).
  split.
  - intros k id. rewrite listed_insert. setoid_rewrite lookup_insert_Some.
    destruct (decide (k = key v)) as [->|Hk].
    + rewrite elem_of_app, list_elem_of_singleton, He. destruct (decide (id = next)); naive_solver.
    + rewrite He. destruct (decide (id = next)); naive_solver.
  - intros k. rewrite listed_insert. case_decide; [|done]. apply NoDup_app.
    split_and!; [done| |apply NoDup_singleton].
    intros id Hin ->%list_elem_of_singleton. by eapply Hout.
  - intros k. rewrite listed_insert. case_decide; [|done]. rewrite length_app. simpl. lia.
  - intros id [w Hw]. apply lookup_insert_Some in Hw as [[<- _]|[_ Hw]]; [lia|].
    pose proof (Hx id (mk_is_Some _ _ Hw)). lia.
Qed.

Lemma indexed_update bound next m ix id v v' :
  indexed bound next m ix → m !! id = Some v → key v' = key v → indexed bound next (<[id := v']> m) ix.
Proof.
  intros [He Hn Hb Hx] Hid Hk. split; try done.
  - intros k i. rewrite He. setoid_rewrite lookup_insert_Some.
    destruct (decide (i = id)) as [->|]; naive_solver.
  - intros i [w Hw]. apply lookup_insert_Some in Hw as [[<- _]|[_ Hw]]; eauto.
Qed.

(** Removing an entry from the registry and its number from the list. *)
Lemma indexed_remove bound next m ix f id v :
  indexed bound next m ix → m !! id = Some v → f [] = [] →
  (∀ l, NoDup l → id ∈ l → l ≡ₚ id :: f l) →
  indexed bound next (delete id m) (alter f (key v) ix).
Proof.
  intros [He Hn Hb Hx] Hid Hf0 Hf.
  assert (listed ix (key v) ≡ₚ id :: f (listed ix (key v))) as Hp by (apply Hf; [done|apply He; eauto]).
  pose proof (Hn (key v)) as Hnd. rewrite Hp in Hnd. apply NoDup_cons in Hnd as [Hni Hnd].
  split.
  - intros k i. rewrite listed_alter by done. setoid_rewrite lookup_delete_Some.
    destruct (decide (k = key v)) as [->|Hk].
    + pose proof (He (key v) i) as Hei. rewrite Hp, elem_of_cons in Hei.
      destruct (decide (i = id)); naive_solver.
    + rewrite He. naive_solver.
  - intros k. rewrite listed_alter by done. by case_decide.
  - intros k. rewrite listed_alter by done. case_decide; [|done].
    specialize (Hb (key v)). rewrite Hp in Hb. simpl in Hb. lia.
  - intros i [w Hw]. apply lookup_delete_Some in Hw as [_ Hw]. eauto.
Qed.

(** Giving an entry another key. *)
Lemma indexed_rekey bound next m ix f id v v' :
  indexed bound next m ix → m !! id = Some v → f [] = [] →
  (∀ l, NoDup l → id ∈ l → l ≡ₚ id :: f l) →
  let ix1 := alter f (key v) ix in
  Z.of_nat (length (listed ix1 (key v'))) < bound →
  indexed bound next (<[id := v']> m) (<[key v' := listed ix1 (key v') ++ [id]]> ix1).
Proof.
  intros Hi Hid Hf0 Hf ix1 Hlen. pose proof (ix_next _ _ _ _ Hi id (mk_is_Some _ _ Hid)) as Hlt.
  destruct (indexed_remove _ _ _ _ f _ _ Hi Hid Hf0 Hf) as [He Hn Hb Hx]. fold ix1 in He, Hn, Hb.
  assert (∀ k, id ∉ listed ix1 k) as Hout.
  { intros k (w & Hw & _)%He. by rewrite lookup_delete_eq in Hw. }
  split.
  - intros k i. rewrite listed_insert. setoid_rewrite lookup_insert_Some.
    setoid_rewrite lookup_delete_Some in He. destruct (decide (k = key v')) as [->|Hk].
    + rewrite elem_of_app, list_elem_of_singleton, He. destruct (decide (i = id)); naive_solver.
    + rewrite He. destruct (decide (i = id)); naive_solver.
  - intros k. rewrite listed_insert. case_decide; [|done]. apply NoDup_app.
    split_and!; [done| |apply NoDup_singleton].
    intros i Hin ->%list_elem_of_singleton. by eapply Hout.
  - intros k. rewrite listed_insert. case_decide; [|done]. rewrite length_app. simpl. lia.
  - intros i [w Hw]. apply lookup_insert_Some in Hw as [[<- _]|[Hne Hw]]; [done|].
    apply Hx. exists w. by rewrite lookup_delete_ne.
Qed.
End index.

Lemma filter_ne_id (x : Z) (l : list Z) : x ∉ l → filter (λ y, y ≠ x) l = l.
Proof.
  induction l as [|y l IH]; [done|]. rewrite not_elem_of_cons. intros [Hy Hl].
  rewrite filter_cons, decide_True by done. by rewrite IH.
Qed.

Lemma filter_ne_Permutation (x : Z) (l : list Z) : NoDup l → x ∈ l → l ≡ₚ x :: filter (λ y, y ≠ x) l.
Proof.
  intros Hn Hx. induction l as [|y l IH]; [by apply not_elem_of_nil in Hx|].
  apply NoDup_cons in Hn as [Hy Hn]. rewrite filter_cons.
  apply elem_of_cons in Hx as [<-|Hx].
  - rewrite decide_False by tauto. by rewrite filter_ne_id.
  - rewrite decide_True by (by intros ->). rewrite IH at 1 by done. apply perm_swap.
Qed.

(** ** The indexes agree with the registries *)

Record indexes_wf (s : State) : Prop := {
  iw_agents : indexed owner MaxAgentsPerOwner s.(NextAgentId) s.(Agents) s.(AgentsByOwner);
  iw_feedbacks :
    indexed agent_id MaxFeedbacksPerAgent s.(NextFeedbackId) s.(Feedbacks) s.(AgentFeedbacks);
  iw_clients :
    indexed client MaxFeedbacksPerClient s.(NextFeedbackId) s.(Feedbacks) s.(ClientFeedbacks);
  iw_requests :
    indexed request_agent_id MaxValidationsPerAgent s.(NextRequestId) s.(ValidationRequests)
      s.(AgentValidations);
  iw_disputes :
    indexed feedback_id MaxDisputesPerFeedback s.(NextDisputeId) s.(Disputes) s.(FeedbackDisputes);
  iw_escrow_next : ∀ id, is_Some (s.(Escrows) !! id) → id < s.(NextEscrowId);
  iw_escrow_agent : ∀ id x, s.(Escrows) !! id = Some x → is_Some (s.(Agents) !! x.(escrow_agent_id));
  iw_feedback_agent : ∀ id f, s.(Feedbacks) !! id = Some f → is_Some (s.(Agents) !! f.(agent_id));
}.

Create HintDb index.

Lemma is_Some_insert {K V} `{Countable K} (m : gmap K V) k v j :
  is_Some (m !! j) → is_Some (<[k := v]> m !! j).
Proof. intros Hj. rewrite lookup_insert. by case_decide. Qed.

(** What holds of every entry of a map still does after an insertion or a
    removal. *)
Ltac entries :=
  repeat match goal with
  | H : is_Some (<[_ := _]> _ !! _) |- _ => destruct H as [? H]
  | H : is_Some (delete _ _ !! _) |- _ => destruct H as [? H]
  | H : <[_ := _]> _ !! _ = Some _ |- _ => apply lookup_insert_Some in H as [[<- <-]|[? H]]
  | H : delete _ _ !! _ = Some _ |- _ => apply lookup_delete_Some in H as [? H]
  end.

#[export] Hint Resolve indexed_update is_Some_insert mk_is_Some : index.
#[export] Hint Resolve filter_ne_Permutation swap_remove_Permutation : index.

Section registries.
Context {W : Type} `{!System W, !Currency W, !ReservableCurrency W} {T : Config}.
Implicit Types (s : State) (w : W).

Lemma move_indexes o s w s' w' : indexes_wf s → agent_move o s w s' w' → indexes_wf s'.
Proof.
  intros [Ha Hf Hc Hr Hd Hen Hea Hfa] Hm.
  destruct Hm; split; simpl; try done; try solve [intros; entries; simpl; eauto with index].
  - by refine (indexed_push _ _ _ _ _ _ Ha _).
  - by refine (indexed_rekey _ _ _ _ _ _ _ _ _ Ha _ _ _ _); eauto with index.
  - by refine (indexed_push _ _ _ _ _ _ Hf _).
  - by refine (indexed_push _ _ _ _ _ _ Hc _).
  - by refine (indexed_push _ _ _ _ _ _ Hr _).
  - by refine (indexed_remove _ _ _ _ _ _ _ _ Hr _ _ _); eauto with index.
  - intros. entries; [lia|]. apply Z.lt_lt_succ_r. eauto with index.
  - subst. by refine (indexed_push _ _ _ _ _ _ Hd _).
Qed.

(** ** Feedback is authorized *)

(** The blocks at which a client gave feedback to an agent, in the order in
    which it was given. *)
Definition feedback_times s (a : Z) (c : AccountId) : list BlockNumber :=
  (λ kv, kv.2.(created_at)) <$> get_feedbacks_by_client s a c.

Record feedback_wf s : Prop := {
  fw_scores : ∀ id f, s.(Feedbacks) !! id = Some f → 0 ≤ f.(score) ≤ 100;
  fw_auth_next : ∀ n, is_Some (s.(FeedbackAuthorizations) !! n) → n < s.(NextAuthorizationId);
  fw_count : ∀ a c, feedback_index s a c = Z.of_nat (length (feedback_times s a c));
  fw_limit : ∀ a c, 0 < feedback_index s a c →
    ∃ n auth, s.(AgentClientAuthorizations) !! (a, c) = Some n ∧
      s.(FeedbackAuthorizations) !! n = Some auth ∧
      auth.(auth_agent_id) = a ∧ auth.(auth_client) = c ∧
      feedback_index s a c ≤ auth.(index_limit);
  fw_auth : ∀ a c n, s.(AgentClientAuthorizations) !! (a, c) = Some n →
    ∃ auth, s.(FeedbackAuthorizations) !! n = Some auth ∧
      auth.(auth_agent_id) = a ∧ auth.(auth_client) = c;
  fw_last : ∀ a c, s.(LastFeedbackTimestamp) !! (a, c) = last (feedback_times s a c);
  fw_spaced : ∀ a c, Sorted (λ t t', t + FeedbackRateLimitBlocks ≤ t') (feedback_times s a c);
}.

(** The block of a feedback, if the client gave it. *)
Definition time_of (m : gmap Z FeedbackInfo) (c : AccountId) (id : Z) : option BlockNumber :=
  match m !! id with
  | Some f => if decide (f.(client) = c) then Some f.(created_at) else None
  | None => None
  end.

Lemma feedback_times_ids s a c :
  feedback_times s a c = omap (time_of s.(Feedbacks) c) (feedbacks_of s a).
Proof.
  unfold feedback_times, get_feedbacks_by_client, feedbacks_of, time_of.
  induction (default [] (AgentFeedbacks s !! a)) as [|id ids IH]; [done|]. simpl.
  destruct (Feedbacks s !! id) as [f|]; simpl; [|done].
  rewrite filter_cons. simpl. case_decide; simpl; [by f_equal|done].
Qed.

Lemma feedback_times_same s s' a c :
  s'.(AgentFeedbacks) = s.(AgentFeedbacks) →
  (∀ id, time_of s'.(Feedbacks) c id = time_of s.(Feedbacks) c id) →
  feedback_times s' a c = feedback_times s a c.
Proof.
  intros Ha Ht. rewrite !feedback_times_ids. unfold feedbacks_of. rewrite Ha.
  induction (default [] _) as [|id ids IH]; [done|]. csimpl. by rewrite Ht, IH.
Qed.

Lemma time_of_update m c id f id' :
  m !! id = Some f → time_of (<[id := set_revoked true f]> m) c id' = time_of m c id'.
Proof.
  intros Hf. unfold time_of. rewrite lookup_insert. case_decide; [subst; by rewrite Hf|done].
Qed.

Lemma feedback_times_stored s f a c :
  indexes_wf s →
  feedback_times (feedback_stored f s) a c =
  feedback_times s a c ++ (if decide ((a, c) = (f.(agent_id), f.(client))) then [f.(created_at)] else []).
Proof.
  intros Hs. pose proof (indexed_fresh _ _ _ _ _ (iw_feedbacks _ Hs)) as Hn.
  assert (∀ l : list Z, s.(NextFeedbackId) ∉ l →
    omap (time_of (<[s.(NextFeedbackId) := f]> s.(Feedbacks)) c) l = omap (time_of s.(Feedbacks) c) l) as Hold.
  { intros l Hl. induction l as [|id l IH]; [done|]. apply not_elem_of_cons in Hl as [Hid Hl]. csimpl.
    unfold time_of at 1. rewrite lookup_insert_ne by done. fold (time_of s.(Feedbacks) c id). by rewrite IH. }
  assert (s.(NextFeedbackId) ∉ feedbacks_of s a) as Hout.
  { intros (g & Hg & _)%(ix_elem _ _ _ _ _ (iw_feedbacks _ Hs)). congruence. }
  rewrite !feedback_times_ids.
  change (feedbacks_of (feedback_stored f s) a) with
    (listed (<[f.(agent_id) := feedbacks_of s f.(agent_id) ++ [s.(NextFeedbackId)]]> s.(AgentFeedbacks)) a).
  rewrite listed_insert. simpl. destruct (decide (a = f.(agent_id))) as [->|Hne].
  - rewrite omap_app, Hold by done. simpl. unfold time_of at 2. rewrite lookup_insert_eq.
    f_equal. destruct (decide (client f = c)) as [->|]; [by rewrite decide_True|].
    by rewrite decide_False by congruence.
  - rewrite decide_False, app_nil_r by congruence. by apply Hold.
Qed.

Lemma feedback_wf_same s s' :
  (∀ id f, s'.(Feedbacks) !! id = Some f → 0 ≤ f.(score) ≤ 100) →
  (∀ a c, feedback_times s' a c = feedback_times s a c) →
  s'.(FeedbackAuthorizations) = s.(FeedbackAuthorizations) →
  s'.(NextAuthorizationId) = s.(NextAuthorizationId) →
  s'.(AgentClientAuthorizations) = s.(AgentClientAuthorizations) →
  s'.(FeedbackIndices) = s.(FeedbackIndices) →
  s'.(LastFeedbackTimestamp) = s.(LastFeedbackTimestamp) →
  feedback_wf s → feedback_wf s'.
Proof.
  intros Hsc Ht Hfa Hn Haca Hfi Hl [H1 H2 H3 H4 H5 H6 H7].
  assert (∀ a c, feedback_index s' a c = feedback_index s a c) as Hi
    by (intros; unfold feedback_index; by rewrite Hfi).
  split; try done; rewrite ?Hfa, ?Hn, ?Haca, ?Hl; try done; intros a c.
  - by rewrite Hi, Ht.
  - rewrite Hi. apply H4.
  - by rewrite Ht.
  - by rewrite Ht.
Qed.

Lemma revoked_feedback_wf s id f :
  feedback_wf s → s.(Feedbacks) !! id = Some f →
  feedback_wf (put_Feedbacks (<[id := set_revoked true f]> s.(Feedbacks)) s).
Proof.
  intros Hs Hf. apply (feedback_wf_same s); try done.
  - pose proof (fw_scores _ Hs) as Hsc. intros. simpl in *. entries; [|eauto]. by eapply Hsc in Hf.
  - intros. apply feedback_times_same; [done|]. intros. by apply time_of_update.
Qed.

Lemma authorized_feedback_wf s id c limit expiry now :
  feedback_wf s → s.(AgentClientAuthorizations) !! (id, c) = None →
  feedback_wf
    (put_NextAuthorizationId (s.(NextAuthorizationId) + 1)
    (put_AgentClientAuthorizations
      (<[(id, c) := s.(NextAuthorizationId)]> s.(AgentClientAuthorizations))
    (put_FeedbackAuthorizations
      (<[s.(NextAuthorizationId) := mkFeedbackAuthorization id c limit expiry now false]>
        s.(FeedbackAuthorizations)) s))).
Proof.
  intros [H1 H2 H3 H4 H5 H6 H7] Hn.
  assert (∀ n x, s.(FeedbackAuthorizations) !! n = Some x → s.(NextAuthorizationId) ≠ n) as Hne.
  { intros n x Hx <-. specialize (H2 _ (mk_is_Some _ _ Hx)). lia. }
  split; simpl; try done.
  - intros. entries; [lia|]. apply Z.lt_lt_succ_r. eauto with index.
  - intros a' c' Hi. destruct (H4 a' c' Hi) as (n & auth & Hac & Hau & Hx). exists n, auth.
    rewrite !lookup_insert_ne; [done|by eapply Hne|congruence].
  - intros a' c' n Hac. apply lookup_insert_Some in Hac as [[[= <- <-] <-]|[_ Hac]].
    + rewrite lookup_insert_eq. eauto.
    + destruct (H5 _ _ _ Hac) as (auth & Hau & Hx). exists auth.
      by rewrite lookup_insert_ne by by eapply Hne.
Qed.

Lemma unauthorized_feedback_wf s n auth :
  feedback_wf s → s.(FeedbackAuthorizations) !! n = Some auth →
  feedback_wf
    (put_FeedbackAuthorizations (<[n := set_auth_revoked true auth]> s.(FeedbackAuthorizations)) s).
Proof.
  intros [H1 H2 H3 H4 H5 H6 H7] Hn.
  assert (∀ k x, s.(FeedbackAuthorizations) !! k = Some x →
    ∃ x', <[n := set_auth_revoked true auth]> s.(FeedbackAuthorizations) !! k = Some x' ∧
      x'.(auth_agent_id) = x.(auth_agent_id) ∧ x'.(auth_client) = x.(auth_client) ∧
      x'.(index_limit) = x.(index_limit)) as Hup.
  { intros k x Hx. rewrite lookup_insert. case_decide; [subst k|eauto].
    assert (x = auth) as -> by congruence. eauto. }
  split; simpl; try done.
  - intros. entries; eauto with index.
  - intros a c Hi. destruct (H4 a c Hi) as (k & x & Hac & (x' & Hx' & Ea & Ec & El)%Hup & Hx).
    exists k, x'. by rewrite Ea, Ec, El.
  - intros a c k Hac. destruct (H5 _ _ _ Hac) as (x & (x' & Hx' & Ea & Ec & _)%Hup & Hx).
    exists x'. by rewrite Ea, Ec.
Qed.

Lemma given_feedback_wf s f n auth now :
  0 < FeedbackRateLimitBlocks → indexes_wf s → feedback_wf s →
  s.(AgentClientAuthorizations) !! (f.(agent_id), f.(client)) = Some n →
  s.(FeedbackAuthorizations) !! n = Some auth →
  feedback_index s f.(agent_id) f.(client) < auth.(index_limit) →
  (∀ t, s.(LastFeedbackTimestamp) !! (f.(agent_id), f.(client)) = Some t →
    FeedbackRateLimitBlocks ≤ saturating_sub now t) →
  0 ≤ f.(score) ≤ 100 → f.(created_at) = now → feedback_wf (feedback_stored f s).
Proof.
  intros Hrate Hix [H1 H2 H3 H4 H5 H6 H7] Hn Hau Hlim Hlast Hsc Hnow.
  assert (∀ a c, feedback_index (feedback_stored f s) a c =
    feedback_index s a c + if decide ((a, c) = (f.(agent_id), f.(client))) then 1 else 0) as Hi.
  { intros a c. unfold feedback_index. simpl. rewrite lookup_insert.
    case_decide as Hp; [injection Hp as <- <-|]; [by rewrite decide_True|].
    rewrite decide_False by congruence. lia. }
  split; try done.
  - intros. simpl in *. entries; eauto.
  - intros a c. rewrite Hi, feedback_times_stored, length_app, H3 by done. case_decide; simpl; lia.
  - intros a c. rewrite Hi. case_decide as Hp; [injection Hp as -> ->|].
    + intros _. exists n, auth. destruct (H5 _ _ _ Hn) as (x & Hx & Hxa & Hxc).
      assert (x = auth) as -> by congruence. split_and!; try done. lia.
    + rewrite Z.add_0_r. apply H4.
  - intros a c. rewrite feedback_times_stored by done. simpl. rewrite lookup_insert.
    case_decide as Hp; [injection Hp as <- <-|].
    + by rewrite decide_True, last_snoc.
    + by rewrite decide_False, app_nil_r by congruence.
  - intros a c. rewrite feedback_times_stored by done.
    case_decide as Hp; [injection Hp as -> ->|by rewrite app_nil_r].
    apply Sorted_snoc; [done|]. specialize (H6 f.(agent_id) f.(client)).
    destruct (feedback_times s _ _) as [|t l _] using rev_ind; [by constructor|].
    rewrite last_snoc in H6. constructor. specialize (Hlast _ H6).
    unfold saturating_sub in Hlast. lia.
Qed.

(** Nothing here depends on the stored reputations, or on the disputes. *)
Lemma refreshed_feedback_wf now id s : feedback_wf s → feedback_wf (refreshed now id s).
Proof. by intros []; split. Qed.

Lemma disputed_feedback_wf m s : feedback_wf s → feedback_wf (put_Disputes m s).
Proof. by intros []; split. Qed.

Lemma move_feedback_inv o s w s' w' :
  0 < FeedbackRateLimitBlocks → indexes_wf s → feedback_wf s → agent_move o s w s' w' → feedback_wf s'.
Proof.
  intros Hrate Hix Hs Hm. destruct Hm; try by (destruct Hs; split).
  - by apply authorized_feedback_wf.
  - by eapply unauthorized_feedback_wf.
  - by eapply refreshed_feedback_wf, given_feedback_wf.
  - by apply refreshed_feedback_wf, revoked_feedback_wf.
  - apply refreshed_feedback_wf. by refine (revoked_feedback_wf (put_Disputes _ s) _ _ _ _);
      [apply disputed_feedback_wf|].
Qed.

(** ** Responses belong to completed requests *)

Definition responses_wf s : Prop :=
  ∀ id v r, s.(ValidationResponses) !! (id, v) = Some r →
    r.(request_id) = id ∧ r.(validator) = v ∧ 0 ≤ r.(response_score) ≤ 100 ∧
    ∃ req, s.(ValidationRequests) !! id = Some req ∧ req.(completed) = true.

Lemma move_responses o s w s' w' :
  indexes_wf s → responses_wf s → agent_move o s w s' w' → responses_wf s'.
Proof.
  intros Hix Hs Hm. pose proof (indexed_fresh _ _ _ _ _ (iw_requests _ Hix)) as Hn.
  destruct Hm; try exact Hs; intros i v' r' Hr; simpl in *.
  - destruct (Hs _ _ _ Hr) as (Hi & Hv & Hsc & req & Hreq & Hc).
    repeat (split; [done|]). exists req. rewrite lookup_insert_ne; [done|congruence].
  - apply lookup_insert_Some in Hr as [[[= <- <-] <-]|[_ Hr]].
    + repeat (split; [done|]). exists (set_completed true req). by rewrite lookup_insert_eq.
    + destruct (Hs _ _ _ Hr) as (Hi & Hv & Hsc & req' & Hreq & Hc). repeat (split; [done|]).
      rewrite lookup_insert. case_decide; [by exists (set_completed true req)|eauto].
  - destruct (Hs _ _ _ Hr) as (Hi & Hv & Hsc & req' & Hreq & Hc).
    repeat (split; [done|]). exists req'. rewrite lookup_delete_ne; [done|congruence].
Qed.
End registries.
