(* ===== verification/TrustlessAgentReputation.v ===== *)
(** * pallet-trustless-agent: reputation

    [calculate_reputation] walks over the indexes of an agent with saturating
    arithmetic and clamps.  Here it is compared with the weighted means it is
    meant to be, taken over the registries themselves; and the reputation that
    is stored is shown to be kept up to date. *)

From S2P Require Import Prelude Arith Errors Frame TrustlessAgent TrustlessAgentSpec TrustlessAgentInv.

(** ** Sums over registries *)

Lemma map_sum_add {K V} `{Countable K} (f g : K → V → Z) (m : gmap K V) :
  map_sum (λ k v, f k v + g k v) m = map_sum f m + map_sum g m.
Proof.
  induction m as [|k v m Hk IH] using map_ind.
  - by rewrite !map_sum_empty.
  - rewrite !map_sum_insert_None by done. lia.
Qed.

(** A sum over a list of numbers is a sum over the registry, when the list has
    exactly the numbers of the entries that count, each once. *)
Lemma zsum_map_sum {V} (P : V → Prop) `{∀ v, Decision (P v)} (g : V → Z) (m : gmap Z V) l :
  NoDup l → (∀ id, id ∈ l ↔ ∃ v, m !! id = Some v ∧ P v) →
  zsum ((λ id, match m !! id with Some v => g v | None => 0 end) <$> l) =
  map_sum (λ _ v, if decide (P v) then g v else 0) m.
Proof.
  revert m. induction l as [|id l IH]; intros m Hn Hl; csimpl.
  - symmetry. apply map_sum_zero. intros k v Hk. case_decide; [|done].
    exfalso. apply (not_elem_of_nil k), Hl. eauto.
  - apply NoDup_cons in Hn as [Hid Hn]. destruct (proj1 (Hl id) (list_elem_of_here _ _)) as (v & Hv & Hp).
    rewrite Hv, (map_sum_delete _ m id v Hv), decide_True by done. simpl. f_equal.
    rewrite <- (IH (delete id m)); [|done|].
    + apply zsum_ext. intros i Hi. by rewrite lookup_delete_ne by (by intros ->).
    + intros i. setoid_rewrite lookup_delete_Some. specialize (Hl i). rewrite elem_of_cons in Hl.
      destruct (decide (i = id)) as [->|]; naive_solver.
Qed.

Lemma indexed_sum {V K} `{Countable K} (key : V → K) bound next m ix k (g : V → Z) :
  indexed key bound next m ix →
  zsum ((λ id, match m !! id with Some v => g v | None => 0 end) <$> listed ix k) =
  map_sum (λ _ v, if decide (key v = k) then g v else 0) m.
Proof.
  intros Hi. apply (zsum_map_sum (λ v, key v = k)); [apply Hi|]. intros id. apply (ix_elem _ _ _ _ _ Hi).
Qed.

(** ** The feedback score *)

Definition at_id {V} (m : gmap Z V) (g : V → Z) (id : Z) : Z :=
  match m !! id with Some v => g v | None => 0 end.

(** What one feedback contributes: nothing once it is revoked. *)
Definition feedback_weight (now : BlockNumber) (f : FeedbackInfo) : Z :=
  if f.(revoked) then 0 else decay_weight (saturating_sub now f.(created_at)).
Definition feedback_points (now : BlockNumber) (f : FeedbackInfo) : Z :=
  f.(score) * feedback_weight now f.
Definition feedback_tick (f : FeedbackInfo) : Z := if f.(revoked) then 0 else 1.

Lemma decay_weight_bounds age : 20 ≤ decay_weight age ≤ 100.
Proof. unfold decay_weight. repeat case_match; lia. Qed.

Section feedback.
Context (now : BlockNumber) (m : gmap Z FeedbackInfo).
Hypothesis scores : ∀ id f, m !! id = Some f → 0 ≤ f.(score) ≤ 100.

Lemma at_id_bounds (g : FeedbackInfo → Z) lo hi id :
  lo ≤ 0 ≤ hi → (∀ f, 0 ≤ f.(score) ≤ 100 → lo ≤ g f ≤ hi) → lo ≤ at_id m g id ≤ hi.
Proof.
  intros H0 Hg. unfold at_id. destruct (m !! id) as [f|] eqn:Hf; [|done]. apply Hg. by eapply scores.
Qed.

Lemma weigh_step a b c id :
  weigh now m (mkWeighed (Z.min U64_MAX a) (Z.min U64_MAX b) (Z.min U32_MAX c)) id =
  mkWeighed (Z.min U64_MAX (a + at_id m (feedback_points now) id))
    (Z.min U64_MAX (b + at_id m (feedback_weight now) id))
    (Z.min U32_MAX (c + at_id m feedback_tick id)).
Proof.
  unfold weigh, at_id, feedback_points, feedback_tick, feedback_weight.
  destruct (m !! id) as [f|] eqn:Hf; [|by rewrite !Z.add_0_r].
  destruct (revoked f); simpl; [by rewrite Z.mul_0_r, !Z.add_0_r|].
  pose proof (scores _ _ Hf). pose proof (decay_weight_bounds (saturating_sub now (created_at f))).
  assert (0 ≤ score f * decay_weight (saturating_sub now (created_at f)) ≤ 10000) by nia.
  unfold saturating_add, saturating_mul, U64_MAX, U32_MAX. f_equal; lia.
Qed.

Lemma weigh_sums ids a b c :
  foldl (weigh now m) (mkWeighed (Z.min U64_MAX a) (Z.min U64_MAX b) (Z.min U32_MAX c)) ids =
  mkWeighed (Z.min U64_MAX (a + zsum (at_id m (feedback_points now) <$> ids)))
    (Z.min U64_MAX (b + zsum (at_id m (feedback_weight now) <$> ids)))
    (Z.min U32_MAX (c + zsum (at_id m feedback_tick <$> ids))).
Proof.
  revert a b c. induction ids as [|id ids IH]; intros a b c; [by rewrite !Z.add_0_r|].
  cbn [foldl]. rewrite weigh_step, IH. csimpl. simpl. by rewrite !Z.add_assoc.
Qed.

Lemma points_le_weight ids :
  0 ≤ zsum (at_id m (feedback_points now) <$> ids) ≤ 100 * zsum (at_id m (feedback_weight now) <$> ids).
Proof.
  rewrite <- zsum_scale. unfold feedback_points, feedback_weight, at_id. split.
  - apply zsum_nonneg. intros id _. destruct (m !! id) as [f|] eqn:Hf; [|done].
    pose proof (scores _ _ Hf). pose proof (decay_weight_bounds (saturating_sub now (created_at f))).
    destruct (revoked f); nia.
  - apply zsum_bound. intros id _. destruct (m !! id) as [f|] eqn:Hf; [|done].
    pose proof (scores _ _ Hf). pose proof (decay_weight_bounds (saturating_sub now (created_at f))).
    destruct (revoked f); nia.
Qed.

Lemma weights_bound ids :
  0 ≤ zsum (at_id m (feedback_weight now) <$> ids) ≤ 100 * Z.of_nat (length ids).
Proof.
  rewrite <- zsum_const.
  assert (∀ id, 0 ≤ at_id m (feedback_weight now) id ≤ 100) as Hb.
  { intros id. apply at_id_bounds; [lia|]. intros f _. unfold feedback_weight.
    pose proof (decay_weight_bounds (saturating_sub now (created_at f))). destruct (revoked f); lia. }
  split; [apply zsum_nonneg|apply zsum_bound]; intros; apply Hb.
Qed.

Lemma ticks_bound ids : 0 ≤ zsum (at_id m feedback_tick <$> ids) ≤ Z.of_nat (length ids).
Proof.
  rewrite <- (Z.mul_1_l (Z.of_nat _)), <- zsum_const.
  assert (∀ id, 0 ≤ at_id m feedback_tick id ≤ 1) as Hb.
  { intros id. apply at_id_bounds; [lia|]. intros f _. unfold feedback_tick. destruct (revoked f); lia. }
  split; [apply zsum_nonneg|apply zsum_bound]; intros; apply Hb.
Qed.
End feedback.

(** A mean in hundredths, [0] of nothing. *)
Definition mean (total weight : Z) : Z := if 0 <? weight then 100 * total / weight else 0.

Lemma mean_bounds total weight : 0 ≤ total ≤ 100 * weight → 0 ≤ mean total weight ≤ 10000.
Proof.
  intros Ht. unfold mean. destruct (Z.ltb_spec 0 weight); [|lia]. split.
  - apply Z.div_pos; lia.
  - apply Z.div_le_upper_bound; lia.
Qed.

(** The code's quotient, with its saturation and its clamp, is the mean. *)
Lemma clamped_mean total weight :
  0 ≤ total ≤ 100 * weight → weight ≤ 1000000000000 →
  (if 0 <? weight then Z.min (saturating_mul U64_MAX total 100 / weight) 10000 else 0) = mean total weight.
Proof.
  intros Ht Hw. pose proof (mean_bounds _ _ Ht) as Hb. unfold mean in *.
  destruct (Z.ltb_spec 0 weight); [|done]. unfold saturating_mul.
  rewrite (Z.min_r U64_MAX) by (unfold U64_MAX; lia). rewrite (Z.mul_comm total). lia.
Qed.

Lemma feedback_average_lists now s id :
  indexes_wf s → (∀ i f, s.(Feedbacks) !! i = Some f → 0 ≤ f.(score) ≤ 100) →
  feedback_average now s id =
  (mean (zsum (at_id s.(Feedbacks) (feedback_points now) <$> feedbacks_of s id))
        (zsum (at_id s.(Feedbacks) (feedback_weight now) <$> feedbacks_of s id)),
   zsum (at_id s.(Feedbacks) feedback_tick <$> feedbacks_of s id)).
Proof.
  intros Hix Hsc. pose proof (ix_bound _ _ _ _ _ (iw_feedbacks _ Hix) id) as Hlen.
  change (listed (AgentFeedbacks s) id) with (feedbacks_of s id) in Hlen.
  unfold feedback_average, feedbacks_of in *. destruct (AgentFeedbacks s !! id) as [ids|]; [|done]. simpl in *.
  pose proof (weigh_sums now _ Hsc ids 0 0 0) as Hw. change (Z.min U64_MAX 0) with 0 in Hw.
  change (Z.min U32_MAX 0) with 0 in Hw. rewrite Hw. clear Hw. simpl.
  pose proof (points_le_weight now _ Hsc ids). pose proof (weights_bound now _ Hsc ids).
  pose proof (ticks_bound _ Hsc ids). unfold MaxFeedbacksPerAgent in Hlen.
  rewrite !Z.min_r with (n := U64_MAX) by (unfold U64_MAX; lia).
  rewrite !Z.min_r with (n := U32_MAX) by (unfold U32_MAX; lia).
  by rewrite clamped_mean by lia.
Qed.

(** ** The validation score *)

Definition response_total s (id : Z) : Z := zsum (response_score <$> responses_to s id).
Definition response_count s (id : Z) : Z := Z.of_nat (length (responses_to s id)).

Section validation.
Context (s : State).
Hypothesis Hresp : responses_wf s.

Lemma responses_to_elem id r : r ∈ responses_to s id → ∃ v, s.(ValidationResponses) !! (id, v) = Some r.
Proof.
  unfold responses_to. intros ([[i v] r'] & -> & Hin)%list_elem_of_fmap.
  apply list_elem_of_filter in Hin as [Hi Hin]. simpl in Hi. subst i.
  exists v. by apply elem_of_map_to_list.
Qed.

Lemma responses_scores id r : r ∈ responses_to s id → 0 ≤ r.(response_score) ≤ 100.
Proof. intros [v Hv]%responses_to_elem. by eapply Hresp. Qed.

Lemma response_total_bounds id : 0 ≤ response_total s id ≤ 100 * response_count s id.
Proof.
  unfold response_total, response_count. rewrite <- zsum_const.
  split; [apply zsum_nonneg|apply zsum_bound]; intros r Hr; by apply (responses_scores id).
Qed.

Lemma add_responses id a c :
  foldl add_response (Z.min U64_MAX a, Z.min U32_MAX c) (responses_to s id) =
  (Z.min U64_MAX (a + response_total s id), Z.min U32_MAX (c + response_count s id)).
Proof.
  unfold response_total, response_count. pose proof (responses_scores id) as Hs. revert a c Hs.
  induction (responses_to s id) as [|r l IH]; intros a c Hs; [by rewrite !Z.add_0_r|].
  cbn [foldl]. pose proof (Hs r (list_elem_of_here _ _)) as Hr.
  assert (add_response (Z.min U64_MAX a, Z.min U32_MAX c) r =
    (Z.min U64_MAX (a + response_score r), Z.min U32_MAX (c + 1))) as ->.
  { unfold add_response, saturating_add. simpl. f_equal; lia. }
  rewrite IH by (intros r' Hr'; by apply Hs, list_elem_of_further).
  csimpl. simpl. f_equal; lia.
Qed.

Lemma add_all_responses ids a c :
  foldl (λ acc id, foldl add_response acc (responses_to s id)) (Z.min U64_MAX a, Z.min U32_MAX c) ids =
  (Z.min U64_MAX (a + zsum (response_total s <$> ids)), Z.min U32_MAX (c + zsum (response_count s <$> ids))).
Proof.
  revert a c. induction ids as [|id ids IH]; intros a c; [by rewrite !Z.add_0_r|].
  cbn [foldl]. rewrite add_responses, IH. csimpl. simpl. by rewrite !Z.add_assoc.
Qed.

Lemma validation_average_sums id :
  let total := Z.min U64_MAX (zsum (response_total s <$> requests_of s id)) in
  let count := Z.min U32_MAX (zsum (response_count s <$> requests_of s id)) in
  validation_average s id =
  (if 0 <? count then Z.min (saturating_mul U64_MAX total 100 / count) 10000 else 0, count).
Proof.
  unfold validation_average, requests_of. destruct (AgentValidations s !! id) as [ids|]; [|done].
  simpl. pose proof (add_all_responses ids 0 0) as Ha. change (Z.min U64_MAX 0) with 0 in Ha.
  change (Z.min U32_MAX 0) with 0 in Ha. by rewrite Ha.
Qed.

Lemma validation_average_lists id :
  zsum (response_count s <$> requests_of s id) ≤ U32_MAX →
  validation_average s id =
  (mean (zsum (response_total s <$> requests_of s id)) (zsum (response_count s <$> requests_of s id)),
   zsum (response_count s <$> requests_of s id)).
Proof.
  intros Hc. rewrite validation_average_sums.
  assert (0 ≤ zsum (response_total s <$> requests_of s id) ≤
    100 * zsum (response_count s <$> requests_of s id)) as Hb.
  { rewrite <- zsum_scale. split; [apply zsum_nonneg|apply zsum_bound]; intros; apply response_total_bounds. }
  rewrite !(Z.min_r U64_MAX), !(Z.min_r U32_MAX) by (unfold U64_MAX, U32_MAX in *; lia).
  rewrite clamped_mean; [done|lia|unfold U32_MAX in *; lia].
Qed.
End validation.

(** ** The reputation as a function of the registries *)

Lemma zsum_map_to_list {K V} `{Countable K} (g : K → V → Z) (m : gmap K V) :
  zsum ((λ kv, g kv.1 kv.2) <$> map_to_list m) = map_sum g m.
Proof.
  induction m as [|k v m Hk IH] using map_ind.
  - by rewrite map_to_list_empty, map_sum_empty.
  - rewrite map_to_list_insert, map_sum_insert_None by done. csimpl. simpl. by rewrite IH.
Qed.

Lemma zsum_filter {A} (P : A → Prop) `{∀ x, Decision (P x)} (g : A → Z) l :
  zsum (g <$> filter P l) = zsum ((λ x, if decide (P x) then g x else 0) <$> l).
Proof.
  induction l as [|x l IH]; [done|]. rewrite filter_cons. csimpl. simpl. case_decide; csimpl; simpl; lia.
Qed.

Lemma responses_sum s (g : ValidationResponse → Z) id :
  zsum (g <$> responses_to s id) =
  map_sum (λ k r, if decide (k.1 = id) then g r else 0) s.(ValidationResponses).
Proof.
  unfold responses_to. rewrite <- list_fmap_compose.
  rewrite (zsum_filter (λ kv, kv.1.1 = id) (g ∘ snd)).
  exact (zsum_map_to_list (λ k r, if decide (k.1 = id) then g r else 0) _).
Qed.

Lemma prefixes_sum {V} (g : V → Z) (m : gmap (Z * AccountId) V) ids :
  NoDup ids →
  zsum ((λ id, map_sum (λ k v, if decide (k.1 = id) then g v else 0) m) <$> ids) =
  map_sum (λ k v, if decide (k.1 ∈ ids) then g v else 0) m.
Proof.
  induction ids as [|id ids IH]; intros Hn; csimpl.
  - symmetry. apply map_sum_zero. done.
  - apply NoDup_cons in Hn as [Hid Hn]. simpl. rewrite IH by done. rewrite <- map_sum_add.
    apply map_sum_ext. intros [i c] v _. simpl. destruct (decide (i = id)) as [->|Hne].
    + rewrite decide_False by done. rewrite decide_True by set_solver. lia.
    + destruct (decide (i ∈ ids)); [rewrite decide_True by set_solver|rewrite decide_False by set_solver]; lia.
Qed.

(** The agent a response is about. *)
Definition responded_agent s (id : Z) : option Z := request_agent_id <$> s.(ValidationRequests) !! id.

Definition feedback_sum s (a : Z) (g : FeedbackInfo → Z) : Z :=
  map_sum (λ _ f, if decide (f.(agent_id) = a) then g f else 0) s.(Feedbacks).
Definition response_sum s (a : Z) (g : ValidationResponse → Z) : Z :=
  map_sum (λ k r, if decide (responded_agent s k.1 = Some a) then g r else 0) s.(ValidationResponses).

(** Sixty percent of the mean of the feedback that was not revoked, weighted by
    its age, and forty percent of the mean of the validations. *)
Definition expected_reputation (now : BlockNumber) s (a : Z) : ReputationScore :=
  let fm := mean (feedback_sum s a (feedback_points now)) (feedback_sum s a (feedback_weight now)) in
  let vm := mean (response_sum s a response_score) (response_sum s a (λ _, 1)) in
  mkReputationScore fm (feedback_sum s a feedback_tick) vm (response_sum s a (λ _, 1))
    (60 * fm / 100 + 40 * vm / 100) now.

Lemma feedback_sum_ids s a g :
  indexes_wf s → zsum (at_id s.(Feedbacks) g <$> feedbacks_of s a) = feedback_sum s a g.
Proof. intros Hix. exact (indexed_sum _ _ _ _ _ a g (iw_feedbacks _ Hix)). Qed.

Lemma response_sum_ids s a g :
  indexes_wf s → zsum ((λ id, zsum (g <$> responses_to s id)) <$> requests_of s a) = response_sum s a g.
Proof.
  intros Hix. pose proof (iw_requests _ Hix) as Hr.
  rewrite (zsum_ext _ (λ id, map_sum (λ k v, if decide (k.1 = id) then g v else 0) s.(ValidationResponses)))
    by (intros; apply responses_sum).
  rewrite prefixes_sum by apply (ix_nodup _ _ _ _ _ Hr a).
  apply map_sum_ext. intros [i c] r _. simpl.
  pose proof (ix_elem _ _ _ _ _ Hr a i) as He. change (listed _ a) with (requests_of s a) in He.
  unfold responded_agent. destruct (decide (i ∈ requests_of s a)) as [Hin|Hout].
  - apply He in Hin as (req & -> & <-). by rewrite decide_True.
  - rewrite decide_False; [done|]. intros Hq. apply Hout, He.
    apply fmap_Some in Hq as (req & -> & ->). eauto.
Qed.

Lemma response_counts_ids s a :
  indexes_wf s → zsum (response_count s <$> requests_of s a) = response_sum s a (λ _, 1).
Proof.
  intros Hix. rewrite <- response_sum_ids by done. apply zsum_ext. intros id _. rewrite zsum_const.
  unfold response_count. lia.
Qed.

Lemma response_sum_size s a : response_sum s a (λ _, 1) ≤ Z.of_nat (size s.(ValidationResponses)).
Proof.
  unfold response_sum. generalize (λ k : Z * AccountId, responded_agent s k.1). intros h.
  induction s.(ValidationResponses) as [|k v m Hk IH] using map_ind.
  - by rewrite map_sum_empty, map_size_empty.
  - rewrite map_sum_insert_None, map_size_insert_None by done. case_decide; lia.
Qed.

Lemma response_totals_ids s a :
  indexes_wf s → zsum (response_total s <$> requests_of s a) = response_sum s a response_score.
Proof. apply response_sum_ids. Qed.

Lemma weights_le_ticks now m (Hsc : ∀ i f, m !! i = Some f → 0 ≤ f.(score) ≤ 100) ids :
  zsum (at_id m (feedback_weight now) <$> ids) ≤ 100 * zsum (at_id m feedback_tick <$> ids).
Proof.
  rewrite <- zsum_scale. apply zsum_bound. intros id _. unfold at_id, feedback_weight, feedback_tick.
  destruct (m !! id) as [f|]; [|done].
  pose proof (decay_weight_bounds (saturating_sub now (created_at f))). destruct (revoked f); lia.
Qed.

(** The sums are in the range of a mean between 0 and 100. *)
Lemma registry_sums now s a :
  indexes_wf s → (∀ i f, s.(Feedbacks) !! i = Some f → 0 ≤ f.(score) ≤ 100) → responses_wf s →
  0 ≤ feedback_sum s a (feedback_points now) ≤ 100 * feedback_sum s a (feedback_weight now) ∧
  feedback_sum s a (feedback_weight now) ≤ 100 * feedback_sum s a feedback_tick ∧
  0 ≤ response_sum s a response_score ≤ 100 * response_sum s a (λ _, 1).
Proof.
  intros Hix Hsc Hr. rewrite <- !feedback_sum_ids, <- response_totals_ids, <- response_counts_ids by done.
  split_and!; try apply (points_le_weight now _ Hsc).
  - by apply weights_le_ticks.
  - apply zsum_nonneg. intros. by apply response_total_bounds.
  - rewrite <- zsum_scale. apply zsum_bound. intros. by apply response_total_bounds.
Qed.

(** Once the means are known, the rest of the code computes the same number
    with and without saturation, and with and without the test for zero. *)
Lemma overall_exact fm fc vm vc :
  0 ≤ fm ≤ 10000 → 0 ≤ vm ≤ 10000 → (fc ≤ 0 → fm = 0) → (vc ≤ 0 → vm = 0) →
  (if (0 <? fc) || (0 <? vc) then
     saturating_add U32_MAX (saturating_mul U32_MAX fm 60 / 100) (saturating_mul U32_MAX vm 40 / 100)
   else 0) = 60 * fm / 100 + 40 * vm / 100.
Proof.
  intros Hf Hv Hf0 Hv0. unfold saturating_add, saturating_mul, U32_MAX.
  rewrite !(Z.min_r 4294967295), (Z.mul_comm fm), (Z.mul_comm vm)
    by (Z.to_euclidean_division_equations; lia).
  destruct (Z.ltb_spec 0 fc), (Z.ltb_spec 0 vc); simpl; try done.
  by rewrite Hf0, Hv0 by lia.
Qed.

Lemma calculate_reputation_expected now s a :
  indexes_wf s → (∀ i f, s.(Feedbacks) !! i = Some f → 0 ≤ f.(score) ≤ 100) → responses_wf s →
  Z.of_nat (size s.(ValidationResponses)) ≤ U32_MAX →
  calculate_reputation now s a = expected_reputation now s a.
Proof.
  intros Hix Hsc Hr Hsize. pose proof (response_sum_size s a) as Hn.
  destruct (registry_sums now s a Hix Hsc Hr) as (Hp & Ht & Hv).
  pose proof (feedback_average_lists now s a Hix Hsc) as HF.
  pose proof (validation_average_lists s Hr a) as HV.
  rewrite !feedback_sum_ids in HF by done.
  rewrite response_counts_ids, response_totals_ids in HV by done.
  unfold calculate_reputation. rewrite HF, HV by lia. simpl. unfold expected_reputation. f_equal.
  apply overall_exact; try by apply mean_bounds; lia.
  - unfold mean. intros. by rewrite (proj2 (Z.ltb_ge _ _)) by lia.
  - unfold mean. intros. by rewrite (proj2 (Z.ltb_ge _ _)) by lia.
Qed.

Lemma expected_reputation_bounds now s a :
  indexes_wf s → (∀ i f, s.(Feedbacks) !! i = Some f → 0 ≤ f.(score) ≤ 100) → responses_wf s →
  let r := expected_reputation now s a in
  0 ≤ r.(feedback_score) ≤ 10000 ∧ 0 ≤ r.(validation_score) ≤ 10000 ∧ 0 ≤ r.(overall_score) ≤ 10000.
Proof.
  intros Hix Hsc Hr. destruct (registry_sums now s a Hix Hsc Hr) as (Hp & _ & Hv).
  apply mean_bounds in Hp, Hv. simpl. split_and!; try lia; Z.to_euclidean_division_equations; lia.
Qed.

(** ** The stored reputation is kept up to date *)

(** What is stored for an agent is what the registries give now, at the block
    of its last update. *)
Definition reputation_current s : Prop :=
  ∀ a r, s.(AgentReputations) !! a = Some r → r = calculate_reputation r.(last_updated) s a.

Lemma feedback_average_ext now s s' a :
  s'.(AgentFeedbacks) !! a = s.(AgentFeedbacks) !! a →
  (∀ i, i ∈ feedbacks_of s a → s'.(Feedbacks) !! i = s.(Feedbacks) !! i) →
  feedback_average now s' a = feedback_average now s a.
Proof.
  unfold feedback_average, feedbacks_of. intros -> Hi.
  destruct (AgentFeedbacks s !! a) as [ids|]; [|done]. simpl in Hi.
  assert (∀ acc, foldl (weigh now s'.(Feedbacks)) acc ids = foldl (weigh now s.(Feedbacks)) acc ids) as ->; [|done].
  induction ids as [|i ids IH]; intros acc; [done|]. cbn [foldl]. unfold weigh at 2 4. rewrite Hi by set_solver.
  apply IH. set_solver.
Qed.

Lemma validation_average_ext s s' a :
  responses_wf s → responses_wf s' →
  zsum (response_total s' <$> requests_of s' a) = zsum (response_total s <$> requests_of s a) →
  zsum (response_count s' <$> requests_of s' a) = zsum (response_count s <$> requests_of s a) →
  validation_average s' a = validation_average s a.
Proof. intros Hs Hs' Ht Hc. rewrite !validation_average_sums by done. by rewrite Ht, Hc. Qed.

Lemma calculate_ext now s s' a :
  feedback_average now s' a = feedback_average now s a → validation_average s' a = validation_average s a →
  calculate_reputation now s' a = calculate_reputation now s a.
Proof. unfold calculate_reputation. by intros -> ->. Qed.

Lemma current_same s s' :
  s'.(AgentReputations) = s.(AgentReputations) →
  (∀ now a, calculate_reputation now s' a = calculate_reputation now s a) →
  reputation_current s → reputation_current s'.
Proof. unfold reputation_current. intros -> Hc Hs a r Hr. rewrite Hc. eauto. Qed.

Lemma current_refreshed now a s s1 :
  s1.(AgentReputations) = s.(AgentReputations) →
  (∀ n a', a' ≠ a → calculate_reputation n s1 a' = calculate_reputation n s a') →
  reputation_current s → reputation_current (refreshed now a s1).
Proof.
  intros Hr Hc Hs a' r Ha. simpl in Ha. apply lookup_insert_Some in Ha as [[<- <-]|[Hne Ha]]; [done|].
  rewrite Hr in Ha. change (r = calculate_reputation (last_updated r) s1 a'). rewrite Hc by done. eauto.
Qed.

(** Requests nobody has answered do not count. *)
Lemma unanswered s id :
  responses_wf s → (∀ req, s.(ValidationRequests) !! id = Some req → req.(completed) = false) →
  responses_to s id = [].
Proof.
  intros Hr Hn. apply elem_of_nil_inv. intros r [v Hv]%responses_to_elem.
  destruct (Hr _ _ _ Hv) as (_ & _ & _ & req & Hreq & Hc). rewrite (Hn _ Hreq) in Hc. done.
Qed.

Lemma responses_to_insert s id v r i :
  s.(ValidationResponses) !! (id, v) = None → i ≠ id →
  responses_to (put_ValidationResponses (<[(id, v) := r]> s.(ValidationResponses)) s) i ≡ₚ responses_to s i.
Proof.
  intros Hn Hi. unfold responses_to. simpl. rewrite map_to_list_insert by done.
  rewrite filter_cons. simpl. by rewrite decide_False.
Qed.

Lemma zsum_drop_zero {A} (f : A → Z) x l l' : f x = 0 → l' ≡ₚ x :: l → zsum (f <$> l') = zsum (f <$> l).
Proof. intros Hx ->. csimpl. simpl. lia. Qed.

Lemma stored_calculate now s f a :
  indexes_wf s → a ≠ f.(agent_id) →
  calculate_reputation now (feedback_stored f s) a = calculate_reputation now s a.
Proof.
  intros Hix Hne. apply calculate_ext; [|done]. apply feedback_average_ext; simpl.
  - by rewrite lookup_insert_ne by done.
  - intros i (g & Hg & _)%(ix_elem _ _ _ _ _ (iw_feedbacks _ Hix)).
    pose proof (indexed_fresh _ _ _ _ _ (iw_feedbacks _ Hix)). rewrite lookup_insert_ne; [done|congruence].
Qed.

Lemma revoked_calculate now s id f a :
  indexes_wf s → s.(Feedbacks) !! id = Some f → a ≠ f.(agent_id) →
  calculate_reputation now (put_Feedbacks (<[id := set_revoked true f]> s.(Feedbacks)) s) a =
  calculate_reputation now s a.
Proof.
  intros Hix Hf Hne. apply calculate_ext; [|done]. apply feedback_average_ext; [done|]. simpl.
  intros i (g & Hg & Ha)%(ix_elem _ _ _ _ _ (iw_feedbacks _ Hix)). rewrite lookup_insert_ne; [done|congruence].
Qed.

(** Lists that differ by requests nobody has answered give the same score. *)
Lemma current_requests s s' id :
  s'.(AgentReputations) = s.(AgentReputations) → s'.(AgentFeedbacks) = s.(AgentFeedbacks) →
  s'.(Feedbacks) = s.(Feedbacks) → s'.(ValidationResponses) = s.(ValidationResponses) →
  responses_wf s → responses_wf s' → responses_to s id = [] →
  (∀ a, requests_of s' a = requests_of s a ∨ requests_of s' a ≡ₚ id :: requests_of s a ∨
        requests_of s a ≡ₚ id :: requests_of s' a) →
  reputation_current s → reputation_current s'.
Proof.
  intros Hrep Haf Hf Hvr Hs Hs' Hid Hl. apply current_same; [done|]. intros now a.
  assert (∀ i, responses_to s' i = responses_to s i) as Hto
    by (intros; unfold responses_to; by rewrite Hvr).
  apply calculate_ext; [apply feedback_average_ext; intros; congruence|].
  apply validation_average_ext; [done..| |].
  - rewrite (zsum_ext (response_total s') (response_total s))
      by (intros; unfold response_total; by rewrite Hto).
    assert (response_total s id = 0) by (unfold response_total; by rewrite Hid).
    destruct (Hl a) as [->|[Hp|Hp]]; [done|by eapply zsum_drop_zero|]. symmetry. by eapply zsum_drop_zero.
  - rewrite (zsum_ext (response_count s') (response_count s))
      by (intros; unfold response_count; by rewrite Hto).
    assert (response_count s id = 0) by (unfold response_count; by rewrite Hid).
    destruct (Hl a) as [->|[Hp|Hp]]; [done|by eapply zsum_drop_zero|]. symmetry. by eapply zsum_drop_zero.
Qed.

Lemma submitted_calculate now s s' id req v r a :
  indexes_wf s → responses_wf s → responses_wf s' → s.(ValidationRequests) !! id = Some req →
  s.(ValidationResponses) !! (id, v) = None → a ≠ req.(request_agent_id) →
  s'.(AgentFeedbacks) = s.(AgentFeedbacks) → s'.(Feedbacks) = s.(Feedbacks) →
  s'.(AgentValidations) = s.(AgentValidations) →
  s'.(ValidationResponses) = <[(id, v) := r]> s.(ValidationResponses) →
  calculate_reputation now s' a = calculate_reputation now s a.
Proof.
  intros Hix Hr Hr' Hreq Hn Hne Haf Hf Hav Hvr.
  assert (requests_of s' a = requests_of s a) as Hl by (unfold requests_of; by rewrite Hav).
  assert (∀ i, i ∈ requests_of s a → responses_to s' i ≡ₚ responses_to s i) as Hto.
  { intros i (req' & Hi & Ha)%(ix_elem _ _ _ _ _ (iw_requests _ Hix)). unfold responses_to. rewrite Hvr.
    apply (responses_to_insert s id v r i Hn). congruence. }
  apply calculate_ext; [apply feedback_average_ext; intros; congruence|].
  apply validation_average_ext; [done..| |]; rewrite Hl; apply zsum_ext; intros i Hi.
  - unfold response_total. by rewrite (Hto i Hi).
  - unfold response_count. by rewrite (Hto i Hi).
Qed.

Section current.
Context {W : Type} `{!System W, !Currency W, !ReservableCurrency W} {T : Config}.
Implicit Types (s : State) (w : W).

Lemma move_current o s w s' w' :
  indexes_wf s → responses_wf s → agent_move o s w s' w' → reputation_current s → reputation_current s'.
Proof.
  intros Hix Hr Hm Hs. pose proof (move_responses _ _ _ _ _ Hix Hr Hm) as Hr'.
  pose proof (iw_requests _ Hix) as Hq. destruct Hm; try exact Hs.
  - apply (current_refreshed _ _ s); [done| |done]. intros. by apply stored_calculate.
  - apply (current_refreshed _ _ s); [done| |done]. intros. by apply revoked_calculate.
  - eapply (current_requests s _ s.(NextRequestId)); try done.
    + apply unanswered; [done|]. intros req. by rewrite (indexed_fresh _ _ _ _ _ Hq).
    + intros a. change (requests_of (put_AgentValidations ?m _) a) with (listed m a).
      rewrite listed_insert. case_decide; [subst a|by left]. right. left. by rewrite Permutation_app_comm.
  - set (s1 := put_ValidationRequests (<[id := set_completed true req]> s.(ValidationRequests))
      (put_ValidationResponses (<[(id, resp.(validator)) := resp]> s.(ValidationResponses)) s)).
    refine (current_refreshed (block_number w) req.(request_agent_id) s s1 _ _ Hs); [done|].
    intros n a Ha. by apply (submitted_calculate n s s1 id req resp.(validator) resp).
  - eapply (current_requests s _ id); try done.
    + apply unanswered; [done|]. naive_solver.
    + intros a. change (requests_of (put_ValidationRequests _ (put_AgentValidations ?m _)) a) with (listed m a).
      rewrite listed_alter by done. case_decide; [subst a|by left]. right. right.
      apply swap_remove_Permutation, (ix_elem _ _ _ _ _ Hq). eauto.
  - apply (current_refreshed _ _ s); [done| |done]. intros n a Ha.
    by apply (revoked_calculate n s (feedback_id d) f a).
Qed.
End current.
