(* ===== verification/TrustlessAgentFunds.v ===== *)
(** * pallet-trustless-agent: what is kept in reserve

    Deposits, stakes, rewards and escrows stay reserved in the accounts of those
    who made them.  What an account has reserved covers all it is still held
    for, as long as no request of the account is answered twice and the agents
    it is given come with their whole deposit. *)

From S2P Require Import Prelude Arith Errors Frame TrustlessAgent TrustlessAgentSpec TrustlessAgentInv.

Class ValidAgentConfig {T : Config} : Prop := {
  agent_deposit_fits : fits U128_MAX AgentDeposit;
  feedback_deposit_fits : fits U128_MAX FeedbackDeposit;
  request_deposit_fits : fits U128_MAX ValidationRequestDeposit;
  dispute_deposit_fits : fits U128_MAX DisputeDeposit;
}.

(** The amounts that are stored have the width of their type. *)
Record amounts_wf (s : State) : Prop := {
  am_escrow : ∀ id x, s.(Escrows) !! id = Some x → fits U128_MAX x.(amount);
  am_reward : ∀ id r, s.(ValidationRequests) !! id = Some r → fits U128_MAX r.(reward);
  am_stake : ∀ who v, s.(Validators) !! who = Some v → fits U128_MAX v.(stake);
}.

Lemma request_reserve_nonneg `{ValidAgentConfig} s id req :
  amounts_wf s → s.(ValidationRequests) !! id = Some req →
  0 ≤ saturating_add U128_MAX ValidationRequestDeposit req.(reward).
Proof.
  intros [_ Hr _] Hid. destruct (Hr _ _ Hid), request_deposit_fits.
  apply saturating_add_nonneg; [by vm_compute|done..].
Qed.

(** Amounts are not negative. *)
#[export] Hint Resolve agent_deposit_fits feedback_deposit_fits
  request_deposit_fits dispute_deposit_fits am_escrow am_reward am_stake request_reserve_nonneg : amounts.
#[export] Hint Extern 1 (0 ≤ U128_MAX) => by vm_compute : amounts.

Section due.
Context {T : Config}.
Implicit Types (s : State) (x : AccountId).

(** What each entry of a registry holds of the account [x]. *)
Definition agent_due x (_ : Z) (a : AgentInfo) : Z := if decide (a.(owner) = x) then AgentDeposit else 0.
Definition feedback_due x (_ : Z) (f : FeedbackInfo) : Z :=
  if decide (f.(client) = x) then if f.(revoked) then 0 else FeedbackDeposit else 0.
Definition stake_due x (who : AccountId) (v : ValidatorInfo) : Z :=
  if decide (who = x) then v.(stake) else 0.
Definition request_due x (_ : Z) (r : ValidationRequest) : Z :=
  if decide (r.(requester) = x) then
    saturating_add U128_MAX ValidationRequestDeposit r.(reward) - (if r.(completed) then r.(reward) else 0)
  else 0.
Definition escrow_due x (_ : Z) (e : EscrowInfo) : Z :=
  if decide (e.(escrow_client) = x) then e.(amount) else 0.
Definition dispute_due x (_ : Z) (d : DisputeInfo) : Z :=
  if decide (d.(disputer) = x) then if decide (d.(dispute_status) = Open) then DisputeDeposit else 0 else 0.

(** All an account is held for. *)
Definition due s x : Z :=
  map_sum (agent_due x) s.(Agents) + map_sum (feedback_due x) s.(Feedbacks) +
  map_sum (stake_due x) s.(Validators) + map_sum (request_due x) s.(ValidationRequests) +
  map_sum (escrow_due x) s.(Escrows) + map_sum (dispute_due x) s.(Disputes).
End due.

Section moves.
Context {W : Type} `{!System W, !Currency W, !ReservableCurrency W, !Fungibles W}.
Context `{!WorldLaws W, !ReserveLaws W} {T : Config}.
Implicit Types (s : State) (w : W) (x : AccountId).

Lemma move_amounts o s w s' w' : amounts_wf s → agent_move o s w s' w' → amounts_wf s'.
Proof.
  intros [He Hr Hv] Hm.
  destruct Hm; split; simpl; try done; intros ? ? Hk;
    (apply lookup_insert_Some in Hk as [[<- <-]|[_ Hk]] || apply lookup_delete_Some in Hk as [_ Hk]);
    simpl; eauto.
Qed.

(** The total issuance fits a balance: so do two accounts together. *)
Definition issuance_fits w : Prop :=
  ∀ y z, y ≠ z → free_balance y w + reserved_balance y w + reserved_balance z w ≤ U128_MAX.

(** A step that does not answer a completed request of [x] again, and gives
    [x] agents only with their deposit. *)
Record fair x s w s' w' : Prop := {
  fair_answers : ∀ id req v, s.(ValidationRequests) !! id = Some req → req.(requester) = x →
    req.(completed) = true → s'.(ValidationResponses) !! (id, v) = s.(ValidationResponses) !! (id, v);
  fair_transfers : ∀ id a a', s.(Agents) !! id = Some a → a.(owner) ≠ x →
    s'.(Agents) !! id = Some a' → a'.(owner) = x →
    reserved_balance x w + AgentDeposit ≤ reserved_balance x w';
}.

Lemma reserve_due k who v w w' x :
  world_wf k w → 0 ≤ v → reserve who v w = Ok (tt, w') →
  world_wf k w' ∧ reserved_balance x w + (if decide (who = x) then v else 0) = reserved_balance x w'.
Proof.
  intros Hw Hv Hr. destruct (reserve_effect _ _ _ _ _ Hw Hv Hr) as (Hw' & Hwho & Hx & _). split; [done|].
  case_decide as Hd; [subst; lia|]. destruct (Hx x); [congruence|lia].
Qed.

Lemma unreserve_due k who v w r w' x :
  world_wf k w → 0 ≤ v → unreserve who v w = (r, w') →
  world_wf k w' ∧ reserved_balance x w - (if decide (who = x) then v else 0) ≤ reserved_balance x w'.
Proof.
  intros Hw Hv Hr. destruct (unreserve_effect _ _ _ _ _ _ Hw Hv Hr) as (Hw' & Hwho & Hx & _). split; [done|].
  case_decide as Hd; [by subst|]. destruct (Hx x); [congruence|lia].
Qed.

Lemma repatriate_due k from to v st w r w' x :
  world_wf k w → 0 ≤ v → issuance_fits w → repatriate_reserved from to v st w = Ok (r, w') →
  world_wf k w' ∧ reserved_balance x w - (if decide (from = x) then v else 0) ≤ reserved_balance x w' ∧
  (from = to → st = ReservedStatus → w' = w).
Proof.
  intros Hw Hv Hi Hr.
  destruct (repatriate_effect _ _ _ _ _ _ _ _ Hw Hv (λ Hne, Hi to from (not_eq_sym Hne)) Hr)
    as (Hw' & Hfrom & Hx & Hsame & _). split; [done|]. split; [|done].
  case_decide as Hd; [by subst|]. rewrite Z.sub_0_r. destruct (Hx x); [congruence|done].
Qed.

Lemma transfer_due k from to v r w w' x :
  world_wf k w → 0 ≤ v → transfer from to v r w = Ok (tt, w') →
  world_wf k w' ∧ reserved_balance x w' = reserved_balance x w.
Proof.
  intros Hw Hv Ht. split; [|by eapply transfer_reserved].
  destruct (decide (v = 0 ∨ from = to)) as [Hno|Hmove].
  - by apply transfer_noop in Ht as ->.
  - eapply transfer_moved; [exact Hw|..|exact Ht]; [lia|tauto].
Qed.

Lemma at_key_fresh {V} (f : Z → V → Z) m k : m !! k = None → at_key f m k = 0.
Proof. unfold at_key. by intros ->. Qed.

Lemma at_key_Some {K V} `{Countable K} (f : K → V → Z) m k v : m !! k = Some v → at_key f m k = f k v.
Proof. unfold at_key. by intros ->. Qed.

Lemma escrow_fresh s : indexes_wf s → s.(Escrows) !! s.(NextEscrowId) = None.
Proof.
  intros Hix. apply eq_None_not_Some. intros Hs. apply (iw_escrow_next _ Hix) in Hs. lia.
Qed.

(** The sums after a change of one entry. *)
Ltac due_sums :=
  unfold due; simpl; rewrite ?map_sum_insert, ?map_sum_remove;
  repeat match goal with
  | H : ?m !! ?k = _ |- context [at_key ?f ?m ?k] =>
      first [rewrite (at_key_fresh f m k H) | rewrite (at_key_Some f m k _ H)]
  end;
  unfold agent_due, feedback_due, stake_due, request_due, escrow_due, dispute_due; simpl.

Context `{!ValidAgentConfig}.

(** What the calls into the currency do to the reserve of [x]. *)
Ltac ledger x :=
  repeat match goal with
  | H : reserve _ _ _ = Ok _ |- _ =>
      eapply (reserve_due _ _ _ _ _ x) in H as [? ?]; [|eassumption|by eauto with amounts]
  | H : unreserve _ _ _ = _ |- _ =>
      eapply (unreserve_due _ _ _ _ _ _ x) in H as [? ?]; [|eassumption|by eauto with amounts]
  | H : transfer _ _ _ _ _ = Ok _ |- _ =>
      eapply (transfer_due _ _ _ _ _ _ _ x) in H as [? ?]; [|eassumption|by eauto with amounts]
  | H : repatriate_reserved _ _ _ _ _ = Ok _ |- _ =>
      eapply (repatriate_due _ _ _ _ _ _ _ _ x) in H as (? & ? & ?);
        [|eassumption|by eauto with amounts|eassumption]
  end.

(** What is held and what is reserved move together. *)
Lemma move_due k o s w s' w' x :
  world_wf k w → issuance_fits w → indexes_wf s → amounts_wf s → agent_move o s w s' w' →
  fair x s w s' w' →
  world_wf k w' ∧ reserved_balance x w + due s' x ≤ reserved_balance x w' + due s x.
Proof.
  intros Hw Hi Hix Ham Hm [Hans Htr].
  pose proof (indexed_fresh _ _ _ _ _ (iw_agents _ Hix)) as Fa.
  pose proof (indexed_fresh _ _ _ _ _ (iw_feedbacks _ Hix)) as Ff.
  pose proof (indexed_fresh _ _ _ _ _ (iw_requests _ Hix)) as Fr.
  pose proof (indexed_fresh _ _ _ _ _ (iw_disputes _ Hix)) as Fd.
  pose proof (escrow_fresh _ Hix) as Fe.
  pose proof (fits_nonneg _ _ feedback_deposit_fits) as Pf.
  pose proof (fits_nonneg _ _ dispute_deposit_fits) as Pd.
  destruct Hm; try (split; [exact Hw|done]); ledger x.
  all: try (split; [done|]; due_sums;
    repeat match goal with
    | H : revoked _ = _ |- _ => rewrite H
    | H : completed _ = _ |- _ => rewrite H
    | H : dispute_status _ = _ |- _ => rewrite H
    end; repeat case_decide; repeat case_match; simplify_eq; lia).
  - split; [done|]. specialize (Htr id a (set_owner new a) ltac:(done)). simpl in Htr.
    rewrite lookup_insert_eq in Htr. due_sums.
    destruct (decide (owner a = x)) as [Ha|Ha], (decide (new = x)) as [Hn|Hn]; try lia.
    + subst. rewrite H5 by done. lia.
    + specialize (Htr Ha eq_refl Hn). lia.
  - assert (world_wf k w' ∧
      reserved_balance x w - (if decide (requester req = x) then reward req else 0) ≤ reserved_balance x w')
      as [Hw' Hpaid].
    { destruct (am_reward _ Ham _ _ H2). destruct (Z.ltb_spec 0 (reward req)).
      - destruct H7 as [r Hrep]. by ledger x.
      - subst w'. split; [done|]. case_decide; lia. }
    split; [done|]. due_sums. destruct (decide (requester req = x)) as [Hx|Hx]; [|lia].
    destruct (completed req) eqn:Hc; [|lia]. exfalso.
    specialize (Hans _ _ (validator resp) H2 Hx Hc). simpl in Hans. rewrite lookup_insert_eq in Hans. congruence.
Qed.
End moves.
