(* ===== verification/TrustlessAgentTheorems.v ===== *)
(** * pallet-trustless-agent: what the theorems say

    Histories of the pallet from genesis, with the rest of the runtime free to
    change between calls, and the properties that hold in all of them. *)

From stdpp Require Import relations.
From S2P Require Import Prelude Arith Errors Frame TrustlessAgent TrustlessAgentSpec TrustlessAgentInv.
From S2P Require Import TrustlessAgentReputation TrustlessAgentFunds.

(** The storage before the first call. *)
Definition agent_genesis : State :=
  mkState ∅ 0 ∅ ∅ ∅ 0 ∅ ∅ ∅ ∅ 0 ∅ ∅ ∅ ∅ 0 ∅ ∅ ∅ ∅ 0 ∅ ∅ ∅ 0 ∅.

Lemma genesis_indexes : indexes_wf agent_genesis.
Proof.
  split; try by apply indexed_empty.
  - by intros id [x Hx].
  - by intros id x Hx.
  - by intros id f Hf.
Qed.

Lemma genesis_responses : responses_wf agent_genesis.
Proof. by intros id v r Hr. Qed.

Lemma genesis_amounts : amounts_wf agent_genesis.
Proof. by split. Qed.

Lemma genesis_feedback {T : Config} : feedback_wf agent_genesis.
Proof.
  split; try done. by intros n [x Hx].
Qed.

Section histories.
Context {W : Type} `{!System W, !Currency W, !ReservableCurrency W} {T : Config}.
Implicit Types (s : State) (w : W).

(** A call that succeeds, or a change of the surroundings. *)
Inductive agent_step : State * W → State * W → Prop :=
| agent_call o c e e' :
    agent_call_typed c → e ⊢ agent_dispatch o c ⇝ e' →
    agent_step (store e, world e) (store e', world e')
| agent_rest s w w' : agent_step (s, w) (s, w').

Definition agent_reachable s : Prop := ∃ w0 w, rtc agent_step (agent_genesis, w0) (s, w).

(** What every move keeps from genesis holds of every reachable storage. *)
Lemma reachable_ind (P : State → Prop) s :
  P agent_genesis → (∀ o s w s' w', P s → agent_move o s w s' w' → P s') → agent_reachable s → P s.
Proof.
  intros H0 Hstep (w0 & w & Hr). change (P (s, w).1). revert Hr.
  apply (rtc_ind_r (λ p, P p.1)); [done|]. intros x y _ Hxy HP. destruct Hxy as [o c e e' Ht Hd|]; [|done].
  apply agent_dispatch_move in Hd; [|done]. by eapply Hstep.
Qed.

Lemma reachable_call o c (e e' : CEnv W) :
  agent_reachable (store e) → agent_call_typed c → e ⊢ agent_dispatch o c ⇝ e' →
  agent_reachable (store e').
Proof.
  intros (w0 & w & Hr) Ht Hd. exists w0, (world e').
  eapply rtc_r; [eapply rtc_r; [exact Hr|apply (agent_rest _ _ (world e))]|]. by eapply agent_call.
Qed.

Lemma reachable_indexes s : agent_reachable s → indexes_wf s.
Proof. apply (reachable_ind indexes_wf); [apply genesis_indexes|]. intros. by eapply move_indexes. Qed.

Lemma reachable_responses s : agent_reachable s → indexes_wf s ∧ responses_wf s.
Proof.
  apply (reachable_ind (λ s, indexes_wf s ∧ responses_wf s));
    [split; [apply genesis_indexes|apply genesis_responses]|].
  intros o s1 w1 s2 w2 [Hi Hr] Hm. split; [by eapply move_indexes|by eapply move_responses].
Qed.

Lemma reachable_feedback s :
  0 < FeedbackRateLimitBlocks → agent_reachable s → indexes_wf s ∧ feedback_wf s.
Proof.
  intros Hrate. apply (reachable_ind (λ s, indexes_wf s ∧ feedback_wf s));
    [split; [apply genesis_indexes|apply genesis_feedback]|].
  intros o s1 w1 s2 w2 [Hi Hf] Hm. split; [by eapply move_indexes|by eapply move_feedback_inv].
Qed.

(** The scores do not depend on the rate limit. *)
Lemma reachable_scores s :
  agent_reachable s → ∀ id f, s.(Feedbacks) !! id = Some f → 0 ≤ f.(score) ≤ 100.
Proof.
  apply (reachable_ind (λ s, ∀ id f, s.(Feedbacks) !! id = Some f → 0 ≤ f.(score) ≤ 100)); [done|].
  intros o s1 w1 s2 w2 Hs Hm. destruct Hm; try exact Hs;
    simpl; intros; entries; simpl; eauto.
Qed.

(** C11. Registries and indexes agree: in every reachable storage, the agents of
    an owner, the feedbacks of an agent and of a client, the validation requests
    of an agent and the disputes of a feedback are listed completely, each once,
    under the right key and within the bound of the list; numbers are never used
    twice; and feedbacks and escrows name agents that exist. *)
Theorem registries_agree s : agent_reachable s → indexes_wf s.
Proof. apply reachable_indexes. Qed.

(** C14. Feedback is rationed: a client has given feedback to an agent only under
    an authorization for the two, at most as often as it allows, and with at
    least the configured number of blocks between two feedbacks; the counter
    the limit is checked with is the number of feedbacks given. *)
Theorem feedback_rationed s a c :
  0 < FeedbackRateLimitBlocks → agent_reachable s →
  let given := get_feedbacks_by_client s a c in
  feedback_index s a c = Z.of_nat (length given) ∧
  (given ≠ [] → ∃ n auth, s.(AgentClientAuthorizations) !! (a, c) = Some n ∧
    s.(FeedbackAuthorizations) !! n = Some auth ∧
    auth.(auth_agent_id) = a ∧ auth.(auth_client) = c ∧
    Z.of_nat (length given) ≤ auth.(index_limit)) ∧
  Sorted (λ t t', t + FeedbackRateLimitBlocks ≤ t') ((λ kv, kv.2.(created_at)) <$> given).
Proof.
  intros Hrate Hs given. destruct (reachable_feedback s Hrate Hs) as [_ Hf].
  pose proof (fw_count _ Hf a c) as Hn. unfold feedback_times in Hn. rewrite length_fmap in Hn. fold given in Hn.
  split; [done|]. split; [|apply (fw_spaced _ Hf)].
  intros Hne. destruct (fw_limit _ Hf a c) as (n & auth & Hac & Hau & Ha & Hc & Hle).
  - rewrite Hn. destruct given; [done|simpl; lia].
  - rewrite Hn in Hle. eauto 10.
Qed.

(** C13. The reputation is exact: what [calculate_reputation] computes over the
    indexes, with saturating arithmetic and clamps, are the means over the
    registries themselves: sixty percent of the mean of the feedback that was not
    revoked, weighted by age, and forty percent of the mean of the validations,
    in hundredths; no saturation and no clamp changes anything, and every score
    is between 0 and 10000. *)
Theorem reputation_exact now s a :
  agent_reachable s → Z.of_nat (size s.(ValidationResponses)) ≤ U32_MAX →
  let r := calculate_reputation now s a in
  r = expected_reputation now s a ∧
  0 ≤ r.(feedback_score) ≤ 10000 ∧ 0 ≤ r.(validation_score) ≤ 10000 ∧ 0 ≤ r.(overall_score) ≤ 10000.
Proof.
  intros Hs Hsize r. destruct (reachable_responses s Hs) as [Hi Hr]. pose proof (reachable_scores s Hs) as Hsc.
  assert (r = expected_reputation now s a) as -> by by apply calculate_reputation_expected.
  split; [done|]. by apply expected_reputation_bounds.
Qed.

(** The stored reputation is up to date: it is always the one the registries
    of the moment give, for the block of its last update; no call changes what
    counts for an agent without storing the new reputation. *)
Theorem reputation_stored s a r :
  agent_reachable s → s.(AgentReputations) !! a = Some r →
  r = calculate_reputation r.(last_updated) s a.
Proof.
  intros Hs. revert a r. change (reputation_current s).
  enough (indexes_wf s ∧ responses_wf s ∧ reputation_current s) by tauto.
  revert Hs.
  apply (reachable_ind (λ s, indexes_wf s ∧ responses_wf s ∧ reputation_current s));
    [split_and!; [apply genesis_indexes|apply genesis_responses|done]|].
  intros o s1 w1 s2 w2 (Hi & Hr & Hc) Hm.
  split_and!; [by eapply move_indexes|by eapply move_responses|by eapply move_current].
Qed.
End histories.

(** ** Escrows *)

Section escrows.
Context {W : Type} `{!System W, !Currency W, !ReservableCurrency W} {T : Config}.
Implicit Types (s : State) (w : W) (x : EscrowInfo).

(** How a call may change the status of an escrow. *)
Definition escrow_may_become (o : Origin) x (st : EscrowStatus) : Prop :=
  st = x.(status) ∨
  (o = Signed x.(escrow_client) ∧ x.(status) = EscrowActive ∧ st = Disputed) ∨
  (DisputeResolverOrigin o = true ∧ x.(status) = Disputed ∧ st = Resolved).

(** Who may end an escrow, and when. *)
Definition escrow_may_end (o : Origin) s (now : BlockNumber) x : Prop :=
  (∃ a, s.(Agents) !! x.(escrow_agent_id) = Some a ∧ o = Signed a.(owner) ∧ claimable x now) ∨
  (o = Signed x.(escrow_client) ∧ x.(timeout) ≤ now) ∨
  (DisputeResolverOrigin o = true ∧ x.(status) = Disputed).

(** Escrows are claimed when they complete: [AutoCompleted] is never stored. *)
Definition escrows_wf s : Prop := ∀ id x, s.(Escrows) !! id = Some x → x.(status) ≠ AutoCompleted.

Lemma move_escrows o s w s' w' : escrows_wf s → agent_move o s w s' w' → escrows_wf s'.
Proof.
  intros Hs Hm. destruct Hm; try exact Hs; intros id' x' Hx; simpl in *; entries; eauto.
  - congruence.
  - simpl. match goal with H : _ ∨ _ |- _ => destruct H as [(_ & _ & ->)|(_ & _ & ->)]; done end.
Qed.

Lemma move_escrow_of o s w s' w' id x :
  escrows_wf s → agent_move o s w s' w' → s.(NextEscrowId) ≠ id → s.(Escrows) !! id = Some x →
  match s'.(Escrows) !! id with
  | Some x' => x' = set_status x'.(status) x ∧ escrow_may_become o x x'.(status)
  | None => escrow_may_end o s (block_number w) x
  end.
Proof.
  intros Hs Hm Hn Hx. pose proof (Hs _ _ Hx) as Hna. unfold escrow_may_become, escrow_may_end.
  assert (x = set_status (status x) x) as Hrefl by by destruct x.
  destruct Hm; simpl in *; try (rewrite Hx; by auto).
  - rewrite lookup_insert_ne, Hx by done. auto.
  - rewrite lookup_delete. case_decide; [subst; simplify_eq; eauto|rewrite Hx; auto].
  - rewrite lookup_delete. case_decide; [subst; simplify_eq; tauto|rewrite Hx; auto].
  - rewrite lookup_insert. case_decide; [subst id0; simplify_eq; simpl|rewrite Hx; auto].
    split; [done|]. right. match goal with H : _ ∨ _ |- _ => destruct H as [(Ho & Hst & ->)|H]; [left|auto] end.
    split_and!; [done|set_solver|done].
Qed.

(** C15. Escrows follow their life cycle: the client, the agent, the amount and
    the times of an escrow never change; its status changes only by a dispute of
    its client and by the resolver's decision for the agent; and it ends only by
    a claim of the owner of its agent once it has completed and is not disputed,
    by its client after the timeout, or by the resolver's decision for the
    client. *)
Theorem escrow_lifecycle o c e e' id x :
  agent_reachable (W:=W) (store e) → agent_call_typed c → e ⊢ agent_dispatch o c ⇝ e' →
  (store e).(Escrows) !! id = Some x →
  match (store e').(Escrows) !! id with
  | Some x' => x' = set_status x'.(status) x ∧ escrow_may_become o x x'.(status)
  | None => escrow_may_end o (store e) (block_number (world e)) x
  end.
Proof.
  intros Hs Ht Hd Hx. eapply move_escrow_of; [|by eapply agent_dispatch_move| |done].
  - revert Hs. apply (reachable_ind escrows_wf); [done|]. intros. by eapply move_escrows.
  - pose proof (iw_escrow_next _ (reachable_indexes _ Hs) id (mk_is_Some _ _ Hx)). lia.
Qed.
End escrows.

(** ** Reserves *)

Section reserves.
Context {W : Type} `{!System W, !Currency W, !ReservableCurrency W, !Fungibles W}.
Context `{!WorldLaws W, !ReserveLaws W} {T : Config} `{!ValidAgentConfig}.
Context (x : AccountId).

(** Histories that are fair to [x]; the rest of the runtime does not take from
    the reserve of [x]. *)
Inductive held_history : State → W → Prop :=
| held_start w : world_wf 0 w → 0 ≤ reserved_balance x w → held_history agent_genesis w
| held_call o c e e' :
    held_history (store e) (world e) → issuance_fits (world e) →
    agent_call_typed c → e ⊢ agent_dispatch o c ⇝ e' →
    fair x (store e) (world e) (store e') (world e') → held_history (store e') (world e')
| held_rest s w w' :
    held_history s w → world_wf 0 w' → reserved_balance x w ≤ reserved_balance x w' →
    held_history s w'.

Lemma held_inv s w :
  held_history s w →
  indexes_wf s ∧ amounts_wf s ∧ world_wf 0 w ∧ due s x ≤ reserved_balance x w.
Proof.
  induction 1 as [w Hw H0|o c e e' _ (Hi & Ha & Hw & Hd) Hiss Ht Hrun Hf|s w w' _ (Hi & Ha & _ & Hd) Hw Hle].
  - split_and!; [apply genesis_indexes|apply genesis_amounts|done|done].
  - apply agent_dispatch_move in Hrun; [|done].
    destruct (move_due _ _ _ _ _ _ _ Hw Hiss Hi Ha Hrun Hf) as [Hw' Hdelta].
    split_and!; [by eapply move_indexes|by eapply move_amounts|done|lia].
  - split_and!; [done|done|done|lia].
Qed.

(** C12. What is held is there: as long as no request of an account is answered
    twice and the agents it is given come with their whole deposit, what the
    account has reserved covers everything it is held for: the deposits of its
    agents, of its feedback, of its requests with the rewards not paid yet and of
    its open disputes, its stake as a validator, and the escrows it opened. *)
Theorem reserves_cover s w : held_history s w → due s x ≤ reserved_balance x w.
Proof. intros Hh. by destruct (held_inv _ _ Hh) as (_ & _ & _ & Hd). Qed.
End reserves.
