(* ===== verification/Ledger.v ===== *)
(** * The ledgers as a pallet uses them

    The operations a pallet makes on the currencies, classified by the accounts
    they take from, and what they leave alone.  A pallet whose operations take
    only from its own accounts and from the accounts of its signers is harmless
    to every other pallet: this is how the pallets are composed in
    Leafchain.v. *)

From stdpp Require Import relations.
From S2P Require Import Prelude Arith Errors Frame.

Section ops.
Context {W : Type} `{!System W, !Currency W, !ReservableCurrency W, !Fungibles W}.
Implicit Types (w : W) (P Q : AccountId → Prop).

(** A payment that takes from an account of [P]. *)
Inductive payment P w : W → Prop :=
| payment_transfer from to v r w' :
    P from → 0 < v → transfer from to v r w = Ok (tt, w') → payment P w w'
| payment_withdraw who v r w' :
    P who → 0 < v → withdraw who v r w = Ok (tt, w') → payment P w w'
| payment_asset_transfer a from to v p b w' :
    P from → 0 < v → asset_transfer a from to v p w = Ok (b, w') → payment P w w'
| payment_asset_burn a who v b w' :
    P who → 0 < v → asset_burn_from a who v w = Ok (b, w') → payment P w w'.

(** A reservation that an account of [P] makes or takes back. *)
Inductive reservation P w : W → Prop :=
| reservation_made who v w' :
    P who → 0 ≤ v → reserve who v w = Ok (tt, w') → reservation P w w'
| reservation_taken who v x w' :
    P who → 0 ≤ v → unreserve who v w = (x, w') → reservation P w w'.

Lemma payment_weaken P Q w w' : (∀ x, P x → Q x) → payment P w w' → payment Q w w'.
Proof. intros HPQ []; eauto using payment. Qed.

Lemma payments_weaken P Q n w w' :
  (∀ x, P x → Q x) → bsteps (payment P) n w w' → bsteps (payment Q) n w w'.
Proof.
  intros HPQ. induction 1 as [|n w w1 w' Hp _ IH]; [apply bsteps_refl|].
  eapply bsteps_l; [|exact IH]. by eapply payment_weaken.
Qed.

Lemma reservation_weaken P Q w w' : (∀ x, P x → Q x) → reservation P w w' → reservation Q w w'.
Proof. intros HPQ []; eauto using reservation. Qed.

Lemma reservations_weaken P Q w w' :
  (∀ x, P x → Q x) → rtc (reservation P) w w' → rtc (reservation Q) w w'.
Proof. intros HPQ. apply rtc_subrel. intros w1 w2. by apply reservation_weaken. Qed.
End ops.

(** ** What is left alone *)

Section laws.
Context {W : Type} `{!System W, !Currency W, !ReservableCurrency W, !Fungibles W}.
Context `{!WorldLaws W, !ReserveLaws W}.
Implicit Types (w : W) (P : AccountId → Prop).

(** From [w] to [w'] only accounts of [P] lose anything; [n] asset accounts may
    be opened. *)
Record spares P (n : nat) w w' : Prop := {
  sp_wf : ∀ k, world_wf (n + k) w → world_wf k w';
  sp_free : ∀ x, ¬ P x → free_balance x w ≤ free_balance x w';
  sp_asset : ∀ a x, ¬ P x → asset_balance a x w ≤ asset_balance a x w';
  sp_reserved : ∀ x, ¬ P x → reserved_balance x w' = reserved_balance x w;
  sp_min : ∀ a, asset_minimum_balance a w' = asset_minimum_balance a w;
  sp_block : block_number w' = block_number w;
}.

Lemma spares_refl P n w : spares P n w w.
Proof.
  split; try done; [|lia..]. intros k. induction n as [|n IH]; [done|].
  intros Hw. by apply IH, world_wf_less.
Qed.

Lemma spares_trans P n1 n2 w1 w2 w3 :
  spares P n1 w1 w2 → spares P n2 w2 w3 → spares P (n1 + n2) w1 w3.
Proof.
  intros [] []. split; try congruence.
  - intros k Hk. apply sp_wf1, sp_wf0. by rewrite Nat.add_assoc.
  - intros x Hx. etransitivity; [by apply sp_free0|by apply sp_free1].
  - intros a x Hx. etransitivity; [by apply sp_asset0|by apply sp_asset1].
  - intros x Hx. rewrite sp_reserved1, sp_reserved0; done.
Qed.

(** A table of balances in which an account of [P] pays. *)
Lemma moved_spares P bal bal' ed from to v keep x :
  moved bal bal' ed from to v keep → 0 ≤ v → P from → ¬ P x → bal x ≤ bal' x.
Proof.
  intros [] Hv Hf Hx. destruct (decide (x = from)) as [->|Hne]; [done|].
  destruct (decide (x = to)) as [->|]; [lia|]. rewrite moved_other; done.
Qed.

Lemma burnt_spares P bal bal' ed who v x :
  burnt bal bal' ed who v → P who → ¬ P x → bal' x = bal x.
Proof. intros [] Hw Hx. apply burnt_other. by intros ->. Qed.

Lemma payment_spares P k w w' : world_wf (S k) w → payment P w w' → spares P 1 w w'.
Proof.
  intros Hw [from to v r w1 HP Hv Ht|who v r w1 HP Hv Ht|a from to v p b w1 HP Hv Ht|a who v b w1 HP Hv Ht].
  - destruct (decide (from = to)) as [Heq|Hne].
    { apply transfer_noop in Ht as ->; [apply spares_refl|by right]. }
    destruct (transfer_moved _ _ _ _ _ _ _ Hw Hv Hne Ht) as (_ & Hm & Ha & Hmin & Hb).
    split; try done.
    + intros k' Hk'. by eapply world_wf_less, transfer_moved.
    + intros x Hx. eapply (moved_spares P _ _ _ _ _ _ _ x Hm); [lia|done..].
    + intros a x _. by rewrite Ha.
    + intros x _. eapply transfer_reserved; [exact Hw| |exact Ht]; lia.
  - destruct (withdraw_burnt _ _ _ _ _ _ Hw Hv Ht) as (_ & Hm & _ & Ha & Hmin & Hb).
    split; try done.
    + intros k' Hk'. by eapply world_wf_less, withdraw_burnt.
    + intros x Hx. by rewrite (burnt_spares P _ _ _ _ _ x Hm).
    + intros a x _. by rewrite Ha.
    + intros x _. by eapply withdraw_reserved.
  - destruct (decide (from = to)) as [Heq|Hne].
    { apply asset_transfer_noop in Ht as ->; [apply spares_refl|done]. }
    destruct (asset_transfer_moved _ _ _ _ _ _ _ _ _ Hw Hv Hne Ht) as (_ & _ & Hm & Ha & Hmin & Hf & Hb).
    split; try done.
    + intros k' Hk'. by eapply asset_transfer_moved.
    + intros x _. by rewrite Hf.
    + intros a' x Hx. destruct (decide (a' = a)) as [->|]; [|by rewrite Ha].
      eapply (moved_spares P _ _ _ _ _ _ _ x Hm); [lia|done..].
    + intros x _. by eapply asset_transfer_reserved.
  - destruct (asset_burn_burnt _ _ _ _ _ _ _ Hw Hv Ht) as (_ & Hm & Ha & Hmin & Hf & Hb).
    split; try done.
    + intros k' Hk'. by eapply world_wf_less, asset_burn_burnt.
    + intros x _. by rewrite Hf.
    + intros a' x Hx. destruct (decide (a' = a)) as [->|]; [|by rewrite Ha].
      by rewrite (burnt_spares P _ _ _ _ _ x Hm).
    + intros x _. by eapply asset_burn_reserved.
Qed.

Lemma reservation_spares P k w w' : world_wf k w → reservation P w w' → spares P 0 w w'.
Proof.
  intros Hw [who v w1 HP Hv Hr|who v y w1 HP Hv Hr].
  - destruct (reserve_effect _ _ _ _ _ Hw Hv Hr) as (_ & _ & Hx & Ha & Hmin & Hb). split; try done.
    + intros k' Hk'. by eapply reserve_effect.
    + intros x Hn. destruct (Hx x) as [-> _]; [by intros ->|done].
    + intros a x _. by rewrite Ha.
    + intros x Hn. apply Hx. by intros ->.
  - destruct (unreserve_effect _ _ _ _ _ _ Hw Hv Hr) as (_ & _ & Hx & Ha & Hmin & Hb). split; try done.
    + intros k' Hk'. by eapply unreserve_effect.
    + intros x Hn. destruct (Hx x) as [-> _]; [by intros ->|done].
    + intros a x _. by rewrite Ha.
    + intros x Hn. apply Hx. by intros ->.
Qed.

(** Sequences of operations. *)
Lemma payments_spare P n w w' : world_wf n w → bsteps (payment P) n w w' → spares P n w w'.
Proof.
  intros Hw Hs. revert Hw. induction Hs as [n w|n w w1 w' Hop _ IH]; intros Hw; [apply spares_refl|].
  pose proof (payment_spares _ _ _ _ Hw Hop) as Hsp.
  eapply (spares_trans _ 1); [exact Hsp|]. apply IH, (sp_wf _ _ _ _ Hsp), Hw.
Qed.

Lemma reservations_spare P k w w' : world_wf k w → rtc (reservation P) w w' → spares P 0 w w'.
Proof.
  intros Hw Hs. revert Hw. induction Hs as [w|w w1 w' Hop _ IH]; intros Hw; [apply spares_refl|].
  pose proof (reservation_spares _ _ _ _ Hw Hop) as Hsp.
  eapply (spares_trans _ 0); [exact Hsp|]. apply IH, (sp_wf _ _ _ _ Hsp), Hw.
Qed.

(** Payments leave what is reserved to everybody. *)
Lemma payments_reserved P n w w' x :
  world_wf n w → bsteps (payment P) n w w' → reserved_balance x w' = reserved_balance x w.
Proof.
  intros Hw Hs. revert Hw. induction Hs as [n w|n w w1 w' Hop _ IH]; intros Hw; [done|].
  rewrite IH by apply (sp_wf _ _ _ _ (payment_spares _ _ _ _ Hw Hop)), Hw.
  destruct Hop; eauto using transfer_reserved, withdraw_reserved, asset_transfer_reserved,
    asset_burn_reserved, Z.lt_le_incl.
Qed.
End laws.
