(* ===== verification/CrowdfundingPayments.v ===== *)
(** * pallet-crowdfunding: whose money a call moves

    Every operation a call makes on the ledgers takes from the account that
    signed the call or from a sub-account of the pallet. *)

From stdpp Require Import relations.
From S2P Require Import Prelude Arith Errors Frame Crowdfunding CrowdfundingMath.
From S2P Require Import CrowdfundingSpec CrowdfundingInv CrowdfundingFunds CrowdfundingCorrect Ledger.

Section payments.
Context {W : Type} `{!System W, !Currency W, !Fungibles W, !NftInspect W}
  `{!LicenseVerifier W, !WorldLaws W} {T : Config} `{!ValidConfig}.
Implicit Types (e : CEnv W) (s : State) (w : W) (P : AccountId → Prop).

(** The accounts a call of origin [o] may take from. *)
Definition debits (o : Origin) (x : AccountId) : Prop :=
  o = Signed x ∨ ∃ id, fits U32_MAX id ∧ x = campaign_account id.

Lemma pay_payment P cur from to amount r w w' :
  pay cur from to amount r w w' → P from → 0 ≤ amount → bsteps (payment P) 1 w w'.
Proof.
  unfold pay. destruct (Z.eqb_spec amount 0); [intros ->; intros; apply bsteps_refl|].
  destruct cur; [intros Ht HP Ha|intros [b Ht] HP Ha]; apply bsteps_once;
    [eapply payment_transfer|eapply payment_asset_transfer]; try done; lia.
Qed.

Lemma burn_payment P cur who amount r w w' :
  burn cur who amount r w w' → P who → 0 ≤ amount → bsteps (payment P) 1 w w'.
Proof.
  unfold burn. destruct (Z.eqb_spec amount 0); [intros ->; intros; apply bsteps_refl|].
  destruct cur; [intros Ht HP Ha|intros [b Ht] HP Ha]; apply bsteps_once;
    [eapply payment_withdraw|eapply payment_asset_burn]; try done; lia.
Qed.

Lemma split_payment P cur id r who fee share w w' :
  pay_split cur id r who fee share w w' → P (campaign_account id) → 0 ≤ fee → 0 ≤ share →
  bsteps (payment P) 2 w w'.
Proof.
  intros (w1 & H1 & H2) HP Hf Hs. apply (bsteps_trans 1 1 _ w1); by eapply pay_payment.
Qed.

(** Calls that move no money. *)
Definition moves_money (call : Call) : bool :=
  match call with
  | Create_campaign _ _ _ | Invest _ _ | Withdraw_investment _ _ | Claim_refund _
  | Claim_funds _ | Claim_creation_deposit _ | Claim_milestone_funds _ _ => true
  | _ => false
  end.

Lemma dispatch_still o call e e' :
  moves_money call = false → e ⊢ dispatch o call ⇝ e' → world e' = world e.
Proof.
  intros Hm Hrun. destruct call; simpl in Hm; try discriminate; simpl in Hrun.
  - apply cancel_campaign_run in Hrun. naive_solver.
  - apply set_default_eligibility_run in Hrun. naive_solver.
  - apply finalize_campaign_run in Hrun. naive_solver.
  - apply submit_milestone_run in Hrun. unfold milestone_move in Hrun. naive_solver.
  - apply approve_milestone_run in Hrun as [_ Hrun]. unfold milestone_move in Hrun. naive_solver.
  - apply reject_milestone_run in Hrun as [_ Hrun]. unfold milestone_move in Hrun. naive_solver.
  - apply pause_campaign_run in Hrun. naive_solver.
  - apply resume_campaign_run in Hrun. naive_solver.
  - apply add_to_whitelist_run in Hrun. naive_solver.
  - apply remove_from_whitelist_run in Hrun. naive_solver.
  - apply set_protocol_config_run in Hrun. naive_solver.
  - apply report_license_revoked_run in Hrun. naive_solver.
  - apply force_finalize_campaign_run in Hrun. naive_solver.
Qed.

Lemma debits_campaign o id c s :
  Inv s → s.(Campaigns) !! id = Some c → debits o (campaign_account id).
Proof. intros HI Hc. right. exists id. split; [by eapply stored_id_fits|done]. Qed.

Lemma once_twice P w w' : bsteps (payment P) 1 w w' → bsteps (payment P) 2 w w'.
Proof. apply bsteps_S. Qed.

(** The surroundings change by at most two payments. *)
Lemma dispatch_payments o call e e' :
  Inv (store e) → typed_call call → e ⊢ dispatch o call ⇝ e' →
  bsteps (payment (debits o)) 2 (world e) (world e').
Proof.
  intros HI Hty Hrun. pose proof vc_deposit.
  destruct (moves_money call) eqn:Hm.
  2:{ rewrite (dispatch_still _ _ _ _ Hm Hrun). apply bsteps_refl. }
  destruct call; simpl in Hm; try discriminate; clear Hm; simpl in *.
  - apply create_campaign_run in Hrun as (who & -> & _ & _ & _ & _ & _ & _ & _ & _ & Ht & _).
    apply once_twice, bsteps_once. eapply payment_transfer; [by left| |exact Ht]. lia.
  - destruct Hty. apply invest_run in Hrun
      as (who & c & -> & _ & _ & _ & _ & _ & _ & _ & _ & _ & Hp & _).
    apply once_twice. eapply pay_payment; [exact Hp|by left|done].
  - destruct Hty. apply withdraw_investment_run in Hrun
      as (who & c & i & w1 & -> & Hc & _ & _ & _ & _ & Hp & Hb & _).
    apply (bsteps_trans 1 1 _ w1).
    + eapply pay_payment; [exact Hp|by eapply debits_campaign|apply saturating_sub_nonneg].
    + eapply burn_payment; [exact Hb|by eapply debits_campaign|by eapply penalty_nonneg].
  - apply claim_refund_run in Hrun as (who & c & i & -> & Hc & _ & _ & _ & _ & Hp & _).
    apply once_twice. eapply pay_payment; [exact Hp|by eapply debits_campaign|].
    apply refund_of_bounds; [|apply saturating_sub_nonneg].
    by apply (ci_disbursed _ _ _ (si_campaign _ _ (inv_slices _ HI _) c Hc)).
  - apply claim_funds_run in Hrun as (c & -> & Hc & _ & _ & Hp & _).
    pose proof (ci_fee _ _ _ (si_campaign _ _ (inv_slices _ HI _) c Hc)).
    eapply split_payment; [exact Hp|by eapply debits_campaign| |apply saturating_sub_nonneg].
    apply bps_of_nonneg; [apply saturating_sub_nonneg|lia].
  - apply claim_creation_deposit_run in Hrun as (c & r & -> & Hc & _ & Hd & _ & Ht & _).
    pose proof (ci_deposit _ _ _ (si_campaign _ _ (inv_slices _ HI _) c Hc)).
    apply once_twice, bsteps_once. eapply payment_transfer; [by eapply debits_campaign| |exact Ht]. lia.
  - apply claim_milestone_funds_run in Hrun as (c & goal & ms & m & -> & Hc & _ & Hms & _ & Hi & Hp & _).
    pose proof (ci_fee _ _ _ (si_campaign _ _ (inv_slices _ HI _) c Hc)).
    pose proof (release_nonneg _ _ _ _ _ _ _ HI Hc Hms Hi).
    eapply split_payment; [exact Hp|by eapply debits_campaign| |apply saturating_sub_nonneg].
    apply bps_of_nonneg; lia.
Qed.
End payments.
