(* ===== verification/RwaPayments.v ===== *)
(** * pallet-rwa: whose money a call moves

    A transition of a participation makes payments that take from the pallet's
    account or from the account that signed the call; a transition of an asset
    changes the reservations of the signer and of the owner. *)

From stdpp Require Import relations.
From S2P Require Import Prelude Arith Errors Frame Rwa RwaSpec RwaInv RwaParts RwaCorrect.
From S2P Require Import RwaReach RwaMachine RwaRefine RwaEvolve RwaFunds RwaCustody Ledger.

Section payments.
Context {W : Type} `{!System W, !Currency W, !ReservableCurrency W, !Fungibles W}
  `{!WorldLaws W, !ReserveLaws W} `{!ParticipationFilter W, !AssetLifecycleGuard W} {T : Config}.
Implicit Types (w : W) (r : Registry) (P : AccountId → Prop).

Lemma pays_payment P cur from to amount w w' :
  pays cur from to amount w w' → P from → 0 ≤ amount → bsteps (payment P) 1 w w'.
Proof.
  unfold pays. destruct (Z.eqb_spec amount 0); [intros ->; intros; apply bsteps_refl|].
  destruct cur; [intros Ht HP Ha|intros [b Ht] HP Ha]; apply bsteps_once;
    [eapply payment_transfer|eapply payment_asset_transfer]; try done; lia.
Qed.

Lemma burns_payment P cur who amount w w' :
  burns cur who amount w w' → P who → 0 ≤ amount → bsteps (payment P) 1 w w'.
Proof.
  unfold burns. destruct (Z.eqb_spec amount 0); [intros ->; intros; apply bsteps_refl|].
  destruct cur; [intros Ht HP Ha|intros [b Ht] HP Ha]; apply bsteps_once;
    [eapply payment_withdraw|eapply payment_asset_burn]; try done; lia.
Qed.

Lemma payment_room P n w w' :
  bsteps (payment P) 1 w w' → (1 ≤ n)%nat → bsteps (payment P) n w w'.
Proof. intros H Hn. by eapply bsteps_weaken. Qed.

Lemma entry_payment P a who w w' :
  entry_paid a who w w' → P who → policy_fits a.(policy) → bsteps (payment P) 2 w w'.
Proof.
  intros He HP (Hd & Hf & _). unfold entry_paid in He. destruct (requires_approval _).
  - apply bsteps_S. eapply pays_payment; [exact He|done|ulia].
  - destruct He as (w1 & H1 & H2). apply (bsteps_trans 1 1 _ w1); by eapply pays_payment.
Qed.

Lemma shares_payment P cur total b rep d dd w w' :
  shares_paid cur total b rep d dd w w' → P pallet_account → 0 ≤ total →
  Forall (λ x, 0 ≤ x.(share)) d → bsteps (payment P) (length d) w w'.
Proof.
  intros Hp HP Ht Hd. revert dd w Hp. induction Hd as [|x d Hx Hd IH]; intros dd w Hp; simpl in Hp.
  { subst. apply bsteps_refl. }
  destruct Hp as (w1 & H1 & Hp). apply (bsteps_trans 1 (length d) _ w1); [|by eapply IH].
  pose proof (share_of_nonneg total dd x d Ht Hx). unfold slash_paid in H1.
  destruct (slash_dest b rep x.(kind)); [by eapply pays_payment|by eapply burns_payment].
Qed.

Lemma slash_payment P id r a amount rep w w' :
  slash_handed_out (r.(r_slash) !! id) a amount rep w w' → sane r → P pallet_account → 0 ≤ amount →
  bsteps (payment P) (1 + Z.to_nat MaxSlashRecipients) w w'.
Proof.
  intros Hp Hs HP Ha. destruct (r.(r_slash) !! id) as [d|] eqn:Hd; simpl in Hp.
  - destruct (sn_slash _ Hs _ _ Hd) as (Hsh & _ & Hlen). destruct d as [|x d].
    { apply payment_room; [by eapply pays_payment|lia]. }
    eapply bsteps_weaken, shares_payment; [|exact Hp|done|done|]; [lia|].
    eapply Forall_impl; [exact Hsh|]. simpl. lia.
  - apply payment_room; [by eapply pays_payment|lia].
Qed.

(** The accounts a mover may take from: the pallet's and the signer's. *)
Definition taps (m : mover) (x : AccountId) : Prop := x = pallet_account ∨ signed_by m x.

(** A transition of a participation is paid from there. *)
Lemma part_move_payments m id pid a r w new w' :
  sound m → sane r → r.(r_assets) !! id = Some a →
  part_move m id pid a r w (r.(r_parts) !! (id, pid)) new w' →
  bsteps (payment (taps m)) part_room w w'.
Proof.
  intros Hm Hs Ha Hmove. destruct (sn_assets _ Hs _ _ Ha) as (Hpol & _ & _).
  pose proof Hpol as (Hpd & Hpf & _).
  assert (∀ p, r.(r_parts) !! (id, pid) = Some p → 0 ≤ p.(deposit_held) ∧ 0 ≤ p.(entry_fee_paid))
    as Hnn by (intros p Hp; by apply (sn_parts _ Hs _ _ _ Hp)).
  assert (taps m pallet_account) as Hme by by left.
  assert (∀ P n (w w' : W), bsteps (payment P) n w w' → (n ≤ 2)%nat → bsteps (payment P) part_room w w')
    as Hweak by (intros P n w1 w2 Hb Hn; eapply bsteps_weaken; [|exact Hb]; unfold part_room; lia).
  remember (r.(r_parts) !! (id, pid)) as old eqn:Hold. clear Hold.
  destruct Hmove; try specialize (Hnn _ eq_refl) as [Hdep Hfee]; try apply bsteps_refl;
    try (eapply Hweak; [eapply pays_payment; [eassumption|done|ulia]|lia]).
  - eapply Hweak; [eapply entry_payment; [eassumption|by right|done]|lia].
  - eapply Hweak; [eapply pays_payment; [eassumption|done|]|lia].
    destruct (bool_decide _); ulia.
  - eapply Hweak; [eapply pays_payment; [eassumption|by right|done]|lia].
  - eapply Hweak; [|reflexivity]. apply (bsteps_trans 1 1 _ w1);
      (eapply pays_payment; [eassumption|by right|done]).
  - assert (0 ≤ amount) as Hamt.
    { destruct m as [o []|]; try done. simpl in H. destruct H as (_ & _ & _ & <-). apply Hm. }
    unfold part_room. replace (2 + Z.to_nat MaxSlashRecipients)%nat
      with ((1 + Z.to_nat MaxSlashRecipients) + 1)%nat by lia.
    apply (bsteps_trans _ _ _ w1); [by eapply slash_payment|]. eapply pays_payment; [eassumption|done|lia].
Qed.

(** The owners of the assets. *)
Definition owns r (x : AccountId) : Prop :=
  ∃ id a, r.(r_assets) !! id = Some a ∧ a.(owner) = x.

(** A transition of an asset changes the reservations of its signer and of its
    owner. *)
Lemma asset_move_reservations m id r w r' w' :
  0 ≤ AssetRegistrationDeposit → sane r → asset_move m id r w r' w' →
  rtc (reservation (λ x, signed_by m x ∨ owns r x)) w w'.
Proof.
  intros Hreg Hs Hmove.
  assert (∀ a, r.(r_assets) !! id = Some a → 0 ≤ a.(registration_deposit) ∧ owns r a.(owner)) as Ho.
  { intros a Ha. destruct (sn_assets _ Hs _ _ Ha) as (_ & ? & _). split; [done|]. by exists id, a. }
  destruct Hmove; try apply rtc_refl; try (destruct (Ho _ ltac:(eassumption)) as [Hd Hown]).
  - apply rtc_once. by eapply reservation_made; [left|..].
  - apply rtc_once. by eapply reservation_taken; [right|..].
  - apply rtc_once. by eapply reservation_taken; [right|..].
  - apply (rtc_l _ _ w1); [by eapply reservation_taken; [right|..]|].
    apply rtc_once. by eapply reservation_made; [left|..].
Qed.

(** Assets change hands between signers only. *)
Lemma owns_put_asset id a r x : owns (put_asset id a r) x → a.(owner) = x ∨ owns r x.
Proof.
  intros (j & b & Hb & Hx). simpl in Hb. apply lookup_insert_Some in Hb as [[_ <-]|[_ Hb]]; [by left|].
  right. by exists j, b.
Qed.

Lemma asset_move_owners m id r w r' w' x :
  asset_move m id r w r' w' → owns r' x → signed_by m x ∨ owns r x.
Proof.
  intros Hmove Ho.
  assert (∀ a, r.(r_assets) !! id = Some a → owns r a.(owner)) as Hin by (intros a Ha; by exists id, a).
  destruct Hmove; try (by right); try (apply owns_put_asset in Ho as [<-|Ho]; simpl in *; auto).
Qed.

Lemma part_step_assets m (v v' : Registry * W) : part_step m v v' → v'.1.(r_assets) = v.1.(r_assets).
Proof. by intros []. Qed.

(** ** Whole calls *)

Lemma part_steps_payments n m (v v' : Registry * W) :
  sound m → sane v.1 → bsteps (part_step m) n v v' →
  bsteps (payment (taps m)) (n * part_room) v.2 v'.2.
Proof.
  intros Hm Hs Hsteps. revert Hs.
  induction Hsteps as [n v|n v v1 v' Hstep _ IH]; intros Hs; [apply bsteps_refl|].
  apply (bsteps_trans part_room (n * part_room) _ v1.2); [|by eapply IH, part_step_sane].
  destruct Hstep. by eapply part_move_payments.
Qed.

Lemma asset_steps_reservations n m (v v' : Registry * W) :
  sound m → 0 ≤ AssetRegistrationDeposit → sane v.1 → bsteps (asset_step m) n v v' →
  rtc (reservation (λ x, signed_by m x ∨ owns v.1 x)) v.2 v'.2.
Proof.
  intros Hm Hreg Hs Hsteps. revert Hs.
  induction Hsteps as [n v|n v v1 v' [id Hmove] _ IH]; intros Hs; [apply rtc_refl|].
  transitivity v1.2; [by eapply asset_move_reservations|].
  assert (sane v1.1) as Hs1 by by eapply asset_move_sane. specialize (IH Hs1). revert IH.
  apply reservations_weaken. intros x [Hx|Hx]; [by left|]. by eapply asset_move_owners.
Qed.

(** Who owns assets afterwards signed the call or owned one before. *)
Lemma part_steps_owners n m (v v' : Registry * W) x :
  bsteps (part_step m) n v v' → owns v'.1 x → owns v.1 x.
Proof.
  induction 1 as [|n v v1 v' Hstep _ IH]; [done|]. intros (id & a & Ha & Hx)%IH.
  exists id, a. by rewrite <- (part_step_assets _ _ _ Hstep).
Qed.

Lemma asset_steps_owners n m (v v' : Registry * W) x :
  bsteps (asset_step m) n v v' → owns v'.1 x → signed_by m x ∨ owns v.1 x.
Proof.
  induction 1 as [|n v v1 v' [id Hmove] _ IH]; [by right|].
  intros [Hx|Hx]%IH; [by left|]. by eapply asset_move_owners.
Qed.

Lemma dispatch_owners o call (e e' : CEnv W) x :
  Inv (store e) → e ⊢ dispatch o call ⇝ e' → owns (abs (store e')) x →
  o = Signed x ∨ owns (abs (store e)) x.
Proof.
  intros HI Hrun Hx. destruct (dispatch_refines _ _ _ _ HI Hrun) as [Ha|Hp].
  - by apply (asset_steps_owners 1 (ByCall o call) (view e) (view e')); [apply bsteps_once|].
  - right. by apply (part_steps_owners call_bound (ByCall o call) (view e) (view e')).
Qed.

Lemma hook_owners n (e e' : CEnv W) x :
  Inv (store e) → on_initialize n e = Ok (tt, e') → owns (abs (store e')) x → owns (abs (store e)) x.
Proof.
  intros HI Hrun%hook_refines Hx; [|done]. by destruct (asset_steps_owners _ _ _ _ x Hrun Hx).
Qed.

Lemma dispatch_ops o call (e e' : CEnv W) :
  Inv (store e) → sane (abs (store e)) → 0 ≤ AssetRegistrationDeposit → sound_call o call →
  e ⊢ dispatch o call ⇝ e' →
  bsteps (payment (taps (ByCall o call))) (call_bound * part_room) (world e) (world e') ∨
  rtc (reservation (λ x, signed_by (ByCall o call) x ∨ owns (abs (store e)) x)) (world e) (world e').
Proof.
  intros HI Hs Hreg Hc Hrun. destruct (dispatch_refines _ _ _ _ HI Hrun) as [Ha|Hp]; [right|left].
  - by apply (asset_steps_reservations 1 (ByCall o call) (view e) (view e')); [..|apply bsteps_once].
  - by apply (part_steps_payments call_bound (ByCall o call) (view e) (view e')).
Qed.

Lemma hook_ops n (e e' : CEnv W) :
  Inv (store e) → sane (abs (store e)) → 0 ≤ AssetRegistrationDeposit →
  on_initialize n e = Ok (tt, e') →
  rtc (reservation (owns (abs (store e)))) (world e) (world e').
Proof.
  intros HI Hs Hreg Hrun%hook_refines; [|done].
  apply asset_steps_reservations in Hrun; [|done..]. revert Hrun. apply reservations_weaken.
  by intros x [[]|Hx].
Qed.
End payments.
