(* ===== verification/TrustlessAgentPayments.v ===== *)
(** * pallet-trustless-agent: whose money a call moves

    A call takes free balance only from the account that signed it, or from one
    that signed an earlier call: the client of an escrow, the requester of a
    validation, the party to a dispute. *)

From S2P Require Import Prelude Arith Errors Frame TrustlessAgent TrustlessAgentSpec TrustlessAgentInv.
From S2P Require Import TrustlessAgentFunds.

(** The accounts the registries may take from later. *)
Definition party (s : State) (x : AccountId) : Prop :=
  (∃ id r, s.(ValidationRequests) !! id = Some r ∧ r.(requester) = x) ∨
  (∃ id e, s.(Escrows) !! id = Some e ∧ e.(escrow_client) = x) ∨
  (∃ id d, s.(Disputes) !! id = Some d ∧ d.(disputer) = x).

Section payments.
Context {W : Type} `{!System W, !Currency W, !ReservableCurrency W, !Fungibles W}.
Context `{!WorldLaws W, !ReserveLaws W} {T : Config}.
Implicit Types (s : State) (w : W) (P : AccountId → Prop).

Lemma move_party o s w s' w' x : agent_move o s w s' w' → party s' x → o = Signed x ∨ party s x.
Proof.
  unfold party. intros Hm Hx. destruct Hm; simpl in *; try (right; exact Hx);
    destruct Hx as [(i & r1 & Hi & <-)|[(i & r1 & Hi & <-)|(i & r1 & Hi & <-)]]; entries; simpl; eauto 8;
    left; congruence.
Qed.

(** From [w] to [w'] only accounts of [P] lose free balance, and assets are
    not touched. *)
Record takes P w w' : Prop := {
  tk_wf : ∀ k, world_wf k w → world_wf k w';
  tk_free : ∀ x, ¬ P x → free_balance x w ≤ free_balance x w';
  tk_asset : ∀ a x, asset_balance a x w' = asset_balance a x w;
  tk_min : ∀ a, asset_minimum_balance a w' = asset_minimum_balance a w;
  tk_block : block_number w' = block_number w;
}.

Lemma takes_refl P w : takes P w w.
Proof. by split. Qed.

Lemma takes_trans P w1 w2 w3 : takes P w1 w2 → takes P w2 w3 → takes P w1 w3.
Proof.
  intros [] []. split; try congruence; [auto|]. intros x Hx. etransitivity; [by apply tk_free0|by apply tk_free1].
Qed.

Lemma takes_reserve P k who v w w' :
  reserve who v w = Ok (tt, w') → world_wf k w → 0 ≤ v → P who → takes P w w'.
Proof.
  intros Hr Hw Hv HP. destruct (reserve_effect _ _ _ _ _ Hw Hv Hr) as (_ & _ & Hx & Ha & Hm & Hb).
  split; try done.
  - intros k' Hk'. by eapply reserve_effect.
  - intros x Hn. destruct (Hx x) as [-> _]; [by intros ->|done].
Qed.

Lemma takes_unreserve P k who v w r w' :
  unreserve who v w = (r, w') → world_wf k w → 0 ≤ v → P who → takes P w w'.
Proof.
  intros Hr Hw Hv HP. destruct (unreserve_effect _ _ _ _ _ _ Hw Hv Hr) as (_ & _ & Hx & Ha & Hm & Hb).
  split; try done.
  - intros k' Hk'. by eapply unreserve_effect.
  - intros x Hn. destruct (Hx x) as [-> _]; [by intros ->|done].
Qed.

Lemma takes_repatriate P k from to v st w r w' :
  repatriate_reserved from to v st w = Ok (r, w') →
  world_wf k w → 0 ≤ v → issuance_fits w → P from → takes P w w'.
Proof.
  intros Hr Hw Hv Hi HP.
  destruct (repatriate_effect _ _ _ _ _ _ _ _ Hw Hv (λ Hne, Hi to from (not_eq_sym Hne)) Hr)
    as (_ & _ & Hx & _ & _ & Ha & Hm & Hb). split; try done.
  - intros k' Hk'. by eapply (repatriate_effect _ _ _ _ _ _ _ _ Hk' Hv (λ Hne, Hi to from (not_eq_sym Hne))).
  - intros x Hn. apply Hx. by intros ->.
Qed.

Lemma takes_transfer P k from to v r w w' :
  transfer from to v r w = Ok (tt, w') → world_wf k w → 0 ≤ v → P from → takes P w w'.
Proof.
  intros Ht Hw Hv HP. destruct (decide (v = 0 ∨ from = to)) as [Hno|Hno].
  { apply transfer_noop in Ht as ->; [apply takes_refl|done]. }
  assert (0 < v ∧ from ≠ to) as [Hpos Hne] by (split; [lia|tauto]).
  destruct (transfer_moved _ _ _ _ _ _ _ Hw Hpos Hne Ht) as (_ & [] & Ha & Hm & Hb). split; try done.
  - intros k' Hk'. by eapply transfer_moved.
  - intros x Hx. destruct (decide (x = to)) as [->|]; [lia|]. rewrite moved_other; [done|by intros ->|done].
Qed.

Context `{!ValidAgentConfig}.

(** What a move takes. *)
Lemma move_takes k o s w s' w' :
  world_wf k w → issuance_fits w → amounts_wf s → agent_move o s w s' w' →
  takes (λ x, o = Signed x ∨ party s x) w w'.
Proof.
  intros Hw Hi Ham Hm.
  assert (∀ x, o = Signed x → (λ x, o = Signed x ∨ party s x) x) as Psigned by auto.
  destruct Hm; try apply takes_refl;
    try (eapply takes_reserve; [eassumption|eassumption|by eauto with amounts|by apply Psigned]);
    try (eapply takes_unreserve; [eassumption|eassumption|by eauto with amounts|by apply Psigned]).
  - eapply takes_repatriate; [eassumption|eassumption|by eauto with amounts|done|by apply Psigned].
  - destruct (Z.ltb_spec 0 (reward req)); [|subst; apply takes_refl].
    destruct H7 as [r Hrep]. eapply takes_repatriate; [eassumption|eassumption|lia|done|].
    right. left. eauto.
  - assert (takes (λ x, o = Signed x ∨ party s x) w w1) as H1'.
    { eapply takes_unreserve; [eassumption|eassumption|by eauto with amounts|]. right. right. left. eauto. }
    eapply takes_trans; [exact H1'|].
    eapply takes_transfer; [eassumption|by apply (tk_wf _ _ _ H1')|by eauto with amounts|].
    right. right. left. eauto.
  - eapply takes_unreserve; [eassumption|eassumption|by eauto with amounts|]. right. right. left. eauto.
  - eapply takes_unreserve; [eassumption|eassumption|by eauto with amounts|]. right. right. right. eauto.
Qed.
End payments.
