(* ===== verification/Runtime.v ===== *)
(** * The general leafchain runtime

    The configuration of the pallets and the cross-pallet hooks of
    src/thxnet/leafchain/runtime/general/src/{lib,impls}.rs: the surroundings of
    each pallet are the ledgers of Balances.v and Assets.v, the block number,
    the owners of the NFTs and the storage of the other pallet. *)

From S2P Require Import Prelude Arith Errors Frame Balances BalancesLaws Assets AssetsLaws.
From S2P Require Crowdfunding CrowdfundingInv Rwa TrustlessAgent TrustlessAgentFunds.

(** ** Constants *)

Definition UNITS : Balance := 10000000000.
Definition DOLLARS : Balance := UNITS.
Definition EXISTENTIAL_DEPOSIT : Balance := DOLLARS / 1000.
Definition MILLISECS_PER_BLOCK : Z := 6000.
Definition SECS_PER_BLOCK : Z := MILLISECS_PER_BLOCK / 1000.
Definition MINUTES : BlockNumber := 60 / SECS_PER_BLOCK.
Definition HOURS : BlockNumber := MINUTES * 60.
Definition DAYS : BlockNumber := HOURS * 24.

#[global] Instance runtime_balances : BalancesConfig := {|
  ExistentialDeposit := EXISTENTIAL_DEPOSIT;
  MaxConsumers := 16;
|}.

(** [b"py/crwdf"] and [b"py/rwaaa"] *)
Definition CrowdfundingPalletId : list Z := [112; 121; 47; 99; 114; 119; 100; 102].
Definition RwaPalletId : list Z := [112; 121; 47; 114; 119; 97; 97; 97].

#[global] Instance crowdfunding_config : Crowdfunding.Config := {|
  Crowdfunding.AdminOrigin := EnsureRoot;
  Crowdfunding.ForceOrigin := EnsureRoot;
  Crowdfunding.MilestoneApprover := EnsureRoot;
  Crowdfunding.PalletId := CrowdfundingPalletId;
  Crowdfunding.CampaignCreationDeposit := 50 * DOLLARS;
  Crowdfunding.MaxCampaignsPerCreator := 20;
  Crowdfunding.MinCampaignDuration := 1 * DAYS;
  Crowdfunding.MaxCampaignDuration := 90 * DAYS;
  Crowdfunding.EarlyWithdrawalPenaltyBps := 100;
  Crowdfunding.MaxMilestones := 10;
  Crowdfunding.MaxEligibilityRules := 5;
  Crowdfunding.MaxNftSets := 5;
  Crowdfunding.MaxNftsPerSet := 5;
  Crowdfunding.MaxInvestmentsPerInvestor := 50;
  Crowdfunding.ProtocolFeeBps := 200;
  Crowdfunding.ProtocolFeeRecipient := 0;
  Crowdfunding.MaxWhitelistSize := 500;
|}.

#[global] Instance rwa_config : Rwa.Config := {|
  Rwa.AdminOrigin := EnsureRoot;
  Rwa.ForceOrigin := EnsureRoot;
  Rwa.PalletId := RwaPalletId;
  Rwa.AssetRegistrationDeposit := 100 * DOLLARS;
  Rwa.MaxAssetsPerOwner := 100;
  Rwa.MaxMetadataLen := 256;
  Rwa.MaxSlashRecipients := 5;
  Rwa.MaxGroupSize := 10;
  Rwa.MaxPendingApprovals := 100;
  Rwa.MaxSunsettingPerBlock := 50;
  Rwa.MaxParticipationsPerHolder := 50;
  Rwa.MinParticipationDeposit := 1 * DOLLARS;
|}.

#[global] Instance crowdfunding_valid_config : CrowdfundingInv.ValidConfig.
Proof. split; vm_compute; try (split; congruence); [congruence|]. split; [done|]. repeat constructor; congruence. Qed.

#[global] Instance agent_config : TrustlessAgent.Config := {|
  TrustlessAgent.AgentDeposit := 100 * DOLLARS;
  TrustlessAgent.FeedbackDeposit := 10 * DOLLARS;
  TrustlessAgent.ValidatorMinStake := 1000 * DOLLARS;
  TrustlessAgent.MaxUriLength := 512;
  TrustlessAgent.MaxTagLength := 64;
  TrustlessAgent.MaxTags := 20;
  TrustlessAgent.MaxMetadataKeyLength := 128;
  TrustlessAgent.MaxMetadataValueLength := 512;
  TrustlessAgent.MaxMetadataEntries := 50;
  TrustlessAgent.MaxResponsesPerFeedback := 20;
  TrustlessAgent.ValidationRequestDeposit := 5 * DOLLARS;
  TrustlessAgent.DisputeDeposit := 20 * DOLLARS;
  TrustlessAgent.ValidationDeadline := 7 * DAYS;
  TrustlessAgent.EscrowAutoCompleteBlocks := 7 * DAYS;
  TrustlessAgent.FeedbackRateLimitBlocks := 7 * DAYS;
  TrustlessAgent.DisputeResolverOrigin := EnsureRoot;
  TrustlessAgent.ValidatorManagerOrigin := EnsureRoot;
|}.

#[global] Instance agent_config_valid : TrustlessAgentFunds.ValidAgentConfig.
Proof. split; split; by vm_compute. Qed.

(** ** The surroundings of a pallet *)

(** What is on chain beside the ledgers: [sibling] is the storage of the other
    pallet. *)
Record Others (X : Type) := mkOthers {
  now : BlockNumber;
  nft_owners : gmap (Z * Z) AccountId;
  sibling : X;
}.
Arguments mkOthers {_} _ _ _.
Arguments now {_} _.
Arguments nft_owners {_} _.
Arguments sibling {_} _.

Definition World (X : Type) : Type := Chain (AssetsState (Others X)).

(** The same chain at another block. *)
Definition set_block_number {X} (n : BlockNumber) (w : World X) : World X :=
  mkChain w.(Account) w.(TotalIssuance)
    (mkAssetsState w.(rest).(Asset) w.(rest).(AssetAccounts)
      (mkOthers n w.(rest).(others).(nft_owners) w.(rest).(others).(sibling))).

Section world.
Context {X : Type}.
Implicit Types w : World X.

#[global] Instance world_system : System (World X) := {|
  block_number w := w.(rest).(others).(now);
|}.

#[global] Instance world_currency : Currency (World X) := {|
  minimum_balance := ExistentialDeposit;
  free_balance who w := (account who w).(free);
  transfer := currency_transfer;
  withdraw := currency_withdraw;
|}.

#[global] Instance world_reservable : ReservableCurrency (World X) := {|
  reserved_balance who w := (account who w).(reserved);
  reserve := currency_reserve;
  unreserve := currency_unreserve;
  repatriate_reserved := currency_repatriate_reserved;
|}.

#[global] Instance world_fungibles : Fungibles (World X) := {|
  asset_minimum_balance := asset_min_balance;
  asset_balance := asset_balance_of;
  asset_transfer := fungibles_transfer;
  asset_burn_from a who v := burn_from a who v Expendable true;
|}.

#[global] Instance world_nfts : Crowdfunding.NftInspect (World X) := {|
  Crowdfunding.nft_owner c i w := w.(rest).(others).(nft_owners) !! (c, i);
|}.

(** ** The ledgers keep the laws *)

Lemma ed_pos : 0 < ExistentialDeposit.
Proof. by vm_compute. Qed.

Lemma max_consumers_fits : MaxConsumers ≤ U32_MAX.
Proof. by vm_compute. Qed.

(** The native currency changed, the rest did not. *)
Lemma ledger_wf_native k w w' :
  ledger_wf k w → chain_wf (held_by Consumer) (held_by Sufficient) k w' →
  w'.(rest) = w.(rest) → ledger_wf k w'.
Proof.
  intros [] Hc Hr. unfold get_asset, get_account in *.
  split; [done|done|..]; unfold get_asset, get_account; by rewrite Hr.
Qed.

Lemma world_rest_same w w' :
  w'.(rest) = w.(rest) →
  (∀ a x, asset_balance a x w' = asset_balance a x w) ∧
  (∀ a, asset_minimum_balance a w' = asset_minimum_balance a w) ∧
  block_number w' = block_number w.
Proof.
  intros Hr. simpl. unfold asset_balance_of, asset_min_balance, get_account, get_asset.
  by rewrite Hr.
Qed.

Lemma moved_relax bal bal' ed from to v :
  moved bal bal' ed from to v true → moved bal bal' ed from to v false.
Proof. intros []. split; try done. by destruct moved_from as [?|[? _]]; [left|]. Qed.

#[global] Program Instance world_laws : WorldLaws (World X) := {|
  world_wf k w := ledger_wf k w;
|}.
Next Obligation.
  intros k w [Hroom Hch Has Hbal]. split; [lia|..|done].
  - intros x. destruct (Hch x) as [? [] ? ?]. split; [done|split; [done|done|lia|done]|done|done].
  - intros id d Hd. destruct (Has id d Hd). split; try done; lia.
Qed.
Next Obligation. apply ed_pos. Qed.
Next Obligation.
  intros k w x Hw. destruct (iw_data _ _ _ _ _ _ (lw_chain _ _ Hw x)). simpl.
  unfold account. split; lia.
Qed.
Next Obligation.
  intros k w a x Hw. simpl. unfold asset_balance_of. destruct (get_account a x w) eqn:Ha.
  - by eapply (lw_balances _ _ Hw).
  - by vm_compute.
Qed.
Next Obligation. intros from to v r w w' Ht Hno. eapply currency_transfer_noop; [exact Ht|exact Hno]. Qed.
Next Obligation.
  intros k from to v r w w' Hw Hv Hne Ht. simpl in Ht.
  apply (currency_transfer_ok (held_by Consumer) (held_by Sufficient) (held_by_nonneg _)
    (held_by_nonneg _) k (lw_room _ _ Hw) ed_pos max_consumers_fits) in Ht as (Hc & Hr & Hm & _);
    [|apply Hw|done|done].
  split; [by eapply ledger_wf_native|]. split; [done|]. by apply world_rest_same.
Qed.
Next Obligation.
  intros k who v r w w' Hw Hv Ht. simpl in Ht.
  apply (currency_withdraw_ok (held_by Consumer) (held_by Sufficient) (held_by_nonneg _)
    (held_by_nonneg _) k (lw_room _ _ Hw) ed_pos max_consumers_fits) in Ht as (Hc & Hr & Hm & Hk & _);
    [|apply Hw|done].
  split; [by eapply ledger_wf_native|]. do 2 (split; [done|]). by apply world_rest_same.
Qed.
Next Obligation. intros a from to v p w w' b Ht Hno. eapply fungibles_transfer_noop; [exact Ht|exact Hno]. Qed.
Next Obligation.
  intros k a from to v p w w' b Hw Hv Hne Ht. simpl in Ht.
  eapply fungibles_transfer_ok in Ht as (Hw' & Hb & [] & Hm); eauto using max_consumers_fits.
  simpl. split_and!; try done; [|by intros; rewrite un_account|by rewrite un_others].
  destruct p; simpl; [done|by apply moved_relax|done].
Qed.
Next Obligation.
  intros k a who v w w' b Hw Hv Ht. simpl in Ht.
  eapply burn_from_ok in Ht as (Hw' & [] & Hm); eauto.
  simpl. split_and!; try done; [by intros; rewrite un_account|by rewrite un_others].
Qed.

#[global] Program Instance world_reserve_laws : ReserveLaws (World X).
Next Obligation.
  intros k who v w w' Hw Hv Ht. simpl in Ht.
  destruct (decide (v = 0)) as [->|Hne].
  { injection Ht as <-. simpl. split_and!; try done; lia. }
  apply (currency_reserve_ok (held_by Consumer) (held_by Sufficient) (held_by_nonneg _)
    (held_by_nonneg _) k (lw_room _ _ Hw) ed_pos max_consumers_fits) in Ht
    as (Hc & Hr & Hx & _ & _ & Hres); [|apply Hw|lia].
  split; [by eapply ledger_wf_native|]. split; [done|].
  split; [intros x Hne'; simpl; by rewrite Hx|]. by apply world_rest_same.
Qed.
Next Obligation.
  intros k who v w r w' Hw Hv Ht. simpl in Ht.
  apply (currency_unreserve_ok (held_by Consumer) (held_by Sufficient) (held_by_nonneg _)
    (held_by_nonneg _) k (lw_room _ _ Hw) ed_pos max_consumers_fits) in Ht
    as (Hc & Hr & Hx & Hres); [|apply Hw|done].
  split; [by eapply ledger_wf_native|]. split.
  { simpl. destruct Hres as [->|[_ ->]]; lia. }
  split; [intros x Hne'; simpl; by rewrite Hx|]. by apply world_rest_same.
Qed.
Next Obligation.
  intros k from to v st w r w' Hw Hv Hmax Ht. simpl in Ht, Hmax. unfold currency_repatriate_reserved in Ht. minv.
  match goal with H : do_transfer_reserved _ _ _ _ _ = _ |- _ =>
    apply (do_transfer_reserved_ok (held_by Consumer) (held_by Sufficient) (held_by_nonneg _)
      (held_by_nonneg _) k (lw_room _ _ Hw) ed_pos max_consumers_fits) in H
      as (Hc & Hr & Hfrom & Hle & Hsame & Hx); [|apply Hw|done|done] end.
  split; [by eapply ledger_wf_native|]. do 3 (split; [done|]).
  split; [intros y Hne Hne'; simpl; by rewrite Hx|]. by apply world_rest_same.
Qed.
Next Obligation.
  intros k from to v r w w' x Hw Hv Ht. destruct (decide (v = 0 ∨ from = to)) as [Hno|Hno].
  { eapply transfer_noop in Ht as ->; done. }
  simpl in Ht. apply (currency_transfer_ok (held_by Consumer) (held_by Sufficient) (held_by_nonneg _)
    (held_by_nonneg _) k (lw_room _ _ Hw) ed_pos max_consumers_fits) in Ht as (_ & _ & _ & Hx);
    [apply Hx|apply Hw|lia|naive_solver].
Qed.
Next Obligation.
  intros k who v r w w' x Hw Hv Ht. simpl in Ht.
  apply (currency_withdraw_ok (held_by Consumer) (held_by Sufficient) (held_by_nonneg _)
    (held_by_nonneg _) k (lw_room _ _ Hw) ed_pos max_consumers_fits) in Ht as (_ & _ & _ & _ & Hx);
    [apply Hx|apply Hw|done].
Qed.
Next Obligation.
  intros k a from to v p w w' b x Hw Hv Ht. destruct (decide (from = to)) as [Hno|Hno].
  { eapply asset_transfer_noop in Ht as ->; done. }
  simpl in Ht. eapply fungibles_transfer_ok in Ht as (Hw' & Hb & [] & Hm); eauto using max_consumers_fits.
  simpl. by rewrite un_account.
Qed.
Next Obligation.
  intros k a who v w w' b x Hw Hv Ht. simpl in Ht.
  eapply burn_from_ok in Ht as (Hw' & [] & Hm); eauto. simpl. by rewrite un_account.
Qed.
End world.

(** ** The cross-pallet hooks *)

(** [RwaLicenseVerifier]: crowdfunding asks pallet-rwa. *)
Section license.
Implicit Types w : World Rwa.State.

Definition verifier_ensure_active_license (rwa_asset_id participation_id : Z) (who : AccountId) w
    : result DispatchError unit :=
  let rwa := w.(rest).(others).(sibling) in
  match rwa.(Rwa.RwaAssets) !! rwa_asset_id with
  | None => Err (Other "RWA asset not found")
  | Some asset =>
      if negb (bool_decide (asset.(Rwa.status) = Rwa.Active))
      then Err (Other "RWA asset not active")
      else match rwa.(Rwa.Participations) !! (rwa_asset_id, participation_id) with
      | None => Err (Other "Participation not found")
      | Some participation =>
          match participation.(Rwa.pstatus) with
          | Rwa.ActiveSince _ _ =>
              if negb (existsb (λ h, h =? who) participation.(Rwa.holders))
              then Err (Other "Not a holder of this participation")
              else Ok tt
          | _ => Err (Other "Participation not active")
          end
      end
  end.

Definition verifier_is_license_active (rwa_asset_id participation_id : Z) w : bool :=
  let rwa := w.(rest).(others).(sibling) in
  match rwa.(Rwa.RwaAssets) !! rwa_asset_id with
  | None => false
  | Some asset =>
      if negb (bool_decide (asset.(Rwa.status) = Rwa.Active)) then false
      else match rwa.(Rwa.Participations) !! (rwa_asset_id, participation_id) with
      | None => false
      | Some participation =>
          match participation.(Rwa.pstatus) with
          | Rwa.ActiveSince _ (Some expiry) => block_number w <? expiry
          | Rwa.ActiveSince _ None => true
          | _ => false
          end
      end
  end.

Definition verifier_license_expiry (rwa_asset_id participation_id : Z) w : option BlockNumber :=
  participation ← w.(rest).(others).(sibling).(Rwa.Participations)
                    !! (rwa_asset_id, participation_id);
  match participation.(Rwa.pstatus) with
  | Rwa.ActiveSince _ expires_at => expires_at
  | _ => None
  end.

#[global] Instance world_license_verifier : Crowdfunding.LicenseVerifier (World Rwa.State) := {|
  Crowdfunding.ensure_active_license := verifier_ensure_active_license;
  Crowdfunding.is_license_active := verifier_is_license_active;
  Crowdfunding.license_expiry := verifier_license_expiry;
|}.
End license.

(** [CrowdfundingLifecycleGuard]: pallet-rwa asks crowdfunding. *)
Section guard.
Implicit Types w : World Crowdfunding.State.

(** A campaign of an asset that is still running. *)
Definition linked_active (rwa_asset_id : Z) (c : Crowdfunding.Campaign) : bool :=
  bool_decide (c.(Crowdfunding.rwa_asset_id) = Some rwa_asset_id) &&
  bool_decide (c.(Crowdfunding.status)
    ∈ [Crowdfunding.Funding; Crowdfunding.Paused; Crowdfunding.MilestonePhase]).

Definition has_active_campaign (rwa_asset_id : Z) w : bool :=
  existsb (λ kv, linked_active rwa_asset_id kv.2)
    (map_to_list w.(rest).(others).(sibling).(Crowdfunding.Campaigns)).

Definition guard_can_retire_asset (rwa_asset_id : Z) w : result DispatchError unit :=
  if has_active_campaign rwa_asset_id w
  then Err (Other "Cannot retire: active campaigns linked to this RWA asset") else Ok tt.

Definition guard_can_slash_participation (rwa_asset_id participation_id : Z) w
    : result DispatchError unit :=
  if has_active_campaign rwa_asset_id w
  then Err (Other "Cannot slash: active campaigns linked to this RWA asset") else Ok tt.

#[global] Instance world_guard : Rwa.AssetLifecycleGuard (World Crowdfunding.State) := {|
  Rwa.can_retire_asset := guard_can_retire_asset;
  Rwa.can_slash_participation := guard_can_slash_participation;
|}.

(** [type ParticipationFilter = ()] *)
#[global] Instance world_filter : Rwa.ParticipationFilter (World Crowdfunding.State) := {|
  Rwa.ensure_eligible _ _ _ := Ok tt;
|}.
End guard.
