(* ===== verification/Leafchain.v ===== *)
(** * The three pallets on one chain

    The general leafchain runtime runs pallet-crowdfunding, pallet-rwa and
    pallet-trustless-agent on one ledger; the first two ask each other before
    some of their operations, and the last two keep what they are owed in the
    same reserves.  Here the three models are put together: the state of the
    chain is one ledger and the three storages, a call is a call of one of the
    pallets, and a block starts with the hook of pallet-rwa.  No pallet takes
    from the accounts of another nor writes its storage, so what was proved of
    each in arbitrary surroundings holds of all together; and the reserves of an
    account cover the claims of both pallets on them as long as
    pallet-trustless-agent is fair to the account. *)

From stdpp Require Import relations.
From S2P Require Import Prelude Arith Errors Frame Balances BalancesLaws Assets AssetsLaws.
From S2P Require Import Ledger Runtime.
From S2P Require Crowdfunding CrowdfundingSpec CrowdfundingInv CrowdfundingFunds.
From S2P Require CrowdfundingCorrect CrowdfundingPayments.
From S2P Require Rwa RwaSpec RwaCorrect RwaReach RwaRefine RwaMachine RwaFunds RwaCustody RwaPayments.
From S2P Require TrustlessAgent TrustlessAgentSpec TrustlessAgentInv TrustlessAgentFunds.
From S2P Require TrustlessAgentTheorems TrustlessAgentPayments.
Module CF := Crowdfunding.
Module TA := TrustlessAgent.

(** ** State, calls, blocks *)

(** The surroundings of a pallet, with [x] as the storage of the other one. *)
Definition with_sibling {X Y} (x : X) (w : World Y) : World X :=
  mkChain w.(Account) w.(TotalIssuance)
    (mkAssetsState w.(rest).(Asset) w.(rest).(AssetAccounts)
      (mkOthers w.(rest).(others).(now) w.(rest).(others).(nft_owners) x)).

Definition sibling_of {X} (w : World X) : X := w.(rest).(others).(sibling).

Record Leafchain := mkLeafchain {
  ledger : World unit;
  crowdfunding : CF.State;
  rwa : Rwa.State;
  agents : TA.State;
  crowdfunding_events : list CF.Event;
  rwa_events : list Rwa.Event;
  agent_events : list TA.Event;
}.

Inductive RuntimeCall :=
| CrowdfundingCall (call : CF.Call)
| RwaCall (call : Rwa.Call)
| AgentCall (call : TA.Call).

(** The chain as each pallet sees it. *)
Definition crowdfunding_view (c : Leafchain) : CF.CEnv (World Rwa.State) :=
  mkEnv c.(crowdfunding) (with_sibling c.(rwa) c.(ledger)) c.(crowdfunding_events).

Definition rwa_view (c : Leafchain) : Rwa.CEnv (World CF.State) :=
  mkEnv c.(rwa) (with_sibling c.(crowdfunding) c.(ledger)) c.(rwa_events).

Definition agent_view (c : Leafchain) : TA.CEnv (World unit) :=
  mkEnv c.(agents) c.(ledger) c.(agent_events).

(** The chain after a pallet ran. *)
Definition after_crowdfunding (c : Leafchain) (e : CF.CEnv (World Rwa.State)) : Leafchain :=
  mkLeafchain (with_sibling tt (world e)) (store e) (sibling_of (world e)) c.(agents)
    (events e) c.(rwa_events) c.(agent_events).

Definition after_rwa (c : Leafchain) (e : Rwa.CEnv (World CF.State)) : Leafchain :=
  mkLeafchain (with_sibling tt (world e)) (sibling_of (world e)) (store e) c.(agents)
    c.(crowdfunding_events) (events e) c.(agent_events).

Definition after_agents (c : Leafchain) (e : TA.CEnv (World unit)) : Leafchain :=
  mkLeafchain (world e) c.(crowdfunding) c.(rwa) (store e)
    c.(crowdfunding_events) c.(rwa_events) (events e).

Definition with_ledger (l : World unit) (c : Leafchain) : Leafchain :=
  mkLeafchain l c.(crowdfunding) c.(rwa) c.(agents)
    c.(crowdfunding_events) c.(rwa_events) c.(agent_events).

Definition runtime_dispatch (o : Origin) (call : RuntimeCall) (c : Leafchain)
    : result DispatchError Leafchain :=
  match call with
  | CrowdfundingCall call =>
      match CF.dispatch o call (crowdfunding_view c) with
      | Ok (_, e) => Ok (after_crowdfunding c e)
      | Err x => Err x
      end
  | RwaCall call =>
      match Rwa.dispatch o call (rwa_view c) with
      | Ok (_, e) => Ok (after_rwa c e)
      | Err x => Err x
      end
  | AgentCall call =>
      match TA.agent_dispatch o call (agent_view c) with
      | Ok (_, e) => Ok (after_agents c e)
      | Err x => Err x
      end
  end.

Definition initialize_block (n : BlockNumber) (c : Leafchain) : result DispatchError Leafchain :=
  let c := with_ledger (set_block_number n c.(ledger)) c in
  match Rwa.on_initialize n (rwa_view c) with
  | Ok (_, e) => Ok (after_rwa c e)
  | Err x => Err x
  end.

(** ** The accounts of the pallets are different *)

Lemma take_lookup_eq {A} (l1 l2 : list A) n i : (i < n)%nat → take n l1 = take n l2 → l1 !! i = l2 !! i.
Proof. intros Hi Heq. by rewrite <- (lookup_take_lt l1 n), <- (lookup_take_lt l2 n), Heq. Qed.

Lemma account_of_bytes_differ l1 l2 i :
  Forall (fits U8_MAX) l1 → Forall (fits U8_MAX) l2 → (i < length l1)%nat → (i < length l2)%nat →
  (i < 32)%nat → l1 !! i ≠ l2 !! i → account_of_bytes l1 ≠ account_of_bytes l2.
Proof.
  intros H1 H2 Hi1 Hi2 Hi Hne Heq. unfold account_of_bytes in Heq.
  assert (Forall (fits U8_MAX) (replicate 32 0)) by (apply Forall_replicate; ulia).
  apply be_value_inj in Heq.
  - apply (take_lookup_eq _ _ _ i) in Heq; [|done]. by rewrite !lookup_app_l in Heq.
  - rewrite !length_take, !length_app, length_replicate. lia.
  - by apply Forall_take, Forall_app.
  - by apply Forall_take, Forall_app.
Qed.

Lemma accounts_differ id : Rwa.pallet_account ≠ CF.campaign_account id.
Proof.
  assert (∀ l, Forall (fits U8_MAX) l → Forall (fits U8_MAX) (PALLET_ID_TYPE_ID ++ l)) as Hty
    by (intros; apply Forall_app_2; [repeat constructor; ulia|done]).
  apply (account_of_bytes_differ _ _ 7).
  - apply Hty. repeat constructor; ulia.
  - apply Hty, Forall_app_2; [repeat constructor; ulia|apply u32_le_bytes_fits].
  - simpl. lia.
  - simpl. lia.
  - lia.
  - change (Some 114 ≠ Some 99). congruence.
Qed.

(** ** A pallet leaves the rest of the chain alone *)

Section others.
Context {X : Type}.
Implicit Types (w : World X) (P : AccountId → Prop).

Lemma payment_others P k w w' :
  world_wf (S k) w → payment P w w' → w'.(rest).(others) = w.(rest).(others).
Proof.
  intros Hw [from to v r w1 HP Hv Ht|who v r w1 HP Hv Ht|a from to v p b w1 HP Hv Ht|a who v b w1 HP Hv Ht];
    simpl in Hw.
  - destruct (decide (from = to)) as [->|Hne]; [by apply transfer_noop in Ht as ->; auto|].
    apply (currency_transfer_ok (held_by Consumer) (held_by Sufficient) (held_by_nonneg _)
      (held_by_nonneg _) _ (lw_room _ _ Hw) ed_pos max_consumers_fits) in Ht as (_ & -> & _);
      [done|apply Hw|done|done].
  - apply (currency_withdraw_ok (held_by Consumer) (held_by Sufficient) (held_by_nonneg _)
      (held_by_nonneg _) _ (lw_room _ _ Hw) ed_pos max_consumers_fits) in Ht as (_ & -> & _);
      [done|apply Hw|done].
  - destruct (decide (from = to)) as [->|Hne]; [by apply asset_transfer_noop in Ht as ->; auto|].
    eapply fungibles_transfer_ok in Ht as (_ & _ & Hu & _); eauto using max_consumers_fits.
    apply (un_others _ _ _ Hu).
  - eapply burn_from_ok in Ht as (_ & Hu & _); eauto. apply (un_others _ _ _ Hu).
Qed.

Lemma reservation_others P k w w' :
  world_wf k w → reservation P w w' → w'.(rest).(others) = w.(rest).(others).
Proof.
  intros Hw [who v w1 HP Hv Ht|who v y w1 HP Hv Ht]; simpl in Hw.
  - destruct (decide (v = 0)) as [->|Hne]; [by injection Ht as <-|].
    apply (currency_reserve_ok (held_by Consumer) (held_by Sufficient) (held_by_nonneg _)
      (held_by_nonneg _) k (lw_room _ _ Hw) ed_pos max_consumers_fits) in Ht as (_ & -> & _);
      [done|apply Hw|lia].
  - apply (currency_unreserve_ok (held_by Consumer) (held_by Sufficient) (held_by_nonneg _)
      (held_by_nonneg _) k (lw_room _ _ Hw) ed_pos max_consumers_fits) in Ht as (_ & -> & _);
      [done|apply Hw|done].
Qed.

Lemma payments_others P n w w' :
  world_wf n w → bsteps (payment P) n w w' → w'.(rest).(others) = w.(rest).(others).
Proof.
  intros Hw Hs. revert Hw. induction Hs as [n w|n w w1 w' Hop _ IH]; intros Hw; [done|].
  rewrite IH; [by eapply payment_others|].
  apply (sp_wf _ _ _ _ (payment_spares _ _ _ _ Hw Hop)), Hw.
Qed.

Lemma reservations_others P k w w' :
  world_wf k w → rtc (reservation P) w w' → w'.(rest).(others) = w.(rest).(others).
Proof.
  intros Hw Hs. revert Hw. induction Hs as [w|w w1 w' Hop _ IH]; intros Hw; [done|].
  rewrite IH; [by eapply reservation_others|].
  apply (sp_wf _ _ _ _ (reservation_spares _ _ _ _ Hw Hop)), Hw.
Qed.
End others.

(** The ledger does not depend on who looks at it. *)
Lemma with_sibling_wf {X Y} k (x : X) (w : World Y) : world_wf k w → world_wf k (with_sibling x w).
Proof.
  intros [Hroom Hch Has Hbal]. split; try done.
  intros who. destruct (Hch who) as [? [] ? ?]. by split; [|split|..].
Qed.

Lemma with_sibling_same {X} (w : World X) : with_sibling (sibling_of w) w = w.
Proof. by destruct w as [? ? [? ? []]]. Qed.

Lemma with_sibling_twice {X Y V} (x : X) (y : Y) (w : World V) :
  with_sibling x (with_sibling y w) = with_sibling x w.
Proof. done. Qed.

(** What an operation spares under one view, it spares under every view. *)
Lemma spares_view {X Y} (P : AccountId → Prop) n (x x' : X) (w w' : World Y) :
  spares P n w w' → spares P n (with_sibling x w) (with_sibling x' w').
Proof.
  intros []. split; try done.
  intros k Hk. apply with_sibling_wf, sp_wf. apply (with_sibling_wf _ (sibling_of w)) in Hk.
  by rewrite with_sibling_twice, with_sibling_same in Hk.
Qed.

(** ** Steps of the chain *)

(** Accounts somebody may have the key of. *)
Definition outsider (who : AccountId) : Prop :=
  who ≠ Rwa.pallet_account ∧ CrowdfundingFunds.external who.

Definition outside_origin (o : Origin) : Prop := ∀ who, o = Signed who → outsider who.

(** The conditions of the developments on a call. *)
Definition admissible (o : Origin) (call : RuntimeCall) (c : Leafchain) : Prop :=
  outside_origin o ∧
  match call with
  | CrowdfundingCall call =>
      CrowdfundingCorrect.typed_call call ∧ CrowdfundingCorrect.counters_fit o call c.(crowdfunding)
  | RwaCall call =>
      RwaCustody.sound_call o call ∧
      RwaCustody.slash_fits (RwaMachine.ByCall o call) (RwaMachine.abs c.(rwa))
  | AgentCall call =>
      TrustlessAgentSpec.agent_call_typed call ∧ TrustlessAgentFunds.issuance_fits c.(ledger)
  end.

(** Room for the asset accounts a call may open. *)
Definition call_room : nat := RwaRefine.call_bound * RwaCustody.part_room.

(** What the rest of the runtime may do: anything but take from the pallets'
    accounts, lower what is reserved, or change the minimum of an asset. *)
Record rest_moves (l l' : World unit) : Prop := {
  rm_wf : world_wf 0 l';
  rm_free : ∀ x, ¬ outsider x → free_balance x l ≤ free_balance x l';
  rm_asset : ∀ a x, ¬ outsider x → asset_balance a x l ≤ asset_balance a x l';
  rm_reserved : ∀ x, reserved_balance x l ≤ reserved_balance x l';
  rm_min : ∀ a, asset_minimum_balance a l' = asset_minimum_balance a l;
  rm_block : block_number l ≤ block_number l';
}.

Section chain.
(** The accounts to which pallet-trustless-agent is fair: none of their
    requests is answered twice, and agents come to them with the deposit. *)
Context (counted : AccountId → Prop).

Definition fair_call (call : RuntimeCall) (c c' : Leafchain) : Prop :=
  match call with
  | AgentCall _ => ∀ x, counted x →
      TrustlessAgentFunds.fair x c.(agents) c.(ledger) c'.(agents) c'.(ledger)
  | _ => True
  end.

Inductive chain_step (c : Leafchain) : Leafchain → Prop :=
| chain_call o call c' :
    admissible o call c → world_wf call_room c.(ledger) →
    runtime_dispatch o call c = Ok c' → fair_call call c c' → chain_step c c'
| chain_block n c' :
    block_number c.(ledger) ≤ n → initialize_block n c = Ok c' → chain_step c c'
| chain_rest l' : rest_moves c.(ledger) l' → chain_step c (with_ledger l' c).

Definition chain_start (l : World unit) : Leafchain :=
  mkLeafchain l CrowdfundingCorrect.genesis RwaReach.genesis TrustlessAgentTheorems.agent_genesis
    [] [] [].

Inductive chain_reachable : Leafchain → Prop :=
| chain_genesis l :
    world_wf 0 l → (∀ who, 0 ≤ reserved_balance who l) → chain_reachable (chain_start l)
| chain_reach c c' : chain_reachable c → chain_step c c' → chain_reachable c'.

(** ** Each pallet, seen from the chain *)

(** What pallet-trustless-agent holds [x] for. *)
Abbreviation due := TrustlessAgentFunds.due.

Record joint (c : Leafchain) : Prop := {
  j_crowdfunding : CrowdfundingCorrect.reachable (crowdfunding_view c);
  j_rwa : RwaReach.reachable (rwa_view c);
  j_custody : RwaCustody.custody counted (due c.(agents)) (RwaMachine.view (rwa_view c));
  j_agents : TrustlessAgentTheorems.agent_reachable (W:=World unit) c.(agents);
  j_amounts : TrustlessAgentFunds.amounts_wf c.(agents);
  j_owners : ∀ x, RwaPayments.owns (RwaMachine.abs c.(rwa)) x → outsider x;
  j_parties : ∀ x, TrustlessAgentPayments.party c.(agents) x → outsider x;
}.

Lemma registration_nonneg : 0 ≤ Rwa.AssetRegistrationDeposit.
Proof. by vm_compute. Qed.

Lemma joint_sane c : joint c → RwaCustody.sane (RwaMachine.abs c.(rwa)).
Proof. intros Hj. exact (RwaCustody.cu_sane _ _ _ (j_custody _ Hj)). Qed.

Lemma joint_inv c : joint c → RwaCorrect.Inv c.(rwa) ∧ CrowdfundingInv.Inv c.(crowdfunding).
Proof.
  intros Hj. split.
  - apply (RwaReach.reachable_inv _ (j_rwa _ Hj)).
  - apply (CrowdfundingCorrect.good_store _ (CrowdfundingCorrect.reachable_good _ (j_crowdfunding _ Hj))).
Qed.

Lemma joint_wf c : joint c → world_wf 0 c.(ledger).
Proof.
  intros Hj. pose proof (j_crowdfunding _ Hj) as Hc.
  apply CrowdfundingCorrect.reachable_good, CrowdfundingCorrect.good_world in Hc.
  apply (with_sibling_wf _ (sibling_of c.(ledger))) in Hc. simpl in Hc.
  by rewrite with_sibling_twice, with_sibling_same in Hc.
Qed.

Lemma room_for_two {X} (w : World X) : world_wf call_room w → world_wf 2 w.
Proof.
  replace call_room with ((call_room - 2) + 2)%nat by by vm_compute. apply RwaFunds.wf_less.
Qed.

(** The accounts of the pallets are not outsiders. *)
Lemma campaign_not_outsider id : fits U32_MAX id → ¬ outsider (CF.campaign_account id).
Proof. intros Hid [_ Hx]. by apply (Hx id). Qed.

Lemma rwa_not_outsider : ¬ outsider Rwa.pallet_account.
Proof. by intros [Hx _]. Qed.

(** *** The surroundings change *)

(** The chain after the ledger and the agents changed, in a way that takes
    nothing from the accounts of the other pallets. *)
Lemma crowdfunding_undisturbed c r (l' : World unit) :
  CrowdfundingCorrect.reachable (crowdfunding_view c) → world_wf 0 l' →
  (∀ x, ¬ outsider x → free_balance x c.(ledger) ≤ free_balance x l') →
  (∀ a x, ¬ outsider x → asset_balance a x c.(ledger) ≤ asset_balance a x l') →
  (∀ a, asset_minimum_balance a l' = asset_minimum_balance a c.(ledger)) →
  block_number c.(ledger) ≤ block_number l' →
  CrowdfundingCorrect.reachable
    (mkEnv c.(crowdfunding) (with_sibling r l') c.(crowdfunding_events) : CF.CEnv (World Rwa.State)).
Proof.
  intros Hc Hw Hf Ha Hm Hb. eapply CrowdfundingCorrect.reachable_step; [exact Hc|].
  apply (CrowdfundingCorrect.step_world (crowdfunding_view c)); simpl; [by apply with_sibling_wf| |done].
  intros id Hid%campaign_not_outsider. split; intros [|a]; [by apply Hf|by apply Ha|done|apply Hm].
Qed.

Lemma rwa_undisturbed c x (l' : World unit) :
  RwaReach.reachable (rwa_view c) →
  RwaReach.reachable (mkEnv c.(rwa) (with_sibling x l') c.(rwa_events) : Rwa.CEnv (World CF.State)).
Proof.
  intros Hr. eapply RwaReach.reachable_step; [exact Hr|]. apply (RwaReach.step_world (rwa_view c)).
Qed.

Lemma custody_undisturbed c x s (l' : World unit) :
  RwaCustody.custody counted (due c.(agents)) (RwaMachine.view (rwa_view c)) →
  (∀ cur, RwaFunds.bal cur Rwa.pallet_account c.(ledger) ≤ RwaFunds.bal cur Rwa.pallet_account l') →
  (∀ who, counted who → reserved_balance who c.(ledger) + due s who ≤
     reserved_balance who l' + due c.(agents) who) →
  (∀ a, asset_minimum_balance a l' = asset_minimum_balance a c.(ledger)) →
  RwaCustody.custody counted (due s) (RwaMachine.abs c.(rwa), with_sibling x l' : World CF.State).
Proof. intros Hcu Hb Hr Hm. eapply RwaCustody.custody_world; [exact Hcu|..]; done. Qed.

(** *** A call of crowdfunding *)

Lemma crowdfunding_call o call c e :
  joint c → admissible o (CrowdfundingCall call) c → world_wf call_room c.(ledger) →
  CF.dispatch o call (crowdfunding_view c) = Ok (tt, e) →
  sibling_of (world e) = c.(rwa) ∧
  spares (CrowdfundingPayments.debits o) 2 (world (crowdfunding_view c)) (world e) ∧
  (∀ x, reserved_balance x (world e) = reserved_balance x c.(ledger)).
Proof.
  intros Hj (Ho & Hty & _) Hw Hrun.
  apply (with_sibling_wf _ c.(rwa)), room_for_two in Hw.
  pose proof (CrowdfundingPayments.dispatch_payments _ _ (crowdfunding_view c) _ (proj2 (joint_inv _ Hj)) Hty Hrun) as Hp.
  split_and!.
  - unfold sibling_of. by rewrite (payments_others _ _ _ _ Hw Hp).
  - by apply payments_spare.
  - intros x. by rewrite (payments_reserved _ _ _ _ x Hw Hp).
Qed.

Lemma crowdfunding_step o call c e :
  joint c → admissible o (CrowdfundingCall call) c → world_wf call_room c.(ledger) →
  CF.dispatch o call (crowdfunding_view c) = Ok (tt, e) → joint (after_crowdfunding c e).
Proof.
  intros Hj Hadm Hw Hrun.
  destruct (crowdfunding_call _ _ _ _ Hj Hadm Hw Hrun) as (Hsib & [_ Hf Ha _ Hm _] & Hres).
  destruct Hadm as (Ho & Hty & Hfit). destruct Hj as [Hc Hr Hcu Hag Ham Hown Hpar].
  assert (¬ CrowdfundingPayments.debits o Rwa.pallet_account) as Hnot.
  { intros [Heq|(id & _ & Heq)]; [by destruct (Ho _ Heq)|by apply accounts_differ in Heq]. }
  split; simpl; [| | |done|done|by rewrite Hsib|done].
  - replace (crowdfunding_view (after_crowdfunding c e)) with e.
    2:{ unfold crowdfunding_view. simpl. rewrite with_sibling_twice, with_sibling_same. by destruct e. }
    eapply CrowdfundingCorrect.reachable_step; [exact Hc|].
    eapply CrowdfundingCorrect.step_call; [exact Hty| |exact Hfit| |exact Hrun].
    + destruct o; try done. by apply Ho.
    + by apply with_sibling_wf, room_for_two.
  - unfold rwa_view. simpl. rewrite Hsib. by apply rwa_undisturbed.
  - unfold RwaMachine.view. simpl. rewrite Hsib. apply custody_undisturbed; [done|..|exact Hm].
    + intros []; [by apply Hf|by apply Ha].
    + intros x _. apply Z.add_le_mono_r, Z.eq_le_incl. symmetry. exact (Hres x).
Qed.

(** *** A call or the hook of pallet-rwa *)

Lemma after_rwa_joint P n c e :
  joint c → world_wf n c.(ledger) → RwaReach.reachable e →
  RwaCustody.custody counted (due c.(agents)) (RwaMachine.view e) →
  sibling_of (world e) = c.(crowdfunding) →
  spares P n (world (rwa_view c)) (world e) → (∀ x, P x → x = Rwa.pallet_account ∨ outsider x) →
  (∀ x, RwaPayments.owns (RwaMachine.abs (store e)) x → outsider x) → joint (after_rwa c e).
Proof.
  intros [Hc _ _ Hag Ham _ Hpar] Hw Hr Hcu Hsib Hsp HP Hown.
  assert (∀ x, ¬ outsider x → x ≠ Rwa.pallet_account → ¬ P x) as Hnot
    by (intros x Hx Hne [Heq|Ho]%HP; [exact (Hne Heq)|exact (Hx Ho)]).
  assert (rwa_view (after_rwa c e) = e) as Hv.
  { unfold rwa_view. simpl. rewrite with_sibling_twice, with_sibling_same. by destruct e. }
  split; [|by rewrite Hv|by rewrite Hv|done..].
  eapply CrowdfundingCorrect.reachable_step; [exact Hc|]. unfold crowdfunding_view. simpl.
  rewrite Hsib. apply (spares_view _ _ c.(rwa) (store e)) in Hsp. simpl in Hsp.
  destruct Hsp as [Hwf Hf Ha _ Hm Hb].
  apply (CrowdfundingCorrect.step_world (crowdfunding_view c)); simpl; [|..|by apply Z.eq_le_incl].
  - apply Hwf. rewrite Nat.add_0_r. by apply with_sibling_wf, with_sibling_wf.
  - intros id Hid. pose proof (campaign_not_outsider id Hid) as Ho.
    assert (¬ P (CF.campaign_account id)) by (apply Hnot; [done|intros Heq; by apply (accounts_differ id)]).
    split; intros [|a]; [by apply Hf|by apply Ha|done|apply Hm].
Qed.

(** The accounts a call of pallet-rwa may take from. *)
Definition rwa_debits (o : Origin) (c : Leafchain) (x : AccountId) : Prop :=
  x = Rwa.pallet_account ∨ o = Signed x ∨ RwaPayments.owns (RwaMachine.abs c.(rwa)) x.

Lemma rwa_debits_outside o c x :
  joint c → outside_origin o → rwa_debits o c x → x = Rwa.pallet_account ∨ outsider x.
Proof. intros Hj Ho [->|[Hx|Hx]]; [by left|right; by apply Ho|right; by apply (j_owners _ Hj)]. Qed.

Lemma rwa_call o call c e :
  joint c → RwaCustody.sound_call o call → world_wf call_room c.(ledger) →
  Rwa.dispatch o call (rwa_view c) = Ok (tt, e) →
  sibling_of (world e) = c.(crowdfunding) ∧
  spares (rwa_debits o c) call_room (world (rwa_view c)) (world e).
Proof.
  intros Hj Hs Hw Hrun. apply (with_sibling_wf _ c.(crowdfunding)) in Hw.
  destruct (RwaPayments.dispatch_ops o call (rwa_view c) e (proj1 (joint_inv _ Hj)) (joint_sane _ Hj)
    registration_nonneg Hs Hrun) as [Hp|Hp]; unfold sibling_of.
  - split; [by rewrite (payments_others _ _ _ _ Hw Hp)|].
    apply payments_spare; [done|]. revert Hp. apply payments_weaken. intros x [->|Hx]; [by left|right; by left].
  - split; [by rewrite (reservations_others _ _ _ _ Hw Hp)|].
    apply (spares_trans _ call_room 0 _ (world (rwa_view c))); [apply spares_refl|].
    eapply reservations_spare; [exact Hw|]. revert Hp.
    apply reservations_weaken. intros x [Hx|Hx]; right; [by left|by right].
Qed.

Lemma rwa_step o call c e :
  joint c → admissible o (RwaCall call) c → world_wf call_room c.(ledger) →
  Rwa.dispatch o call (rwa_view c) = Ok (tt, e) → joint (after_rwa c e).
Proof.
  intros Hj (Ho & Hs & Hfit) Hw Hrun. destruct (rwa_call _ _ _ _ Hj Hs Hw Hrun) as [Hsib Hsp].
  eapply after_rwa_joint; [done|exact Hw| | |done|exact Hsp| |].
  - eapply RwaReach.reachable_step; [apply (j_rwa _ Hj)|].
    eapply RwaReach.step_call; [apply Hs|exact Hrun].
  - exact (proj1 (RwaCustody.dispatch_custody _ _ o call (rwa_view c) e registration_nonneg
      (proj1 (joint_inv _ Hj)) (j_custody _ Hj) Hs (with_sibling_wf _ c.(crowdfunding) _ Hw) Hfit Hrun)).
  - intros x. by apply rwa_debits_outside.
  - intros x [Hx|Hx]%(RwaPayments.dispatch_owners _ _ (rwa_view c) _ _ (proj1 (joint_inv _ Hj)) Hrun);
      [by apply Ho|by apply (j_owners _ Hj)].
Qed.

Lemma hook_step n c e :
  joint c → Rwa.on_initialize n (rwa_view c) = Ok (tt, e) → joint (after_rwa c e).
Proof.
  intros Hj Hrun. pose proof (proj1 (joint_inv _ Hj)) as HI.
  pose proof (joint_wf _ Hj) as Hw.
  pose proof (RwaPayments.hook_ops n (rwa_view c) e HI (joint_sane _ Hj) registration_nonneg Hrun) as Hp.
  apply (with_sibling_wf _ c.(crowdfunding)) in Hw as Hw'.
  eapply after_rwa_joint; [done|exact Hw| | | |by eapply reservations_spare| |].
  - eapply RwaReach.reachable_step; [apply (j_rwa _ Hj)|by eapply RwaReach.step_hook].
  - exact (proj1 (RwaCustody.hook_custody _ _ n (rwa_view c) e registration_nonneg HI (j_custody _ Hj)
      Hw' Hrun)).
  - unfold sibling_of. by rewrite (reservations_others _ _ _ _ Hw' Hp).
  - intros x Hx. right. by apply (j_owners _ Hj).
  - intros x Hx%(RwaPayments.hook_owners n (rwa_view c) _ _ HI Hrun). by apply (j_owners _ Hj).
Qed.

(** *** A call of pallet-trustless-agent *)

(** The accounts a call of pallet-trustless-agent may take from. *)
Definition agent_debits (o : Origin) (c : Leafchain) (x : AccountId) : Prop :=
  o = Signed x ∨ TrustlessAgentPayments.party c.(agents) x.

Lemma agent_debits_outside o c x : joint c → outside_origin o → agent_debits o c x → outsider x.
Proof. intros Hj Ho [Hx|Hx]; [by apply Ho|by apply (j_parties _ Hj)]. Qed.

Lemma agent_takes o call c e :
  joint c → admissible o (AgentCall call) c →
  TA.agent_dispatch o call (agent_view c) = Ok (tt, e) →
  TrustlessAgentSpec.agent_move o c.(agents) c.(ledger) (store e) (world e) ∧
  TrustlessAgentPayments.takes (agent_debits o c) c.(ledger) (world e).
Proof.
  intros Hj (_ & Hty & Hi) Hrun.
  apply TrustlessAgentSpec.agent_dispatch_move in Hrun; [|done]. split; [done|].
  eapply TrustlessAgentPayments.move_takes; [by apply joint_wf|done|apply (j_amounts _ Hj)|exact Hrun].
Qed.

Lemma agent_step o call c e :
  joint c → admissible o (AgentCall call) c →
  TA.agent_dispatch o call (agent_view c) = Ok (tt, e) →
  fair_call (AgentCall call) c (after_agents c e) → joint (after_agents c e).
Proof.
  intros Hj Hadm Hrun Hfair. destruct (agent_takes _ _ _ _ Hj Hadm Hrun) as [Hmove [Hwf Hf Ha Hm Hb]].
  pose proof (joint_wf _ Hj) as Hw. destruct Hadm as (Ho & Hty & Hi).
  assert (∀ x, ¬ outsider x → ¬ agent_debits o c x) as Hnot
    by (intros x Hx Hd; by apply Hx, (agent_debits_outside o c)).
  destruct Hj as [Hc Hr Hcu Hag Ham Hown Hpar]. pose proof (TrustlessAgentTheorems.reachable_indexes _ Hag) as Hix.
  split; [| | |by eapply (TrustlessAgentTheorems.reachable_call _ _ (agent_view c))|
    by eapply TrustlessAgentFunds.move_amounts|done|].
  - apply (crowdfunding_undisturbed c); [done|by apply Hwf|..|exact Hm|exact (Z.eq_le_incl _ _ (eq_sym Hb))].
    + intros x Hx. by apply Hf, Hnot.
    + intros a x _. exact (Z.eq_le_incl _ _ (eq_sym (Ha a x))).
  - exact (rwa_undisturbed c _ _ Hr).
  - refine (custody_undisturbed c _ (store e) (world e) Hcu _ _ Hm).
    + intros [|a]; [by apply Hf, Hnot, rwa_not_outsider|].
      exact (Z.eq_le_incl _ _ (eq_sym (Ha a _))).
    + intros x Hx. eapply TrustlessAgentFunds.move_due; [exact Hw|exact Hi|done|done|exact Hmove|by apply Hfair].
  - intros x [Hx|Hx]%(TrustlessAgentPayments.move_party _ _ _ _ _ _ Hmove); [by apply Ho|by apply Hpar].
Qed.

(** *** The rest of the runtime *)

Lemma rest_step c l' : joint c → rest_moves c.(ledger) l' → joint (with_ledger l' c).
Proof.
  intros [Hc Hr Hcu Hag Ham Hown Hpar] [Hw Hf Ha Hres Hm Hb]. split; [| | |done..].
  - by apply (crowdfunding_undisturbed c).
  - exact (rwa_undisturbed c _ _ Hr).
  - refine (custody_undisturbed c _ c.(agents) l' Hcu _ _ Hm).
    + intros [|a]; [by apply Hf, rwa_not_outsider|by apply Ha, rwa_not_outsider].
    + intros x _. apply Z.add_le_mono_r, Hres.
Qed.

Lemma new_block_moves n l :
  world_wf 0 l → block_number l ≤ n → rest_moves l (set_block_number n l).
Proof.
  intros [Hroom Hch Has Hbal] Hn. split; try done; simpl; try lia.
  split; try done. intros who. destruct (Hch who) as [? [] ? ?]. by split; [|split|..].
Qed.

(** ** Reachable states of the chain *)

Lemma genesis_joint l :
  world_wf 0 l → (∀ who, 0 ≤ reserved_balance who l) → joint (chain_start l).
Proof.
  intros Hw Hr. split.
  - by apply CrowdfundingCorrect.reachable_genesis, with_sibling_wf.
  - apply RwaReach.reachable_genesis.
  - eapply RwaCustody.genesis_custody; [by apply with_sibling_wf|]. intros who _. exact (Hr who).
  - by exists l, l.
  - apply TrustlessAgentTheorems.genesis_amounts.
  - intros x (id & a & Ha & _). simpl in Ha. by rewrite fmap_empty, lookup_empty in Ha.
  - by intros x [(id & y & Hy & _)|[(id & y & Hy & _)|(id & y & Hy & _)]].
Qed.

Lemma chain_step_joint c c' : joint c → chain_step c c' → joint c'.
Proof.
  intros Hj [o [call|call|call] c1 Hadm Hw Hrun Hfair|n c1 Hn Hrun|l' Hm].
  - simpl in Hrun. destruct (CF.dispatch _ _ _) as [[[] e]|] eqn:He; [|done].
    injection Hrun as <-. by eapply crowdfunding_step.
  - simpl in Hrun. destruct (Rwa.dispatch _ _ _) as [[[] e]|] eqn:He; [|done].
    injection Hrun as <-. by eapply rwa_step.
  - simpl in Hrun. destruct (TA.agent_dispatch _ _ _) as [[[] e]|] eqn:He; [|done].
    injection Hrun as <-. by eapply agent_step.
  - unfold initialize_block in Hrun. cbv zeta in Hrun.
    destruct (Rwa.on_initialize _ _) as [[[] e]|] eqn:He; [|done].
    injection Hrun as <-. eapply hook_step; [|exact He]. apply rest_step; [done|].
    apply new_block_moves; [by apply joint_wf|done].
  - by apply rest_step.
Qed.

Lemma chain_joint c : chain_reachable c → joint c.
Proof. induction 1; [by apply genesis_joint|by eapply chain_step_joint]. Qed.
End chain.
