(* ===== verification/LeafchainTheorems.v ===== *)
(** * The leafchain: the theorems

    What holds of the three pallets together: the custody of each, that no pallet
    takes from another or writes its storage, and what the license of a campaign
    means. *)

From S2P Require Import Prelude Arith Errors Frame Balances BalancesLaws Assets AssetsLaws.
From S2P Require Import Ledger Runtime Leafchain.
From S2P Require Crowdfunding CrowdfundingSpec CrowdfundingInv CrowdfundingFunds CrowdfundingCorrect.
From S2P Require Rwa RwaSpec RwaCorrect RwaMachine RwaFunds RwaCustody.
From S2P Require TrustlessAgent TrustlessAgentFunds TrustlessAgentPayments.
Import Crowdfunding(Funding, Paused, MilestonePhase).

(** A successful call, taken apart. *)
Lemma crowdfunding_dispatched o call c c' :
  runtime_dispatch o (CrowdfundingCall call) c = Ok c' →
  ∃ e, CF.dispatch o call (crowdfunding_view c) = Ok (tt, e) ∧ c' = after_crowdfunding c e.
Proof.
  simpl. destruct (CF.dispatch _ _ _) as [[[] e]|]; [|done]. intros [= <-]. by exists e.
Qed.

Lemma rwa_dispatched o call c c' :
  runtime_dispatch o (RwaCall call) c = Ok c' →
  ∃ e, Rwa.dispatch o call (rwa_view c) = Ok (tt, e) ∧ c' = after_rwa c e.
Proof.
  simpl. destruct (Rwa.dispatch _ _ _) as [[[] e]|]; [|done]. intros [= <-]. by exists e.
Qed.

Lemma agent_dispatched o call c c' :
  runtime_dispatch o (AgentCall call) c = Ok c' →
  ∃ e, TA.agent_dispatch o call (agent_view c) = Ok (tt, e) ∧ c' = after_agents c e.
Proof.
  simpl. destruct (TA.agent_dispatch _ _ _) as [[[] e]|]; [|done]. intros [= <-]. by exists e.
Qed.


(** What a call leaves of the storage and the accounts of crowdfunding, and of
    pallet-rwa. *)
Definition crowdfunding_kept (c c' : Leafchain) : Prop :=
  c'.(crowdfunding) = c.(crowdfunding) ∧
  ∀ id cur, fits U32_MAX id →
    CrowdfundingFunds.funds cur (CF.campaign_account id) c.(ledger) ≤
    CrowdfundingFunds.funds cur (CF.campaign_account id) c'.(ledger).

Definition rwa_kept (c c' : Leafchain) : Prop :=
  c'.(rwa) = c.(rwa) ∧
  ∀ cur, RwaFunds.bal cur Rwa.pallet_account c.(ledger) ≤
         RwaFunds.bal cur Rwa.pallet_account c'.(ledger).

(** C24. A call of one pallet does not write the storage of another and takes
    nothing from its accounts: pallet-rwa's storage and balances survive every
    call of the other two, crowdfunding's storage and the balance of every
    campaign survive every call of the other two, and the registries of
    pallet-trustless-agent survive the calls of both; crowdfunding leaves all
    reserves as they are. *)
Theorem pallets_do_not_interfere counted o call c c' :
  chain_reachable counted c → admissible o call c → world_wf call_room c.(ledger) →
  runtime_dispatch o call c = Ok c' →
  match call with
  | CrowdfundingCall _ =>
      rwa_kept c c' ∧ c'.(agents) = c.(agents) ∧
      ∀ who, reserved_balance who c'.(ledger) = reserved_balance who c.(ledger)
  | RwaCall _ => crowdfunding_kept c c' ∧ c'.(agents) = c.(agents)
  | AgentCall _ => crowdfunding_kept c c' ∧ rwa_kept c c'
  end.
Proof.
  intros Hj%chain_joint Hadm Hw Hrun. pose proof Hadm as [Ho _]. destruct call as [call|call|call].
  - apply crowdfunding_dispatched in Hrun as (e & Hrun & ->).
    destruct (crowdfunding_call _ _ _ _ _ Hj Hadm Hw Hrun) as (Hsib & [_ Hf Ha _ _ _] & Hres).
    assert (¬ CrowdfundingPayments.debits o Rwa.pallet_account) as Hnot.
    { intros [Heq|(id & _ & Heq)]; [by destruct (Ho _ Heq)|by apply accounts_differ in Heq]. }
    split; [|split; [done|exact Hres]]. split; [exact Hsib|]. intros [|a]; [by apply Hf|by apply Ha].
  - apply rwa_dispatched in Hrun as (e & Hrun & ->). destruct Hadm as (_ & Hs & _).
    destruct (rwa_call _ _ _ _ _ Hj Hs Hw Hrun) as [Hsib [_ Hf Ha _ _ _]]. split; [|done].
    split; [exact Hsib|]. intros id cur Hid.
    assert (¬ rwa_debits o c (CF.campaign_account id)) as Hnot.
    { intros [Heq|Hx]%(rwa_debits_outside counted); [by apply (accounts_differ id)| |done|done].
      by apply (campaign_not_outsider id). }
    destruct cur; [by apply Hf|by apply Ha].
  - apply agent_dispatched in Hrun as (e & Hrun & ->).
    destruct (agent_takes _ _ _ _ _ Hj Hadm Hrun) as [_ [_ Hf Ha _ _]].
    assert (∀ x, ¬ outsider x → free_balance x c.(ledger) ≤ free_balance x (world e)) as Hfree.
    { intros x Hx. apply Hf. intros Hd. by apply Hx, (agent_debits_outside counted o c). }
    split; split; [done| |done|]; intros cur'.
    + intros [|a] Hid; [by apply Hfree, campaign_not_outsider|].
      exact (Z.eq_le_incl _ _ (eq_sym (Ha a _))).
    + destruct cur' as [|a]; [apply Hfree, rwa_not_outsider|]. exact (Z.eq_le_incl _ _ (eq_sym (Ha a _))).
Qed.

Lemma has_active_campaign_intro id k c (w : World CF.State) :
  (sibling_of w).(CF.Campaigns) !! k = Some c → linked_active id c = true →
  has_active_campaign id w = true.
Proof.
  intros Hk Hl. unfold has_active_campaign. apply existsb_exists. exists (k, c). split; [|done].
  by apply list_elem_of_In, elem_of_map_to_list.
Qed.

(** While a campaign that is linked to an asset is running, no origin, the
    force origin included, can force the retirement of the asset or slash one of
    its participations. *)
Theorem running_campaign_guards c id k campaign o c' :
  c.(crowdfunding).(CF.Campaigns) !! k = Some campaign →
  campaign.(CF.rwa_asset_id) = Some id →
  campaign.(CF.status) ∈ [Funding; Paused; MilestonePhase] →
  runtime_dispatch o (RwaCall (Rwa.Force_retire_asset id)) c ≠ Ok c' ∧
  ∀ pid amount rep, runtime_dispatch o (RwaCall (Rwa.Slash_participation id pid amount rep)) c ≠ Ok c'.
Proof.
  intros Hk Hid Hst.
  assert (has_active_campaign id (world (rwa_view c)) = true) as Hact.
  { eapply has_active_campaign_intro; [exact Hk|]. unfold linked_active.
    by rewrite !bool_decide_true. }
  split.
  - intros (e & Hrun & _)%rwa_dispatched.
    apply RwaSpec.force_retire_asset_run in Hrun as (_ & _ & _ & _ & _ & Hg & _).
    change (guard_can_retire_asset id (world (rwa_view c)) = Ok tt) in Hg.
    unfold guard_can_retire_asset in Hg. by rewrite Hact in Hg.
  - intros pid amount rep (e & Hrun & _)%rwa_dispatched.
    apply RwaSpec.slash_participation_run in Hrun as (_ & _ & _ & _ & _ & Hg & _).
    change (guard_can_slash_participation id pid (world (rwa_view c)) = Ok tt) in Hg.
    unfold guard_can_slash_participation in Hg. by rewrite Hact in Hg.
Qed.

(** What the license check of [create_campaign] finds in pallet-rwa. *)
Lemma license_found a p who (w : World Rwa.State) :
  verifier_ensure_active_license a p who w = Ok tt →
  ∃ asset part since expiry,
    (sibling_of w).(Rwa.RwaAssets) !! a = Some asset ∧ asset.(Rwa.status) = Rwa.Active ∧
    (sibling_of w).(Rwa.Participations) !! (a, p) = Some part ∧
    part.(Rwa.pstatus) = Rwa.ActiveSince since expiry ∧ who ∈ part.(Rwa.holders).
Proof.
  unfold verifier_ensure_active_license, sibling_of.
  destruct (_ !! a) as [asset|] eqn:Ha; [|done]. destruct (bool_decide _) eqn:Hst; [|done]. simpl.
  destruct (_ !! (a, p)) as [part|] eqn:Hp; [|done].
  destruct part.(Rwa.pstatus) as [|since expiry| | | |] eqn:Hps; try done.
  destruct (existsb _ _) eqn:Hh; [|done]. intros _.
  apply bool_decide_eq_true in Hst. apply existsb_exists in Hh as (h & Hin & Hh).
  apply Z.eqb_eq in Hh as ->. exists asset, part, since, expiry.
  split_and!; try done. by apply list_elem_of_In.
Qed.

(** Whoever creates a campaign under a license is a holder of an active
    participation of an active asset at that moment, and the term of the
    participation outlasts the campaign: the license the campaign is linked to
    is active, and the campaign's deadline is before its expiry. *)
Theorem licensed_creation who g rules a p c c' :
  runtime_dispatch (Signed who) (CrowdfundingCall (CF.Create_campaign g rules (Some (a, p)))) c = Ok c' →
  verifier_is_license_active a p (world (crowdfunding_view c)) = true ∧
  (∀ expiry, verifier_license_expiry a p (world (crowdfunding_view c)) = Some expiry →
     g.(CF.deadline) < expiry) ∧
  (∃ part, c.(rwa).(Rwa.Participations) !! (a, p) = Some part ∧ who ∈ part.(Rwa.holders)) ∧
  ∃ campaign, c'.(crowdfunding).(CF.Campaigns) !! c.(crowdfunding).(CF.NextCampaignId) = Some campaign ∧
    campaign.(CF.creator) = who ∧ campaign.(CF.status) = Funding ∧
    campaign.(CF.rwa_asset_id) = Some a ∧ campaign.(CF.participation_id) = Some p.
Proof.
  intros (e & Hrun & ->)%crowdfunding_dispatched.
  apply CrowdfundingSpec.create_campaign_run in Hrun
    as (who' & [= <-] & [Hens Hexp] & Hnow & _ & _ & _ & _ & _ & _ & _ & Hs).
  apply license_found in Hens as (asset & part & since & expiry & Ha & Hst & Hp & Hps & Hh).
  change (c.(rwa).(Rwa.RwaAssets) !! a = Some asset) in Ha.
  change (c.(rwa).(Rwa.Participations) !! (a, p) = Some part) in Hp. split_and!.
  - unfold verifier_is_license_active. simpl. rewrite Ha, bool_decide_true by done. simpl.
    rewrite Hp, Hps. destruct expiry as [ex|]; [|done].
    assert (CF.deadline g < ex).
    { apply Hexp. simpl. unfold verifier_license_expiry. simpl. rewrite Hp. simpl. by rewrite Hps. }
    simpl in Hnow. apply Z.ltb_lt. lia.
  - exact Hexp.
  - by exists part.
  - simpl. rewrite Hs. eexists. split; [apply lookup_insert_eq|done].
Qed.

(** A license that is no longer active ends the campaign: as soon as the
    asset is not active any more, or the participation ended or its term is
    over, every signed account can report it, the report succeeds and the
    running campaign is cancelled, so that its investors can claim refunds. *)
Theorem lapsed_license_reportable c id campaign a p who :
  c.(crowdfunding).(CF.Campaigns) !! id = Some campaign →
  campaign.(CF.rwa_asset_id) = Some a → campaign.(CF.participation_id) = Some p →
  campaign.(CF.status) ∈ [Funding; Paused; MilestonePhase] →
  verifier_is_license_active a p (world (crowdfunding_view c)) = false →
  ∃ c', runtime_dispatch (Signed who) (CrowdfundingCall (CF.Report_license_revoked id)) c = Ok c' ∧
    c'.(rwa) = c.(rwa) ∧
    c'.(crowdfunding).(CF.Campaigns) !! id = Some (CF.set_status CF.Cancelled campaign).
Proof.
  intros Hc Ha Hp Hst Hl.
  destruct (CrowdfundingSpec.report_license_revoked_total who id campaign a p (crowdfunding_view c))
    as (e & He & Hs & Hw); try done.
  exists (after_crowdfunding c e). unfold runtime_dispatch. cbn [CF.dispatch]. rewrite He.
  split; [done|]. simpl. rewrite Hw, Hs. split; [done|].
  unfold CrowdfundingSpec.cancelled. simpl. apply lookup_insert_eq.
Qed.
