(* ===== verification/Migrations.v ===== *)
(** * The migrations of the leafchain's pallets

    What a runtime upgrade does to the storages of the three pallets:
    src/thxnet/leafchain/pallets/*/src/migrations.rs and the part of
    [Migrations] in src/thxnet/leafchain/runtime/general/src/lib.rs that touches
    them.  The weights a migration returns and what it logs are not modelled. *)

From S2P Require Import Prelude Arith Errors Frame Runtime Leafchain.
From S2P Require Crowdfunding Rwa.
From S2P Require Import TrustlessAgent TrustlessAgentSpec TrustlessAgentInv TrustlessAgentTheorems.

(** ** pallet-crowdfunding: [MigrateToV3] *)

(** A campaign as version 2 stored it. *)
Record OldCampaign := mkOldCampaign {
  old_creator : AccountId;
  old_status : CF.CampaignStatus;
  old_config : CF.CampaignConfig;
  old_eligibility_rules : list CF.EligibilityRule;
  old_total_raised : Balance;
  old_total_disbursed : Balance;
  old_investor_count : Z;
  old_creation_deposit : Balance;
  old_created_at : BlockNumber;
  old_paused_at : option BlockNumber;
  old_rwa_asset_id : option Z;
  old_participation_id : option Z;
}.

Definition migrate_campaign (default_fee_bps : Z) (old : OldCampaign) : CF.Campaign :=
  CF.mkCampaign old.(old_creator) old.(old_status) old.(old_config) old.(old_eligibility_rules)
    old.(old_total_raised) old.(old_total_disbursed) old.(old_investor_count)
    old.(old_creation_deposit) old.(old_created_at) old.(old_paused_at) old.(old_rwa_asset_id)
    old.(old_participation_id) default_fee_bps.

(** [MigrateToV3::on_runtime_upgrade]: [None] when the version is not 2 and the
    migration skips.  [translate] visits every entry of the map. *)
Definition MigrateToV3 {T : CF.Config} (on_chain : Z) (campaigns : gmap Z OldCampaign)
    : option (Z * gmap Z CF.Campaign) :=
  if negb (on_chain =? 2) then None
  else Some (3, migrate_campaign CF.ProtocolFeeBps <$> campaigns).

(** [MigrateToV3::pre_upgrade] and [post_upgrade] *)
Definition v3_pre_upgrade (campaigns : gmap Z OldCampaign) : Z := wrap U32_MAX (Z.of_nat (size campaigns)).
Definition v3_post_upgrade {T : CF.Config} (old_count : Z) (campaigns : gmap Z CF.Campaign) : bool :=
  (old_count =? wrap U32_MAX (Z.of_nat (size campaigns))) &&
  forallb (λ p, negb (0 <? CF.ProtocolFeeBps) || (0 <? p.2.(CF.protocol_fee_bps)))
    (map_to_list campaigns).

(** ** The chain with the versions of its storages *)

Record Upgradable := mkUpgradable {
  crowdfunding_version : Z;
  rwa_version : Z;
  agent_version : Z;
  chain : Leafchain;
}.

(** [pallet_rwa::migrations::v5::MigrateToV5] *)
Definition MigrateToV5 (u : Upgradable) : Upgradable :=
  if 5 <=? u.(rwa_version) then u
  else mkUpgradable u.(crowdfunding_version) 5 u.(agent_version) u.(chain).

Definition v5_post_upgrade (u : Upgradable) : bool := 5 <=? u.(rwa_version).

Definition CrowdfundingStampOrMigrateToV3 (u : Upgradable) : Upgradable :=
  if u.(crowdfunding_version) <? 3
  then mkUpgradable 3 u.(rwa_version) u.(agent_version) u.(chain) else u.

Definition stamp_post_upgrade (u : Upgradable) : bool := 3 <=? u.(crowdfunding_version).

(** [pallet_trustless_agent::migrations::v1::InitialDeployment] *)
Definition init_counters (s : State) : State :=
  put_NextDisputeId 0 (put_NextEscrowId 0 (put_NextRequestId 0 (put_NextAuthorizationId 0
    (put_NextFeedbackId 0 (put_NextAgentId 0 s))))).

Definition with_agents (s : State) (c : Leafchain) : Leafchain :=
  mkLeafchain c.(ledger) c.(crowdfunding) c.(rwa) s
    c.(crowdfunding_events) c.(rwa_events) c.(agent_events).

Definition InitialDeployment (u : Upgradable) : Upgradable :=
  if u.(agent_version) =? 0
  then mkUpgradable u.(crowdfunding_version) u.(rwa_version) 1
         (with_agents (init_counters u.(chain).(agents)) u.(chain))
  else u.

Definition initial_pre_upgrade (u : Upgradable) : bool :=
  (1 <=? u.(agent_version)) ||
  (u.(chain).(agents).(NextAgentId) =? 0) && (u.(chain).(agents).(NextFeedbackId) =? 0).

Definition initial_post_upgrade (u : Upgradable) : bool := 1 <=? u.(agent_version).

(** The three of [Migrations], in their order. *)
Definition on_runtime_upgrade (u : Upgradable) : Upgradable :=
  InitialDeployment (CrowdfundingStampOrMigrateToV3 (MigrateToV5 u)).

(** ** The properties *)

(** What version 2 had of a campaign. *)
Definition forget_fee (c : CF.Campaign) : OldCampaign :=
  mkOldCampaign c.(CF.creator) c.(CF.status) c.(CF.config) c.(CF.eligibility_rules) c.(CF.total_raised)
    c.(CF.total_disbursed) c.(CF.investor_count) c.(CF.creation_deposit) c.(CF.created_at)
    c.(CF.paused_at) c.(CF.rwa_asset_id) c.(CF.participation_id).

(** [MigrateToV3] loses nothing and adds nothing but the fee: from a storage of
    version 2 it produces one of version 3 whose campaigns, without their fee,
    are exactly the old ones under the same numbers; every fee is the one of the
    configuration; and its own [post_upgrade] check accepts the result.  In any
    other version it skips. *)
Theorem v3_roundtrip {T : CF.Config} on_chain old :
  match MigrateToV3 on_chain old with
  | None => on_chain ≠ 2
  | Some (version, new) =>
      on_chain = 2 ∧ version = 3 ∧ forget_fee <$> new = old ∧
      map_Forall (λ _ c, c.(CF.protocol_fee_bps) = CF.ProtocolFeeBps) new ∧
      v3_post_upgrade (v3_pre_upgrade old) new = true
  end.
Proof.
  unfold MigrateToV3. destruct (Z.eqb_spec on_chain 2) as [->|Hne]; simpl; [|done].
  assert (map_Forall (λ _ c, c.(CF.protocol_fee_bps) = CF.ProtocolFeeBps)
    (migrate_campaign CF.ProtocolFeeBps <$> old)) as Hfee.
  { intros id c (x & <- & _)%lookup_fmap_Some. done. }
  split_and!; [done|done| |done|].
  - rewrite <- map_fmap_compose. rewrite <- (map_fmap_id old) at 2. apply map_fmap_ext. by intros id [].
  - unfold v3_post_upgrade, v3_pre_upgrade. rewrite map_size_fmap, Z.eqb_refl. simpl.
    apply forallb_forall. intros [id c] Hin%list_elem_of_In%elem_of_map_to_list. simpl.
    rewrite (Hfee id c Hin). by destruct (0 <? _).
Qed.

Section counters.
Context {W : Type} `{!System W, !Currency W, !ReservableCurrency W} {T : Config}.

(** Without agents nothing was ever numbered. *)
Record counters_wf (s : State) : Prop := {
  cw_agents : 0 ≤ s.(NextAgentId);
  cw_none : s.(NextAgentId) = 0 → s.(Agents) = ∅ ∧ s.(NextFeedbackId) = 0 ∧
    s.(NextAuthorizationId) = 0 ∧ s.(NextRequestId) = 0 ∧ s.(NextEscrowId) = 0 ∧ s.(NextDisputeId) = 0;
}.

Lemma counters_unused s : counters_wf s → s.(NextAgentId) = 0 → init_counters s = s.
Proof.
  intros [_ Hs] Hz. destruct (Hs Hz) as (_ & Hf & Ha & Hr & He & Hd).
  destruct s; simpl in *; subst. reflexivity.
Qed.

Lemma move_counters o s (w : W) s' w' : counters_wf s → agent_move o s w s' w' → counters_wf s'.
Proof.
  intros [Hn Hs] Hm. destruct Hm; split; simpl; try lia; intros Hz; try lia;
    destruct (Hs Hz) as [He Hi]; try done;
    match goal with
    | H : s.(Agents) !! _ = Some _ |- _ => by rewrite He in H
    | H : is_Some (s.(Agents) !! _) |- _ => rewrite He in H; by destruct H
    end.
Qed.

Lemma reachable_counters s : agent_reachable (W:=W) s → counters_wf s.
Proof.
  apply (reachable_ind counters_wf).
  - by split.
  - intros. by eapply move_counters.
Qed.
End counters.

(** C37. An upgrade that passes the checks keeps the storage: if the check before
    [InitialDeployment] accepts a chain, the migrations of the three pallets
    change no storage item of any of them (in particular no counter that was in
    use is set back, although the check looks at two of the six only), bring all
    three versions to where the checks after the upgrade want them, and running
    them again does nothing. *)
Theorem upgrade_keeps_storage counted u :
  chain_reachable counted u.(chain) → 0 ≤ u.(agent_version) → initial_pre_upgrade u = true →
  let u' := on_runtime_upgrade u in
  u'.(chain) = u.(chain) ∧
  v5_post_upgrade u' && stamp_post_upgrade u' && initial_post_upgrade u' = true ∧
  on_runtime_upgrade u' = u'.
Proof.
  intros Hc Hv Hpre u'. apply chain_joint in Hc.
  pose proof (counters_unused _ (reachable_counters _ (j_agents _ _ Hc))) as Hz.
  assert (u'.(chain) = u.(chain) ∧ 5 ≤ u'.(rwa_version) ∧ 3 ≤ u'.(crowdfunding_version) ∧
    1 ≤ u'.(agent_version)) as (Hch & H5 & H3 & H1).
  { assert (init_counters u.(chain).(agents) = u.(chain).(agents) ∨ u.(agent_version) ≠ 0) as Hinit.
    { unfold initial_pre_upgrade in Hpre. apply orb_true_iff in Hpre as [Hpre|Hpre]; bool_facts; [right; lia|].
      left. by apply Hz. }
    unfold u', on_runtime_upgrade, InitialDeployment, CrowdfundingStampOrMigrateToV3, MigrateToV5.
    destruct (Z.leb_spec 5 (rwa_version u)); simpl; destruct (Z.ltb_spec (crowdfunding_version u) 3); simpl;
      (destruct (Z.eqb_spec (agent_version u) 0); simpl; split_and!; try lia; try done);
      destruct Hinit as [->|]; try done; by destruct (chain u). }
  split; [done|]. split.
  - unfold v5_post_upgrade, stamp_post_upgrade, initial_post_upgrade.
    by rewrite !andb_true_iff, !Z.leb_le.
  - clearbody u'. unfold on_runtime_upgrade, InitialDeployment, CrowdfundingStampOrMigrateToV3, MigrateToV5.
    destruct (Z.leb_spec 5 (rwa_version u')), (Z.ltb_spec (crowdfunding_version u') 3); try lia.
    destruct (Z.eqb_spec (agent_version u') 0); [lia|done].
Qed.
