(* ===== verification/Samples.v ===== *)
(** * Sample states of the runtime

    Concrete chains on which the properties are applied: two accounts with
    funds, and the states a few calls lead to. *)

From S2P Require Import Prelude Arith Errors Frame Balances BalancesLaws Assets AssetsLaws.
From S2P Require Import Runtime.

(** ** A decidable condition for well-formed ledgers *)

(** An account that provides for itself, and is not frozen. *)
Definition plain_info (i : AccountInfo) : bool :=
  (i.(consumers) =? Z.b2z (consumes i.(data))) && (i.(providers) =? 1) && (i.(sufficients) =? 0) &&
  (EXISTENTIAL_DEPOSIT <=? i.(data).(free)) && (0 <=? i.(data).(reserved)) &&
  (i.(data).(free) + i.(data).(reserved) <=? U128_MAX) && (i.(data).(frozen) =? 0).

Definition plain_asset (d : AssetDetails) : bool :=
  (0 <=? d.(supply)) && (2 * d.(supply) <=? U128_MAX) && (0 <=? d.(min_balance)) &&
  (d.(accounts) =? 0) && (d.(asset_sufficients) =? 0).

Definition plain_ledger {X} (w : World X) : bool :=
  forallb (λ p, plain_info p.2) (map_to_list w.(Account)) &&
  forallb (λ p, plain_asset p.2) (map_to_list w.(rest).(Asset)) &&
  bool_decide (w.(rest).(AssetAccounts) = ∅).

Lemma forallb_map {K V} `{Countable K} (f : V → bool) (m : gmap K V) k v :
  forallb (λ p, f p.2) (map_to_list m) = true → m !! k = Some v → f v = true.
Proof.
  intros Hf Hk. rewrite forallb_forall in Hf. apply (Hf (k, v)).
  by apply list_elem_of_In, elem_of_map_to_list.
Qed.

Lemma plain_ledger_wf {X} k (w : World X) :
  (k ≤ 1000)%nat → plain_ledger w = true → ledger_wf k w.
Proof.
  intros Hk Hp. unfold plain_ledger in Hp. bool_facts.
  assert (∀ why who, held_by why w.(rest) who = 0) as Hheld.
  { intros why who. unfold held_by.
    match goal with H : AssetAccounts _ = ∅ |- _ => rewrite H end. apply map_sum_empty. }
  split; [done|..].
  - intros who. unfold get_info. destruct (w.(Account) !! who) as [i|] eqn:Hi; simpl.
    + match goal with H : forallb (λ p, plain_info p.2) _ = true |- _ =>
        pose proof (forallb_map _ _ _ _ H Hi) as Hpi end.
      unfold plain_info in Hpi. bool_facts. pose proof ed_pos.
      assert (ExistentialDeposit = EXISTENTIAL_DEPOSIT) by reflexivity.
      split; [split; lia|split; rewrite ?Hheld; simpl; ulia|lia|lia].
    + split; [by split|split; rewrite ?Hheld; simpl; ulia|done|done].
  - intros id d Hd. unfold get_asset in Hd.
    match goal with H : forallb (λ p, plain_asset p.2) _ = true |- _ =>
      pose proof (forallb_map _ _ _ _ H Hd) as Hpa end.
    unfold plain_asset in Hpa. bool_facts. split; ulia.
  - intros id who a Ha. unfold get_account in Ha.
    match goal with H : AssetAccounts _ = ∅ |- _ => rewrite H in Ha end.
    by rewrite lookup_empty in Ha.
Qed.

(** ** Accounts *)

Definition alice : AccountId := 1000.
Definition bob : AccountId := 2000.
Definition carol : AccountId := 3000.

(** The 32 bytes of an account below 65536. *)
Definition small_bytes (x : Z) : list Z := replicate 30 0 ++ [x / 256; x mod 256].

Lemma small_bytes_value x : 0 ≤ x < 65536 → be_value (small_bytes x) = x.
Proof.
  intros Hx. unfold small_bytes.
  change [x / 256; x mod 256] with ([x / 256] ++ [x mod 256]). rewrite app_assoc.
  rewrite be_value_snoc, be_value_snoc.
  assert (be_value (replicate 30 0) = 0) as -> by by vm_compute.
  pose proof (Z.div_mod x 256 ltac:(lia)). lia.
Qed.

(** Small accounts are not derived from a pallet id: those start with [m]. *)
Lemma small_not_derived x bytes :
  0 ≤ x < 65536 → Forall (fits U8_MAX) bytes →
  x ≠ account_of_bytes (PALLET_ID_TYPE_ID ++ bytes).
Proof.
  intros Hx Hb Heq. rewrite <- (small_bytes_value x Hx) in Heq.
  unfold account_of_bytes in Heq. apply be_value_inj in Heq.
  - unfold small_bytes in Heq. simpl in Heq. by injection Heq.
  - unfold small_bytes. rewrite length_take, !length_app, !length_replicate.
    change (length [x / 256; x mod 256]) with 2%nat. lia.
  - unfold small_bytes. apply Forall_app_2; [apply Forall_replicate; ulia|].
    assert (0 ≤ x / 256 < 256) by (split; [apply Z.div_pos; lia|apply Z.div_lt_upper_bound; lia]).
    pose proof (Z.mod_pos_bound x 256 ltac:(lia)). repeat constructor; ulia.
  - apply Forall_take, Forall_app_2; [|apply Forall_replicate; ulia].
    apply Forall_app_2; [|done]. repeat constructor; ulia.
Qed.

Definition funded (x : Balance) : AccountInfo := mkAccountInfo 0 1 0 (mkAccountData x 0 0).
