(* ===== verification/CrowdfundingWitnesses.v ===== *)
(** * pallet-crowdfunding: the properties at concrete runs

    Runs of the pallet in the general leafchain runtime, and each property of
    CrowdfundingTheorems.v at one of them. *)

From S2P Require Import Prelude Arith Errors Frame Balances Assets Runtime Samples.
From S2P Require Rwa.
From S2P Require Import Crowdfunding CrowdfundingMath CrowdfundingSpec CrowdfundingInv.
From S2P Require Import CrowdfundingFunds CrowdfundingCorrect CrowdfundingTheorems.
Import CrowdfundingErrors.

(** ** Runs *)

Abbreviation World0 := (World Rwa.State).
Abbreviation REnv := (CEnv World0).

Definition rwa_genesis : Rwa.State :=
  Rwa.mkState ∅ 0 ∅ ∅ ∅ ∅ ∅ ∅ ∅ ∅ ∅.

(** An asset nobody holds yet, with a minimum balance of one. *)
Definition sample_asset : AssetDetails :=
  mkAssetDetails carol carol carol carol 0 0 1 true 0 0 0 Live.

Definition sample_world : World0 :=
  mkChain {[ alice := funded (1000 * DOLLARS); bob := funded (1000 * DOLLARS) ]}
    (2000 * DOLLARS)
    (mkAssetsState {[ 7 := sample_asset ]} ∅ (mkOthers 100 ∅ rwa_genesis)).

Definition start : REnv := mkEnv genesis sample_world [].

(** The state a call leaves behind. *)
Definition after (o : Origin) (call : Call) (e : REnv) : REnv := committed (dispatch o call) e.

(** The same chain at a later block. *)
Definition at_block (n : BlockNumber) (e : REnv) : REnv :=
  mkEnv (store e) (set_block_number n (world e)) (events e).

(** A call that succeeds, as a check that evaluates. *)
Definition succeeds (o : Origin) (call : Call) (e : REnv) : bool := is_ok (dispatch o call e).

Lemma after_ok o call e :
  succeeds o call e = true → dispatch o call e = Ok (tt, after o call e).
Proof.
  unfold succeeds, after, committed. by destruct (dispatch o call e) as [[[] e']|].
Qed.

Lemma small_external x : 0 ≤ x < 65536 → external x.
Proof.
  intros Hx id Hid. unfold campaign_account, into_sub_account_truncating.
  apply small_not_derived; [done|]. apply Forall_app_2; [|apply u32_le_bytes_fits].
  repeat constructor; by vm_compute.
Qed.

Lemma at_block_reachable n e :
  reachable e → plain_ledger (world e) = true → block_number (world e) ≤ n → reachable (at_block n e).
Proof.
  intros Hr Hp Hn. eapply reachable_step; [exact Hr|]. apply step_world; [|..|done].
  - apply plain_ledger_wf; [lia|]. exact Hp.
  - intros id Hid. split; intros cur; by destruct cur.
Qed.

Lemma call_reachable o call e :
  reachable e → plain_ledger (world e) = true → typed_call call → external_origin o →
  counters_fit o call (store e) → succeeds o call e = true → reachable (after o call e).
Proof.
  intros Hr Hp Ht Ho Hc Hs. eapply reachable_step; [exact Hr|].
  eapply step_call; [exact Ht|exact Ho|exact Hc| |by apply after_ok].
  apply plain_ledger_wf; [lia|done].
Qed.

Lemma start_reachable : reachable start.
Proof. apply reachable_genesis, plain_ledger_wf; [lia|by vm_compute]. Qed.

(** An all-or-nothing campaign of alice, and bob's investment in it. *)
Definition plan : CampaignConfig :=
  mkCampaignConfig (AllOrNothing (100 * DOLLARS)) Native (100 + 2 * DAYS)
    (Some (500 * DOLLARS)) (Some DOLLARS) (Some (400 * DOLLARS)) 0 (Some 250).

Definition funding : REnv := after (Signed alice) (Create_campaign plan None None) start.
Definition invested_in : REnv := after (Signed bob) (Invest 0 (200 * DOLLARS)) funding.

(** A milestone campaign of alice. *)
Definition milestone_plan : CampaignConfig :=
  mkCampaignConfig
    (MilestoneBased (100 * DOLLARS) [mkMilestone 3333 0; mkMilestone 3333 0; mkMilestone 3334 0])
    Native (100 + 2 * DAYS) None None None 0 None.

(** A campaign of alice in asset 7. *)
Definition asset_plan : CampaignConfig :=
  mkCampaignConfig (KeepWhatYouRaise None) (Asset 7) (100 + 2 * DAYS) None None None 0 None.

(** Closed arithmetic facts, by evaluation. *)
Ltac evaluate := vm_compute; repeat split; first [reflexivity | congruence | done].

Lemma plan_typed : wf_config plan.
Proof. split; [done|intros ? [= <-]; evaluate|intros ? [= <-]; evaluate|evaluate]. Qed.

Lemma milestone_plan_typed : wf_config milestone_plan.
Proof.
  split; [|done|done|evaluate]. intros goal ms [= <- <-]. split; [evaluate|].
  repeat constructor; evaluate.
Qed.

Lemma asset_plan_typed : wf_config asset_plan.
Proof. split; [done|done|done|evaluate]. Qed.

Lemma alice_external : external alice.
Proof. by apply small_external. Qed.
Lemma bob_external : external bob.
Proof. by apply small_external. Qed.

(** A call from a sample state: everything but the origin is evaluated. *)
Ltac run := apply call_reachable;
  [|by vm_compute|try exact I|try exact alice_external; try exact bob_external; try exact I
   |try exact I|by vm_compute].

Lemma funding_reachable : reachable funding.
Proof. run; [apply start_reachable|apply plan_typed]. Qed.

Lemma bob_invests_fit (e : REnv) c a :
  (store e).(Campaigns) !! 0 = Some c → c.(total_raised) + a ≤ U128_MAX →
  (row 0 bob (store e)).(total_invested) + a ≤ U128_MAX → c.(investor_count) + 1 ≤ U32_MAX →
  counters_fit (Signed bob) (Invest 0 a) (store e).
Proof. intros Hc H1 H2 H3 c' Hc'. rewrite Hc in Hc'. injection Hc' as <-. done. Qed.

Lemma funding_fits : counters_fit (Signed bob) (Invest 0 (200 * DOLLARS)) (store funding).
Proof.
  eapply bob_invests_fit; [vm_compute; reflexivity|evaluate..].
Qed.

Lemma invested_reachable : reachable invested_in.
Proof. run; [apply funding_reachable|split; by vm_compute|apply funding_fits]. Qed.

(** Past the deadline: the goal is met. *)
Definition succeeded : REnv :=
  after (Signed carol) (Finalize_campaign 0) (at_block (101 + 2 * DAYS) invested_in).

Lemma succeeded_reachable : reachable succeeded.
Proof.
  apply call_reachable; [|by vm_compute|exact I|by apply small_external|exact I|by vm_compute].
  apply at_block_reachable; [apply invested_reachable|by vm_compute|by vm_compute].
Qed.

(** An investment that does not reach the goal. *)
Definition failed : REnv :=
  after (Signed carol) (Finalize_campaign 0)
    (at_block (101 + 2 * DAYS) (after (Signed bob) (Invest 0 (20 * DOLLARS)) funding)).

Lemma failed_reachable : reachable failed.
Proof.
  apply call_reachable; [|by vm_compute|exact I|by apply small_external|exact I|by vm_compute].
  apply at_block_reachable; [|by vm_compute|by vm_compute].
  run; [apply funding_reachable|split; by vm_compute|].
  eapply bob_invests_fit; [vm_compute; reflexivity|evaluate..].
Qed.

(** The milestone campaign in its milestone phase, and the claims one by one. *)
Definition milestones : REnv :=
  after (Signed carol) (Finalize_campaign 0)
    (at_block (101 + 2 * DAYS) (after (Signed bob) (Invest 0 (100 * DOLLARS + 1))
      (after (Signed alice) (Create_campaign milestone_plan None None) start))).

Lemma milestones_reachable : reachable milestones.
Proof.
  apply call_reachable; [|by vm_compute|exact I|by apply small_external|exact I|by vm_compute].
  apply at_block_reachable; [|by vm_compute|by vm_compute].
  run; [run; [apply start_reachable|apply milestone_plan_typed]|split; by vm_compute|].
  eapply bob_invests_fit; [vm_compute; reflexivity|evaluate..].
Qed.

Definition approved (i : Z) (e : REnv) : REnv :=
  after Root (Approve_milestone 0 i) (after (Signed alice) (Submit_milestone 0 i) e).
Definition paid (i : Z) (e : REnv) : REnv :=
  after (Signed alice) (Claim_milestone_funds 0 i) (approved i e).

Definition completed : REnv := paid 2 (paid 1 (paid 0 milestones)).

Lemma approved_reachable i (e : REnv) :
  reachable e → plain_ledger (world e) = true →
  succeeds (Signed alice) (Submit_milestone 0 i) e = true →
  plain_ledger (world (after (Signed alice) (Submit_milestone 0 i) e)) = true →
  succeeds Root (Approve_milestone 0 i) (after (Signed alice) (Submit_milestone 0 i) e) = true →
  reachable (approved i e).
Proof.
  intros Hr Hp H1 Hp1 H2. apply call_reachable; [|done|done|done|done|done].
  apply call_reachable; try done. apply alice_external.
Qed.

Lemma paid_reachable i (e : REnv) :
  reachable (approved i e) → plain_ledger (world (approved i e)) = true →
  succeeds (Signed alice) (Claim_milestone_funds 0 i) (approved i e) = true → reachable (paid i e).
Proof. intros Hr Hp Hs. apply call_reachable; try done. apply alice_external. Qed.

Lemma completed_reachable : reachable completed.
Proof.
  do 3 (apply paid_reachable; [|by vm_compute|by vm_compute];
    apply approved_reachable; [|by vm_compute..]).
  apply milestones_reachable.
Qed.

Definition asset_campaign : REnv :=
  after (Signed alice) (Create_campaign asset_plan None None) start.

Lemma asset_campaign_reachable : reachable asset_campaign.
Proof. run; [apply start_reachable|apply asset_plan_typed]. Qed.

Lemma sample_roomy (e : REnv) : plain_ledger (world e) = true → roomy e.
Proof. intros Hp. apply plain_ledger_wf; [lia|done]. Qed.

(** The campaign record of a sample state. *)
Ltac stored := vm_compute; reflexivity.

(** ** The properties at these runs *)



Lemma asset_custody_witness :
  CampaignCreationDeposit ≤ free_balance (campaign_account 0) (world asset_campaign).
Proof.
  assert ({c | (store asset_campaign).(Campaigns) !! 0 = Some c ∧
    c.(config).(funding_currency) = Asset 7 ∧
    c.(total_disbursed) = 0 ∧ c.(creation_deposit) = CampaignCreationDeposit})
    as (c & Hc & Hcur & Hd & <-) by (eexists; split_and!; stored).
  apply (asset_custody asset_campaign 0 c 7 asset_campaign_reachable Hc Hcur); [stored|].
  rewrite Hd. reflexivity.
Defined.

(** A step by a call from a sample state. *)
Lemma sample_step o call e :
  plain_ledger (world e) = true → typed_call call → external_origin o →
  counters_fit o call (store e) → succeeds o call e = true → step e (after o call e).
Proof.
  intros Hp Ht Ho Hc Hs. eapply step_call; [exact Ht|exact Ho|exact Hc| |by apply after_ok].
  by apply sample_roomy.
Qed.

Lemma status_transitions_witness :
  ∃ c, (store invested_in).(Campaigns) !! 0 = Some c ∧ may_become Funding c.(status) = true.
Proof.
  assert ({c | (store funding).(Campaigns) !! 0 = Some c ∧ c.(status) = Funding})
    as (c & Hc & Hst) by (eexists; split_and!; stored).
  rewrite <- Hst. apply (status_transitions funding invested_in 0 c funding_reachable); [|exact Hc].
  apply sample_step; [stored|split; by vm_compute|apply bob_external|apply funding_fits|stored].
Defined.

Lemma terms_are_fixed_witness :
  ∃ c, (store invested_in).(Campaigns) !! 0 = Some c ∧ c.(creator) = alice ∧
    c.(config) = set_deadline c.(config).(deadline) plan.
Proof.
  assert ({c | (store funding).(Campaigns) !! 0 = Some c ∧ c.(creator) = alice ∧ c.(config) = plan})
    as (c & Hc & Hcr & Hg) by (eexists; split_and!; stored).
  destruct (terms_are_fixed funding invested_in 0 c funding_reachable) as (c' & Hc' & Ht); [|exact Hc|].
  - apply sample_step; [stored|split; by vm_compute|apply bob_external|apply funding_fits|stored].
  - exists c'. split; [exact Hc'|]. rewrite (st_creator _ _ Ht), (st_config _ _ Ht), Hg.
    split; [exact Hcr|reflexivity].
Defined.

Lemma completed_disburses_all_witness :
  ∃ c, (store completed).(Campaigns) !! 0 = Some c ∧ c.(total_raised) = 100 * DOLLARS + 1 ∧
    c.(total_disbursed) = c.(total_raised).
Proof.
  assert ({c | (store completed).(Campaigns) !! 0 = Some c ∧ c.(status) = Completed ∧
    c.(total_raised) = 100 * DOLLARS + 1})
    as (c & Hc & Hst & Hr) by (eexists; split_and!; stored).
  exists c. split; [exact Hc|]. split; [exact Hr|].
  apply (completed_disburses_all completed 0 c completed_reachable Hc Hst).
  rewrite Hr. split; by vm_compute.
Defined.

Lemma invest_exact_witness :
  free_balance bob (world invested_in) = free_balance bob (world funding) - 200 * DOLLARS.
Proof.
  assert ({c | (store funding).(Campaigns) !! 0 = Some c ∧ c.(config).(funding_currency) = Native})
    as (c & Hc & Hcur) by (eexists; split_and!; stored).
  destruct (invest_exact funding 0 (200 * DOLLARS) bob invested_in funding_reachable)
    as (c0 & c' & i & i' & Hc0 & _ & _ & _ & Hf & _).
  - apply sample_roomy. stored.
  - apply bob_external.
  - by vm_compute.
  - apply funding_fits.
  - exact (after_ok (Signed bob) (Invest 0 (200 * DOLLARS)) funding ltac:(stored)).
  - rewrite Hc in Hc0. injection Hc0 as <-. rewrite Hcur in Hf. exact Hf.
Defined.

Definition withdrawn_from : REnv :=
  after (Signed bob) (Withdraw_investment 0 (50 * DOLLARS)) invested_in.

Lemma withdraw_exact_witness :
  ∃ i, (store withdrawn_from).(Investments) !! (0, bob) = Some i ∧ net i = 150 * DOLLARS.
Proof.
  assert ({i | (store invested_in).(Investments) !! (0, bob) = Some i ∧ net i = 200 * DOLLARS})
    as (i & Hi & Hn) by (eexists; split_and!; stored).
  destruct (withdraw_exact invested_in 0 (50 * DOLLARS) bob withdrawn_from invested_reachable)
    as (c & c' & i0 & i' & _ & _ & Hi0 & Hi' & _ & _ & _ & Hnet & _).
  - apply sample_roomy. stored.
  - apply bob_external.
  - by vm_compute.
  - exact (after_ok (Signed bob) (Withdraw_investment 0 (50 * DOLLARS)) invested_in ltac:(stored)).
  - rewrite Hi in Hi0. injection Hi0 as <-. exists i'. split; [exact Hi'|].
    rewrite Hnet, Hn. reflexivity.
Defined.

Definition refunded : REnv := after (Signed bob) (Claim_refund 0) failed.

Lemma refund_once_witness :
  free_balance bob (world refunded) = free_balance bob (world failed) + 20 * DOLLARS ∧
  claim_refund (Signed bob) 0 refunded = Err (err NoInvestmentFound).
Proof.
  assert ({c | (store failed).(Campaigns) !! 0 = Some c ∧
    c.(config).(funding_currency) = Native ∧ c.(total_disbursed) = 0})
    as (c & Hc & Hcur & Hd) by (eexists; split_and!; stored).
  assert ({i | (store failed).(Investments) !! (0, bob) = Some i ∧ net i = 20 * DOLLARS})
    as (i & Hi & Hn) by (eexists; split_and!; stored).
  destruct (refund_once failed 0 bob refunded failed_reachable)
    as (c0 & i0 & Hc0 & Hi0 & _ & _ & Hall & _ & Hf & _ & Hagain).
  - apply sample_roomy. stored.
  - apply bob_external.
  - exact (after_ok (Signed bob) (Claim_refund 0) failed ltac:(stored)).
  - rewrite Hc in Hc0. injection Hc0 as <-. rewrite Hi in Hi0. injection Hi0 as <-.
    rewrite (Hall Hd), Hn, Hcur in Hf. split; [exact Hf|exact Hagain].
Defined.

Definition claimed_all : REnv := after (Signed alice) (Claim_funds 0) succeeded.

Lemma claim_funds_once_witness :
  claim_funds (Signed alice) 0 claimed_all = Err (err InvalidCampaignStatus).
Proof.
  assert ({c | (store succeeded).(Campaigns) !! 0 = Some c ∧ c.(creator) = alice})
    as (c & Hc & Hcr) by (eexists; split_and!; stored).
  rewrite <- Hcr.
  apply (claim_funds_once succeeded 0 claimed_all c succeeded_reachable).
  - apply sample_roomy. stored.
  - exact Hc.
  - rewrite Hcr. apply alice_external.
  - apply small_external. vm_compute. split; congruence.
  - rewrite Hcr. vm_compute. congruence.
  - rewrite Hcr. exact (after_ok (Signed alice) (Claim_funds 0) succeeded ltac:(stored)).
Defined.

Lemma milestone_claimed_once_witness :
  (store (paid 0 milestones)).(MilestoneStatuses) !! (0, 0) = Some Claimed.
Proof.
  apply (milestone_claimed_once (approved 0 milestones) 0 0 alice (paid 0 milestones)).
  - apply approved_reachable; [apply milestones_reachable|stored..].
  - exact (after_ok (Signed alice) (Claim_milestone_funds 0 0) (approved 0 milestones) ltac:(stored)).
Defined.

Definition deposit_back : REnv := after (Signed alice) (Claim_creation_deposit 0) failed.

Lemma deposit_returned_once_witness :
  free_balance alice (world deposit_back) = free_balance alice (world failed) + CampaignCreationDeposit ∧
  claim_creation_deposit (Signed alice) 0 deposit_back = Err (err AlreadyClaimed).
Proof.
  assert ({c | (store failed).(Campaigns) !! 0 = Some c ∧ c.(creator) = alice})
    as (c & Hc & Hcr) by (eexists; split_and!; stored).
  rewrite <- Hcr.
  apply (deposit_returned_once failed 0 c deposit_back failed_reachable).
  - apply sample_roomy. stored.
  - exact Hc.
  - rewrite Hcr. apply alice_external.
  - rewrite Hcr. exact (after_ok (Signed alice) (Claim_creation_deposit 0) failed ltac:(stored)).
Defined.

(** Paused at block 100 and resumed 10 days later. *)
Definition paused : REnv := after Root (Pause_campaign 0) funding.
Definition later : REnv := at_block (100 + 10 * DAYS) paused.
Definition resumed_later : REnv := after Root (Resume_campaign 0) later.

Lemma pause_keeps_window_witness :
  ∃ c, (store resumed_later).(Campaigns) !! 0 = Some c ∧ c.(config).(deadline) = 100 + 12 * DAYS.
Proof.
  assert ({c | (store funding).(Campaigns) !! 0 = Some c ∧ c.(config).(deadline) = 100 + 2 * DAYS})
    as (c & Hc & Hd) by (eexists; split_and!; stored).
  destruct (pause_keeps_window Root Root 0 funding paused (world later) (events later) resumed_later c Hc)
    as (c2 & Hc2 & _ & Heq).
  - exact (after_ok Root (Pause_campaign 0) funding ltac:(stored)).
  - by vm_compute.
  - rewrite Hd. by vm_compute.
  - exact (after_ok Root (Resume_campaign 0) later ltac:(stored)).
  - exists c2. split; [exact Hc2|]. rewrite Hd in Heq.
    assert (block_number (world later) = 100 + 10 * DAYS) as Hl by stored.
    assert (block_number (world funding) = 100) as Hf by stored. rewrite Hl, Hf in Heq. lia.
Defined.

Lemma create_exact_witness :
  free_balance alice (world funding) = free_balance alice (world start) - CampaignCreationDeposit.
Proof.
  destruct (create_exact start (Signed alice) plan None None funding start_reachable)
    as (c & _ & _ & Ho & _ & _ & _ & _ & _ & _ & _ & Hb).
  - apply sample_roomy. stored.
  - apply alice_external.
  - exact (after_ok (Signed alice) (Create_campaign plan None None) start ltac:(stored)).
  - injection Ho as Hcr. rewrite <- Hcr in Hb. exact Hb.
Defined.

Lemma bps_of_is_ceiling_witness : 0 ≤ bps_of 3 250 ≤ 3 ∧ bps_of 3 250 = 1.
Proof.
  split; [|reflexivity]. apply (bps_of_is_ceiling 3 250); [split; by vm_compute|done].
Defined.

Lemma bps_of_splitting_witness : bps_of 20001 250 ≤ bps_of 10000 250 + bps_of 10001 250.
Proof.
  apply (bps_of_splitting 10000 10001 250); [split; by vm_compute|done..].
Defined.

Lemma check_eligibility_agrees_witness : check_eligibility 0 bob funding = Ok tt.
Proof.
  assert ({c | (store funding).(Campaigns) !! 0 = Some c ∧
    check_eligibility_inner bob c 0 funding = Ok (tt, funding)})
    as (c & Hc & Hi) by (eexists; split_and!; stored).
  apply (check_eligibility_agrees funding 0 c bob Hc). exact Hi.
Defined.

Lemma preview_agrees_witness :
  is_Some (preview_withdrawal 0 bob (50 * DOLLARS) (store invested_in)).
Proof.
  assert ({c | (store invested_in).(Campaigns) !! 0 = Some c ∧ c.(status) = Funding})
    as (c & Hc & Hst) by (eexists; split_and!; stored).
  assert ({i | (store invested_in).(Investments) !! (0, bob) = Some i ∧
    (50 * DOLLARS <=? saturating_sub i.(total_invested) i.(total_withdrawn)) = true})
    as (i & Hi & Hle) by (eexists; split_and!; stored).
  eexists. apply (preview_agrees invested_in 0 bob (50 * DOLLARS) c _ invested_reachable Hc Hst).
  exists i. split; [exact Hi|]. split; [by vm_compute|]. split; [by apply Z.leb_le|reflexivity].
Defined.

(** ** Where the pallet falls short *)

(** The API previews a withdrawal from a paused campaign without the penalty
    the withdrawal then takes. *)
Definition paused_with_investment : REnv := after Root (Pause_campaign 0) invested_in.

Definition paused_withdrawal : REnv :=
  after (Signed bob) (Withdraw_investment 0 (40 * DOLLARS)) paused_with_investment.

Theorem paused_preview_omits_penalty :
  ∃ p i, preview_withdrawal 0 bob (40 * DOLLARS) (store paused_with_investment) = Some p ∧
    p.(penalty) = 0 ∧ p.(net_amount) = 40 * DOLLARS ∧
    (store paused_withdrawal).(Investments) !! (0, bob) = Some i ∧
    i.(total_withdrawn) = 40 * DOLLARS ∧
    free_balance bob (world paused_withdrawal) = free_balance bob (world paused_with_investment) + 39 * DOLLARS.
Proof. eexists _, _. split_and!; stored. Qed.

(** An investor who owns part of a required set of NFTs is not eligible, and the
    API says the campaign does not exist. *)
Definition nft_world : World0 :=
  let w := world start in
  mkChain w.(Account) w.(TotalIssuance)
    (mkAssetsState w.(rest).(Assets.Asset) w.(rest).(AssetAccounts)
      (mkOthers 100 {[ (1, 1) := bob ]} rwa_genesis)).
Definition nft_campaign : REnv :=
  after (Signed alice) (Create_campaign plan (Some [NftOwnership [[(1, 1); (1, 2)]]]) None)
    (mkEnv genesis nft_world []).

Theorem eligibility_error_misleads :
  is_Some ((store nft_campaign).(Campaigns) !! 0) ∧
  check_eligibility 0 bob nft_campaign = Err EligibilityErrors.CampaignNotFound.
Proof. split; [eexists|]; stored. Qed.

(** Three investors of one unit each, a third disbursed: each share of the rest
    is rounded up to one unit, and the refunds are one more than the rest. *)
Definition tiny_plan : CampaignConfig :=
  mkCampaignConfig (MilestoneBased 3 [mkMilestone 3333 0; mkMilestone 6667 0])
    Native (100 + 2 * DAYS) None None None 0 None.
Definition dave : AccountId := 4000.
Definition tiny_world : World0 :=
  mkChain {[ alice := funded (1000 * DOLLARS); bob := funded (1000 * DOLLARS);
             carol := funded (1000 * DOLLARS); dave := funded (1000 * DOLLARS);
             ProtocolFeeRecipient := funded DOLLARS ]}
    (4001 * DOLLARS) (world start).(rest).
Definition tiny_funded : REnv :=
  after (Signed dave) (Invest 0 1) (after (Signed carol) (Invest 0 1)
    (after (Signed bob) (Invest 0 1)
      (after (Signed alice) (Create_campaign tiny_plan None None) (mkEnv genesis tiny_world [])))).
Definition tiny_cancelled : REnv :=
  after Root (Cancel_campaign 0)
    (paid 0 (after (Signed carol) (Finalize_campaign 0) (at_block (101 + 2 * DAYS) tiny_funded))).

Theorem refunds_exceed_the_rest :
  ∃ c, (store tiny_cancelled).(Campaigns) !! 0 = Some c ∧ c.(status) = Cancelled ∧
    c.(total_raised) = 3 ∧ c.(total_disbursed) = 1 ∧
    net_invested 0 (store tiny_cancelled) = 3 ∧ 3 * refund_of c 1 = 3.
Proof. eexists. do 5 (split; [stored|]). stored. Qed.
