(* ===== verification/RwaWitnesses.v ===== *)
(** * pallet-rwa: the properties at concrete runs

    Runs of the pallet in the general leafchain runtime, each property of
    RwaTheorems.v at one of them, and two runs that show the limits of the
    properties: a slash whose shares round up, and a renewal past the limit of
    participants. *)

From stdpp Require Import relations.
From S2P Require Import Prelude Arith Errors Frame Balances Assets Runtime Samples.
From S2P Require Crowdfunding.
From S2P Require Import Rwa RwaSpec RwaInv RwaParts RwaCorrect RwaReach RwaMachine RwaRefine.
From S2P Require Import RwaEvolve RwaFunds RwaCustody RwaTheorems.
Import RwaErrors.

(** ** Runs *)

Abbreviation REnv := (CEnv (World Crowdfunding.State)).

Definition crowdfunding_genesis : Crowdfunding.State :=
  Crowdfunding.mkState ∅ 0 ∅ ∅ [] ∅ ∅ ∅ ∅ None None.

(** The account of the pallet, evaluated. *)
Definition rwa_account : AccountId := Eval vm_compute in pallet_account.

Definition sample_accounts : gmap AccountId AccountInfo :=
  {[ alice := funded (1000 * DOLLARS); bob := funded (1000 * DOLLARS);
     carol := funded (1000 * DOLLARS) ]}.

Definition world_of (accounts : gmap AccountId AccountInfo) : World Crowdfunding.State :=
  mkChain accounts (3001 * DOLLARS) (mkAssetsState ∅ ∅ (mkOthers 100 ∅ crowdfunding_genesis)).

(** The account of the pallet holds the existential deposit beforehand, or
    nothing. *)
Definition sample_world : World Crowdfunding.State :=
  world_of (<[rwa_account := funded EXISTENTIAL_DEPOSIT]> sample_accounts).
Definition start : REnv := mkEnv genesis sample_world [].
Definition bare_start : REnv := mkEnv genesis (world_of sample_accounts) [].

Definition after (o : Origin) (call : Call) (e : REnv) : REnv := committed (dispatch o call) e.
Definition succeeds (o : Origin) (call : Call) (e : REnv) : bool := is_ok (dispatch o call e).

Definition at_block (n : BlockNumber) (e : REnv) : REnv :=
  mkEnv (store e) (set_block_number n (world e)) (events e).

Lemma rwa_after_ok o call e :
  succeeds o call e = true → dispatch o call e = Ok (tt, after o call e).
Proof. unfold succeeds, after, committed. by destruct (dispatch o call e) as [[[] e']|]. Qed.

Lemma small_not_pallet x : 0 ≤ x < 65536 → x ≠ pallet_account.
Proof.
  intros Hx. apply small_not_derived; [done|]. repeat constructor; by vm_compute.
Qed.

Lemma signed_sound who call :
  0 ≤ who < 65536 → typed_call call →
  match call with
  | Register_asset _ pol _ | Update_asset_policy _ pol => policy_fits pol
  | Slash_participation _ _ amount _ => 0 ≤ amount
  | _ => True
  end → sound_call (Signed who) call.
Proof. intros Hw Ht Hc. split; [|done]. intros x [= <-]. by apply small_not_pallet. Qed.

Definition not_slash (call : Call) : bool :=
  match call with Slash_participation _ _ _ _ => false | _ => true end.

Lemma not_slash_fits o call r : not_slash call = true → slash_fits (ByCall o call) r.
Proof. intros Hc id pid amount l. by destruct call. Qed.

Lemma rwa_roomy (e : REnv) : plain_ledger (world e) = true → roomy e.
Proof. intros Hp. apply plain_ledger_wf; [|done]. apply Nat.leb_le. by vm_compute. Qed.

Lemma call_solvent o call e :
  solvent e → plain_ledger (world e) = true → sound_call o call → not_slash call = true →
  succeeds o call e = true → solvent (after o call e).
Proof.
  intros Hs Hp Hc Hn Hok. eapply solvent_step; [exact Hs|].
  eapply funded_call; [exact Hc|by apply rwa_roomy|by apply not_slash_fits|by apply rwa_after_ok].
Qed.

Lemma at_block_solvent n e :
  solvent e → plain_ledger (world e) = true → solvent (at_block n e).
Proof.
  intros Hs Hp. eapply solvent_step; [exact Hs|]. apply funded_world. split; try done.
  apply plain_ledger_wf; [lia|]. exact Hp.
Qed.

Lemma start_solvent : solvent start.
Proof.
  apply solvent_genesis.
  - apply plain_ledger_wf; [lia|by vm_compute].
  - intros who. pose proof (plain_ledger_wf 0 sample_world ltac:(lia) ltac:(by vm_compute)) as Hw.
    exact (BalancesLaws.dw_reserved _ (BalancesLaws.account_wf _ _ _ who _ (AssetsLaws.lw_chain _ _ Hw))).
Qed.

(** An asset of alice: ten dollars of deposit, two of entry fee, a term of a
    hundred blocks. *)
Definition terms (max : option Z) (approval : bool) : AssetPolicy :=
  mkAssetPolicy Native (2 * DOLLARS) (10 * DOLLARS) (Some 100) max approval.

Definition registered_with (max : option Z) (approval : bool) : REnv :=
  after (Signed alice) (Register_asset carol (terms max approval) [1; 2; 3]) start.
Definition open_asset : REnv := registered_with None false.
Definition entered_by_bob : REnv := after (Signed bob) (Request_participation 0 [bob; 77]) open_asset.
Definition left_by_bob : REnv := after (Signed bob) (Exit_participation 0 0) entered_by_bob.
Definition both : REnv := after (Signed carol) (Request_participation 0 [carol]) entered_by_bob.

Ltac solve_sound := first [by apply signed_sound | by split].

(** A call of a sample run. *)
Ltac run_rwa := apply call_solvent; [|by vm_compute|solve_sound|reflexivity|by vm_compute].

Lemma terms_fit max approval : policy_fits (terms max approval).
Proof. repeat split; by vm_compute. Qed.

Lemma open_asset_solvent : solvent open_asset.
Proof.
  apply call_solvent; [apply start_solvent|by vm_compute| |reflexivity|by vm_compute].
  apply signed_sound; [done|done|apply terms_fit].
Qed.

Lemma entered_solvent : solvent entered_by_bob.
Proof. run_rwa. apply open_asset_solvent. Qed.

Lemma left_solvent : solvent left_by_bob.
Proof. run_rwa. apply entered_solvent. Qed.

Lemma both_solvent : solvent both.
Proof. run_rwa. apply entered_solvent. Qed.

(** The asset on its way out: its sunset is at block 500. *)
Definition sunsetting : REnv := after (Signed alice) (Sunset_asset 0 500) both.

Lemma sunsetting_solvent : solvent sunsetting.
Proof. run_rwa. apply both_solvent. Qed.

(** The asset offered to bob, and in bob's hands. *)
Definition offered : REnv := after (Signed alice) (Transfer_ownership 0 bob) open_asset.
Definition accepted : REnv := after (Signed bob) (Accept_ownership 0) offered.

Lemma offered_solvent : solvent offered.
Proof. run_rwa. apply open_asset_solvent. Qed.

(** A distribution whose shares of a small amount round up. *)
Definition uneven : list SlashRecipient :=
  [mkSlashRecipient Beneficiary 300000; mkSlashRecipient Beneficiary 300000;
   mkSlashRecipient Beneficiary 300000; mkSlashRecipient Beneficiary 100000].
Definition distributed : REnv := after (Signed alice) (Set_slash_distribution 0 uneven) both.

Lemma uneven_typed : typed_call (Set_slash_distribution 0 uneven).
Proof. split; [repeat constructor; by vm_compute|by vm_compute]. Qed.

Lemma distributed_solvent : solvent distributed.
Proof.
  apply call_solvent; [apply both_solvent|by vm_compute| |reflexivity|by vm_compute].
  apply signed_sound; [done|apply uneven_typed|done].
Qed.

(** Closed facts, by evaluation. *)
Ltac stored := vm_compute; reflexivity.

(** ** The properties at these runs *)

Lemma rwa_reachable_try_state_witness : do_try_state (store left_by_bob) = Ok tt.
Proof. apply rwa_reachable_try_state, solvent_reachable, left_solvent. Defined.

Lemma call_refines_machine_witness :
  asset_step (ByCall (Signed bob) (Exit_participation 0 0)) (view entered_by_bob) (view left_by_bob) ∨
  bsteps (part_step (ByCall (Signed bob) (Exit_participation 0 0))) call_bound
    (view entered_by_bob) (view left_by_bob).
Proof.
  apply call_refines_machine; [apply solvent_reachable, entered_solvent|].
  exact (rwa_after_ok (Signed bob) (Exit_participation 0 0) entered_by_bob ltac:(stored)).
Defined.

Lemma hook_retires_due_witness :
  ∃ e' a, on_initialize 500 sunsetting = Ok (tt, e') ∧
    (store e').(RwaAssets) !! 0 = Some a ∧ a.(status) = Retired.
Proof.
  assert ({a | (store sunsetting).(RwaAssets) !! 0 = Some a ∧ a.(status) = Sunsetting 500})
    as (a & Ha & Hst) by (eexists; split_and!; stored).
  destruct (hook_retires_due 500 sunsetting (solvent_reachable _ sunsetting_solvent)) as (e' & Hrun & Hall).
  exists e', (set_status Retired a). split; [exact Hrun|]. split; [|reflexivity].
  rewrite Hall, Ha. simpl. rewrite Hst. reflexivity.
Defined.

Lemma sunset_step : step both sunsetting.
Proof.
  eapply step_call; [|exact (rwa_after_ok (Signed alice) (Sunset_asset 0 500) both ltac:(stored))]. exact I.
Qed.

Lemma asset_transitions_witness :
  ∃ a, (store sunsetting).(RwaAssets) !! 0 = Some a ∧ asset_may_become Active a.(status) = true.
Proof.
  assert ({a | (store both).(RwaAssets) !! 0 = Some a ∧ a.(status) = Active})
    as (a & Ha & <-) by (eexists; split_and!; stored).
  exact (asset_transitions both sunsetting 0 a (solvent_reachable _ both_solvent) sunset_step Ha).
Defined.

Lemma asset_terms_fixed_witness :
  ∃ a, (store sunsetting).(RwaAssets) !! 0 = Some a ∧ a.(policy).(deposit) = 10 * DOLLARS.
Proof.
  assert ({a | (store both).(RwaAssets) !! 0 = Some a ∧ a.(policy).(deposit) = 10 * DOLLARS})
    as (a & Ha & Hd) by (eexists; split_and!; stored).
  destruct (asset_terms_fixed both sunsetting 0 a (solvent_reachable _ both_solvent)
    (rtc_once _ _ sunset_step) Ha) as (a' & Ha' & Ht & _).
  exists a'. split; [exact Ha'|]. rewrite <- Hd. by injection Ht.
Defined.

Lemma asset_authority_witness :
  (store offered).(PendingOwnershipTransfer) !! 0 = Some bob.
Proof.
  assert ({a | (store offered).(RwaAssets) !! 0 = Some a ∧ a.(owner) = alice})
    as (a & Ha & Ho) by (eexists; split_and!; stored).
  assert ({a | (store accepted).(RwaAssets) !! 0 = Some a ∧ a.(owner) = bob})
    as (a' & Ha' & Ho') by (eexists; split_and!; stored).
  destruct (asset_authority offered (Signed bob) (Accept_ownership 0) accepted 0 a a'
    (solvent_reachable _ offered_solvent)
    (rwa_after_ok (Signed bob) (Accept_ownership 0) offered ltac:(stored)) Ha Ha') as [_ Hown].
  rewrite Ho, Ho' in Hown. by apply Hown.
Defined.

Lemma participation_lifecycle_witness :
  ∃ p, (store sunsetting).(Participations) !! (0, 0) = Some p ∧ p.(rwa_asset_id) = 0.
Proof.
  assert ({p | (store both).(Participations) !! (0, 0) = Some p ∧ p.(rwa_asset_id) = 0 ∧
    bool_decide (p.(pstatus) = PendingApproval) = false})
    as (p & Hp & Hid & Hst) by (eexists; split_and!; stored).
  destruct (participation_lifecycle both sunsetting (0, 0) p (solvent_reachable _ both_solvent)
    (rtc_once _ _ sunset_step) Hp) as (p' & Hp' & Hf); [by apply bool_decide_eq_false in Hst|].
  exists p'. split; [exact Hp'|]. rewrite <- Hid. apply Hf.
Defined.

Lemma one_participation_per_holder_witness :
  ∃ p, (store both).(Participations) !! (0, 0) = Some p ∧ is_live p.(pstatus) = true ∧
    77 ∈ p.(holders).
Proof.
  apply (one_participation_per_holder both 77 (solvent_reachable _ both_solvent)).
  vm_compute. by left.
Defined.

Lemma can_participate_agrees_witness : can_participate 0 carol entered_by_bob = Ok tt.
Proof.
  destruct (can_participate_agrees entered_by_bob 0 (solvent_reachable _ entered_solvent)) as [Hok _].
  pose proof (Hok carol [carol] both
    (rwa_after_ok (Signed carol) (Request_participation 0 [carol]) entered_by_bob ltac:(stored))) as Hall.
  apply Forall_cons in Hall. apply Hall.
Defined.


Lemma registration_reserved_witness :
  pledged alice (abs (store both)) ≤ reserved_balance alice (world both).
Proof. apply registration_reserved; [by vm_compute|apply both_solvent]. Defined.

Lemma slash_handed_out_bound_witness :
  2 ≤ share_total 2 uneven 0 ∧ 2 * (share_total 2 uneven 0 - 2) ≤ 4.
Proof.
  apply (slash_handed_out_bound distributed 0 uneven 2 (solvent_reachable _ distributed_solvent));
    [stored|by vm_compute].
Defined.

Lemma wf_of (e : REnv) k : (k ≤ 1000)%nat → plain_ledger (world e) = true → world_wf k (world e).
Proof. apply plain_ledger_wf. Qed.

Lemma exit_pays_once_witness :
  ∃ a p, (store entered_by_bob).(RwaAssets) !! 0 = Some a ∧
    (store entered_by_bob).(Participations) !! (0, 0) = Some p ∧
    bal (cur_of a) bob (world left_by_bob) = bal (cur_of a) bob (world entered_by_bob) + p.(deposit_held).
Proof.
  destruct (exit_pays_once entered_by_bob 0 0 bob left_by_bob) as (a & p & Ha & Hp & Hb & _).
  - by vm_compute.
  - apply entered_solvent.
  - apply wf_of; [lia|by vm_compute].
  - by apply small_not_pallet.
  - exact (rwa_after_ok (Signed bob) (Exit_participation 0 0) entered_by_bob ltac:(stored)).
  - eauto.
Defined.

Lemma request_exact_witness :
  bal Native bob (world entered_by_bob) = bal Native bob (world open_asset) - 12 * DOLLARS.
Proof.
  assert ({a | (store open_asset).(RwaAssets) !! 0 = Some a ∧ a.(beneficiary) = carol ∧
    a.(policy) = terms None false}) as (a & Ha & Hb & Hpol) by (eexists; split_and!; stored).
  destruct (request_exact open_asset 0 bob [bob; 77] a entered_by_bob) as (Hx & _ & _).
  - by vm_compute.
  - apply open_asset_solvent.
  - apply wf_of; [lia|by vm_compute].
  - exact Ha.
  - by apply small_not_pallet.
  - rewrite Hb. by apply small_not_pallet.
  - by rewrite Hb.
  - exact (rwa_after_ok (Signed bob) (Request_participation 0 [bob; 77]) open_asset ltac:(stored)).
  - rewrite Hpol in Hx. exact Hx.
Defined.

(** ** Where the pallet falls short *)

(** The account of the pallet pays every refund keeping itself alive.  Without
    an existential deposit of its own the last participant cannot leave. *)
Definition bare_entered : REnv :=
  after (Signed bob) (Request_participation 0 [bob])
    (after (Signed alice) (Register_asset carol (terms None false) [1; 2; 3]) bare_start).

Theorem last_exit_fails :
  ∃ p, (store bare_entered).(Participations) !! (0, 0) = Some p ∧
    p.(payer) = bob ∧ p.(deposit_held) = bal Native pallet_account (world bare_entered) ∧
    dispatch (Signed bob) (Exit_participation 0 0) bare_entered = Err (Token NotExpendable).
Proof. eexists. split_and!; stored. Qed.

(** Three shares of 30% of an amount of two are one each: the pallet hands out
    three, and is left with less than it holds for the others. *)
Definition slashed : REnv := after Root (Slash_participation 0 0 2 None) distributed.

Theorem slash_overpays :
  succeeds Root (Slash_participation 0 0 2 None) distributed = true ∧
  share_total 2 uneven 0 = 3 ∧
  bal Native pallet_account (world slashed) - EXISTENTIAL_DEPOSIT
    = held Native (abs (store slashed)) - 1.
Proof. split_and!; stored. Qed.

(** A renewal counts for nothing: with a limit of one, bob's term ends, carol
    enters, and bob renews. *)
Definition limited : REnv :=
  after (Signed bob) (Renew_participation 0 0)
    (after (Signed carol) (Request_participation 0 [carol])
      (after (Signed carol) (Settle_expired_participation 0 0)
        (at_block 300 (after (Signed bob) (Request_participation 0 [bob]) (registered_with (Some 1) false))))).

Theorem renewal_exceeds_limit :
  ∃ a, (store limited).(RwaAssets) !! 0 = Some a ∧
    a.(policy).(max_participants) = Some 1 ∧ a.(participant_count) = 2.
Proof. eexists. split_and!; stored. Qed.

(** An asset its owner deactivated comes back active from a pause. *)
Definition unpaused : REnv :=
  after Root (Unpause_asset 0) (after Root (Pause_asset 0)
    (after (Signed alice) (Deactivate_asset 0) open_asset)).

Theorem unpause_reactivates :
  ∃ a, (store unpaused).(RwaAssets) !! 0 = Some a ∧ a.(status) = Active.
Proof. eexists. split_and!; stored. Qed.
