(* ===== verification/TrustlessAgentWitnesses.v ===== *)
(** * pallet-trustless-agent: the properties at concrete runs

    In the general leafchain runtime, a run in which an agent is registered,
    rated, validated and hired, and each property of TrustlessAgentTheorems.v at
    a state of this run. *)

From stdpp Require Import relations.
From S2P Require Import Prelude Arith Errors Frame Balances BalancesLaws Assets AssetsLaws Runtime Samples.
From S2P Require Import TrustlessAgent TrustlessAgentSpec TrustlessAgentInv TrustlessAgentReputation.
From S2P Require Import TrustlessAgentFunds TrustlessAgentTheorems.
Import TrustlessAgentErrors.

(** ** Runs *)

Abbreviation AgentEnv := (CEnv (World unit)).

Definition agent_world : World unit :=
  mkChain {[ alice := funded (3000 * DOLLARS); bob := funded (1000 * DOLLARS);
             carol := funded (2000 * DOLLARS) ]}
    (6000 * DOLLARS) (mkAssetsState ∅ ∅ (mkOthers 100 ∅ tt)).

Definition agent_start : AgentEnv := mkEnv agent_genesis agent_world [].

Definition agent_after (o : Origin) (c : Call) (e : AgentEnv) : AgentEnv :=
  committed (agent_dispatch o c) e.
Definition agent_succeeds (o : Origin) (c : Call) (e : AgentEnv) : bool :=
  is_ok (agent_dispatch o c e).
Definition agent_at (n : BlockNumber) (e : AgentEnv) : AgentEnv :=
  mkEnv (store e) (set_block_number n (world e)) (events e).

Lemma agent_after_ok o c e :
  agent_succeeds o c e = true → agent_dispatch o c e = Ok (tt, agent_after o c e).
Proof.
  unfold agent_succeeds, agent_after, committed. by destruct (agent_dispatch o c e) as [[[] e']|].
Qed.

(** A run: the calls, each at its block. *)
Definition Script := list (BlockNumber * Origin * Call).

Definition play1 (e : AgentEnv) (p : BlockNumber * Origin * Call) : AgentEnv :=
  agent_after p.1.2 p.2 (agent_at p.1.1 e).
Definition play (l : Script) (e : AgentEnv) : AgentEnv := foldl play1 e l.

(** Every call of the run succeeds. *)
Fixpoint plays (l : Script) (e : AgentEnv) : bool :=
  match l with
  | [] => true
  | p :: l => agent_succeeds p.1.2 p.2 (agent_at p.1.1 e) && plays l (play1 e p)
  end.

Lemma play_reachable l e :
  agent_reachable (W:=World unit) (store e) → Forall (λ p, agent_call_typed p.2) l → plays l e = true →
  agent_reachable (W:=World unit) (store (play l e)).
Proof.
  revert e. induction l as [|p l IH]; intros e He Ht Hp; simpl in *; [done|].
  apply andb_true_iff in Hp as [Hs Hp]. apply Forall_cons in Ht as [Ht Htl]. apply IH; [|done..].
  eapply (reachable_call p.1.2 p.2 (agent_at p.1.1 e)); [exact He|done|by apply agent_after_ok].
Qed.

Lemma genesis_reachable : agent_reachable (W:=World unit) agent_genesis.
Proof. exists agent_world, agent_world. apply rtc_refl. Qed.

(** ** Checks that evaluate *)

(** No account has more than half of what a balance can hold. *)
Definition issuance_check (w : World unit) : bool :=
  forallb (λ p, 2 * (p.2.(data).(free) + p.2.(data).(reserved)) <=? U128_MAX) (map_to_list w.(Account)).

Lemma issuance_check_ok w : plain_ledger w = true → issuance_check w = true → issuance_fits w.
Proof.
  intros Hp Hi.
  assert (∀ y, 0 ≤ free_balance y w ∧ 0 ≤ reserved_balance y w ∧
    2 * (free_balance y w + reserved_balance y w) ≤ U128_MAX) as Hb.
  { intros y. unfold plain_ledger in Hp. bool_facts.
    change (free_balance y w) with (free (data (get_info y w))).
    change (reserved_balance y w) with (reserved (data (get_info y w))).
    unfold get_info. destruct (w.(Account) !! y) as [i|] eqn:Hy; simpl; [|by vm_compute].
    match goal with H : forallb (λ p, plain_info p.2) _ = true |- _ =>
      pose proof (forallb_map _ _ _ _ H Hy) as Hpi end.
    pose proof (forallb_map (λ i, 2 * (i.(data).(free) + i.(data).(reserved)) <=? U128_MAX) _ _ _ Hi Hy) as H2.
    cbv beta in H2.
    unfold plain_info in Hpi. bool_facts. pose proof ed_pos.
    assert (ExistentialDeposit = EXISTENTIAL_DEPOSIT) by reflexivity. lia. }
  intros y z _. destruct (Hb y), (Hb z). lia.
Qed.

#[global] Instance ValidationResponse_eq_dec : EqDecision ValidationResponse.
Proof. solve_decision. Defined.

(** Nothing completed is answered again, and no agent changes hands. *)
Definition fair_check (s s' : State) : bool :=
  (bool_decide (s'.(ValidationResponses) = s.(ValidationResponses)) ||
   forallb (λ p, negb p.2.(completed)) (map_to_list s.(ValidationRequests))) &&
  bool_decide (map_Forall (λ id a, owner <$> s'.(Agents) !! id = Some a.(owner)) s.(Agents)).

Lemma fair_check_ok x s (w : World unit) s' w' : fair_check s s' = true → fair x s w s' w'.
Proof.
  unfold fair_check. intros [Hr Ha]%andb_true_iff. apply bool_decide_eq_true in Ha. split.
  - intros id req v Hreq _ Hc. apply orb_true_iff in Hr as [Hr|Hr]; [bool_facts; by rewrite Hr|].
    pose proof (forallb_map (λ r, negb r.(completed)) _ _ _ Hr Hreq) as Hn. simpl in Hn. by rewrite Hc in Hn.
  - intros id a a' Hid Hne Hid' Ho. specialize (Ha id a Hid). simpl in Ha.
    rewrite Hid' in Ha. by simplify_eq/=.
Qed.

(** A run every step of which is fair, on ledgers without oddities. *)
Fixpoint plays_fair (l : Script) (e : AgentEnv) : bool :=
  match l with
  | [] => true
  | p :: l =>
      agent_succeeds p.1.2 p.2 (agent_at p.1.1 e) && fair_check (store e) (store (play1 e p)) &&
      plain_ledger (world e) && issuance_check (world e) && plays_fair l (play1 e p)
  end.

Lemma play_held x l e :
  held_history x (store e) (world e) → Forall (λ p, agent_call_typed p.2) l → plays_fair l e = true →
  held_history x (store (play l e)) (world (play l e)).
Proof.
  revert e. induction l as [|p l IH]; intros e He Ht Hp; simpl in *; [done|].
  apply andb_true_iff in Hp as [Hp Hl]. apply andb_true_iff in Hp as [Hp Hi].
  apply andb_true_iff in Hp as [Hp Hpl]. apply andb_true_iff in Hp as [Hs Hf].
  apply Forall_cons in Ht as [Ht Htl]. apply IH; [|done..].
  eapply (held_call x p.1.2 p.2 (agent_at p.1.1 e)); [| |done|by apply agent_after_ok|by apply fair_check_ok].
  - eapply held_rest; [exact He|apply plain_ledger_wf; [lia|exact Hpl]|done].
  - by apply (issuance_check_ok (world e)).
Qed.

Lemma start_held x : held_history x (store agent_start) (world agent_start).
Proof.
  pose proof (plain_ledger_wf 0 agent_world ltac:(lia) ltac:(by vm_compute)) as Hw.
  apply held_start; [exact Hw|]. exact (dw_reserved _ (account_wf _ _ _ x _ (lw_chain _ _ Hw))).
Qed.

(** ** The run *)

Definition hash : Z := 7.

(** Alice's agent; bob may rate it three times, and does so twice; carol
    validates it for bob; bob hires it. *)
Definition script : Script :=
  [ (100, Signed alice, Register_agent [1; 2; 3] [([1], [2])]);
    (101, Signed alice, Authorize_feedback 0 bob 3 (100 * DAYS));
    (102, Signed bob, Give_feedback 0 80 [[1]] [4] hash);
    (103, Root, Add_validator_to_whitelist carol);
    (104, Signed carol, Register_validator (1000 * DOLLARS));
    (105, Signed bob, Request_validation 0 (50 * DOLLARS));
    (106, Signed carol, Submit_validation 0 90 [5] hash []);
    (102 + 7 * DAYS, Signed bob, Give_feedback 0 61 [] [4] hash);
    (102 + 8 * DAYS, Signed bob, Create_escrow 0 (30 * DOLLARS) (102 + 30 * DAYS) None) ].

Definition ran : AgentEnv := play script agent_start.

Lemma script_typed : Forall (λ p, agent_call_typed p.2) script.
Proof. repeat constructor; by vm_compute. Qed.

Lemma ran_reachable : agent_reachable (W:=World unit) (store ran).
Proof. apply play_reachable; [apply genesis_reachable|apply script_typed|by vm_compute]. Qed.

(** ** The properties at this run *)

Lemma registries_agree_witness : indexes_wf (store ran).
Proof. apply (registries_agree (W:=World unit)), ran_reachable. Defined.

Lemma feedback_rationed_witness :
  length (get_feedbacks_by_client (store ran) 0 bob) = 2%nat ∧ feedback_index (store ran) 0 bob = 2.
Proof.
  assert (length (get_feedbacks_by_client (store ran) 0 bob) = 2%nat) as Hn by by vm_compute.
  split; [exact Hn|].
  destruct (feedback_rationed (W:=World unit) (store ran) 0 bob) as (Hi & _);
    [by vm_compute|apply ran_reachable|].
  rewrite Hi, Hn. reflexivity.
Defined.

(** Both ratings weigh the same after eight days: 70.5 of 100, and 90 from the
    validation. *)
Lemma reputation_exact_witness :
  overall_score (expected_reputation (102 + 8 * DAYS) (store ran) 0) =
  overall_score (calculate_reputation (102 + 8 * DAYS) (store ran) 0) ∧
  overall_score (calculate_reputation (102 + 8 * DAYS) (store ran) 0) = 7830.
Proof.
  destruct (reputation_exact (W:=World unit) (102 + 8 * DAYS) (store ran) 0) as (He & _);
    [apply ran_reachable|by vm_compute|].
  split; [by rewrite <- He|by vm_compute].
Defined.

Definition rated : ReputationScore := Eval vm_compute in
  calculate_reputation (102 + 7 * DAYS) (store ran) 0.

Lemma reputation_stored_witness :
  rated = calculate_reputation rated.(last_updated) (store ran) 0.
Proof.
  apply (reputation_stored (W:=World unit)); [apply ran_reachable|by vm_compute].
Defined.

(** Bob is held for two ratings, the request and the escrow. *)
Lemma reserves_cover_witness :
  due (store ran) bob = 55 * DOLLARS ∧ due (store ran) bob ≤ reserved_balance bob (world ran).
Proof.
  split; [by vm_compute|]. apply (reserves_cover bob).
  apply play_held; [apply start_held|apply script_typed|by vm_compute].
Defined.

(** Bob disputes the escrow, before it completes by itself. *)
Definition disputing : Call := Dispute_escrow 0.
Definition disputed : AgentEnv := agent_after (Signed bob) disputing ran.
Definition hired : EscrowInfo :=
  mkEscrowInfo bob 0 (30 * DOLLARS) (102 + 15 * DAYS) (102 + 30 * DAYS) EscrowActive (102 + 8 * DAYS).

Lemma escrow_lifecycle_witness :
  status <$> (store disputed).(Escrows) !! 0 = Some Disputed ∧
  escrow_may_become (Signed bob) hired Disputed.
Proof.
  assert ((store disputed).(Escrows) !! 0 = Some (set_status Disputed hired)) as He by by vm_compute.
  split; [by rewrite He|].
  pose proof (escrow_lifecycle (Signed bob) disputing ran disputed 0 hired ran_reachable I
    (agent_after_ok (Signed bob) disputing ran ltac:(by vm_compute)) ltac:(by vm_compute)) as Hl.
  rewrite He in Hl. by destruct Hl.
Defined.
