(* ===== verification/LeafchainWitnesses.v ===== *)
(** * The leafchain: the properties at a concrete run

    An asset of alice, bob's participation in it, a campaign bob runs under that
    license and an agent of alice, on one chain; each property of
    LeafchainTheorems.v at a state of this run, and two runs that show the limits
    of the properties: a sunset that no guard stops, and a request for validation
    that is paid out of a registration deposit. *)

From S2P Require Import Prelude Arith Errors Frame Balances BalancesLaws Assets AssetsLaws.
From S2P Require Import Ledger Runtime Leafchain LeafchainTheorems Migrations Samples.
From S2P Require Crowdfunding CrowdfundingFunds CrowdfundingCorrect.
From S2P Require Rwa RwaReach RwaMachine RwaFunds RwaCustody.
From S2P Require TrustlessAgent TrustlessAgentSpec TrustlessAgentFunds TrustlessAgentWitnesses.
Import Crowdfunding(Funding, Paused, MilestonePhase).

(** ** The run *)

Definition rwa_account : AccountId := Eval vm_compute in Rwa.pallet_account.

Definition sample_ledger : World unit :=
  mkChain {[ alice := funded (1000 * DOLLARS); bob := funded (1000 * DOLLARS);
             carol := funded (1000 * DOLLARS); rwa_account := funded EXISTENTIAL_DEPOSIT ]}
    (3001 * DOLLARS) (mkAssetsState ∅ ∅ (mkOthers 100 ∅ tt)).

Definition start : Leafchain := chain_start sample_ledger.

(** The run is fair to everyone. *)
Definition everyone (x : AccountId) : Prop := True.

Definition or_else {E A} (r : result E A) (x : A) : A := match r with Ok y => y | Err _ => x end.

Definition succeeds (o : Origin) (call : RuntimeCall) (c : Leafchain) : bool :=
  is_ok (runtime_dispatch o call c).
Definition after (o : Origin) (call : RuntimeCall) (c : Leafchain) : Leafchain :=
  or_else (runtime_dispatch o call c) c.

Lemma chain_after_ok o call c :
  succeeds o call c = true → runtime_dispatch o call c = Ok (after o call c).
Proof. unfold succeeds, after. by destruct (runtime_dispatch o call c). Qed.

Lemma small_outsider x : 0 ≤ x < 65536 → outsider x.
Proof.
  intros Hx. split.
  - apply small_not_derived; [done|]. repeat constructor; by vm_compute.
  - intros id Hid. apply small_not_derived; [done|]. apply Forall_app_2; [|apply u32_le_bytes_fits].
    repeat constructor; by vm_compute.
Qed.

Lemma signed_outside who : 0 ≤ who < 65536 → outside_origin (Signed who).
Proof. intros Hw x [= <-]. by apply small_outsider. Qed.

Lemma plain_room (c : Leafchain) : plain_ledger c.(ledger) = true → world_wf call_room c.(ledger).
Proof. intros Hp. apply plain_ledger_wf; [|done]. apply Nat.leb_le. by vm_compute. Qed.

Lemma call_chain o call c :
  chain_reachable everyone c → plain_ledger c.(ledger) = true → admissible o call c →
  succeeds o call c = true → fair_call everyone call c (after o call c) →
  chain_reachable everyone (after o call c).
Proof.
  intros Hc Hp Ha Hs Hf. eapply chain_reach; [exact Hc|].
  eapply chain_call; [exact Ha|by apply plain_room|by apply chain_after_ok|exact Hf].
Qed.

Lemma start_chain : chain_reachable everyone start.
Proof.
  apply chain_genesis.
  - apply plain_ledger_wf; [lia|by vm_compute].
  - intros who. pose proof (plain_ledger_wf 0 sample_ledger ltac:(lia) ltac:(by vm_compute)) as Hw.
    exact (dw_reserved _ (account_wf _ _ _ who _ (lw_chain _ _ Hw))).
Qed.

(** An asset with terms of thirty days, and bob in it. *)
Definition terms : Rwa.AssetPolicy :=
  Rwa.mkAssetPolicy Rwa.Native (2 * DOLLARS) (10 * DOLLARS) (Some (30 * DAYS)) None false.
Definition registering : RuntimeCall := RwaCall (Rwa.Register_asset carol terms [1; 2; 3]).
Definition entering : RuntimeCall := RwaCall (Rwa.Request_participation 0 [bob]).
Definition registered : Leafchain := after (Signed alice) registering start.
Definition licensed : Leafchain := after (Signed bob) entering registered.

(** A campaign of bob under this license, and carol's investment in it. *)
Definition plan : CF.CampaignConfig :=
  CF.mkCampaignConfig (CF.AllOrNothing (100 * DOLLARS)) CF.Native (100 + 2 * DAYS)
    (Some (500 * DOLLARS)) (Some DOLLARS) (Some (400 * DOLLARS)) 0 (Some 250).
Definition creating : RuntimeCall := CrowdfundingCall (CF.Create_campaign plan None (Some (0, 0))).
Definition investing : RuntimeCall := CrowdfundingCall (CF.Invest 0 (200 * DOLLARS)).
Definition running : Leafchain := after (Signed bob) creating licensed.
Definition invested : Leafchain := after (Signed carol) investing running.

(** Bob leaves the asset. *)
Definition leaving : RuntimeCall := RwaCall (Rwa.Exit_participation 0 0).
Definition unlicensed : Leafchain := after (Signed bob) leaving invested.

Ltac stored := vm_compute; reflexivity.

(** The conditions on the calls of the run, for any chain. *)
Lemma rwa_admissible who call c :
  0 ≤ who < 65536 → RwaReach.typed_call call →
  match call with
  | Rwa.Register_asset _ pol _ | Rwa.Update_asset_policy _ pol => RwaCustody.policy_fits pol
  | Rwa.Slash_participation _ _ _ _ => False
  | _ => True
  end → admissible (Signed who) (RwaCall call) c.
Proof.
  intros Hw Ht Hc. split; [by apply signed_outside|]. split.
  - split; [intros x [= <-]; exact (proj1 (small_outsider _ Hw))|]. split; [done|]. by destruct call.
  - intros id pid amount l. by destruct call.
Qed.

Lemma crowdfunding_admissible who call c :
  0 ≤ who < 65536 → CrowdfundingCorrect.typed_call call →
  CrowdfundingCorrect.counters_fit (Signed who) call c.(crowdfunding) →
  admissible (Signed who) (CrowdfundingCall call) c.
Proof. intros Hw Ht Hc. split; [by apply signed_outside|done]. Qed.

Lemma chain_terms_fit : RwaCustody.policy_fits terms.
Proof. repeat split; by vm_compute. Qed.

Lemma registered_chain : chain_reachable everyone registered.
Proof.
  apply call_chain; [apply start_chain|stored| |stored|exact I]. apply rwa_admissible; [done|done|apply chain_terms_fit].
Qed.

Lemma licensed_chain : chain_reachable everyone licensed.
Proof.
  apply call_chain; [apply registered_chain|stored| |stored|exact I]. by apply rwa_admissible.
Qed.

Lemma chain_plan_typed : CrowdfundingInv.wf_config plan.
Proof.
  split; [done|intros ? [= <-]; split; by vm_compute|intros ? [= <-]; split; by vm_compute|split; by vm_compute].
Qed.

Lemma running_chain : chain_reachable everyone running.
Proof.
  apply call_chain; [apply licensed_chain|stored| |stored|exact I].
  apply crowdfunding_admissible; [done|apply chain_plan_typed|exact I].
Qed.

Lemma invested_chain : chain_reachable everyone invested.
Proof.
  apply call_chain; [apply running_chain|stored| |stored|exact I].
  apply crowdfunding_admissible; [done|split; by vm_compute|].
  intros c Hc. assert ({c0 | running.(crowdfunding).(CF.Campaigns) !! 0 = Some c0 ∧
    c0.(CF.total_raised) = 0 ∧ c0.(CF.investor_count) = 0}) as (c0 & Hc0 & Hr & Hi)
    by (eexists; split; [stored|split; stored]).
  rewrite Hc0 in Hc. injection Hc as <-.
  unfold CrowdfundingInv.no_saturation. rewrite Hr, Hi. split_and!; by vm_compute.
Qed.

(** Alice registers an agent. *)
Definition staffing : RuntimeCall := AgentCall (TA.Register_agent [1; 2] []).
Definition staffed : Leafchain := after (Signed alice) staffing invested.

Lemma staffed_chain : chain_reachable everyone staffed.
Proof.
  apply call_chain; [apply invested_chain|stored| |stored|].
  - split; [by apply signed_outside|]. split; [exact I|].
    apply TrustlessAgentWitnesses.issuance_check_ok; stored.
  - intros x _. apply TrustlessAgentWitnesses.fair_check_ok. stored.
Qed.

(** ** The properties at these states *)


Lemma pallets_do_not_interfere_witness : unlicensed.(crowdfunding) = invested.(crowdfunding).
Proof.
  assert (admissible (Signed bob) leaving invested) as Ha by by apply rwa_admissible.
  assert (runtime_dispatch (Signed bob) leaving invested = Ok unlicensed) as Hrun
    by (apply chain_after_ok; stored).
  destruct (pallets_do_not_interfere everyone (Signed bob) leaving invested unlicensed invested_chain Ha
    (plain_room invested ltac:(stored)) Hrun) as [[Hc _] _]. exact Hc.
Defined.

Lemma running_campaign_guards_witness :
  runtime_dispatch Root (RwaCall (Rwa.Force_retire_asset 0)) invested ≠ Ok start.
Proof.
  assert ({c | invested.(crowdfunding).(CF.Campaigns) !! 0 = Some c ∧
    c.(CF.rwa_asset_id) = Some 0 ∧ c.(CF.status) = Funding}) as (c & Hc & Ha & Hst)
    by (eexists; split; [stored|split; stored]).
  destruct (running_campaign_guards invested 0 0 c Root start Hc Ha) as [Hn _]; [|exact Hn].
  rewrite Hst. by left.
Defined.

Lemma licensed_creation_witness :
  verifier_is_license_active 0 0 (world (crowdfunding_view licensed)) = true.
Proof.
  destruct (licensed_creation bob plan None 0 0 licensed running) as [Hl _]; [|exact Hl].
  apply chain_after_ok. stored.
Defined.

Lemma lapsed_license_reportable_witness :
  ∃ c', runtime_dispatch (Signed carol) (CrowdfundingCall (CF.Report_license_revoked 0)) unlicensed = Ok c'.
Proof.
  assert ({c | unlicensed.(crowdfunding).(CF.Campaigns) !! 0 = Some c ∧
    c.(CF.rwa_asset_id) = Some 0 ∧ c.(CF.participation_id) = Some 0 ∧ c.(CF.status) = Funding})
    as (c & Hc & Ha & Hp & Hst) by (eexists; split; [stored|do 2 (split; [stored|]); stored]).
  destruct (lapsed_license_reportable unlicensed 0 c 0 0 carol Hc Ha Hp) as (c' & Hrun & _).
  - rewrite Hst. by left.
  - stored.
  - by exists c'.
Defined.

(** The upgrade of a chain whose crowdfunding version was never set. *)
Definition upgrading : Upgradable := mkUpgradable 0 5 1 staffed.

Lemma upgrade_keeps_storage_witness :
  crowdfunding_version (on_runtime_upgrade upgrading) = 3 ∧
  chain (on_runtime_upgrade upgrading) = staffed.
Proof.
  split; [stored|].
  destruct (upgrade_keeps_storage everyone upgrading staffed_chain) as (Hc & _);
    [by vm_compute|by vm_compute|exact Hc].
Defined.

(** ** A limit of the guard *)

(** The owner's sunset is not guarded: the hook retires the asset while the
    campaign that is linked to it is still funding. *)
Definition sunset : Leafchain := after (Signed alice) (RwaCall (Rwa.Sunset_asset 0 600)) invested.
Definition retired : Leafchain := or_else (initialize_block 600 sunset) sunset.

Lemma sunset_is_not_guarded :
  ∃ a campaign, retired.(rwa).(Rwa.RwaAssets) !! 0 = Some a ∧ a.(Rwa.status) = Rwa.Retired ∧
    retired.(crowdfunding).(CF.Campaigns) !! 0 = Some campaign ∧
    campaign.(CF.rwa_asset_id) = Some 0 ∧ campaign.(CF.status) = Funding.
Proof. do 2 eexists. do 4 (split; [stored|]). stored. Qed.

(** ** A limit of the reserves *)

(** Bob owns an asset and asks for a validation of alice's agent; carol and
    alice both answer, and both are paid. *)
Definition rich_ledger : World unit :=
  mkChain {[ alice := funded (3000 * DOLLARS); bob := funded (1000 * DOLLARS);
             carol := funded (3000 * DOLLARS); rwa_account := funded EXISTENTIAL_DEPOSIT ]}
    (7001 * DOLLARS) (mkAssetsState ∅ ∅ (mkOthers 100 ∅ tt)).

Definition twice : list (Origin * RuntimeCall) :=
  [ (Signed bob, RwaCall (Rwa.Register_asset bob terms [1]));
    (Signed alice, AgentCall (TA.Register_agent [1] []));
    (Root, AgentCall (TA.Add_validator_to_whitelist carol));
    (Root, AgentCall (TA.Add_validator_to_whitelist alice));
    (Signed carol, AgentCall (TA.Register_validator (1000 * DOLLARS)));
    (Signed alice, AgentCall (TA.Register_validator (1000 * DOLLARS)));
    (Signed bob, AgentCall (TA.Request_validation 0 (50 * DOLLARS)));
    (Signed carol, AgentCall (TA.Submit_validation 0 90 [5] 7 []));
    (Signed alice, AgentCall (TA.Submit_validation 0 90 [5] 7 [])) ].

Definition play (l : list (Origin * RuntimeCall)) (c : Leafchain) : Leafchain :=
  foldl (λ c p, after p.1 p.2 c) c l.
Definition paid_twice : Leafchain := play twice (chain_start rich_ledger).

(** Fair to nobody in particular. *)
Definition nobody (x : AccountId) : Prop := False.

Fixpoint plays (l : list (Origin * RuntimeCall)) (c : Leafchain) : Prop :=
  match l with
  | [] => True
  | p :: l =>
      plain_ledger c.(ledger) = true ∧ admissible p.1 p.2 c ∧ succeeds p.1 p.2 c = true ∧
      plays l (after p.1 p.2 c)
  end.

Lemma play_chain l c : chain_reachable nobody c → plays l c → chain_reachable nobody (play l c).
Proof.
  revert c. induction l as [|p l IH]; intros c Hc Hl; [done|]. destruct Hl as (Hp & Ha & Hs & Hl).
  apply IH; [|exact Hl]. eapply chain_reach; [exact Hc|].
  eapply chain_call; [exact Ha|by apply plain_room|by apply chain_after_ok|].
  destruct p as [o []]; simpl; [exact I|exact I|by intros x []].
Qed.

Lemma agent_admissible o call c :
  (o = Root ∨ ∃ who, o = Signed who ∧ 0 ≤ who < 65536) → TrustlessAgentSpec.agent_call_typed call →
  plain_ledger c.(ledger) = true → TrustlessAgentWitnesses.issuance_check c.(ledger) = true →
  admissible o (AgentCall call) c.
Proof.
  intros Ho Ht Hp Hi. split; [|split; [done|by apply TrustlessAgentWitnesses.issuance_check_ok]].
  destruct Ho as [->|(who & -> & Hw)]; [by intros x|by apply signed_outside].
Qed.

Lemma plays_agent o call l c :
  plain_ledger c.(ledger) = true → TrustlessAgentWitnesses.issuance_check c.(ledger) = true →
  succeeds o (AgentCall call) c = true → TrustlessAgentSpec.agent_call_typed call →
  (o = Root ∨ ∃ who, o = Signed who ∧ 0 ≤ who < 65536) →
  plays l (after o (AgentCall call) c) → plays ((o, AgentCall call) :: l) c.
Proof. intros Hp Hi Hs Ht Ho Hl. split_and!; [done|by apply agent_admissible|done|done]. Qed.

Lemma twice_plays : plays twice (chain_start rich_ledger).
Proof.
  split; [stored|]. split; [apply rwa_admissible; [done|done|apply chain_terms_fit]|]. split; [stored|].
  do 8 (apply plays_agent; [stored|stored|stored|by vm_compute|by (left + (right; eexists))|]).
  exact I.
Qed.

(** A completed request pays again, from whatever is reserved: in a state the
    chain reaches, bob's registered asset is pledged with its whole registration
    deposit, and most of that deposit is gone, because pallet-trustless-agent
    paid the reward of one request to two validators. *)
Theorem registration_taken :
  chain_reachable nobody paid_twice ∧
  RwaCustody.pledged bob (RwaMachine.abs paid_twice.(rwa)) = 100 * DOLLARS ∧
  TrustlessAgentFunds.due paid_twice.(agents) bob = 5 * DOLLARS ∧
  reserved_balance bob paid_twice.(ledger) = 55 * DOLLARS.
Proof.
  split; [|split; [stored|split; stored]]. apply play_chain; [|apply twice_plays].
  assert (plain_ledger rich_ledger = true) as Hp by stored.
  pose proof (plain_ledger_wf 0 rich_ledger ltac:(lia) Hp) as Hw. apply chain_genesis; [exact Hw|].
  intros who. exact (dw_reserved _ (account_wf _ _ _ who _ (lw_chain _ _ Hw))).
Qed.
