(* ===== verification/Grandpa.v ===== *)
(** * pallet-grandpa

    The finality gadget's pallet, substrate/frame/grandpa/src/lib.rs: the
    authority set, its scheduled changes and pauses, the set id and the session
    each set id belongs to, and the part of
    substrate/frame/grandpa/src/equivocation.rs that reads them.  The votes of
    the gadget itself happen outside the runtime; the runtime talks to it
    through the logs in the digest of a block. *)

From S2P Require Import Prelude Arith Errors Frame.
Import GrandpaErrors.

Definition err (e : GrandpaError) : DispatchError := Module_ (InGrandpa e).

(** [AuthorityList]: keys and weights. *)
Abbreviation AuthorityList := (list (Z * Z)) (only parsing).

(** [u64] and [u32] *)
Abbreviation SetId := Z (only parsing).
Abbreviation SessionIndex := Z (only parsing).

Record StoredPendingChange := mkStoredPendingChange {
  scheduled_at : BlockNumber;
  delay : BlockNumber;
  next_authorities : AuthorityList;
  forced : option BlockNumber;
}.

Inductive StoredState :=
| Live
| PendingPause (scheduled_at delay : BlockNumber)
| Paused
| PendingResume (scheduled_at delay : BlockNumber).

(** [sp_consensus_grandpa::ConsensusLog] *)
Inductive ConsensusLog :=
| ScheduledChange (delay : BlockNumber) (next_authorities : AuthorityList)
| ForcedChange (median : BlockNumber) (delay : BlockNumber) (next_authorities : AuthorityList)
| OnDisabled (i : Z)
| Pause (delay : BlockNumber)
| Resume (delay : BlockNumber).

Inductive Event :=
| NewAuthorities (authority_set : AuthorityList)
| PausedEvent
| ResumedEvent.

Record State := mkState {
  AuthorityState : StoredState;
  PendingChange : option StoredPendingChange;
  NextForced : option BlockNumber;
  Stalled : option (BlockNumber * BlockNumber);
  CurrentSetId : SetId;
  SetIdSession : gmap SetId SessionIndex;
  Authorities : AuthorityList;
}.

Definition put_AuthorityState x s :=
  mkState x s.(PendingChange) s.(NextForced) s.(Stalled) s.(CurrentSetId) s.(SetIdSession) s.(Authorities).
Definition put_PendingChange x s :=
  mkState s.(AuthorityState) x s.(NextForced) s.(Stalled) s.(CurrentSetId) s.(SetIdSession) s.(Authorities).
Definition put_NextForced x s :=
  mkState s.(AuthorityState) s.(PendingChange) x s.(Stalled) s.(CurrentSetId) s.(SetIdSession) s.(Authorities).
Definition put_Stalled x s :=
  mkState s.(AuthorityState) s.(PendingChange) s.(NextForced) x s.(CurrentSetId) s.(SetIdSession) s.(Authorities).
Definition put_CurrentSetId x s :=
  mkState s.(AuthorityState) s.(PendingChange) s.(NextForced) s.(Stalled) x s.(SetIdSession) s.(Authorities).
Definition put_SetIdSession x s :=
  mkState s.(AuthorityState) s.(PendingChange) s.(NextForced) s.(Stalled) s.(CurrentSetId) x s.(Authorities).
Definition put_Authorities x s :=
  mkState s.(AuthorityState) s.(PendingChange) s.(NextForced) s.(Stalled) s.(CurrentSetId) s.(SetIdSession) x.

(** The surroundings: frame_system's block number and digest, pallet-session's
    index of the current session. *)
Record Block := mkBlock {
  number : BlockNumber;
  digest : list ConsensusLog;
  current_index : SessionIndex;
}.

#[global] Instance block_system : System Block := {| block_number := number |}.

Class Config := {
  MaxSetIdSessionEntries : Z;
}.

Definition GEnv : Type := Env State Block Event.
Abbreviation G := (M DispatchError GEnv).

(** [a + b] and [a * b] of two [u32] in a release build, where they wrap. *)
Definition add32 (a b : Z) : Z := wrap U32_MAX (a + b).
Definition mul32 (a b : Z) : Z := wrap U32_MAX (a * b).

Definition deposit_log (log : ConsensusLog) : G unit :=
  calls (λ b, Ok (tt, mkBlock b.(number) (b.(digest) ++ [log]) b.(current_index))).

Definition grandpa_authorities (s : State) : AuthorityList := s.(Authorities).

Definition schedule_pause (in_blocks : BlockNumber) : G unit :=
  st ← reads AuthorityState;
  match st with
  | Live =>
      scheduled_at ← asks block_number;
      writes (put_AuthorityState (PendingPause scheduled_at in_blocks))
  | _ => fail (err PauseFailed)
  end.

Definition schedule_resume (in_blocks : BlockNumber) : G unit :=
  st ← reads AuthorityState;
  match st with
  | Paused =>
      scheduled_at ← asks block_number;
      writes (put_AuthorityState (PendingResume scheduled_at in_blocks))
  | _ => fail (err ResumeFailed)
  end.

Definition schedule_change (next_authorities : AuthorityList) (in_blocks : BlockNumber)
    (forced : option BlockNumber) : G unit :=
  pending ← reads PendingChange;
  match pending with
  | None =>
      scheduled_at ← asks block_number;
      match forced with
      | Some _ =>
          next ← reads NextForced;
          ensure_some next (λ next, next <=? scheduled_at) (err TooSoon) ;;
          writes (put_NextForced (Some (add32 scheduled_at (mul32 in_blocks 2))))
      | None => mret tt
      end ;;
      writes (put_PendingChange
        (Some (mkStoredPendingChange scheduled_at in_blocks next_authorities forced)))
  | Some _ => fail (err ChangePending)
  end.

Definition on_stalled (further_wait median : BlockNumber) : G unit :=
  writes (put_Stalled (Some (further_wait, median))).

Definition note_stalled (origin : Origin) (delay best_finalized_block_number : BlockNumber) : G unit :=
  ensure_origin EnsureRoot origin ;;
  on_stalled delay best_finalized_block_number.

(** The first half of [on_finalize]: the pending change of the authorities. *)
Definition finalize_change (n : BlockNumber) : G unit :=
  pending ← reads PendingChange;
  match pending with
  | Some c =>
      when (n =? c.(scheduled_at))
        (deposit_log match c.(forced) with
                     | Some median => ForcedChange median c.(delay) c.(next_authorities)
                     | None => ScheduledChange c.(delay) c.(next_authorities)
                     end) ;;
      when (n =? add32 c.(scheduled_at) c.(delay))
        (writes (put_Authorities c.(next_authorities)) ;;
         deposit_event (NewAuthorities c.(next_authorities)) ;;
         writes (put_PendingChange None))
  | None => mret tt
  end.

(** The second half: the pending pause or resume. *)
Definition finalize_state (n : BlockNumber) : G unit :=
  st ← reads AuthorityState;
  match st with
  | PendingPause scheduled_at delay =>
      when (n =? scheduled_at) (deposit_log (Pause delay)) ;;
      when (n =? add32 scheduled_at delay)
        (writes (put_AuthorityState Paused) ;; deposit_event PausedEvent)
  | PendingResume scheduled_at delay =>
      when (n =? scheduled_at) (deposit_log (Resume delay)) ;;
      when (n =? add32 scheduled_at delay)
        (writes (put_AuthorityState Live) ;; deposit_event ResumedEvent)
  | _ => mret tt
  end.

Definition on_finalize (n : BlockNumber) : G unit := finalize_change n ;; finalize_state n.

(** ** Sessions *)

Section sessions.
Context {T : Config}.

(** [CurrentSetId::mutate(|s| { *s += 1; *s })] *)
Definition next_set_id : G SetId :=
  writes (λ s, put_CurrentSetId (wrap U64_MAX (s.(CurrentSetId) + 1)) s) ;;
  reads CurrentSetId.

(** The removal of the entry that is too old to be kept. *)
Definition prune_set_ids (current_set_id : SetId) : G unit :=
  let max_set_id_session_entries := Z.max MaxSetIdSessionEntries 1 in
  when (max_set_id_session_entries <=? current_set_id)
    (writes (λ s, put_SetIdSession
      (delete (current_set_id - max_set_id_session_entries) s.(SetIdSession)) s)).

(** [on_new_session(changed, validators, _)]; [validators] are the keys. *)
Definition on_new_session (changed : bool) (validators : list Z) : G unit :=
  stalled ← reads Stalled;
  current_set_id ←
    (if changed || bool_decide (is_Some stalled) then
       let next_authorities := (λ k, (k, 1)) <$> validators in
       writes (put_Stalled None) ;;
       res ← attempt match stalled with
             | Some (further_wait, median) => schedule_change next_authorities further_wait (Some median)
             | None => schedule_change next_authorities 0 None
             end;
       if is_ok res then
         current_set_id ← next_set_id;
         prune_set_ids current_set_id ;;
         mret current_set_id
       else reads CurrentSetId
     else reads CurrentSetId);
  session_index ← asks current_index;
  writes (λ s, put_SetIdSession (<[current_set_id := session_index]> s.(SetIdSession)) s).
End sessions.

(** ** Equivocations *)

Record EquivocationProof := mkEquivocationProof {
  set_id : SetId;
  round : Z;
  offender : Z;
}.

(** [KeyOwnerProof]: the session it is about, and the number of validators. *)
Record KeyOwnerProof := mkKeyOwnerProof {
  session : SessionIndex;
  validator_count : Z;
}.

(** What the report system is configured with: the signature check, the lookup
    of key owners in pallet-session, and the offences pallet, which accepts a
    report or knows it already. *)
Class EquivocationSystem := {
  check_equivocation_proof : EquivocationProof → bool;
  check_proof : Z → KeyOwnerProof → option AccountId;
  report_offence : EquivocationProof → KeyOwnerProof → AccountId → bool;
}.

Definition process_evidence `{EquivocationSystem} (proof : EquivocationProof) (key : KeyOwnerProof)
    : G unit :=
  ensure (check_equivocation_proof proof) (err InvalidEquivocationProof) ;;
  who ← ok_or (check_proof proof.(offender) key) (err InvalidKeyOwnershipProof);
  sessions ← reads SetIdSession;
  previous ← (if negb (proof.(set_id) =? 0)
              then idx ← ok_or (sessions !! (proof.(set_id) - 1)) (err InvalidEquivocationProof);
                   mret (Some idx)
              else mret None);
  current ← ok_or (sessions !! proof.(set_id)) (err InvalidEquivocationProof);
  ensure (negb ((current <? key.(session)) ||
                match previous with Some idx => key.(session) <=? idx | None => false end))
    (err InvalidEquivocationProof) ;;
  ensure (report_offence proof key who) (err DuplicateOffenceReport).

Definition report_equivocation `{EquivocationSystem} (origin : Origin) (proof : EquivocationProof)
    (key : KeyOwnerProof) : G unit :=
  ensure_signed origin ;; process_evidence proof key.

Definition report_equivocation_unsigned `{EquivocationSystem} (origin : Origin)
    (proof : EquivocationProof) (key : KeyOwnerProof) : G unit :=
  ensure_origin (λ o, bool_decide (o = NoOrigin)) origin ;; process_evidence proof key.

(** ** Genesis *)

(** [GenesisConfig::build] on an empty storage. *)
Definition genesis_build (authorities : AuthorityList) : State :=
  mkState Live None None None 0 {[ 0 := 0 ]} authorities.

(** ** The end of a block *)

(** Logs about pauses, as opposed to changes of the authorities. *)
Definition pause_log (l : ConsensusLog) : Prop :=
  match l with Pause _ | Resume _ => True | _ => False end.

(** What a pending pause or resume leaves alone. *)
Record extends (g g' : GEnv) : Prop := {
  ex_store : ∃ st, store g' = put_AuthorityState st (store g);
  ex_number : (world g').(number) = (world g).(number);
  ex_index : (world g').(current_index) = (world g).(current_index);
  ex_digest : ∃ logs, (world g').(digest) = (world g).(digest) ++ logs ∧ Forall pause_log logs;
  ex_events : ∃ evs, events g' = events g ++ evs;
}.

#[global] Instance extends_preorder : PreOrder extends.
Proof.
  split.
  - intros g. split; try done.
    + exists (store g).(AuthorityState). by destruct (store g).
    + exists []. by rewrite app_nil_r.
    + exists []. by rewrite app_nil_r.
  - intros g1 g2 g3 [[st1 H1] N1 I1 (l1 & D1 & F1) [v1 E1]] [[st2 H2] N2 I2 (l2 & D2 & F2) [v2 E2]].
    split; try congruence.
    + exists st2. by rewrite H2, H1.
    + exists (l1 ++ l2). split; [by rewrite D2, D1, app_assoc|by apply Forall_app].
    + exists (v1 ++ v2). by rewrite E2, E1, app_assoc.
Qed.

(** A computation that always succeeds and only extends. *)
Definition quietly (m : G unit) : Prop := ∀ g, ∃ g', m g = Ok (tt, g') ∧ extends g g'.

Lemma quietly_ret : quietly (mret tt).
Proof. intros g. by exists g. Qed.

Lemma quietly_seq m1 m2 : quietly m1 → quietly m2 → quietly (m1 ;; m2).
Proof.
  intros H1 H2 g. destruct (H1 g) as (g1 & R1 & E1). destruct (H2 g1) as (g2 & R2 & E2).
  exists g2. unfold mbind, M_bind. rewrite R1. split; [done|by transitivity g1].
Qed.

Lemma quietly_when b m : quietly m → quietly (when b m).
Proof. intros Hm. destruct b; [done|apply quietly_ret]. Qed.

Lemma quietly_log l : pause_log l → quietly (deposit_log l).
Proof.
  intros Hl g. eexists. split; [done|]. split; simpl; try done.
  - exists (store g).(AuthorityState). by destruct (store g).
  - exists [l]. by split; [|constructor].
  - exists []. by rewrite app_nil_r.
Qed.

Lemma quietly_state st : quietly (writes (put_AuthorityState st)).
Proof.
  intros g. eexists. split; [done|]. split; simpl; try done; [by exists st| |].
  - exists []. by rewrite app_nil_r.
  - exists []. by rewrite app_nil_r.
Qed.

Lemma quietly_event ev : quietly (deposit_event ev).
Proof.
  intros g. eexists. split; [done|]. split; simpl; try done; [| |by exists [ev]].
  - exists (store g).(AuthorityState). by destruct (store g).
  - exists []. by rewrite app_nil_r.
Qed.

Lemma quietly_reads {A} (f : State → A) k : (∀ x, quietly (k x)) → quietly (x ← reads f; k x).
Proof. intros Hk g. apply (Hk (f (store g)) g). Qed.

Create HintDb quiet.
#[export] Hint Resolve quietly_ret quietly_seq quietly_when quietly_log quietly_state quietly_event : quiet.

Lemma finalize_state_quiet n : quietly (finalize_state n).
Proof.
  apply quietly_reads. intros []; [apply quietly_ret| |apply quietly_ret|];
    apply quietly_seq; apply quietly_when; eauto with quiet; by apply quietly_log.
Qed.

(** *** The pending change *)

(** Before its block a change waits. *)
Lemma change_waits c n g :
  (store g).(PendingChange) = Some c → n ≠ c.(scheduled_at) → n ≠ add32 c.(scheduled_at) c.(delay) →
  ∃ g', on_finalize n g = Ok (tt, g') ∧ extends g g'.
Proof.
  intros Hc Hn Hd. destruct (finalize_state_quiet n g) as (g' & Hrun & Hex). exists g'. split; [|done].
  unfold on_finalize, finalize_change, mbind, M_bind, reads, gets. rewrite Hc.
  rewrite !(proj2 (Z.eqb_neq _ _)) by done. exact Hrun.
Qed.

(** The log a change is signalled with. *)
Definition change_log (c : StoredPendingChange) : ConsensusLog :=
  match c.(forced) with
  | Some median => ForcedChange median c.(delay) c.(next_authorities)
  | None => ScheduledChange c.(delay) c.(next_authorities)
  end.

(** In the block it was scheduled in, a change with a delay is signalled. *)
Lemma change_signalled c g :
  (store g).(PendingChange) = Some c → c.(scheduled_at) ≠ add32 c.(scheduled_at) c.(delay) →
  ∃ g', on_finalize c.(scheduled_at) g = Ok (tt, g') ∧
    (store g').(PendingChange) = Some c ∧ (store g').(Authorities) = (store g).(Authorities) ∧
    ∃ logs, (world g').(digest) = (world g).(digest) ++ change_log c :: logs ∧ Forall pause_log logs.
Proof.
  intros Hc Hd. set (g1 := mkEnv (store g) (mkBlock (world g).(number)
    ((world g).(digest) ++ [change_log c]) (world g).(current_index)) (events g)).
  destruct (finalize_state_quiet c.(scheduled_at) g1) as (g' & Hrun & [[st Hs] _ _ (l & Hl & Hf) _]).
  exists g'. split.
  - unfold on_finalize, finalize_change, mbind, M_bind, reads, gets. rewrite Hc.
    rewrite Z.eqb_refl, (proj2 (Z.eqb_neq _ _)) by done. exact Hrun.
  - rewrite Hs. split; [done|]. split; [done|]. exists l. split; [|done].
    rewrite Hl. simpl. by rewrite <- app_assoc.
Qed.

(** At its block it becomes the authority set. *)
Lemma change_enacted_at c n g :
  (store g).(PendingChange) = Some c → n = add32 c.(scheduled_at) c.(delay) →
  ∃ g', on_finalize n g = Ok (tt, g') ∧
    (store g').(PendingChange) = None ∧ (store g').(Authorities) = c.(next_authorities) ∧
    (store g').(CurrentSetId) = (store g).(CurrentSetId) ∧
    (store g').(SetIdSession) = (store g).(SetIdSession) ∧
    (store g').(Stalled) = (store g).(Stalled) ∧
    (world g').(current_index) = (world g).(current_index) ∧
    NewAuthorities c.(next_authorities) ∈ events g' ∧
    ∃ logs, (world g').(digest) =
        (world g).(digest) ++ (if n =? c.(scheduled_at) then [change_log c] else []) ++ logs ∧
      Forall pause_log logs.
Proof.
  intros Hc Hn.
  set (dig := (world g).(digest) ++ if n =? c.(scheduled_at) then [change_log c] else []).
  set (g1 := mkEnv (put_PendingChange None (put_Authorities c.(next_authorities) (store g)))
    (mkBlock (world g).(number) dig (world g).(current_index))
    (events g ++ [NewAuthorities c.(next_authorities)])).
  destruct (finalize_state_quiet n g1) as (g' & Hrun & [[st Hs] _ Hi (l & Hl & Hf) [evs He]]).
  exists g'. split.
  - unfold on_finalize, finalize_change, mbind, M_bind, reads, gets. rewrite Hc.
    rewrite <- Hn, Z.eqb_refl. rewrite <- Hrun. unfold g1, dig. destruct (n =? _); simpl; [done|].
    rewrite app_nil_r. by destruct g as [? [] ?].
  - rewrite Hs, Hi, Hl, He. split_and!; try done.
    + simpl. apply elem_of_app. left. apply elem_of_app. right. by left.
    + exists l. split; [|done]. simpl. unfold dig. by rewrite <- app_assoc.
Qed.

(** *** A new session *)

(** With no change pending, a changed session takes the next set id and records
    its session; the map of sessions gains nothing else. *)
Lemma session_changed `{Config} validators g g' :
  on_new_session true validators g = Ok (tt, g') →
  (store g).(PendingChange) = None → (store g).(Stalled) = None →
  (store g').(CurrentSetId) = wrap U64_MAX ((store g).(CurrentSetId) + 1) ∧
  ∀ id, id ≠ (store g').(CurrentSetId) →
    is_Some ((store g').(SetIdSession) !! id) → is_Some ((store g).(SetIdSession) !! id).
Proof.
  intros Hrun Hp Hs. destruct g as [[st pc nf sl cs ss au] b evs]. simpl in *. subst pc sl.
  unfold on_new_session, prune_set_ids, next_set_id, mbind, M_bind in Hrun. simpl in Hrun.
  destruct (_ <=? _); simpl in Hrun; injection Hrun as <-; simpl; (split; [done|]); intros id Hne.
  - rewrite lookup_insert_ne by done. intros [x Hx]. apply lookup_delete_Some in Hx as [_ Hx]. by exists x.
  - by rewrite lookup_insert_ne.
Qed.

(** A report about a set needs the sessions of the set and of the one before. *)
Lemma evidence_sessions `{EquivocationSystem} proof key g g' :
  process_evidence proof key g = Ok (tt, g') →
  is_Some ((store g).(SetIdSession) !! proof.(set_id)) ∧
  (proof.(set_id) ≠ 0 → is_Some ((store g).(SetIdSession) !! (proof.(set_id) - 1))).
Proof.
  unfold process_evidence. intros Hrun. einv.
  match goal with Hx : context [negb (set_id proof =? 0)] |- _ =>
    destruct (Z.eqb_spec (set_id proof) 0) as [Hz|Hz]; simpl in Hx end; einv; by eauto.
Qed.
