(* ===== verification/FinalityRescue.v ===== *)
(** * pallet-finality-rescue

    The emergency call of the root chain, thxnet/pallets/finality-rescue: it
    clears the stale state of pallet-grandpa and forces a change to the
    authorities the chain already has.  Its surroundings are pallet-grandpa of
    Grandpa.v, whose storage it writes through raw keys. *)

From S2P Require Import Prelude Arith Errors Frame Grandpa.
Import FinalityRescueErrors.

Definition rescue_err (e : FinalityRescueError) : DispatchError := Module_ (InFinalityRescue e).

Inductive RescueEvent :=
| FinalityRescueExecuted (block_number median : BlockNumber) (authority_count : Z)
    (old_set_id new_set_id : SetId).

Class RescueConfig := {
  RescueCooldown : BlockNumber;
}.

(** [LastRescueBlock] and pallet-grandpa. *)
Definition FEnv : Type := Env (option BlockNumber) GEnv RescueEvent.

(** [storage::unhashed::kill] and [put] at a key of pallet-grandpa. *)
Definition raw (f : State → State) : M DispatchError FEnv unit :=
  calls (λ g, Ok (tt, mkEnv (f (store g)) (world g) (events g))).

Section rescue.
Context `{RescueConfig}.

Definition rescue_finality (origin : Origin) (median : BlockNumber) : M DispatchError FEnv unit :=
  ensure_origin EnsureRoot origin ;;
  block_number ← asks (λ g, Frame.block_number (world g));
  last ← reads id;
  ensure_some last (λ last, add32 last RescueCooldown <=? block_number)
    (rescue_err CooldownNotElapsed) ;;
  raw (put_PendingChange None) ;;
  raw (put_NextForced None) ;;
  raw (put_Stalled None) ;;
  authorities ← asks (λ g, grandpa_authorities (store g));
  ensure (negb (bool_decide (authorities = []))) (rescue_err NoAuthorities) ;;
  let authority_count := wrap U32_MAX (Z.of_nat (length authorities)) in
  calls (λ g, map_err (λ _, rescue_err ScheduleChangeFailed)
    (schedule_change authorities 0 (Some median) g)) ;;
  old_set_id ← asks (λ g, (store g).(CurrentSetId));
  let new_set_id := wrap U64_MAX (old_set_id + 1) in
  raw (put_CurrentSetId new_set_id) ;;
  writes (λ _, Some block_number) ;;
  deposit_event (FinalityRescueExecuted block_number median authority_count old_set_id new_set_id).

(** ** What a rescue does *)

(** The whole outcome of a call: the storage of pallet-grandpa afterwards. *)
Definition rescued (median : BlockNumber) (n : BlockNumber) (s : State) : State :=
  mkState s.(AuthorityState)
    (Some (mkStoredPendingChange n 0 s.(Authorities) (Some median)))
    (Some (wrap U32_MAX n)) None (wrap U64_MAX (s.(CurrentSetId) + 1)) s.(SetIdSession) s.(Authorities).

Definition cooled_down (last : option BlockNumber) (n : BlockNumber) : bool :=
  match last with Some last => add32 last RescueCooldown <=? n | None => true end.

Lemma no_delay n : add32 n (mul32 0 2) = wrap U32_MAX n.
Proof. unfold add32, mul32. change (wrap U32_MAX (0 * 2)) with 0. by rewrite Z.add_0_r. Qed.

Lemma rescue_runs o median e :
  let g := world e in
  let n := Frame.block_number (world g) in
  rescue_finality o median e =
    if negb (EnsureRoot o) then Err BadOrigin
    else if negb (cooled_down (store e) n) then Err (rescue_err CooldownNotElapsed)
    else if bool_decide (Authorities (store g) = []) then Err (rescue_err NoAuthorities)
    else Ok (tt, mkEnv (Some n) (mkEnv (rescued median n (store g)) (world g) (events g))
      (events e ++ [FinalityRescueExecuted n median
        (wrap U32_MAX (Z.of_nat (length (Authorities (store g)))))
        (CurrentSetId (store g)) (wrap U64_MAX (CurrentSetId (store g) + 1))])).
Proof.
  destruct e as [last [s b evs] evs']. simpl. unfold rescue_finality, mbind, M_bind.
  destruct (EnsureRoot o) eqn:Ho; unfold ensure_origin; rewrite Ho; simpl; [|done].
  unfold cooled_down. destruct last as [last|]; simpl.
  - destruct (_ <=? _); simpl; [|done]. destruct (bool_decide _) eqn:Ha; simpl; [done|].
    by rewrite no_delay.
  - destruct (bool_decide _) eqn:Ha; simpl; [done|]. by rewrite no_delay.
Qed.

Lemma rescue_ok median e e' :
  rescue_finality Root median e = Ok (tt, e') →
  let g := world e in
  let n := Frame.block_number (world g) in
  cooled_down (store e) n = true ∧ (store g).(Authorities) ≠ [] ∧
  store e' = Some n ∧ world e' = mkEnv (rescued median n (store g)) (world g) (events g).
Proof.
  rewrite rescue_runs. simpl. destruct (cooled_down _ _); simpl; [|done].
  destruct (bool_decide _) eqn:Ha; [done|]. intros [= <-]. apply bool_decide_eq_false in Ha. done.
Qed.

(** C35. The outcome of [rescue_finality] in every state: it is refused exactly
    to origins other than root, during the cooldown, and without authorities,
    with the error of the first of these that applies; in every other state it
    succeeds, whatever is left of an earlier change, so that scheduling the
    forced change cannot fail; and it then replaces the pending change by a
    forced one to the present authorities, takes the next set id, and changes
    nothing else of pallet-grandpa. *)
Theorem rescue_finality_outcome o median e :
  let g := world e in
  let n := Frame.block_number (world g) in
  rescue_finality o median e =
    if negb (EnsureRoot o) then Err BadOrigin
    else if negb (cooled_down (store e) n) then Err (rescue_err CooldownNotElapsed)
    else if bool_decide (Authorities (store g) = []) then Err (rescue_err NoAuthorities)
    else Ok (tt, mkEnv (Some n) (mkEnv (rescued median n (store g)) (world g) (events g))
      (events e ++ [FinalityRescueExecuted n median
        (wrap U32_MAX (Z.of_nat (length (Authorities (store g)))))
        (CurrentSetId (store g)) (wrap U64_MAX (CurrentSetId (store g) + 1))])).
Proof. apply rescue_runs. Qed.

(** A rescue takes effect in its own block: the hook that ends the block
    signals the forced change to the gadget in the digest exactly once, with the
    median root gave and the authorities the chain had, applies it, and leaves
    no change pending, so that the next session can schedule its own. *)
Theorem rescue_applied median e e' :
  let n := Frame.block_number (world (world e)) in
  fits U32_MAX n → rescue_finality Root median e = Ok (tt, e') →
  ∃ g logs, on_finalize n (world e') = Ok (tt, g) ∧
    (world g).(digest) = (world (world e)).(digest)
      ++ ForcedChange median 0 (store (world e)).(Authorities) :: logs ∧
    Forall pause_log logs ∧
    (store g).(PendingChange) = None ∧ (store g).(Authorities) = (store (world e)).(Authorities) ∧
    NewAuthorities (store (world e)).(Authorities) ∈ events g.
Proof.
  intros n Hn (_ & _ & _ & Hg)%rescue_ok. rewrite Hg.
  set (g := mkEnv (rescued median _ _) _ _).
  destruct (change_enacted_at (mkStoredPendingChange n 0 (store (world e)).(Authorities) (Some median))
    n g) as (g' & Hrun & Hp & Ha & _ & _ & _ & _ & Hev & logs & Hd & Hf); [done| |].
  - unfold add32. simpl. by rewrite Z.add_0_r, wrap_small.
  - exists g', logs. simpl in Hd. rewrite Z.eqb_refl in Hd. done.
Qed.

(** A set id is in the map of sessions only once it is in use. *)
Definition sessions_known (s : State) : Prop :=
  ∀ id, is_Some (s.(SetIdSession) !! id) → id ≤ s.(CurrentSetId).

(** C36. What the rescue leaves out: it takes a set id without noting the session
    the set belongs to, as [on_new_session] does for every other set.  Once the
    next session has changed the authorities, reports of equivocations in the
    rescued set and in the set after it are refused for good, whatever the
    evidence. *)
Theorem rescued_set_unreportable `{Config, EquivocationSystem} median e e' g validators b g' :
  let n := Frame.block_number (world (world e)) in
  let k := (store (world e)).(CurrentSetId) in
  fits U32_MAX n → 0 ≤ k → k + 2 ≤ U64_MAX → sessions_known (store (world e)) →
  rescue_finality Root median e = Ok (tt, e') → on_finalize n (world e') = Ok (tt, g) →
  on_new_session true validators (mkEnv (store g) b (events g)) = Ok (tt, g') →
  (store g').(CurrentSetId) = k + 2 ∧
  ∀ proof key g'', proof.(set_id) ∈ [k + 1; k + 2] → process_evidence proof key g' ≠ Ok (tt, g'').
Proof.
  intros n k Hn Hk Hk2 Hss (_ & _ & _ & Hg)%rescue_ok Hfin Hnew. rewrite Hg in Hfin.
  set (g0 := mkEnv (rescued median _ _) _ _) in Hfin.
  destruct (change_enacted_at (mkStoredPendingChange n 0 (store (world e)).(Authorities) (Some median))
    n g0) as (g1 & Hrun & Hp & _ & Hid & Hmap & Hst & _); [done| |].
  { unfold add32. simpl. by rewrite Z.add_0_r, wrap_small. }
  rewrite Hrun in Hfin. injection Hfin as ->. simpl in Hid, Hmap, Hst.
  change (CurrentSetId (store (world e))) with k in Hid.
  destruct (session_changed _ _ _ Hnew Hp Hst) as [Hid' Hmap']. simpl in Hid', Hmap'.
  rewrite Hid, (wrap_small U64_MAX (k + 1)), wrap_small in Hid' by ulia.
  split; [lia|].
  assert ((store g').(SetIdSession) !! (k + 1) = None) as Hnone.
  { apply eq_None_not_Some. intros Hx. apply Hmap' in Hx; [|lia]. rewrite Hmap in Hx.
    apply Hss in Hx. change (k + 1 ≤ k) in Hx. lia. }
  intros proof key g'' Hin [Hcur Hprev]%evidence_sessions.
  apply elem_of_cons in Hin as [Heq|Heq%list_elem_of_singleton]; rewrite Heq in *.
  - rewrite Hnone in Hcur. by destruct Hcur.
  - replace (k + 2 - 1) with (k + 1) in Hprev by lia. rewrite Hnone in Hprev.
    destruct Hprev; [lia|done].
Qed.
End rescue.
