(* ===== verification/Dao.v ===== *)
(** * pallet-dao

    The topics and votes of the root chain, thxnet/pallets/dao/src/{lib,types}.rs.
    The surroundings are the clock and the total balances; whether bytes are
    UTF-8 is decided by the crate simdutf8, a parameter of the model.  A run
    that panics is a value of its own, apart from the errors a call returns. *)

From S2P Require Import Prelude Arith Errors Frame.
Import DaoErrors.

Definition dao_err (e : DaoError) : DispatchError := Module_ (InDao e).

(** What ends a run early: an error of the call, or a panic. *)
Inductive Fault :=
| Fails (e : DispatchError)
| Panics (msg : string).

#[global] Instance Fault_eq_dec : EqDecision Fault.
Proof. solve_decision. Defined.

Definition ONE_HOUR : Z := 60 * 60.
Definition THREE_HOURS : Z := 3 * 60 * 60.
Definition THREE_MONTHS : Z := 3 * 730 * ONE_HOUR.

Record TopicDetails := mkTopicDetails {
  raiser : AccountId;
  title : list Z;
  description : list Z;
  voting_period_start : Z;
  voting_period_end : Z;
  options : list (list Z);
  required_answer_number : Z;
}.

Record TopicVotingResult := mkTopicVotingResult {
  index : Z;
  vote_weight : Z;
}.

Inductive DaoEvent :=
| TopicRaised (id : Z) (raiser : AccountId)
| VotingRightTokenIssuedEvent (topic_id : Z) (voter : AccountId) (weight_per_required_option : Z)
| TopicVoted (id : Z) (voter : AccountId) (voted_options : list Z).

Record DaoState := mkDaoState {
  TopicCount : option Z;
  TopicCollection : gmap Z TopicDetails;
  BallotBox : gmap (Z * Z) Z;
  VotingRightTokenCollection : gmap (Z * AccountId) Z;
}.

Definition put_TopicCount x s :=
  mkDaoState x s.(TopicCollection) s.(BallotBox) s.(VotingRightTokenCollection).
Definition put_TopicCollection x s :=
  mkDaoState s.(TopicCount) x s.(BallotBox) s.(VotingRightTokenCollection).
Definition put_BallotBox x s :=
  mkDaoState s.(TopicCount) s.(TopicCollection) x s.(VotingRightTokenCollection).
Definition put_VotingRightTokenCollection x s :=
  mkDaoState s.(TopicCount) s.(TopicCollection) s.(BallotBox) x.

(** [TopicId] is [u64], [Vote] is [u128], [OptionIndex] is [u64]. *)
Class DaoConfig := {
  DaoForceOrigin : Origin → bool;
  TopicTitleMinimumLength : Z;
  TopicTitleMaximumLength : Z;
  TopicDescriptionMinimumLength : Z;
  TopicDescriptionMaximumLength : Z;
  TopicOptionMinimumLength : Z;
  TopicOptionMaximumLength : Z;
  TopicOptionMaximumNumber : Z;
  StringLimit : Z;
  TopicRaiserBalanceLowerBound : Z;
}.

(** [UnixTime::now().as_secs()] and [Currency::total_balance]. *)
Class DaoWorld (W : Type) := {
  unix_time : W → Z;
  total_balance : AccountId → W → Balance;
}.

(** [simdutf8::basic::from_utf8] *)
Class Utf8 := {
  from_utf8 : list Z → bool;
}.

(** [chars().count()] of a string: the bytes that are not continuation bytes. *)
Definition chars_count (bytes : list Z) : Z :=
  Z.of_nat (length (filter (λ b, Z.land b 192 ≠ 128) bytes)).

(** [Incrementable] of an unsigned integer. *)
Definition increment (max x : Z) : Z := saturating_add max x 1.
Definition initial_value : Z := 0.

(** [a + b] of two [u64], and [a * b], [a += b] of [u128], in a release build. *)
Definition add64 (a b : Z) : Z := wrap U64_MAX (a + b).
Definition mul128 (a b : Z) : Z := wrap U128_MAX (a * b).
Definition add128 (a b : Z) : Z := wrap U128_MAX (a + b).

Section dao.
Context {W : Type} `{!DaoWorld W, !Utf8, !DaoConfig}.

Definition DEnv : Type := Env DaoState W DaoEvent.
Abbreviation D := (M Fault DEnv).

(** A check that returns an error of the call. *)
Definition returns {A} (m : M DispatchError DEnv A) : D A := λ e, map_err Fails (m e).
Definition dao_ensure (b : bool) (x : DaoError) : D unit := ensure b (Fails (dao_err x)).

Definition check_title (title : list Z) : D unit :=
  dao_ensure (from_utf8 title) InvalidTitle ;;
  let len := wrap U32_MAX (chars_count title) in
  dao_ensure ((TopicTitleMinimumLength <=? len) && (len <=? TopicTitleMaximumLength)) InvalidTitle.

Definition check_description (desc : list Z) : D unit :=
  dao_ensure (from_utf8 desc) InvalidDescription ;;
  let len := wrap U32_MAX (chars_count desc) in
  dao_ensure ((TopicDescriptionMinimumLength <=? len) && (len <=? TopicDescriptionMaximumLength))
    InvalidDescription.

Definition check_options (options : list (list Z)) : D unit :=
  dao_ensure (bool_decide (length (dedup (merge_sort bytes_le options)) = length options))
    DuplicatedOption ;;
  dao_ensure (2 <=? Z.of_nat (length options)) OptionTooFew ;;
  dao_ensure (wrap U32_MAX (Z.of_nat (length options)) <=? TopicOptionMaximumNumber) OptionTooMany ;;
  for_each options (λ option,
    dao_ensure (from_utf8 option) InvalidOption ;;
    let len := wrap U32_MAX (Z.of_nat (length option)) in
    dao_ensure ((TopicOptionMinimumLength <=? len) && (len <=? TopicOptionMaximumLength)) InvalidOption).

(** [BoundedVec::try_from] *)
Definition bounded {A} (bound : Z) (l : list A) (x : DaoError) : D (list A) :=
  dao_ensure (Z.of_nat (length l) <=? bound) x ;; mret l.

(** The loop that collects the options. *)
Fixpoint push_options (opts : list (list Z)) (options : list (list Z)) : D (list (list Z)) :=
  match options with
  | [] => mret opts
  | option :: options =>
      option ← bounded StringLimit option OptionTooLong;
      opts ← ok_or (try_push TopicOptionMaximumNumber opts option) (Fails (dao_err OptionTooMany));
      push_options opts options
  end.

Definition do_raise_topic (raiser : AccountId) (title description : list Z)
    (voting_period_start voting_period_end : Z) (options : list (list Z))
    (required_answer_number : Z) : D unit :=
  now ← asks unix_time;
  dao_ensure ((add64 now ONE_HOUR <=? voting_period_start) &&
              (voting_period_start <=? add64 now THREE_MONTHS)) InvalidVotingPeriodStart ;;
  dao_ensure ((add64 voting_period_start THREE_HOURS <=? voting_period_end) &&
              (voting_period_end <=? add64 voting_period_start THREE_MONTHS)) InvalidVotingPeriodEnd ;;
  check_title title ;;
  check_description description ;;
  check_options options ;;
  dao_ensure ((1 <=? required_answer_number) &&
              (required_answer_number <=? wrap U32_MAX (Z.of_nat (length options) - 1)))
    InvalidAnswerNumber ;;
  count ← reads TopicCount;
  let topic_id := default initial_value count in
  opts ← push_options [] options;
  title ← bounded StringLimit title TitleTooLong;
  description ← bounded StringLimit description DescriptionTooLong;
  let topic_details := mkTopicDetails raiser title description voting_period_start
                         voting_period_end opts required_answer_number in
  writes (λ s, put_TopicCollection (<[topic_id := topic_details]> s.(TopicCollection)) s) ;;
  deposit_event (TopicRaised topic_id raiser) ;;
  writes (put_TopicCount (Some (increment U64_MAX topic_id))).

Definition raise_topic (origin : Origin) (title description : list Z)
    (voting_period_start voting_period_end : Z) (options : list (list Z))
    (required_answer_number : Z) : D unit :=
  raiser ← returns (ensure_signed origin);
  balance ← asks (total_balance raiser);
  dao_ensure (TopicRaiserBalanceLowerBound <=? balance) InsufficientBalance ;;
  do_raise_topic raiser title description voting_period_start voting_period_end options
    required_answer_number.

Definition force_raise_topic (origin : Origin) (raiser : AccountId) (title description : list Z)
    (voting_period_start voting_period_end : Z) (options : list (list Z))
    (required_answer_number : Z) : D unit :=
  returns (ensure_origin DaoForceOrigin origin) ;;
  do_raise_topic raiser title description voting_period_start voting_period_end options
    required_answer_number.

Definition get_topic (topic_id : Z) : D TopicDetails :=
  o ← reads (λ s, s.(TopicCollection) !! topic_id);
  ok_or o (Fails (dao_err UnknownTopic)).

Definition issue_voting_right_token (origin : Origin) (topic_id : Z) (voters : list AccountId)
    (weight_ratio_for_voters : option Z) : D unit :=
  returns (ensure_signed origin) ;;
  let ratio := default 1 weight_ratio_for_voters in
  dao_ensure ((0 <? ratio) && (ratio <=? 10000)) InvalidWeightRatio ;;
  topic_details ← get_topic topic_id;
  now ← asks unix_time;
  dao_ensure (now <=? topic_details.(voting_period_end)) VoteClosed ;;
  for_each voters (λ voter,
    token ← reads (λ s, s.(VotingRightTokenCollection) !! (topic_id, voter));
    dao_ensure (bool_decide (token = None)) VotingRightTokenIssued ;;
    balance ← asks (total_balance voter);
    let weight_per_required_option := mul128 balance ratio in
    when (initial_value <? weight_per_required_option)
      (writes (λ s, put_VotingRightTokenCollection
         (<[(topic_id, voter) := weight_per_required_option]> s.(VotingRightTokenCollection)) s) ;;
       deposit_event (VotingRightTokenIssuedEvent topic_id voter weight_per_required_option))).

(** The loop that adds a vote to each option. *)
Definition count_vote (topic_id weight : Z) (box : gmap (Z * Z) Z) (opt : Z) : gmap (Z * Z) Z :=
  <[(topic_id, opt) := add128 (default initial_value (box !! (topic_id, opt))) weight]> box.

Definition vote_topic (origin : Origin) (topic_id : Z) (options : list Z) : D unit :=
  topic_details ← get_topic topic_id;
  now ← asks unix_time;
  dao_ensure (topic_details.(voting_period_start) <=? now) VoteNotOpen ;;
  dao_ensure (now <=? topic_details.(voting_period_end)) VoteClosed ;;
  voter ← returns (ensure_signed origin);
  token ← reads (λ s, s.(VotingRightTokenCollection) !! (topic_id, voter));
  vote_weight ← ok_or token (Fails (dao_err VoterHasNoVotingRight));
  dao_ensure (initial_value <? vote_weight) VoterHasVoted ;;
  let sorted := dedup (merge_sort Z.le options) in
  dao_ensure (bool_decide (length options = length sorted)) DuplicatedVoting ;;
  dao_ensure (Z.of_nat (length sorted) =? topic_details.(required_answer_number)) InvalidAnswerNumber ;;
  last_option ← ok_or (last sorted) (Panics "options is not empty");
  dao_ensure (last_option <=? wrap U64_MAX (Z.of_nat (length topic_details.(Dao.options)) - 1))
    InvalidOption ;;
  writes (λ s, put_BallotBox (foldl (count_vote topic_id vote_weight) s.(BallotBox) sorted) s) ;;
  writes (λ s, put_VotingRightTokenCollection
    (<[(topic_id, voter) := initial_value]> s.(VotingRightTokenCollection)) s) ;;
  deposit_event (TopicVoted topic_id voter options).

Inductive DaoCall :=
| Raise_topic (title description : list Z) (voting_period_start voting_period_end : Z)
    (options : list (list Z)) (required_answer_number : Z)
| Issue_voting_right_token (topic_id : Z) (voters : list AccountId) (weight_ratio : option Z)
| Vote_topic (topic_id : Z) (options : list Z)
| Force_raise_topic (raiser : AccountId) (title description : list Z)
    (voting_period_start voting_period_end : Z) (options : list (list Z)) (required_answer_number : Z).

Definition dao_dispatch (origin : Origin) (call : DaoCall) : D unit :=
  match call with
  | Raise_topic t d st en os n => raise_topic origin t d st en os n
  | Issue_voting_right_token id vs r => issue_voting_right_token origin id vs r
  | Vote_topic id os => vote_topic origin id os
  | Force_raise_topic who t d st en os n => force_raise_topic origin who t d st en os n
  end.

(** ** Queries *)

Definition get_topic_by_id (topic_id : Z) (s : DaoState) : option TopicDetails :=
  s.(TopicCollection) !! topic_id.

Definition get_topic_votes_result_by_id (topic_id : Z) (s : DaoState) : list TopicVotingResult :=
  omap (λ kv, if decide (kv.1.1 = topic_id) then Some (mkTopicVotingResult kv.1.2 kv.2) else None)
    (map_to_list s.(BallotBox)).
End dao.
Arguments DEnv : clear implicits.
