(* ===== verification/DaoTheorems.v ===== *)
(** * pallet-dao: the theorems

    The counts of a topic are those of the ballots cast: a history of ballots is
    kept beside the pallet's storage, and the storage is shown to be the tally of
    it in every reachable state. *)

From S2P Require Import Prelude Arith Errors Frame Dao.
Import DaoErrors.

(** ** Ballots *)

Record Ballot := mkBallot {
  b_topic : Z;
  b_voter : AccountId;
  b_options : list Z;
  b_weight : Z;
  b_time : Z;
}.

(** The weight given to an option of a topic. *)
Definition ballot_for (t o : Z) (b : Ballot) : Z :=
  if decide (b.(b_topic) = t ∧ o ∈ b.(b_options)) then b.(b_weight) else 0.
Definition tally (h : list Ballot) (t o : Z) : Z := foldr (λ b acc, ballot_for t o b + acc) 0 h.

(** Somebody voted for the option; [who] voted on the topic. *)
Definition ticked (h : list Ballot) (t o : Z) : Prop :=
  Exists (λ b, b.(b_topic) = t ∧ o ∈ b.(b_options)) h.
Definition voted (h : list Ballot) (t : Z) (who : AccountId) : Prop :=
  Exists (λ b, b.(b_topic) = t ∧ b.(b_voter) = who) h.

#[global] Instance ticked_dec h t o : Decision (ticked h t o).
Proof. apply _. Defined.

Lemma tally_snoc h b t o : tally (h ++ [b]) t o = tally h t o + ballot_for t o b.
Proof. induction h as [|b' h IH]; simpl; [lia|]. rewrite IH. lia. Qed.

(** A topic as [do_raise_topic] leaves it. *)
Definition topic_wf (d : TopicDetails) : Prop :=
  1 ≤ d.(required_answer_number) ≤ Z.of_nat (length d.(options)) - 1 ∧
  Z.of_nat (length d.(options)) ≤ U64_MAX ∧ NoDup d.(options).

(** What a ballot of a topic looks like. *)
Definition ballot_wf (d : TopicDetails) (b : Ballot) : Prop :=
  NoDup b.(b_options) ∧ Z.of_nat (length b.(b_options)) = d.(required_answer_number) ∧
  (∀ o, o ∈ b.(b_options) → o < Z.of_nat (length d.(options))) ∧ 0 < b.(b_weight) ∧
  d.(voting_period_start) ≤ b.(b_time) ≤ d.(voting_period_end).

(** The storage as the tally of the history. *)
Record counted (h : list Ballot) (s : DaoState) : Prop := {
  co_topics : ∀ t d, s.(TopicCollection) !! t = Some d → topic_wf d;
  co_count : ∀ t, is_Some (s.(TopicCollection) !! t) → t < default 0 s.(TopicCount);
  co_ballots : ∀ b, b ∈ h →
    ∃ d, s.(TopicCollection) !! b.(b_topic) = Some d ∧ ballot_wf d b;
  co_box : ∀ t o, s.(BallotBox) !! (t, o) =
    if decide (ticked h t o) then Some (wrap U128_MAX (tally h t o)) else None;
  co_once : NoDup ((λ b, (b.(b_topic), b.(b_voter))) <$> h);
  co_tokens : ∀ t who, voted h t who → s.(VotingRightTokenCollection) !! (t, who) = Some 0;
  co_unused : ∀ t who w, s.(VotingRightTokenCollection) !! (t, who) = Some w →
    0 < w ∨ (w = 0 ∧ voted h t who);
}.

(** ** Counting one more ballot *)

Lemma count_votes_lookup t w l box t' o :
  NoDup l →
  foldl (count_vote t w) box l !! (t', o) =
  if decide (t' = t ∧ o ∈ l) then Some (add128 (default 0 (box !! (t, o))) w) else box !! (t', o).
Proof.
  revert box. induction l as [|x l IH]; intros box Hnd.
  { simpl. rewrite decide_False; [done|set_solver]. }
  apply NoDup_cons in Hnd as [Hx Hnd]. simpl. rewrite IH by done. unfold count_vote.
  destruct (decide (t' = t ∧ o ∈ l)) as [[-> Hin]|Hout].
  - rewrite decide_True by set_solver. rewrite lookup_insert_ne; [done|]. congruence.
  - destruct (decide ((t', o) = (t, x))) as [[= -> ->]|Hne].
    + rewrite lookup_insert_eq, decide_True by set_solver. done.
    + rewrite lookup_insert_ne by congruence. rewrite decide_False; [done|set_solver].
Qed.

Lemma add128_wrap a b : add128 (wrap U128_MAX a) b = wrap U128_MAX (a + b).
Proof. unfold add128, wrap. by rewrite Z.add_mod_idemp_l. Qed.

Lemma tally_unticked h t o : ¬ ticked h t o → tally h t o = 0.
Proof.
  unfold ticked. induction h as [|b h IH]; [done|]. rewrite Exists_cons. intros Hn. simpl.
  rewrite IH by naive_solver. unfold ballot_for. rewrite decide_False; [done|naive_solver].
Qed.

Lemma box_counted h b box :
  NoDup b.(b_options) →
  (∀ t o, box !! (t, o) = if decide (ticked h t o) then Some (wrap U128_MAX (tally h t o)) else None) →
  ∀ t o, foldl (count_vote b.(b_topic) b.(b_weight)) box b.(b_options) !! (t, o) =
    if decide (ticked (h ++ [b]) t o) then Some (wrap U128_MAX (tally (h ++ [b]) t o)) else None.
Proof.
  intros Hnd Hbox t o. rewrite count_votes_lookup by done. rewrite tally_snoc.
  assert (ticked (h ++ [b]) t o ↔ ticked h t o ∨ (b.(b_topic) = t ∧ o ∈ b.(b_options))) as Hiff.
  { unfold ticked. rewrite Exists_app, Exists_cons, Exists_nil. naive_solver. }
  unfold ballot_for. destruct (decide (t = b_topic b ∧ o ∈ b_options b)) as [[-> Hin]|Hout].
  - rewrite (decide_True _ _ (proj2 Hiff (or_intror (conj eq_refl Hin)))).
    rewrite (decide_True (P := _ ∧ _)) by done. f_equal. rewrite Hbox.
    destruct (decide (ticked h _ o)) as [|Hn]; simpl; [by rewrite add128_wrap|].
    by rewrite (tally_unticked _ _ _ Hn).
  - rewrite (decide_False (P := _ ∧ _)) by naive_solver. rewrite Z.add_0_r, Hbox.
    destruct (decide (ticked h t o)), (decide (ticked (h ++ [b]) t o)); naive_solver.
Qed.

(** ** What each call does *)

(** The constants are values of their types. *)
Class ValidDao `{DaoConfig} := {
  vd_options : TopicOptionMaximumNumber ≤ U32_MAX;
}.

Section calls.
Context {W : Type} `{!DaoWorld W, !Utf8, !DaoConfig, !ValidDao}.
Implicit Types (e : DEnv W) (s : DaoState).

Lemma returns_ok {A} (m : M DispatchError (DEnv W) A) a e e' :
  returns m e = Ok (a, e') ↔ m e = Ok (a, e').
Proof. unfold returns. destruct (m e); simpl; naive_solver. Qed.

Lemma dao_ensure_ok b x u e e' : dao_ensure b x e = Ok (u, e') ↔ b = true ∧ e' = e.
Proof. apply ensure_ok. Qed.

Lemma get_topic_ok id d e e' :
  get_topic id e = Ok (d, e') ↔ (store e).(TopicCollection) !! id = Some d ∧ e' = e.
Proof.
  unfold get_topic. rewrite bind_ok. setoid_rewrite reads_ok. setoid_rewrite ok_or_ok. naive_solver.
Qed.

(** [dinv]: a successful run of the pallet, taken apart. *)
Ltac dao_step :=
  match goal with
  | H : dao_ensure _ _ _ = Ok (_, _) |- _ => apply dao_ensure_ok in H as [? ?]; subst
  | H : returns _ _ = Ok (_, _) |- _ => apply returns_ok in H
  | H : ensure_signed _ _ = Ok (_, _) |- _ => apply ensure_signed_ok in H as [? ?]; subst
  | H : ensure_origin _ _ _ = Ok (_, _) |- _ => apply ensure_origin_ok in H as [? ?]; subst
  | H : get_topic _ _ = Ok (_, _) |- _ => apply get_topic_ok in H as [? ?]; subst
  end.
Ltac dinv := repeat first [minv_step | env_step | dao_step].

Lemma bounded_ok {A} bound (l r : list A) x e e' :
  bounded bound l x e = Ok (r, e') → r = l ∧ e' = e ∧ Z.of_nat (length l) ≤ bound.
Proof. unfold bounded. intros Hrun. dinv. bool_facts. done. Qed.

Lemma check_title_ok t e e' : check_title t e = Ok (tt, e') → e' = e.
Proof. unfold check_title. intros Hrun. by dinv. Qed.

Lemma check_description_ok t e e' : check_description t e = Ok (tt, e') → e' = e.
Proof. unfold check_description. intros Hrun. by dinv. Qed.

Lemma check_options_ok os e e' :
  check_options os e = Ok (tt, e') → e' = e ∧ NoDup os ∧ 2 ≤ Z.of_nat (length os).
Proof.
  unfold check_options. intros Hrun. dinv. bool_facts.
  match goal with H : for_each _ _ _ = _ |- _ => apply (for_each_inv (λ x, x = e)) in H; [|..|done] end.
  - subst. split; [done|]. split; [|done]. by apply (sort_dedup_NoDup bytes_le).
  - intros x s s' _ -> Hx. by dinv.
Qed.

Lemma push_options_ok opts os r e e' :
  push_options opts os e = Ok (r, e') →
  e' = e ∧ r = opts ++ os ∧ (os ≠ [] → Z.of_nat (length r) ≤ TopicOptionMaximumNumber).
Proof.
  revert opts. induction os as [|o os IH]; intros opts Hrun; simpl in Hrun.
  { dinv. by rewrite app_nil_r. }
  dinv. match goal with H : bounded _ _ _ _ = _ |- _ => apply bounded_ok in H as (-> & -> & _) end.
  match goal with H : try_push _ _ _ = _ |- _ => apply try_push_Some in H as [Hlen ->] end.
  apply IH in Hrun as (-> & -> & Hb). split; [done|]. rewrite <- app_assoc. split; [done|]. intros _.
  destruct os; [rewrite !length_app; simpl; lia|]. rewrite <- app_assoc in Hb. by apply Hb.
Qed.

(** A raised topic. *)
Definition raised (d : TopicDetails) s : DaoState :=
  let id := default 0 s.(TopicCount) in
  put_TopicCount (Some (increment U64_MAX id))
    (put_TopicCollection (<[id := d]> s.(TopicCollection)) s).

Lemma do_raise_topic_run who t desc st en os n e e' :
  do_raise_topic who t desc st en os n e = Ok (tt, e') →
  let d := mkTopicDetails who t desc st en os n in
  topic_wf d ∧ store e' = raised d (store e) ∧ world e' = world e ∧
  add64 (unix_time (world e)) ONE_HOUR ≤ st ≤ add64 (unix_time (world e)) THREE_MONTHS ∧
  add64 st THREE_HOURS ≤ en ≤ add64 st THREE_MONTHS.
Proof.
  unfold do_raise_topic. intros Hrun. dinv. bool_facts.
  match goal with H : check_title _ _ = _ |- _ => apply check_title_ok in H as -> end.
  match goal with H : check_description _ _ = _ |- _ => apply check_description_ok in H as -> end.
  match goal with H : check_options _ _ = _ |- _ => apply check_options_ok in H as (-> & Hnd & Hlen) end.
  match goal with H : push_options _ _ _ = _ |- _ => apply push_options_ok in H as (-> & -> & Hmax) end.
  repeat match goal with H : bounded _ _ _ _ = _ |- _ => apply bounded_ok in H as (-> & -> & _) end.
  simpl in *. assert (Z.of_nat (length os) ≤ U32_MAX) as Hmax'.
  { pose proof vd_options. destruct os; [simpl in *; lia|]. specialize (Hmax ltac:(done)). lia. }
  match goal with H : n ≤ wrap _ _ |- _ => rewrite wrap_small in H by ulia end.
  split; [|done]. split; simpl; [lia|]. split; [ulia|done].
Qed.

(** Issued tokens: the old ones stay, new ones have a positive weight. *)
Record issued e e' : Prop := {
  is_world : world e' = world e;
  is_count : (store e').(TopicCount) = (store e).(TopicCount);
  is_topics : (store e').(TopicCollection) = (store e).(TopicCollection);
  is_box : (store e').(BallotBox) = (store e).(BallotBox);
  is_old : ∀ k w, (store e).(VotingRightTokenCollection) !! k = Some w →
    (store e').(VotingRightTokenCollection) !! k = Some w;
  is_new : ∀ k w, (store e').(VotingRightTokenCollection) !! k = Some w →
    (store e).(VotingRightTokenCollection) !! k = Some w ∨ 0 < w;
}.

Lemma issue_run o id vs r e e' : issue_voting_right_token o id vs r e = Ok (tt, e') → issued e e'.
Proof.
  unfold issue_voting_right_token. intros Hrun. dinv.
  match goal with H : for_each _ _ _ = _ |- _ => revert H end.
  apply (for_each_inv (issued e)); [|split; auto].
  intros v e1 e2 _ [] Hx. dinv. apply when_ok in Hx as [[Hw Hx]|[_ ->]]; [|by split; auto].
  dinv. bool_facts. split; simpl; try done.
  - intros k w Hk. rewrite lookup_insert_ne; [auto|]. intros <-. apply is_old0 in Hk. congruence.
  - intros k w. rewrite lookup_insert_Some. intros [[_ <-]|[_ Hk]]; [by right|auto].
Qed.

Definition sorted_options (os : list Z) : list Z := dedup (merge_sort Z.le os).

Definition vote_counted id who w os s : DaoState :=
  put_VotingRightTokenCollection (<[(id, who) := 0]> s.(VotingRightTokenCollection))
    (put_BallotBox (foldl (count_vote id w) s.(BallotBox) (sorted_options os)) s).

Lemma last_sorted_max l x : NoDup l → last (merge_sort Z.le l) = Some x → ∀ y, y ∈ l → y ≤ x.
Proof.
  intros Hnd Hlast y Hy. rewrite <- (merge_sort_Permutation Z.le l) in Hy.
  apply last_Some in Hlast as [l' Hl]. pose proof (StronglySorted_merge_sort Z.le l) as Hs.
  rewrite Hl in Hs, Hy. apply StronglySorted_app in Hs as (Hall & _ & _).
  apply elem_of_app in Hy as [Hy| ->%list_elem_of_singleton]; [|done].
  apply Hall; [done|by left].
Qed.

Lemma vote_topic_run o id os e e' :
  vote_topic o id os e = Ok (tt, e') →
  ∃ d who w,
    o = Signed who ∧ (store e).(TopicCollection) !! id = Some d ∧
    d.(voting_period_start) ≤ unix_time (world e) ≤ d.(voting_period_end) ∧
    (store e).(VotingRightTokenCollection) !! (id, who) = Some w ∧ 0 < w ∧
    NoDup os ∧ Z.of_nat (length os) = d.(required_answer_number) ∧
    (∀ x, x ∈ os → x ≤ wrap U64_MAX (Z.of_nat (length d.(options)) - 1)) ∧
    store e' = vote_counted id who w os (store e) ∧ world e' = world e.
Proof.
  unfold vote_topic. intros Hrun. dinv. bool_facts.
  match goal with H : length os = length _ |- _ => symmetry in H;
    pose proof H as Hlen; apply (sort_dedup_NoDup Z.le) in H as Hnd end.
  do 3 eexists. split; [done|]. split_and!; try done; [lia|].
  intros y Hx. match goal with H : last _ = Some _ |- _ => rename H into Hlast end.
  rewrite dedup_NoDup in Hlast.
  - eapply last_sorted_max in Hlast; [|done|exact Hx]. lia.
  - by rewrite (merge_sort_Permutation Z.le os).
Qed.

(** ** Histories *)

(** The ballot a call casts. *)
Definition cast (o : Origin) (call : DaoCall) e : list Ballot :=
  match o, call with
  | Signed who, Vote_topic id os =>
      [mkBallot id who (sorted_options os)
         (default 0 ((store e).(VotingRightTokenCollection) !! (id, who))) (unix_time (world e))]
  | _, _ => []
  end.

(** The states the pallet reaches, with the ballots cast on the way.  There are
    fewer topics than a [u64] can number. *)
Inductive history : list Ballot → DEnv W → Prop :=
| history_genesis w : history [] (mkEnv (mkDaoState None ∅ ∅ ∅) w [])
| history_call h o call e e' :
    history h e → default 0 (store e).(TopicCount) < U64_MAX →
    dao_dispatch o call e = Ok (tt, e') → history (h ++ cast o call e) e'
| history_world h e w : history h e → history h (mkEnv (store e) w (events e)).

Lemma raised_counted h d s :
  counted h s → topic_wf d → default 0 s.(TopicCount) < U64_MAX → counted h (raised d s).
Proof.
  intros [] Hd Hn. set (id := default 0 s.(TopicCount)) in *.
  assert (s.(TopicCollection) !! id = None) as Hfresh.
  { apply eq_None_not_Some. intros Hs%co_count0. fold id in Hs. lia. }
  assert (increment U64_MAX id = id + 1) as Hinc by (unfold increment; ulia).
  split; simpl; try done; fold id.
  - intros t d'. rewrite lookup_insert_Some. intros [[_ <-]|[_ Ht]]; [done|by eapply co_topics0].
  - intros t. rewrite Hinc. destruct (decide (t = id)) as [->|Hne]; [lia|].
    rewrite lookup_insert_ne by done. intros Ht%co_count0. fold id in Ht. lia.
  - intros b Hb. destruct (co_ballots0 b Hb) as (d' & Hd' & Hw). exists d'. split; [|done].
    rewrite lookup_insert_ne; [done|]. intros Heq. rewrite <- Heq in Hd'. congruence.
Qed.

Lemma issued_counted h e e' : counted h (store e) → issued e e' → counted h (store e').
Proof.
  intros [] []. split; rewrite ?is_count0, ?is_topics0, ?is_box0; try done.
  - intros t who Hv. by apply is_old0, co_tokens0.
  - intros t who w [Hk|Hw]%is_new0; [by apply co_unused0|by left].
Qed.

Lemma vote_counted_ok h d id who w os now s :
  counted h s → s.(TopicCollection) !! id = Some d →
  s.(VotingRightTokenCollection) !! (id, who) = Some w →
  ballot_wf d (mkBallot id who (sorted_options os) w now) →
  counted (h ++ [mkBallot id who (sorted_options os) w now]) (vote_counted id who w os s).
Proof.
  intros [] Hd Hw Hwf. set (b := mkBallot _ _ _ _ _) in *.
  assert (∀ t x, voted (h ++ [b]) t x ↔ voted h t x ∨ (t = id ∧ x = who)) as Hvoted.
  { intros t x. unfold voted. rewrite Exists_app, Exists_cons, Exists_nil. naive_solver. }
  assert (¬ voted h id who) as Hnew.
  { intros Hv%co_tokens0. rewrite Hw in Hv. injection Hv as ->. by destruct Hwf as (_ & _ & _ & ? & _). }
  split; simpl; try done.
  - intros b' [Hb| ->%list_elem_of_singleton]%elem_of_app; [by apply co_ballots0|by exists d].
  - apply (box_counted h b); [apply Hwf|done].
  - rewrite fmap_app. apply NoDup_snoc; [done|]. intros (b' & [= Ht Hv] & Hb)%list_elem_of_fmap.
    apply Hnew, Exists_exists. by exists b'.
  - intros t x [Hv|[-> ->]]%Hvoted; [|apply lookup_insert_eq].
    destruct (decide ((id, who) = (t, x))) as [->|]; [apply lookup_insert_eq|].
    rewrite lookup_insert_ne by done. by apply co_tokens0.
  - intros t x y. rewrite lookup_insert_Some, Hvoted. intros [[[= <- <-] <-]|[Hne Hk]].
    + right. by split; [|right].
    + destruct (co_unused0 _ _ _ Hk) as [|[-> ?]]; [by left|right]. by split; [|left].
Qed.

Lemma genesis_counted : counted [] (mkDaoState None ∅ ∅ ∅).
Proof.
  split; simpl.
  - intros t d. by rewrite lookup_empty.
  - intros t. rewrite lookup_empty. by intros [? ?].
  - intros b Hb. by apply elem_of_nil in Hb.
  - intros t o. by rewrite lookup_empty.
  - constructor.
  - intros t who Hv. by apply Exists_nil in Hv.
  - intros t who w. by rewrite lookup_empty.
Qed.

Lemma call_counted h o call e e' :
  counted h (store e) → default 0 (store e).(TopicCount) < U64_MAX →
  dao_dispatch o call e = Ok (tt, e') → counted (h ++ cast o call e) (store e').
Proof.
  intros IH Hn Hrun. destruct call as [| |id os|]; simpl in Hrun.
  - unfold raise_topic in Hrun. dinv. apply do_raise_topic_run in Hrun as (Hwf & -> & _).
    simpl. rewrite app_nil_r. by apply raised_counted.
  - apply issue_run in Hrun. destruct o; simpl; rewrite app_nil_r; by eapply issued_counted.
  - apply vote_topic_run in Hrun as (d & who & w & -> & Hd & Ht & Hw & Hpos & Hnd & Hlen & Hx & -> & _).
    simpl. rewrite Hw. simpl. eapply vote_counted_ok; [done|exact Hd|done|].
    destruct (co_topics _ _ IH _ _ Hd) as (Hr & Hmax & _).
    assert (sorted_options os ≡ₚ os) as Hperm.
    { unfold sorted_options. rewrite dedup_NoDup; [apply merge_sort_Permutation|].
      by rewrite (merge_sort_Permutation Z.le os). }
    split; simpl; [by rewrite Hperm|]. rewrite Hperm. split; [done|]. split; [|done].
    intros x Ho. rewrite Hperm in Ho. apply Hx in Ho. rewrite wrap_small in Ho by ulia. lia.
  - unfold force_raise_topic in Hrun. dinv. apply do_raise_topic_run in Hrun as (Hwf & -> & _).
    destruct o; simpl; rewrite app_nil_r; by apply raised_counted.
Qed.

Lemma history_counted h e : history h e → counted h (store e).
Proof.
  induction 1 as [w|h o call e e' _ IH Hn Hrun|h e w _ IH]; [apply genesis_counted| |done].
  by apply call_counted.
Qed.

(** C25. The count of a topic is the tally of the ballots cast on it: in every
    reachable state the ballot box holds, for every option somebody voted for,
    the sum of the weights of the ballots that name it, modulo 2^128, and
    nothing for the others; nobody voted twice on a topic, and every ballot was
    cast in the voting period of its topic, with a positive weight, on exactly
    as many different options of the topic as it requires. *)
Theorem tally_counts_ballots h e :
  history h e →
  (∀ t o, (store e).(BallotBox) !! (t, o) =
     if decide (ticked h t o) then Some (wrap U128_MAX (tally h t o)) else None) ∧
  NoDup ((λ b, (b.(b_topic), b.(b_voter))) <$> h) ∧
  (∀ b, b ∈ h → ∃ d, (store e).(TopicCollection) !! b.(b_topic) = Some d ∧ ballot_wf d b).
Proof. intros [_ _ Hb Hbox Hnd _ _]%history_counted. done. Qed.

(** ** No call panics *)

(** Runs that may end with an error, but not with a panic. *)
Definition safe {A} (m : M Fault (DEnv W) A) e : Prop := ∀ msg, m e ≠ Err (Panics msg).

Lemma safe_bind {A B} (m : M Fault (DEnv W) A) (f : A → M Fault (DEnv W) B) e :
  safe m e → (∀ a e', m e = Ok (a, e') → safe (f a) e') → safe (m ≫= f) e.
Proof.
  intros Hm Hf msg. unfold mbind, M_bind. destruct (m e) as [[a e']|x] eqn:Hr.
  - by apply Hf.
  - intros [= ->]. by apply (Hm msg).
Qed.

Lemma safe_ensure b x e : safe (dao_ensure b x) e.
Proof. intros msg. by destruct b. Qed.
Lemma safe_returns {A} (m : M DispatchError (DEnv W) A) e : safe (returns m) e.
Proof. intros msg. unfold returns. by destruct (m e). Qed.
Lemma safe_ok_or {A} (o : option A) x e : safe (ok_or o (Fails x)) e.
Proof. intros msg. by destruct o. Qed.
Lemma safe_reads {A} (f : DaoState → A) e : safe (reads f) e.
Proof. by intros msg. Qed.
Lemma safe_asks {A} (f : W → A) e : safe (asks f) e.
Proof. by intros msg. Qed.
Lemma safe_writes f e : safe (writes f) e.
Proof. by intros msg. Qed.
Lemma safe_event ev e : safe (deposit_event ev) e.
Proof. by intros msg. Qed.
Lemma safe_ret {A} (a : A) e : safe (mret a) e.
Proof. by intros msg. Qed.
Lemma safe_when b m e : safe m e → safe (when b m) e.
Proof. intros Hm. by destruct b. Qed.
Lemma safe_for_each {A} (l : list A) f e :
  (∀ x e, safe (f x) e) → safe (for_each l f) e.
Proof.
  intros Hf. revert e. induction l as [|x l IH]; intros e; [apply safe_ret|].
  apply safe_bind; [apply Hf|]. intros _ e' _. apply IH.
Qed.

Create HintDb safe.
#[local] Hint Resolve safe_ensure safe_returns safe_ok_or safe_reads safe_asks safe_writes
  safe_event safe_ret safe_when safe_for_each : safe.

Ltac safe_seq := repeat (apply safe_bind; [eauto with safe|intros ? ? _]); eauto with safe.

Lemma safe_get_topic id e : safe (get_topic id) e.
Proof. unfold get_topic. safe_seq. Qed.

Lemma safe_push_options opts os e : safe (push_options opts os) e.
Proof.
  revert opts e. induction os as [|o os IH]; intros opts e; [apply safe_ret|].
  apply safe_bind; [unfold bounded; safe_seq|intros ? ? _]. safe_seq.
Qed.

Lemma safe_do_raise who t d st en os n e : safe (do_raise_topic who t d st en os n) e.
Proof.
  unfold do_raise_topic, check_title, check_description, check_options, bounded.
  repeat (apply safe_bind; [|intros ? ? _]); eauto using safe_push_options with safe.
  all: repeat (apply safe_bind; [|intros ? ? _]); eauto with safe.
  apply safe_for_each. intros x e1. safe_seq.
Qed.

Lemma safe_vote h id os o e : counted h (store e) → safe (vote_topic o id os) e.
Proof.
  intros Hc. unfold vote_topic.
  apply safe_bind; [apply safe_get_topic|]. intros d e1 [Hd ->]%get_topic_ok.
  do 6 (apply safe_bind; [eauto with safe|]; intros ? ? Hk; dinv).
  apply safe_bind; [eauto with safe|]. intros ? ? Hk; dinv.
  apply safe_bind; [eauto with safe|]. intros ? ? Hk; dinv.
  apply safe_bind; [eauto with safe|]. intros ? ? Hk; dinv. bool_facts.
  apply safe_bind; [|intros ? ? _; safe_seq].
  destruct (co_topics _ _ Hc _ _ Hd) as (Hr & _).
  destruct (last (dedup (merge_sort Z.le os))) eqn:Hl; [by intros msg|].
  apply last_None in Hl. rewrite Hl in *. simpl in *. lia.
Qed.

(** No call of the pallet panics in a reachable state, whatever its origin and
    arguments: the [expect] on the last of the voted options is never reached
    with an empty list. *)
Theorem dao_never_panics h e o call msg :
  history h e → dao_dispatch o call e ≠ Err (Panics msg).
Proof.
  intros Hc%history_counted. revert msg. change (safe (dao_dispatch o call) e).
  destruct call; simpl.
  - unfold raise_topic. do 3 (apply safe_bind; [eauto with safe|intros ? ? _]). apply safe_do_raise.
  - unfold issue_voting_right_token. do 2 (apply safe_bind; [eauto with safe|intros ? ? _]).
    apply safe_bind; [apply safe_get_topic|intros ? ? _]. safe_seq.
    apply safe_for_each. intros x e1. safe_seq. apply safe_when. safe_seq.
  - by eapply safe_vote.
  - unfold force_raise_topic. apply safe_bind; [eauto with safe|intros ? ? _]. apply safe_do_raise.
Qed.

(** What is raised can be read back, and is what was asked for: after a
    successful call the topic stands under the next number with the given
    title, description, period and options, an hour to three months ahead and
    three hours to three months long, with different options and fewer required
    answers than options; every other topic is as before. *)
Theorem raised_topic_read_back who t d st en os n e e' :
  let id := default 0 (store e).(TopicCount) in
  let now := unix_time (world e) in
  now + THREE_MONTHS + THREE_MONTHS ≤ U64_MAX → 0 ≤ now →
  raise_topic (Signed who) t d st en os n e = Ok (tt, e') →
  get_topic_by_id id (store e') = Some (mkTopicDetails who t d st en os n) ∧
  now + ONE_HOUR ≤ st ≤ now + THREE_MONTHS ∧ st + THREE_HOURS ≤ en ≤ st + THREE_MONTHS ∧
  NoDup os ∧ 1 ≤ n < Z.of_nat (length os) ∧
  TopicRaiserBalanceLowerBound ≤ total_balance who (world e) ∧
  (∀ id', id' ≠ id → get_topic_by_id id' (store e') = get_topic_by_id id' (store e)).
Proof.
  intros id now Hmax Hnow Hrun. unfold raise_topic in Hrun. dinv. bool_facts. simplify_eq.
  apply do_raise_topic_run in Hrun as ((Hn & _ & Hnd) & Hs & _ & Hst & Hen).
  unfold add64, now, THREE_HOURS, THREE_MONTHS, ONE_HOUR in *. simpl in Hn.
  rewrite !wrap_small in Hst by ulia. rewrite !wrap_small in Hen by ulia.
  unfold get_topic_by_id. rewrite Hs. simpl. split_and!; try done; try lia.
  - apply lookup_insert_eq.
  - intros id' Hne. by apply lookup_insert_ne.
Qed.
End calls.
