(* ===== verification/Rootchain.v ===== *)
(** * The root chain runtime

    The configuration of pallet-dao, pallet-grandpa and pallet-finality-rescue in
    src/thxnet/runtime/thxnet/src/lib.rs, sample states, and the properties of
    the two developments at runs from them. *)

From S2P Require Import Prelude Arith Errors Frame Balances Grandpa FinalityRescue Dao DaoTheorems.
From S2P Require Import Samples.
Import DaoErrors FinalityRescueErrors.

(** ** Configuration *)

#[global] Instance thxnet_rescue : RescueConfig := {| RescueCooldown := 100 |}.

(** Twenty-eight eras of six sessions. *)
#[global] Instance thxnet_grandpa : Grandpa.Config := {| MaxSetIdSessionEntries := 28 * 6 |}.

#[global] Instance thxnet_dao : DaoConfig := {|
  DaoForceOrigin := EnsureRoot;
  TopicTitleMinimumLength := 1;
  TopicTitleMaximumLength := 256;
  TopicDescriptionMinimumLength := 1;
  TopicDescriptionMaximumLength := 2048;
  TopicOptionMinimumLength := 1;
  TopicOptionMaximumLength := 256;
  TopicOptionMaximumNumber := 1024;
  StringLimit := 2048 * 4;
  TopicRaiserBalanceLowerBound := 1000000;
|}.

#[global] Instance thxnet_valid_dao : ValidDao.
Proof. split. by vm_compute. Qed.

(** The ledger of pallet-balances beside the moment of pallet-timestamp, in
    milliseconds. *)
#[global] Instance root_dao_world : DaoWorld (Chain Z) := {|
  unix_time w := w.(rest) / 1000;
  Dao.total_balance := Balances.total_balance;
|}.

(** Strings of ASCII bytes are UTF-8. *)
#[local] Instance ascii : Utf8 := {| from_utf8 bytes := forallb (λ b, (0 <=? b) && (b <? 128)) bytes |}.

(** Equivocation reports that are all in order. *)
#[local] Instance sample_offences : EquivocationSystem := {|
  check_equivocation_proof _ := true;
  check_proof offender _ := Some offender;
  report_offence _ _ _ := true;
|}.

(** ** A rescue *)

Definition three : AuthorityList := [(11, 1); (12, 1); (13, 1)].

(** A chain stalled at block 500 of session 9, with a change left pending. *)
Definition stalled_grandpa : State :=
  mkState Live (Some (mkStoredPendingChange 400 50 three None)) (Some 900) (Some (100, 350)) 7
    {[ 6 := 8; 7 := 9 ]} three.
Definition before : FEnv := mkEnv None (mkEnv stalled_grandpa (mkBlock 500 [] 9) []) [].
Definition after_rescue : FEnv := committed (rescue_finality Root 350) before.
Definition block_end : GEnv := committed (on_finalize 500) (world after_rescue).
Definition next_session : GEnv :=
  committed (on_new_session true [11; 12; 14]) (mkEnv (store block_end) (mkBlock 501 [] 10) (events block_end)).

Ltac stored := vm_compute; reflexivity.

Lemma rescue_applied_witness :
  ∃ g logs, on_finalize 500 (world after_rescue) = Ok (tt, g) ∧
    (world g).(digest) = ForcedChange 350 0 three :: logs.
Proof.
  destruct (rescue_applied 350 before after_rescue) as (g & logs & Hr & Hd & _); [by vm_compute|stored|].
  exists g, logs. split; [exact Hr|exact Hd].
Defined.

Lemma rescued_set_unreportable_witness :
  process_evidence (mkEquivocationProof 8 1 11) (mkKeyOwnerProof 10 3) next_session ≠ Ok (tt, next_session).
Proof.
  destruct (rescued_set_unreportable 350 before after_rescue block_end [11; 12; 14] (mkBlock 501 [] 10)
    next_session) as [_ Hn].
  - by vm_compute.
  - by vm_compute.
  - by vm_compute.
  - intros id [x Hx]. change ((<[6 := 8]> {[ 7 := 9 ]} : gmap Z Z) !! id = Some x) in Hx.
    apply lookup_insert_Some in Hx as [[<- _]|[_ Hx]]; [by vm_compute|].
    apply lookup_singleton_Some in Hx as [<- _]. by vm_compute.
  - stored.
  - stored.
  - stored.
  - apply Hn. by left.
Defined.

(** ** A vote *)

Definition opening : Z := 1700000000.

Definition root_world (now : Z) : Chain Z :=
  mkChain {[ alice := funded 5000000; bob := funded 3000000; carol := funded 3000000 ]} 11000000
    (now * 1000).

Definition dao_start : DEnv (Chain Z) := mkEnv (mkDaoState None ∅ ∅ ∅) (root_world opening) [].

(** [yes] and [no], over a period of three hours that starts an hour later. *)
Definition question : DaoCall :=
  Raise_topic [113] [100] (opening + ONE_HOUR) (opening + ONE_HOUR + THREE_HOURS)
    [[121; 101; 115]; [110; 111]] 1.

Definition dao_after (o : Origin) (call : DaoCall) (e : DEnv (Chain Z)) : DEnv (Chain Z) :=
  committed (dao_dispatch o call) e.
Definition asked : DEnv (Chain Z) := dao_after (Signed alice) question dao_start.

(** Carol gives alice and bob their tokens, alice with ratio ten. *)
Definition half_issued : DEnv (Chain Z) :=
  dao_after (Signed carol) (Issue_voting_right_token 0 [alice] (Some 10)) asked.
Definition issued_to_both : DEnv (Chain Z) :=
  dao_after (Signed carol) (Issue_voting_right_token 0 [bob] None) half_issued.
Definition open_poll : DEnv (Chain Z) :=
  mkEnv (store issued_to_both) (root_world (opening + ONE_HOUR)) (events issued_to_both).
Definition voted_by_alice : DEnv (Chain Z) := dao_after (Signed alice) (Vote_topic 0 [0]) open_poll.
Definition voted_by_both : DEnv (Chain Z) := dao_after (Signed bob) (Vote_topic 0 [0]) voted_by_alice.

Definition dao_succeeds (o : Origin) (call : DaoCall) (e : DEnv (Chain Z)) : bool :=
  is_ok (dao_dispatch o call e).

Lemma dao_history h h' o call e :
  history h e → default 0 (store e).(TopicCount) < U64_MAX → dao_succeeds o call e = true →
  h ++ cast o call e = h' → history h' (dao_after o call e).
Proof.
  intros Hh Hn Hs <-. eapply history_call; [done|done|]. unfold dao_succeeds in Hs.
  unfold dao_after, committed. by destruct (dao_dispatch o call e) as [[[] e']|].
Qed.

Ltac dao_run h := apply (dao_history h); [|by vm_compute|stored|stored].

Definition ballots : list Ballot :=
  [mkBallot 0 alice [0] 50000000 (opening + ONE_HOUR); mkBallot 0 bob [0] 3000000 (opening + ONE_HOUR)].

Lemma both_history : history ballots voted_by_both.
Proof.
  dao_run [mkBallot 0 alice [0] 50000000 (opening + ONE_HOUR)]. dao_run (@nil Ballot).
  apply history_world. do 3 dao_run (@nil Ballot). apply history_genesis.
Qed.

Lemma tally_counts_ballots_witness : (store voted_by_both).(BallotBox) !! (0, 0) = Some 53000000.
Proof.
  destruct (tally_counts_ballots ballots voted_by_both both_history) as [Hbox _].
  rewrite Hbox. stored.
Defined.

Lemma dao_never_panics_witness :
  dao_dispatch (Signed carol) (Vote_topic 0 []) voted_by_both ≠ Err (Panics "options is not empty").
Proof. exact (dao_never_panics ballots voted_by_both _ _ _ both_history). Defined.

Lemma raised_topic_read_back_witness :
  ∃ d, get_topic_by_id 0 (store asked) = Some d ∧ d.(raiser) = alice.
Proof.
  destruct (raised_topic_read_back alice [113] [100] (opening + ONE_HOUR)
    (opening + ONE_HOUR + THREE_HOURS) [[121; 101; 115]; [110; 111]] 1 dao_start asked) as [Hg _].
  - by vm_compute.
  - by vm_compute.
  - stored.
  - eexists. split; [exact Hg|reflexivity].
Defined.

(** ** A limit of the votes *)

(** Nobody but the signer of [issue_voting_right_token] decides the weight of a
    vote: with equal balances bob and carol get weights that differ by a factor
    of ten thousand, from an account that did not raise the topic. *)
Definition unequal : DEnv (Chain Z) :=
  dao_after (Signed carol) (Issue_voting_right_token 0 [bob] (Some 1))
    (dao_after (Signed carol) (Issue_voting_right_token 0 [carol] (Some 10000)) asked).

Lemma anyone_sets_weights :
  Dao.total_balance bob (world asked) = Dao.total_balance carol (world asked) ∧
  (store unequal).(VotingRightTokenCollection) !! (0, bob) = Some 3000000 ∧
  (store unequal).(VotingRightTokenCollection) !! (0, carol) = Some 30000000000.
Proof. split; [stored|]. split; stored. Qed.
