(* ===== verification/HostConfig.v ===== *)
(** * The configuration of the relay chain's parachains host

    The parameters of the root chain as a relay chain: [HostConfiguration] of
    src/polkadot/runtime/parachains/src/configuration.rs with what it is made
    of, its default and its [check_consistency].  A block number, a session
    index and a balance are integers; a bit vector is a list of booleans. *)

From S2P Require Import Prelude Arith.

(** ** Constants *)

Definition MAX_CODE_SIZE : Z := 3 * 1024 * 1024.
Definition MAX_HEAD_DATA_SIZE : Z := 1 * 1024 * 1024.
Definition MAX_POV_SIZE : Z := 5 * 1024 * 1024.
Definition ON_DEMAND_DEFAULT_QUEUE_MAX_SIZE : Z := 10000.
Definition ON_DEMAND_MAX_QUEUE_MAX_SIZE : Z := 1000000000.
Definition LEGACY_MIN_BACKING_VOTES : Z := 2.
Definition MAX_HORIZONTAL_MESSAGE_NUM : Z := 16 * 1024.
Definition MAX_UPWARD_MESSAGE_NUM : Z := 16 * 1024.
Definition MAX_UPWARD_MESSAGE_SIZE_BOUND : Z := 128 * 1024.
Definition HRMP_MAX_INBOUND_CHANNELS_BOUND : Z := 128.
Definition HRMP_MAX_OUTBOUND_CHANNELS_BOUND : Z := 128.
Definition SESSION_DELAY : Z := 2.

(** [Perbill::from_percent], in parts per billion, of at most a hundred. *)
Definition Perbill_from_percent (x : Z) : Z := 10000000 * x.

(** ** The parameters of the executor *)

Inductive PvfPrepKind := Precheck | Prepare.
Inductive PvfExecKind := Backing | Approval.

Inductive ExecutorParam :=
| MaxMemoryPages (val : Z)
| StackLogicalMax (val : Z)
| StackNativeMax (val : Z)
| PrecheckingMaxMemory (val : Z)
| PvfPrepTimeout (kind : PvfPrepKind) (val : Z)
| PvfExecTimeout (kind : PvfExecKind) (val : Z)
| WasmExtBulkMemory.

Inductive ExecutorParamError :=
| DuplicatedParam (param : string)
| OutsideLimit (param : string)
| IncompatibleValues (param param' : string).

Definition ExecutorParams : Type := list ExecutorParam.

Definition DEFAULT_LOGICAL_STACK_MAX : Z := 65536.
Definition DEFAULT_NATIVE_STACK_MAX : Z := 256 * 1024 * 1024.
Definition MEMORY_PAGES_MAX : Z := 65536.
Definition LOGICAL_MAX_LO : Z := 1024.
Definition LOGICAL_MAX_HI : Z := 2 * 65536.
Definition PRECHECK_MEM_MAX_LO : Z := 256 * 1024 * 1024.
Definition PRECHECK_MEM_MAX_HI : Z := 16 * 1024 * 1024 * 1024.
Definition DEFAULT_PRECHECK_PREPARATION_TIMEOUT_MS : Z := 60 * 1000.
Definition DEFAULT_LENIENT_PREPARATION_TIMEOUT_MS : Z := 360 * 1000.
Definition DEFAULT_BACKING_EXECUTION_TIMEOUT_MS : Z := 2 * 1000.
Definition DEFAULT_APPROVAL_EXECUTION_TIMEOUT_MS : Z := 12 * 1000.

Definition param_ident (param : ExecutorParam) : string :=
  match param with
  | MaxMemoryPages _ => "MaxMemoryPages"
  | StackLogicalMax _ => "StackLogicalMax"
  | StackNativeMax _ => "StackNativeMax"
  | PrecheckingMaxMemory _ => "PrecheckingMaxMemory"
  | PvfPrepTimeout Precheck _ => "PvfPrepKind::Precheck"
  | PvfPrepTimeout Prepare _ => "PvfPrepKind::Prepare"
  | PvfExecTimeout Backing _ => "PvfExecKind::Backing"
  | PvfExecTimeout Approval _ => "PvfExecKind::Approval"
  | WasmExtBulkMemory => "WasmExtBulkMemory"
  end%string.

(** The value the macro [check!] notes, and whether it is out of its limits. *)
Definition param_value (param : ExecutorParam) : Z * bool :=
  match param with
  | MaxMemoryPages val => (val, (val =? 0) || (MEMORY_PAGES_MAX <? val))
  | StackLogicalMax val => (val, (val <? LOGICAL_MAX_LO) || (LOGICAL_MAX_HI <? val))
  | StackNativeMax val => (val, false)
  | PrecheckingMaxMemory val => (val, (val <? PRECHECK_MEM_MAX_LO) || (PRECHECK_MEM_MAX_HI <? val))
  | PvfPrepTimeout _ val => (val, false)
  | PvfExecTimeout _ val => (val, false)
  | WasmExtBulkMemory => (1, false)
  end.

(** The loop of [ExecutorParams::check_consistency]. *)
Fixpoint check_params (seen : gmap string Z) (params : ExecutorParams)
    : result ExecutorParamError (gmap string Z) :=
  match params with
  | [] => Ok seen
  | param :: params =>
      let ident := param_ident param in
      if bool_decide (is_Some (seen !! ident)) then Err (DuplicatedParam ident)
      else if (param_value param).2 then Err (OutsideLimit ident)
      else check_params (<[ident := (param_value param).1]> seen) params
  end.

Definition params_check_consistency (params : ExecutorParams) : result ExecutorParamError unit :=
  match check_params ∅ params with
  | Err e => Err e
  | Ok seen =>
      let get name default := from_option id default (seen !! name) in
      let lm := get "StackLogicalMax"%string DEFAULT_LOGICAL_STACK_MAX in
      let nm := get "StackNativeMax"%string DEFAULT_NATIVE_STACK_MAX in
      let precheck := get "PvfPrepKind::Precheck"%string DEFAULT_PRECHECK_PREPARATION_TIMEOUT_MS in
      let lenient := get "PvfPrepKind::Prepare"%string DEFAULT_LENIENT_PREPARATION_TIMEOUT_MS in
      let backing := get "PvfExecKind::Backing"%string DEFAULT_BACKING_EXECUTION_TIMEOUT_MS in
      let approval := get "PvfExecKind::Approval"%string DEFAULT_APPROVAL_EXECUTION_TIMEOUT_MS in
      if nm <? wrap U64_MAX (128 * lm) then Err (IncompatibleValues "StackLogicalMax" "StackNativeMax")
      else if lenient <=? precheck
      then Err (IncompatibleValues "PvfPrepKind::Precheck" "PvfPrepKind::Prepare")
      else if approval <=? backing
      then Err (IncompatibleValues "PvfExecKind::Backing" "PvfExecKind::Approval")
      else Ok tt
  end.

(** ** The configuration *)

Record AsyncBackingParams := mkAsyncBackingParams {
  max_candidate_depth : Z;
  allowed_ancestry_len : Z;
}.

Record ApprovalVotingParams := mkApprovalVotingParams {
  max_approval_coalesce_count : Z;
}.

Definition NodeFeatures : Type := list bool.

Record SchedulerParams := mkSchedulerParams {
  group_rotation_frequency : Z;
  paras_availability_period : Z;
  max_validators_per_core : option Z;
  lookahead : Z;
  num_cores : Z;
  max_availability_timeouts : Z;
  on_demand_queue_max_size : Z;
  on_demand_target_queue_utilization : Z;
  on_demand_fee_variability : Z;
  on_demand_base_fee : Z;
  ttl : Z;
}.

Definition default_SchedulerParams : SchedulerParams := {|
  group_rotation_frequency := 1;
  paras_availability_period := 1;
  max_validators_per_core := None;
  lookahead := 1;
  num_cores := 0;
  max_availability_timeouts := 0;
  on_demand_queue_max_size := ON_DEMAND_DEFAULT_QUEUE_MAX_SIZE;
  on_demand_target_queue_utilization := Perbill_from_percent 25;
  on_demand_fee_variability := Perbill_from_percent 3;
  on_demand_base_fee := 10000000;
  ttl := 5;
|}.

Record HostConfiguration := mkHostConfiguration {
  max_code_size : Z;
  max_head_data_size : Z;
  max_upward_queue_count : Z;
  max_upward_queue_size : Z;
  max_upward_message_size : Z;
  max_upward_message_num_per_candidate : Z;
  hrmp_max_message_num_per_candidate : Z;
  validation_upgrade_cooldown : Z;
  validation_upgrade_delay : Z;
  async_backing_params : AsyncBackingParams;
  max_pov_size : Z;
  max_downward_message_size : Z;
  hrmp_max_parachain_outbound_channels : Z;
  hrmp_sender_deposit : Z;
  hrmp_recipient_deposit : Z;
  hrmp_channel_max_capacity : Z;
  hrmp_channel_max_total_size : Z;
  hrmp_max_parachain_inbound_channels : Z;
  hrmp_channel_max_message_size : Z;
  executor_params : ExecutorParams;
  code_retention_period : Z;
  max_validators : option Z;
  dispute_period : Z;
  dispute_post_conclusion_acceptance_period : Z;
  no_show_slots : Z;
  n_delay_tranches : Z;
  zeroth_delay_tranche_width : Z;
  needed_approvals : Z;
  relay_vrf_modulo_samples : Z;
  pvf_voting_ttl : Z;
  minimum_validation_upgrade_delay : Z;
  minimum_backing_votes : Z;
  node_features : NodeFeatures;
  approval_voting_params : ApprovalVotingParams;
  scheduler_params : SchedulerParams;
}.

Definition default_HostConfiguration : HostConfiguration := {|
  async_backing_params := mkAsyncBackingParams 0 0;
  no_show_slots := 1;
  validation_upgrade_cooldown := 0;
  validation_upgrade_delay := 2;
  code_retention_period := 0;
  max_code_size := MAX_CODE_SIZE;
  max_pov_size := 0;
  max_head_data_size := 0;
  max_validators := None;
  dispute_period := 6;
  dispute_post_conclusion_acceptance_period := 100;
  n_delay_tranches := 1;
  zeroth_delay_tranche_width := 0;
  needed_approvals := 0;
  relay_vrf_modulo_samples := 0;
  max_upward_queue_count := 0;
  max_upward_queue_size := 0;
  max_downward_message_size := 0;
  max_upward_message_size := 0;
  max_upward_message_num_per_candidate := 0;
  hrmp_sender_deposit := 0;
  hrmp_recipient_deposit := 0;
  hrmp_channel_max_capacity := 0;
  hrmp_channel_max_total_size := 0;
  hrmp_max_parachain_inbound_channels := 0;
  hrmp_channel_max_message_size := 0;
  hrmp_max_parachain_outbound_channels := 0;
  hrmp_max_message_num_per_candidate := 0;
  pvf_voting_ttl := 2;
  minimum_validation_upgrade_delay := 2;
  executor_params := [];
  approval_voting_params := mkApprovalVotingParams 1;
  minimum_backing_votes := LEGACY_MIN_BACKING_VOTES;
  node_features := [];
  scheduler_params := default_SchedulerParams;
|}.

(** ** The check *)

Inductive InconsistentError :=
| ZeroGroupRotationFrequency
| ZeroParasAvailabilityPeriod
| ZeroNoShowSlots
| MaxCodeSizeExceedHardLimit (max_code_size : Z)
| MaxHeadDataSizeExceedHardLimit (max_head_data_size : Z)
| MaxPovSizeExceedHardLimit (max_pov_size : Z)
| MinimumValidationUpgradeDelayLessThanChainAvailabilityPeriod
    (minimum_validation_upgrade_delay paras_availability_period : Z)
| ValidationUpgradeDelayIsTooLow (validation_upgrade_delay : Z)
| MaxUpwardMessageSizeExceeded (max_message_size : Z)
| MaxHorizontalMessageNumExceeded (max_message_num : Z)
| MaxUpwardMessageNumExceeded (max_message_num : Z)
| MaxHrmpOutboundChannelsExceeded
| MaxHrmpInboundChannelsExceeded
| ZeroMinimumBackingVotes
| InconsistentExecutorParams (inner : ExecutorParamError)
| LookaheadExceedsTTL
| OnDemandQueueSizeTooLarge
| ZeroDelayTranches.

Definition check_consistency (c : HostConfiguration) : result InconsistentError unit :=
  let p := c.(scheduler_params) in
  if p.(group_rotation_frequency) =? 0 then Err ZeroGroupRotationFrequency
  else if p.(paras_availability_period) =? 0 then Err ZeroParasAvailabilityPeriod
  else if c.(no_show_slots) =? 0 then Err ZeroNoShowSlots
  else if MAX_CODE_SIZE <? c.(max_code_size) then Err (MaxCodeSizeExceedHardLimit c.(max_code_size))
  else if MAX_HEAD_DATA_SIZE <? c.(max_head_data_size)
  then Err (MaxHeadDataSizeExceedHardLimit c.(max_head_data_size))
  else if MAX_POV_SIZE <? c.(max_pov_size) then Err (MaxPovSizeExceedHardLimit c.(max_pov_size))
  else if c.(minimum_validation_upgrade_delay) <=? p.(paras_availability_period)
  then Err (MinimumValidationUpgradeDelayLessThanChainAvailabilityPeriod
    c.(minimum_validation_upgrade_delay) p.(paras_availability_period))
  else if c.(validation_upgrade_delay) <=? 1
  then Err (ValidationUpgradeDelayIsTooLow c.(validation_upgrade_delay))
  else if MAX_UPWARD_MESSAGE_SIZE_BOUND <? c.(max_upward_message_size)
  then Err (MaxUpwardMessageSizeExceeded c.(max_upward_message_size))
  else if MAX_HORIZONTAL_MESSAGE_NUM <? c.(hrmp_max_message_num_per_candidate)
  then Err (MaxHorizontalMessageNumExceeded c.(hrmp_max_message_num_per_candidate))
  else if MAX_UPWARD_MESSAGE_NUM <? c.(max_upward_message_num_per_candidate)
  then Err (MaxUpwardMessageNumExceeded c.(max_upward_message_num_per_candidate))
  else if HRMP_MAX_OUTBOUND_CHANNELS_BOUND <? c.(hrmp_max_parachain_outbound_channels)
  then Err MaxHrmpOutboundChannelsExceeded
  else if HRMP_MAX_INBOUND_CHANNELS_BOUND <? c.(hrmp_max_parachain_inbound_channels)
  then Err MaxHrmpInboundChannelsExceeded
  else if c.(minimum_backing_votes) =? 0 then Err ZeroMinimumBackingVotes
  else match params_check_consistency c.(executor_params) with
  | Err inner => Err (InconsistentExecutorParams inner)
  | Ok _ =>
      if p.(ttl) <? p.(lookahead) then Err LookaheadExceedsTTL
      else if ON_DEMAND_MAX_QUEUE_MAX_SIZE <? p.(on_demand_queue_max_size)
      then Err OnDemandQueueSizeTooLarge
      else if c.(n_delay_tranches) =? 0 then Err ZeroDelayTranches
      else Ok tt
  end.

(** What the check asks for, item by item. *)
Record consistent (c : HostConfiguration) : Prop := {
  co_rotation : c.(scheduler_params).(group_rotation_frequency) ≠ 0;
  co_availability : c.(scheduler_params).(paras_availability_period) ≠ 0;
  co_no_show : c.(no_show_slots) ≠ 0;
  co_code : c.(max_code_size) ≤ MAX_CODE_SIZE;
  co_head : c.(max_head_data_size) ≤ MAX_HEAD_DATA_SIZE;
  co_pov : c.(max_pov_size) ≤ MAX_POV_SIZE;
  co_minimum_delay :
    c.(scheduler_params).(paras_availability_period) < c.(minimum_validation_upgrade_delay);
  co_delay : 1 < c.(validation_upgrade_delay);
  co_upward_size : c.(max_upward_message_size) ≤ MAX_UPWARD_MESSAGE_SIZE_BOUND;
  co_horizontal_num : c.(hrmp_max_message_num_per_candidate) ≤ MAX_HORIZONTAL_MESSAGE_NUM;
  co_upward_num : c.(max_upward_message_num_per_candidate) ≤ MAX_UPWARD_MESSAGE_NUM;
  co_outbound : c.(hrmp_max_parachain_outbound_channels) ≤ HRMP_MAX_OUTBOUND_CHANNELS_BOUND;
  co_inbound : c.(hrmp_max_parachain_inbound_channels) ≤ HRMP_MAX_INBOUND_CHANNELS_BOUND;
  co_votes : c.(minimum_backing_votes) ≠ 0;
  co_executor : params_check_consistency c.(executor_params) = Ok tt;
  co_lookahead : c.(scheduler_params).(lookahead) ≤ c.(scheduler_params).(ttl);
  co_queue : c.(scheduler_params).(on_demand_queue_max_size) ≤ ON_DEMAND_MAX_QUEUE_MAX_SIZE;
  co_tranches : c.(n_delay_tranches) ≠ 0;
}.

Lemma check_consistency_spec c : check_consistency c = Ok tt ↔ consistent c.
Proof.
  unfold check_consistency. split.
  - intros H.
    repeat match type of H with
    | (if ?b then _ else _) = _ => destruct b eqn:?; [done|]
    | match ?r with _ => _ end = _ => destruct r as [[]|] eqn:?; [|done]
    end.
    bool_facts. by split.
  - intros [].
    repeat match goal with
    | |- (if Z.eqb ?x ?y then _ else _) = _ => destruct (Z.eqb_spec x y); [done|]
    | |- (if Z.ltb ?x ?y then _ else _) = _ => destruct (Z.ltb_spec x y); [lia|]
    | |- (if Z.leb ?x ?y then _ else _) = _ => destruct (Z.leb_spec x y); [lia|]
    | H : ?r = Ok tt |- match ?r with _ => _ end = _ => rewrite H
    end.
    done.
Qed.
