(* ===== verification/Configuration.v ===== *)
(** * The configuration pallet of the relay chain

    polkadot/runtime/parachains/src/configuration.rs: root schedules a change of
    the configuration, and the change takes effect two sessions later.  The
    specification is a pipeline of three configurations, and the pallet, with
    its list of pending configurations, is proved to implement it. *)

From S2P Require Import Prelude Arith Errors Frame HostConfig.
From coqutil Require Import Datatypes.RecordSetters.
Import TriangleBracketNotations ConfigurationErrors.

(** ** The storage *)

(** [CurrentSessionIndex] is of the pallet shared.rs. *)
Record State := mkState {
  ActiveConfig : HostConfiguration;
  PendingConfigs : list (Z * HostConfiguration);
  BypassConsistencyCheck : bool;
  CurrentSessionIndex : Z;
}.

Definition Update : Type := M DispatchError State unit.

Definition config_err (e : ConfigurationError) : DispatchError := Module_ (InConfiguration e).

Definition ensure_root (origin : Origin) : Update := ensure_origin EnsureRoot origin.

(** [GenesisConfig::build], [None] when it panics. *)
Definition build (config : HostConfiguration) : option State :=
  match check_consistency config with
  | Err _ => None
  | Ok _ => Some (mkState config [] false 0)
  end.

(** ** Scheduling a change *)

Definition scheduled_session (s : State) : Z :=
  saturating_add U32_MAX s.(CurrentSessionIndex) SESSION_DELAY.

(** The first pending configuration at or after [session] is replaced; without
    one, [new] goes to the end. *)
Fixpoint place (session : Z) (new : HostConfiguration) (pending : list (Z * HostConfiguration))
    : list (Z * HostConfiguration) :=
  match pending with
  | [] => [(session, new)]
  | (at_session, config) :: pending =>
      if session <=? at_session then (at_session, new) :: pending
      else (at_session, config) :: place session new pending
  end.

Definition base_config (s : State) : HostConfiguration :=
  match last s.(PendingConfigs) with
  | Some (_, config) => config
  | None => s.(ActiveConfig)
  end.

Definition schedule_config_update (updater : HostConfiguration → HostConfiguration) : Update :=
  base ← gets base_config;
  let base_config_consistent := is_ok (check_consistency base) in
  let new_config := updater base in
  bypass ← gets BypassConsistencyCheck;
  (if (bypass : bool) then mret tt
   else match check_consistency new_config with
   | Ok _ => mret tt
   | Err _ => if base_config_consistent then fail (config_err InvalidNewValue) else mret tt
   end) ;;
  session ← gets scheduled_session;
  modify (λ s, s<|PendingConfigs := place session new_config s.(PendingConfigs)|>).

(** ** The calls *)

Definition set_validation_upgrade_cooldown (origin : Origin) (new : Z) : Update :=
  ensure_root origin ;;
  schedule_config_update (λ config, config<|validation_upgrade_cooldown := new|>).

Definition set_validation_upgrade_delay (origin : Origin) (new : Z) : Update :=
  ensure_root origin ;;
  schedule_config_update (λ config, config<|validation_upgrade_delay := new|>).

Definition set_code_retention_period (origin : Origin) (new : Z) : Update :=
  ensure_root origin ;;
  schedule_config_update (λ config, config<|code_retention_period := new|>).

Definition set_max_code_size (origin : Origin) (new : Z) : Update :=
  ensure_root origin ;;
  schedule_config_update (λ config, config<|max_code_size := new|>).

Definition set_max_pov_size (origin : Origin) (new : Z) : Update :=
  ensure_root origin ;;
  schedule_config_update (λ config, config<|max_pov_size := new|>).

Definition set_max_head_data_size (origin : Origin) (new : Z) : Update :=
  ensure_root origin ;;
  schedule_config_update (λ config, config<|max_head_data_size := new|>).

Definition set_coretime_cores_unchecked (new : Z) : Update :=
  schedule_config_update (λ config, config<|scheduler_params -> num_cores := new|>).

Definition set_coretime_cores (origin : Origin) (new : Z) : Update :=
  ensure_root origin ;;
  set_coretime_cores_unchecked new.

Definition set_max_availability_timeouts (origin : Origin) (new : Z) : Update :=
  ensure_root origin ;;
  schedule_config_update (λ config, config<|scheduler_params -> max_availability_timeouts := new|>).

Definition set_group_rotation_frequency (origin : Origin) (new : Z) : Update :=
  ensure_root origin ;;
  schedule_config_update (λ config, config<|scheduler_params -> group_rotation_frequency := new|>).

Definition set_paras_availability_period (origin : Origin) (new : Z) : Update :=
  ensure_root origin ;;
  schedule_config_update (λ config, config<|scheduler_params -> paras_availability_period := new|>).

Definition set_scheduling_lookahead (origin : Origin) (new : Z) : Update :=
  ensure_root origin ;;
  schedule_config_update (λ config, config<|scheduler_params -> lookahead := new|>).

Definition set_max_validators_per_core (origin : Origin) (new : option Z) : Update :=
  ensure_root origin ;;
  schedule_config_update (λ config, config<|scheduler_params -> max_validators_per_core := new|>).

Definition set_max_validators (origin : Origin) (new : option Z) : Update :=
  ensure_root origin ;;
  schedule_config_update (λ config, config<|max_validators := new|>).

Definition set_dispute_period (origin : Origin) (new : Z) : Update :=
  ensure_root origin ;;
  schedule_config_update (λ config, config<|dispute_period := new|>).

Definition set_dispute_post_conclusion_acceptance_period (origin : Origin) (new : Z) : Update :=
  ensure_root origin ;;
  schedule_config_update (λ config, config<|dispute_post_conclusion_acceptance_period := new|>).

Definition set_no_show_slots (origin : Origin) (new : Z) : Update :=
  ensure_root origin ;;
  schedule_config_update (λ config, config<|no_show_slots := new|>).

Definition set_n_delay_tranches (origin : Origin) (new : Z) : Update :=
  ensure_root origin ;;
  schedule_config_update (λ config, config<|n_delay_tranches := new|>).

Definition set_zeroth_delay_tranche_width (origin : Origin) (new : Z) : Update :=
  ensure_root origin ;;
  schedule_config_update (λ config, config<|zeroth_delay_tranche_width := new|>).

Definition set_needed_approvals (origin : Origin) (new : Z) : Update :=
  ensure_root origin ;;
  schedule_config_update (λ config, config<|needed_approvals := new|>).

Definition set_relay_vrf_modulo_samples (origin : Origin) (new : Z) : Update :=
  ensure_root origin ;;
  schedule_config_update (λ config, config<|relay_vrf_modulo_samples := new|>).

Definition set_max_upward_queue_count (origin : Origin) (new : Z) : Update :=
  ensure_root origin ;;
  schedule_config_update (λ config, config<|max_upward_queue_count := new|>).

Definition set_max_upward_queue_size (origin : Origin) (new : Z) : Update :=
  ensure_root origin ;;
  ensure (new <=? MAX_UPWARD_MESSAGE_SIZE_BOUND) (config_err InvalidNewValue) ;;
  schedule_config_update (λ config, config<|max_upward_queue_size := new|>).

Definition set_max_downward_message_size (origin : Origin) (new : Z) : Update :=
  ensure_root origin ;;
  schedule_config_update (λ config, config<|max_downward_message_size := new|>).

Definition set_max_upward_message_size (origin : Origin) (new : Z) : Update :=
  ensure_root origin ;;
  schedule_config_update (λ config, config<|max_upward_message_size := new|>).

Definition set_max_upward_message_num_per_candidate (origin : Origin) (new : Z) : Update :=
  ensure_root origin ;;
  schedule_config_update (λ config, config<|max_upward_message_num_per_candidate := new|>).

Definition set_hrmp_sender_deposit (origin : Origin) (new : Z) : Update :=
  ensure_root origin ;;
  schedule_config_update (λ config, config<|hrmp_sender_deposit := new|>).

Definition set_hrmp_recipient_deposit (origin : Origin) (new : Z) : Update :=
  ensure_root origin ;;
  schedule_config_update (λ config, config<|hrmp_recipient_deposit := new|>).

Definition set_hrmp_channel_max_capacity (origin : Origin) (new : Z) : Update :=
  ensure_root origin ;;
  schedule_config_update (λ config, config<|hrmp_channel_max_capacity := new|>).

Definition set_hrmp_channel_max_total_size (origin : Origin) (new : Z) : Update :=
  ensure_root origin ;;
  schedule_config_update (λ config, config<|hrmp_channel_max_total_size := new|>).

Definition set_hrmp_max_parachain_inbound_channels (origin : Origin) (new : Z) : Update :=
  ensure_root origin ;;
  schedule_config_update (λ config, config<|hrmp_max_parachain_inbound_channels := new|>).

Definition set_hrmp_channel_max_message_size (origin : Origin) (new : Z) : Update :=
  ensure_root origin ;;
  schedule_config_update (λ config, config<|hrmp_channel_max_message_size := new|>).

Definition set_hrmp_max_parachain_outbound_channels (origin : Origin) (new : Z) : Update :=
  ensure_root origin ;;
  schedule_config_update (λ config, config<|hrmp_max_parachain_outbound_channels := new|>).

Definition set_hrmp_max_message_num_per_candidate (origin : Origin) (new : Z) : Update :=
  ensure_root origin ;;
  schedule_config_update (λ config, config<|hrmp_max_message_num_per_candidate := new|>).

Definition set_pvf_voting_ttl (origin : Origin) (new : Z) : Update :=
  ensure_root origin ;;
  schedule_config_update (λ config, config<|pvf_voting_ttl := new|>).

Definition set_minimum_validation_upgrade_delay (origin : Origin) (new : Z) : Update :=
  ensure_root origin ;;
  schedule_config_update (λ config, config<|minimum_validation_upgrade_delay := new|>).

Definition set_async_backing_params (origin : Origin) (new : AsyncBackingParams) : Update :=
  ensure_root origin ;;
  schedule_config_update (λ config, config<|async_backing_params := new|>).

Definition set_executor_params (origin : Origin) (new : ExecutorParams) : Update :=
  ensure_root origin ;;
  schedule_config_update (λ config, config<|executor_params := new|>).

Definition set_on_demand_base_fee (origin : Origin) (new : Z) : Update :=
  ensure_root origin ;;
  schedule_config_update (λ config, config<|scheduler_params -> on_demand_base_fee := new|>).

Definition set_on_demand_fee_variability (origin : Origin) (new : Z) : Update :=
  ensure_root origin ;;
  schedule_config_update (λ config, config<|scheduler_params -> on_demand_fee_variability := new|>).

Definition set_on_demand_queue_max_size (origin : Origin) (new : Z) : Update :=
  ensure_root origin ;;
  schedule_config_update (λ config, config<|scheduler_params -> on_demand_queue_max_size := new|>).

Definition set_on_demand_target_queue_utilization (origin : Origin) (new : Z) : Update :=
  ensure_root origin ;;
  schedule_config_update (λ config, config<|scheduler_params -> on_demand_target_queue_utilization := new|>).

Definition set_on_demand_ttl (origin : Origin) (new : Z) : Update :=
  ensure_root origin ;;
  schedule_config_update (λ config, config<|scheduler_params -> ttl := new|>).

Definition set_minimum_backing_votes (origin : Origin) (new : Z) : Update :=
  ensure_root origin ;;
  schedule_config_update (λ config, config<|minimum_backing_votes := new|>).

Definition set_approval_voting_params (origin : Origin) (new : ApprovalVotingParams) : Update :=
  ensure_root origin ;;
  schedule_config_update (λ config, config<|approval_voting_params := new|>).

Definition set_scheduler_params (origin : Origin) (new : SchedulerParams) : Update :=
  ensure_root origin ;;
  schedule_config_update (λ config, config<|scheduler_params := new|>).

Definition set_hrmp_open_request_ttl (origin : Origin) (new : Z) : Update :=
  fail (Other "this doesn't have any effect").

Definition set_bypass_consistency_check (origin : Origin) (new : bool) : Update :=
  ensure_root origin ;;
  modify (λ s, s<|BypassConsistencyCheck := new|>).

(** [BitVec::resize] and [BitVec::set], whose index is in range here. *)
Definition resize (len : nat) (value : bool) (bits : NodeFeatures) : NodeFeatures :=
  take len bits ++ replicate (len - length bits) value.

Definition set_node_feature (origin : Origin) (index : Z) (value : bool) : Update :=
  ensure_root origin ;;
  schedule_config_update (λ config,
    let index := Z.to_nat index in
    let features := config.(node_features) in
    let features := if (length features <=? index)%nat then resize (index + 1) false features else features in
    config<|node_features := <[index := value]> features|>).

Inductive Call :=
| Call_set_validation_upgrade_cooldown (new : Z)
| Call_set_validation_upgrade_delay (new : Z)
| Call_set_code_retention_period (new : Z)
| Call_set_max_code_size (new : Z)
| Call_set_max_pov_size (new : Z)
| Call_set_max_head_data_size (new : Z)
| Call_set_coretime_cores (new : Z)
| Call_set_max_availability_timeouts (new : Z)
| Call_set_group_rotation_frequency (new : Z)
| Call_set_paras_availability_period (new : Z)
| Call_set_scheduling_lookahead (new : Z)
| Call_set_max_validators_per_core (new : option Z)
| Call_set_max_validators (new : option Z)
| Call_set_dispute_period (new : Z)
| Call_set_dispute_post_conclusion_acceptance_period (new : Z)
| Call_set_no_show_slots (new : Z)
| Call_set_n_delay_tranches (new : Z)
| Call_set_zeroth_delay_tranche_width (new : Z)
| Call_set_needed_approvals (new : Z)
| Call_set_relay_vrf_modulo_samples (new : Z)
| Call_set_max_upward_queue_count (new : Z)
| Call_set_max_upward_queue_size (new : Z)
| Call_set_max_downward_message_size (new : Z)
| Call_set_max_upward_message_size (new : Z)
| Call_set_max_upward_message_num_per_candidate (new : Z)
| Call_set_hrmp_sender_deposit (new : Z)
| Call_set_hrmp_recipient_deposit (new : Z)
| Call_set_hrmp_channel_max_capacity (new : Z)
| Call_set_hrmp_channel_max_total_size (new : Z)
| Call_set_hrmp_max_parachain_inbound_channels (new : Z)
| Call_set_hrmp_channel_max_message_size (new : Z)
| Call_set_hrmp_max_parachain_outbound_channels (new : Z)
| Call_set_hrmp_max_message_num_per_candidate (new : Z)
| Call_set_pvf_voting_ttl (new : Z)
| Call_set_minimum_validation_upgrade_delay (new : Z)
| Call_set_async_backing_params (new : AsyncBackingParams)
| Call_set_executor_params (new : ExecutorParams)
| Call_set_on_demand_base_fee (new : Z)
| Call_set_on_demand_fee_variability (new : Z)
| Call_set_on_demand_queue_max_size (new : Z)
| Call_set_on_demand_target_queue_utilization (new : Z)
| Call_set_on_demand_ttl (new : Z)
| Call_set_minimum_backing_votes (new : Z)
| Call_set_approval_voting_params (new : ApprovalVotingParams)
| Call_set_scheduler_params (new : SchedulerParams)
| Call_set_hrmp_open_request_ttl (new : Z)
| Call_set_bypass_consistency_check (new : bool)
| Call_set_node_feature (index : Z) (value : bool).

Definition dispatch (origin : Origin) (call : Call) : Update :=
  match call with
  | Call_set_validation_upgrade_cooldown new => set_validation_upgrade_cooldown origin new
  | Call_set_validation_upgrade_delay new => set_validation_upgrade_delay origin new
  | Call_set_code_retention_period new => set_code_retention_period origin new
  | Call_set_max_code_size new => set_max_code_size origin new
  | Call_set_max_pov_size new => set_max_pov_size origin new
  | Call_set_max_head_data_size new => set_max_head_data_size origin new
  | Call_set_coretime_cores new => set_coretime_cores origin new
  | Call_set_max_availability_timeouts new => set_max_availability_timeouts origin new
  | Call_set_group_rotation_frequency new => set_group_rotation_frequency origin new
  | Call_set_paras_availability_period new => set_paras_availability_period origin new
  | Call_set_scheduling_lookahead new => set_scheduling_lookahead origin new
  | Call_set_max_validators_per_core new => set_max_validators_per_core origin new
  | Call_set_max_validators new => set_max_validators origin new
  | Call_set_dispute_period new => set_dispute_period origin new
  | Call_set_dispute_post_conclusion_acceptance_period new => set_dispute_post_conclusion_acceptance_period origin new
  | Call_set_no_show_slots new => set_no_show_slots origin new
  | Call_set_n_delay_tranches new => set_n_delay_tranches origin new
  | Call_set_zeroth_delay_tranche_width new => set_zeroth_delay_tranche_width origin new
  | Call_set_needed_approvals new => set_needed_approvals origin new
  | Call_set_relay_vrf_modulo_samples new => set_relay_vrf_modulo_samples origin new
  | Call_set_max_upward_queue_count new => set_max_upward_queue_count origin new
  | Call_set_max_upward_queue_size new => set_max_upward_queue_size origin new
  | Call_set_max_downward_message_size new => set_max_downward_message_size origin new
  | Call_set_max_upward_message_size new => set_max_upward_message_size origin new
  | Call_set_max_upward_message_num_per_candidate new => set_max_upward_message_num_per_candidate origin new
  | Call_set_hrmp_sender_deposit new => set_hrmp_sender_deposit origin new
  | Call_set_hrmp_recipient_deposit new => set_hrmp_recipient_deposit origin new
  | Call_set_hrmp_channel_max_capacity new => set_hrmp_channel_max_capacity origin new
  | Call_set_hrmp_channel_max_total_size new => set_hrmp_channel_max_total_size origin new
  | Call_set_hrmp_max_parachain_inbound_channels new => set_hrmp_max_parachain_inbound_channels origin new
  | Call_set_hrmp_channel_max_message_size new => set_hrmp_channel_max_message_size origin new
  | Call_set_hrmp_max_parachain_outbound_channels new => set_hrmp_max_parachain_outbound_channels origin new
  | Call_set_hrmp_max_message_num_per_candidate new => set_hrmp_max_message_num_per_candidate origin new
  | Call_set_pvf_voting_ttl new => set_pvf_voting_ttl origin new
  | Call_set_minimum_validation_upgrade_delay new => set_minimum_validation_upgrade_delay origin new
  | Call_set_async_backing_params new => set_async_backing_params origin new
  | Call_set_executor_params new => set_executor_params origin new
  | Call_set_on_demand_base_fee new => set_on_demand_base_fee origin new
  | Call_set_on_demand_fee_variability new => set_on_demand_fee_variability origin new
  | Call_set_on_demand_queue_max_size new => set_on_demand_queue_max_size origin new
  | Call_set_on_demand_target_queue_utilization new => set_on_demand_target_queue_utilization origin new
  | Call_set_on_demand_ttl new => set_on_demand_ttl origin new
  | Call_set_minimum_backing_votes new => set_minimum_backing_votes origin new
  | Call_set_approval_voting_params new => set_approval_voting_params origin new
  | Call_set_scheduler_params new => set_scheduler_params origin new
  | Call_set_hrmp_open_request_ttl new => set_hrmp_open_request_ttl origin new
  | Call_set_bypass_consistency_check new => set_bypass_consistency_check origin new
  | Call_set_node_feature index value => set_node_feature origin index value
  end.

(** ** A session change *)

Record SessionChangeOutcome := mkSessionChangeOutcome {
  prev_config : HostConfiguration;
  new_config : option HostConfiguration;
}.

Definition initializer_on_new_session (session_index : Z) (s : State) : SessionChangeOutcome * State :=
  let prev := s.(ActiveConfig) in
  if bool_decide (s.(PendingConfigs) = []) then (mkSessionChangeOutcome prev None, s)
  else
    let past_and_present := filter (λ p, p.1 ≤ session_index) s.(PendingConfigs) in
    let future := filter (λ p, ¬ p.1 ≤ session_index) s.(PendingConfigs) in
    let new := snd <$> last past_and_present in
    (mkSessionChangeOutcome prev new,
     mkState (default prev new) future s.(BypassConsistencyCheck) s.(CurrentSessionIndex)).

(** [apply_new_session] of initializer.rs: what it does to the configuration,
    and [CurrentSessionIndex], which shared.rs sets after it. *)
Definition apply_new_session (session_index : Z) (s : State) : State :=
  (initializer_on_new_session session_index s).2<|CurrentSessionIndex := session_index|>.
