(* ===== verification/ConfigurationSpec.v ===== *)
(** * The configuration pallet as a pipeline

    What polkadot/runtime/parachains/src/configuration.rs promises: changes are
    applied to one configuration at once, and the configuration in force follows
    it at a distance of two sessions.  The pallet is proved to implement this. *)

From S2P Require Import Prelude Arith Errors Frame HostConfig Configuration.
From coqutil Require Import Datatypes.RecordSetters.
Import TriangleBracketNotations ConfigurationErrors.

(** ** The specification *)

(** The configuration in force, that of the next session, and the one all
    changes so far lead to. *)
Record Pipeline := mkPipeline {
  now : HostConfiguration;
  next : HostConfiguration;
  latest : HostConfiguration;
  bypass : bool;
}.

(** What a call asks for. *)
Definition requested (call : Call) (c : HostConfiguration) : HostConfiguration :=
  match call with
  | Call_set_validation_upgrade_cooldown new => c<|validation_upgrade_cooldown := new|>
  | Call_set_validation_upgrade_delay new => c<|validation_upgrade_delay := new|>
  | Call_set_code_retention_period new => c<|code_retention_period := new|>
  | Call_set_max_code_size new => c<|max_code_size := new|>
  | Call_set_max_pov_size new => c<|max_pov_size := new|>
  | Call_set_max_head_data_size new => c<|max_head_data_size := new|>
  | Call_set_coretime_cores new => c<|scheduler_params -> num_cores := new|>
  | Call_set_max_availability_timeouts new => c<|scheduler_params -> max_availability_timeouts := new|>
  | Call_set_group_rotation_frequency new => c<|scheduler_params -> group_rotation_frequency := new|>
  | Call_set_paras_availability_period new => c<|scheduler_params -> paras_availability_period := new|>
  | Call_set_scheduling_lookahead new => c<|scheduler_params -> lookahead := new|>
  | Call_set_max_validators_per_core new => c<|scheduler_params -> max_validators_per_core := new|>
  | Call_set_max_validators new => c<|max_validators := new|>
  | Call_set_dispute_period new => c<|dispute_period := new|>
  | Call_set_dispute_post_conclusion_acceptance_period new => c<|dispute_post_conclusion_acceptance_period := new|>
  | Call_set_no_show_slots new => c<|no_show_slots := new|>
  | Call_set_n_delay_tranches new => c<|n_delay_tranches := new|>
  | Call_set_zeroth_delay_tranche_width new => c<|zeroth_delay_tranche_width := new|>
  | Call_set_needed_approvals new => c<|needed_approvals := new|>
  | Call_set_relay_vrf_modulo_samples new => c<|relay_vrf_modulo_samples := new|>
  | Call_set_max_upward_queue_count new => c<|max_upward_queue_count := new|>
  | Call_set_max_upward_queue_size new => c<|max_upward_queue_size := new|>
  | Call_set_max_downward_message_size new => c<|max_downward_message_size := new|>
  | Call_set_max_upward_message_size new => c<|max_upward_message_size := new|>
  | Call_set_max_upward_message_num_per_candidate new => c<|max_upward_message_num_per_candidate := new|>
  | Call_set_hrmp_sender_deposit new => c<|hrmp_sender_deposit := new|>
  | Call_set_hrmp_recipient_deposit new => c<|hrmp_recipient_deposit := new|>
  | Call_set_hrmp_channel_max_capacity new => c<|hrmp_channel_max_capacity := new|>
  | Call_set_hrmp_channel_max_total_size new => c<|hrmp_channel_max_total_size := new|>
  | Call_set_hrmp_max_parachain_inbound_channels new => c<|hrmp_max_parachain_inbound_channels := new|>
  | Call_set_hrmp_channel_max_message_size new => c<|hrmp_channel_max_message_size := new|>
  | Call_set_hrmp_max_parachain_outbound_channels new => c<|hrmp_max_parachain_outbound_channels := new|>
  | Call_set_hrmp_max_message_num_per_candidate new => c<|hrmp_max_message_num_per_candidate := new|>
  | Call_set_pvf_voting_ttl new => c<|pvf_voting_ttl := new|>
  | Call_set_minimum_validation_upgrade_delay new => c<|minimum_validation_upgrade_delay := new|>
  | Call_set_async_backing_params new => c<|async_backing_params := new|>
  | Call_set_executor_params new => c<|executor_params := new|>
  | Call_set_on_demand_base_fee new => c<|scheduler_params -> on_demand_base_fee := new|>
  | Call_set_on_demand_fee_variability new => c<|scheduler_params -> on_demand_fee_variability := new|>
  | Call_set_on_demand_queue_max_size new => c<|scheduler_params -> on_demand_queue_max_size := new|>
  | Call_set_on_demand_target_queue_utilization new => c<|scheduler_params -> on_demand_target_queue_utilization := new|>
  | Call_set_on_demand_ttl new => c<|scheduler_params -> ttl := new|>
  | Call_set_minimum_backing_votes new => c<|minimum_backing_votes := new|>
  | Call_set_approval_voting_params new => c<|approval_voting_params := new|>
  | Call_set_scheduler_params new => c<|scheduler_params := new|>
  | Call_set_hrmp_open_request_ttl _ | Call_set_bypass_consistency_check _ => c
  | Call_set_node_feature index value =>
      let index := Z.to_nat index in
      c<|node_features := <[index := value]> (c.(node_features)
        ++ replicate (S index - length c.(node_features)) false)|>
  end.

(** A change is refused when it breaks a consistent configuration. *)
Definition change (f : HostConfiguration → HostConfiguration) (p : Pipeline)
    : result DispatchError Pipeline :=
  if p.(bypass) || is_ok (check_consistency (f p.(latest))) || negb (is_ok (check_consistency p.(latest)))
  then Ok p<|latest := f p.(latest)|>
  else Err (config_err InvalidNewValue).

Definition spec_call (origin : Origin) (call : Call) (p : Pipeline) : result DispatchError Pipeline :=
  match call with
  | Call_set_hrmp_open_request_ttl _ => Err (Other "this doesn't have any effect")
  | _ =>
      if negb (EnsureRoot origin) then Err BadOrigin
      else match call with
      | Call_set_bypass_consistency_check new => Ok p<|bypass := new|>
      | Call_set_max_upward_queue_size new =>
          if new <=? MAX_UPWARD_MESSAGE_SIZE_BOUND then change (requested call) p
          else Err (config_err InvalidNewValue)
      | _ => change (requested call) p
      end
  end.

Definition spec_session (p : Pipeline) : Pipeline :=
  p<|now := p.(next)|><|next := p.(latest)|>.

(** ** Runs *)

Inductive Op :=
| Do (origin : Origin) (call : Call)
| NewSession.

Definition step (s : State) (op : Op) : State :=
  match op with
  | Do origin call => committed (dispatch origin call) s
  | NewSession => apply_new_session (s.(CurrentSessionIndex) + 1) s
  end.

Definition spec_step (p : Pipeline) (op : Op) : Pipeline :=
  match op with
  | Do origin call => match spec_call origin call p with Ok p' => p' | Err _ => p end
  | NewSession => spec_session p
  end.

Definition run : list Op → State → State := flip (foldl step).
Definition spec_run : list Op → Pipeline → Pipeline := flip (foldl spec_step).

Fixpoint sessions (ops : list Op) : Z :=
  match ops with
  | [] => 0
  | NewSession :: ops => 1 + sessions ops
  | Do _ _ :: ops => sessions ops
  end.

(** ** The simulation *)

(** The list of pending configurations, from the one of the next session and
    the one of the session after it. *)
Definition entries (cur : Z) (a b : option HostConfiguration) : list (Z * HostConfiguration) :=
  from_option (λ c, [(cur + 1, c)]) [] a ++ from_option (λ c, [(cur + 2, c)]) [] b.

Definition refines (s : State) (p : Pipeline) : Prop :=
  ∃ a b, s.(PendingConfigs) = entries s.(CurrentSessionIndex) a b ∧
    p = mkPipeline s.(ActiveConfig) (default s.(ActiveConfig) a)
      (default (default s.(ActiveConfig) a) b) s.(BypassConsistencyCheck).

Lemma place_entries cur new a b : place (cur + 2) new (entries cur a b) = entries cur a (Some new).
Proof.
  destruct a, b; simpl; rewrite ?(proj2 (Z.leb_gt (cur + 2) (cur + 1))), ?Z.leb_refl by lia; done.
Qed.

Lemma due_entries cur a b :
  filter (λ p, p.1 ≤ cur + 1) (entries cur a b) = from_option (λ c, [(cur + 1, c)]) [] a ∧
  filter (λ p, ¬ p.1 ≤ cur + 1) (entries cur a b) = entries (cur + 1) b None.
Proof.
  unfold entries. replace (cur + 1 + 1) with (cur + 2) by lia.
  destruct a, b; simpl; rewrite ?filter_cons, ?filter_nil; simpl; repeat case_decide; try done; lia.
Qed.

Lemma base_config_latest s p : refines s p → base_config s = p.(latest).
Proof. intros (a & b & Hp & ->). unfold base_config. rewrite Hp. by destruct a, b. Qed.

Definition outcome {E A} (r : result E A) : result E unit :=
  match r with Ok _ => Ok tt | Err e => Err e end.

(** A call of the pallet and one of the specification agree: the same error, or
    states that correspond. *)
Definition agree (r : result DispatchError (unit * State)) (r' : result DispatchError Pipeline) : Prop :=
  match r, r' with
  | Ok (_, s), Ok p => refines s p
  | Err e, Err e' => e = e'
  | _, _ => False
  end.

Lemma schedule_agrees f s p :
  refines s p → s.(CurrentSessionIndex) + 2 ≤ U32_MAX → agree (schedule_config_update f s) (change f p).
Proof.
  intros Hr Hcur. pose proof (base_config_latest _ _ Hr) as Hbase.
  assert (scheduled_session s = s.(CurrentSessionIndex) + 2) as Hs.
  { unfold scheduled_session, saturating_add, SESSION_DELAY. lia. }
  destruct Hr as (a & b & Hp & ->).
  assert (refines (s<|PendingConfigs := place (scheduled_session s) (f (base_config s)) s.(PendingConfigs)|>)
    (mkPipeline s.(ActiveConfig) (default s.(ActiveConfig) a) (f (base_config s)) s.(BypassConsistencyCheck))).
  { exists a, (Some (f (base_config s))). rewrite Hs, Hp. by rewrite place_entries. }
  unfold schedule_config_update, change, mbind, M_bind. simpl in *. rewrite <- Hbase.
  destruct (BypassConsistencyCheck s); simpl; [done|].
  by destruct (check_consistency (f (base_config s))), (check_consistency (base_config s)).
Qed.

Lemma rooted_agrees origin m r s :
  agree (m s) r → agree ((ensure_root origin ;; m) s) (if negb (EnsureRoot origin) then Err BadOrigin else r).
Proof. unfold mbind, M_bind, ensure_root, ensure_origin. by destruct origin. Qed.

Lemma resize_features index (l : NodeFeatures) :
  (if (length l <=? index)%nat then resize (index + 1) false l else l)
  = l ++ replicate (S index - length l) false.
Proof.
  destruct (Nat.leb_spec (length l) index).
  - unfold resize. rewrite take_ge by lia. by replace (index + 1)%nat with (S index) by lia.
  - replace (S index - length l)%nat with 0%nat by lia. by rewrite app_nil_r.
Qed.

Lemma schedule_ext f g s :
  (∀ c, f c = g c) → schedule_config_update f s = schedule_config_update g s.
Proof. intros H. unfold schedule_config_update, mbind, M_bind. simpl. by rewrite H. Qed.

Lemma dispatch_agrees origin call s p :
  refines s p → s.(CurrentSessionIndex) + 2 ≤ U32_MAX →
  agree (dispatch origin call s) (spec_call origin call p).
Proof.
  intros Hr Hcur. pose proof (λ f, schedule_agrees f s p Hr Hcur) as Hsch.
  destruct call; try (apply rooted_agrees, Hsch); [|done|..].
  - apply rooted_agrees. unfold mbind, M_bind, ensure.
    destruct (new <=? MAX_UPWARD_MESSAGE_SIZE_BOUND); [apply Hsch|done].
  - apply rooted_agrees. destruct Hr as (a & b & Hp & ->). by exists a, b.
  - apply rooted_agrees. erewrite schedule_ext; [apply Hsch|].
    intros c. cbv zeta. by rewrite resize_features.
Qed.

Lemma session_refines s p :
  refines s p → refines (apply_new_session (s.(CurrentSessionIndex) + 1) s) (spec_session p).
Proof.
  intros (a & b & Hp & ->). unfold apply_new_session, initializer_on_new_session.
  destruct (due_entries s.(CurrentSessionIndex) a b) as [Hdue Hfut].
  case_bool_decide as Hnil; simpl.
  - exists None, None. rewrite Hp in *. by destruct a, b.
  - exists b, None. rewrite Hp, Hdue, Hfut. simpl. by destruct a.
Qed.

Lemma rooted_runs origin m s s' : s ⊢ (ensure_root origin ;; m) ⇝ s' → s ⊢ m ⇝ s'.
Proof. unfold mbind, M_bind, ensure_root, ensure_origin. by destruct origin. Qed.

Lemma dispatch_session origin call s s' :
  s ⊢ dispatch origin call ⇝ s' → s'.(CurrentSessionIndex) = s.(CurrentSessionIndex).
Proof.
  assert (∀ f s1 s2, s1 ⊢ schedule_config_update f ⇝ s2 → s2.(CurrentSessionIndex) = s1.(CurrentSessionIndex))
    as Hsch.
  { intros f s1 s2. unfold schedule_config_update, mbind, M_bind. simpl.
    destruct (BypassConsistencyCheck s1), (check_consistency (f (base_config s1))), (check_consistency (base_config s1));
      simpl; try done; by intros [= <-]. }
  destruct call; intros Hd; try (apply rooted_runs, Hsch in Hd; exact Hd); [|done|].
  - apply rooted_runs in Hd. revert Hd. unfold mbind, M_bind, ensure.
    destruct (_ <=? _); [apply Hsch|done].
  - apply rooted_runs in Hd. by injection Hd as <-.
Qed.

Lemma step_session s op :
  (step s op).(CurrentSessionIndex) = s.(CurrentSessionIndex) + sessions [op].
Proof.
  destruct op as [origin call|]; [|reflexivity]. simpl. unfold committed.
  destruct (dispatch origin call s) as [[[] s']|] eqn:Hd; [apply dispatch_session in Hd|]; lia.
Qed.

Lemma sessions_nonneg ops : 0 ≤ sessions ops.
Proof. induction ops as [|[]]; simpl; lia. Qed.

Lemma step_refines s p op :
  refines s p → s.(CurrentSessionIndex) + 2 ≤ U32_MAX → refines (step s op) (spec_step p op).
Proof.
  intros Hr Hcur. destruct op as [origin call|]; [|by apply session_refines].
  pose proof (dispatch_agrees origin call s p Hr Hcur) as Ha. simpl. unfold committed.
  destruct (dispatch origin call s) as [[[] s']|], (spec_call origin call p); done.
Qed.

Lemma run_refines ops s p :
  refines s p → s.(CurrentSessionIndex) + sessions ops + 2 ≤ U32_MAX →
  refines (run ops s) (spec_run ops p) ∧
  (run ops s).(CurrentSessionIndex) = s.(CurrentSessionIndex) + sessions ops.
Proof.
  revert s p. induction ops as [|op ops IH]; intros s p Hr Hcur; [simpl; split; [done|lia]|].
  pose proof (step_session s op) as Hs. pose proof (sessions_nonneg ops).
  assert (sessions (op :: ops) = sessions [op] + sessions ops) as Hsum by (destruct op; simpl; lia).
  pose proof (sessions_nonneg [op]).
  destruct (IH (step s op) (spec_step p op)) as [Hrun Hend]; [apply step_refines; [done|lia]|lia|].
  split; [done|]. change (run (op :: ops) s) with (run ops (step s op)). lia.
Qed.

Lemma build_refines config s :
  build config = Some s →
  refines s (mkPipeline config config config false) ∧ s.(CurrentSessionIndex) = 0 ∧ consistent config.
Proof.
  unfold build. destruct (check_consistency config) as [[]|] eqn:Hc; [|done]. intros [= <-].
  split_and!; [by exists None, None|done|by apply check_consistency_spec].
Qed.

(** ** The properties *)

(** C18. The configuration pallet implements the pipeline.  After any sequence
    of calls and session changes from genesis, the configuration in force is the
    one all accepted changes up to two sessions ago lead to, no accepted change
    is lost, whatever was pending when it was made, and a call is accepted, and
    otherwise refused with the same error, exactly when it is for the
    specification.  The pending list has at most one entry for each of the next
    two sessions, in their order, so that a session change finds at most one
    that is due. *)
Theorem configuration_pipeline config s ops :
  build config = Some s → sessions ops + 2 ≤ U32_MAX →
  let s' := run ops s in
  let p := spec_run ops (mkPipeline config config config false) in
  refines s' p ∧
  ∀ origin call, outcome (dispatch origin call s') = outcome (spec_call origin call p).
Proof.
  intros (Hr & Hz & _)%build_refines Hlen s' p.
  destruct (run_refines ops _ _ Hr) as [Hr' Hend]; [lia|]. split; [done|]. intros origin call.
  assert (s'.(CurrentSessionIndex) + 2 ≤ U32_MAX) as Hcur by (subst s'; lia).
  pose proof (dispatch_agrees origin call s' p Hr' Hcur) as Ha.
  destruct (dispatch origin call s') as [[[] ?]|], (spec_call origin call p); simpl in *; by subst.
Qed.

(** The switch that turns the check off is never turned on. *)
Definition checked (op : Op) : bool :=
  match op with Do _ (Call_set_bypass_consistency_check true) => false | _ => true end.

Record sound (p : Pipeline) : Prop := {
  so_bypass : p.(bypass) = false;
  so_now : consistent p.(now);
  so_next : consistent p.(next);
  so_latest : consistent p.(latest);
}.

Lemma change_sound f p p' : sound p → change f p = Ok p' → sound p'.
Proof.
  intros [Hb Hnow Hnext Hl]. unfold change. rewrite Hb. apply check_consistency_spec in Hl as Hok. rewrite Hok.
  simpl. rewrite orb_false_r. destruct (check_consistency (f p.(latest))) as [[]|] eqn:Hf; simpl; [|done].
  intros [= <-]. split; try done. by apply check_consistency_spec.
Qed.

Lemma step_sound p op : checked op = true → sound p → sound (spec_step p op).
Proof.
  intros Hop Hs. destruct op as [origin call|]; [|by destruct Hs].
  simpl. destruct (spec_call origin call p) as [p'|] eqn:Hc; [|done].
  assert (∀ f, change f p = Ok p' → sound p') as Hch by (intros f; by apply change_sound).
  destruct origin; simpl in Hc; [|by destruct call..].
  destruct call; simpl in Hc; try exact (Hch _ Hc); try done.
  - destruct (_ <=? _); [exact (Hch _ Hc)|done].
  - destruct new; [done|]. injection Hc as <-. by destruct Hs.
Qed.

(** C26. As long as nobody turns the check off, the configuration in force and
    every pending one are consistent, after any sequence of calls and session
    changes: the check on the one configuration a call builds is enough. *)
Theorem configurations_consistent config s ops :
  build config = Some s → sessions ops + 2 ≤ U32_MAX → forallb checked ops = true →
  let s' := run ops s in
  check_consistency s'.(ActiveConfig) = Ok tt ∧
  Forall (λ entry, check_consistency entry.2 = Ok tt) s'.(PendingConfigs).
Proof.
  intros (Hr & Hz & Hc)%build_refines Hlen Hops s'.
  destruct (run_refines ops _ _ Hr) as [Hr' _]; [lia|].
  assert (sound (spec_run ops (mkPipeline config config config false))) as Hs.
  { clear -Hc Hops. assert (sound (mkPipeline config config config false)) as Hp by done.
    revert Hp Hops. generalize (mkPipeline config config config false).
    induction ops as [|op ops IH]; intros p Hp Hops; [done|]. simpl in Hops. bool_facts.
    apply IH; [by apply step_sound|done]. }
  destruct Hr' as (a & b & Hp & Heq). rewrite Heq in Hs. destruct Hs as [_ Hnow Hnext Hlatest]. simpl in *.
  split; [by apply check_consistency_spec|]. subst s'. rewrite Hp.
  destruct a, b; repeat constructor; by apply check_consistency_spec.
Qed.
