(* ===== verification/ConfigVersions.v ===== *)
(** * The earlier versions of the configuration

    The configuration as versions 4 to 11 of the storage of
    polkadot/runtime/parachains/src/configuration.rs had it, with its default and
    the translation to the next version: migration/v5.rs to migration/v12.rs.
    Version 12 is [HostConfiguration]. *)

From S2P Require Import Prelude Arith HostConfig.

Record Weight := mkWeight {
  ref_time : Z;
  proof_size : Z;
}.

Definition WEIGHT_REF_TIME_PER_MILLIS : Z := 1000000000.

(** ** Version 4 *)

Module V4.
Record V4HostConfiguration := mkV4HostConfiguration {
  max_code_size : Z;
  max_head_data_size : Z;
  max_upward_queue_count : Z;
  max_upward_queue_size : Z;
  max_upward_message_size : Z;
  max_upward_message_num_per_candidate : Z;
  hrmp_max_message_num_per_candidate : Z;
  validation_upgrade_cooldown : Z;
  validation_upgrade_delay : Z;
  max_pov_size : Z;
  max_downward_message_size : Z;
  ump_service_total_weight : Weight;
  hrmp_max_parachain_outbound_channels : Z;
  hrmp_max_parathread_outbound_channels : Z;
  hrmp_sender_deposit : Z;
  hrmp_recipient_deposit : Z;
  hrmp_channel_max_capacity : Z;
  hrmp_channel_max_total_size : Z;
  hrmp_max_parachain_inbound_channels : Z;
  hrmp_max_parathread_inbound_channels : Z;
  hrmp_channel_max_message_size : Z;
  code_retention_period : Z;
  parathread_cores : Z;
  parathread_retries : Z;
  group_rotation_frequency : Z;
  chain_availability_period : Z;
  thread_availability_period : Z;
  scheduling_lookahead : Z;
  max_validators_per_core : option Z;
  max_validators : option Z;
  dispute_period : Z;
  dispute_post_conclusion_acceptance_period : Z;
  dispute_conclusion_by_time_out_period : Z;
  no_show_slots : Z;
  n_delay_tranches : Z;
  zeroth_delay_tranche_width : Z;
  needed_approvals : Z;
  relay_vrf_modulo_samples : Z;
  ump_max_individual_weight : Weight;
  pvf_checking_enabled : bool;
  pvf_voting_ttl : Z;
  minimum_validation_upgrade_delay : Z;
}.

Definition default_V4HostConfiguration : V4HostConfiguration := {|
  group_rotation_frequency := 1;
  chain_availability_period := 1;
  thread_availability_period := 1;
  no_show_slots := 1;
  validation_upgrade_cooldown := 0;
  validation_upgrade_delay := 0;
  code_retention_period := 0;
  max_code_size := 0;
  max_pov_size := 0;
  max_head_data_size := 0;
  parathread_cores := 0;
  parathread_retries := 0;
  scheduling_lookahead := 0;
  max_validators_per_core := None;
  max_validators := None;
  dispute_period := 6;
  dispute_post_conclusion_acceptance_period := 100;
  dispute_conclusion_by_time_out_period := 200;
  n_delay_tranches := 0;
  zeroth_delay_tranche_width := 0;
  needed_approvals := 0;
  relay_vrf_modulo_samples := 0;
  max_upward_queue_count := 0;
  max_upward_queue_size := 0;
  max_downward_message_size := 0;
  ump_service_total_weight := mkWeight 0 0;
  max_upward_message_size := 0;
  max_upward_message_num_per_candidate := 0;
  hrmp_sender_deposit := 0;
  hrmp_recipient_deposit := 0;
  hrmp_channel_max_capacity := 0;
  hrmp_channel_max_total_size := 0;
  hrmp_max_parachain_inbound_channels := 0;
  hrmp_max_parathread_inbound_channels := 0;
  hrmp_channel_max_message_size := 0;
  hrmp_max_parachain_outbound_channels := 0;
  hrmp_max_parathread_outbound_channels := 0;
  hrmp_max_message_num_per_candidate := 0;
  ump_max_individual_weight := mkWeight (20 * WEIGHT_REF_TIME_PER_MILLIS) MAX_POV_SIZE;
  pvf_checking_enabled := false;
  pvf_voting_ttl := 2;
  minimum_validation_upgrade_delay := 2;
|}.
End V4.

(** ** Version 5 *)

Module V5.
Record V5HostConfiguration := mkV5HostConfiguration {
  max_code_size : Z;
  max_head_data_size : Z;
  max_upward_queue_count : Z;
  max_upward_queue_size : Z;
  max_upward_message_size : Z;
  max_upward_message_num_per_candidate : Z;
  hrmp_max_message_num_per_candidate : Z;
  validation_upgrade_cooldown : Z;
  validation_upgrade_delay : Z;
  async_backing_params : AsyncBackingParams;
  max_pov_size : Z;
  max_downward_message_size : Z;
  ump_service_total_weight : Weight;
  hrmp_max_parachain_outbound_channels : Z;
  hrmp_max_parathread_outbound_channels : Z;
  hrmp_sender_deposit : Z;
  hrmp_recipient_deposit : Z;
  hrmp_channel_max_capacity : Z;
  hrmp_channel_max_total_size : Z;
  hrmp_max_parachain_inbound_channels : Z;
  hrmp_max_parathread_inbound_channels : Z;
  hrmp_channel_max_message_size : Z;
  executor_params : ExecutorParams;
  code_retention_period : Z;
  parathread_cores : Z;
  parathread_retries : Z;
  group_rotation_frequency : Z;
  chain_availability_period : Z;
  thread_availability_period : Z;
  scheduling_lookahead : Z;
  max_validators_per_core : option Z;
  max_validators : option Z;
  dispute_period : Z;
  dispute_post_conclusion_acceptance_period : Z;
  no_show_slots : Z;
  n_delay_tranches : Z;
  zeroth_delay_tranche_width : Z;
  needed_approvals : Z;
  relay_vrf_modulo_samples : Z;
  ump_max_individual_weight : Weight;
  pvf_checking_enabled : bool;
  pvf_voting_ttl : Z;
  minimum_validation_upgrade_delay : Z;
}.

Definition default_V5HostConfiguration : V5HostConfiguration := {|
  async_backing_params := mkAsyncBackingParams 0 0;
  group_rotation_frequency := 1;
  chain_availability_period := 1;
  thread_availability_period := 1;
  no_show_slots := 1;
  validation_upgrade_cooldown := 0;
  validation_upgrade_delay := 0;
  code_retention_period := 0;
  max_code_size := 0;
  max_pov_size := 0;
  max_head_data_size := 0;
  parathread_cores := 0;
  parathread_retries := 0;
  scheduling_lookahead := 0;
  max_validators_per_core := None;
  max_validators := None;
  dispute_period := 6;
  dispute_post_conclusion_acceptance_period := 100;
  n_delay_tranches := 0;
  zeroth_delay_tranche_width := 0;
  needed_approvals := 0;
  relay_vrf_modulo_samples := 0;
  max_upward_queue_count := 0;
  max_upward_queue_size := 0;
  max_downward_message_size := 0;
  ump_service_total_weight := mkWeight 0 0;
  max_upward_message_size := 0;
  max_upward_message_num_per_candidate := 0;
  hrmp_sender_deposit := 0;
  hrmp_recipient_deposit := 0;
  hrmp_channel_max_capacity := 0;
  hrmp_channel_max_total_size := 0;
  hrmp_max_parachain_inbound_channels := 0;
  hrmp_max_parathread_inbound_channels := 0;
  hrmp_channel_max_message_size := 0;
  hrmp_max_parachain_outbound_channels := 0;
  hrmp_max_parathread_outbound_channels := 0;
  hrmp_max_message_num_per_candidate := 0;
  ump_max_individual_weight := mkWeight (20 * WEIGHT_REF_TIME_PER_MILLIS) MAX_POV_SIZE;
  pvf_checking_enabled := false;
  pvf_voting_ttl := 2;
  minimum_validation_upgrade_delay := 2;
  executor_params := [];
|}.
End V5.

(** ** Version 6 *)

Module V6.
Record V6HostConfiguration := mkV6HostConfiguration {
  max_code_size : Z;
  max_head_data_size : Z;
  max_upward_queue_count : Z;
  max_upward_queue_size : Z;
  max_upward_message_size : Z;
  max_upward_message_num_per_candidate : Z;
  hrmp_max_message_num_per_candidate : Z;
  validation_upgrade_cooldown : Z;
  validation_upgrade_delay : Z;
  async_backing_params : AsyncBackingParams;
  max_pov_size : Z;
  max_downward_message_size : Z;
  hrmp_max_parachain_outbound_channels : Z;
  hrmp_max_parathread_outbound_channels : Z;
  hrmp_sender_deposit : Z;
  hrmp_recipient_deposit : Z;
  hrmp_channel_max_capacity : Z;
  hrmp_channel_max_total_size : Z;
  hrmp_max_parachain_inbound_channels : Z;
  hrmp_max_parathread_inbound_channels : Z;
  hrmp_channel_max_message_size : Z;
  executor_params : ExecutorParams;
  code_retention_period : Z;
  parathread_cores : Z;
  parathread_retries : Z;
  group_rotation_frequency : Z;
  chain_availability_period : Z;
  thread_availability_period : Z;
  scheduling_lookahead : Z;
  max_validators_per_core : option Z;
  max_validators : option Z;
  dispute_period : Z;
  dispute_post_conclusion_acceptance_period : Z;
  no_show_slots : Z;
  n_delay_tranches : Z;
  zeroth_delay_tranche_width : Z;
  needed_approvals : Z;
  relay_vrf_modulo_samples : Z;
  pvf_checking_enabled : bool;
  pvf_voting_ttl : Z;
  minimum_validation_upgrade_delay : Z;
}.

Definition default_V6HostConfiguration : V6HostConfiguration := {|
  async_backing_params := mkAsyncBackingParams 0 0;
  group_rotation_frequency := 1;
  chain_availability_period := 1;
  thread_availability_period := 1;
  no_show_slots := 1;
  validation_upgrade_cooldown := 0;
  validation_upgrade_delay := 2;
  code_retention_period := 0;
  max_code_size := 0;
  max_pov_size := 0;
  max_head_data_size := 0;
  parathread_cores := 0;
  parathread_retries := 0;
  scheduling_lookahead := 0;
  max_validators_per_core := None;
  max_validators := None;
  dispute_period := 6;
  dispute_post_conclusion_acceptance_period := 100;
  n_delay_tranches := 0;
  zeroth_delay_tranche_width := 0;
  needed_approvals := 0;
  relay_vrf_modulo_samples := 0;
  max_upward_queue_count := 0;
  max_upward_queue_size := 0;
  max_downward_message_size := 0;
  max_upward_message_size := 0;
  max_upward_message_num_per_candidate := 0;
  hrmp_sender_deposit := 0;
  hrmp_recipient_deposit := 0;
  hrmp_channel_max_capacity := 0;
  hrmp_channel_max_total_size := 0;
  hrmp_max_parachain_inbound_channels := 0;
  hrmp_max_parathread_inbound_channels := 0;
  hrmp_channel_max_message_size := 0;
  hrmp_max_parachain_outbound_channels := 0;
  hrmp_max_parathread_outbound_channels := 0;
  hrmp_max_message_num_per_candidate := 0;
  pvf_checking_enabled := false;
  pvf_voting_ttl := 2;
  minimum_validation_upgrade_delay := 2;
  executor_params := [];
|}.
End V6.

(** ** Version 7 *)

Module V7.
Record V7HostConfiguration := mkV7HostConfiguration {
  max_code_size : Z;
  max_head_data_size : Z;
  max_upward_queue_count : Z;
  max_upward_queue_size : Z;
  max_upward_message_size : Z;
  max_upward_message_num_per_candidate : Z;
  hrmp_max_message_num_per_candidate : Z;
  validation_upgrade_cooldown : Z;
  validation_upgrade_delay : Z;
  async_backing_params : AsyncBackingParams;
  max_pov_size : Z;
  max_downward_message_size : Z;
  hrmp_max_parachain_outbound_channels : Z;
  hrmp_max_parathread_outbound_channels : Z;
  hrmp_sender_deposit : Z;
  hrmp_recipient_deposit : Z;
  hrmp_channel_max_capacity : Z;
  hrmp_channel_max_total_size : Z;
  hrmp_max_parachain_inbound_channels : Z;
  hrmp_max_parathread_inbound_channels : Z;
  hrmp_channel_max_message_size : Z;
  executor_params : ExecutorParams;
  code_retention_period : Z;
  parathread_cores : Z;
  parathread_retries : Z;
  group_rotation_frequency : Z;
  chain_availability_period : Z;
  thread_availability_period : Z;
  scheduling_lookahead : Z;
  max_validators_per_core : option Z;
  max_validators : option Z;
  dispute_period : Z;
  dispute_post_conclusion_acceptance_period : Z;
  no_show_slots : Z;
  n_delay_tranches : Z;
  zeroth_delay_tranche_width : Z;
  needed_approvals : Z;
  relay_vrf_modulo_samples : Z;
  pvf_voting_ttl : Z;
  minimum_validation_upgrade_delay : Z;
}.

Definition default_V7HostConfiguration : V7HostConfiguration := {|
  async_backing_params := mkAsyncBackingParams 0 0;
  group_rotation_frequency := 1;
  chain_availability_period := 1;
  thread_availability_period := 1;
  no_show_slots := 1;
  validation_upgrade_cooldown := 0;
  validation_upgrade_delay := 2;
  code_retention_period := 0;
  max_code_size := 0;
  max_pov_size := 0;
  max_head_data_size := 0;
  parathread_cores := 0;
  parathread_retries := 0;
  scheduling_lookahead := 0;
  max_validators_per_core := None;
  max_validators := None;
  dispute_period := 6;
  dispute_post_conclusion_acceptance_period := 100;
  n_delay_tranches := 0;
  zeroth_delay_tranche_width := 0;
  needed_approvals := 0;
  relay_vrf_modulo_samples := 0;
  max_upward_queue_count := 0;
  max_upward_queue_size := 0;
  max_downward_message_size := 0;
  max_upward_message_size := 0;
  max_upward_message_num_per_candidate := 0;
  hrmp_sender_deposit := 0;
  hrmp_recipient_deposit := 0;
  hrmp_channel_max_capacity := 0;
  hrmp_channel_max_total_size := 0;
  hrmp_max_parachain_inbound_channels := 0;
  hrmp_max_parathread_inbound_channels := 0;
  hrmp_channel_max_message_size := 0;
  hrmp_max_parachain_outbound_channels := 0;
  hrmp_max_parathread_outbound_channels := 0;
  hrmp_max_message_num_per_candidate := 0;
  pvf_voting_ttl := 2;
  minimum_validation_upgrade_delay := 2;
  executor_params := [];
|}.
End V7.

(** ** Version 8 *)

Module V8.
Record V8HostConfiguration := mkV8HostConfiguration {
  max_code_size : Z;
  max_head_data_size : Z;
  max_upward_queue_count : Z;
  max_upward_queue_size : Z;
  max_upward_message_size : Z;
  max_upward_message_num_per_candidate : Z;
  hrmp_max_message_num_per_candidate : Z;
  validation_upgrade_cooldown : Z;
  validation_upgrade_delay : Z;
  async_backing_params : AsyncBackingParams;
  max_pov_size : Z;
  max_downward_message_size : Z;
  hrmp_max_parachain_outbound_channels : Z;
  hrmp_sender_deposit : Z;
  hrmp_recipient_deposit : Z;
  hrmp_channel_max_capacity : Z;
  hrmp_channel_max_total_size : Z;
  hrmp_max_parachain_inbound_channels : Z;
  hrmp_channel_max_message_size : Z;
  executor_params : ExecutorParams;
  code_retention_period : Z;
  on_demand_cores : Z;
  on_demand_retries : Z;
  on_demand_queue_max_size : Z;
  on_demand_target_queue_utilization : Z;
  on_demand_fee_variability : Z;
  on_demand_base_fee : Z;
  on_demand_ttl : Z;
  group_rotation_frequency : Z;
  paras_availability_period : Z;
  scheduling_lookahead : Z;
  max_validators_per_core : option Z;
  max_validators : option Z;
  dispute_period : Z;
  dispute_post_conclusion_acceptance_period : Z;
  no_show_slots : Z;
  n_delay_tranches : Z;
  zeroth_delay_tranche_width : Z;
  needed_approvals : Z;
  relay_vrf_modulo_samples : Z;
  pvf_voting_ttl : Z;
  minimum_validation_upgrade_delay : Z;
}.

Definition default_V8HostConfiguration : V8HostConfiguration := {|
  async_backing_params := mkAsyncBackingParams 0 0;
  group_rotation_frequency := 1;
  paras_availability_period := 1;
  no_show_slots := 1;
  validation_upgrade_cooldown := 0;
  validation_upgrade_delay := 2;
  code_retention_period := 0;
  max_code_size := 0;
  max_pov_size := 0;
  max_head_data_size := 0;
  on_demand_cores := 0;
  on_demand_retries := 0;
  scheduling_lookahead := 1;
  max_validators_per_core := None;
  max_validators := None;
  dispute_period := 6;
  dispute_post_conclusion_acceptance_period := 100;
  n_delay_tranches := 0;
  zeroth_delay_tranche_width := 0;
  needed_approvals := 0;
  relay_vrf_modulo_samples := 0;
  max_upward_queue_count := 0;
  max_upward_queue_size := 0;
  max_downward_message_size := 0;
  max_upward_message_size := 0;
  max_upward_message_num_per_candidate := 0;
  hrmp_sender_deposit := 0;
  hrmp_recipient_deposit := 0;
  hrmp_channel_max_capacity := 0;
  hrmp_channel_max_total_size := 0;
  hrmp_max_parachain_inbound_channels := 0;
  hrmp_channel_max_message_size := 0;
  hrmp_max_parachain_outbound_channels := 0;
  hrmp_max_message_num_per_candidate := 0;
  pvf_voting_ttl := 2;
  minimum_validation_upgrade_delay := 2;
  executor_params := [];
  on_demand_queue_max_size := ON_DEMAND_DEFAULT_QUEUE_MAX_SIZE;
  on_demand_base_fee := 10000000;
  on_demand_fee_variability := Perbill_from_percent 3;
  on_demand_target_queue_utilization := Perbill_from_percent 25;
  on_demand_ttl := 5;
|}.
End V8.

(** ** Version 9 *)

Module V9.
Record V9HostConfiguration := mkV9HostConfiguration {
  max_code_size : Z;
  max_head_data_size : Z;
  max_upward_queue_count : Z;
  max_upward_queue_size : Z;
  max_upward_message_size : Z;
  max_upward_message_num_per_candidate : Z;
  hrmp_max_message_num_per_candidate : Z;
  validation_upgrade_cooldown : Z;
  validation_upgrade_delay : Z;
  async_backing_params : AsyncBackingParams;
  max_pov_size : Z;
  max_downward_message_size : Z;
  hrmp_max_parachain_outbound_channels : Z;
  hrmp_sender_deposit : Z;
  hrmp_recipient_deposit : Z;
  hrmp_channel_max_capacity : Z;
  hrmp_channel_max_total_size : Z;
  hrmp_max_parachain_inbound_channels : Z;
  hrmp_channel_max_message_size : Z;
  executor_params : ExecutorParams;
  code_retention_period : Z;
  on_demand_cores : Z;
  on_demand_retries : Z;
  on_demand_queue_max_size : Z;
  on_demand_target_queue_utilization : Z;
  on_demand_fee_variability : Z;
  on_demand_base_fee : Z;
  on_demand_ttl : Z;
  group_rotation_frequency : Z;
  paras_availability_period : Z;
  scheduling_lookahead : Z;
  max_validators_per_core : option Z;
  max_validators : option Z;
  dispute_period : Z;
  dispute_post_conclusion_acceptance_period : Z;
  no_show_slots : Z;
  n_delay_tranches : Z;
  zeroth_delay_tranche_width : Z;
  needed_approvals : Z;
  relay_vrf_modulo_samples : Z;
  pvf_voting_ttl : Z;
  minimum_validation_upgrade_delay : Z;
  minimum_backing_votes : Z;
}.

Definition default_V9HostConfiguration : V9HostConfiguration := {|
  async_backing_params := mkAsyncBackingParams 0 0;
  group_rotation_frequency := 1;
  paras_availability_period := 1;
  no_show_slots := 1;
  validation_upgrade_cooldown := 0;
  validation_upgrade_delay := 2;
  code_retention_period := 0;
  max_code_size := 0;
  max_pov_size := 0;
  max_head_data_size := 0;
  on_demand_cores := 0;
  on_demand_retries := 0;
  scheduling_lookahead := 1;
  max_validators_per_core := None;
  max_validators := None;
  dispute_period := 6;
  dispute_post_conclusion_acceptance_period := 100;
  n_delay_tranches := 0;
  zeroth_delay_tranche_width := 0;
  needed_approvals := 0;
  relay_vrf_modulo_samples := 0;
  max_upward_queue_count := 0;
  max_upward_queue_size := 0;
  max_downward_message_size := 0;
  max_upward_message_size := 0;
  max_upward_message_num_per_candidate := 0;
  hrmp_sender_deposit := 0;
  hrmp_recipient_deposit := 0;
  hrmp_channel_max_capacity := 0;
  hrmp_channel_max_total_size := 0;
  hrmp_max_parachain_inbound_channels := 0;
  hrmp_channel_max_message_size := 0;
  hrmp_max_parachain_outbound_channels := 0;
  hrmp_max_message_num_per_candidate := 0;
  pvf_voting_ttl := 2;
  minimum_validation_upgrade_delay := 2;
  executor_params := [];
  on_demand_queue_max_size := ON_DEMAND_DEFAULT_QUEUE_MAX_SIZE;
  on_demand_base_fee := 10000000;
  on_demand_fee_variability := Perbill_from_percent 3;
  on_demand_target_queue_utilization := Perbill_from_percent 25;
  on_demand_ttl := 5;
  minimum_backing_votes := LEGACY_MIN_BACKING_VOTES;
|}.
End V9.

(** ** Version 10 *)

Module V10.
Record V10HostConfiguration := mkV10HostConfiguration {
  max_code_size : Z;
  max_head_data_size : Z;
  max_upward_queue_count : Z;
  max_upward_queue_size : Z;
  max_upward_message_size : Z;
  max_upward_message_num_per_candidate : Z;
  hrmp_max_message_num_per_candidate : Z;
  validation_upgrade_cooldown : Z;
  validation_upgrade_delay : Z;
  async_backing_params : AsyncBackingParams;
  max_pov_size : Z;
  max_downward_message_size : Z;
  hrmp_max_parachain_outbound_channels : Z;
  hrmp_sender_deposit : Z;
  hrmp_recipient_deposit : Z;
  hrmp_channel_max_capacity : Z;
  hrmp_channel_max_total_size : Z;
  hrmp_max_parachain_inbound_channels : Z;
  hrmp_channel_max_message_size : Z;
  executor_params : ExecutorParams;
  code_retention_period : Z;
  on_demand_cores : Z;
  on_demand_retries : Z;
  on_demand_queue_max_size : Z;
  on_demand_target_queue_utilization : Z;
  on_demand_fee_variability : Z;
  on_demand_base_fee : Z;
  on_demand_ttl : Z;
  group_rotation_frequency : Z;
  paras_availability_period : Z;
  scheduling_lookahead : Z;
  max_validators_per_core : option Z;
  max_validators : option Z;
  dispute_period : Z;
  dispute_post_conclusion_acceptance_period : Z;
  no_show_slots : Z;
  n_delay_tranches : Z;
  zeroth_delay_tranche_width : Z;
  needed_approvals : Z;
  relay_vrf_modulo_samples : Z;
  pvf_voting_ttl : Z;
  minimum_validation_upgrade_delay : Z;
  minimum_backing_votes : Z;
  node_features : NodeFeatures;
}.

Definition default_V10HostConfiguration : V10HostConfiguration := {|
  async_backing_params := mkAsyncBackingParams 0 0;
  group_rotation_frequency := 1;
  paras_availability_period := 1;
  no_show_slots := 1;
  validation_upgrade_cooldown := 0;
  validation_upgrade_delay := 2;
  code_retention_period := 0;
  max_code_size := 0;
  max_pov_size := 0;
  max_head_data_size := 0;
  on_demand_cores := 0;
  on_demand_retries := 0;
  scheduling_lookahead := 1;
  max_validators_per_core := None;
  max_validators := None;
  dispute_period := 6;
  dispute_post_conclusion_acceptance_period := 100;
  n_delay_tranches := 0;
  zeroth_delay_tranche_width := 0;
  needed_approvals := 0;
  relay_vrf_modulo_samples := 0;
  max_upward_queue_count := 0;
  max_upward_queue_size := 0;
  max_downward_message_size := 0;
  max_upward_message_size := 0;
  max_upward_message_num_per_candidate := 0;
  hrmp_sender_deposit := 0;
  hrmp_recipient_deposit := 0;
  hrmp_channel_max_capacity := 0;
  hrmp_channel_max_total_size := 0;
  hrmp_max_parachain_inbound_channels := 0;
  hrmp_channel_max_message_size := 0;
  hrmp_max_parachain_outbound_channels := 0;
  hrmp_max_message_num_per_candidate := 0;
  pvf_voting_ttl := 2;
  minimum_validation_upgrade_delay := 2;
  executor_params := [];
  on_demand_queue_max_size := ON_DEMAND_DEFAULT_QUEUE_MAX_SIZE;
  on_demand_base_fee := 10000000;
  on_demand_fee_variability := Perbill_from_percent 3;
  on_demand_target_queue_utilization := Perbill_from_percent 25;
  on_demand_ttl := 5;
  minimum_backing_votes := LEGACY_MIN_BACKING_VOTES;
  node_features := [];
|}.
End V10.

(** ** Version 11 *)

Module V11.
Record V11HostConfiguration := mkV11HostConfiguration {
  max_code_size : Z;
  max_head_data_size : Z;
  max_upward_queue_count : Z;
  max_upward_queue_size : Z;
  max_upward_message_size : Z;
  max_upward_message_num_per_candidate : Z;
  hrmp_max_message_num_per_candidate : Z;
  validation_upgrade_cooldown : Z;
  validation_upgrade_delay : Z;
  async_backing_params : AsyncBackingParams;
  max_pov_size : Z;
  max_downward_message_size : Z;
  hrmp_max_parachain_outbound_channels : Z;
  hrmp_sender_deposit : Z;
  hrmp_recipient_deposit : Z;
  hrmp_channel_max_capacity : Z;
  hrmp_channel_max_total_size : Z;
  hrmp_max_parachain_inbound_channels : Z;
  hrmp_channel_max_message_size : Z;
  executor_params : ExecutorParams;
  code_retention_period : Z;
  coretime_cores : Z;
  on_demand_retries : Z;
  on_demand_queue_max_size : Z;
  on_demand_target_queue_utilization : Z;
  on_demand_fee_variability : Z;
  on_demand_base_fee : Z;
  on_demand_ttl : Z;
  group_rotation_frequency : Z;
  paras_availability_period : Z;
  scheduling_lookahead : Z;
  max_validators_per_core : option Z;
  max_validators : option Z;
  dispute_period : Z;
  dispute_post_conclusion_acceptance_period : Z;
  no_show_slots : Z;
  n_delay_tranches : Z;
  zeroth_delay_tranche_width : Z;
  needed_approvals : Z;
  relay_vrf_modulo_samples : Z;
  pvf_voting_ttl : Z;
  minimum_validation_upgrade_delay : Z;
  minimum_backing_votes : Z;
  node_features : NodeFeatures;
  approval_voting_params : ApprovalVotingParams;
}.

Definition default_V11HostConfiguration : V11HostConfiguration := {|
  async_backing_params := mkAsyncBackingParams 0 0;
  group_rotation_frequency := 1;
  paras_availability_period := 1;
  no_show_slots := 1;
  validation_upgrade_cooldown := 0;
  validation_upgrade_delay := 2;
  code_retention_period := 0;
  max_code_size := 0;
  max_pov_size := 0;
  max_head_data_size := 0;
  coretime_cores := 0;
  on_demand_retries := 0;
  scheduling_lookahead := 1;
  max_validators_per_core := None;
  max_validators := None;
  dispute_period := 6;
  dispute_post_conclusion_acceptance_period := 100;
  n_delay_tranches := 0;
  zeroth_delay_tranche_width := 0;
  needed_approvals := 0;
  relay_vrf_modulo_samples := 0;
  max_upward_queue_count := 0;
  max_upward_queue_size := 0;
  max_downward_message_size := 0;
  max_upward_message_size := 0;
  max_upward_message_num_per_candidate := 0;
  hrmp_sender_deposit := 0;
  hrmp_recipient_deposit := 0;
  hrmp_channel_max_capacity := 0;
  hrmp_channel_max_total_size := 0;
  hrmp_max_parachain_inbound_channels := 0;
  hrmp_channel_max_message_size := 0;
  hrmp_max_parachain_outbound_channels := 0;
  hrmp_max_message_num_per_candidate := 0;
  pvf_voting_ttl := 2;
  minimum_validation_upgrade_delay := 2;
  executor_params := [];
  approval_voting_params := mkApprovalVotingParams 1;
  on_demand_queue_max_size := ON_DEMAND_DEFAULT_QUEUE_MAX_SIZE;
  on_demand_base_fee := 10000000;
  on_demand_fee_variability := Perbill_from_percent 3;
  on_demand_target_queue_utilization := Perbill_from_percent 25;
  on_demand_ttl := 5;
  minimum_backing_votes := LEGACY_MIN_BACKING_VOTES;
  node_features := [];
|}.
End V11.

Definition translate_v5 (pre : V4.V4HostConfiguration) : V5.V5HostConfiguration := {|
  V5.max_code_size := pre.(V4.max_code_size);
  V5.max_head_data_size := pre.(V4.max_head_data_size);
  V5.max_upward_queue_count := pre.(V4.max_upward_queue_count);
  V5.max_upward_queue_size := pre.(V4.max_upward_queue_size);
  V5.max_upward_message_size := pre.(V4.max_upward_message_size);
  V5.max_upward_message_num_per_candidate := pre.(V4.max_upward_message_num_per_candidate);
  V5.hrmp_max_message_num_per_candidate := pre.(V4.hrmp_max_message_num_per_candidate);
  V5.validation_upgrade_cooldown := pre.(V4.validation_upgrade_cooldown);
  V5.validation_upgrade_delay := pre.(V4.validation_upgrade_delay);
  V5.max_pov_size := pre.(V4.max_pov_size);
  V5.max_downward_message_size := pre.(V4.max_downward_message_size);
  V5.ump_service_total_weight := pre.(V4.ump_service_total_weight);
  V5.hrmp_max_parachain_outbound_channels := pre.(V4.hrmp_max_parachain_outbound_channels);
  V5.hrmp_max_parathread_outbound_channels := pre.(V4.hrmp_max_parathread_outbound_channels);
  V5.hrmp_sender_deposit := pre.(V4.hrmp_sender_deposit);
  V5.hrmp_recipient_deposit := pre.(V4.hrmp_recipient_deposit);
  V5.hrmp_channel_max_capacity := pre.(V4.hrmp_channel_max_capacity);
  V5.hrmp_channel_max_total_size := pre.(V4.hrmp_channel_max_total_size);
  V5.hrmp_max_parachain_inbound_channels := pre.(V4.hrmp_max_parachain_inbound_channels);
  V5.hrmp_max_parathread_inbound_channels := pre.(V4.hrmp_max_parathread_inbound_channels);
  V5.hrmp_channel_max_message_size := pre.(V4.hrmp_channel_max_message_size);
  V5.code_retention_period := pre.(V4.code_retention_period);
  V5.parathread_cores := pre.(V4.parathread_cores);
  V5.parathread_retries := pre.(V4.parathread_retries);
  V5.group_rotation_frequency := pre.(V4.group_rotation_frequency);
  V5.chain_availability_period := pre.(V4.chain_availability_period);
  V5.thread_availability_period := pre.(V4.thread_availability_period);
  V5.scheduling_lookahead := pre.(V4.scheduling_lookahead);
  V5.max_validators_per_core := pre.(V4.max_validators_per_core);
  V5.max_validators := pre.(V4.max_validators);
  V5.dispute_period := pre.(V4.dispute_period);
  V5.dispute_post_conclusion_acceptance_period := pre.(V4.dispute_post_conclusion_acceptance_period);
  V5.no_show_slots := pre.(V4.no_show_slots);
  V5.n_delay_tranches := pre.(V4.n_delay_tranches);
  V5.zeroth_delay_tranche_width := pre.(V4.zeroth_delay_tranche_width);
  V5.needed_approvals := pre.(V4.needed_approvals);
  V5.relay_vrf_modulo_samples := pre.(V4.relay_vrf_modulo_samples);
  V5.ump_max_individual_weight := pre.(V4.ump_max_individual_weight);
  V5.pvf_checking_enabled := pre.(V4.pvf_checking_enabled);
  V5.pvf_voting_ttl := pre.(V4.pvf_voting_ttl);
  V5.minimum_validation_upgrade_delay := pre.(V4.minimum_validation_upgrade_delay);
  V5.async_backing_params := mkAsyncBackingParams 0 0;
  V5.executor_params := [];
|}.

Definition translate_v6 (pre : V5.V5HostConfiguration) : V6.V6HostConfiguration := {|
  V6.max_code_size := pre.(V5.max_code_size);
  V6.max_head_data_size := pre.(V5.max_head_data_size);
  V6.max_upward_queue_count := pre.(V5.max_upward_queue_count);
  V6.max_upward_queue_size := pre.(V5.max_upward_queue_size);
  V6.max_upward_message_size := pre.(V5.max_upward_message_size);
  V6.max_upward_message_num_per_candidate := pre.(V5.max_upward_message_num_per_candidate);
  V6.hrmp_max_message_num_per_candidate := pre.(V5.hrmp_max_message_num_per_candidate);
  V6.validation_upgrade_cooldown := pre.(V5.validation_upgrade_cooldown);
  V6.validation_upgrade_delay := pre.(V5.validation_upgrade_delay);
  V6.async_backing_params := pre.(V5.async_backing_params);
  V6.max_pov_size := pre.(V5.max_pov_size);
  V6.max_downward_message_size := pre.(V5.max_downward_message_size);
  V6.hrmp_max_parachain_outbound_channels := pre.(V5.hrmp_max_parachain_outbound_channels);
  V6.hrmp_max_parathread_outbound_channels := pre.(V5.hrmp_max_parathread_outbound_channels);
  V6.hrmp_sender_deposit := pre.(V5.hrmp_sender_deposit);
  V6.hrmp_recipient_deposit := pre.(V5.hrmp_recipient_deposit);
  V6.hrmp_channel_max_capacity := pre.(V5.hrmp_channel_max_capacity);
  V6.hrmp_channel_max_total_size := pre.(V5.hrmp_channel_max_total_size);
  V6.hrmp_max_parachain_inbound_channels := pre.(V5.hrmp_max_parachain_inbound_channels);
  V6.hrmp_max_parathread_inbound_channels := pre.(V5.hrmp_max_parathread_inbound_channels);
  V6.hrmp_channel_max_message_size := pre.(V5.hrmp_channel_max_message_size);
  V6.executor_params := pre.(V5.executor_params);
  V6.code_retention_period := pre.(V5.code_retention_period);
  V6.parathread_cores := pre.(V5.parathread_cores);
  V6.parathread_retries := pre.(V5.parathread_retries);
  V6.group_rotation_frequency := pre.(V5.group_rotation_frequency);
  V6.chain_availability_period := pre.(V5.chain_availability_period);
  V6.thread_availability_period := pre.(V5.thread_availability_period);
  V6.scheduling_lookahead := pre.(V5.scheduling_lookahead);
  V6.max_validators_per_core := pre.(V5.max_validators_per_core);
  V6.max_validators := pre.(V5.max_validators);
  V6.dispute_period := pre.(V5.dispute_period);
  V6.dispute_post_conclusion_acceptance_period := pre.(V5.dispute_post_conclusion_acceptance_period);
  V6.no_show_slots := pre.(V5.no_show_slots);
  V6.n_delay_tranches := pre.(V5.n_delay_tranches);
  V6.zeroth_delay_tranche_width := pre.(V5.zeroth_delay_tranche_width);
  V6.needed_approvals := pre.(V5.needed_approvals);
  V6.relay_vrf_modulo_samples := pre.(V5.relay_vrf_modulo_samples);
  V6.pvf_checking_enabled := pre.(V5.pvf_checking_enabled);
  V6.pvf_voting_ttl := pre.(V5.pvf_voting_ttl);
  V6.minimum_validation_upgrade_delay := pre.(V5.minimum_validation_upgrade_delay);
|}.

Definition translate_v7 (pre : V6.V6HostConfiguration) : V7.V7HostConfiguration := {|
  V7.max_code_size := pre.(V6.max_code_size);
  V7.max_head_data_size := pre.(V6.max_head_data_size);
  V7.max_upward_queue_count := pre.(V6.max_upward_queue_count);
  V7.max_upward_queue_size := pre.(V6.max_upward_queue_size);
  V7.max_upward_message_size := pre.(V6.max_upward_message_size);
  V7.max_upward_message_num_per_candidate := pre.(V6.max_upward_message_num_per_candidate);
  V7.hrmp_max_message_num_per_candidate := pre.(V6.hrmp_max_message_num_per_candidate);
  V7.validation_upgrade_cooldown := pre.(V6.validation_upgrade_cooldown);
  V7.validation_upgrade_delay := pre.(V6.validation_upgrade_delay);
  V7.max_pov_size := pre.(V6.max_pov_size);
  V7.max_downward_message_size := pre.(V6.max_downward_message_size);
  V7.hrmp_max_parachain_outbound_channels := pre.(V6.hrmp_max_parachain_outbound_channels);
  V7.hrmp_max_parathread_outbound_channels := pre.(V6.hrmp_max_parathread_outbound_channels);
  V7.hrmp_sender_deposit := pre.(V6.hrmp_sender_deposit);
  V7.hrmp_recipient_deposit := pre.(V6.hrmp_recipient_deposit);
  V7.hrmp_channel_max_capacity := pre.(V6.hrmp_channel_max_capacity);
  V7.hrmp_channel_max_total_size := pre.(V6.hrmp_channel_max_total_size);
  V7.hrmp_max_parachain_inbound_channels := pre.(V6.hrmp_max_parachain_inbound_channels);
  V7.hrmp_max_parathread_inbound_channels := pre.(V6.hrmp_max_parathread_inbound_channels);
  V7.hrmp_channel_max_message_size := pre.(V6.hrmp_channel_max_message_size);
  V7.code_retention_period := pre.(V6.code_retention_period);
  V7.parathread_cores := pre.(V6.parathread_cores);
  V7.parathread_retries := pre.(V6.parathread_retries);
  V7.group_rotation_frequency := pre.(V6.group_rotation_frequency);
  V7.chain_availability_period := pre.(V6.chain_availability_period);
  V7.thread_availability_period := pre.(V6.thread_availability_period);
  V7.scheduling_lookahead := pre.(V6.scheduling_lookahead);
  V7.max_validators_per_core := pre.(V6.max_validators_per_core);
  V7.max_validators := pre.(V6.max_validators);
  V7.dispute_period := pre.(V6.dispute_period);
  V7.dispute_post_conclusion_acceptance_period := pre.(V6.dispute_post_conclusion_acceptance_period);
  V7.no_show_slots := pre.(V6.no_show_slots);
  V7.n_delay_tranches := pre.(V6.n_delay_tranches);
  V7.zeroth_delay_tranche_width := pre.(V6.zeroth_delay_tranche_width);
  V7.needed_approvals := pre.(V6.needed_approvals);
  V7.relay_vrf_modulo_samples := pre.(V6.relay_vrf_modulo_samples);
  V7.pvf_voting_ttl := pre.(V6.pvf_voting_ttl);
  V7.minimum_validation_upgrade_delay := pre.(V6.minimum_validation_upgrade_delay);
  V7.async_backing_params := pre.(V6.async_backing_params);
  V7.executor_params := pre.(V6.executor_params);
|}.

Definition translate_v8 (pre : V7.V7HostConfiguration) : V8.V8HostConfiguration := {|
  V8.max_code_size := pre.(V7.max_code_size);
  V8.max_head_data_size := pre.(V7.max_head_data_size);
  V8.max_upward_queue_count := pre.(V7.max_upward_queue_count);
  V8.max_upward_queue_size := pre.(V7.max_upward_queue_size);
  V8.max_upward_message_size := pre.(V7.max_upward_message_size);
  V8.max_upward_message_num_per_candidate := pre.(V7.max_upward_message_num_per_candidate);
  V8.hrmp_max_message_num_per_candidate := pre.(V7.hrmp_max_message_num_per_candidate);
  V8.validation_upgrade_cooldown := pre.(V7.validation_upgrade_cooldown);
  V8.validation_upgrade_delay := pre.(V7.validation_upgrade_delay);
  V8.max_pov_size := pre.(V7.max_pov_size);
  V8.max_downward_message_size := pre.(V7.max_downward_message_size);
  V8.hrmp_sender_deposit := pre.(V7.hrmp_sender_deposit);
  V8.hrmp_recipient_deposit := pre.(V7.hrmp_recipient_deposit);
  V8.hrmp_channel_max_capacity := pre.(V7.hrmp_channel_max_capacity);
  V8.hrmp_channel_max_total_size := pre.(V7.hrmp_channel_max_total_size);
  V8.hrmp_max_parachain_inbound_channels := pre.(V7.hrmp_max_parachain_inbound_channels);
  V8.hrmp_max_parachain_outbound_channels := pre.(V7.hrmp_max_parachain_outbound_channels);
  V8.hrmp_channel_max_message_size := pre.(V7.hrmp_channel_max_message_size);
  V8.code_retention_period := pre.(V7.code_retention_period);
  V8.on_demand_cores := pre.(V7.parathread_cores);
  V8.on_demand_retries := pre.(V7.parathread_retries);
  V8.group_rotation_frequency := pre.(V7.group_rotation_frequency);
  V8.paras_availability_period := pre.(V7.chain_availability_period);
  V8.scheduling_lookahead := pre.(V7.scheduling_lookahead);
  V8.max_validators_per_core := pre.(V7.max_validators_per_core);
  V8.max_validators := pre.(V7.max_validators);
  V8.dispute_period := pre.(V7.dispute_period);
  V8.dispute_post_conclusion_acceptance_period := pre.(V7.dispute_post_conclusion_acceptance_period);
  V8.no_show_slots := pre.(V7.no_show_slots);
  V8.n_delay_tranches := pre.(V7.n_delay_tranches);
  V8.zeroth_delay_tranche_width := pre.(V7.zeroth_delay_tranche_width);
  V8.needed_approvals := pre.(V7.needed_approvals);
  V8.relay_vrf_modulo_samples := pre.(V7.relay_vrf_modulo_samples);
  V8.pvf_voting_ttl := pre.(V7.pvf_voting_ttl);
  V8.minimum_validation_upgrade_delay := pre.(V7.minimum_validation_upgrade_delay);
  V8.async_backing_params := pre.(V7.async_backing_params);
  V8.executor_params := pre.(V7.executor_params);
  V8.on_demand_queue_max_size := 10000;
  V8.on_demand_base_fee := 10000000;
  V8.on_demand_fee_variability := Perbill_from_percent 3;
  V8.on_demand_target_queue_utilization := Perbill_from_percent 25;
  V8.on_demand_ttl := 5;
|}.

Definition translate_v9 (pre : V8.V8HostConfiguration) : V9.V9HostConfiguration := {|
  V9.max_code_size := pre.(V8.max_code_size);
  V9.max_head_data_size := pre.(V8.max_head_data_size);
  V9.max_upward_queue_count := pre.(V8.max_upward_queue_count);
  V9.max_upward_queue_size := pre.(V8.max_upward_queue_size);
  V9.max_upward_message_size := pre.(V8.max_upward_message_size);
  V9.max_upward_message_num_per_candidate := pre.(V8.max_upward_message_num_per_candidate);
  V9.hrmp_max_message_num_per_candidate := pre.(V8.hrmp_max_message_num_per_candidate);
  V9.validation_upgrade_cooldown := pre.(V8.validation_upgrade_cooldown);
  V9.validation_upgrade_delay := pre.(V8.validation_upgrade_delay);
  V9.max_pov_size := pre.(V8.max_pov_size);
  V9.max_downward_message_size := pre.(V8.max_downward_message_size);
  V9.hrmp_sender_deposit := pre.(V8.hrmp_sender_deposit);
  V9.hrmp_recipient_deposit := pre.(V8.hrmp_recipient_deposit);
  V9.hrmp_channel_max_capacity := pre.(V8.hrmp_channel_max_capacity);
  V9.hrmp_channel_max_total_size := pre.(V8.hrmp_channel_max_total_size);
  V9.hrmp_max_parachain_inbound_channels := pre.(V8.hrmp_max_parachain_inbound_channels);
  V9.hrmp_max_parachain_outbound_channels := pre.(V8.hrmp_max_parachain_outbound_channels);
  V9.hrmp_channel_max_message_size := pre.(V8.hrmp_channel_max_message_size);
  V9.code_retention_period := pre.(V8.code_retention_period);
  V9.on_demand_cores := pre.(V8.on_demand_cores);
  V9.on_demand_retries := pre.(V8.on_demand_retries);
  V9.group_rotation_frequency := pre.(V8.group_rotation_frequency);
  V9.paras_availability_period := pre.(V8.paras_availability_period);
  V9.scheduling_lookahead := pre.(V8.scheduling_lookahead);
  V9.max_validators_per_core := pre.(V8.max_validators_per_core);
  V9.max_validators := pre.(V8.max_validators);
  V9.dispute_period := pre.(V8.dispute_period);
  V9.dispute_post_conclusion_acceptance_period := pre.(V8.dispute_post_conclusion_acceptance_period);
  V9.no_show_slots := pre.(V8.no_show_slots);
  V9.n_delay_tranches := pre.(V8.n_delay_tranches);
  V9.zeroth_delay_tranche_width := pre.(V8.zeroth_delay_tranche_width);
  V9.needed_approvals := pre.(V8.needed_approvals);
  V9.relay_vrf_modulo_samples := pre.(V8.relay_vrf_modulo_samples);
  V9.pvf_voting_ttl := pre.(V8.pvf_voting_ttl);
  V9.minimum_validation_upgrade_delay := pre.(V8.minimum_validation_upgrade_delay);
  V9.async_backing_params := pre.(V8.async_backing_params);
  V9.executor_params := pre.(V8.executor_params);
  V9.on_demand_queue_max_size := pre.(V8.on_demand_queue_max_size);
  V9.on_demand_base_fee := pre.(V8.on_demand_base_fee);
  V9.on_demand_fee_variability := pre.(V8.on_demand_fee_variability);
  V9.on_demand_target_queue_utilization := pre.(V8.on_demand_target_queue_utilization);
  V9.on_demand_ttl := pre.(V8.on_demand_ttl);
  V9.minimum_backing_votes := LEGACY_MIN_BACKING_VOTES;
|}.

Definition translate_v10 (pre : V9.V9HostConfiguration) : V10.V10HostConfiguration := {|
  V10.max_code_size := pre.(V9.max_code_size);
  V10.max_head_data_size := pre.(V9.max_head_data_size);
  V10.max_upward_queue_count := pre.(V9.max_upward_queue_count);
  V10.max_upward_queue_size := pre.(V9.max_upward_queue_size);
  V10.max_upward_message_size := pre.(V9.max_upward_message_size);
  V10.max_upward_message_num_per_candidate := pre.(V9.max_upward_message_num_per_candidate);
  V10.hrmp_max_message_num_per_candidate := pre.(V9.hrmp_max_message_num_per_candidate);
  V10.validation_upgrade_cooldown := pre.(V9.validation_upgrade_cooldown);
  V10.validation_upgrade_delay := pre.(V9.validation_upgrade_delay);
  V10.max_pov_size := pre.(V9.max_pov_size);
  V10.max_downward_message_size := pre.(V9.max_downward_message_size);
  V10.hrmp_sender_deposit := pre.(V9.hrmp_sender_deposit);
  V10.hrmp_recipient_deposit := pre.(V9.hrmp_recipient_deposit);
  V10.hrmp_channel_max_capacity := pre.(V9.hrmp_channel_max_capacity);
  V10.hrmp_channel_max_total_size := pre.(V9.hrmp_channel_max_total_size);
  V10.hrmp_max_parachain_inbound_channels := pre.(V9.hrmp_max_parachain_inbound_channels);
  V10.hrmp_max_parachain_outbound_channels := pre.(V9.hrmp_max_parachain_outbound_channels);
  V10.hrmp_channel_max_message_size := pre.(V9.hrmp_channel_max_message_size);
  V10.code_retention_period := pre.(V9.code_retention_period);
  V10.on_demand_cores := pre.(V9.on_demand_cores);
  V10.on_demand_retries := pre.(V9.on_demand_retries);
  V10.group_rotation_frequency := pre.(V9.group_rotation_frequency);
  V10.paras_availability_period := pre.(V9.paras_availability_period);
  V10.scheduling_lookahead := pre.(V9.scheduling_lookahead);
  V10.max_validators_per_core := pre.(V9.max_validators_per_core);
  V10.max_validators := pre.(V9.max_validators);
  V10.dispute_period := pre.(V9.dispute_period);
  V10.dispute_post_conclusion_acceptance_period := pre.(V9.dispute_post_conclusion_acceptance_period);
  V10.no_show_slots := pre.(V9.no_show_slots);
  V10.n_delay_tranches := pre.(V9.n_delay_tranches);
  V10.zeroth_delay_tranche_width := pre.(V9.zeroth_delay_tranche_width);
  V10.needed_approvals := pre.(V9.needed_approvals);
  V10.relay_vrf_modulo_samples := pre.(V9.relay_vrf_modulo_samples);
  V10.pvf_voting_ttl := pre.(V9.pvf_voting_ttl);
  V10.minimum_validation_upgrade_delay := pre.(V9.minimum_validation_upgrade_delay);
  V10.async_backing_params := pre.(V9.async_backing_params);
  V10.executor_params := pre.(V9.executor_params);
  V10.on_demand_queue_max_size := pre.(V9.on_demand_queue_max_size);
  V10.on_demand_base_fee := pre.(V9.on_demand_base_fee);
  V10.on_demand_fee_variability := pre.(V9.on_demand_fee_variability);
  V10.on_demand_target_queue_utilization := pre.(V9.on_demand_target_queue_utilization);
  V10.on_demand_ttl := pre.(V9.on_demand_ttl);
  V10.minimum_backing_votes := pre.(V9.minimum_backing_votes);
  V10.node_features := [];
|}.

Definition translate_v11 (pre : V10.V10HostConfiguration) : V11.V11HostConfiguration := {|
  V11.max_code_size := pre.(V10.max_code_size);
  V11.max_head_data_size := pre.(V10.max_head_data_size);
  V11.max_upward_queue_count := pre.(V10.max_upward_queue_count);
  V11.max_upward_queue_size := pre.(V10.max_upward_queue_size);
  V11.max_upward_message_size := pre.(V10.max_upward_message_size);
  V11.max_upward_message_num_per_candidate := pre.(V10.max_upward_message_num_per_candidate);
  V11.hrmp_max_message_num_per_candidate := pre.(V10.hrmp_max_message_num_per_candidate);
  V11.validation_upgrade_cooldown := pre.(V10.validation_upgrade_cooldown);
  V11.validation_upgrade_delay := pre.(V10.validation_upgrade_delay);
  V11.max_pov_size := pre.(V10.max_pov_size);
  V11.max_downward_message_size := pre.(V10.max_downward_message_size);
  V11.hrmp_sender_deposit := pre.(V10.hrmp_sender_deposit);
  V11.hrmp_recipient_deposit := pre.(V10.hrmp_recipient_deposit);
  V11.hrmp_channel_max_capacity := pre.(V10.hrmp_channel_max_capacity);
  V11.hrmp_channel_max_total_size := pre.(V10.hrmp_channel_max_total_size);
  V11.hrmp_max_parachain_inbound_channels := pre.(V10.hrmp_max_parachain_inbound_channels);
  V11.hrmp_max_parachain_outbound_channels := pre.(V10.hrmp_max_parachain_outbound_channels);
  V11.hrmp_channel_max_message_size := pre.(V10.hrmp_channel_max_message_size);
  V11.code_retention_period := pre.(V10.code_retention_period);
  V11.coretime_cores := pre.(V10.on_demand_cores);
  V11.on_demand_retries := pre.(V10.on_demand_retries);
  V11.group_rotation_frequency := pre.(V10.group_rotation_frequency);
  V11.paras_availability_period := pre.(V10.paras_availability_period);
  V11.scheduling_lookahead := pre.(V10.scheduling_lookahead);
  V11.max_validators_per_core := pre.(V10.max_validators_per_core);
  V11.max_validators := pre.(V10.max_validators);
  V11.dispute_period := pre.(V10.dispute_period);
  V11.dispute_post_conclusion_acceptance_period := pre.(V10.dispute_post_conclusion_acceptance_period);
  V11.no_show_slots := pre.(V10.no_show_slots);
  V11.n_delay_tranches := pre.(V10.n_delay_tranches);
  V11.zeroth_delay_tranche_width := pre.(V10.zeroth_delay_tranche_width);
  V11.needed_approvals := pre.(V10.needed_approvals);
  V11.relay_vrf_modulo_samples := pre.(V10.relay_vrf_modulo_samples);
  V11.pvf_voting_ttl := pre.(V10.pvf_voting_ttl);
  V11.minimum_validation_upgrade_delay := pre.(V10.minimum_validation_upgrade_delay);
  V11.async_backing_params := pre.(V10.async_backing_params);
  V11.executor_params := pre.(V10.executor_params);
  V11.on_demand_queue_max_size := pre.(V10.on_demand_queue_max_size);
  V11.on_demand_base_fee := pre.(V10.on_demand_base_fee);
  V11.on_demand_fee_variability := pre.(V10.on_demand_fee_variability);
  V11.on_demand_target_queue_utilization := pre.(V10.on_demand_target_queue_utilization);
  V11.on_demand_ttl := pre.(V10.on_demand_ttl);
  V11.minimum_backing_votes := pre.(V10.minimum_backing_votes);
  V11.node_features := pre.(V10.node_features);
  V11.approval_voting_params := mkApprovalVotingParams 1;
|}.

Definition translate_v12 (pre : V11.V11HostConfiguration) : HostConfiguration := {|
  max_code_size := pre.(V11.max_code_size);
  max_head_data_size := pre.(V11.max_head_data_size);
  max_upward_queue_count := pre.(V11.max_upward_queue_count);
  max_upward_queue_size := pre.(V11.max_upward_queue_size);
  max_upward_message_size := pre.(V11.max_upward_message_size);
  max_upward_message_num_per_candidate := pre.(V11.max_upward_message_num_per_candidate);
  hrmp_max_message_num_per_candidate := pre.(V11.hrmp_max_message_num_per_candidate);
  validation_upgrade_cooldown := pre.(V11.validation_upgrade_cooldown);
  validation_upgrade_delay := pre.(V11.validation_upgrade_delay);
  max_pov_size := pre.(V11.max_pov_size);
  max_downward_message_size := pre.(V11.max_downward_message_size);
  hrmp_sender_deposit := pre.(V11.hrmp_sender_deposit);
  hrmp_recipient_deposit := pre.(V11.hrmp_recipient_deposit);
  hrmp_channel_max_capacity := pre.(V11.hrmp_channel_max_capacity);
  hrmp_channel_max_total_size := pre.(V11.hrmp_channel_max_total_size);
  hrmp_max_parachain_inbound_channels := pre.(V11.hrmp_max_parachain_inbound_channels);
  hrmp_max_parachain_outbound_channels := pre.(V11.hrmp_max_parachain_outbound_channels);
  hrmp_channel_max_message_size := pre.(V11.hrmp_channel_max_message_size);
  code_retention_period := pre.(V11.code_retention_period);
  max_validators := pre.(V11.max_validators);
  dispute_period := pre.(V11.dispute_period);
  dispute_post_conclusion_acceptance_period := pre.(V11.dispute_post_conclusion_acceptance_period);
  no_show_slots := pre.(V11.no_show_slots);
  n_delay_tranches := pre.(V11.n_delay_tranches);
  zeroth_delay_tranche_width := pre.(V11.zeroth_delay_tranche_width);
  needed_approvals := pre.(V11.needed_approvals);
  relay_vrf_modulo_samples := pre.(V11.relay_vrf_modulo_samples);
  pvf_voting_ttl := pre.(V11.pvf_voting_ttl);
  minimum_validation_upgrade_delay := pre.(V11.minimum_validation_upgrade_delay);
  async_backing_params := pre.(V11.async_backing_params);
  executor_params := pre.(V11.executor_params);
  minimum_backing_votes := pre.(V11.minimum_backing_votes);
  node_features := pre.(V11.node_features);
  approval_voting_params := pre.(V11.approval_voting_params);
  scheduler_params := {|
    group_rotation_frequency := pre.(V11.group_rotation_frequency);
    paras_availability_period := pre.(V11.paras_availability_period);
    max_validators_per_core := pre.(V11.max_validators_per_core);
    lookahead := pre.(V11.scheduling_lookahead);
    num_cores := pre.(V11.coretime_cores);
    max_availability_timeouts := pre.(V11.on_demand_retries);
    on_demand_queue_max_size := pre.(V11.on_demand_queue_max_size);
    on_demand_target_queue_utilization := pre.(V11.on_demand_target_queue_utilization);
    on_demand_fee_variability := pre.(V11.on_demand_fee_variability);
    on_demand_base_fee := pre.(V11.on_demand_base_fee);
    ttl := pre.(V11.on_demand_ttl);
  |};
|}.
