(* ===== verification/ConfigMigrations.v ===== *)
(** * The migrations of the configuration

    The storage of polkadot/runtime/parachains/src/configuration.rs on its way
    from version 4, where the root chain was, to version 12: [MigrateToV5] to
    [MigrateToV12] of configuration/migration/, in the order of [Unreleased] in
    src/thxnet/runtime/thxnet/src/lib.rs.  The storage holds bytes, which every
    version reads in its own format; the codec is a parameter, of which only the
    round trip is used.  A missing or undecodable configuration is the default,
    as in a release build. *)

From S2P Require Import Prelude Arith HostConfig ConfigVersions.
From coqutil Require Import Datatypes.RecordSetters.
Import TriangleBracketNotations.

Inductive Version := v4 | v5 | v6 | v7 | v8 | v9 | v10 | v11 | v12.

#[global] Instance Version_eq_dec : EqDecision Version.
Proof. solve_decision. Defined.

Definition number (v : Version) : Z :=
  match v with
  | v4 => 4 | v5 => 5 | v6 => 6 | v7 => 7 | v8 => 8 | v9 => 9 | v10 => 10 | v11 => 11 | v12 => 12
  end.

Definition conf (v : Version) : Type :=
  match v with
  | v4 => V4.V4HostConfiguration
  | v5 => V5.V5HostConfiguration
  | v6 => V6.V6HostConfiguration
  | v7 => V7.V7HostConfiguration
  | v8 => V8.V8HostConfiguration
  | v9 => V9.V9HostConfiguration
  | v10 => V10.V10HostConfiguration
  | v11 => V11.V11HostConfiguration
  | v12 => HostConfiguration
  end.

(** parity-scale-codec on the two storage items of a version. *)
Class Codec (Bytes : Type) := {
  encode_config : ∀ v, conf v → Bytes;
  decode_config : ∀ v, Bytes → option (conf v);
  encode_pending : ∀ v, list (Z * conf v) → Bytes;
  decode_pending : ∀ v, Bytes → option (list (Z * conf v));
  decode_encode_config : ∀ v c, decode_config v (encode_config v c) = Some c;
  decode_encode_pending : ∀ v p, decode_pending v (encode_pending v p) = Some p;
}.

Section migrations.
Context {Bytes : Type} `{!Codec Bytes}.

(** [StorageVersion], [ActiveConfig] and [PendingConfigs]. *)
Record ConfigStorage := mkConfigStorage {
  storage_version : Z;
  active_bytes : option Bytes;
  pending_bytes : option Bytes;
}.

(** [vN::ActiveConfig::get()] and [vN::PendingConfigs::get().unwrap_or_default()]. *)
Definition active_config (v : Version) (s : ConfigStorage) : option (conf v) :=
  s.(active_bytes) ≫= decode_config v.
Definition pending_configs (v : Version) (s : ConfigStorage) : list (Z * conf v) :=
  default [] (s.(pending_bytes) ≫= decode_pending v).

(** The body the eight [migrate_to_vN] share. *)
Definition migrate (v v' : Version) (unset : conf v) (translate : conf v → conf v') (s : ConfigStorage)
    : ConfigStorage :=
  let active := default unset (active_config v s) in
  let pending := pending_configs v s in
  mkConfigStorage s.(storage_version)
    (Some (encode_config v' (translate active)))
    (Some (encode_pending v' (map (λ p, (p.1, translate p.2)) pending))).

Definition migrate_to_v5 := migrate v4 v5 V4.default_V4HostConfiguration translate_v5.
Definition migrate_to_v6 := migrate v5 v6 V5.default_V5HostConfiguration translate_v6.
Definition migrate_to_v7 := migrate v6 v7 V6.default_V6HostConfiguration translate_v7.
Definition migrate_to_v8 := migrate v7 v8 V7.default_V7HostConfiguration translate_v8.
Definition migrate_to_v9 := migrate v8 v9 V8.default_V8HostConfiguration translate_v9.
Definition migrate_to_v10 := migrate v9 v10 V9.default_V9HostConfiguration translate_v10.
Definition migrate_to_v11 := migrate v10 v11 V10.default_V10HostConfiguration translate_v11.
Definition migrate_to_v12 := migrate v11 v12 V11.default_V11HostConfiguration translate_v12.

(** [on_runtime_upgrade] of versions 5 to 9 and, for the later ones,
    [VersionedMigration]: run at version [from], and leave version [to]. *)
Definition versioned (from to : Z) (m : ConfigStorage → ConfigStorage) (s : ConfigStorage) : ConfigStorage :=
  if s.(storage_version) =? from then (m s)<|storage_version := to|> else s.

Definition MigrateToV5 := versioned 4 5 migrate_to_v5.
Definition MigrateToV6 := versioned 5 6 migrate_to_v6.
Definition MigrateToV7 := versioned 6 7 migrate_to_v7.
Definition MigrateToV8 := versioned 7 8 migrate_to_v8.
Definition MigrateToV9 := versioned 8 9 migrate_to_v9.
Definition MigrateToV10 := versioned 9 10 migrate_to_v10.
Definition MigrateToV11 := versioned 10 11 migrate_to_v11.
Definition MigrateToV12 := versioned 11 12 migrate_to_v12.

(** Those of [Unreleased] that touch the configuration. *)
Definition config_migrations (s : ConfigStorage) : ConfigStorage :=
  MigrateToV12 (MigrateToV11 (MigrateToV10 (MigrateToV9 (MigrateToV8 (MigrateToV7 (MigrateToV6
    (MigrateToV5 s))))))).

(** ** What they do *)

(** A storage of version [v] that holds [c], with [p] pending. *)
Definition stored (s : ConfigStorage) (v : Version) (c : conf v) (p : list (Z * conf v)) : Prop :=
  s.(storage_version) = number v ∧ active_config v s = Some c ∧ pending_configs v s = p.

(** A configuration of version [v] in the format of version 12. *)
Definition upgrade (v : Version) : conf v → HostConfiguration :=
  let u12 := translate_v12 in
  let u11 := λ c, u12 (translate_v11 c) in
  let u10 := λ c, u11 (translate_v10 c) in
  let u9 := λ c, u10 (translate_v9 c) in
  let u8 := λ c, u9 (translate_v8 c) in
  let u7 := λ c, u8 (translate_v7 c) in
  let u6 := λ c, u7 (translate_v6 c) in
  let u5 := λ c, u6 (translate_v5 c) in
  match v with
  | v4 => u5 | v5 => u6 | v6 => u7 | v7 => u8 | v8 => u9 | v9 => u10 | v10 => u11 | v11 => u12
  | v12 => id
  end.

(** Every parameter of version 4 that is still there, under the name it has now. *)
Definition carried (c : V4.V4HostConfiguration) (d : HostConfiguration) : Prop :=
  d.(max_code_size) = c.(V4.max_code_size) ∧
  d.(max_head_data_size) = c.(V4.max_head_data_size) ∧
  d.(max_upward_queue_count) = c.(V4.max_upward_queue_count) ∧
  d.(max_upward_queue_size) = c.(V4.max_upward_queue_size) ∧
  d.(max_upward_message_size) = c.(V4.max_upward_message_size) ∧
  d.(max_upward_message_num_per_candidate) = c.(V4.max_upward_message_num_per_candidate) ∧
  d.(hrmp_max_message_num_per_candidate) = c.(V4.hrmp_max_message_num_per_candidate) ∧
  d.(validation_upgrade_cooldown) = c.(V4.validation_upgrade_cooldown) ∧
  d.(validation_upgrade_delay) = c.(V4.validation_upgrade_delay) ∧
  d.(max_pov_size) = c.(V4.max_pov_size) ∧
  d.(max_downward_message_size) = c.(V4.max_downward_message_size) ∧
  d.(hrmp_max_parachain_outbound_channels) = c.(V4.hrmp_max_parachain_outbound_channels) ∧
  d.(hrmp_sender_deposit) = c.(V4.hrmp_sender_deposit) ∧
  d.(hrmp_recipient_deposit) = c.(V4.hrmp_recipient_deposit) ∧
  d.(hrmp_channel_max_capacity) = c.(V4.hrmp_channel_max_capacity) ∧
  d.(hrmp_channel_max_total_size) = c.(V4.hrmp_channel_max_total_size) ∧
  d.(hrmp_max_parachain_inbound_channels) = c.(V4.hrmp_max_parachain_inbound_channels) ∧
  d.(hrmp_channel_max_message_size) = c.(V4.hrmp_channel_max_message_size) ∧
  d.(code_retention_period) = c.(V4.code_retention_period) ∧
  d.(scheduler_params).(num_cores) = c.(V4.parathread_cores) ∧
  d.(scheduler_params).(max_availability_timeouts) = c.(V4.parathread_retries) ∧
  d.(scheduler_params).(group_rotation_frequency) = c.(V4.group_rotation_frequency) ∧
  d.(scheduler_params).(paras_availability_period) = c.(V4.chain_availability_period) ∧
  d.(scheduler_params).(lookahead) = c.(V4.scheduling_lookahead) ∧
  d.(scheduler_params).(max_validators_per_core) = c.(V4.max_validators_per_core) ∧
  d.(max_validators) = c.(V4.max_validators) ∧
  d.(dispute_period) = c.(V4.dispute_period) ∧
  d.(dispute_post_conclusion_acceptance_period) = c.(V4.dispute_post_conclusion_acceptance_period) ∧
  d.(no_show_slots) = c.(V4.no_show_slots) ∧
  d.(n_delay_tranches) = c.(V4.n_delay_tranches) ∧
  d.(zeroth_delay_tranche_width) = c.(V4.zeroth_delay_tranche_width) ∧
  d.(needed_approvals) = c.(V4.needed_approvals) ∧
  d.(relay_vrf_modulo_samples) = c.(V4.relay_vrf_modulo_samples) ∧
  d.(pvf_voting_ttl) = c.(V4.pvf_voting_ttl) ∧
  d.(minimum_validation_upgrade_delay) = c.(V4.minimum_validation_upgrade_delay).

(** One migration on a storage of its version. *)
Lemma versioned_runs v v' unset translate s c p :
  stored s v c p →
  stored (versioned (number v) (number v') (migrate v v' unset translate) s) v' (translate c)
    (map (λ q, (q.1, translate q.2)) p).
Proof.
  intros (Hv & Ha & Hp). unfold versioned. rewrite Hv, Z.eqb_refl. split_and!; [done|..].
  - unfold active_config, migrate. rewrite Ha. apply decode_encode_config.
  - unfold pending_configs at 1, migrate. simpl. by rewrite decode_encode_pending, Hp.
Qed.

(** One migration on a storage of another version. *)
Lemma versioned_skips from to m s v c p :
  number v ≠ from → stored s v c p → versioned from to m s = s.
Proof. intros Hne (Hv & _). unfold versioned. rewrite Hv. by destruct (Z.eqb_spec (number v) from). Qed.

(** The next migration that runs, followed by those after it. *)
Lemma then_run v v' unset translate (rest : ConfigStorage → ConfigStorage) u s c p :
  (∀ s c p, stored s v' c p → stored (rest s) v12 (u c) (map (λ q, (q.1, u q.2)) p)) →
  stored s v c p →
  stored (rest (versioned (number v) (number v') (migrate v v' unset translate) s)) v12 (u (translate c))
    (map (λ q, (q.1, u (translate q.2))) p).
Proof.
  intros Hrest Hs. apply (versioned_runs v v' unset translate), Hrest in Hs. by rewrite map_map in Hs.
Qed.

(** From each version on. *)
Definition runs (v : Version) (rest : ConfigStorage → ConfigStorage) : Prop :=
  ∀ s c p, stored s v c p → stored (rest s) v12 (upgrade v c) (map (λ q, (q.1, upgrade v q.2)) p).

Lemma runs_v12 : runs v12 id.
Proof.
  intros s c p H. simpl. replace (map _ p) with p; [exact H|].
  rewrite <- (map_id p) at 1. by apply map_ext; intros [].
Qed.

Lemma runs_v11 : runs v11 MigrateToV12.
Proof. intros s c p. exact (versioned_runs v11 v12 _ _ s c p). Qed.

Lemma runs_v10 : runs v10 (λ s, MigrateToV12 (MigrateToV11 s)).
Proof. intros s c p. exact (then_run v10 v11 _ _ _ _ s c p runs_v11). Qed.

Lemma runs_v9 : runs v9 (λ s, MigrateToV12 (MigrateToV11 (MigrateToV10 s))).
Proof. intros s c p. exact (then_run v9 v10 _ _ _ _ s c p runs_v10). Qed.

Lemma runs_v8 : runs v8 (λ s, MigrateToV12 (MigrateToV11 (MigrateToV10 (MigrateToV9 s)))).
Proof. intros s c p. exact (then_run v8 v9 _ _ _ _ s c p runs_v9). Qed.

Lemma runs_v7 : runs v7 (λ s, MigrateToV12 (MigrateToV11 (MigrateToV10 (MigrateToV9 (MigrateToV8 s))))).
Proof. intros s c p. exact (then_run v7 v8 _ _ _ _ s c p runs_v8). Qed.

Lemma runs_v6 : runs v6 (λ s, MigrateToV12 (MigrateToV11 (MigrateToV10 (MigrateToV9 (MigrateToV8 (MigrateToV7 s)))))).
Proof. intros s c p. exact (then_run v6 v7 _ _ _ _ s c p runs_v7). Qed.

Lemma runs_v5 : runs v5 (λ s, MigrateToV12 (MigrateToV11 (MigrateToV10 (MigrateToV9 (MigrateToV8 (MigrateToV7 (MigrateToV6 s))))))).
Proof. intros s c p. exact (then_run v5 v6 _ _ _ _ s c p runs_v6). Qed.

Lemma runs_v4 : runs v4 config_migrations.
Proof. intros s c p. exact (then_run v4 v5 _ _ _ _ s c p runs_v5). Qed.

Lemma migrations_run s v c p :
  stored s v c p →
  stored (config_migrations s) v12 (upgrade v c) (map (λ q, (q.1, upgrade v q.2)) p).
Proof.
  intros H. assert (∀ from to m, number v ≠ from → versioned from to m s = s) as Hskip.
  { intros. by eapply versioned_skips. }
  unfold config_migrations, MigrateToV5, MigrateToV6, MigrateToV7, MigrateToV8, MigrateToV9,
    MigrateToV10, MigrateToV11, MigrateToV12.
  destruct v; rewrite ?(Hskip 4 5), ?(Hskip 5 6), ?(Hskip 6 7), ?(Hskip 7 8), ?(Hskip 8 9), ?(Hskip 9 10),
    ?(Hskip 10 11), ?(Hskip 11 12) by discriminate; revert H.
  - exact (runs_v4 s c p).
  - exact (runs_v5 s c p).
  - exact (runs_v6 s c p).
  - exact (runs_v7 s c p).
  - exact (runs_v8 s c p).
  - exact (runs_v9 s c p).
  - exact (runs_v10 s c p).
  - exact (runs_v11 s c p).
  - exact (runs_v12 s c p).
Qed.

Lemma migrations_done s : s.(storage_version) = 12 → config_migrations s = s.
Proof.
  intros Hv. assert (∀ from to m, 12 ≠ from → versioned from to m s = s) as Hskip.
  { intros from to m Hne. unfold versioned. rewrite Hv. by destruct (Z.eqb_spec 12 from). }
  unfold config_migrations, MigrateToV5, MigrateToV6, MigrateToV7, MigrateToV8, MigrateToV9,
    MigrateToV10, MigrateToV11, MigrateToV12.
  by rewrite (Hskip 4 5), (Hskip 5 6), (Hskip 6 7), (Hskip 7 8), (Hskip 8 9), (Hskip 9 10),
    (Hskip 10 11), (Hskip 11 12).
Qed.

(** C27. The upgrade of the configuration is complete and loses nothing.  From
    a storage of any version from 4 to 12, the eight migrations end in version
    12, with every configuration, the one in force and the pending ones, in its
    own session and place, translated to the new format; what the operators of
    the chain had set in version 4 keeps its value under its new name; and
    running the migrations again changes nothing. *)
Theorem configuration_upgraded s v c p :
  stored s v c p →
  stored (config_migrations s) v12 (upgrade v c) (map (λ q, (q.1, upgrade v q.2)) p) ∧
  (∀ old, carried old (upgrade v4 old)) ∧
  config_migrations (config_migrations s) = config_migrations s.
Proof.
  intros H%migrations_run. split_and!; [done|by intros []|].
  apply migrations_done. by destruct H as [Hv _].
Qed.
End migrations.
Arguments ConfigStorage : clear implicits.
