(* ===== verification/RootMigrations.v ===== *)
(** * The migrations of the root chain

    The two migrations of src/thxnet/runtime/thxnet/src/lib.rs that are THXNET's
    own and change more than a version: [EnableAsyncBackingAndCoretime], on the
    configuration, the cores and the claim queue, and
    [FixGrandpaFinalityDeadlock], on pallet-grandpa.  What they log and the
    weights they return are not modelled. *)

From S2P Require Import Prelude Arith Errors Frame HostConfig Configuration ConfigurationSpec ConfigVersions ConfigMigrations.
From S2P Require Grandpa FinalityRescue.
From coqutil Require Import Datatypes.RecordSetters.
Import TriangleBracketNotations.

(** ** [EnableAsyncBackingAndCoretime] *)

Inductive Assignment :=
| Pool (para_id core_index : Z)
| Bulk (para_id : Z).

Record ParasEntry := mkParasEntry {
  assignment : Assignment;
  availability_timeouts : Z;
  entry_ttl : Z;
}.

Inductive CoreOccupied :=
| Free
| Paras (entry : ParasEntry).

(** What the migration reads and writes. *)
Record Relay := mkRelay {
  configuration : State;
  Parachains : list Z;
  ActiveValidatorKeys : list Z;
  AvailabilityCores : list CoreOccupied;
  ClaimQueue : gmap Z (list ParasEntry);
}.

Definition is_none {A} (o : option A) : bool := match o with None => true | Some _ => false end.

(** [if b(cfg) { f(cfg) }] *)
Definition if_so (b : HostConfiguration → bool) (f : HostConfiguration → HostConfiguration)
    (cfg : HostConfiguration) : HostConfiguration :=
  if b cfg then f cfg else cfg.

(** The closure given to [ActiveConfig::mutate], statement by statement. *)
Definition enable_steps (default_num_cores active_validators : Z)
    : list (HostConfiguration → HostConfiguration) :=
  [ if_so (λ cfg, cfg.(scheduler_params).(num_cores) =? 0)
      (λ cfg, cfg<|scheduler_params -> num_cores := default_num_cores|>);
    if_so (λ cfg, is_none cfg.(scheduler_params).(max_validators_per_core) &&
        (15 <=? active_validators) && (3 <=? cfg.(scheduler_params).(num_cores)))
      (λ cfg, cfg<|scheduler_params -> max_validators_per_core := Some 5|>);
    if_so (λ cfg, cfg.(scheduler_params).(lookahead) <? 1)
      (λ cfg, cfg<|scheduler_params -> lookahead := 1|>);
    if_so (λ cfg, cfg.(async_backing_params).(max_candidate_depth) <? 1)
      (λ cfg, cfg<|async_backing_params -> max_candidate_depth := 1|>);
    if_so (λ cfg, cfg.(async_backing_params).(allowed_ancestry_len) <? 2)
      (λ cfg, cfg<|async_backing_params -> allowed_ancestry_len := 2|>);
    if_so (λ cfg, length cfg.(node_features) <? 2)%nat
      (λ cfg, cfg<|node_features := resize 2 false cfg.(node_features)|>);
    λ cfg, cfg<|node_features := <[0%nat := true]> cfg.(node_features)|>;
    λ cfg, cfg<|node_features := <[1%nat := true]> cfg.(node_features)|>;
    if_so (λ cfg, 3 <? length cfg.(node_features))%nat
      (λ cfg, cfg<|node_features := <[3%nat := false]> cfg.(node_features)|>) ].

Definition enable_in (default_num_cores active_validators : Z) (cfg : HostConfiguration)
    : HostConfiguration :=
  foldl (λ cfg step, step cfg) cfg (enable_steps default_num_cores active_validators).

Definition EnableAsyncBackingAndCoretime (r : Relay) : Relay :=
  let para_count := Z.of_nat (length r.(Parachains)) in
  let default_num_cores := wrap U32_MAX (Z.max para_count 1) in
  let active_validators := wrap U32_MAX (Z.of_nat (length r.(ActiveValidatorKeys))) in
  let st := r.(configuration) in
  mkRelay (st<|ActiveConfig := enable_in default_num_cores active_validators st.(ActiveConfig)|>)
    r.(Parachains) r.(ActiveValidatorKeys) (map (λ _, Free) r.(AvailabilityCores)) ∅.

(** ** What it leaves of the configuration *)

(** The node features, on their own. *)
Definition features_on (l : NodeFeatures) : NodeFeatures :=
  let l := if (length l <? 2)%nat then resize 2 false l else l in
  let l := <[1%nat := true]> (<[0%nat := true]> l) in
  if (3 <? length l)%nat then <[3%nat := false]> l else l.

(** Bits 0 and 1 on and bit 3 off, the other bits as they were. *)
Lemma features_on_lookup l i :
  features_on l !! i =
    if decide (i < 2)%nat then Some true
    else if decide (i = 3%nat ∧ (3 < length l)%nat) then Some false else l !! i.
Proof.
  destruct l as [|a [|b [|c [|d l]]]]; destruct i as [|[|[|[|i]]]]; try done.
Qed.

Lemma features_on_idem l : features_on (features_on l) = features_on l.
Proof. by destruct l as [|a [|b [|c [|d l]]]]. Qed.

Definition cores_set (n : Z) (c : HostConfiguration) : Z :=
  if c.(scheduler_params).(num_cores) =? 0 then n else c.(scheduler_params).(num_cores).

Definition group_size_set (n a : Z) (c : HostConfiguration) : option Z :=
  match c.(scheduler_params).(max_validators_per_core) with
  | Some k => Some k
  | None => if (15 <=? a) && (3 <=? cores_set n c) then Some 5 else None
  end.

(** The configuration with its scheduling, its asynchronous backing and its
    features given. *)
Definition with_parts (c : HostConfiguration) (p : SchedulerParams) (b : AsyncBackingParams)
    (l : NodeFeatures) : HostConfiguration :=
  c<|scheduler_params := p|><|async_backing_params := b|><|node_features := l|>.

Definition scheduling_set (n a : Z) (c : HostConfiguration) : SchedulerParams :=
  c.(scheduler_params)<|num_cores := cores_set n c|><|max_validators_per_core := group_size_set n a c|>
    <|lookahead := Z.max 1 c.(scheduler_params).(lookahead)|>.

Definition backing_set (c : HostConfiguration) : AsyncBackingParams :=
  mkAsyncBackingParams (Z.max 1 c.(async_backing_params).(max_candidate_depth))
    (Z.max 2 c.(async_backing_params).(allowed_ancestry_len)).

Lemma if_so_max k x : (if x <? k then k else x) = Z.max k x.
Proof. destruct (Z.ltb_spec x k); lia. Qed.

Lemma with_parts_eta c :
  with_parts c c.(scheduler_params) c.(async_backing_params) c.(node_features) = c.
Proof. by destruct c. Qed.

(** A statement changes one of the parts. *)
Lemma sets_scheduling g f c p b l :
  if_so (λ cfg, g cfg.(scheduler_params)) (λ cfg, cfg<|scheduler_params ::= f|>) (with_parts c p b l)
  = with_parts c (if g p then f p else p) b l.
Proof. unfold if_so. change (scheduler_params (with_parts c p b l)) with p. by destruct (g p). Qed.

Lemma sets_backing g f c p b l :
  if_so (λ cfg, g cfg.(async_backing_params)) (λ cfg, cfg<|async_backing_params ::= f|>) (with_parts c p b l)
  = with_parts c p (if g b then f b else b) l.
Proof. unfold if_so. change (async_backing_params (with_parts c p b l)) with b. by destruct (g b). Qed.

Lemma sets_features g f c p b l :
  if_so (λ cfg, g cfg.(node_features)) (λ cfg, cfg<|node_features := f cfg.(node_features)|>) (with_parts c p b l)
  = with_parts c p b (if g l then f l else l).
Proof. unfold if_so. change (node_features (with_parts c p b l)) with l. by destruct (g l). Qed.

Lemma sets_bit i v c p b l :
  (with_parts c p b l)<|node_features := <[i := v]> (with_parts c p b l).(node_features)|>
  = with_parts c p b (<[i := v]> l).
Proof. done. Qed.

(** All at once: the three parts are set, and nothing else. *)
Lemma enable_in_sets n a c :
  enable_in n a c = with_parts c (scheduling_set n a c) (backing_set c) (features_on c.(node_features)).
Proof.
  rewrite <- (with_parts_eta c) at 1.
  unfold scheduling_set, group_size_set, cores_set, backing_set.
  generalize c.(scheduler_params) c.(async_backing_params) c.(node_features). intros p b l.
  unfold enable_in, enable_steps. cbn [foldl].
  rewrite (sets_scheduling (λ p, p.(num_cores) =? 0) (λ p, p<|num_cores := n|>)),
    (sets_scheduling (λ p, is_none p.(max_validators_per_core) && (15 <=? a) && (3 <=? p.(num_cores)))
      (λ p, p<|max_validators_per_core := Some 5|>)),
    (sets_scheduling (λ p, p.(lookahead) <? 1) (λ p, p<|lookahead := 1|>)),
    (sets_backing (λ b, b.(max_candidate_depth) <? 1) (λ b, b<|max_candidate_depth := 1|>)),
    (sets_backing (λ b, b.(allowed_ancestry_len) <? 2) (λ b, b<|allowed_ancestry_len := 2|>)),
    (sets_features (λ l, length l <? 2)%nat (resize 2 false)), !sets_bit,
    (sets_features (λ l, 3 <? length l)%nat (<[3%nat := false]>)).
  f_equal.
  - destruct p as [? ? mv la nc ? ? ? ? ? ?]. simpl. rewrite <- if_so_max.
    destruct (nc =? 0), mv as [mv|]; simpl; unfold constant; try destruct (_ && _); simpl;
      by destruct (la <? 1).
  - destruct b as [depth ancestry]. simpl. rewrite <- !if_so_max.
    destruct (depth <? 1); simpl; by destruct (ancestry <? 2).
Qed.

Lemma scheduling_set_idem n a c d :
  n ≠ 0 → d.(scheduler_params) = scheduling_set n a c → scheduling_set n a d = scheduling_set n a c.
Proof.
  intros Hn Hd.
  assert (cores_set n d = cores_set n c) as Hcores.
  { unfold cores_set at 1. rewrite Hd. change (num_cores (scheduling_set n a c)) with (cores_set n c).
    destruct (Z.eqb_spec (cores_set n c) 0) as [H|]; [|done]. unfold cores_set in *.
    by destruct (Z.eqb_spec c.(scheduler_params).(num_cores) 0). }
  assert (group_size_set n a d = group_size_set n a c) as Hsize.
  { unfold group_size_set at 1. rewrite Hd, Hcores.
    change (max_validators_per_core (scheduling_set n a c)) with (group_size_set n a c).
    unfold group_size_set. destruct (max_validators_per_core _); [done|]. by destruct (_ && _). }
  unfold scheduling_set at 1. rewrite Hcores, Hsize, Hd. unfold scheduling_set. simpl.
  unfold constant. by rewrite Z.max_assoc.
Qed.

Lemma enable_in_idem n a c : n ≠ 0 → enable_in n a (enable_in n a c) = enable_in n a c.
Proof.
  intros Hn. rewrite (enable_in_sets n a (enable_in n a c)), !(enable_in_sets n a c).
  set (l := features_on c.(node_features)). set (p := scheduling_set n a c).
  rewrite (scheduling_set_idem n a c (with_parts c p (backing_set c) l)) by done.
  change (node_features (with_parts c p (backing_set c) l)) with l.
  replace (features_on l) with l by (symmetry; apply features_on_idem).
  replace (backing_set (with_parts c p (backing_set c) l)) with (backing_set c); [done|].
  unfold backing_set. simpl. unfold constant. simpl. by rewrite !Z.max_assoc.
Qed.

Lemma default_cores r :
  Z.of_nat (length r.(Parachains)) ≤ U32_MAX → wrap U32_MAX (Z.max (Z.of_nat (length r.(Parachains))) 1) ≠ 0.
Proof. intros. rewrite wrap_small; unfold fits, U32_MAX in *; lia. Qed.

Lemma enable_idem r :
  Z.of_nat (length r.(Parachains)) ≤ U32_MAX →
  EnableAsyncBackingAndCoretime (EnableAsyncBackingAndCoretime r) = EnableAsyncBackingAndCoretime r.
Proof.
  intros Hlen%default_cores. destruct r as [[c p b k] ps vs cores q]. unfold EnableAsyncBackingAndCoretime.
  simpl in *. rewrite map_map. unfold constant. by rewrite enable_in_idem.
Qed.

(** C28. [EnableAsyncBackingAndCoretime] leaves a configuration with which
    asynchronous backing works: at least one core, and the least lookahead,
    candidate depth and ancestry it needs, with feature bits 0 and 1 on and bit
    3 off.  What an operator had set to a working value keeps it, the other
    bits and every other parameter are as they were, and no pending
    configuration is touched; every core is free and the claim queue empty.
    Running it again changes nothing. *)
Theorem async_backing_enabled r :
  Z.of_nat (length r.(Parachains)) ≤ U32_MAX →
  let r' := EnableAsyncBackingAndCoretime r in
  let c := r.(configuration).(ActiveConfig) in
  let d := r'.(configuration).(ActiveConfig) in
  d.(scheduler_params).(num_cores) ≠ 0 ∧ 1 ≤ d.(scheduler_params).(lookahead) ∧
  1 ≤ d.(async_backing_params).(max_candidate_depth) ∧
  2 ≤ d.(async_backing_params).(allowed_ancestry_len) ∧
  (∀ i, d.(node_features) !! i =
    if decide (i < 2)%nat then Some true
    else if decide (i = 3%nat ∧ (3 < length c.(node_features))%nat) then Some false
    else c.(node_features) !! i) ∧
  (c.(scheduler_params).(num_cores) ≠ 0 →
    d.(scheduler_params).(num_cores) = c.(scheduler_params).(num_cores)) ∧
  (c.(scheduler_params).(max_validators_per_core) ≠ None →
    d.(scheduler_params).(max_validators_per_core) = c.(scheduler_params).(max_validators_per_core)) ∧
  (1 ≤ c.(scheduler_params).(lookahead) →
    d.(scheduler_params).(lookahead) = c.(scheduler_params).(lookahead)) ∧
  (1 ≤ c.(async_backing_params).(max_candidate_depth) → 2 ≤ c.(async_backing_params).(allowed_ancestry_len) →
    d.(async_backing_params) = c.(async_backing_params)) ∧
  with_parts d (d.(scheduler_params)<|num_cores := c.(scheduler_params).(num_cores)|>
      <|max_validators_per_core := c.(scheduler_params).(max_validators_per_core)|>
      <|lookahead := c.(scheduler_params).(lookahead)|>)
    c.(async_backing_params) c.(node_features) = c ∧
  r'.(configuration).(PendingConfigs) = r.(configuration).(PendingConfigs) ∧
  r'.(AvailabilityCores) = replicate (length r.(AvailabilityCores)) Free ∧ r'.(ClaimQueue) = ∅ ∧
  EnableAsyncBackingAndCoretime r' = r'.
Proof.
  intros Hlen r' c d.
  set (n := wrap U32_MAX (Z.max (Z.of_nat (length r.(Parachains))) 1)).
  set (a := wrap U32_MAX (Z.of_nat (length r.(ActiveValidatorKeys)))).
  assert (n ≠ 0) as Hn by by apply default_cores.
  assert (d = with_parts c (scheduling_set n a c) (backing_set c) (features_on c.(node_features))) as Hd
    by apply enable_in_sets.
  rewrite Hd. unfold scheduling_set, backing_set, cores_set, group_size_set. simpl.
  split_and!.
  - by destruct (Z.eqb_spec c.(scheduler_params).(num_cores) 0).
  - unfold constant. lia.
  - unfold constant. lia.
  - unfold constant. lia.
  - apply features_on_lookup.
  - by destruct (Z.eqb_spec c.(scheduler_params).(num_cores) 0).
  - by destruct (max_validators_per_core _).
  - unfold constant. lia.
  - intros. unfold constant. destruct (async_backing_params c). simpl in *. f_equal; lia.
  - clearbody c. by destruct c as [? ? ? ? ? ? ? ? ? ? ? ? ? ? ? ? ? ? ? ? ? ? ? ? ? ? ? ? ? ? ? ? ? ? []].
  - done.
  - simpl. induction (AvailabilityCores r) as [|x l IH]; [done|]. simpl. by rewrite IH.
  - done.
  - by apply enable_idem.
Qed.

(** ** The configuration after the whole upgrade *)

Section upgrade.
Context {Bytes : Type} `{!Codec Bytes}.

(** The storage of the configuration as the new runtime reads it. *)
Definition load (s : ConfigStorage Bytes) (bypass : bool) (session : Z) : State :=
  mkState (default default_HostConfiguration (active_config v12 s)) (pending_configs v12 s) bypass session.

(** The parameters of version 4 the new check accepts. *)
Record acceptable (c : V4.V4HostConfiguration) : Prop := {
  ac_rotation : c.(V4.group_rotation_frequency) ≠ 0;
  ac_availability : c.(V4.chain_availability_period) ≠ 0;
  ac_no_show : c.(V4.no_show_slots) ≠ 0;
  ac_code : c.(V4.max_code_size) ≤ MAX_CODE_SIZE;
  ac_head : c.(V4.max_head_data_size) ≤ MAX_HEAD_DATA_SIZE;
  ac_pov : c.(V4.max_pov_size) ≤ MAX_POV_SIZE;
  ac_minimum_delay : c.(V4.chain_availability_period) < c.(V4.minimum_validation_upgrade_delay);
  ac_delay : 1 < c.(V4.validation_upgrade_delay);
  ac_upward_size : c.(V4.max_upward_message_size) ≤ MAX_UPWARD_MESSAGE_SIZE_BOUND;
  ac_horizontal_num : c.(V4.hrmp_max_message_num_per_candidate) ≤ MAX_HORIZONTAL_MESSAGE_NUM;
  ac_upward_num : c.(V4.max_upward_message_num_per_candidate) ≤ MAX_UPWARD_MESSAGE_NUM;
  ac_outbound : c.(V4.hrmp_max_parachain_outbound_channels) ≤ HRMP_MAX_OUTBOUND_CHANNELS_BOUND;
  ac_inbound : c.(V4.hrmp_max_parachain_inbound_channels) ≤ HRMP_MAX_INBOUND_CHANNELS_BOUND;
  ac_lookahead : c.(V4.scheduling_lookahead) ≤ 5;
  ac_tranches : c.(V4.n_delay_tranches) ≠ 0;
}.

Lemma load_upgraded s c p b k :
  stored s v4 c p →
  load (config_migrations s) b k = mkState (upgrade v4 c) (map (λ q, (q.1, upgrade v4 q.2)) p) b k.
Proof. intros (_ & Ha & Hp)%migrations_run. unfold load. by rewrite Ha, Hp. Qed.

(** C33. The configuration a chain of version 4 has after the whole upgrade, the
    migrations of its format and then [EnableAsyncBackingAndCoretime], which
    writes it without the check, passes the check exactly if its parameters in
    version 4 do, of which the new one is that the lookahead is at most the
    time to live of five blocks the upgrade sets. *)
Theorem upgraded_consistent s c p b k r :
  stored s v4 c p → r.(configuration) = load (config_migrations s) b k →
  check_consistency (EnableAsyncBackingAndCoretime r).(configuration).(ActiveConfig) = Ok tt ↔ acceptable c.
Proof.
  intros Hs Hr. rewrite (load_upgraded s c p b k Hs) in Hr. rewrite check_consistency_spec.
  set (n := wrap U32_MAX (Z.max (Z.of_nat (length r.(Parachains))) 1)).
  set (a := wrap U32_MAX (Z.of_nat (length r.(ActiveValidatorKeys)))).
  change (ActiveConfig _) with (enable_in n a r.(configuration).(ActiveConfig)).
  rewrite Hr, enable_in_sets. split.
  - intros [? ? ? ? ? ? ? ? ? ? ? ? ? _ _ Hla _ ?].
    change (Z.max 1 c.(V4.scheduling_lookahead) ≤ 5) in Hla. split; try assumption. lia.
  - intros []. split; try assumption; try done.
    change (Z.max 1 c.(V4.scheduling_lookahead) ≤ 5). lia.
Qed.

(** What the migration leaves out.  It writes the configuration in force and
    not the pending ones: if a configuration was pending when the chain was
    upgraded, two sessions later the last of them, as the migrations of the
    format translated it, is in force, with asynchronous backing off, no
    feature bit on and as many cores as version 4 had for parathreads. *)
Theorem pending_config_undoes_enable s c p b k r x y :
  stored s v4 c p → p ≠ [] → map (λ q, (q.1, upgrade v4 q.2)) p = entries k x y →
  r.(configuration) = load (config_migrations s) b k →
  let st := run [NewSession; NewSession] (EnableAsyncBackingAndCoretime r).(configuration) in
  ∃ session old, last p = Some (session, old) ∧ st.(ActiveConfig) = upgrade v4 old ∧
    st.(ActiveConfig).(async_backing_params) = mkAsyncBackingParams 0 0 ∧
    st.(ActiveConfig).(node_features) = [] ∧
    st.(ActiveConfig).(scheduler_params).(num_cores) = old.(V4.parathread_cores).
Proof.
  intros Hs Hp Hxy Hr st. rewrite (load_upgraded s c p b k Hs), Hxy in Hr.
  destruct (last p) as [[session old]|] eqn:Hlast; [|by apply last_None in Hlast].
  exists session, old. split; [done|].
  assert (st.(ActiveConfig) = upgrade v4 old) as Hst; [|by rewrite Hst].
  set (d := (EnableAsyncBackingAndCoretime r).(configuration).(ActiveConfig)).
  assert (refines (EnableAsyncBackingAndCoretime r).(configuration)
    (mkPipeline d (default d x) (default (default d x) y) b)) as Href.
  { exists x, y. subst d. unfold EnableAsyncBackingAndCoretime. by rewrite Hr. }
  apply session_refines, session_refines in Href. destruct Href as (? & ? & _ & Heq).
  apply (f_equal now) in Heq. change (default (default d x) y = st.(ActiveConfig)) in Heq. rewrite <- Heq.
  pose proof (f_equal last Hxy) as Hl.
  change (map ?f p) with (f <$> p) in Hl. rewrite fmap_last, Hlast in Hl.
  destruct x, y; by inversion Hl.
Qed.
End upgrade.

(** ** [FixGrandpaFinalityDeadlock] *)

(** The four storage items are written through their raw keys.  An error of
    [schedule_change] comes before its writes. *)
Definition FixGrandpaFinalityDeadlock (g : Grandpa.GEnv) : Grandpa.GEnv :=
  let n := Frame.block_number (world g) in
  if 14250000 <? n then g
  else
    let cleared := Grandpa.put_Stalled None (Grandpa.put_NextForced None
      (Grandpa.put_PendingChange None (store g))) in
    let g := mkEnv cleared (world g) (events g) in
    let authorities := Grandpa.grandpa_authorities cleared in
    if bool_decide (authorities = []) then g
    else match Grandpa.schedule_change authorities 0 (Some 14206447) g with
    | Err _ => g
    | Ok (_, g) =>
        let current_set_id := (store g).(Grandpa.CurrentSetId) in
        let new_set_id := wrap U64_MAX (current_set_id + 1) in
        mkEnv (Grandpa.put_CurrentSetId new_set_id (store g)) (world g) (events g)
    end.

(** The call of pallet-finality-rescue does what the migration did: from a
    chain at block 14,250,000 or before, a rescue by root with median
    14,206,447 that succeeds leaves pallet-grandpa exactly as
    [FixGrandpaFinalityDeadlock] does.  On a later chain the migration changes
    nothing. *)
Theorem migration_is_rescue `{FinalityRescue.RescueConfig} e e' :
  FinalityRescue.rescue_finality Root 14206447 e = Ok (tt, e') →
  FixGrandpaFinalityDeadlock (world e) =
    if 14250000 <? Frame.block_number (world (world e)) then world e else world e'.
Proof.
  intros (_ & Ha & _ & Hw)%FinalityRescue.rescue_ok. rewrite Hw. unfold FixGrandpaFinalityDeadlock.
  destruct (14250000 <? _); [done|].
  destruct e as [last [s b evs] evs']. simpl in *. unfold Grandpa.grandpa_authorities. simpl.
  rewrite bool_decide_false by done. simpl. by rewrite FinalityRescue.no_delay.
Qed.
