(* ===== verification/ConfigWitnesses.v ===== *)
(** * The configuration: sample runs

    A chain on its way through the upgrade, and the theorems on the configuration
    at it. *)

From S2P Require Import Prelude Arith Errors Frame HostConfig Configuration ConfigurationSpec ConfigVersions ConfigMigrations RootMigrations.
From S2P Require Grandpa FinalityRescue Rootchain.
From coqutil Require Import Datatypes.RecordSetters.
Import TriangleBracketNotations.

(** ** The pallet *)

Definition genesis : State := mkState default_HostConfiguration [] false 0.

(** A change, one that is refused, one on top of the first, and two sessions. *)
Definition busy : list Op :=
  [Do Root (Call_set_max_pov_size 1000); Do Root (Call_set_n_delay_tranches 0); NewSession;
   Do Root (Call_set_scheduling_lookahead 3); NewSession].

Lemma configuration_pipeline_witness :
  refines (run busy genesis)
    (spec_run busy (mkPipeline default_HostConfiguration default_HostConfiguration default_HostConfiguration false)) ∧
  (run busy genesis).(ActiveConfig).(max_pov_size) = 1000.
Proof.
  split; [|vm_compute; reflexivity].
  apply (configuration_pipeline default_HostConfiguration genesis busy); vm_compute; done.
Defined.

Lemma configurations_consistent_witness :
  check_consistency (run busy genesis).(ActiveConfig) = Ok tt ∧ length (run busy genesis).(PendingConfigs) = 1%nat.
Proof.
  split; [|vm_compute; reflexivity].
  apply (configurations_consistent default_HostConfiguration genesis busy); vm_compute; done.
Defined.

(** ** The upgrade *)

(** A codec: a value with its version. *)
Definition Tagged : Type := {v : Version & conf v} + {v : Version & list (Z * conf v)}.

Definition cast (F : Version → Type) (v : Version) (x : {v : Version & F v}) : option (F v) :=
  match decide (projT1 x = v) with
  | left e => Some (eq_rect _ F (projT2 x) _ e)
  | right _ => None
  end.

Lemma cast_tag F v x : cast F v (existT v x) = Some x.
Proof. unfold cast. simpl. rewrite (decide_True_pi (eq_refl v)). done. Qed.

#[local] Instance tagged : Codec Tagged := {|
  encode_config v c := inl (existT v c);
  decode_config v b := match b with inl x => cast conf v x | inr _ => None end;
  encode_pending v p := inr (existT v p);
  decode_pending v b := match b with inr x => cast (λ v, list (Z * conf v)) v x | inl _ => None end;
  decode_encode_config v c := cast_tag conf v c;
  decode_encode_pending v p := cast_tag (λ v, list (Z * conf v)) v p;
|}.

(** A chain of version 4 in session 30, with the same configuration but for one
    parameter pending. *)
Definition old : V4.V4HostConfiguration :=
  V4.default_V4HostConfiguration<|V4.validation_upgrade_delay := 10|><|V4.n_delay_tranches := 40|>
    <|V4.needed_approvals := 30|>.
Definition old_pending : list (Z * V4.V4HostConfiguration) := [(32, old<|V4.max_pov_size := 500|>)].
Definition old_storage : ConfigStorage Tagged :=
  mkConfigStorage 4 (Some (encode_config v4 old)) (Some (encode_pending v4 old_pending)).
Definition upgraded : Relay :=
  mkRelay (load (config_migrations old_storage) false 30) [1000; 1001] [1; 2; 3; 4]
    [Paras (mkParasEntry (Bulk 1000) 0 7); Free] {[ 0 := [mkParasEntry (Bulk 1001) 0 9] ]}.

Lemma old_stored : stored old_storage v4 old old_pending.
Proof. by split_and!. Qed.

Lemma configuration_upgraded_witness :
  stored (config_migrations old_storage) v12 (upgrade v4 old)
    (map (λ q, (q.1, upgrade v4 q.2)) old_pending) ∧
  (upgrade v4 old).(needed_approvals) = 30.
Proof.
  split; [|reflexivity]. apply (configuration_upgraded old_storage v4 old old_pending), old_stored.
Defined.

Lemma async_backing_enabled_witness :
  let d := (EnableAsyncBackingAndCoretime upgraded).(configuration).(ActiveConfig) in
  d.(scheduler_params).(num_cores) ≠ 0 ∧ 1 ≤ d.(async_backing_params).(max_candidate_depth).
Proof.
  destruct (async_backing_enabled upgraded) as (Hn & _ & Hd & _); [by vm_compute|]. by split.
Defined.

Lemma upgraded_consistent_witness :
  check_consistency (EnableAsyncBackingAndCoretime upgraded).(configuration).(ActiveConfig) = Ok tt.
Proof.
  apply (upgraded_consistent old_storage old old_pending false 30 upgraded); [apply old_stored|done|].
  split; by vm_compute.
Defined.

Lemma pending_config_undoes_enable_witness :
  (run [NewSession; NewSession] (EnableAsyncBackingAndCoretime upgraded).(configuration)).(ActiveConfig)
    .(node_features) = [].
Proof.
  destruct (pending_config_undoes_enable old_storage old old_pending false 30 upgraded None
    (Some (upgrade v4 (old<|V4.max_pov_size := 500|>)))) as (? & ? & _ & _ & _ & Hf & _);
    [apply old_stored|done|done|done|exact Hf].
Defined.

(** ** The finality of the root chain *)

Definition deadlocked : FinalityRescue.FEnv := Rootchain.before.
Definition freed : FinalityRescue.FEnv :=
  committed (FinalityRescue.rescue_finality Root 14206447) deadlocked.

Lemma migration_is_rescue_witness :
  FixGrandpaFinalityDeadlock (world deadlocked) = world freed.
Proof. apply (migration_is_rescue deadlocked freed). vm_compute. reflexivity. Defined.
