(* ===== verification/Proxies.v ===== *)
(** * Proxies: what a delegate may do

    The filter pallet-proxy puts on the origin of a proxied call
    (src/substrate/frame/proxy/src/lib.rs), and what a delegate can bring about
    under it, for any runtime.  A call is its pallet and its name; of the
    arguments only the type of a proxy that is added or removed matters.
    RootProxies.v and LeafProxies.v have the proxy types of the two runtimes. *)

From S2P Require Import Prelude.

(** ** Calls and filters *)

(** The calls of pallet-proxy the filter tells apart. *)
Inductive ProxyCall (T : Type) :=
| add_proxy (proxy_type : T)
| remove_proxy (proxy_type : T)
| remove_proxies
| kill_pure
| reject_announcement
| other_proxy_call (name : string).
Arguments add_proxy {_} _.
Arguments remove_proxy {_} _.
Arguments remove_proxies {_}.
Arguments kill_pure {_}.
Arguments reject_announcement {_}.
Arguments other_proxy_call {_} _.

(** A call of a pallet other than pallet-proxy, and a call of pallet-proxy. *)
Inductive ChainCall (T : Type) :=
| OfPallet (pallet call : string)
| OfProxy (call : ProxyCall T).
Arguments OfPallet {_} _ _.
Arguments OfProxy {_} _.

(** [InstanceFilter<RuntimeCall>] with [Default]. *)
Class InstanceFilter (T : Type) := {
  filter_call : T → ChainCall T → bool;
  is_superset : T → T → bool;
  default_type : T;
}.

Definition mem (x : string) (l : list string) : bool := existsb (String.eqb x) l.

(** [matches!(c, RuntimeCall::P(..) | RuntimeCall::Q(pallet::Call::q { .. }) | ..)]: whole
    pallets and single calls. *)
Definition matches {T} (pallets : list string) (calls : list (string * string)) (c : ChainCall T)
    : bool :=
  match c with
  | OfPallet p n => mem p pallets || existsb (λ x, String.eqb p x.1 && String.eqb n x.2) calls
  | OfProxy reject_announcement =>
      mem "Proxy" pallets || existsb (λ x, String.eqb "Proxy" x.1 && String.eqb "reject_announcement" x.2) calls
  | OfProxy _ => mem "Proxy" pallets
  end.

(** The filter [do_proxy] adds to the origin. *)
Definition proxy_filter {T} `{!InstanceFilter T, !EqDecision T} (def : T) (c : ChainCall T) : bool :=
  match c with
  | OfProxy (add_proxy t) | OfProxy (remove_proxy t) =>
      if negb (is_superset def t) then false else filter_call def c
  | OfProxy remove_proxies | OfProxy kill_pure =>
      if negb (bool_decide (def = default_type)) then false else filter_call def c
  | _ => filter_call def c
  end.

(** What the delegate of a proxy of type [t] for an account can have that
    account do: what the filter of [t] lets pass, and what it can do through a
    proxy of another type it has the account add for it. *)
Inductive within_reach {T} `{!InstanceFilter T, !EqDecision T} (t : T) (c : ChainCall T) : Prop :=
| reach_directly : proxy_filter t c = true → within_reach t c
| reach_through t' : proxy_filter t (OfProxy (add_proxy t')) = true → within_reach t' c → within_reach t c.

(** ** Lists of names *)

Definition covers (l1 l2 : list string) : bool := forallb (λ x, mem x l2) l1.

Lemma covers_mem l1 l2 x : covers l1 l2 = true → mem x l1 = true → mem x l2 = true.
Proof.
  unfold covers. rewrite forallb_forall.
  intros Hc (y & Hy & ->%String.eqb_eq)%existsb_exists. by apply Hc.
Qed.

(** A pattern whose pallets are all whole pallets of another. *)
Lemma matches_within {T} l1 c1 l2 c2 (c : ChainCall T) :
  covers (l1 ++ map fst c1) l2 = true → matches l1 c1 c = true → matches l2 c2 c = true.
Proof.
  unfold covers. rewrite forallb_app, andb_true_iff. intros [Hl Hc].
  rewrite forallb_forall in Hc.
  assert (Hcall : ∀ p n, existsb (λ x, String.eqb p x.1 && String.eqb n x.2) c1 = true → mem p l2 = true).
  { intros p n (x & Hx & [->%String.eqb_eq _]%andb_true_iff)%existsb_exists. by apply Hc, in_map. }
  destruct c as [p n|[]]; unfold matches; rewrite ?orb_true_iff; try exact (covers_mem _ _ _ Hl);
    (intros [Hm|Hm]; left; [exact (covers_mem _ _ _ Hl Hm)|exact (Hcall _ _ Hm)]).
Qed.

Section Reach.
Context {T : Type} `{!InstanceFilter T, !EqDecision T}.

(** [missed t c]: what a proxy of type [t] reaches though its own filter
    refuses it.  If the types [t] may add stay within the filter of [t] and
    [missed t], that is all it reaches. *)
Lemma reach_bounded (missed : T → ChainCall T → Prop) t c :
  (∀ t t' c, proxy_filter t (OfProxy (add_proxy t')) = true →
    proxy_filter t' c = true ∨ missed t' c → proxy_filter t c = true ∨ missed t c) →
  within_reach t c → proxy_filter t c = true ∨ missed t c.
Proof. intros Hstep. induction 1 as [?|????? IH]; [by left|by eapply Hstep]. Qed.

Lemma reach_added t t' c :
  proxy_filter t (OfProxy (add_proxy t')) = true → proxy_filter t' c = true → within_reach t c.
Proof. intros Ht Hc. by eapply reach_through, reach_directly. Qed.
End Reach.
