(* ===== verification/RootProxies.v ===== *)
(** * Proxies of the root chain

    [ProxyType] of src/thxnet/runtime/thxnet/src/lib.rs with its filter, and what
    the delegate of each type can bring about. *)

From S2P Require Import Prelude Proxies.

Inductive ProxyType :=
| Any
| NonTransfer
| Governance
| Staking
| IdentityJudgement
| CancelProxy
| Auction
| NominationPools.

#[global] Instance root_proxy_type_eq_dec : EqDecision ProxyType.
Proof. solve_decision. Defined.

Definition filter (t : ProxyType) (c : ChainCall ProxyType) : bool :=
  match t with
  | Any => true
  | NonTransfer =>
      matches ["System"; "Scheduler"; "Babe"; "Timestamp"; "Staking"; "Session"; "Grandpa"; "Treasury";
        "Bounties"; "ChildBounties"; "Democracy"; "Council"; "TechnicalCommittee"; "PhragmenElection";
        "TechnicalMembership"; "Claims"; "Utility"; "Identity"; "Proxy"; "Multisig"; "Crowdloan";
        "Slots"; "Auctions"; "VoterList"; "NominationPools"; "FastUnstake"]
        [("Indices", "claim"); ("Indices", "free"); ("Indices", "freeze"); ("Vesting", "vest");
         ("Vesting", "vest_other"); ("Registrar", "register"); ("Registrar", "deregister");
         ("Registrar", "reserve")] c
  | Governance =>
      matches ["Treasury"; "Bounties"; "Utility"; "ChildBounties"; "Democracy"; "Council";
        "TechnicalCommittee"; "PhragmenElection"; "TechnicalMembership"] [] c
  | Staking =>
      matches ["Staking"; "Session"; "Utility"; "FastUnstake"; "VoterList"; "NominationPools"] [] c
  | NominationPools => matches ["NominationPools"; "Utility"] [] c
  | IdentityJudgement => matches ["Utility"] [("Identity", "provide_judgement")] c
  | CancelProxy => matches [] [("Proxy", "reject_announcement")] c
  | Auction => matches ["Auctions"; "Crowdloan"; "Registrar"; "Slots"] [] c
  end%string.

Definition superset (x y : ProxyType) : bool :=
  if decide (x = y) then true
  else match x, y with
  | Any, _ => true
  | _, Any => false
  | NonTransfer, _ => true
  | _, _ => false
  end.

#[global] Instance root_filter : InstanceFilter ProxyType := {|
  filter_call := filter;
  is_superset := superset;
  default_type := Any;
|}.

(** ** What a delegate reaches *)

(** The calls of the registrar a proxy of type [NonTransfer] may not make. *)
Definition omitted (t : ProxyType) (c : ChainCall ProxyType) : Prop :=
  t = NonTransfer ∧
  match c with
  | OfPallet p n => p = "Registrar" ∧ mem n ["register"; "deregister"; "reserve"] = false
  | OfProxy _ => False
  end%string.

Lemma auction_within c :
  proxy_filter Auction c = true → proxy_filter NonTransfer c = true ∨ omitted NonTransfer c.
Proof.
  destruct c as [p n|[[]|[]| | | |]]; [|done..].
  change (proxy_filter Auction _)
    with (mem p ["Auctions"; "Crowdloan"; "Registrar"; "Slots"]%string || false).
  rewrite orb_false_r. intros (x & Hx & ->%String.eqb_eq)%existsb_exists.
  destruct Hx as [<-|[<-|[<-|[<-|[]]]]]; [by left..| |by left].
  destruct (mem n ["register"; "deregister"; "reserve"]%string) eqn:Hn; [left|by right].
  apply existsb_exists in Hn as (y & Hy & ->%String.eqb_eq).
  by destruct Hy as [<-|[<-|[<-|[]]]].
Qed.

Lemma root_any_allows c : proxy_filter Any c = true.
Proof. by destruct c as [|[[]|[]| | | |]]. Qed.

Lemma narrow_within t c :
  t ≠ Any → t ≠ Auction → proxy_filter t c = true → proxy_filter NonTransfer c = true.
Proof.
  intros Ha Hu. destruct c as [p n|[t'|t'| | | |n]]; destruct t; try done; try (by destruct t');
    by apply matches_within.
Qed.

(** C34. What the delegate of a proxy on the root chain can have an account do, also
    through further proxies it has the account add, is exactly what the filter
    of its type lets pass, with one exception: the delegate of a proxy of type
    [NonTransfer] reaches, through one of type [Auction], the calls of the
    registrar that the filter of [NonTransfer] leaves out, [swap] among them. *)
Theorem root_proxy_reach t c :
  within_reach t c ↔ proxy_filter t c = true ∨ omitted t c.
Proof.
  split.
  - apply reach_bounded. clear. intros t t' c Ht Hc.
    destruct t; try (by destruct t'); [by left; apply root_any_allows|].
    destruct Hc as [Hc|[-> Hc]]; [|by right].
    destruct (decide (t' = Auction)) as [->|]; [by apply auction_within|].
    left. eapply narrow_within; [|done..]. by intros ->.
  - intros [Hc|[-> Hc]]; [by apply reach_directly|].
    eapply (reach_added _ Auction); [done|]. by destruct c as [p n|]; [destruct Hc as [-> _]|].
Qed.
