(* ===== verification/LeafProxies.v ===== *)
(** * Proxies of the leafchain

    [ProxyType] of src/thxnet/leafchain/runtime/general/src/lib.rs with its
    filter, and what the delegate of each type can bring about. *)

From S2P Require Import Prelude Proxies.

Inductive ProxyType :=
| Any
| NonTransfer
| Governance
| Staking
| IdentityJudgement
| CancelProxy.

#[global] Instance leaf_proxy_type_eq_dec : EqDecision ProxyType.
Proof. solve_decision. Defined.

Definition filter (t : ProxyType) (c : ChainCall ProxyType) : bool :=
  match t with
  | Any => true
  | NonTransfer =>
      matches ["System"; "Timestamp"; "Session"; "Utility"; "Proxy"; "Multisig"; "Assets"; "Nfts";
        "TrustlessAgent"] [] c
  | Governance => matches ["Utility"] [] c
  | Staking => matches ["Session"; "Utility"] [] c
  | IdentityJudgement => matches ["Utility"] [("Identity", "provide_judgement")] c
  | CancelProxy => matches [] [("Proxy", "reject_announcement")] c
  end%string.

Definition superset (x y : ProxyType) : bool :=
  if decide (x = y) then true
  else match x, y with
  | Any, _ => true
  | _, Any => false
  | NonTransfer, _ => true
  | _, _ => false
  end.

#[global] Instance leaf_filter : InstanceFilter ProxyType := {|
  filter_call := filter;
  is_superset := superset;
  default_type := Any;
|}.

(** ** What a delegate reaches *)

(** The call a proxy of type [NonTransfer] may not make and one of type
    [IdentityJudgement] may. *)
Definition unlisted (t : ProxyType) (c : ChainCall ProxyType) : Prop :=
  t = NonTransfer ∧ c = OfPallet "Identity" "provide_judgement".

Lemma leaf_any_allows c : proxy_filter Any c = true.
Proof. by destruct c as [|[[]|[]| | | |]]. Qed.

Lemma judgement_within c :
  proxy_filter IdentityJudgement c = true → proxy_filter NonTransfer c = true ∨ unlisted NonTransfer c.
Proof.
  destruct c as [p n|[[]|[]| | | |]]; [|done..].
  intros [(x & Hx & ->%String.eqb_eq)%existsb_exists|(x & Hx & Hn)%existsb_exists]%orb_true_iff.
  - left. by destruct Hx as [<-|[]].
  - right. destruct Hx as [<-|[]]. by apply andb_true_iff in Hn as [->%String.eqb_eq ->%String.eqb_eq].
Qed.

Lemma other_within t c :
  t ≠ Any → t ≠ IdentityJudgement → proxy_filter t c = true → proxy_filter NonTransfer c = true.
Proof.
  intros Ha Hu. destruct c as [p n|[t'|t'| | | |n]]; destruct t; try done; try (by destruct t');
    by apply matches_within.
Qed.

(** What the delegate of a proxy on the leafchain can have an account do, also
    through further proxies it has the account add, is exactly what the filter
    of its type lets pass, with one exception: the delegate of a proxy of type
    [NonTransfer] can provide a judgement on an identity, through one of type
    [IdentityJudgement]. *)
Theorem leaf_proxy_reach t c :
  within_reach t c ↔ proxy_filter t c = true ∨ unlisted t c.
Proof.
  split.
  - apply reach_bounded. clear. intros t t' c Ht Hc.
    destruct t; try (by destruct t'); [by left; apply leaf_any_allows|].
    destruct Hc as [Hc|[-> Hc]]; [|by right].
    destruct (decide (t' = IdentityJudgement)) as [->|]; [by apply judgement_within|].
    left. eapply other_within; [|done..]. by intros ->.
  - intros [Hc|[-> ->]]; [by apply reach_directly|]. by apply (reach_added _ IdentityJudgement).
Qed.
