(* ===== verification/Session.v ===== *)
(** * pallet-session

    substrate/frame/session/src/lib.rs: which validators run the current and the
    next session, and with which keys.  The storage is the part [rest] of a
    [Chain], beside the accounts whose consumer references the calls move.

    [K] is the type of the session keys of the runtime; a key is known by its
    type and its bytes. *)

From S2P Require Import Prelude Arith Errors Frame Balances.
From coqutil Require Import Datatypes.RecordSetters.
Import TriangleBracketNotations SessionErrors.

(** The key types of the root chain, [KeyTypeId]. *)
Inductive KeyTypeId :=
| GRANDPA | BABE | IM_ONLINE | PARA_VALIDATOR | PARA_ASSIGNMENT | AUTHORITY_DISCOVERY.

#[global] Instance KeyTypeId_eq_dec : EqDecision KeyTypeId.
Proof. solve_decision. Defined.

#[global] Instance KeyTypeId_countable : Countable KeyTypeId.
Proof.
  refine (inj_countable'
    (λ i, match i with GRANDPA => 0 | BABE => 1 | IM_ONLINE => 2 | PARA_VALIDATOR => 3
                  | PARA_ASSIGNMENT => 4 | AUTHORITY_DISCOVERY => 5 end)%nat
    (λ n, match n with 0 => GRANDPA | 1 => BABE | 2 => IM_ONLINE | 3 => PARA_VALIDATOR
                  | 4 => PARA_ASSIGNMENT | _ => AUTHORITY_DISCOVERY end)%nat _).
  by intros [].
Defined.

(** [OpaqueKeys]; [ownership_proof_is_valid] is its default, [true]. *)
Class OpaqueKeys (K : Type) := {
  key_ids : list KeyTypeId;
  get_raw : K → KeyTypeId → list Z
}.
Arguments key_ids K {_}.

Record Session (K : Type) := {
  Validators : list AccountId;
  CurrentIndex : Z;
  QueuedChanged : bool;
  QueuedKeys : list (AccountId * K);
  DisabledValidators : list Z;
  NextKeys : gmap AccountId K;
  KeyOwner : gmap (KeyTypeId * list Z) AccountId
}.
Arguments Validators {_} _.
Arguments CurrentIndex {_} _.
Arguments QueuedChanged {_} _.
Arguments QueuedKeys {_} _.
Arguments DisabledValidators {_} _.
Arguments NextKeys {_} _.
Arguments KeyOwner {_} _.

(** [T::ValidatorIdOf] *)
Class SessionConfig := { ValidatorIdOf : AccountId → option AccountId }.

Definition session_err (e : SessionError) : DispatchError := Module_ (InSession e).

Section session.
Context {K : Type} `{OK : OpaqueKeys K} `{EqDecision K}.
Implicit Types (s : Session K) (keys : K).

Definition load_keys (v : AccountId) s : option K := NextKeys s !! v.
Definition key_owner (id : KeyTypeId) (key_data : list Z) s : option AccountId :=
  KeyOwner s !! (id, key_data).
Definition put_keys (v : AccountId) keys s : Session K :=
  s<|NextKeys ::= <[v := keys]>|>.
Definition put_key_owner (id : KeyTypeId) (key_data : list Z) (v : AccountId) s : Session K :=
  s<|KeyOwner ::= <[(id, key_data) := v]>|>.
Definition clear_key_owner (id : KeyTypeId) (key_data : list Z) s : Session K :=
  s<|KeyOwner ::= delete (id, key_data)|>.

(** [inner_set_keys]: the old keys and the new storage. *)
Definition key_is_free (who : AccountId) keys s (id : KeyTypeId) : bool :=
  match key_owner id (get_raw keys id) s with
  | Some owner => bool_decide (owner = who)
  | None => true
  end.

Definition own_key (who : AccountId) keys (old_keys : option K) (id : KeyTypeId) s : Session K :=
  let key := get_raw keys id in
  match (λ k, get_raw k id) <$> old_keys with
  | Some old =>
      if decide (key = old) then s
      else put_key_owner id key who (clear_key_owner id old s)
  | None => put_key_owner id key who s
  end.

Definition inner_set_keys (who : AccountId) keys s
    : result DispatchError (option K * Session K) :=
  let old_keys := load_keys who s in
  if forallb (key_is_free who keys s) (key_ids K) then
    let s := foldl (λ s id, own_key who keys old_keys id s) s (key_ids K) in
    Ok (old_keys, put_keys who keys s)
  else Err (session_err DuplicatedKey).

Context {T : BalancesConfig} {C : SessionConfig}.
Abbreviation L A := (M DispatchError (Chain (Session K)) A).

Definition set_session (s : Session K) (l : Chain (Session K)) : Chain (Session K) :=
  mkChain (Account l) (TotalIssuance l) s.

Definition do_set_keys (account : AccountId) keys : L unit :=
  who ← ok_or (ValidatorIdOf account) (session_err NoAssociatedValidatorId);
  can ← gets (can_inc_consumer account);
  ensure can (session_err NoAccount) ;;
  s ← gets rest;
  '(old_keys, s') ← of_result (inner_set_keys who keys s);
  modify (set_session s') ;;
  when (bool_decide (old_keys = None)) (modify (committed (inc_consumers account))).

Definition set_keys (origin : Origin) keys : L unit :=
  who ← ensure_signed origin;
  do_set_keys who keys.

Definition clear_keys (old_keys : K) s : Session K :=
  foldl (λ s id, clear_key_owner id (get_raw old_keys id) s) s (key_ids K).

(** [ValidatorId] is the account itself, so that [try_from] succeeds. *)
Definition do_purge_keys (account : AccountId) : L unit :=
  let who := default account (ValidatorIdOf account) in
  s ← gets rest;
  old_keys ← ok_or (load_keys who s) (session_err NoKeys);
  modify (set_session (clear_keys old_keys (s<|NextKeys ::= delete who|>))) ;;
  dec_consumers account.

Definition purge_keys (origin : Origin) : L unit :=
  who ← ensure_signed origin;
  do_purge_keys who.

(** [binary_search] of a sorted vector: the place of [i], or where it belongs. *)
Definition search (l : list Z) (i : Z) : result nat nat :=
  let p := length (filter (λ j, j < i) l) in
  if decide (l !! p = Some i) then Ok p else Err p.

Definition disable_index (i : Z) s : bool * Session K :=
  if Z.of_nat (length (Validators s)) <=? i then (false, s)
  else
    match search (DisabledValidators s) i with
    | Err p =>
        (true, s<|DisabledValidators := take p (DisabledValidators s) ++
                                        i :: drop p (DisabledValidators s)|>)
    | Ok _ => (false, s)
    end.

Fixpoint index_of (c : AccountId) (l : list AccountId) : option nat :=
  match l with
  | [] => None
  | v :: l' => if decide (v = c) then Some 0%nat else S <$> index_of c l'
  end.

Definition disable (c : AccountId) s : bool * Session K :=
  match index_of c (Validators s) with
  | Some i => disable_index (Z.of_nat i) s
  | None => (false, s)
  end.

(** The closure [check_next_changed]: the keys that are left to compare with,
    and whether a change was seen. *)
Definition check_next_changed (keys : K) (st : list (AccountId * K) * bool)
    : list (AccountId * K) * bool :=
  let '(now, changed) := st in
  if changed then (now, changed)
  else
    match now with
    | (_, old_keys) :: now' => (now', negb (bool_decide (old_keys = keys)))
    | [] => ([], false)
    end.

Fixpoint amalgamate (s : Session K) (next : list AccountId)
    (st : list (AccountId * K) * bool) : list (AccountId * K) * bool :=
  match next with
  | [] => ([], st.2)
  | a :: next' =>
      match load_keys a s with
      | Some k =>
          let '(q, changed) := amalgamate s next' (check_next_changed k st) in
          ((a, k) :: q, changed)
      | None => amalgamate s next' st
      end
  end.

(** [rotate_session].  [started] are the validators that the session manager
    disables when the session starts, [maybe_next] the set it proposes for the
    next one.  The second component is what the session handlers are told:
    whether the set changed, the keys of the session and those queued. *)
Definition rotate_session (started : list Z) (maybe_next : option (list AccountId)) s
    : Session K * (bool * list (AccountId * K) * list (AccountId * K)) :=
  let changed := QueuedChanged s in
  let session_keys := QueuedKeys s in
  let s := s<|Validators := session_keys.*1|> in
  let s := if changed then s<|DisabledValidators := []|> else s in
  let s := s<|CurrentIndex ::= λ i, wrap U32_MAX (i + 1)|> in
  let s := foldl (λ s i, (disable_index i s).2) s started in
  let '(next_validators, next_identities_changed) :=
    match maybe_next with
    | Some validators => (validators, true)
    | None => (Validators s, false)
    end in
  let '(queued, next_changed) :=
    amalgamate s next_validators (session_keys, next_identities_changed) in
  (s<|QueuedKeys := queued|><|QueuedChanged := next_changed|>,
   (changed, session_keys, queued)).

(** ** Genesis *)

(** [frame_system::inc_consumers_without_limit] *)
Definition inc_consumers_without_limit (who : AccountId) : L unit :=
  a ← gets (get_info who);
  if 0 <? providers a then
    modify (put_info who (mkAccountInfo (saturating_add U32_MAX (consumers a) 1)
                            (providers a) (sufficients a) (data a)))
  else fail NoProviders.

(** [if inc_consumers_without_limit(..).is_err() { inc_providers(..) }] *)
Definition genesis_reference (account : AccountId) : L unit := λ l,
  match inc_consumers_without_limit account l with
  | Ok r => Ok r
  | Err _ => inc_providers account l
  end.

(** One entry of the genesis; an [Err] is the panic of [expect]. *)
Definition genesis_keys (e : AccountId * AccountId * K) : L unit :=
  let '(account, val, keys) := e in
  s ← gets rest;
  '(_, s') ← of_result (inner_set_keys val keys s);
  modify (set_session s') ;;
  genesis_reference account.

(** [BuildGenesisConfig::build] on an empty storage.  [handler_ids] are the key
    types of the session handlers, [genesis_0] and [genesis_1] what the session
    manager proposes for the first two sessions. *)
Definition build (handler_ids : list KeyTypeId) (entries : list (AccountId * AccountId * K))
    (genesis_0 genesis_1 : option (list AccountId)) : L unit :=
  ensure (bool_decide (handler_ids = key_ids K)) (Other "session keys and handlers differ") ;;
  for_each entries genesis_keys ;;
  let initial_validators_0 := default ((λ e, e.1.2) <$> entries) genesis_0 in
  let initial_validators_1 := default initial_validators_0 genesis_1 in
  modify (λ l,
    let queued := omap (λ v, (λ k, (v, k)) <$> load_keys v (rest l)) initial_validators_1 in
    set_session ((rest l)<|Validators := initial_validators_0|><|QueuedKeys := queued|>) l).

Definition empty_session : Session K :=
  {| Validators := []; CurrentIndex := 0; QueuedChanged := false; QueuedKeys := [];
     DisabledValidators := []; NextKeys := ∅; KeyOwner := ∅ |}.
End session.

(** [upgrade_keys]: [order] are the entries of [NextKeys] in the order in which
    the storage iterates over them. *)
Section upgrade.
Context {Old K : Type} `{OpaqueKeys Old} `{OpaqueKeys K}.

Definition upgrade_entry (upgrade : AccountId → Old → K)
    (m : gmap AccountId K * gmap (KeyTypeId * list Z) AccountId) (e : AccountId * Old)
    : gmap AccountId K * gmap (KeyTypeId * list Z) AccountId :=
  let '(val, old_keys) := e in
  let owners := foldl (λ o i, delete (i, get_raw old_keys i) o) m.2 (key_ids Old) in
  let new_keys := upgrade val old_keys in
  let owners := foldl (λ o i, <[(i, get_raw new_keys i) := val]> o) owners (key_ids K) in
  (<[val := new_keys]> m.1, owners).

Definition upgrade_keys (order : list (AccountId * Old)) (upgrade : AccountId → Old → K)
    (s : Session Old) : Session K :=
  let m := foldl (upgrade_entry upgrade) (∅, KeyOwner s) order in
  {| Validators := Validators s; CurrentIndex := CurrentIndex s;
     QueuedChanged := QueuedChanged s;
     QueuedKeys := (λ '(val, old_keys), (val, upgrade val old_keys)) <$> QueuedKeys s;
     DisabledValidators := DisabledValidators s;
     NextKeys := m.1; KeyOwner := m.2 |}.
End upgrade.
