(* ===== verification/SessionTheorems.v ===== *)
(** * The registry of session keys

    [registry]: the owners of keys are exactly the inverse of the keys of the
    validators, so that no key is registered twice.  It holds in every state
    that the calls of pallet-session, the change of sessions and the disabling of
    validators reach.  The second part is about the change of sessions. *)

From S2P Require Import Prelude Arith Errors Frame Balances Session.
From coqutil Require Import Datatypes.RecordSetters.
Import TriangleBracketNotations SessionErrors.

Section registry.
Context {K : Type} `{OK : OpaqueKeys K} `{EqDecision K}.
Implicit Types (s : Session K) (keys : K).

Definition registry s : Prop :=
  (∀ v ks id, NextKeys s !! v = Some ks → id ∈ key_ids K →
     KeyOwner s !! (id, get_raw ks id) = Some v)
  ∧ (∀ id k v, KeyOwner s !! (id, k) = Some v →
     id ∈ key_ids K ∧ ∃ ks, NextKeys s !! v = Some ks ∧ get_raw ks id = k).

(** The disabled validators are in order and no validator is disabled twice. *)
Definition disabled_sorted s : Prop := StronglySorted Z.lt (DisabledValidators s).

Lemma registry_same s s' :
  NextKeys s' = NextKeys s → KeyOwner s' = KeyOwner s → registry s → registry s'.
Proof. unfold registry. by intros -> ->. Qed.

(** ** Setting keys *)

(** What [own_key] leaves at its own key type. *)
Definition owner_after (who : AccountId) keys (old : option K) (id : KeyTypeId) (k : list Z)
    (o : option AccountId) : option AccountId :=
  match (λ x, get_raw x id) <$> old with
  | Some r =>
      if decide (get_raw keys id = r) then o
      else if decide (k = get_raw keys id) then Some who
      else if decide (k = r) then None else o
  | None => if decide (k = get_raw keys id) then Some who else o
  end.

Lemma owner_after_idem who keys old id k o :
  owner_after who keys old id k (owner_after who keys old id k o)
  = owner_after who keys old id k o.
Proof. unfold owner_after. destruct old; simpl; repeat case_decide; done. Qed.

Lemma own_key_owner who keys old id' s id k :
  KeyOwner (own_key who keys old id' s) !! (id, k)
  = if decide (id = id') then owner_after who keys old id k (KeyOwner s !! (id, k))
    else KeyOwner s !! (id, k).
Proof.
  unfold own_key, owner_after, put_key_owner, clear_key_owner.
  destruct (decide (id = id')) as [->|Hne].
  - destruct old as [o|]; simpl; repeat case_decide; subst; simpl;
      rewrite ?lookup_insert_eq, ?lookup_insert_ne, ?lookup_delete_eq, ?lookup_delete_ne
        by congruence; done.
  - destruct old as [o|]; simpl; [case_decide|]; simpl;
      rewrite ?lookup_insert_ne, ?lookup_delete_ne by congruence; done.
Qed.

Lemma own_key_next who keys old id s : NextKeys (own_key who keys old id s) = NextKeys s.
Proof. unfold own_key. destruct old; simpl; [by case_decide|done]. Qed.

Lemma own_keys_owner who keys old ids s id k :
  KeyOwner (foldl (λ s id, own_key who keys old id s) s ids) !! (id, k)
  = if decide (id ∈ ids) then owner_after who keys old id k (KeyOwner s !! (id, k))
    else KeyOwner s !! (id, k).
Proof.
  induction ids as [|id' ids IH] using rev_ind; [done|].
  rewrite foldl_app. simpl. rewrite own_key_owner, IH.
  destruct (decide (id = id')) as [->|Hne].
  - rewrite (decide_True (P := id' ∈ ids ++ [id'])) by set_solver.
    destruct (decide (id' ∈ ids)); [apply owner_after_idem|done].
  - destruct (decide (id ∈ ids)), (decide (id ∈ ids ++ [id'])); set_solver.
Qed.

Lemma own_keys_next who keys old ids s :
  NextKeys (foldl (λ s id, own_key who keys old id s) s ids) = NextKeys s.
Proof.
  induction ids as [|id ids IH] using rev_ind; [done|].
  rewrite foldl_app. simpl. by rewrite own_key_next.
Qed.

Lemma inner_set_keys_registry who keys s old s' :
  registry s → inner_set_keys who keys s = Ok (old, s') →
  registry s' ∧ NextKeys s' = <[who := keys]> (NextKeys s) ∧ old = NextKeys s !! who.
Proof.
  intros [Hown Hinv]. unfold inner_set_keys, load_keys.
  destruct (forallb _ _) eqn:Ef; [|done]. intros [= <- <-].
  assert (∀ id, id ∈ key_ids K → key_is_free who keys s id = true) as Hfree.
  { intros id Hid. rewrite forallb_forall in Ef. apply Ef. by apply list_elem_of_In. }
  set (s1 := foldl _ s (key_ids K)).
  assert (NextKeys (put_keys who keys s1) = <[who := keys]> (NextKeys s)) as EN
    by (unfold put_keys; simpl; f_equal; apply own_keys_next).
  assert (∀ id k, KeyOwner (put_keys who keys s1) !! (id, k) =
    if decide (id ∈ key_ids K)
    then owner_after who keys (NextKeys s !! who) id k (KeyOwner s !! (id, k))
    else KeyOwner s !! (id, k)) as EO by (intros; apply own_keys_owner).
  split; [|done]. split.
  - intros v ks id. rewrite EN, EO. intros Hv Hid. rewrite decide_True by done.
    unfold owner_after. apply lookup_insert_Some in Hv as [[-> ->]|[Hne Hv]].
    + destruct (NextKeys s !! v) as [o|] eqn:Eo; simpl; repeat case_decide; try done.
      rewrite H. by apply Hown.
    + pose proof (Hown _ _ _ Hv Hid) as Ho. specialize (Hfree id Hid).
      unfold key_is_free, key_owner in Hfree.
      destruct (NextKeys s !! who) as [o|] eqn:Eo; simpl; repeat case_decide; subst; try done.
      * rewrite <- H0, Ho in Hfree. by apply bool_decide_eq_true in Hfree.
      * pose proof (Hown _ _ _ Eo Hid) as Ho'. congruence.
      * rewrite <- H, Ho in Hfree. by apply bool_decide_eq_true in Hfree.
  - intros id k v. rewrite EN, EO. destruct (decide (id ∈ key_ids K)) as [Hid|Hid].
    2:{ intros Hk. by destruct (Hinv _ _ _ Hk). }
    intros Hk. split; [done|]. unfold owner_after in Hk.
    assert ((v = who ∧ k = get_raw keys id) ∨
            (KeyOwner s !! (id, k) = Some v ∧
             (v = who → ∃ o, NextKeys s !! who = Some o ∧ get_raw keys id = get_raw o id))) as Hc.
    { destruct (NextKeys s !! who) as [o|] eqn:Eo; simpl in Hk; repeat case_decide;
        simplify_eq; eauto; right; (split; [done|]); intros ->; eauto;
        destruct (Hinv _ _ _ Hk) as (_ & ks & Hks & Hraw); congruence. }
    destruct Hc as [[-> ->]|[Hs Hwho]]; [exists keys; by rewrite lookup_insert_eq|].
    destruct (Hinv _ _ _ Hs) as (_ & ks & Hks & Hraw). destruct (decide (v = who)) as [->|Hne].
    + destruct (Hwho eq_refl) as (o & Ho & E). exists keys. rewrite lookup_insert_eq.
      split; [done|]. congruence.
    + exists ks. by rewrite lookup_insert_ne.
Qed.

(** ** Purging keys *)

Lemma clear_keys_next old s : NextKeys (clear_keys old s) = NextKeys s.
Proof.
  unfold clear_keys. induction (key_ids K) as [|id ids IH] using rev_ind; [done|].
  rewrite foldl_app. simpl. done.
Qed.

Lemma clear_key_owner_lookup id' kd s id k :
  KeyOwner (clear_key_owner id' kd s) !! (id, k)
  = if decide (id = id' ∧ k = kd) then None else KeyOwner s !! (id, k).
Proof.
  unfold clear_key_owner. simpl. case_decide as Hd.
  - destruct Hd as [-> ->]. apply lookup_delete_eq.
  - apply lookup_delete_ne. naive_solver.
Qed.

Lemma clear_keys_owner old s id k :
  KeyOwner (clear_keys old s) !! (id, k)
  = if decide (id ∈ key_ids K ∧ k = get_raw old id) then None else KeyOwner s !! (id, k).
Proof.
  unfold clear_keys. induction (key_ids K) as [|id' ids IH] using rev_ind.
  { rewrite decide_False; [done|]. set_solver. }
  rewrite foldl_app. cbn [foldl]. rewrite clear_key_owner_lookup, IH.
  destruct (decide (id = id' ∧ k = get_raw old id')) as [[-> ->]|Hne].
  - rewrite decide_True; [done|]. set_solver.
  - destruct (decide (id ∈ ids ∧ _)), (decide (id ∈ ids ++ [id'] ∧ _)); set_solver.
Qed.

Lemma purge_registry who old s :
  registry s → NextKeys s !! who = Some old →
  registry (clear_keys old (s<|NextKeys ::= delete who|>)).
Proof.
  intros [Hown Hinv] Hold.
  assert (NextKeys (clear_keys old (s<|NextKeys ::= delete who|>)) = delete who (NextKeys s)) as EN
    by apply clear_keys_next.
  split.
  - intros v ks id. rewrite EN, clear_keys_owner. intros [Hne Hv]%lookup_delete_Some Hid.
    pose proof (Hown _ _ _ Hv Hid) as Ho. simpl. rewrite decide_False; [done|].
    intros [_ E]. rewrite E, (Hown _ _ _ Hold Hid) in Ho. congruence.
  - intros id k v. rewrite EN, clear_keys_owner. case_decide as Hd; [done|]. simpl. intros Hk.
    destruct (Hinv _ _ _ Hk) as (Hid & ks & Hks & Hraw). split; [done|]. exists ks.
    split; [|done]. rewrite lookup_delete_ne; [done|]. intros ->. apply Hd.
    split; [done|]. congruence.
Qed.

(** ** Disabling and rotating *)

Lemma disable_index_registry i s : registry s → registry (disable_index i s).2.
Proof.
  unfold disable_index. intros Hs. case_match; [done|]. case_match; [done|].
  by apply (registry_same s).
Qed.

Lemma filter_lt_sorted l i :
  StronglySorted Z.lt l →
  filter (λ j, j < i) l = take (length (filter (λ j, j < i) l)) l
  ∧ Forall (λ j, i ≤ j) (drop (length (filter (λ j, j < i) l)) l).
Proof.
  induction 1 as [|j l Hl IH Hj]; [done|]. destruct IH as [IH1 IH2].
  destruct (decide (j < i)) as [Hlt|Hge].
  - rewrite filter_cons_True by done. simpl. split; [by f_equal|done].
  - rewrite filter_cons_False by done.
    assert (filter (λ j, j < i) l = []) as E.
    { apply elem_of_nil_inv. intros k [Hki Hk]%list_elem_of_filter.
      rewrite Forall_forall in Hj. specialize (Hj k Hk). lia. }
    rewrite E. simpl. split; [done|]. constructor; [lia|].
    eapply Forall_impl; [exact Hj|]. simpl. lia.
Qed.

Lemma sorted_insert l i :
  StronglySorted Z.lt l → l !! length (filter (λ j, j < i) l) ≠ Some i →
  StronglySorted Z.lt (take (length (filter (λ j, j < i) l)) l
    ++ i :: drop (length (filter (λ j, j < i) l)) l).
Proof.
  intros Hl Hne. destruct (filter_lt_sorted l i Hl) as [E Hge].
  set (p := length _) in *.
  pose proof Hl as Hl'. rewrite <- (take_drop p l) in Hl'.
  apply StronglySorted_app in Hl' as (_ & Ht & Hd).
  assert (Forall (λ j, j < i) (take p l)) as Hlt.
  { rewrite <- E. apply Forall_forall. intros j [? _]%list_elem_of_filter. done. }
  assert (Forall (λ j, i < j) (drop p l)) as Hgt.
  { apply Forall_forall. intros j Hj. rewrite Forall_forall in Hge.
    destruct (decide (j = i)) as [->|]; [|specialize (Hge j Hj); lia].
    destruct (drop p l) as [|j' l'] eqn:Ed; [by apply not_elem_of_nil in Hj|].
    assert (l !! p = Some j') as Ep.
    { rewrite <- (Nat.add_0_r p), <- lookup_drop, Ed. done. }
    apply elem_of_cons in Hj as [->|Hj]; [done|].
    apply StronglySorted_inv in Hd as [_ Hd].
    rewrite Forall_forall in Hd. specialize (Hd _ Hj).
    specialize (Hge j' ltac:(apply list_elem_of_here)). simpl in Hge. lia. }
  apply StronglySorted_app_2.
  - intros a b Ha Hb. rewrite Forall_forall in Hlt, Hgt.
    apply elem_of_cons in Hb as [->|Hb]; [by apply Hlt|].
    specialize (Hlt a Ha). specialize (Hgt b Hb). simpl in *. lia.
  - done.
  - by constructor.
Qed.

Definition session_ok s : Prop := registry s ∧ disabled_sorted s.

Lemma disable_index_ok i s : session_ok s → session_ok (disable_index i s).2.
Proof.
  intros [Hr Hd]. split; [by apply disable_index_registry|].
  unfold disable_index, disabled_sorted. case_match; [done|].
  unfold search. case_decide as Hp; [done|]. simpl. by apply sorted_insert.
Qed.

Lemma disable_ok c s : session_ok s → session_ok (disable c s).2.
Proof. unfold disable. case_match; [apply disable_index_ok|done]. Qed.

Lemma disable_all_ok l s :
  session_ok s → session_ok (foldl (λ s i, (disable_index i s).2) s l).
Proof. revert s. induction l as [|i l IH]; intros s Hs; [done|]. by apply IH, disable_index_ok. Qed.

Lemma rotate_session_ok started next s : session_ok s → session_ok (rotate_session started next s).1.
Proof.
  intros Hs. unfold rotate_session.
  set (s1 := foldl _ _ started).
  assert (session_ok s1) as H1.
  { apply disable_all_ok. destruct Hs as [Hr Hd]. destruct (QueuedChanged s); split; try done.
    constructor. }
  destruct (match next with Some _ => _ | None => _ end) as [nv nc].
  destruct (amalgamate s1 nv _) as [q c]. exact H1.
Qed.

(** ** All that happens to the storage *)

Context {T : BalancesConfig} {C : SessionConfig}.
Implicit Types l : Chain (Session K).

Lemma own_keys_disabled who keys old ids s :
  DisabledValidators (foldl (λ s id, own_key who keys old id s) s ids) = DisabledValidators s.
Proof.
  induction ids as [|id ids IH] using rev_ind; [done|]. rewrite foldl_app. simpl.
  unfold own_key at 1. destruct old; simpl; [case_decide|]; done.
Qed.

Lemma put_keys_disabled who keys s :
  DisabledValidators (put_keys who keys s) = DisabledValidators s.
Proof. reflexivity. Qed.

Lemma inner_set_keys_ok who keys s old s' :
  session_ok s → inner_set_keys who keys s = Ok (old, s') → session_ok s'.
Proof.
  intros [Hr Hd] H. split; [by eapply inner_set_keys_registry|].
  unfold inner_set_keys in H. case_match; [|done]. injection H as _ <-.
  unfold disabled_sorted. by rewrite put_keys_disabled, own_keys_disabled.
Qed.

Lemma clear_keys_ok old who s :
  session_ok s → load_keys who s = Some old →
  session_ok (clear_keys old (s<|NextKeys ::= delete who|>)).
Proof.
  intros [Hr Hd] H. split; [by apply purge_registry|].
  unfold disabled_sorted, clear_keys.
  induction (key_ids K) as [|id ids IH] using rev_ind; [done|]. by rewrite foldl_app.
Qed.

(** The reference counts are in another part of the state. *)
Lemma inc_consumers_rest who l l' : l ⊢ inc_consumers who ⇝ l' → rest l' = rest l.
Proof. intros H. unfold inc_consumers in H. minv. repeat case_match; minv; done. Qed.
Lemma dec_consumers_rest who l l' : l ⊢ dec_consumers who ⇝ l' → rest l' = rest l.
Proof. intros H. unfold dec_consumers in H. minv. done. Qed.
Lemma genesis_reference_rest who l l' : l ⊢ genesis_reference who ⇝ l' → rest l' = rest l.
Proof.
  intros H. unfold genesis_reference in H.
  destruct (inc_consumers_without_limit who l) as [[[] l1]|e] eqn:E.
  - minv. unfold inc_consumers_without_limit in E. minv. case_match; minv. done.
  - unfold inc_providers in H. minv. done.
Qed.

Lemma set_keys_ok origin keys l l' :
  session_ok (rest l) → l ⊢ set_keys origin keys ⇝ l' → session_ok (rest l').
Proof.
  intros Hs H. unfold set_keys, do_set_keys in H. minv.
  apply ensure_signed_ok in H0 as [-> ->]. destruct x9 as [old s']. minv.
  apply inner_set_keys_ok in H3; [|done].
  apply when_ok in H as [[_ H]|[_ ->]]; [|done]. minv. unfold committed.
  destruct (inc_consumers x _) as [[[] l1]|] eqn:E; [|done].
  by rewrite (inc_consumers_rest _ _ _ E).
Qed.

Lemma purge_keys_ok origin l l' :
  session_ok (rest l) → l ⊢ purge_keys origin ⇝ l' → session_ok (rest l').
Proof.
  intros Hs H. unfold purge_keys, do_purge_keys in H. minv.
  apply ensure_signed_ok in H0 as [-> ->].
  rewrite (dec_consumers_rest _ _ _ H). by apply clear_keys_ok.
Qed.

Lemma build_ok handler_ids entries g0 g1 l l' :
  rest l = empty_session → l ⊢ build handler_ids entries g0 g1 ⇝ l' → session_ok (rest l').
Proof.
  intros E H. unfold build in H. minv.
  assert (session_ok (rest x2)) as [Hr Hd]; [|by split].
  assert (session_ok (rest l)) as Hl.
  { rewrite E. split; [|constructor]. split; intros *; simpl; by rewrite lookup_empty. }
  revert Hl H1. apply (for_each_inv (λ l, session_ok (rest l))).
  intros [[account val] keys] l1 l2 _ H1 H2. unfold genesis_keys in H2. minv.
  match goal with p : option K * Session K |- _ => destruct p as [old s'] end. minv.
  rewrite (genesis_reference_rest _ _ _ H2). by eapply inner_set_keys_ok.
Qed.

(** What can happen between genesis and now: calls, whether they succeed or not,
    the change of the session, validators being disabled, and whatever the rest of
    the runtime does to the accounts. *)
Inductive session_step : Chain (Session K) → Chain (Session K) → Prop :=
| step_set_keys origin keys l : session_step l (committed (set_keys origin keys) l)
| step_purge_keys origin l : session_step l (committed (purge_keys origin) l)
| step_rotate started next l :
    session_step l (set_session (rotate_session started next (rest l)).1 l)
| step_disable_index i l : session_step l (set_session (disable_index i (rest l)).2 l)
| step_disable c l : session_step l (set_session (disable c (rest l)).2 l)
| step_accounts l l' : rest l' = rest l → session_step l l'.

Inductive session_reachable : Chain (Session K) → Prop :=
| reach_genesis handler_ids entries g0 g1 l l' :
    rest l = empty_session → l ⊢ build handler_ids entries g0 g1 ⇝ l' → session_reachable l'
| reach_step l l' : session_reachable l → session_step l l' → session_reachable l'.

Lemma session_step_ok l l' : session_step l l' → session_ok (rest l) → session_ok (rest l').
Proof.
  intros H Hs. destruct H as [origin keys l|origin l|started next l|i l|c l|l l' E].
  - unfold committed. destruct (set_keys origin keys l) as [[[] l']|] eqn:E; [|done].
    by eapply set_keys_ok.
  - unfold committed. destruct (purge_keys origin l) as [[[] l']|] eqn:E; [|done].
    by eapply purge_keys_ok.
  - by apply rotate_session_ok.
  - by apply disable_index_ok.
  - by apply disable_ok.
  - by rewrite E.
Qed.

(** C17. In every state that pallet-session reaches, the owners of keys are exactly the
    inverse of the keys of the validators: each registered key has its validator
    as owner, nothing else has an owner, and no two validators share a key of any
    type.  The disabled validators are sorted, as their binary search needs. *)
Theorem session_registry l :
  session_reachable l →
  registry (rest l) ∧ disabled_sorted (rest l)
  ∧ (∀ v v' ks ks' id, NextKeys (rest l) !! v = Some ks → NextKeys (rest l) !! v' = Some ks' →
       id ∈ key_ids K → get_raw ks id = get_raw ks' id → v = v').
Proof.
  intros H. assert (session_ok (rest l)) as [Hr Hd].
  { induction H as [? ? ? ? ? ? E Hb|l l' _ IH Hst]; [by eapply build_ok|].
    by eapply session_step_ok. }
  split; [done|]. split; [done|]. intros v v' ks ks' id Hv Hv' Hid E. destruct Hr as [Hown _].
  pose proof (Hown _ _ _ Hv Hid) as H1. pose proof (Hown _ _ _ Hv' Hid) as H2.
  rewrite E in H1. congruence.
Qed.
End registry.

(** ** The change of a session *)

Section rotation.
Context {K : Type} `{OK : OpaqueKeys K} `{EqDecision K}.
Implicit Types s : Session K.

Lemma amalgamate_loads s next st v k :
  (v, k) ∈ (amalgamate s next st).1 → v ∈ next ∧ load_keys v s = Some k.
Proof.
  revert st. induction next as [|a next IH]; intros st; simpl; [by intros H%not_elem_of_nil|].
  destruct (load_keys a s) as [ka|] eqn:Ea.
  - destruct (amalgamate s next (check_next_changed ka st)) as [q c] eqn:Eq. simpl.
    intros [H|H]%elem_of_cons.
    + injection H as -> ->. split; [apply list_elem_of_here|done].
    + destruct (IH (check_next_changed ka st)) as [? ?]; [by rewrite Eq|].
      split; [by apply list_elem_of_further|done].
  - intros H. destruct (IH st H). split; [by apply list_elem_of_further|done].
Qed.

Lemma amalgamate_changed s next now : (amalgamate s next (now, true)).2 = true.
Proof.
  induction next as [|a next IH]; simpl; [done|].
  destruct (load_keys a s); [|done]. simpl.
  by destruct (amalgamate s next (now, true)).
Qed.

(** No change was seen: the keys are a prefix of those compared with. *)
Lemma amalgamate_unchanged s next now :
  (length next ≤ length now)%nat → (amalgamate s next (now, false)).2 = false →
  (amalgamate s next (now, false)).1.*2 `prefix_of` now.*2.
Proof.
  revert now. induction next as [|a next IH]; intros now Hl; simpl; [intros; apply prefix_nil|].
  destruct now as [|[b kb] now]; simpl in Hl; [lia|].
  destruct (load_keys a s) as [ka|]; simpl.
  - destruct (bool_decide (kb = ka)) eqn:Ek; simpl.
    + apply bool_decide_eq_true in Ek as ->.
      specialize (IH now ltac:(lia)).
      destruct (amalgamate s next (now, false)) as [q c]. simpl in *.
      intros Hc. apply prefix_cons, IH, Hc.
    + pose proof (amalgamate_changed s next now) as Hc.
      destruct (amalgamate s next (now, true)) as [q c]. simpl in *. congruence.
  - apply (IH ((b, kb) :: now)). simpl. lia.
Qed.

(** When all validators still have keys, nothing at all has changed. *)
Lemma amalgamate_same s next now :
  next = now.*1 → Forall (λ v, is_Some (load_keys v s)) next →
  (amalgamate s next (now, false)).2 = false → (amalgamate s next (now, false)).1 = now.
Proof.
  revert now. induction next as [|a next IH]; intros [|[b k] now] E; try done.
  injection E as <- E. intros [[ka Ha] Hf]%Forall_cons. simpl. rewrite Ha. simpl.
  destruct (bool_decide (k = ka)) eqn:Ek; simpl.
  - apply bool_decide_eq_true in Ek as ->. specialize (IH now E Hf).
    destruct (amalgamate s next (now, false)) as [q c]. simpl in *.
    intros Hc. f_equal. by apply IH.
  - pose proof (amalgamate_changed s next now) as Hc.
    destruct (amalgamate s next (now, true)) as [q c]. simpl in *. congruence.
Qed.

Lemma disable_index_keeps i s :
  Validators (disable_index i s).2 = Validators s ∧ NextKeys (disable_index i s).2 = NextKeys s
  ∧ CurrentIndex (disable_index i s).2 = CurrentIndex s.
Proof. unfold disable_index. repeat case_match; done. Qed.

Lemma disable_all_keeps l s :
  let s' := foldl (λ s i, (disable_index i s).2) s l in
  Validators s' = Validators s ∧ NextKeys s' = NextKeys s ∧ CurrentIndex s' = CurrentIndex s.
Proof.
  induction l as [|i l IH] using rev_ind; [done|]. cbv zeta in *. rewrite foldl_app.
  cbn [foldl]. destruct (disable_index_keeps i (foldl (λ s i, (disable_index i s).2) s l))
    as (-> & -> & ->). exact IH.
Qed.

Lemma load_keys_ext s s' next st :
  NextKeys s = NextKeys s' → amalgamate s next st = amalgamate s' next st.
Proof.
  intros E. revert st. induction next as [|a next IH]; intros st; simpl; [done|].
  unfold load_keys. rewrite E. destruct (NextKeys s' !! a); [by rewrite IH|apply IH].
Qed.

(** C31. A new session runs with the validators and keys that were queued for it, and
    queues what the validators have registered by now.  When no change is
    announced for the next session, the manager proposed none and the queued keys
    are the running ones, or the first of them: exactly the running ones if every
    validator still has keys. *)
Theorem rotation_delays_one_session started next s :
  let '(s', (changed, now, queued)) := rotate_session started next s in
  Validators s' = (QueuedKeys s).*1 ∧ CurrentIndex s' = wrap U32_MAX (CurrentIndex s + 1)
  ∧ NextKeys s' = NextKeys s ∧ changed = QueuedChanged s ∧ now = QueuedKeys s
  ∧ QueuedKeys s' = queued
  ∧ (∀ v k, (v, k) ∈ queued →
       NextKeys s !! v = Some k ∧ v ∈ default (QueuedKeys s).*1 next)
  ∧ (QueuedChanged s' = false →
       next = None ∧ queued.*2 `prefix_of` now.*2
       ∧ (Forall (λ v, is_Some (NextKeys s !! v)) now.*1 → queued = now)).
Proof.
  unfold rotate_session.
  set (s0 := (if QueuedChanged s then _ else _)<|CurrentIndex ::= _|>).
  destruct (disable_all_keeps started s0) as (EV & EN & EC).
  set (s1 := foldl _ s0 started) in *.
  assert (Validators s0 = (QueuedKeys s).*1 ∧ NextKeys s0 = NextKeys s
    ∧ CurrentIndex s0 = wrap U32_MAX (CurrentIndex s + 1)) as (EV0 & EN0 & EC0)
    by (unfold s0; destruct (QueuedChanged s); done).
  rewrite EV0 in EV. rewrite EN0 in EN. rewrite EC0 in EC.
  assert (∀ nx st, amalgamate s1 nx st = amalgamate s nx st) as Eam
    by (intros; by apply load_keys_ext).
  destruct next as [nv|]; cbn [default from_option id]; rewrite Eam.
  - pose proof (amalgamate_changed s nv (QueuedKeys s)) as Hc.
    destruct (amalgamate s nv (QueuedKeys s, true)) as [q c] eqn:Eq. simpl in Hc. subst c.
    split_and!; try done. intros v k Hin.
    destruct (amalgamate_loads s nv (QueuedKeys s, true) v k) as [H1 H2]; [by rewrite Eq|].
    done.
  - rewrite EV. destruct (amalgamate s (QueuedKeys s).*1 (QueuedKeys s, false)) as [q c] eqn:Eq.
    split_and!; try done.
    + intros v k Hin.
      destruct (amalgamate_loads s (QueuedKeys s).*1 (QueuedKeys s, false) v k) as [H1 H2];
        [by rewrite Eq|]. done.
    + intros Hc. change (c = false) in Hc. subst c. split; [done|].
      pose proof (amalgamate_unchanged s (QueuedKeys s).*1 (QueuedKeys s)) as Hp.
      pose proof (amalgamate_same s (QueuedKeys s).*1 (QueuedKeys s) eq_refl) as Hs. rewrite Eq in Hp, Hs.
      split; [apply Hp; [by rewrite length_fmap|done]|]. intros Hf. by apply Hs.
Qed.
End rotation.
