(* ===== verification/SessionUpgrade.v ===== *)
(** * The session keys of the root chain and their upgrade

    thxnet/runtime/thxnet/src/lib.rs and thxnet/runtime/thxnet-testnet/src/lib.rs:
    the five session keys of a validator, the six it had before the pallet
    im-online was removed, and the migration [UpgradeSessionKeys] between them,
    run by frame_executive when the runtime version has changed.

    The bytes of an account id are the argument [account_bytes]; the public keys
    are their bytes. *)

From stdpp Require Import strings.
From S2P Require Import Prelude Arith Errors Frame Balances Session SessionTheorems.
Local Open Scope Z_scope.

(** ** The keys *)

Record OldSessionKeys := {
  old_grandpa : list Z;
  old_babe : list Z;
  old_im_online : list Z;
  old_para_validator : list Z;
  old_para_assignment : list Z;
  old_authority_discovery : list Z
}.

Record SessionKeys := {
  grandpa : list Z;
  babe : list Z;
  para_validator : list Z;
  para_assignment : list Z;
  authority_discovery : list Z
}.

#[global] Instance SessionKeys_eq_dec : EqDecision SessionKeys.
Proof. solve_decision. Defined.

#[global] Instance OldSessionKeys_opaque : OpaqueKeys OldSessionKeys := {
  key_ids := [GRANDPA; BABE; IM_ONLINE; PARA_VALIDATOR; PARA_ASSIGNMENT; AUTHORITY_DISCOVERY];
  get_raw keys i :=
    match i with
    | GRANDPA => old_grandpa keys
    | BABE => old_babe keys
    | IM_ONLINE => old_im_online keys
    | PARA_VALIDATOR => old_para_validator keys
    | PARA_ASSIGNMENT => old_para_assignment keys
    | AUTHORITY_DISCOVERY => old_authority_discovery keys
    end
}.

(** [impl_opaque_keys!] *)
#[global] Instance SessionKeys_opaque : OpaqueKeys SessionKeys := {
  key_ids := [GRANDPA; BABE; PARA_VALIDATOR; PARA_ASSIGNMENT; AUTHORITY_DISCOVERY];
  get_raw keys i :=
    match i with
    | GRANDPA => grandpa keys
    | BABE => babe keys
    | PARA_VALIDATOR => para_validator keys
    | PARA_ASSIGNMENT => para_assignment keys
    | AUTHORITY_DISCOVERY => authority_discovery keys
    | IM_ONLINE => []
    end
}.

Definition transform_session_keys (_v : AccountId) (old : OldSessionKeys) : SessionKeys :=
  {| grandpa := old_grandpa old; babe := old_babe old;
     para_validator := old_para_validator old; para_assignment := old_para_assignment old;
     authority_discovery := old_authority_discovery old |}.

(** ** The version of the runtime *)

(** [LastRuntimeUpgradeInfo], and the part of [RuntimeVersion] that it records. *)
Record LastRuntimeUpgradeInfo := { spec_version : Z; spec_name : string }.

Definition was_upgraded (v current : LastRuntimeUpgradeInfo) : bool :=
  (spec_version v <? spec_version current)
  || negb (bool_decide (spec_name current = spec_name v)).

Definition last_runtime_upgrade_spec_version (last : option LastRuntimeUpgradeInfo) : Z :=
  match last with Some l => spec_version l | None => 0 end.

Definition runtime_upgraded (last : option LastRuntimeUpgradeInfo)
    (current : LastRuntimeUpgradeInfo) : bool :=
  match last with Some v => was_upgraded v current | None => true end.

(** [VERSION] of the two runtimes. *)
Definition VERSION : LastRuntimeUpgradeInfo :=
  {| spec_version := 112000003; spec_name := "thxnet" |}.
Definition TESTNET_VERSION : LastRuntimeUpgradeInfo :=
  {| spec_version := 112000006; spec_name := "thxnet-testnet" |}.

(** ** The migration

    [from_spec] is the constant [UPGRADE_SESSION_KEYS_FROM_SPEC], which differs
    between the runtimes. *)

Definition UPGRADE_SESSION_KEYS_FROM_SPEC : Z := 103000000.
Definition TESTNET_UPGRADE_SESSION_KEYS_FROM_SPEC : Z := 104000000.

Section migration.
Variable from_spec : Z.
Variable last : option LastRuntimeUpgradeInfo.
Variable account_bytes : AccountId → list Z.

(** [UpgradeSessionKeys::on_runtime_upgrade]; [None]: the storage is left as it
    is.  [order] is the order in which the map [NextKeys] is iterated. *)
Definition on_runtime_upgrade (order : list (AccountId * OldSessionKeys))
    (s : Session OldSessionKeys) : option (Session SessionKeys) :=
  if from_spec <? last_runtime_upgrade_spec_version last then None
  else Some (upgrade_keys order transform_session_keys s).

Inductive UpgradeError :=
| ContainsImOnline
| QueuedKeysNotAvailable
| QueuedKeysEmpty
| KeysDoNotMatch.

(** The bytes that the checks compare: an account and its keys, for each entry. *)
Definition queued_bytes {K} `{OpaqueKeys K} (queued : list (AccountId * K)) : list Z :=
  foldl (λ state '(id, keys),
    foldl (λ state key_id, state ++ get_raw keys key_id)
      (state ++ account_bytes id) (key_ids SessionKeys)) [] queued.

(** [queued] is the stored value of [QueuedKeys], [None] when there is none. *)
Definition pre_upgrade (queued : option (list (AccountId * OldSessionKeys)))
    : UpgradeError + list Z :=
  if from_spec <? last_runtime_upgrade_spec_version last then inr []
  else if bool_decide (IM_ONLINE ∈ key_ids SessionKeys) then inl ContainsImOnline
  else
    match queued with
    | None => inl QueuedKeysNotAvailable
    | Some q =>
        let state := queued_bytes q in
        if (0 <? length state)%nat then inr state else inl QueuedKeysEmpty
    end.

Definition post_upgrade (old_state : list Z) (s : Session SessionKeys) : UpgradeError + unit :=
  if from_spec <? last_runtime_upgrade_spec_version last then inr tt
  else
    let new_state := queued_bytes (QueuedKeys s) in
    if negb (0 <? length new_state)%nat then inl QueuedKeysEmpty
    else if bool_decide (old_state = new_state) then inr tt else inl KeysDoNotMatch.
End migration.

(** ** The first step of a block, [initialize_block_impl] of frame_executive

    The storage of the session pallet is in the old or in the new format.  The
    migration reads the old one; [None]: it would run on the new one. *)

Inductive SessionStorage :=
| OldFormat (s : Session OldSessionKeys)
| NewFormat (s : Session SessionKeys).

Definition migrate (from_spec : Z) (last : option LastRuntimeUpgradeInfo)
    (order : list (AccountId * OldSessionKeys)) (st : SessionStorage) : option SessionStorage :=
  match st with
  | OldFormat s =>
      match on_runtime_upgrade from_spec last order s with
      | Some s' => Some (NewFormat s')
      | None => Some (OldFormat s)
      end
  | NewFormat s =>
      if from_spec <? last_runtime_upgrade_spec_version last then Some (NewFormat s) else None
  end.

Definition initialize_block (from_spec : Z) (current : LastRuntimeUpgradeInfo)
    (order : list (AccountId * OldSessionKeys))
    (st : option LastRuntimeUpgradeInfo * SessionStorage)
    : option (option LastRuntimeUpgradeInfo * SessionStorage) :=
  let '(last, s) := st in
  if runtime_upgraded last current then
    s' ← migrate from_spec last order s; Some (Some current, s')
  else Some (last, s).

(** ** [upgrade_keys], for an upgrade that keeps the keys that remain *)

Section upgrade_laws.
Context {Old K : Type} `{OpaqueKeys Old} `{OpaqueKeys K} (upgrade : AccountId → Old → K).
Hypothesis ids_remain : key_ids K ⊆ key_ids Old.
Hypothesis raw_remains : ∀ v ks id, id ∈ key_ids K → get_raw (upgrade v ks) id = get_raw ks id.
Implicit Types o : gmap (KeyTypeId * list Z) AccountId.

Lemma delete_keys_lookup (ks : Old) ids o id k :
  foldl (λ o i, delete (i, get_raw ks i) o) o ids !! (id, k)
  = if decide (id ∈ ids ∧ get_raw ks id = k) then None else o !! (id, k).
Proof.
  revert o. induction ids as [|i ids IH]; intros o; cbn [foldl].
  { rewrite decide_False; [done|]. by intros [?%not_elem_of_nil ?]. }
  rewrite IH. destruct (decide (id ∈ ids ∧ get_raw ks id = k)) as [[Hi Hk]|Hn].
  { rewrite decide_True; [done|]. split; [by apply list_elem_of_further|done]. }
  destruct (decide (i = id ∧ get_raw ks i = k)) as [[-> Hk]|Hn'].
  - rewrite decide_True by (split; [apply list_elem_of_here|done]).
    rewrite Hk. apply lookup_delete_eq.
  - rewrite lookup_delete_ne by (intros [= ??]; naive_solver).
    rewrite decide_False; [done|]. intros [[->|?]%elem_of_cons ?]; naive_solver.
Qed.

Lemma insert_keys_lookup (v : AccountId) (ks : K) ids o id k :
  foldl (λ o i, <[(i, get_raw ks i) := v]> o) o ids !! (id, k)
  = if decide (id ∈ ids ∧ get_raw ks id = k) then Some v else o !! (id, k).
Proof.
  revert o. induction ids as [|i ids IH]; intros o; cbn [foldl].
  { rewrite decide_False; [done|]. by intros [?%not_elem_of_nil ?]. }
  rewrite IH. destruct (decide (id ∈ ids ∧ get_raw ks id = k)) as [[Hi Hk]|Hn].
  { rewrite decide_True; [done|]. split; [by apply list_elem_of_further|done]. }
  destruct (decide (i = id ∧ get_raw ks i = k)) as [[-> Hk]|Hn'].
  - rewrite decide_True by (split; [apply list_elem_of_here|done]).
    rewrite Hk. apply lookup_insert_eq.
  - rewrite lookup_insert_ne by (intros [= ??]; naive_solver).
    rewrite decide_False; [done|]. intros [[->|?]%elem_of_cons ?]; naive_solver.
Qed.

(** The entry [e] owns its keys that remain. *)
Definition owns o (e : AccountId * Old) : Prop :=
  ∀ id, id ∈ key_ids K → o !! (id, get_raw e.2 id) = Some e.1.

Lemma upgrade_entry_owner m e id k :
  owns m.2 e →
  (upgrade_entry upgrade m e).2 !! (id, k)
  = if decide (id ∈ key_ids Old ∧ (id ∉ key_ids K) ∧ get_raw e.2 id = k) then None
    else m.2 !! (id, k).
Proof.
  destruct e as [v ks]. intros Ho. cbn [upgrade_entry snd fst].
  rewrite insert_keys_lookup, delete_keys_lookup.
  destruct (decide (id ∈ key_ids K ∧ get_raw (upgrade v ks) id = k)) as [[Hi Hk]|Hn].
  - rewrite decide_False by tauto. rewrite raw_remains in Hk by done. subst k.
    symmetry. by apply (Ho id).
  - destruct (decide (id ∈ key_ids Old ∧ get_raw ks id = k)) as [[Hi Hk]|Hn'].
    + rewrite decide_True; [done|]. split_and!; [done| |done].
      intros Hin. apply Hn. by rewrite raw_remains.
    + rewrite decide_False; [done|]. tauto.
Qed.

Lemma upgrade_entries_owner l m id k :
  Forall (owns m.2) l →
  (foldl (upgrade_entry upgrade) m l).2 !! (id, k)
  = if decide (id ∈ key_ids Old ∧ (id ∉ key_ids K) ∧ Exists (λ e, get_raw e.2 id = k) l)
    then None else m.2 !! (id, k).
Proof.
  revert m. induction l as [|e l IH]; intros m; cbn [foldl].
  { intros _. rewrite decide_False; [done|]. intros (_ & _ & HE). by inversion HE. }
  intros [He Hl]%Forall_cons. rewrite IH.
  - rewrite upgrade_entry_owner by done.
    destruct (decide (id ∈ key_ids Old ∧ (id ∉ key_ids K) ∧ Exists _ l)) as [(? & ? & ?)|Hn].
    { rewrite decide_True; [done|]. split_and!; [done..|]. by apply Exists_cons; right. }
    destruct (decide (id ∈ key_ids Old ∧ (id ∉ key_ids K) ∧ get_raw e.2 id = k)) as [(? & ? & ?)|Hn'].
    { rewrite decide_True; [done|]. split_and!; [done..|]. by apply Exists_cons; left. }
    rewrite decide_False; [done|]. intros (? & ? & [?|?]%Exists_cons); tauto.
  - eapply Forall_impl; [exact Hl|]. intros e' Ho id' Hid'.
    rewrite upgrade_entry_owner by done. rewrite decide_False by tauto. by apply Ho.
Qed.

Lemma upgrade_entries_next l m v :
  NoDup l.*1 →
  (∀ ks, (v, ks) ∈ l → (foldl (upgrade_entry upgrade) m l).1 !! v = Some (upgrade v ks))
  ∧ (v ∉ l.*1 → (foldl (upgrade_entry upgrade) m l).1 !! v = m.1 !! v).
Proof.
  revert m. induction l as [|[v' ks'] l IH]; intros m Hnd; cbn [foldl].
  { split; [by intros ks ?%not_elem_of_nil|done]. }
  apply NoDup_cons in Hnd as [Hni Hnd]. cbn [fst] in Hni.
  destruct (IH (upgrade_entry upgrade m (v', ks')) Hnd) as [IH1 IH2]. split.
  - intros ks [E|Hin]%elem_of_cons; [|by apply IH1]. injection E as -> ->.
    rewrite IH2 by done. apply lookup_insert_eq.
  - rewrite fmap_cons. intros [Hne Hnl]%not_elem_of_cons. cbn [fst] in Hne. rewrite IH2 by done.
    by apply lookup_insert_ne.
Qed.

(** What [upgrade_keys] writes does not depend on the order of the iteration. *)
Lemma upgrade_keys_spec order s :
  registry s → order ≡ₚ map_to_list (NextKeys s) →
  (∀ v, NextKeys (upgrade_keys order upgrade s) !! v = upgrade v <$> NextKeys s !! v)
  ∧ (∀ id k, KeyOwner (upgrade_keys order upgrade s) !! (id, k)
             = if decide (id ∈ key_ids K) then KeyOwner s !! (id, k) else None).
Proof.
  intros [R1 R2] Ho.
  assert (∀ v ks, (v, ks) ∈ order ↔ NextKeys s !! v = Some ks) as Hin.
  { intros v ks. by rewrite Ho, elem_of_map_to_list. }
  assert (NoDup order.*1) as Hnd by (rewrite Ho; apply NoDup_fst_map_to_list).
  split.
  - intros v. cbn [NextKeys upgrade_keys].
    destruct (upgrade_entries_next order (∅, KeyOwner s) v Hnd) as [H1 H2].
    destruct (NextKeys s !! v) as [ks|] eqn:E; cbn [fmap option_fmap option_map].
    + by apply H1, Hin.
    + rewrite H2; [apply lookup_empty|].
      intros ([v' ks'] & -> & He)%list_elem_of_fmap. apply Hin in He. cbn in *. congruence.
  - intros id k. cbn [KeyOwner upgrade_keys].
    rewrite upgrade_entries_owner; cbn [snd].
    + destruct (decide (id ∈ key_ids K)) as [Hi|Hi]; [by rewrite decide_False by tauto|].
      case_decide as HE; [done|]. destruct (KeyOwner s !! (id, k)) as [v|] eqn:E; [|done].
      destruct (R2 id k v E) as (Hid & ks & Hn & Hk). exfalso. apply HE.
      split_and!; [done..|]. apply Exists_exists. exists (v, ks). split; [by apply Hin|done].
    + apply Forall_forall. intros [v ks] He id' Hid'. cbn [fst snd].
      apply (R1 v ks); [by apply Hin|by apply ids_remain].
Qed.

Lemma upgrade_keys_registry order s :
  registry s → order ≡ₚ map_to_list (NextKeys s) → registry (upgrade_keys order upgrade s).
Proof.
  intros HR Ho. destruct (upgrade_keys_spec order s HR Ho) as [EN EO].
  destruct HR as [R1 R2]. split.
  - intros v ks id. rewrite EN, EO. intros (ks0 & Hn & ->)%fmap_Some Hid.
    rewrite decide_True by done. rewrite raw_remains by done.
    apply R1; [done|by apply ids_remain].
  - intros id k v. rewrite EO. case_decide as Hid; [|done]. intros Hv.
    destruct (R2 id k v Hv) as (_ & ks & Hn & Hk). split; [done|].
    exists (upgrade v ks). rewrite EN, Hn. split; [done|]. by rewrite raw_remains.
Qed.
End upgrade_laws.

(** ** The migration of the root chain *)

Lemma transform_keeps v ks id :
  id ∈ key_ids SessionKeys → get_raw (transform_session_keys v ks) id = get_raw ks id.
Proof. destruct id; try done. cbn. rewrite !elem_of_cons, elem_of_nil. naive_solver. Qed.

Lemma new_ids_remain : key_ids SessionKeys ⊆ key_ids OldSessionKeys.
Proof. intros []; cbn; rewrite !elem_of_cons; tauto. Qed.

Lemma foldl_append {A} (f : A → list Z) l acc :
  foldl (λ st i, st ++ f i) acc l = acc ++ concat (f <$> l).
Proof.
  revert acc. induction l as [|i l IH]; intros acc; simpl; [by rewrite app_nil_r|].
  by rewrite IH, (assoc_L (++)).
Qed.

Lemma queued_bytes_concat {K} `{OpaqueKeys K} account_bytes (q : list (AccountId * K)) :
  queued_bytes account_bytes q
  = concat ((λ e, account_bytes e.1 ++ concat (get_raw e.2 <$> key_ids SessionKeys)) <$> q).
Proof.
  unfold queued_bytes. rewrite <-(app_nil_l (concat _)).
  rewrite <-(foldl_append (λ e : AccountId * K, _)). generalize (@nil Z) as acc.
  induction q as [|[v ks] q IH]; intros acc; [done|]. cbn [foldl].
  rewrite IH. f_equal. by rewrite foldl_append, (assoc_L (++)).
Qed.

Lemma queued_bytes_keeps account_bytes (q : list (AccountId * OldSessionKeys)) :
  queued_bytes account_bytes ((λ '(v, ks), (v, transform_session_keys v ks)) <$> q)
  = queued_bytes account_bytes q.
Proof.
  rewrite !queued_bytes_concat, <-list_fmap_compose. f_equal.
  apply list_fmap_ext. by intros ? [].
Qed.

Lemma queued_bytes_nonempty {K} `{OpaqueKeys K} account_bytes (q : list (AccountId * K)) :
  (∀ v, account_bytes v ≠ []) → q ≠ [] → (0 < length (queued_bytes account_bytes q))%nat.
Proof.
  intros Hb Hq. destruct q as [|[v ks] q]; [done|].
  rewrite queued_bytes_concat, fmap_cons. cbn [concat fst snd]. rewrite !length_app.
  specialize (Hb v). destruct (account_bytes v); [done|]. cbn [length]. lia.
Qed.

(** C23. The upgrade of the session keys: on a chain at or below the version of the
    constant, the first block of the new runtime leaves each validator with its
    five remaining keys, registered to it as before, and no owner for an im-online
    key.  The queued keys are translated in place, what is written does not depend
    on the order in which the map is read, the checks around the migration pass,
    and no later block of this or a newer runtime runs it again. *)
Theorem session_keys_upgraded from_spec current last order s account_bytes :
  registry s → order ≡ₚ map_to_list (NextKeys s) →
  last_runtime_upgrade_spec_version last ≤ from_spec < spec_version current →
  (∀ v, account_bytes v ≠ []) → QueuedKeys s ≠ [] →
  ∃ s', initialize_block from_spec current order (last, OldFormat s)
        = Some (Some current, NewFormat s')
  ∧ registry s'
  ∧ (∀ v, NextKeys s' !! v = transform_session_keys v <$> NextKeys s !! v)
  ∧ (∀ id k, KeyOwner s' !! (id, k)
       = if decide (id = IM_ONLINE) then None else KeyOwner s !! (id, k))
  ∧ (QueuedKeys s').*1 = (QueuedKeys s).*1 ∧ Validators s' = Validators s
  ∧ (∃ state, pre_upgrade from_spec last account_bytes (Some (QueuedKeys s)) = inr state
       ∧ post_upgrade from_spec last account_bytes state s' = inr tt)
  ∧ (∀ later order' s'', spec_version current ≤ spec_version later →
       ∃ last', initialize_block from_spec later order' (Some current, NewFormat s'')
                = Some (last', NewFormat s'')).
Proof.
  intros HR Ho Hv Hb Hq.
  exists (upgrade_keys order transform_session_keys s).
  destruct (upgrade_keys_spec transform_session_keys new_ids_remain transform_keeps
    order s HR Ho) as [EN EO].
  assert ((from_spec <? last_runtime_upgrade_spec_version last) = false) as Eg by lia.
  split_and!.
  - unfold initialize_block, migrate, on_runtime_upgrade. rewrite Eg.
    destruct last as [l|]; [|done]. cbn in *. unfold was_upgraded.
    by rewrite (proj2 (Z.ltb_lt _ _)) by lia.
  - by apply (upgrade_keys_registry _ new_ids_remain transform_keeps).
  - exact EN.
  - intros id k. rewrite EO. by destruct id.
  - cbn [QueuedKeys upgrade_keys]. rewrite <-list_fmap_compose.
    apply list_fmap_ext. by intros ? [].
  - done.
  - exists (queued_bytes account_bytes (QueuedKeys s)).
    pose proof (queued_bytes_nonempty account_bytes _ Hb Hq) as Hlt%Nat.ltb_lt.
    unfold pre_upgrade, post_upgrade. rewrite Eg. cbn [QueuedKeys upgrade_keys].
    rewrite queued_bytes_keeps, Hlt. split; [done|]. by rewrite bool_decide_true.
  - intros later order' s'' Hl. unfold initialize_block, migrate. cbn.
    rewrite (proj2 (Z.ltb_lt _ _)) by lia. case_match; by eexists.
Qed.

(** ** Examples *)

Module SessionExamples.
Definition keys_of (n : Z) : SessionKeys :=
  {| grandpa := [n]; babe := [n]; para_validator := [n]; para_assignment := [n];
     authority_discovery := [n] |}.
Definition old_keys_of (n : Z) : OldSessionKeys :=
  {| old_grandpa := [n]; old_babe := [n]; old_im_online := [n]; old_para_validator := [n];
     old_para_assignment := [n]; old_authority_discovery := [n] |}.

#[local] Instance balances : BalancesConfig := {| ExistentialDeposit := 10; MaxConsumers := 16 |}.
#[local] Instance config : SessionConfig := {| ValidatorIdOf := Some |}.

Definition genesis : Chain (Session SessionKeys) := mkChain ∅ 0 empty_session.
Definition built : Chain (Session SessionKeys) :=
  committed (build (key_ids SessionKeys) [(1, 1, keys_of 1); (2, 2, keys_of 2)] None None) genesis.

(** The last validator purges its keys: it leaves the queue and the change of the
    set is not announced. *)
Lemma purge_goes_unnoticed :
  let l := committed (purge_keys (Signed 2)) built in
  let '(s', (changed, now, queued)) := rotate_session [] None (rest l) in
  now.*1 = [1; 2] ∧ queued.*1 = [1] ∧ changed = false ∧ QueuedChanged s' = false.
Proof. vm_compute. done. Qed.

(** The old storage with one validator. *)
Definition old_session : Session OldSessionKeys :=
  {| Validators := [1]; CurrentIndex := 7; QueuedChanged := false;
     QueuedKeys := [(1, old_keys_of 1)]; DisabledValidators := [];
     NextKeys := {[ 1 := old_keys_of 1 ]};
     KeyOwner := list_to_map ((λ id, ((id, [1]), 1)) <$> key_ids OldSessionKeys) |}.

Lemma old_session_registry : registry old_session.
Proof.
  split.
  - intros v ks id Hv _. cbn in Hv. apply lookup_singleton_Some in Hv as [<- <-]. by destruct id.
  - intros id k v Hv. apply elem_of_list_to_map_2, list_elem_of_fmap in Hv
      as (id' & [= -> -> ->] & Hin). split; [done|].
    exists (old_keys_of 1). split; [apply lookup_singleton_eq|by destruct id'].
Qed.

Lemma session_registry_witness :
  session_reachable (committed (set_keys (Signed 2) (keys_of 3)) built)
  ∧ registry (rest (committed (set_keys (Signed 2) (keys_of 3)) built)).
Proof.
  assert (session_reachable (committed (set_keys (Signed 2) (keys_of 3)) built)) as H.
  { apply (reach_step built); [|apply step_set_keys].
    apply (reach_genesis (key_ids SessionKeys) [(1, 1, keys_of 1); (2, 2, keys_of 2)]
      None None genesis); [reflexivity|vm_compute; reflexivity]. }
  split; [exact H|]. exact (proj1 (session_registry _ H)).
Defined.

Lemma session_keys_upgraded_witness :
  ∃ s', initialize_block UPGRADE_SESSION_KEYS_FROM_SPEC VERSION [(1, old_keys_of 1)]
          (Some {| spec_version := 94000004; spec_name := "thxnet" |}, OldFormat old_session)
        = Some (Some VERSION, NewFormat s')
  ∧ registry s'.
Proof.
  destruct (session_keys_upgraded UPGRADE_SESSION_KEYS_FROM_SPEC VERSION
    (Some {| spec_version := 94000004; spec_name := "thxnet" |}) [(1, old_keys_of 1)]
    old_session (λ v, [v])) as (s' & H1 & H2 & _).
  - exact old_session_registry.
  - apply Permutation_refl'. reflexivity.
  - vm_compute. done.
  - intros v. discriminate.
  - discriminate.
  - exists s'. split; assumption.
Defined.
End SessionExamples.
