(* ===== verification/StakingBonds.v ===== *)
(** * Bonding

    The storage of pallet-staking around the ledgers (substrate/frame/staking/src):
    ledger.rs, the calls of pallet/mod.rs that bond, unbond and withdraw, their
    helpers in pallet/impls.rs, and [do_slash] of slashing.rs.  The lock that
    follows a ledger is one of pallet-balances (impl_currency.rs and lib.rs).

    The storage is the part [rest] of a [Chain].  The sorted list of voters and
    the conversion of a balance to a vote are types of the configuration, and an
    interface here.  Events are deposited in order; [OnWithdraw] and [OnSlash] are
    what the listeners of the pallet are told. *)

From S2P Require Import Prelude Arith Errors Frame Balances StakingLedger.
From coqutil Require Import Datatypes.RecordSetters.
Import TriangleBracketNotations StakingErrors.

Inductive RewardDestination := Staked | Stash | Controller | Account_ (who : AccountId) | None_.

#[global] Instance RewardDestination_eq_dec : EqDecision RewardDestination.
Proof. solve_decision. Defined.

(** [StakingAccount] *)
Inductive StakingAccount := OfStash (who : AccountId) | OfController (who : AccountId).

Record SlashingSpans := {
  span_index : Z;
  last_start : Z;
  last_nonzero_slash : Z;
  prior : list Z
}.

Inductive BondEvent :=
| Bonded_ (who : AccountId) (amount : Balance)
| Unbonded (who : AccountId) (amount : Balance)
| Withdrawn (who : AccountId) (amount : Balance)
| Slashed (staker : AccountId) (amount : Balance)
| Chilled (who : AccountId)
| OnWithdraw (who : AccountId) (amount : Balance)
| OnSlash (who : AccountId) (left : Balance) (chunks : gmap Z Z) (amount : Balance).

(** [T::VoterList] and [T::CurrencyToVote] *)
Class VoterListOps (V : Type) := {
  vl_contains : AccountId → V → bool;
  vl_on_update : AccountId → Z → V → V;
  vl_on_remove : AccountId → V → V;
  to_vote : Balance → Balance → Z
}.

Class StakingConfig := {
  BondingDuration : Z;
  MaxUnlockingChunks : Z
}.

(** A lock of pallet-balances: [STAKING_ID] or that of another pallet. *)
Inductive LockIdentifier := STAKING_ID | OtherLock (n : Z).

#[global] Instance LockIdentifier_eq_dec : EqDecision LockIdentifier.
Proof. solve_decision. Defined.

Record Bonds (V : Type) := {
  Bonded : gmap AccountId AccountId;
  Ledger : gmap AccountId StakingLedger;
  Payee : gmap AccountId RewardDestination;
  VirtualStakers : gset AccountId;
  SlashingSpansOf : gmap AccountId SlashingSpans;
  SpanSlash : gmap (AccountId * Z) (Balance * Balance);
  Validators : gset AccountId;
  Nominators : gset AccountId;
  VoterList : V;
  CurrentEra : option Z;
  MinNominatorBond : Balance;
  MinValidatorBond : Balance;
  Locks : gmap AccountId (list (LockIdentifier * Balance));
  Events : list BondEvent
}.
Arguments Bonded {_} _.
Arguments Ledger {_} _.
Arguments Payee {_} _.
Arguments VirtualStakers {_} _.
Arguments SlashingSpansOf {_} _.
Arguments SpanSlash {_} _.
Arguments Validators {_} _.
Arguments Nominators {_} _.
Arguments VoterList {_} _.
Arguments CurrentEra {_} _.
Arguments MinNominatorBond {_} _.
Arguments MinValidatorBond {_} _.
Arguments Locks {_} _.
Arguments Events {_} _.

Definition staking_err (e : StakingError) : DispatchError := Module_ (InStaking e).

Section bonds.
Context {V : Type} `{VoterListOps V} {T : BalancesConfig} {C : StakingConfig}.
Abbreviation L A := (M DispatchError (Chain (Bonds V)) A).
Implicit Types (l : StakingLedger) (s : Bonds V).

Definition get_storage : L (Bonds V) := gets rest.
Definition storage (f : Bonds V → Bonds V) : L unit :=
  modify (λ c, mkChain (Account c) (TotalIssuance c) (f (rest c))).
Definition deposit_event (e : BondEvent) : L unit :=
  storage (λ s, s<|Events ::= (λ es, es ++ [e])|>).

(** ** Locks of pallet-balances *)

Definition locks_of (who : AccountId) s : list (LockIdentifier * Balance) :=
  default [] (Locks s !! who).

(** [balance_locked] *)
Definition balance_locked (id : LockIdentifier) (who : AccountId) s : Balance :=
  foldl (λ acc lock, acc + lock.2) 0 (filter (λ lock, lock.1 = id) (locks_of who s)).

(** [update_locks], on a runtime without freezes: an account whose frozen part
    cannot be written keeps it. *)
Definition update_locks (who : AccountId) (locks : list (LockIdentifier * Balance)) : L unit :=
  ignore_err (try_mutate_account who (λ b _,
    mret (tt, mkAccountData (free b) (reserved b) (foldl (λ m lock, Z.max m lock.2) 0 locks)))) ;;
  storage (λ s, s<|Locks ::= if bool_decide (locks = []) then delete who else <[who := locks]>|>).

Definition remove_lock (id : LockIdentifier) (who : AccountId) : L unit :=
  s ← get_storage;
  update_locks who (filter (λ lock, lock.1 ≠ id) (locks_of who s)).

(** The [filter_map] of [set_lock]: the first lock of this name is replaced, any
    other dropped. *)
Fixpoint replace_lock (id : LockIdentifier) (new_lock : option Balance)
    (locks : list (LockIdentifier * Balance))
    : list (LockIdentifier * Balance) * option Balance :=
  match locks with
  | [] => ([], new_lock)
  | lock :: locks' =>
      if decide (lock.1 = id) then
        let '(ls, o) := replace_lock id None locks' in
        match new_lock with Some amount => ((id, amount) :: ls, o) | None => (ls, o) end
      else
        let '(ls, o) := replace_lock id new_lock locks' in (lock :: ls, o)
  end.

(** [set_lock] with all [WithdrawReasons] *)
Definition set_lock (id : LockIdentifier) (who : AccountId) (amount : Balance) : L unit :=
  if amount =? 0 then remove_lock id who
  else
    s ← get_storage;
    let '(locks, new_lock) := replace_lock id (Some amount) (locks_of who s) in
    update_locks who
      (match new_lock with Some a => locks ++ [(id, a)] | None => locks end).

(** ** ledger.rs *)

Definition is_virtual_staker (who : AccountId) s : bool := bool_decide (who ∈ VirtualStakers s).

Definition is_bonded (account : StakingAccount) s : bool :=
  match account with
  | OfStash who => bool_decide (is_Some (Bonded s !! who))
  | OfController who => bool_decide (is_Some (Ledger s !! who))
  end.

Definition paired_account (account : StakingAccount) s : option AccountId :=
  match account with
  | OfStash who => Bonded s !! who
  | OfController who => stash <$> Ledger s !! who
  end.

Definition with_controller (o : option AccountId) l : StakingLedger :=
  {| stash := stash l; total := total l; active := active l; unlocking := unlocking l;
     legacy_claimed_rewards := legacy_claimed_rewards l; controller := o |}.

(** [StakingLedger::get] *)
Definition ledger (account : StakingAccount) : L StakingLedger :=
  s ← get_storage;
  '(who, ctrl) ← (match account with
                  | OfStash who =>
                      c ← ok_or (Bonded s !! who) (staking_err NotStash); mret (who, c)
                  | OfController c =>
                      who ← ok_or (stash <$> Ledger s !! c) (staking_err NotController);
                      mret (who, c)
                  end);
  l ← ok_or (Ledger s !! ctrl) (staking_err NotController);
  ensure (bool_decide (Bonded s !! who = Some ctrl ∧ stash l = who)) (staking_err BadState) ;;
  mret (with_controller (Some ctrl) l).

Definition controller_of l s : option AccountId :=
  match controller l with Some c => Some c | None => paired_account (OfStash (stash l)) s end.

(** [StakingLedger::update]; the field [controller] is not encoded. *)
Definition update l : L unit :=
  s ← get_storage;
  ensure (is_bonded (OfStash (stash l)) s) (staking_err NotStash) ;;
  when (negb (is_virtual_staker (stash l) s)) (set_lock STAKING_ID (stash l) (total l)) ;;
  s ← get_storage;
  ctrl ← ok_or (controller_of l s) (staking_err NotController);
  storage (λ s, s<|Ledger ::= <[ctrl := with_controller None l]>|>).

Definition bond_ledger l (payee : RewardDestination) : L unit :=
  s ← get_storage;
  ensure (negb (is_bonded (OfStash (stash l)) s)) (staking_err AlreadyBonded) ;;
  storage (λ s, s<|Payee ::= <[stash l := payee]>|><|Bonded ::= <[stash l := stash l]>|>) ;;
  update l.

Definition set_ledger_payee l (payee : RewardDestination) : L unit :=
  s ← get_storage;
  ensure (is_bonded (OfStash (stash l)) s) (staking_err NotStash) ;;
  storage (λ s, s<|Payee ::= <[stash l := payee]>|>).

Definition set_controller_to_stash l : L unit :=
  ctrl ← ok_or (controller l) (staking_err NotController);
  ensure (negb (stash l =? ctrl)) (staking_err AlreadyPaired) ;;
  s ← get_storage;
  ensure_some (Ledger s !! stash l) (λ b, stash b =? stash l) (staking_err BadState) ;;
  storage (λ s, s<|Ledger ::= (λ m, <[stash l := with_controller None l]> (delete ctrl m))|>
                 <|Bonded ::= <[stash l := stash l]>|>).

Definition kill (who : AccountId) : L unit :=
  s ← get_storage;
  ctrl ← ok_or (Bonded s !! who) (staking_err NotStash);
  l ← ok_or (Ledger s !! ctrl) (staking_err NotController);
  storage (λ s, s<|Ledger ::= delete ctrl|><|Bonded ::= delete who|><|Payee ::= delete who|>) ;;
  if bool_decide (who ∈ VirtualStakers s)
  then storage (λ s, s<|VirtualStakers ::= (λ v, v ∖ {[who]})|>)
  else remove_lock STAKING_ID (stash l).

(** ** Helpers of pallet/impls.rs and slashing.rs *)

(** The indices of [SlashingSpans::iter], the most recent first. *)
Fixpoint span_indices (index : Z) (prior : list Z) : list Z :=
  match prior with
  | [] => []
  | _ :: prior' =>
      let index := saturating_sub index 1 in index :: span_indices index prior'
  end.
Definition spans_iter (sp : SlashingSpans) : list Z :=
  span_index sp :: span_indices (span_index sp) (prior sp).

Definition clear_stash_metadata (who : AccountId) (num_slashing_spans : Z) : L unit :=
  s ← get_storage;
  match SlashingSpansOf s !! who with
  | None => mret tt
  | Some spans =>
      ensure (Z.of_nat (length (spans_iter spans)) <=? num_slashing_spans)
        (staking_err IncorrectSlashingSpans) ;;
      storage (λ s, s<|SlashingSpansOf ::= delete who|>
        <|SpanSlash ::= (λ m, foldl (λ m i, delete (who, i) m) m (spans_iter spans))|>)
  end.

Definition do_remove_validator (who : AccountId) s : bool * Bonds V :=
  if bool_decide (who ∈ Validators s) then
    (true, s<|Validators ::= (λ v, v ∖ {[who]})|><|VoterList ::= vl_on_remove who|>)
  else (false, s).
Definition do_remove_nominator (who : AccountId) s : bool * Bonds V :=
  if bool_decide (who ∈ Nominators s) then
    (true, s<|Nominators ::= (λ v, v ∖ {[who]})|><|VoterList ::= vl_on_remove who|>)
  else (false, s).

Definition chill_stash (who : AccountId) : L unit :=
  s ← get_storage;
  let '(chilled_as_validator, s) := do_remove_validator who s in
  let '(chilled_as_nominator, s) := do_remove_nominator who s in
  storage (λ _, s) ;;
  when (chilled_as_validator || chilled_as_nominator) (deposit_event (Chilled who)).

Definition kill_stash (who : AccountId) (num_slashing_spans : Z) : L unit :=
  clear_stash_metadata who num_slashing_spans ;;
  kill who ;;
  storage (λ s, (do_remove_nominator who (do_remove_validator who s).2).2) ;;
  dec_consumers who.

(** [slashable_balance_of] and [weight_of] *)
Definition slashable_balance_of (who : AccountId) (c : Chain (Bonds V)) : Balance :=
  match ledger (OfStash who) c with Ok (l, _) => active l | Err _ => 0 end.
Definition weight_of (who : AccountId) (c : Chain (Bonds V)) : Z :=
  to_vote (slashable_balance_of who c) (TotalIssuance c).

(** [if T::VoterList::contains(..) { let _ = T::VoterList::on_update(..) }] *)
Definition update_voter (who : AccountId) : L unit :=
  s ← get_storage;
  when (vl_contains who (VoterList s))
    (w ← gets (weight_of who);
     storage (λ s, s<|VoterList ::= vl_on_update who w|>)).

Definition do_bond_extra (who : AccountId) (additional : Balance) : L unit :=
  l ← ledger (OfStash who);
  s ← get_storage;
  c ← gets id;
  extra ← (if is_virtual_staker who s then mret additional
           else room ← ok_or (checked_sub (free (account who c)) (total l)) (Arithmetic Overflow);
                mret (Z.min additional room));
  t ← ok_or (checked_add U128_MAX (total l) extra) (Arithmetic Overflow);
  a ← ok_or (checked_add U128_MAX (active l) extra) (Arithmetic Overflow);
  ensure (ExistentialDeposit <=? a) (staking_err InsufficientBond) ;;
  update (with_amounts t a (unlocking l) l) ;;
  update_voter who ;;
  deposit_event (Bonded_ who extra).

Definition do_withdraw_unbonded (ctrl : AccountId) (num_slashing_spans : Z) : L unit :=
  old ← ledger (OfController ctrl);
  s ← get_storage;
  let l := match CurrentEra s with
           | Some current_era => consolidate_unlocked current_era old
           | None => old
           end in
  (if bool_decide (unlocking l = []) && ((active l <? ExistentialDeposit) || (active l =? 0))
   then kill_stash (stash l) num_slashing_spans
   else update l) ;;
  when (total l <? total old)
    (let v := saturating_sub (total old) (total l) in
     deposit_event (Withdrawn (stash old) v) ;; deposit_event (OnWithdraw ctrl v)).

(** ** The calls *)

Definition bond (origin : Origin) (v : Balance) (payee : RewardDestination) : L unit :=
  who ← ensure_signed origin;
  s ← get_storage;
  ensure (negb (is_bonded (OfStash who) s)) (staking_err AlreadyBonded) ;;
  ensure (negb (is_bonded (OfController who) s)) (staking_err AlreadyPaired) ;;
  ensure (ExistentialDeposit <=? v) (staking_err InsufficientBond) ;;
  (λ c, map_err (λ _, staking_err BadState) (inc_consumers who c)) ;;
  stash_balance ← gets (λ c, free (account who c));
  let v := Z.min v stash_balance in
  deposit_event (Bonded_ who v) ;;
  bond_ledger (new_ledger who v) payee.

Definition bond_extra (origin : Origin) (max_additional : Balance) : L unit :=
  who ← ensure_signed origin;
  do_bond_extra who max_additional.

(** [BoundedVec::try_push] *)
Definition try_push (chunk : UnlockChunk) (chunks : list UnlockChunk)
    : option (list UnlockChunk) :=
  if Z.of_nat (length chunks) <? MaxUnlockingChunks then Some (chunks ++ [chunk]) else None.

(** A larger last chunk, when it is of this era, or a new one. *)
Definition add_chunk (v e : Z) (chunks : list UnlockChunk) : option (list UnlockChunk) :=
  match last chunks with
  | Some chunk =>
      if era chunk =? e then
        Some (removelast chunks
              ++ [{| value := saturating_add U128_MAX (value chunk) v; era := era chunk |}])
      else try_push {| value := v; era := e |} chunks
  | None => try_push {| value := v; era := e |} chunks
  end.

Definition unbond (origin : Origin) (v : Balance) : L unit :=
  ctrl ← ensure_signed origin;
  l0 ← ledger (OfController ctrl);
  s ← get_storage;
  when (Z.of_nat (length (unlocking l0)) =? MaxUnlockingChunks)
    (do_withdraw_unbonded ctrl
       (match SlashingSpansOf s !! ctrl with
        | Some sp => Z.of_nat (length (spans_iter sp))
        | None => 0
        end)) ;;
  l ← ledger (OfController ctrl);
  s ← get_storage;
  let v := Z.min v (active l) in
  ensure (Z.of_nat (length (unlocking l)) <? MaxUnlockingChunks) (staking_err NoMoreChunks) ;;
  when (negb (v =? 0))
    (let a := wrap U128_MAX (active l - v) in
     let '(a, v) := if a <? ExistentialDeposit then (0, wrap U128_MAX (v + a)) else (a, v) in
     let min_active_bond :=
       if bool_decide (stash l ∈ Nominators s) then MinNominatorBond s
       else if bool_decide (stash l ∈ Validators s) then MinValidatorBond s else 0 in
     ensure (min_active_bond <=? a) (staking_err InsufficientBond) ;;
     let e := saturating_add U32_MAX (default 0 (CurrentEra s)) BondingDuration in
     chunks ← ok_or (add_chunk v e (unlocking l)) (staking_err NoMoreChunks);
     update (with_amounts (total l) a chunks l) ;;
     update_voter (stash l) ;;
     deposit_event (Unbonded (stash l) v)).

Definition withdraw_unbonded (origin : Origin) (num_slashing_spans : Z) : L unit :=
  ctrl ← ensure_signed origin;
  do_withdraw_unbonded ctrl num_slashing_spans.

Definition chill (origin : Origin) : L unit :=
  ctrl ← ensure_signed origin;
  l ← ledger (OfController ctrl);
  chill_stash (stash l).

Definition set_payee (origin : Origin) (payee : RewardDestination) : L unit :=
  ctrl ← ensure_signed origin;
  l ← ledger (OfController ctrl);
  ensure (bool_decide (payee ≠ Controller)) (staking_err ControllerDeprecated) ;;
  set_ledger_payee l payee.

Definition set_controller (origin : Origin) : L unit :=
  who ← ensure_signed origin;
  l ← ledger (OfStash who);
  s ← get_storage;
  ctrl ← ok_or (controller_of l s) (staking_err NotController);
  ensure (negb (ctrl =? who)) (staking_err AlreadyPaired) ;;
  set_controller_to_stash l.

(** [rebond] with the fuel that [rebond_loop] needs. *)
Definition rebond_ledger (v : Balance) l : StakingLedger * Balance :=
  default (l, 0) (rebond (S (length (unlocking l))) v l).

Definition rebond_call (origin : Origin) (v : Balance) : L unit :=
  ctrl ← ensure_signed origin;
  l ← ledger (OfController ctrl);
  ensure (bool_decide (unlocking l ≠ [])) (staking_err NoUnlockChunk) ;;
  let '(l, rebonded_value) := rebond_ledger v l in
  ensure (ExistentialDeposit <=? active l) (staking_err InsufficientBond) ;;
  deposit_event (Bonded_ (stash l) rebonded_value) ;;
  update l ;;
  update_voter (stash l).

Definition force_unstake (origin : Origin) (who : AccountId) (num_slashing_spans : Z) : L unit :=
  ensure_origin EnsureRoot origin ;;
  kill_stash who num_slashing_spans.

Definition reap_stash (origin : Origin) (who : AccountId) (num_slashing_spans : Z) : L unit :=
  ensure_signed origin ;;
  s ← get_storage;
  ensure (negb (is_virtual_staker who s)) (staking_err VirtualStakerNotAllowed) ;;
  c ← gets id;
  let origin_balance := total_balance who c in
  let ledger_total := match ledger (OfStash who) c with Ok (l, _) => total l | Err _ => 0 end in
  let reapable := (origin_balance <? ExistentialDeposit) || (origin_balance =? 0)
                  || (ledger_total <? ExistentialDeposit) || (ledger_total =? 0) in
  ensure reapable (staking_err FundedTarget) ;;
  kill_stash who num_slashing_spans.

(** ** Slashes and rewards *)

(** [Currency::slash]: what could not be taken. *)
Definition currency_slash (who : AccountId) (v : Balance) : L Balance :=
  c ← gets id;
  if v =? 0 then mret 0
  else if total_balance who c =? 0 then mret v
  else λ c,
    match try_mutate_account_handling_dust who (λ a _ c,
            let actual := if can_dec_provider who c then Z.min v (free a)
                          else Z.min v (saturating_sub (free a) ExistentialDeposit) in
            Ok ((saturating_sub v actual,
                 mkAccountData (saturating_sub (free a) actual) (reserved a) (frozen a)), c)) c with
    | Ok (remaining, c') => Ok (remaining, c')
    | Err _ => Ok (v, c)
    end.

(** [do_slash]: what is missing is deducted from the payout of a reward. *)
Definition do_slash (who : AccountId) (v reward_payout slash_era : Z) : L Z := λ c,
  match ledger (OfStash who) c with
  | Err _ => Ok (reward_payout, c)
  | Ok (l, _) =>
      let '(l', v, told) := slash BondingDuration v ExistentialDeposit slash_era l in
      (match told with
       | Some (left_, chunks, amount) => deposit_event (OnSlash who left_ chunks amount)
       | None => mret tt
       end ;;
       if v =? 0 then mret reward_payout
       else
         s ← get_storage;
         missing ← (if is_virtual_staker who s then mret 0 else currency_slash who v);
         ignore_err (update l') ;;
         deposit_event (Slashed who v) ;;
         mret (saturating_sub reward_payout missing)) c
  end.

(** [Currency::deposit_into_existing] *)
Definition deposit_into_existing (who : AccountId) (v : Balance) : L unit :=
  if v =? 0 then mret tt
  else
    try_mutate_account_handling_dust who (λ a is_new,
      ensure (negb is_new) (err BalancesErrors.DeadAccount) ;;
      f ← ok_or (checked_add U128_MAX (free a) v) (Arithmetic Overflow);
      mret (tt, mkAccountData f (reserved a) (frozen a))).

(** [Currency::deposit_creating]: what was deposited. *)
Definition deposit_creating (who : AccountId) (v : Balance) : L Balance :=
  if v =? 0 then mret 0
  else λ c,
    match try_mutate_account_handling_dust who (λ a is_new,
            ensure ((ExistentialDeposit <=? v) || negb is_new)
              (err BalancesErrors.ExistentialDeposit) ;;
            match checked_add U128_MAX (free a) v with
            | Some f => mret (v, mkAccountData f (reserved a) (frozen a))
            | None => mret (0, a)
            end) c with
    | Ok (deposited, c') => Ok (deposited, c')
    | Err _ => Ok (0, c)
    end.

(** [o.ok()] of a deposit *)
Definition deposited (m : L unit) (v : Balance) : L (option Balance) := λ c,
  match m c with Ok (_, c') => Ok (Some v, c') | Err _ => Ok (None, c) end.

Definition reward_destination (account : StakingAccount) s : option RewardDestination :=
  who ← (match account with
         | OfStash who => Some who
         | OfController ctrl => paired_account (OfController ctrl) s
         end);
  Payee s !! who.

(** The branch [Staked]: the ledger grows whether or not the deposit succeeds. *)
Definition pay_staked (who : AccountId) (amount : Balance) : L (option Balance) := λ c,
  match ledger (OfStash who) c with
  | Err _ => Ok (None, c)
  | Ok (l, _) =>
      (r ← deposited (deposit_into_existing who amount) amount;
       ignore_err (update (with_amounts (wrap U128_MAX (total l + amount))
         (wrap U128_MAX (active l + amount)) (unlocking l) l)) ;;
       mret r) c
  end.

Definition pay_creating (who : AccountId) (amount : Balance) : L (option Balance) :=
  r ← deposit_creating who amount;
  mret (Some r).

(** [make_payout]: what was paid, and to which destination. *)
Definition make_payout (who : AccountId) (amount : Balance)
    : L (option (Balance * RewardDestination)) :=
  if amount =? 0 then mret None
  else
    s ← get_storage;
    match reward_destination (OfStash who) s with
    | None => mret None
    | Some dest =>
        maybe_imbalance ←
          (match dest with
           | Stash => deposited (deposit_into_existing who amount) amount
           | Staked => pay_staked who amount
           | Account_ dest_account => pay_creating dest_account amount
           | None_ => mret None
           | Controller =>
               match paired_account (OfStash who) s with
               | Some ctrl => pay_creating ctrl amount
               | None => mret None
               end
           end);
        mret ((λ imbalance, (imbalance, dest)) <$> maybe_imbalance)
    end.

(** ** [inspect_bond_state] *)

Inductive LedgerIntegrityState := IntegrityOk | Corrupted | CorruptedKilled | LockCorrupted.

Definition inspect_bond_state (who : AccountId) s : result StakingError LedgerIntegrityState :=
  let lock := balance_locked STAKING_ID who s in
  match Bonded s !! who with
  | None => Err (if lock =? 0 then NotStash else BadState)
  | Some ctrl =>
      Ok (match Ledger s !! ctrl with
          | Some l =>
              if negb (stash l =? who) then Corrupted
              else if negb (lock =? total l) then LockCorrupted else IntegrityOk
          | None => CorruptedKilled
          end)
  end.
End bonds.
