(* ===== verification/StakingBondLaws.v ===== *)
(** * Bonds, ledgers and locks agree

    The invariant of the storage of StakingBonds.v, that every call, slash and
    reward preserves it, and what unbonding promises. *)

From coqutil Require Import Datatypes.RecordSetters.
From S2P Require Import Prelude Arith Errors Frame Balances StakingLedger StakingBonds.
Import TriangleBracketNotations StakingErrors.

(** ** Computations on the accounts only *)

Section keeps.
Context {R : Type} {T : BalancesConfig}.
Abbreviation L A := (M DispatchError (Chain R) A).

Definition keeps {A} (m : L A) : Prop := ∀ c a c', m c = Ok (a, c') → rest c' = rest c.

Lemma keeps_bind {A B} (m : L A) (f : A → L B) :
  keeps m → (∀ a, keeps (f a)) → keeps (m ≫= f).
Proof. intros Hm Hf c b c' H. minv. rewrite (Hf _ _ _ _ H). by eapply Hm. Qed.
Lemma keeps_ret {A} (a : A) : keeps (mret a : L A).
Proof. intros c b c' H. by minv. Qed.
Lemma keeps_fail {A} e : keeps (fail e : L A).
Proof. intros c b c' H. by minv. Qed.
Lemma keeps_gets {A} (f : Chain R → A) : keeps (gets f : L A).
Proof. intros c b c' H. by minv. Qed.
Lemma keeps_ensure b e : keeps (ensure b e : L unit).
Proof. intros c u c' H. by minv. Qed.
Lemma keeps_ok_or {A} (o : option A) e : keeps (ok_or o e : L A).
Proof. intros c u c' H. by minv. Qed.
Lemma keeps_when b (m : L unit) : keeps m → keeps (when b m).
Proof. intros Hm. destruct b; [done|apply keeps_ret]. Qed.
Lemma keeps_put who i : keeps (modify (put_info who i) : L unit).
Proof. intros c u c' H. minv. done. Qed.
Lemma keeps_remove who : keeps (modify (remove_info who) : L unit).
Proof. intros c u c' H. minv. done. Qed.
End keeps.

Create HintDb keeps.
#[export] Hint Resolve keeps_bind keeps_ret keeps_fail keeps_gets keeps_ensure keeps_ok_or keeps_when keeps_put keeps_remove : keeps.

(** Structural proof that a computation keeps [rest]. *)
Ltac keep := repeat first
  [ progress intros
  | apply keeps_bind
  | solve [eauto with keeps]
  | match goal with |- keeps (match ?x with _ => _ end) => destruct x end
  | match goal with |- keeps (let _ := _ in _) => cbv zeta end ].

Section keeps_balances.
Context {R : Type} {T : BalancesConfig}.
Abbreviation L A := (M DispatchError (Chain R) A).

Lemma keeps_inc_providers who : keeps (inc_providers who : L unit).
Proof. unfold inc_providers. keep. Qed.
Lemma keeps_dec_providers who : keeps (dec_providers who : L unit).
Proof. unfold dec_providers. keep. Qed.
Lemma keeps_inc_consumers who : keeps (inc_consumers who : L unit).
Proof. unfold inc_consumers. keep. Qed.
Lemma keeps_dec_consumers who : keeps (dec_consumers who : L unit).
Proof. unfold dec_consumers. keep. Qed.
#[local] Hint Resolve keeps_inc_providers keeps_dec_providers keeps_inc_consumers keeps_dec_consumers : keeps.

Lemma keeps_update_refs who b1 b2 b3 b4 : keeps (update_refs who b1 b2 b3 b4 : L unit).
Proof. unfold update_refs. keep. Qed.
#[local] Hint Resolve keeps_update_refs : keeps.

Lemma keeps_try_mutate_account {A} who (f : AccountData → bool → L (A * AccountData)) :
  (∀ a b, keeps (f a b)) → keeps (try_mutate_account who f).
Proof. intros Hf. unfold try_mutate_account, try_mutate_exists. keep. Qed.

Lemma keeps_handling_dust {A} who (f : AccountData → bool → L (A * AccountData)) :
  (∀ a b, keeps (f a b)) → keeps (try_mutate_account_handling_dust who f).
Proof.
  intros Hf. pose proof (keeps_try_mutate_account who f Hf).
  assert (∀ d, keeps (handle_raw_dust d : L unit)) by (intros d c u c' H'; unfold handle_raw_dust, handle_dust in H'; minv; done).
  unfold try_mutate_account_handling_dust. keep.
Qed.

(** A computation whose error is ignored always succeeds. *)
Lemma ignore_err_run {A} (m : L A) c :
  keeps m → ∃ c', c ⊢ ignore_err m ⇝ c' ∧ rest c' = rest c.
Proof.
  intros Hm. unfold ignore_err. destruct (m c) as [[a c']|e] eqn:E; [|by exists c].
  exists c'. split; [done|]. by eapply Hm.
Qed.
End keeps_balances.

Section bond_laws.
Context {V : Type} `{VoterListOps V} {T : BalancesConfig} {C : StakingConfig}.
Implicit Types (l : StakingLedger) (s : Bonds V) (c : Chain (Bonds V)).

(** ** Locks *)

Abbreviation locked := (balance_locked STAKING_ID).

Definition lock_sum (locks : list (LockIdentifier * Balance)) : Balance :=
  foldl (λ acc lock, acc + lock.2) 0 (filter (λ lock, lock.1 = STAKING_ID) locks).
Arguments lock_sum : simpl never.

Lemma locked_eq who s : locked who s = lock_sum (locks_of who s).
Proof. done. Qed.

Lemma fold_locks_acc (locks : list (LockIdentifier * Balance)) a :
  foldl (λ acc lock, acc + lock.2) a locks = a + foldl (λ acc lock, acc + lock.2) 0 locks.
Proof.
  revert a. induction locks as [|x locks IH]; intros a; cbn [foldl]; [lia|].
  rewrite IH, (IH (0 + x.2)). lia.
Qed.

Lemma lock_sum_cons x locks :
  lock_sum (x :: locks) = (if decide (x.1 = STAKING_ID) then x.2 else 0) + lock_sum locks.
Proof.
  unfold lock_sum. rewrite filter_cons. case_decide; [|done]. cbn [foldl].
  rewrite fold_locks_acc. lia.
Qed.

Lemma lock_sum_nil : lock_sum [] = 0.
Proof. done. Qed.

Lemma lock_sum_app locks locks' : lock_sum (locks ++ locks') = lock_sum locks + lock_sum locks'.
Proof. induction locks as [|x locks IH]; [done|]. cbn [app]. rewrite !lock_sum_cons, IH. lia. Qed.

Lemma lock_sum_removed locks : lock_sum (filter (λ lock, lock.1 ≠ STAKING_ID) locks) = 0.
Proof.
  induction locks as [|x locks IH]; [done|]. rewrite filter_cons.
  case_decide; [|done]. rewrite lock_sum_cons, decide_False by done. lia.
Qed.

Lemma replace_lock_sum new_lock locks :
  let '(ls, o) := replace_lock STAKING_ID new_lock locks in
  lock_sum ls + default 0 o = default 0 new_lock.
Proof.
  revert new_lock. induction locks as [|x locks IH]; intros new_lock; cbn [replace_lock].
  { rewrite lock_sum_nil. lia. }
  case_decide as Hx.
  - specialize (IH None). destruct (replace_lock STAKING_ID None locks) as [ls o].
    destruct new_lock as [a|]; cbn in IH |- *; [|done].
    rewrite lock_sum_cons, decide_True by done. cbn. lia.
  - specialize (IH new_lock). destruct (replace_lock STAKING_ID new_lock locks) as [ls o].
    rewrite lock_sum_cons, decide_False by done. lia.
Qed.

(** Storages that differ in the locks of one account only. *)
Definition relocked (who : AccountId) s s' : Prop :=
  (∃ lk, s' = s<|Locks := lk|>) ∧ ∀ x, x ≠ who → locks_of x s' = locks_of x s.

Lemma update_locks_run who locks c :
  ∃ c', c ⊢ update_locks who locks ⇝ c' ∧ relocked who (rest c) (rest c')
        ∧ locks_of who (rest c') = locks.
Proof.
  unfold update_locks.
  match goal with |- context [ignore_err ?m] =>
    assert (keeps m) as Hk by (apply keeps_try_mutate_account; intros; apply keeps_ret);
    destruct (ignore_err_run m c Hk) as (c1 & E1 & H1)
  end.
  eexists. split; [apply bind_ok; eexists _, _; split; [exact E1|reflexivity]|].
  cbn [rest]. rewrite H1. unfold relocked, locks_of. cbn. split; [split|].
  - by eexists.
  - intros x Hx. case_bool_decide; [by rewrite lookup_delete_ne|by rewrite lookup_insert_ne].
  - case_bool_decide; [subst; by rewrite lookup_delete_eq|by rewrite lookup_insert_eq].
Qed.

Lemma remove_lock_run who c :
  ∃ c', c ⊢ remove_lock STAKING_ID who ⇝ c' ∧ relocked who (rest c) (rest c')
        ∧ locked who (rest c') = 0.
Proof.
  destruct (update_locks_run who (filter (λ lock, lock.1 ≠ STAKING_ID) (locks_of who (rest c))) c)
    as (c' & E & Hr & Hl).
  exists c'. split_and!; [exact E|done|]. by rewrite locked_eq, Hl, lock_sum_removed.
Qed.

Lemma set_lock_run who amount c :
  ∃ c', c ⊢ set_lock STAKING_ID who amount ⇝ c' ∧ relocked who (rest c) (rest c')
        ∧ locked who (rest c') = amount.
Proof.
  unfold set_lock. destruct (amount =? 0) eqn:E0; bool_facts.
  { subst. apply remove_lock_run. }
  pose proof (replace_lock_sum (Some amount) (locks_of who (rest c))) as Hs.
  destruct (replace_lock STAKING_ID (Some amount) (locks_of who (rest c))) as [ls o] eqn:El.
  destruct (update_locks_run who (match o with Some a => ls ++ [(STAKING_ID, a)] | None => ls end) c)
    as (c' & E & Hr & Hl).
  exists c'. split_and!; [|done|].
  - unfold get_storage. apply bind_ok. exists (rest c), c. split; [done|]. by rewrite El.
  - rewrite locked_eq, Hl. cbn in Hs.
    destruct o as [a|]; cbn in Hs; [|lia].
    rewrite lock_sum_app, lock_sum_cons, lock_sum_nil, decide_True by done. cbn. lia.
Qed.

(** ** The invariant *)

Definition max_chunks : nat := Z.to_nat MaxUnlockingChunks.

(** What is stored of one stash. *)
Definition bond_ok s (who : AccountId) : Prop :=
  (who ∈ VirtualStakers s → locked who s = 0)
  ∧ match Bonded s !! who with
    | Some ctrl =>
        is_Some (Payee s !! who)
        ∧ ∃ l, Ledger s !! ctrl = Some l ∧ stash l = who ∧ ledger_ok l
               ∧ (length (unlocking l) ≤ max_chunks)%nat
               ∧ (who ∉ VirtualStakers s → locked who s = total l)
    | None => Payee s !! who = None ∧ locked who s = 0
    end.

Definition paired s : Prop :=
  ∀ ctrl l, Ledger s !! ctrl = Some l → Bonded s !! stash l = Some ctrl.

Definition bonds_ok s : Prop := (∀ who, bond_ok s who) ∧ paired s.

(** Storages that agree on all that the invariant reads. *)
Definition same_bonds s s' : Prop :=
  Bonded s' = Bonded s ∧ Ledger s' = Ledger s ∧ Payee s' = Payee s
  ∧ VirtualStakers s' = VirtualStakers s ∧ ∀ who, locked who s' = locked who s.

Lemma bonds_ok_same s s' : same_bonds s s' → bonds_ok s → bonds_ok s'.
Proof.
  intros (EB & EL & EP & EV & El) [H1 H2]. split.
  - intros who. specialize (H1 who). unfold bond_ok in *. by rewrite EB, EL, EP, EV, El.
  - intros ctrl l. rewrite EB, EL. apply H2.
Qed.

Lemma same_bonds_refl s : same_bonds s s.
Proof. done. Qed.
Lemma same_bonds_trans s1 s2 s3 : same_bonds s1 s2 → same_bonds s2 s3 → same_bonds s1 s3.
Proof.
  intros (B1 & L1 & P1 & V1 & K1) (B2 & L2 & P2 & V2 & K2).
  unfold same_bonds. split_and!; congruence.
Qed.

(** Computations that leave bonds, ledgers and locks alone. *)
Definition spares {A} (m : M DispatchError (Chain (Bonds V)) A) : Prop :=
  ∀ c a c', m c = Ok (a, c') → same_bonds (rest c) (rest c').

Lemma keeps_spares {A} (m : M DispatchError (Chain (Bonds V)) A) : keeps m → spares m.
Proof. intros Hm c a c' E. rewrite (Hm _ _ _ E). apply same_bonds_refl. Qed.

Lemma spares_bind {A B} (m : M DispatchError (Chain (Bonds V)) A) (f : A → M _ _ B) :
  spares m → (∀ a, spares (f a)) → spares (m ≫= f).
Proof. intros Hm Hf c b c' E. minv. eapply same_bonds_trans; [by eapply Hm|by eapply Hf]. Qed.

Lemma spares_storage (f : Bonds V → Bonds V) : (∀ s, same_bonds s (f s)) → spares (storage f).
Proof. intros Hf c u c' E. unfold storage in E. minv. apply Hf. Qed.

Lemma spares_event e : spares (deposit_event e).
Proof. by apply spares_storage. Qed.

Lemma spares_when b (m : M DispatchError (Chain (Bonds V)) unit) : spares m → spares (when b m).
Proof. intros Hm. destruct b; [done|]. apply keeps_spares, keeps_ret. Qed.

Lemma spares_update_voter who : spares (update_voter who).
Proof.
  unfold update_voter. apply spares_bind; [apply keeps_spares, keeps_gets|]. intros s.
  apply spares_when, spares_bind; [apply keeps_spares, keeps_gets|]. intros w.
  by apply spares_storage.
Qed.

(** ** Reading and writing ledgers *)

(** A ledger as [StakingLedger::get] returns it. *)
Definition fetched s l : Prop :=
  ledger_ok l ∧ (length (unlocking l) ≤ max_chunks)%nat
  ∧ ∃ ctrl, controller l = Some ctrl ∧ Bonded s !! stash l = Some ctrl.

Lemma ledger_run acc c l c' :
  ledger acc c = Ok (l, c') →
  c' = c ∧ ∃ ctrl l0, Bonded (rest c) !! stash l0 = Some ctrl ∧ Ledger (rest c) !! ctrl = Some l0
    ∧ l = with_controller (Some ctrl) l0
    ∧ match acc with OfStash w => stash l0 = w | OfController k => ctrl = k end.
Proof.
  unfold ledger, get_storage. intros E. minv.
  destruct acc as [w|k]; minv; bool_facts; minv.
  - split; [done|]. eexists _, _. split_and!; [|done..]. congruence.
  - split; [done|]. eexists _, _. split_and!; [|done..].
    match goal with E : stash ?l = _ |- Bonded _ !! stash ?l = _ => by rewrite E end.
Qed.

Lemma ledger_fetched acc c l c' :
  bonds_ok (rest c) → ledger acc c = Ok (l, c') → c' = c ∧ fetched (rest c) l.
Proof.
  intros [H1 _] (-> & ctrl & l0 & EB & EL & -> & _)%ledger_run. split; [done|].
  specialize (H1 (stash l0)) as [_ H1]. rewrite EB in H1.
  destruct H1 as (_ & l1 & E1 & _ & Hok & Hn & _). rewrite EL in E1. injection E1 as <-.
  split; [exact Hok|]. split; [exact Hn|]. by exists ctrl.
Qed.

Lemma relocked_fields who s s' :
  relocked who s s' →
  Bonded s' = Bonded s ∧ Ledger s' = Ledger s ∧ Payee s' = Payee s
  ∧ VirtualStakers s' = VirtualStakers s ∧ ∀ x, x ≠ who → locked x s' = locked x s.
Proof.
  intros [[lk ->] Hx]. split_and!; try done. intros x Hne. rewrite !locked_eq. by rewrite Hx.
Qed.

(** [update] writes one ledger and its lock. *)
Lemma update_run l ctrl c :
  controller l = Some ctrl → is_Some (Bonded (rest c) !! stash l) →
  ∃ c', c ⊢ update l ⇝ c'
  ∧ Bonded (rest c') = Bonded (rest c) ∧ Payee (rest c') = Payee (rest c)
  ∧ VirtualStakers (rest c') = VirtualStakers (rest c)
  ∧ Ledger (rest c') = <[ctrl := with_controller None l]> (Ledger (rest c))
  ∧ (∀ x, x ≠ stash l → locked x (rest c') = locked x (rest c))
  ∧ (stash l ∉ VirtualStakers (rest c) → locked (stash l) (rest c') = total l)
  ∧ (stash l ∈ VirtualStakers (rest c) → locked (stash l) (rest c') = locked (stash l) (rest c)).
Proof.
  intros Hc HB. unfold update, get_storage.
  assert (∃ c1, c ⊢ when (negb (is_virtual_staker (stash l) (rest c)))
      (set_lock STAKING_ID (stash l) (total l)) ⇝ c1
    ∧ relocked (stash l) (rest c) (rest c1)
    ∧ (stash l ∉ VirtualStakers (rest c) → locked (stash l) (rest c1) = total l)
    ∧ (stash l ∈ VirtualStakers (rest c) → rest c1 = rest c)) as (c1 & E1 & Hr & Hl & Hv).
  { unfold is_virtual_staker. case_bool_decide as Hd; cbn [negb when].
    - exists c. split_and!; try done. split; [|done]. exists (Locks (rest c)). by destruct (rest c).
    - destruct (set_lock_run (stash l) (total l) c) as (c1 & ? & ? & ?). exists c1. done. }
  destruct (relocked_fields _ _ _ Hr) as (EB & EL & EP & EV & Ex).
  eexists. split.
  - apply bind_ok. eexists _, _. split; [reflexivity|].
    apply bind_ok. eexists tt, c. split.
    { apply ensure_ok. split; [|done]. unfold is_bonded. by rewrite bool_decide_true. }
    apply bind_ok. eexists tt, c1. split; [exact E1|].
    apply bind_ok. eexists _, _. split; [reflexivity|].
    apply bind_ok. eexists ctrl, c1. split; [|reflexivity].
    apply ok_or_ok. split; [|done]. unfold controller_of. by rewrite Hc.
  - cbn. split_and!; try done.
    + by rewrite <-EL.
    + intros Hin. by rewrite (Hv Hin).
Qed.

(** The invariant but for one stash. *)
Definition bonds_ok_but s (who : AccountId) : Prop :=
  (∀ x, x ≠ who → bond_ok s x) ∧ paired s.

Lemma update_ok l c :
  bonds_ok_but (rest c) (stash l) → fetched (rest c) l →
  (stash l ∈ VirtualStakers (rest c) → locked (stash l) (rest c) = 0) →
  is_Some (Payee (rest c) !! stash l) →
  (∀ ctrl l0, controller l = Some ctrl → Ledger (rest c) !! ctrl = Some l0 → stash l0 = stash l) →
  ∃ c', c ⊢ update l ⇝ c' ∧ bonds_ok (rest c').
Proof.
  intros [Hx Hp] (Hok & Hn & ctrl & Hc & HB) Hv HP Hown.
  destruct (update_run l ctrl c Hc ltac:(by eexists)) as (c' & E & EB & EP & EV & EL & K1 & K2 & K3).
  exists c'. split; [done|]. split.
  - intros x. unfold bond_ok. rewrite EB, EP, EV, EL.
    destruct (decide (x = stash l)) as [->|Hne].
    + split; [intros Hi; rewrite K3 by done; by apply Hv|]. rewrite HB. split; [done|].
      exists (with_controller None l). rewrite lookup_insert_eq. by split_and!.
    + rewrite K1 by done. specialize (Hx x Hne) as [Hv' Hb]. split; [done|].
      destruct (Bonded (rest c) !! x) as [ctrl'|] eqn:Ex; [|done].
      destruct Hb as (? & l' & El & Es & ?). split; [done|]. exists l'.
      rewrite lookup_insert_ne; [done|]. intros <-. apply Hne. rewrite <-Es. by apply (Hown ctrl).
  - intros ctrl' l'. rewrite EL, EB. intros [[<- <-]|[Hne El]]%lookup_insert_Some; [done|].
    by apply Hp.
Qed.

(** The usual case: a ledger that was read is written back. *)
Lemma update_fetched l c c' :
  bonds_ok (rest c) → fetched (rest c) l → c ⊢ update l ⇝ c' → bonds_ok (rest c').
Proof.
  intros [H1 H2] Hf E. pose proof Hf as (_ & _ & ctrl & Hc & HB).
  pose proof (H1 (stash l)) as [Hv Hb]. rewrite HB in Hb. destruct Hb as (HP & l0 & EL & Es & _).
  destruct (update_ok l c) as (c1 & E1 & H'); try done.
  - intros ctrl' l1 Hc' El1. rewrite Hc in Hc'. injection Hc' as <-. congruence.
  - rewrite E in E1. by injection E1 as <-.
Qed.

Lemma spares_ok {A} (m : M DispatchError (Chain (Bonds V)) A) c a c' :
  spares m → m c = Ok (a, c') → bonds_ok (rest c) → bonds_ok (rest c').
Proof. intros Hm E. by apply bonds_ok_same, (Hm _ _ _ E). Qed.

Lemma fetched_amounts s l t a cs :
  fetched s l → ledger_ok (with_amounts t a cs l) → (length cs ≤ max_chunks)%nat →
  fetched s (with_amounts t a cs l).
Proof. by intros (_ & _ & ?) ? ?. Qed.

Lemma fetched_same s s' l : Bonded s' = Bonded s → fetched s l → fetched s' l.
Proof. unfold fetched. by intros ->. Qed.

(** ** Removing a stash *)

(** The storage without a stash, before its lock is removed. *)
Lemma killed_ok s s' who ctrl l :
  bonds_ok s → Bonded s !! who = Some ctrl → Ledger s !! ctrl = Some l →
  Bonded s' = delete who (Bonded s) → Ledger s' = delete ctrl (Ledger s) →
  Payee s' = delete who (Payee s) →
  (∀ x, x ≠ who → locked x s' = locked x s ∧ (x ∈ VirtualStakers s' ↔ x ∈ VirtualStakers s)) →
  locked who s' = 0 → bonds_ok s'.
Proof.
  intros [H1 H2] HB HL EB EL EP Hx H0. pose proof (H2 _ _ HL) as HBs. split.
  - intros x. destruct (decide (x = who)) as [->|Hne]; unfold bond_ok.
    + rewrite EB, EP, !lookup_delete_eq. done.
    + destruct (Hx x Hne) as [-> Hv]. rewrite EB, EP, EL, !(lookup_delete_ne _ who x) by done.
      rewrite Hv. pose proof (H1 x) as [Hv' Hb]. split; [done|].
      destruct (Bonded s !! x) as [ctrl'|] eqn:Ex; [|done].
      destruct Hb as (? & l' & El & Es & ? & ? & Hlk). split; [done|]. exists l'.
      rewrite lookup_delete_ne; [split_and!; try done; by rewrite Hv|]. intros <-.
      pose proof (H1 who) as [_ Hw]. rewrite HB in Hw. destruct Hw as (_ & l1 & E1 & Es1 & _).
      congruence.
  - intros ctrl' l'. rewrite EL, EB. intros [Hne El]%lookup_delete_Some.
    pose proof (H2 _ _ El). rewrite lookup_delete_ne; [done|]. intros ->. congruence.
Qed.

Lemma kill_ok who c c' : bonds_ok (rest c) → c ⊢ kill who ⇝ c' → bonds_ok (rest c').
Proof.
  intros Hok E. unfold kill, get_storage, storage in E. minv.
  pose proof (proj1 Hok who) as [Hv Hb].
  match goal with H : Bonded (rest c) !! who = Some _ |- _ => rewrite H in Hb; rename H into HB end.
  match goal with H : Ledger (rest c) !! _ = Some _ |- _ => rename H into HL end.
  destruct Hb as (_ & l1 & E1 & Es & _). rewrite HL in E1. injection E1 as <-.
  case_bool_decide as Hd; minv.
  - eapply (killed_ok (rest c)); try done.
    + intros x Hx. split; [done|]. cbn. set_solver.
    + by apply Hv.
  - match goal with H : (_ ⊢ remove_lock _ _ ⇝ _) |- _ => rename H into E end.
    rewrite Es in E.
    match type of E with (?c0 ⊢ _ ⇝ _) =>
      destruct (remove_lock_run who c0) as (c1 & E1 & Hr & H0) end.
    rewrite E1 in E. injection E as <-.
    destruct (relocked_fields _ _ _ Hr) as (EB & EL & EP & EV & Ex).
    eapply (killed_ok (rest c)); try done.
    intros x Hx. rewrite Ex by done. split; [done|]. by rewrite EV.
Qed.

Lemma spares_clear who n : spares (clear_stash_metadata who n).
Proof.
  unfold clear_stash_metadata. apply spares_bind; [apply keeps_spares, keeps_gets|]. intros s.
  destruct (SlashingSpansOf s !! who); [|apply keeps_spares, keeps_ret].
  apply spares_bind; [apply keeps_spares, keeps_ensure|]. intros _. by apply spares_storage.
Qed.

Lemma remove_roles_same who s :
  same_bonds s (do_remove_nominator who (do_remove_validator who s).2).2.
Proof.
  unfold do_remove_nominator, do_remove_validator.
  repeat case_bool_decide; split_and!; try done.
Qed.

Lemma kill_stash_ok who n c c' :
  bonds_ok (rest c) → c ⊢ kill_stash who n ⇝ c' → bonds_ok (rest c').
Proof.
  intros Hok E. unfold kill_stash in E. minv.
  eapply spares_ok; [apply keeps_spares, (keeps_dec_consumers who)|eassumption|].
  eapply spares_ok; [|eassumption|].
  { apply spares_storage. intros s. apply remove_roles_same. }
  eapply kill_ok; [|eassumption]. eapply spares_ok; [apply spares_clear|eassumption|done].
Qed.

(** ** Bonding and unbonding *)

Lemma inc_consumers_free who c c' :
  c ⊢ inc_consumers who ⇝ c' → free (account who c') = free (account who c).
Proof.
  unfold inc_consumers. intros E. minv. repeat case_match; minv. unfold account, get_info.
  cbn. by rewrite lookup_insert_eq.
Qed.

Lemma bond_ledger_ok l payee c c' :
  bonds_ok (rest c) → controller l = Some (stash l) → Ledger (rest c) !! stash l = None →
  ledger_ok l → unlocking l = [] → c ⊢ bond_ledger l payee ⇝ c' → bonds_ok (rest c').
Proof.
  intros [H1 H2] Hc HL Hok Hu E. unfold bond_ledger, get_storage in E. minv. bool_facts.
  match goal with H : storage _ _ = Ok ((), ?c0) |- _ => rename H into Es, c0 into c1 end.
  assert (Bonded (rest c) !! stash l = None) as HB.
  { destruct (Bonded (rest c) !! stash l) eqn:EB; [|done].
    match goal with H : is_bonded _ _ = false |- _ => unfold is_bonded in H; bool_facts;
      rewrite EB in H; destruct H; by eexists end. }
  assert (Bonded (rest c1) = <[stash l := stash l]> (Bonded (rest c))
    ∧ Payee (rest c1) = <[stash l := payee]> (Payee (rest c))
    ∧ Ledger (rest c1) = Ledger (rest c) ∧ VirtualStakers (rest c1) = VirtualStakers (rest c)
    ∧ ∀ x, locked x (rest c1) = locked x (rest c)) as (EB & EP & EL & EV & Ek)
    by (unfold storage in Es; minv; done).
  destruct (update_ok l c1) as (c2 & E2 & Hok2).
  - split.
    + intros x Hne. unfold bond_ok. rewrite EB, EP, EL, EV, Ek, !lookup_insert_ne by done.
      apply H1.
    + intros ctrl l'. rewrite EB, EL. intros El. pose proof (H2 _ _ El).
      rewrite lookup_insert_ne; [done|]. intros Heq. congruence.
  - split; [done|]. rewrite Hu. split; [simpl; lia|]. exists (stash l).
    split; [done|]. by rewrite EB, lookup_insert_eq.
  - rewrite EV, Ek. apply H1.
  - rewrite EP, lookup_insert_eq. by eexists.
  - intros ctrl l0 Hc'. rewrite Hc in Hc'. injection Hc' as <-. rewrite EL, HL. done.
  - rewrite E2 in E. by injection E as <-.
Qed.

Lemma bond_run_ok origin v payee c c' :
  fits U128_MAX v → (∀ x, 0 ≤ free (account x c)) → bonds_ok (rest c) →
  c ⊢ bond origin v payee ⇝ c' → bonds_ok (rest c').
Proof.
  intros Hv Hfree Hok E. unfold bond, get_storage in E. minv.
  match goal with H : ensure_signed _ _ = _ |- _ => apply ensure_signed_ok in H as [-> ->] end.
  match goal with H : map_err _ (inc_consumers ?w ?c0) = _ |- _ =>
    rename w into who; destruct (inc_consumers who c0) as [[[] c1]|] eqn:Ei; cbn in H; minv end.
  pose proof (keeps_inc_consumers _ _ _ _ Ei) as Er.
  pose proof (inc_consumers_free _ _ _ Ei) as Ef.
  match goal with H : deposit_event _ _ = Ok _ |- _ =>
    pose proof (spares_event _ _ _ _ H) as Hs end.
  rewrite Er in Hs. bool_facts. specialize (Hfree who).
  eapply bond_ledger_ok; [by eapply bonds_ok_same| | | | |exact E]; try done.
  - destruct Hs as (_ & -> & _). cbn [new_ledger stash].
    destruct (Ledger (rest c) !! who) eqn:EL; [|done].
    match goal with H : is_bonded (OfController _) _ = false |- _ => unfold is_bonded in H; bool_facts;
      rewrite EL in H; destruct H; by eexists end.
  - apply new_ledger_ok. rewrite Ef. unfold fits in *. lia.
Qed.

Lemma ensure_signed_same origin c who c' :
  ensure_signed origin c = Ok (who, c') → c' = c.
Proof. by intros [_ ->]%ensure_signed_ok. Qed.

Lemma do_bond_extra_ok who additional c c' :
  0 ≤ additional → bonds_ok (rest c) →
  c ⊢ do_bond_extra who additional ⇝ c' → bonds_ok (rest c').
Proof.
  intros Ha Hok E. unfold do_bond_extra, get_storage in E.
  apply bind_ok in E as (l & c0 & El & E). destruct (ledger_fetched _ _ _ _ Hok El) as [-> Hf].
  minv. pose proof Hf as ((A1 & A2 & A3 & A4) & Hn & _).
  eapply spares_ok; [apply spares_event|eassumption|].
  eapply spares_ok; [apply spares_update_voter|eassumption|].
  match goal with H : (if is_virtual_staker _ _ then _ else _) _ = Ok (?x, ?c0) |- _ =>
    assert (0 ≤ x ∧ c0 = c) as [Hx ->]; [case_match; minv|] end.
  { done. }
  { match goal with H : checked_sub _ _ = Some _ |- _ => apply checked_sub_Some in H end.
    split; [lia|done]. }
  repeat match goal with H : checked_add _ _ _ = Some _ |- _ => apply checked_add_Some in H end.
  eapply update_fetched; [done| |eassumption].
  apply fetched_amounts; [done| |done]. unfold ledger_ok. fields. split_and!; lia || done.
Qed.

Lemma do_withdraw_ok ctrl n c c' :
  bonds_ok (rest c) → c ⊢ do_withdraw_unbonded ctrl n ⇝ c' → bonds_ok (rest c').
Proof.
  intros Hok E. unfold do_withdraw_unbonded, get_storage in E.
  apply bind_ok in E as (l & c0 & El & E). destruct (ledger_fetched _ _ _ _ Hok El) as [-> Hf].
  apply bind_ok in E as (s & c0 & Eg & E). apply gets_ok in Eg as [-> ->].
  set (l1 := match CurrentEra (rest c) with Some _ => _ | None => _ end) in E.
  assert (fetched (rest c) l1) as Hf1.
  { unfold l1. destruct (CurrentEra (rest c)) as [e|]; [|done].
    pose proof Hf as (Hl & Hn & ctrl' & Hc & HB).
    destruct (consolidate_unlocked_spec e l Hl) as (? & _ & E1 & E2 & E3 & _).
    split; [done|]. split; [|exists ctrl'; by rewrite E1, E2].
    rewrite E3. etrans; [apply length_filter|done]. }
  apply bind_ok in E as ([] & c1 & E1 & E).
  refine (spares_ok _ _ _ _ _ E _).
  { apply spares_when, spares_bind; [apply spares_event|]. intros _. apply spares_event. }
  case_match.
  - by eapply kill_stash_ok.
  - by eapply update_fetched.
Qed.

Lemma add_chunk_spec v e cs cs' :
  Forall (λ x, 0 ≤ value x) cs → 0 ≤ v → chunk_sum cs + v ≤ U128_MAX →
  (length cs ≤ max_chunks)%nat → add_chunk v e cs = Some cs' →
  Forall (λ x, 0 ≤ value x) cs' ∧ chunk_sum cs' = chunk_sum cs + v
  ∧ (length cs' ≤ max_chunks)%nat ∧ ∃ cs0 x, cs' = cs0 ++ [x] ∧ era x = e ∧ v ≤ value x.
Proof.
  intros Hf Hv Hm Hn E.
  assert (try_push {| value := v; era := e |} cs = Some cs' →
    Forall (λ x, 0 ≤ value x) cs' ∧ chunk_sum cs' = chunk_sum cs + v
    ∧ (length cs' ≤ max_chunks)%nat ∧ ∃ cs0 x, cs' = cs0 ++ [x] ∧ era x = e ∧ v ≤ value x) as Hpush.
  { unfold try_push. case_match eqn:El; [|done]. bool_facts. intros [= <-].
    rewrite chunk_sum_app, chunk_sum_cons, chunk_sum_nil, length_app. fields. cbn [length].
    unfold max_chunks. split_and!; [|lia|lia|by eexists _, _].
    apply Forall_app; split; [done|]. by constructor. }
  unfold add_chunk in E. destruct (last cs) as [x|] eqn:El; [|by apply Hpush].
  destruct (era x =? e) eqn:Ee; [|by apply Hpush]. bool_facts. injection E as <-.
  apply StakingLedger.removelast_last in El. rewrite El in Hf, Hm, Hn |- *.
  apply Forall_app in Hf as [Hf [Hx _]%Forall_cons].
  rewrite chunk_sum_app, chunk_sum_cons, chunk_sum_nil in *. rewrite length_app in *.
  pose proof (chunk_sum_nonneg _ Hf). rewrite removelast_app by done. cbn [removelast].
  rewrite app_nil_r, !chunk_sum_app, !chunk_sum_cons, chunk_sum_nil. fields. cbn [length] in *.
  rewrite saturating_add_exact by lia. split_and!; [|lia|lia|].
  - apply Forall_app; split; [done|]. constructor; [fields; lia|constructor].
  - eexists _, _. split; [done|]. fields. split; [done|lia].
Qed.

(** The amount that leaves the active stake: what was asked for, or all of it. *)
Lemma unbond_amount a v :
  0 ≤ v → 0 ≤ a ≤ U128_MAX →
  let w := Z.min v a in
  let a' := wrap U128_MAX (a - w) in
  ∃ w', (if a' <? ExistentialDeposit then (0, wrap U128_MAX (w + a')) else (a', w)) = (a - w', w')
  ∧ 0 ≤ w' ≤ a ∧ (w' = v ∨ w' = a) ∧ w ≤ w' ∧ (a - w' = 0 ∨ ExistentialDeposit ≤ a - w').
Proof.
  intros Hv Ha. cbv zeta. rewrite (wrap_small U128_MAX (a - _)) by (unfold fits; lia).
  destruct (_ <? ExistentialDeposit) eqn:Ed; bool_facts.
  - exists a. rewrite wrap_small by (unfold fits; lia). split; [pairs; lia|]. split_and!; lia.
  - eexists. split; [done|]. split_and!; lia.
Qed.

(** A run of [unbond]: chunks that are due may be withdrawn first, then one
    ledger is written. *)
Lemma unbond_run origin v c c' :
  0 ≤ v → bonds_ok (rest c) → c ⊢ unbond origin v ⇝ c' →
  ∃ ctrl l0 l c1, origin = Signed ctrl ∧ ledger (OfController ctrl) c = Ok (l0, c)
  ∧ bonds_ok (rest c1) ∧ (Z.of_nat (length (unlocking l0)) ≠ MaxUnlockingChunks → c1 = c)
  ∧ ledger (OfController ctrl) c1 = Ok (l, c1) ∧ fetched (rest c1) l
  ∧ ((Z.min v (active l) = 0 ∧ c' = c1) ∨
     ∃ w cs c2, 0 ≤ w ≤ active l ∧ (w = v ∨ w = active l) ∧ Z.min v (active l) ≤ w
       ∧ (active l - w = 0 ∨ ExistentialDeposit ≤ active l - w)
       ∧ add_chunk w (saturating_add U32_MAX (default 0 (CurrentEra (rest c1))) BondingDuration)
           (unlocking l) = Some cs
       ∧ c1 ⊢ update (with_amounts (total l) (active l - w) cs l) ⇝ c2
       ∧ same_bonds (rest c2) (rest c')).
Proof.
  intros Hv Hok E. unfold unbond, get_storage in E.
  apply bind_ok in E as (ctrl & c0 & Es & E). apply ensure_signed_ok in Es as [-> ->].
  apply bind_ok in E as (l0 & c0 & El0 & E). destruct (ledger_fetched _ _ _ _ Hok El0) as [-> _].
  apply bind_ok in E as (s & c0 & Eg & E). apply gets_ok in Eg as [-> ->].
  apply bind_ok in E as ([] & c1 & Ew & E).
  assert (bonds_ok (rest c1) ∧ (Z.of_nat (length (unlocking l0)) ≠ MaxUnlockingChunks → c1 = c))
    as [Hok1 Hc1].
  { apply when_ok in Ew as [[Hw Ew]|[_ ->]]; bool_facts; [|done].
    split; [by eapply do_withdraw_ok|done]. }
  apply bind_ok in E as (l & c0 & El & E). destruct (ledger_fetched _ _ _ _ Hok1 El) as [-> Hf].
  exists ctrl, l0, l, c1. do 6 (split; [done|]).
  minv. apply when_ok in E as [[Hnz E]|[Hz ->]]; bool_facts; [right|by left].
  pose proof Hf as ((A1 & A2 & A3 & A4) & Hn & _). pose proof (chunk_sum_nonneg _ A2).
  destruct (unbond_amount (active l) v Hv ltac:(lia)) as (w & Ex & Hw & Hw1 & Hw2 & Hw3).
  cbv zeta in E, Ex. rewrite Ex in E. cbv zeta in E. minv.
  eexists w, _, _. split_and!; [done..|eassumption|eassumption|].
  eapply same_bonds_trans; [by eapply spares_update_voter|by eapply spares_event].
Qed.

Lemma unbonded_fetched s l w e cs :
  fetched s l → 0 ≤ w ≤ active l → add_chunk w e (unlocking l) = Some cs →
  fetched s (with_amounts (total l) (active l - w) cs l)
  ∧ ∃ cs0 x, cs = cs0 ++ [x] ∧ era x = e ∧ w ≤ value x.
Proof.
  intros Hf Hw E. pose proof Hf as ((A1 & A2 & A3 & A4) & Hn & _).
  destruct (add_chunk_spec w e (unlocking l) cs A2) as (B1 & B2 & B3 & B4); [lia..|done|done|].
  split; [|done]. apply fetched_amounts; [done| |done].
  unfold ledger_ok. fields. split_and!; lia || done.
Qed.

Lemma unbond_ok origin v c c' :
  0 ≤ v → bonds_ok (rest c) → c ⊢ unbond origin v ⇝ c' → bonds_ok (rest c').
Proof.
  intros Hv Hok E. destruct (unbond_run _ _ _ _ Hv Hok E)
    as (ctrl & l0 & l & c1 & _ & _ & Hok1 & _ & _ & Hf & [[_ ->]|Hu]); [done|].
  destruct Hu as (w & cs & c2 & Hw & _ & _ & _ & Ea & Eu & Hs).
  eapply bonds_ok_same; [exact Hs|]. eapply update_fetched; [done| |exact Eu].
  by apply (unbonded_fetched _ _ _ _ _ Hf Hw Ea).
Qed.

(** ** The other calls *)

(** Start of a call: the signer and the ledger they control. *)
Ltac signed_ledger E Hok l Hf :=
  let who := fresh "who" in let c0 := fresh "c0" in let Es := fresh "Es" in let El := fresh "El" in
  apply bind_ok in E as (who & c0 & Es & E); apply ensure_signed_same in Es as ->;
  apply bind_ok in E as (l & c0 & El & E); destruct (ledger_fetched _ _ _ _ Hok El) as [-> Hf].

Lemma chill_ok origin c c' :
  bonds_ok (rest c) → c ⊢ chill origin ⇝ c' → bonds_ok (rest c').
Proof.
  intros Hok E. unfold chill in E. signed_ledger E Hok l Hf.
  unfold chill_stash, get_storage in E. minv.
  pose proof (remove_roles_same (stash l) (rest c)) as Hs.
  destruct (do_remove_validator (stash l) (rest c)) as [b1 s1]. cbn [snd] in Hs.
  destruct (do_remove_nominator (stash l) s1) as [b2 s2]. cbn [snd] in Hs. minv.
  eapply spares_ok; [apply spares_when, spares_event|eassumption|].
  unfold storage in *. minv. by eapply bonds_ok_same.
Qed.

Lemma set_payee_ok origin payee c c' :
  bonds_ok (rest c) → c ⊢ set_payee origin payee ⇝ c' → bonds_ok (rest c').
Proof.
  intros Hok E. unfold set_payee in E. signed_ledger E Hok l Hf.
  unfold set_ledger_payee, get_storage, storage in E. minv.
  destruct Hf as (_ & _ & ctrl & _ & HB). destruct Hok as [Hb Hp]. split; [|exact Hp].
  intros x. specialize (Hb x) as [Hv Hb]. split; [exact Hv|]. cbn.
  change (match rest c with {| Bonded := b |} => b end) with (Bonded (rest c)).
  destruct (decide (x = stash l)) as [->|Hne].
  - rewrite HB in *. destruct Hb as [_ Hb]. split; [|exact Hb]. rewrite lookup_insert_eq. by eexists.
  - rewrite lookup_insert_ne by done. exact Hb.
Qed.

Lemma rebond_ok origin v c c' :
  fits U128_MAX v → bonds_ok (rest c) → c ⊢ rebond_call origin v ⇝ c' → bonds_ok (rest c').
Proof.
  intros Hv Hok E. unfold rebond_call in E. signed_ledger E Hok l Hf.
  pose proof Hf as (Hl & Hn & ctrl & Hc & HB).
  pose proof Hl as (A1 & A2 & A3 & A4).
  destruct (rebond_loop_spec (S (length (unlocking l))) v 0 l)
    as (l' & Er & Hl' & _ & Es' & Ec' & _ & Hn'); [done|done|lia|lia|by right|lia|].
  unfold rebond_ledger, rebond in E. rewrite Er in E. cbn [default from_option id] in E. minv.
  eapply spares_ok; [apply spares_update_voter|eassumption|].
  match goal with H : deposit_event _ _ = Ok _ |- _ =>
    pose proof (spares_event _ _ _ _ H) as Hs end.
  eapply update_fetched; [by eapply bonds_ok_same| |eassumption].
  eapply fetched_same; [apply Hs|]. split; [done|]. split; [lia|].
  exists ctrl. by rewrite Es', Ec'.
Qed.

Lemma force_unstake_ok origin who n c c' :
  bonds_ok (rest c) → c ⊢ force_unstake origin who n ⇝ c' → bonds_ok (rest c').
Proof.
  intros Hok E. unfold force_unstake in E. minv.
  match goal with H : ensure_origin _ _ _ = _ |- _ => apply ensure_origin_ok in H as [_ ->] end.
  by eapply kill_stash_ok.
Qed.

Lemma reap_stash_ok origin who n c c' :
  bonds_ok (rest c) → c ⊢ reap_stash origin who n ⇝ c' → bonds_ok (rest c').
Proof.
  intros Hok E. unfold reap_stash, get_storage in E. minv.
  match goal with H : ensure_signed _ _ = _ |- _ => apply ensure_signed_same in H as -> end.
  by eapply kill_stash_ok.
Qed.

(** A ledger moves from its controller to its stash. *)
Lemma moved_ok s s' l0 l1 ctrl :
  bonds_ok s → Ledger s !! ctrl = Some l0 → Ledger s !! stash l0 = None →
  stash l1 = stash l0 → total l1 = total l0 → active l1 = active l0 →
  unlocking l1 = unlocking l0 →
  Bonded s' = <[stash l0 := stash l0]> (Bonded s) →
  Ledger s' = <[stash l0 := l1]> (delete ctrl (Ledger s)) →
  Payee s' = Payee s → VirtualStakers s' = VirtualStakers s →
  (∀ x, locked x s' = locked x s) → bonds_ok s'.
Proof.
  intros [Hb Hp] HL HN Es Et Ea Eu EB EL EP EV Ek. pose proof (Hp _ _ HL) as HB. split.
  - intros x. unfold bond_ok. rewrite EB, EL, EP, EV, Ek. pose proof (Hb x) as [Hv Hx].
    split; [done|]. destruct (decide (x = stash l0)) as [->|Hne].
    + rewrite HB in Hx. destruct Hx as (HP & l & El & ? & Hok & ? & ?).
      rewrite HL in El. injection El as <-. rewrite !lookup_insert_eq. split; [done|].
      exists l1. unfold ledger_ok. rewrite Et, Ea, Eu.
      do 2 (split; [done|]). split; [exact Hok|done].
    + rewrite lookup_insert_ne by done. destruct (Bonded s !! x) as [ctrl'|] eqn:Ex; [|done].
      destruct Hx as (HP & l & El & El' & Hrest). split; [done|]. exists l.
      rewrite lookup_insert_ne by (intros Heq; rewrite Heq in *; congruence).
      rewrite lookup_delete_ne; [done|]. intros Heq. rewrite Heq in HL. congruence.
  - intros ctrl' l'. rewrite EL, EB.
    intros [[<- <-]|[Hne [Hne' El]%lookup_delete_Some]]%lookup_insert_Some.
    + rewrite Es. apply lookup_insert_eq.
    + pose proof (Hp _ _ El) as HB'. rewrite lookup_insert_ne; [done|].
      intros Heq. rewrite <-Heq in HB'. congruence.
Qed.

Lemma set_controller_ok origin c c' :
  bonds_ok (rest c) → c ⊢ set_controller origin ⇝ c' → bonds_ok (rest c').
Proof.
  intros Hok E. unfold set_controller in E. minv.
  match goal with H : ensure_signed _ _ = _ |- _ => apply ensure_signed_same in H as -> end.
  match goal with H : ledger _ _ = _ |- _ =>
    apply ledger_run in H as (-> & ctrl & l0 & HB & HL & -> & _) end.
  unfold set_controller_to_stash, get_storage, storage in *. minv. bool_facts.
  match goal with H : controller (with_controller (Some ctrl) l0) = Some ?x |- _ =>
    cbn in H; injection H as <- end.
  eapply (moved_ok (rest c) _ l0 (with_controller None (with_controller (Some ctrl) l0)) ctrl);
    try done.
  destruct (Ledger (rest c) !! stash l0) as [y|] eqn:Ey; [|done].
  match goal with H : ∀ x, Ledger _ !! _ = Some x → _ |- _ => specialize (H y Ey) end.
  bool_facts. pose proof (proj2 Hok _ _ Ey). cbn in *. congruence.
Qed.

(** ** Slashes and rewards *)

Lemma keeps_currency_slash who v : keeps (currency_slash (V:=V) who v).
Proof.
  unfold currency_slash. intros c a c' E. minv. repeat (case_match; minv; try done).
  match goal with H : try_mutate_account_handling_dust _ _ _ = Ok _ |- _ =>
    eapply keeps_handling_dust in H; [done|] end.
  intros d b c1 r c2 E'. by minv.
Qed.

Lemma do_slash_ok who v payout slash_era c r c' :
  0 ≤ v → bonds_ok (rest c) → do_slash who v payout slash_era c = Ok (r, c') → bonds_ok (rest c').
Proof.
  intros Hv Hok E. unfold do_slash in E.
  destruct (ledger (OfStash who) c) as [[l c0]|] eqn:El; [|by minv].
  destruct (ledger_fetched _ _ _ _ Hok El) as [-> Hf].
  destruct (slash BondingDuration v ExistentialDeposit slash_era l) as [[l' w] told] eqn:Esl.
  apply bind_ok in E as ([] & c1 & E1 & E).
  assert (same_bonds (rest c) (rest c1)) as Hs.
  { destruct told as [[[x y] z]|]; [by eapply spares_event|]. by minv. }
  pose proof (bonds_ok_same _ _ Hs Hok) as Hok1.
  destruct (w =? 0) eqn:Ew; bool_facts; [by minv|].
  unfold get_storage in E. minv.
  eapply spares_ok; [apply spares_event|eassumption|].
  match goal with H : (if is_virtual_staker _ _ then _ else _) _ = Ok (?x, ?c0) |- _ =>
    assert (rest c0 = rest c1) as Er;
    [case_match; [by minv|by eapply keeps_currency_slash]|] end.
  match goal with H : ignore_err (update l') ?c0 = _ |- _ =>
    unfold ignore_err in H; destruct (update l' c0) as [[[] c3]|] eqn:Eu; minv end;
    [|by rewrite Er].
  eapply update_fetched; [by rewrite Er| |exact Eu].
  eapply fetched_same; [rewrite Er; apply Hs|].
  destruct Hf as (Hl & Hn & ctrl & Hc & HB).
  assert (0 < v) as Hv'.
  { destruct (decide (v = 0)) as [->|]; [|lia]. cbn in Esl. by injection Esl as <- <- <-. }
  pose proof (slash_spec BondingDuration v ExistentialDeposit slash_era l Hl Hv') as Hsp.
  rewrite Esl in Hsp. destruct Hsp as (Hl' & _ & Es & Ec & _ & _ & (cs & Hred & Eu') & _).
  split; [done|]. split; [|exists ctrl; by rewrite Es, Ec].
  rewrite Eu'. etrans; [apply length_filter|]. by rewrite <-(Forall2_length _ _ _ Hred).
Qed.

Lemma keeps_deposit_existing who v : keeps (deposit_into_existing (V:=V) who v).
Proof.
  unfold deposit_into_existing. case_match; [apply keeps_ret|].
  apply keeps_handling_dust. intros a b. keep.
Qed.

Lemma deposited_rest who v c r c' :
  deposited (deposit_into_existing (V:=V) who v) v c = Ok (r, c') → rest c' = rest c.
Proof.
  unfold deposited. destruct (deposit_into_existing who v c) as [[[] c1]|] eqn:E; intros [= <- <-];
    [|done]. by eapply keeps_deposit_existing.
Qed.

Lemma deposit_creating_rest who v c r c' :
  deposit_creating (V:=V) who v c = Ok (r, c') → rest c' = rest c.
Proof.
  unfold deposit_creating. destruct (v =? 0); [intros E; by minv|].
  match goal with |- context [match ?m c with Ok _ => _ | Err _ => _ end] =>
    assert (keeps m) as Hk; [|destruct (m c) as [[d c1]|] eqn:E] end.
  - apply keeps_handling_dust. intros a b. keep.
  - intros [= <- <-]. by eapply Hk.
  - by intros [= <- <-].
Qed.

(** A reward that is staked. *)
Lemma payout_staked_ok who amount l c r c1 c' :
  0 ≤ amount → total l + amount ≤ U128_MAX → bonds_ok (rest c) →
  ledger (OfStash who) c = Ok (l, c) →
  deposited (deposit_into_existing who amount) amount c = Ok (r, c1) →
  c1 ⊢ ignore_err (update (with_amounts (wrap U128_MAX (total l + amount))
                     (wrap U128_MAX (active l + amount)) (unlocking l) l)) ⇝ c' →
  bonds_ok (rest c').
Proof.
  intros Ha Hroom Hok El Ed E. destruct (ledger_fetched _ _ _ _ Hok El) as [_ Hf].
  apply deposited_rest in Ed as Er.
  pose proof Hf as ((A1 & A2 & A3 & A4) & Hn & _). pose proof (chunk_sum_nonneg _ A2).
  rewrite !wrap_small in E by (unfold fits; lia). unfold ignore_err in E.
  match type of E with context [update ?x ?c0] => destruct (update x c0) as [[[] c3]|] eqn:Eu end;
    minv; [|by rewrite Er].
  eapply update_fetched; [by rewrite Er| |exact Eu]. rewrite Er.
  apply fetched_amounts; [done| |done]. unfold ledger_ok. fields. split_and!; lia || done.
Qed.

Lemma make_payout_ok who amount c r c' :
  0 ≤ amount →
  (∀ l c0, ledger (OfStash who) c = Ok (l, c0) → total l + amount ≤ U128_MAX) →
  bonds_ok (rest c) → make_payout who amount c = Ok (r, c') → bonds_ok (rest c').
Proof.
  intros Ha Hroom Hok E. unfold make_payout, get_storage in E.
  destruct (amount =? 0); [by minv|]. minv.
  destruct (reward_destination _ _) as [dest|]; [|by minv]. minv.
  destruct dest; minv; try done.
  - unfold pay_staked in *. destruct (ledger (OfStash who) c) as [[l c0]|] eqn:El; minv; [|done].
    destruct (ledger_fetched _ _ _ _ Hok El) as [-> _]. minv.
    eapply payout_staked_ok; try done. by eapply Hroom.
  - match goal with H : deposited _ _ _ = Ok _ |- _ => apply deposited_rest in H as -> end. done.
  - destruct (paired_account _ _); unfold pay_creating in *; minv; [|done].
    match goal with H : deposit_creating _ _ _ = Ok _ |- _ => apply deposit_creating_rest in H as -> end.
    done.
  - unfold pay_creating in *. minv.
    match goal with H : deposit_creating _ _ _ = Ok _ |- _ => apply deposit_creating_rest in H as -> end.
    done.
Qed.

(** ** Reachable storages *)

(** What happens to the bonds: calls, whether they succeed or not, slashes, rewards,
    and whatever the rest of the runtime does to accounts, eras,
    roles and other locks.  A balance is not negative, and a reward does not take
    a stake beyond the range of a balance, as the total issuance is one. *)
Inductive bond_step : Chain (Bonds V) → Chain (Bonds V) → Prop :=
| step_bond origin v payee c :
    fits U128_MAX v → (∀ x, 0 ≤ free (account x c)) →
    bond_step c (committed (bond origin v payee) c)
| step_bond_extra origin v c :
    fits U128_MAX v → bond_step c (committed (bond_extra origin v) c)
| step_unbond origin v c : fits U128_MAX v → bond_step c (committed (unbond origin v) c)
| step_withdraw origin n c : bond_step c (committed (withdraw_unbonded origin n) c)
| step_chill origin c : bond_step c (committed (chill origin) c)
| step_set_payee origin payee c : bond_step c (committed (set_payee origin payee) c)
| step_set_controller origin c : bond_step c (committed (set_controller origin) c)
| step_rebond origin v c : fits U128_MAX v → bond_step c (committed (rebond_call origin v) c)
| step_force_unstake origin who n c : bond_step c (committed (force_unstake origin who n) c)
| step_reap_stash origin who n c : bond_step c (committed (reap_stash origin who n) c)
| step_slash who v payout slash_era c :
    fits U128_MAX v → bond_step c (committed (do_slash who v payout slash_era) c)
| step_payout who amount c :
    fits U128_MAX amount →
    (∀ l c0, ledger (OfStash who) c = Ok (l, c0) → total l + amount ≤ U128_MAX) →
    bond_step c (committed (make_payout who amount) c)
| step_others c c' : same_bonds (rest c) (rest c') → bond_step c c'.

Definition no_bonds s : Prop :=
  Bonded s = ∅ ∧ Ledger s = ∅ ∧ Payee s = ∅ ∧ ∀ who, locked who s = 0.

Inductive bond_reachable : Chain (Bonds V) → Prop :=
| bond_reach_start c : no_bonds (rest c) → bond_reachable c
| bond_reach_step c c' : bond_reachable c → bond_step c c' → bond_reachable c'.

Lemma committed_ok {A} (m : M DispatchError (Chain (Bonds V)) A) c :
  (∀ a c', m c = Ok (a, c') → bonds_ok (rest c')) → bonds_ok (rest c) →
  bonds_ok (rest (committed m c)).
Proof. intros Hm Hok. unfold committed. destruct (m c) as [[a c']|] eqn:E; [|done]. by eapply Hm. Qed.

Lemma bond_step_ok c c' : bond_step c c' → bonds_ok (rest c) → bonds_ok (rest c').
Proof.
  intros Hst Hok. destruct Hst; try (apply committed_ok; [|done]; intros r c' E; try (destruct r; [])).
  - by eapply bond_run_ok.
  - unfold bond_extra in E. minv.
    match goal with H : ensure_signed _ _ = _ |- _ => apply ensure_signed_same in H as -> end.
    eapply do_bond_extra_ok; [|done..]. by eapply fits_nonneg.
  - eapply unbond_ok; [|done..]. by eapply fits_nonneg.
  - unfold withdraw_unbonded in E. minv.
    match goal with H : ensure_signed _ _ = _ |- _ => apply ensure_signed_same in H as -> end.
    by eapply do_withdraw_ok.
  - by eapply chill_ok.
  - by eapply set_payee_ok.
  - by eapply set_controller_ok.
  - by eapply rebond_ok.
  - by eapply force_unstake_ok.
  - by eapply reap_stash_ok.
  - eapply do_slash_ok; [|done..]. by eapply fits_nonneg.
  - eapply make_payout_ok; [|done..]. by eapply fits_nonneg.
  - by eapply bonds_ok_same.
Qed.

Lemma bond_reachable_ok c : bond_reachable c → bonds_ok (rest c).
Proof.
  induction 1 as [c (EB & EL & EP & Ek)|c c' _ IH Hst]; [|by eapply bond_step_ok].
  split.
  - intros who. unfold bond_ok. rewrite EB, EP, Ek, !lookup_empty. done.
  - intros ctrl l. by rewrite EL, lookup_empty.
Qed.

(** C16. In every state that bonding, slashing and rewards reach, bonds and ledgers are
    paired one to one, every ledger adds up and has no more chunks than allowed, a
    stash that is bonded has a payee, and the lock on its balance is the total of
    its ledger; a stash that is not bonded is not locked.  The inspection of a
    direct bond finds nothing corrupted. *)
Theorem bonds_sound c :
  bond_reachable c →
  (∀ ctrl l, Ledger (rest c) !! ctrl = Some l →
     Bonded (rest c) !! stash l = Some ctrl ∧ is_Some (Payee (rest c) !! stash l)
     ∧ ledger_ok l ∧ (length (unlocking l) ≤ Z.to_nat MaxUnlockingChunks)%nat)
  ∧ (∀ who, who ∉ VirtualStakers (rest c) →
     inspect_bond_state who (rest c)
     = if bool_decide (is_Some (Bonded (rest c) !! who)) then Ok IntegrityOk else Err NotStash).
Proof.
  intros [Hb Hp]%bond_reachable_ok. split.
  - intros ctrl l HL. pose proof (Hp _ _ HL) as HB. pose proof (Hb (stash l)) as [_ Hs].
    rewrite HB in Hs. destruct Hs as (HP & l0 & EL & _ & Hok & Hn & _).
    rewrite HL in EL. by injection EL as <-.
  - intros who Hv. pose proof (Hb who) as [_ Hs]. unfold inspect_bond_state.
    destruct (Bonded (rest c) !! who) as [ctrl|] eqn:EB.
    + destruct Hs as (_ & l & EL & Es & _ & _ & Hk). rewrite bool_decide_true by (by eexists).
      rewrite EL, Es, (Hk Hv), !Z.eqb_refl. done.
    + destruct Hs as [_ ->]. rewrite bool_decide_false; [done|]. by intros [? ?].
Qed.

(** C30. What a call of [unbond] releases waits for the bonding duration: the total and
    the lock stay, the amount leaves the active stake, all of it rather than dust,
    and no withdrawal before the era of the chunk takes it. *)
Theorem unbond_schedules ctrl v c c' l :
  bonds_ok (rest c) → ledger (OfController ctrl) c = Ok (l, c) →
  Z.of_nat (length (unlocking l)) < MaxUnlockingChunks → 0 < Z.min v (active l) →
  c ⊢ unbond (Signed ctrl) v ⇝ c' →
  ∃ l' w, Ledger (rest c') !! ctrl = Some l' ∧ total l' = total l ∧ active l' = active l - w
  ∧ (w = v ∨ w = active l) ∧ Z.min v (active l) ≤ w
  ∧ (active l' = 0 ∨ ExistentialDeposit ≤ active l')
  ∧ (∀ e, e < saturating_add U32_MAX (default 0 (CurrentEra (rest c))) BondingDuration →
       active l' + w ≤ total (consolidate_unlocked e l'))
  ∧ (stash l ∉ VirtualStakers (rest c) → locked (stash l) (rest c') = total l).
Proof.
  intros Hok El Hn Hv E. destruct (unbond_run _ v _ _ ltac:(lia) Hok E)
    as (k & l0 & l1 & c1 & [= <-] & El0 & _ & Hc1 & El1 & Hf & Hu).
  rewrite El in El0. injection El0 as <-. rewrite Hc1 in * by lia. clear Hc1.
  rewrite El in El1. injection El1 as <-.
  destruct Hu as [[? _]|(w & cs & c2 & Hw & Hw1 & Hw2 & Hw3 & Ea & Eu & Hs)]; [lia|].
  destruct (unbonded_fetched _ _ _ _ _ Hf Hw Ea) as [Hf1 (cs0 & x & -> & He & Hx)].
  destruct Hf1 as (Hl1 & _ & k & Hk & HB).
  assert (k = ctrl) as ->.
  { apply ledger_run in El as (_ & k' & l0 & _ & _ & -> & Ek). cbn in *. congruence. }
  destruct (update_run _ ctrl c Hk ltac:(by eexists)) as (c3 & E3 & _ & _ & _ & EL & _ & K & _).
  rewrite E3 in Eu. injection Eu as <-. destruct Hs as (_ & EL' & _ & _ & Ek).
  set (l1 := with_amounts (total l) (active l - w) (cs0 ++ [x]) l) in *.
  exists (with_controller None l1), w. rewrite EL', EL, lookup_insert_eq, Ek.
  do 6 (split; [done|]). split; [|exact K]. intros e Hlt.
  destruct (consolidate_unlocked_spec e (with_controller None l1) Hl1)
    as ((_ & _ & -> & _) & -> & _ & _ & -> & _).
  cbn [with_controller l1 with_amounts active unlocking]. rewrite filter_app, chunk_sum_app.
  rewrite filter_cons, decide_True by lia. rewrite filter_nil, chunk_sum_cons, chunk_sum_nil.
  pose proof Hl1 as (_ & Hf0%Forall_app & _). destruct Hf0 as [Hf0 _].
  pose proof (chunk_sum_nonneg _ (filter_nonneg (λ x, e < era x) _ Hf0)). lia.
Qed.
End bond_laws.

(** ** Examples *)

Module BondExamples.
#[local] Instance voters : VoterListOps unit :=
  {| vl_contains := λ _ _, false; vl_on_update := λ _ _ v, v; vl_on_remove := λ _ v, v;
     to_vote := λ b _, b |}.
#[local] Instance balances : BalancesConfig := {| ExistentialDeposit := 10; MaxConsumers := 16 |}.
#[local] Instance staking : StakingConfig := {| BondingDuration := 28; MaxUnlockingChunks := 32 |}.

Definition empty_bonds : Bonds unit :=
  {| Bonded := ∅; Ledger := ∅; Payee := ∅; VirtualStakers := ∅; SlashingSpansOf := ∅;
     SpanSlash := ∅; Validators := ∅; Nominators := ∅; VoterList := tt; CurrentEra := Some 3;
     MinNominatorBond := 0; MinValidatorBond := 0; Locks := ∅; Events := [] |}.

(** One account, with a free balance of 1000. *)
Definition start : Chain (Bonds unit) :=
  mkChain {[ 1 := mkAccountInfo 0 1 0 (mkAccountData 1000 0 0) ]} 1000 empty_bonds.
Definition bonded : Chain (Bonds unit) := committed (bond (Signed 1) 400 Staked) start.

Lemma start_free x : 0 ≤ free (account x start).
Proof.
  unfold account, get_info, start. cbn [Account].
  destruct (decide (x = 1)) as [->|Hne]; [by rewrite lookup_singleton_eq|].
  by rewrite lookup_singleton_ne.
Qed.

Lemma bonded_reachable : bond_reachable bonded.
Proof.
  apply (bond_reach_step start).
  - apply bond_reach_start. by split_and!.
  - apply step_bond; [done|]. apply start_free.
Qed.

Lemma bonds_sound_witness :
  bond_reachable bonded ∧ inspect_bond_state 1 (rest bonded) = Ok IntegrityOk.
Proof.
  split; [exact bonded_reachable|].
  rewrite (proj2 (bonds_sound bonded bonded_reachable) 1); vm_compute; [reflexivity|].
  intros H. inversion H.
Defined.

Definition bonded_ledger : StakingLedger :=
  {| stash := 1; total := 400; active := 400; unlocking := []; legacy_claimed_rewards := [];
     controller := Some 1 |}.

Lemma unbond_schedules_witness :
  ∃ l' w, Ledger (rest (committed (unbond (Signed 1) 150) bonded)) !! 1 = Some l'
  ∧ total l' = 400 ∧ active l' = 400 - w.
Proof.
  destruct (unbond_schedules 1 150 bonded (committed (unbond (Signed 1) 150) bonded) bonded_ledger
    (bond_reachable_ok _ bonded_reachable)) as (l' & w & H1 & H2 & H3 & _).
  - vm_compute. reflexivity.
  - vm_compute. reflexivity.
  - vm_compute. reflexivity.
  - vm_compute. reflexivity.
  - exists l', w. split; [exact H1|]. split; [exact H2|exact H3].
Defined.
End BondExamples.
